(* ===== verification/_CoqProject ===== *)
-Q . S2P
Prelude.v
Protocol.v
ByteOrder.v
AckFrames.v
Frames.v
PublicHeader.v
HandshakeMessages.v
ReceivedPackets.v
GoFloat.v
FloatBounds.v
SentPackets.v
RttStats.v
Congestion.v
CongestedHandler.v
Olia.v
FlowControl.v
FlowNetwork.v
FrameSorter.v
Stream.v
StreamsMap.v
ConnectionParameters.v
StreamFramer.v
Transfer.v
PacketPacker.v
Crypto.v
Certificates.v
ServerConfig.v
CryptoSetup.v
HandshakeSafety.v
Handshake.v
Session.v
Scheduler.v
SessionRun.v
SessionSafety.v
SessionExamples.v
SessionClose.v
Endpoints.v
