(* ===== verification/Prelude.v ===== *)
(** * Verification of the multipath QUIC transport in mpquic-go (prelude)

    The program is the multipath QUIC library [quic-go] under
    mpquic-go/src/github/lucas-clemente/quic-go (paths below are relative to it). A server
    and a client exchange UDP packets; each connection is a session, which uses several
    paths. A packet has a public header and a sealed payload of frames, which the packer
    writes and the unpacker reads. Each path has a sent packet handler with a congestion
    controller and a received packet handler; a scheduler chooses the path of a packet.
    Streams write through the stream framer and read through a sorter of frames, under flow
    control. The handshake runs on a stream of its own and gives the session its keys and
    parameters.

    ** What models what

    Foundations and the wire format:
    - This file: Go integers of fixed width ([u8] .. [u64], [i64]), [time], errors,
      the [outcome] monad (result, error or panic) for writers, the [Parser] monad for
      readers of a byte slice with the predicates [parses] and [parses1] (no panic, a
      suffix or a proper suffix is left), tactics and the hint database [parse].
    - [Protocol]: internal/protocol (packet number lengths and inference, versions,
      encryption levels, limits), internal/utils/minmax.go, qerr/error_codes.go.
    - [ByteOrder]: internal/utils/byteorder*.go as one class with an instance per
      byte order, float16.go.
    - [AckFrames]: internal/wire/ack_frame.go and close_path_frame.go. The code for
      ranges is the same text in both, and is in the module [ackRanges].
    - [Frames]: one module per other frame of internal/wire, the [Frame] interface as
      a sum type, and packet_unpacker.go with the AEAD as a parameter.
    - [PublicHeader]: internal/wire/public_header.go and version_negotiation.go.
    - [HandshakeMessages]: internal/handshake/handshake_message.go and tags.go,
      internal/wire/public_reset.go.

    Paths:
    - [ReceivedPackets]: ackhandler/received_packet_history.go,
      received_packet_handler.go, stop_waiting_manager.go. The linked list of intervals
      is the list of its values.
    - [GoFloat]: float32 and float64 of Go as IEEE formats of the Standard Library;
      [FloatBounds]: how far a result of float arithmetic is from the exact rational one.
    - [SentPackets]: ackhandler/packet.go, retransmittable.go, sent_packet_handler.go.
      The estimator and the congestion controller are the classes [RTTStats] and
      [SendAlgorithm] (congestion/interface.go), so the theorems hold for every
      implementation. Calls of the acknowledgement callback are returned and are run
      after ReceivedAck; the answer of the RTO callback is an argument.
    - [RttStats]: congestion/rtt_stats.go, an instance of [RTTStats].
    - [Congestion]: congestion/cubic.go, hybrid_slow_start.go, prr_sender.go,
      bandwidth.go, stats.go and cubic_sender.go, an instance of [SendAlgorithm]. The
      fields that the CUBIC and the OLIA sender share are the module [window].
    - [CongestedHandler]: the sent packet handler run with the CUBIC sender.
    - [Olia]: congestion/olia.go and olia_sender.go. The senders of all paths are a map
      from path identifiers, which each of them updates.

    Streams:
    - [FlowControl]: internal/flowcontrol/flow_controller.go and flow_control_manager.go;
      [FlowNetwork]: the managers of two ends and a network that reorders what they send.
    - [FrameSorter]: stream_frame_sorter.go, with the list of gaps as a list.
    - [Stream]: stream.go. Read and Write are state machines whose steps are the parts
      between two points where the mutex is given up.
    - [StreamsMap]: streams_map.go and the functions of session.go that make, find and
      collect streams.
    - [ConnectionParameters]: internal/handshake/connection_parameters_manager.go.
    - [StreamFramer]: stream_framer.go.
    - [Transfer]: the streams of two ends with framers and sorters between them, and a
      network that loses, repeats and reorders frames.

    The handshake:
    - [Crypto]: internal/crypto, over the primitives of third-party packages (AES-GCM,
      HKDF, FNV-128a, Curve25519) as the record [Primitives] with the laws [PrimitivesOk].
    - [Certificates]: cert_compression.go, cert_cache.go, cert_chain.go, cert_manager.go
      and server_proof.go of internal/crypto; zlib, X.509, hashes and signatures are
      parameters.
    - [ServerConfig]: internal/handshake/server_config*.go, ephermal_cache.go and
      cookie_generator.go.
    - [CryptoSetup]: internal/handshake/crypto_setup_server.go and crypto_setup_client.go.
      Each event of HandleCryptoStream is one computation on the state of an end.
    - [HandshakeSafety], [Handshake]: theorems on them.

    The session and the endpoints:
    - [PacketPacker]: packet_packer.go, packet_number_generator.go.
    - [Session]: the state of a session, its paths and scheduler, and a monad of
      computations on it ([Done], [Fails], [Panics], [Blocks], [Runs]); [Scheduler]:
      scheduler.go; [SessionRun]: path.go, path_manager.go and the run loop of session.go.
      What the program reads from outside (clock, random bytes, results of writes, order of
      map traversals) is a record of functions of the number of readings before. Goroutines
      are events between iterations of the loop.
    - [SessionSafety]: theorems about all runs; [SessionExamples]: sessions that run.
    - [SessionClose]: what session.go does after its run loop.
    - [Endpoints]: server.go, client.go and interface.go. Sessions are behind the class
      [packetHandler], which the session of [Session] implements.

    Records have the fields of the structs and definitions the names of the methods. A
    loop of the source that has no name of its own is a Fixpoint next to its method.
    [time.Now] is an argument of the operation that reads it.

    ** What the theorems show

    - Sending: on every run of the handler, with any packets duplicated in between, no packet
      that must arrive is forgotten, the bytes in flight are the bytes of the history, an ACK
      takes exactly what it acknowledges out of the history and queues what is lost, errors
      change nothing ([SentPackets]). The frames of a lost packet are sent again by the
      scheduler, which chooses usable paths, with a retransmission too unless it is asked for
      one without a path ([Scheduler]); packet numbers of a path grow, and duplicates
      are only taken back when that loses nothing ([SessionSafety]). A session that ends
      cancels its streams, ends its paths and tells the peer, if the message of the error fits
      into a packet ([SessionClose]).
    - Receiving: the history of intervals refines a set of packet numbers; the frames
      made from it acknowledge only what was received, and in time ([ReceivedPackets]).
    - The wire format: every frame, payload, header and handshake message that is written
      is read back by the peer; MinLength is the length written; truncated packet numbers
      are recovered; no input of bytes makes a parser panic, and what is accepted is well
      formed ([ByteOrder], [AckFrames], [Frames], [PublicHeader], [HandshakeMessages]);
      packed packets fit and arrive, or packing fails because the ACK frame is too long
      ([PacketPacker]).
    - Congestion: windows stay between their bounds, the CUBIC window follows the
      cubic curve and the Reno estimate of the paper, a round trip is cut back once, or by
      one packet per further loss with the large reduction of slow start,
      proportional rate reduction limits what is sent in recovery, OLIA chooses and
      balances paths as its paper says ([Congestion], [Olia]); with the handler, data
      is only sent while the bytes in flight are below the window
      ([CongestedHandler]). The smoothed RTT lies between the samples ([RttStats]).
    - Streams: what was sent stays within the windows of the peer, also for the windows
      that the handshake negotiates, of streams and of the connection ([FlowControl],
      [FlowNetwork], [ConnectionParameters]); data that
      arrives in any order, in pieces and repeated is read in order, without a panic until
      the stream is reset without an error ([FrameSorter], [Stream]); the framer fills packets, holds nothing back and obeys the windows
      ([StreamFramer]); what the reader gets is a prefix of what the writer wrote
      ([Transfer]).
    - Handshake: from the hello with a token on, the two ends of an undisturbed handshake
      derive matching keys and agree on the parameters, if the client knows the versions of
      the server or has not negotiated them ([Handshake]); a client without cache has keys
      only after it has verified proof and certificate of a server, forward-secure ones only
      after a packet that this server has sealed, and packets of a lower encryption level are
      not accepted after a higher one while the handshake goes on ([HandshakeSafety]); nonces
      differ ([Crypto]); configurations are read back, compressed chains too when no read of
      the decompressed data is short ([ServerConfig], [Certificates]).
    - Endpoints: datagrams only reach the session of their connection, the table of sessions
      is consistent, client and server find their best common version, and a forged version
      negotiation is noticed by the handshake ([Endpoints]).
    - Some theorems and examples state where the code leaves its intention: long first gaps
      in ACK frames, PATHS frames with 85 paths, CLOSE_PATH on an unused path, frames for
      unknown paths, duplicates that queue an ACK, unlimited streams of a client.

    ** Bounds and fuel

    Loops over lists are structural. The unpacker has the length of the payload as
    fuel, each frame takes at least one byte; the loop that splits a long gap has one
    unit per block; the loop that empties the history has its length; the loops over
    entries of compressed certificates and over public values have the length of the data.
    Theorems state that the result exists, never only what it would be; the loop of
    sendPacket has a fuel of its own and reports [Runs] when it is used up, because in the
    source it need not end. Packet numbers are below 2^48, the limit of the wire format; a
    session makes at most 2^60 readings and 127 paths.

    The theorems on congestion control bound what the configuration sets: at most 256
    emulated connections, windows of at most 2^20 packets, RTTs of at most 2^21
    microseconds, 2^22 acknowledgements between losses, epochs of 256 seconds; inside
    these the arithmetic of the source does not wrap. [math.Cbrt] is only used for its
    integer part, the integer cube root. Where a Go map is traversed and the order
    matters, the order is an argument.

    ** What is not modelled

    Sockets and the goroutines that read them (pconn_manager.go), Dial and Accept as far as
    they wait on channels, the TLS handshake, whose state is in a third-party library,
    ChaCha20, which is excluded from the build, h2quic, the example programs and the bundled
    Caddy server. Log output is left out everywhere. Frames are values. A writer that fails
    has no output in the model, in the source the buffer may hold a part of it; the callers
    drop the buffer then. *)

From stdpp Require Export base tactics option list numbers strings gmap.
From Stdlib Require Export ZArith Lia.

#[global] Open Scope Z_scope.

(** ** Fixed-width integers

    Go's unsigned integers are [Z] with the wrap-around of their width written
    out; [i64] is the two's complement reading used by [int64] and
    [time.Duration]. The moduli 2^8, 2^16, 2^32 and 2^64 are literals so that the
    model evaluates quickly. *)

Definition u8 (z : Z) : Z := z mod 256.
Definition u16 (z : Z) : Z := z mod 65536.
Definition u32 (z : Z) : Z := z mod 4294967296.
Definition u64 (z : Z) : Z := z mod 18446744073709551616.
Definition i64 (z : Z) : Z :=
  (z + 9223372036854775808) mod 18446744073709551616 - 9223372036854775808.

(** A byte is a [Z] in range; byte slices are lists of them. *)
Definition is_byte (b : Z) : Prop := 0 <= b < 256.
Definition is_u8 (z : Z) : Prop := 0 <= z < 2 ^ 8.
Definition is_u16 (z : Z) : Prop := 0 <= z < 2 ^ 16.
Definition is_u32 (z : Z) : Prop := 0 <= z < 2 ^ 32.
Definition is_u64 (z : Z) : Prop := 0 <= z < 2 ^ 64.

(** Go's [len] of a slice. *)
Definition len {A} (l : list A) : Z := Z.of_nat (length l).

(** ** Errors and outcomes

    An error value is [io.EOF], [io.ErrUnexpectedEOF], a value made by
    [errors.New]/[fmt.Errorf] (identified by its text) or a [qerr.QuicError]
    (identified by its code; its text is not modelled). *)

Inductive error :=
  | EOF
  | UnexpectedEOF
  | NewError (msg : string)
  | QuicError (code : Z).

#[global] Instance error_eq_dec : EqDecision error.
Proof. solve_decision. Defined.

(** What a call does: it returns a value, returns an error, or panics
    (explicit [panic], or an index or slice bound out of range). *)
Inductive outcome (A : Type) :=
  | Ok (a : A)
  | Err (e : error)
  | Panic.
Arguments Ok {_} _.
Arguments Err {_} _.
Arguments Panic {_}.

#[global] Instance outcome_ret : MRet outcome := λ A a, Ok a.
#[global] Instance outcome_bind : MBind outcome := λ A B k m,
  match m with Ok a => k a | Err e => Err e | Panic => Panic end.

Definition is_ok {A} (o : outcome A) : bool :=
  match o with Ok _ => true | _ => false end.

(** ** Readers

    A [bytes.Reader] is the list of its unread bytes; a parser consumes a
    prefix of it. *)

Definition Parser (A : Type) : Type := list Z → outcome (A * list Z).

#[global] Instance parser_ret : MRet Parser := λ A a r, Ok (a, r).
#[global] Instance parser_bind : MBind Parser := λ A B k p r,
  match p r with Ok (a, r') => k a r' | Err e => Err e | Panic => Panic end.

#[global] Instance parser_fmap : FMap Parser := λ A B f p r,
  match p r with Ok (a, r') => Ok (f a, r') | Err e => Err e | Panic => Panic end.

Definition throw {A} (e : error) : Parser A := λ _, Err e.
Definition panic {A} : Parser A := λ _, Panic.

(** [bytes.Reader.ReadByte] *)
Definition ReadByte : Parser Z := λ r,
  match r with [] => Err EOF | b :: r' => Ok (b, r') end.

(** [bytes.Reader.Len] *)
Definition ReaderLen : Parser Z := λ r, Ok (len r, r).

(** [io.ReadFull] into a fresh buffer of [n] bytes: EOF when nothing is left,
    ErrUnexpectedEOF when the input ends inside the buffer. *)
Definition ReadFull (n : nat) : Parser (list Z) := λ r,
  if decide (n ≤ length r)%nat then Ok (take n r, drop n r)
  else match r with [] => Err EOF | _ => Err UnexpectedEOF end.

(** ** Time

    A [time.Time] is a number of nanoseconds with the zero time at 0; a
    [time.Duration] is an [int64]. [Sub] saturates, as in Go. Readings of the
    clock are arguments of the operations that take them. *)
Module time.
Definition Microsecond : Z := 1000.
Definition Millisecond : Z := 1000000.
Definition Second : Z := 1000000000.
Definition zero : Z := 0.
Definition IsZero (t : Z) : bool := t =? 0.
Definition Sub (t u : Z) : Z := Z.max (- 2 ^ 63) (Z.min (2 ^ 63 - 1) (t - u)).
Definition Add (t d : Z) : Z := t + d.
Definition After (t u : Z) : bool := u <? t.
Definition Before (t u : Z) : bool := t <? u.
End time.

(** ** Tactics *)

Ltac Zify.zify_post_hook ::= Z.to_euclidean_division_equations.

(** Unfold the widths and finish with linear arithmetic. *)
Ltac width_unfold :=
  unfold u8, u16, u32, u64, i64, is_byte, is_u8, is_u16, is_u32, is_u64, len in *.
Ltac zlia := width_unfold; lia.

(** Decide a boolean comparison that occurs in the goal or a hypothesis. *)
Ltac case_bool :=
  match goal with
  | |- context [?a =? ?b] => destruct (Z.eqb_spec a b)
  | |- context [?a <? ?b] => destruct (Z.ltb_spec a b)
  | |- context [?a <=? ?b] => destruct (Z.leb_spec a b)
  | H : context [?a =? ?b] |- _ => destruct (Z.eqb_spec a b)
  | H : context [?a <? ?b] |- _ => destruct (Z.ltb_spec a b)
  | H : context [?a <=? ?b] |- _ => destruct (Z.leb_spec a b)
  end.

(** ** Hint databases *)

Create HintDb quic.
Create HintDb parse.
Create Rewrite HintDb len.

(** ** Shared lemmas *)

Lemma u8_id z : is_u8 z → u8 z = z.
Proof. zlia. Qed.
Lemma u16_id z : is_u16 z → u16 z = z.
Proof. zlia. Qed.
Lemma u32_id z : is_u32 z → u32 z = z.
Proof. zlia. Qed.
Lemma u64_id z : is_u64 z → u64 z = z.
Proof. zlia. Qed.
Lemma u8_range z : is_u8 (u8 z).
Proof. zlia. Qed.
Lemma u16_range z : is_u16 (u16 z).
Proof. zlia. Qed.
Lemma u32_range z : is_u32 (u32 z).
Proof. zlia. Qed.
Lemma u64_range z : is_u64 (u64 z).
Proof. zlia. Qed.

#[export] Hint Resolve u8_range u16_range u32_range u64_range : quic.

Lemma len_app {A} (l k : list A) : len (l ++ k) = len l + len k.
Proof. unfold len. rewrite length_app. lia. Qed.
Lemma len_cons {A} (x : A) l : len (x :: l) = 1 + len l.
Proof. unfold len. simpl. lia. Qed.
Lemma len_nil {A} : len (@nil A) = 0.
Proof. done. Qed.
Lemma len_nonneg {A} (l : list A) : 0 <= len l.
Proof. unfold len. lia. Qed.

Lemma len_take {A} (n : nat) (l : list A) : len (take n l) = Z.min (Z.of_nat n) (len l).
Proof. unfold len. rewrite length_take. lia. Qed.
Lemma len_drop {A} (n : nat) (l : list A) : len (drop n l) = Z.max 0 (len l - Z.of_nat n).
Proof. unfold len. rewrite length_drop. lia. Qed.
Lemma len_zero {A} (l : list A) : len l = 0 → l = [].
Proof. unfold len. intros. apply nil_length_inv. lia. Qed.

#[export] Hint Rewrite @len_app @len_cons @len_nil : len.
#[export] Hint Resolve len_nonneg : quic.

Lemma parser_bind_ok {A B} (p : Parser A) (k : A → Parser B) r a r' :
  p r = Ok (a, r') → (p ≫= k) r = k a r'.
Proof. intros H. unfold mbind, parser_bind. by rewrite H. Qed.

Lemma parser_bind_inv {A B} (p : Parser A) (k : A → Parser B) r b r'' :
  (p ≫= k) r = Ok (b, r'') → ∃ a r', p r = Ok (a, r') ∧ k a r' = Ok (b, r'').
Proof. unfold mbind, parser_bind. destruct (p r) as [[a r']| |]; naive_solver. Qed.

Lemma parser_bind_panic {A B} (p : Parser A) (k : A → Parser B) r :
  p r ≠ Panic → (∀ a r', p r = Ok (a, r') → k a r' ≠ Panic) → (p ≫= k) r ≠ Panic.
Proof. unfold mbind, parser_bind. destruct (p r) as [[a r']| |]; naive_solver. Qed.

Lemma parser_fmap_ok {A B} (f : A → B) (p : Parser A) r a r' :
  p r = Ok (a, r') → (f <$> p) r = Ok (f a, r').
Proof. intros H. unfold fmap, parser_fmap. by rewrite H. Qed.

Lemma outcome_bind_inv {A B} (m : outcome A) (k : A → outcome B) b :
  (m ≫= k) = Ok b → ∃ a, m = Ok a ∧ k a = Ok b.
Proof. unfold mbind, outcome_bind. destruct m; naive_solver. Qed.

Lemma ReadByte_cons b r : ReadByte (b :: r) = Ok (b, r).
Proof. done. Qed.

Lemma ReadFull_app d r : ReadFull (length d) (d ++ r) = Ok (d, r).
Proof.
  unfold ReadFull. rewrite decide_True by (rewrite length_app; lia).
  by rewrite take_app_length, drop_app_length.
Qed.

Lemma ReadFull_length n r d r' : ReadFull n r = Ok (d, r') → length d = n ∧ r = d ++ r'.
Proof.
  unfold ReadFull. case_decide; [|by destruct r].
  intros [= <- <-]. rewrite length_take, take_drop. split; [lia|done].
Qed.

(** ** Safe parsers

    [parses p Q]: on every input of bytes [p] does not panic, and a value that it
    returns satisfies [Q] and leaves a suffix of the input. *)
Definition parses {A} (p : Parser A) (Q : A → Prop) : Prop :=
  ∀ r, Forall is_byte r →
    match p r with
    | Ok (a, r') => Q a ∧ ∃ pre, r = pre ++ r'
    | Err _ => True
    | Panic => False
    end.

Lemma parses_ret {A} (a : A) (Q : A → Prop) : Q a → parses (mret a) Q.
Proof. intros H r _. split; [done|]. by exists []. Qed.

Lemma parses_throw {A} e (Q : A → Prop) : parses (throw e) Q.
Proof. by intros r _. Qed.

Lemma parses_bind {A B} (p : Parser A) (k : A → Parser B) Q R :
  parses p Q → (∀ a, Q a → parses (k a) R) → parses (p ≫= k) R.
Proof.
  intros Hp Hk r Hr. specialize (Hp r Hr). unfold mbind, parser_bind.
  destruct (p r) as [[a r']| |]; [|done|done]. destruct Hp as [Ha [pre ->]].
  apply Forall_app in Hr as [_ Hr]. specialize (Hk a Ha r' Hr).
  destruct (k a r') as [[b r'']| |]; [|done|done]. destruct Hk as [Hb [pre' ->]].
  split; [done|]. exists (pre ++ pre'). by rewrite app_assoc.
Qed.

Lemma parses_mono {A} (p : Parser A) (Q R : A → Prop) :
  parses p Q → (∀ a, Q a → R a) → parses p R.
Proof. intros Hp HR r Hr. specialize (Hp r Hr). destruct (p r) as [[a r']| |]; naive_solver. Qed.

Lemma parses_fmap {A B} (f : A → B) (p : Parser A) Q R :
  parses p Q → (∀ a, Q a → R (f a)) → parses (f <$> p) R.
Proof.
  intros Hp HR r Hr. specialize (Hp r Hr). unfold fmap, parser_fmap.
  destruct (p r) as [[a r']| |]; naive_solver.
Qed.

Lemma parses_if {A} (b : bool) (p q : Parser A) Q :
  (b = true → parses p Q) → (b = false → parses q Q) → parses (if b then p else q) Q.
Proof. destruct b; auto. Qed.

Lemma parses_ReadByte : parses ReadByte is_byte.
Proof.
  intros [|b r] H; [done|]. apply Forall_cons in H as [? _]. simpl. split; [done|]. by exists [b].
Qed.

Lemma parses_ReaderLen : parses ReaderLen (λ n, 0 <= n).
Proof. intros r _. simpl. split; [apply len_nonneg|]. by exists []. Qed.

Lemma parses_ReadFull n : parses (ReadFull n) (λ d, length d = n ∧ Forall is_byte d).
Proof.
  intros r Hr. destruct (ReadFull n r) as [[d r']| |] eqn:E; [|done|].
  - apply ReadFull_length in E as [? ->]. apply Forall_app in Hr as [? _]. eauto.
  - unfold ReadFull in E. case_decide; [done|]. by destruct r.
Qed.

(** As [parses], for a parser that takes at least one byte. *)
Definition parses1 {A} (p : Parser A) (Q : A → Prop) : Prop :=
  ∀ r, Forall is_byte r →
    match p r with
    | Ok (a, r') => Q a ∧ ∃ b pre, r = b :: pre ++ r'
    | Err _ => True
    | Panic => False
    end.

Lemma parses1_byte {A} (k : Z → Parser A) Q :
  (∀ b, is_byte b → parses (k b) Q) → parses1 (ReadByte ≫= k) Q.
Proof.
  intros Hk [|b r] Hr; [done|]. apply Forall_cons in Hr as [Hb Hr]. specialize (Hk b Hb r Hr).
  change ((ReadByte ≫= k) (b :: r)) with (k b r).
  destruct (k b r) as [[a r']| |]; [|done|done]. destruct Hk as [? [pre ->]]. eauto.
Qed.

Lemma parses1_fmap {A B} (g : A → B) (p : Parser A) Q R :
  parses1 p Q → (∀ a, Q a → R (g a)) → parses1 (g <$> p) R.
Proof.
  intros Hp HR r Hr. specialize (Hp r Hr). unfold fmap, parser_fmap.
  destruct (p r) as [[a r']| |]; naive_solver.
Qed.

Lemma parses1_mono {A} (p : Parser A) (Q R : A → Prop) :
  parses1 p Q → (∀ a, Q a → R a) → parses1 p R.
Proof. intros Hp HR r Hr. specialize (Hp r Hr). destruct (p r) as [[a r']| |]; naive_solver. Qed.

Lemma parses1_check {A B} (p : Parser A) (k : A → Parser B) Q R :
  parses1 p Q → (∀ a r, Q a → match k a r with Ok (b, r') => R b ∧ r' = r | Err _ => True | Panic => False end) →
  parses1 (p ≫= k) R.
Proof.
  intros Hp Hk r Hr. specialize (Hp r Hr). unfold mbind, parser_bind.
  destruct (p r) as [[a r']| |]; [|done|done]. destruct Hp as [Ha (b & pre & ->)].
  specialize (Hk a r' Ha). destruct (k a r') as [[x r'']| |]; [|done|done].
  destruct Hk as [? ->]. eauto.
Qed.

(** What a safe parser says of one run. *)
Lemma parses_ok {A} (p : Parser A) Q r a r' : parses p Q → Forall is_byte r → p r = Ok (a, r') →
  Q a ∧ ∃ pre, r = pre ++ r'.
Proof. intros Hp Hr E. specialize (Hp r Hr). by rewrite E in Hp. Qed.

Lemma parses_no_panic {A} (p : Parser A) Q r : parses p Q → Forall is_byte r → p r ≠ Panic.
Proof. intros Hp Hr E. specialize (Hp r Hr). by rewrite E in Hp. Qed.

#[export] Hint Resolve parses_ReadByte parses_ReaderLen parses_ReadFull parses_throw : parse.

(** One step of a parser that is known to be safe. *)
Ltac parse_step :=
  first
    [ solve [eauto with parse typeclass_instances]
    | eapply parses_bind; [solve [eauto with parse typeclass_instances]|intros ? ?; cbv beta iota zeta]
    | apply parses_if; intros ?
    | apply parses_ret ].
