(* ===== verification/Protocol.v ===== *)
(** * Protocol constants and pure helpers

    [internal/protocol] (packet numbers, versions, constants), [qerr] (error
    codes) and the min/max helpers of [internal/utils/minmax.go]. *)

From S2P Require Import Prelude.

(** ** qerr/error_codes.go *)
Module qerr.

(** The named error codes. A code on the wire is any [uint32]; these are the
    names the source gives to some of them. *)
Inductive ErrorName :=
  | InternalError
  | StreamDataAfterTermination
  | InvalidPacketHeader
  | InvalidFrameData
  | MissingPayload
  | InvalidFecData
  | InvalidStreamData
  | OverlappingStreamData
  | UnencryptedStreamData
  | AttemptToSendUnencryptedStreamData
  | UnencryptedFecData
  | InvalidRstStreamData
  | InvalidConnectionCloseData
  | InvalidGoawayData
  | InvalidWindowUpdateData
  | InvalidBlockedData
  | InvalidStopWaitingData
  | InvalidPathCloseData
  | InvalidAckData
  | InvalidVersionNegotiationPacket
  | InvalidPublicRstPacket
  | DecryptionFailure
  | EncryptionFailure
  | PacketTooLarge
  | PeerGoingAway
  | InvalidStreamID
  | InvalidPriority
  | TooManyOpenStreams
  | TooManyAvailableStreams
  | PublicReset
  | InvalidVersion
  | InvalidHeaderID
  | InvalidNegotiatedValue
  | DecompressionFailure
  | NetworkIdleTimeout
  | HandshakeTimeout
  | ErrorMigratingAddress
  | ErrorMigratingPort
  | PacketWriteError
  | PacketReadError
  | EmptyStreamFrameNoFin
  | InvalidHeadersStreamData
  | HeadersStreamDataDecompressFailure
  | FlowControlReceivedTooMuchData
  | FlowControlSentTooMuchData
  | FlowControlInvalidWindow
  | ConnectionIPPooled
  | TooManyOutstandingSentPackets
  | TooManyOutstandingReceivedPackets
  | ConnectionCancelled
  | BadPacketLossRate
  | PublicResetsPostHandshake
  | TimeoutsWithOpenStreams
  | FailedToSerializePacket
  | TooManyRtos
  | HandshakeFailed
  | CryptoTagsOutOfOrder
  | CryptoTooManyEntries
  | CryptoInvalidValueLength
  | CryptoMessageAfterHandshakeComplete
  | InvalidCryptoMessageType
  | InvalidCryptoMessageParameter
  | InvalidChannelIDSignature
  | CryptoMessageParameterNotFound
  | CryptoMessageParameterNoOverlap
  | CryptoMessageIndexNotFound
  | CryptoInternalError
  | CryptoVersionNotSupported
  | CryptoHandshakeStatelessReject
  | CryptoNoSupport
  | CryptoTooManyRejects
  | ProofInvalid
  | CryptoDuplicateTag
  | CryptoEncryptionLevelIncorrect
  | CryptoServerConfigExpired
  | CryptoSymmetricKeySetupFailed
  | CryptoMessageWhileValidatingClientHello
  | CryptoUpdateBeforeHandshakeComplete
  | VersionNegotiationMismatch
  | BadMultipathFlag
  | IPAddressChanged
  | ConnectionMigrationNoMigratableStreams
  | ConnectionMigrationTooManyChanges
  | ConnectionMigrationNoNewNetwork
  | ConnectionMigrationNonMigratableStream.

Definition ErrorCode (n : ErrorName) : Z :=
  match n with
  | InternalError => 1
  | StreamDataAfterTermination => 2
  | InvalidPacketHeader => 3
  | InvalidFrameData => 4
  | MissingPayload => 48
  | InvalidFecData => 5
  | InvalidStreamData => 46
  | OverlappingStreamData => 87
  | UnencryptedStreamData => 61
  | AttemptToSendUnencryptedStreamData => 88
  | UnencryptedFecData => 77
  | InvalidRstStreamData => 6
  | InvalidConnectionCloseData => 7
  | InvalidGoawayData => 8
  | InvalidWindowUpdateData => 57
  | InvalidBlockedData => 58
  | InvalidStopWaitingData => 60
  | InvalidPathCloseData => 78
  | InvalidAckData => 9
  | InvalidVersionNegotiationPacket => 10
  | InvalidPublicRstPacket => 11
  | DecryptionFailure => 12
  | EncryptionFailure => 13
  | PacketTooLarge => 14
  | PeerGoingAway => 16
  | InvalidStreamID => 17
  | InvalidPriority => 49
  | TooManyOpenStreams => 18
  | TooManyAvailableStreams => 76
  | PublicReset => 19
  | InvalidVersion => 20
  | InvalidHeaderID => 22
  | InvalidNegotiatedValue => 23
  | DecompressionFailure => 24
  | NetworkIdleTimeout => 25
  | HandshakeTimeout => 67
  | ErrorMigratingAddress => 26
  | ErrorMigratingPort => 86
  | PacketWriteError => 27
  | PacketReadError => 51
  | EmptyStreamFrameNoFin => 50
  | InvalidHeadersStreamData => 56
  | HeadersStreamDataDecompressFailure => 97
  | FlowControlReceivedTooMuchData => 59
  | FlowControlSentTooMuchData => 63
  | FlowControlInvalidWindow => 64
  | ConnectionIPPooled => 62
  | TooManyOutstandingSentPackets => 68
  | TooManyOutstandingReceivedPackets => 69
  | ConnectionCancelled => 70
  | BadPacketLossRate => 71
  | PublicResetsPostHandshake => 73
  | TimeoutsWithOpenStreams => 74
  | FailedToSerializePacket => 75
  | TooManyRtos => 85
  | HandshakeFailed => 28
  | CryptoTagsOutOfOrder => 29
  | CryptoTooManyEntries => 30
  | CryptoInvalidValueLength => 31
  | CryptoMessageAfterHandshakeComplete => 32
  | InvalidCryptoMessageType => 33
  | InvalidCryptoMessageParameter => 34
  | InvalidChannelIDSignature => 52
  | CryptoMessageParameterNotFound => 35
  | CryptoMessageParameterNoOverlap => 36
  | CryptoMessageIndexNotFound => 37
  | CryptoInternalError => 38
  | CryptoVersionNotSupported => 39
  | CryptoHandshakeStatelessReject => 72
  | CryptoNoSupport => 40
  | CryptoTooManyRejects => 41
  | ProofInvalid => 42
  | CryptoDuplicateTag => 43
  | CryptoEncryptionLevelIncorrect => 44
  | CryptoServerConfigExpired => 45
  | CryptoSymmetricKeySetupFailed => 53
  | CryptoMessageWhileValidatingClientHello => 54
  | CryptoUpdateBeforeHandshakeComplete => 65
  | VersionNegotiationMismatch => 55
  | BadMultipathFlag => 79
  | IPAddressChanged => 80
  | ConnectionMigrationNoMigratableStreams => 81
  | ConnectionMigrationTooManyChanges => 82
  | ConnectionMigrationNoNewNetwork => 83
  | ConnectionMigrationNonMigratableStream => 84
  end.

(** [qerr.Error(code, msg)]; the message text is not modelled. *)
Definition Error (n : ErrorName) : error := QuicError (ErrorCode n).

End qerr.

(** ** internal/utils/minmax.go *)
Module utils.

Definition InfDuration : Z := 9223372036854775807.
Definition Max (a b : Z) : Z := if a <? b then b else a.
Definition Min (a b : Z) : Z := if a <? b then a else b.
Definition MaxUint32 (a b : Z) : Z := if a <? b then b else a.
Definition MinUint32 (a b : Z) : Z := if a <? b then a else b.
Definition MaxUint64 (a b : Z) : Z := if a <? b then b else a.
Definition MinUint64 (a b : Z) : Z := if a <? b then a else b.
Definition MinInt64 (a b : Z) : Z := if a <? b then a else b.
Definition MaxInt64 (a b : Z) : Z := if b <? a then a else b.
Definition MinTime (a b : Z) : Z := if time.After a b then b else a.
Definition MaxTime (a b : Z) : Z := if time.After a b then a else b.
Definition MinByteCount (a b : Z) : Z := if a <? b then a else b.
Definition MaxByteCount (a b : Z) : Z := if b <? a then a else b.
Definition MaxDuration (a b : Z) : Z := if b <? a then a else b.
Definition MinDuration (a b : Z) : Z := if b <? a then b else a.
Definition AbsDuration (d : Z) : Z := if 0 <=? d then d else i64 (- d).
Definition MaxPacketNumber (a b : Z) : Z := if b <? a then a else b.
Definition MinPacketNumber (a b : Z) : Z := if a <? b then a else b.

End utils.

(** ** internal/protocol *)
Module protocol.

(** *** perspective.go *)
Inductive Perspective := PerspectiveServer | PerspectiveClient.

#[global] Instance Perspective_eq_dec : EqDecision Perspective.
Proof. solve_decision. Defined.

(** *** encryption_level.go *)
Inductive EncryptionLevel :=
  | EncryptionUnspecified
  | EncryptionUnencrypted
  | EncryptionSecure
  | EncryptionForwardSecure.

#[global] Instance EncryptionLevel_eq_dec : EqDecision EncryptionLevel.
Proof. solve_decision. Defined.

(** The [iota] values, by which levels are compared. *)
Definition encryption_rank (e : EncryptionLevel) : Z :=
  match e with
  | EncryptionUnspecified => 0
  | EncryptionUnencrypted => 1
  | EncryptionSecure => 2
  | EncryptionForwardSecure => 3
  end.

(** *** protocol.go and server_parameters.go: the constants used below *)
Definition PacketNumberLenInvalid : Z := 0.
Definition PacketNumberLen1 : Z := 1.
Definition PacketNumberLen2 : Z := 2.
Definition PacketNumberLen4 : Z := 4.
Definition PacketNumberLen6 : Z := 6.
Definition InitialPathID : Z := 0.
Definition MaxByteCount : Z := 2 ^ 64 - 1.
Definition MaxPacketSize : Z := 1350.
Definition MaxTrackedReceivedAckRanges : Z := 2500.
Definition MaxPacketsReceivedBeforeAckSend : Z := 20.
Definition RetransmittablePacketsBeforeAck : Z := 2.
Definition MaxNonRetransmittablePackets : Z := 19.
Definition DefaultTCPMSS : Z := 1460.
Definition DefaultMaxCongestionWindow : Z := 2500.
Definition InitialCongestionWindow : Z := 32.
Definition MaxTrackedSentPackets : Z := 5000.
Definition MaxTrackedSkippedPackets : Z := 10.
Definition MaxStreamFrameSorterGaps : Z := 2500.
Definition MaxNewStreamIDDelta : Z := 400.
Definition AckSendDelay : Z := 25 * time.Millisecond.

(** *** packet_number.go *)

Definition delta (a b : Z) : Z := if a <? b then u64 (b - a) else u64 (a - b).

Definition closestTo (target a b : Z) : Z :=
  if delta target a <? delta target b then a else b.

Definition InferPacketNumber (packetNumberLength lastPacketNumber wirePacketNumber : Z) : Z :=
  let epochDelta := u64 (Z.shiftl 1 (u8 (u8 packetNumberLength * 8))) in
  let epoch := Z.land lastPacketNumber (u64 (Z.lnot (u64 (epochDelta - 1)))) in
  let prevEpochBegin := u64 (epoch - epochDelta) in
  let nextEpochBegin := u64 (epoch + epochDelta) in
  closestTo (u64 (lastPacketNumber + 1))
    (u64 (epoch + wirePacketNumber))
    (closestTo (u64 (lastPacketNumber + 1))
       (u64 (prevEpochBegin + wirePacketNumber))
       (u64 (nextEpochBegin + wirePacketNumber))).

Definition GetPacketNumberLengthForPublicHeader (packetNumber leastUnacked : Z) : Z :=
  let diff := u64 (packetNumber - leastUnacked) in
  if diff <? Z.shiftl 2 (PacketNumberLen2 * 8 - 2) then PacketNumberLen2
  else if diff <? Z.shiftl 2 (PacketNumberLen4 * 8 - 2) then PacketNumberLen4
  else PacketNumberLen6.

Definition GetPacketNumberLength (packetNumber : Z) : Z :=
  if packetNumber <? Z.shiftl 1 (PacketNumberLen1 * 8) then PacketNumberLen1
  else if packetNumber <? Z.shiftl 1 (PacketNumberLen2 * 8) then PacketNumberLen2
  else if packetNumber <? Z.shiftl 1 (PacketNumberLen4 * 8) then PacketNumberLen4
  else PacketNumberLen6.

(** *** version.go *)

Definition Version37 : Z := 37.
Definition Version38 : Z := 38.
Definition Version39 : Z := 39.
Definition VersionTLS : Z := 101.
Definition VersionWhatever : Z := 0.
Definition VersionUnsupported : Z := -1.
Definition VersionUnknown : Z := -2.
Definition VersionMP : Z := 512.

Definition SupportedVersions : list Z := [VersionMP; Version39; Version38; Version37].

Definition UsesTLS (vn : Z) : bool := vn =? VersionTLS.

(** The characters 'Q' (81) and '0' (48) are written as their code points. *)
Definition VersionNumberToTag (vn : Z) : Z :=
  let v := u32 vn in
  u32 (81 + u32 (Z.shiftl (u32 (v / 100 mod 10 + 48)) 8)
          + u32 (Z.shiftl (u32 (v / 10 mod 10 + 48)) 16)
          + u32 (Z.shiftl (u32 (v mod 10 + 48)) 24)).

Definition VersionTagToNumber (v : Z) : Z :=
  u32 (u32 (u32 (Z.land (Z.shiftr v 8) 255 - 48) * 100)
     + u32 (u32 (Z.land (Z.shiftr v 16) 255 - 48) * 10)
     + u32 (Z.land (Z.shiftr v 24) 255 - 48)).

Fixpoint IsSupportedVersion (supported : list Z) (v : Z) : bool :=
  match supported with
  | [] => false
  | t :: supported' => if t =? v then true else IsSupportedVersion supported' v
  end.

(** The inner loop over [theirs] returns as soon as it meets [ourVer]. *)
Fixpoint ChooseSupportedVersion (ours theirs : list Z) : Z :=
  match ours with
  | [] => VersionUnsupported
  | ourVer :: ours' =>
      if existsb (fun theirVer => ourVer =? theirVer) theirs then ourVer
      else ChooseSupportedVersion ours' theirs
  end.

End protocol.

(** ** Packet number recovery *)
Section packet_numbers.
Import protocol.

(** The lengths of a packet number the wire format knows. *)
Definition valid_pn_len (n : Z) : Prop := n = 1 ∨ n = 2 ∨ n = 4 ∨ n = 6.

Lemma land_epoch l k :
  is_u64 l → 0 <= k <= 64 →
  Z.land l (u64 (Z.lnot (2 ^ k - 1))) = l - l mod 2 ^ k.
Proof.
  intros Hl Hk. unfold u64. change 18446744073709551616 with (2 ^ 64).
  rewrite <- (Z.land_ones (Z.lnot _)) by lia.
  replace (2 ^ k - 1) with (Z.ones k) by (rewrite Z.ones_equiv; lia).
  rewrite (Z.land_comm (Z.lnot _)), Z.land_assoc, Z.land_ones by lia.
  rewrite (Z.mod_small l) by (unfold is_u64 in Hl; lia).
  rewrite <- Z.ldiff_land, Z.ldiff_ones_r, Z.shiftl_mul_pow2, Z.shiftr_div_pow2 by lia.
  pose proof (Z.div_mod l (2 ^ k)). lia.
Qed.

(** The epoch size of a valid length. *)
Lemma epochDelta_val n :
  valid_pn_len n → u64 (Z.shiftl 1 (u8 (u8 n * 8))) = 2 ^ (8 * n).
Proof. intros [->|[->|[->| ->]]]; reflexivity. Qed.

(** [delta] is the distance, when nothing wraps. *)
Lemma delta_abs a b : is_u64 a → is_u64 b → delta a b = Z.abs (a - b).
Proof. intros. unfold delta. case_bool; zlia. Qed.

Lemma closestTo_abs t a b : is_u64 t → is_u64 a → is_u64 b →
  closestTo t a b = if Z.abs (t - a) <? Z.abs (t - b) then a else b.
Proof. intros. unfold closestTo. by rewrite !delta_abs. Qed.

(** With the size and the start of the epoch named, the choice among the three
    candidates is arithmetic. *)
Lemma closest_candidate D epoch r w last p :
  256 <= D <= 2 ^ 48 → last = epoch + r → 0 <= r < D → 0 <= w < D → 0 <= epoch →
  (∃ q, epoch = q * D) → (∃ q, p = q * D + w) →
  0 <= p → last < 2 ^ 63 → - D < 2 * (p - (last + 1)) < D →
  closestTo (u64 (last + 1)) (u64 (epoch + w))
    (closestTo (u64 (last + 1)) (u64 (u64 (epoch - D) + w)) (u64 (u64 (epoch + D) + w))) = p.
Proof.
  intros HD -> Hr Hw He [qe Hqe] [qp Hqp] Hp Hl Hwin.
  assert (p = epoch - D + w ∨ p = epoch + w ∨ p = epoch + D + w) as Hcases.
  { assert (qp = qe - 1 ∨ qp = qe ∨ qp = qe + 1) as [->|[->| ->]] by nia; lia. }
  assert (epoch = 0 ∨ D <= epoch) as Hepoch.
  { assert (qe = 0 ∨ 1 <= qe) as [->|?] by nia; nia. }
  clear qp Hqp qe Hqe.
  assert (is_u64 (epoch + r + 1) ∧ is_u64 (epoch + w) ∧ is_u64 (epoch + D + w)) as (U1 & U2 & U3)
    by zlia.
  rewrite (u64_id (epoch + r + 1)), (u64_id (epoch + w)) by done.
  replace (u64 (u64 (epoch + D) + w)) with (epoch + D + w) by zlia.
  destruct Hepoch as [->|Hepoch].
  - replace (u64 (u64 (0 - D) + w)) with (2 ^ 64 - D + w) by zlia.
    rewrite (closestTo_abs _ (2 ^ 64 - D + w)) by zlia. case_bool; rewrite closestTo_abs by zlia;
      case_bool; lia.
  - replace (u64 (u64 (epoch - D) + w)) with (epoch - D + w) by zlia.
    rewrite (closestTo_abs _ (epoch - D + w)) by zlia. case_bool; rewrite closestTo_abs by zlia;
      case_bool; lia.
Qed.

Lemma InferPacketNumber_window n last p :
  valid_pn_len n → 0 <= p → 0 <= last < 2 ^ 63 →
  - 2 ^ (8 * n) < 2 * (p - (last + 1)) < 2 ^ (8 * n) →
  InferPacketNumber n last (p mod 2 ^ (8 * n)) = p.
Proof.
  intros Hn Hp Hl Hw. unfold InferPacketNumber.
  rewrite epochDelta_val by done.
  assert (256 <= 2 ^ (8 * n) <= 2 ^ 48 ∧ 0 <= 8 * n <= 64) as [HD Hk]
    by (destruct Hn as [->|[->|[->| ->]]]; lia).
  replace (u64 (2 ^ (8 * n) - 1)) with (2 ^ (8 * n) - 1) by zlia.
  rewrite land_epoch by zlia. generalize dependent (2 ^ (8 * n)). intros D ? HD.
  pose proof (Z.mod_pos_bound last D). pose proof (Z.mod_pos_bound p D).
  pose proof (Z.mod_le last D).
  pose proof (Z.div_mod last D). pose proof (Z.div_mod p D).
  apply (closest_candidate D _ (last mod D)); try lia.
  - exists (last / D). lia.
  - exists (p / D). lia.
Qed.

Lemma GetPacketNumberLengthForPublicHeader_valid p lu :
  valid_pn_len (GetPacketNumberLengthForPublicHeader p lu).
Proof. unfold GetPacketNumberLengthForPublicHeader, valid_pn_len. repeat case_bool; tauto. Qed.

(** The sender chooses the length of a packet number from its least unacked
    packet and puts only that many low bytes on the wire; a receiver whose
    largest packet number lies at or above the packets the sender knows to be
    acked, and not half a window or more above the packet (which reordering would need),
    recovers the full number. For the 6 byte form, which the sender chooses
    without a check, fewer than 2^47 packets must be outstanding. *)
Lemma packet_number_inferred p leastUnacked last :
  1 <= leastUnacked <= p → p < 2 ^ 62 →
  leastUnacked - 1 <= last →
  (let n := GetPacketNumberLengthForPublicHeader p leastUnacked in
   last + 1 - p < 2 ^ (8 * n - 1) → p - leastUnacked < 2 ^ 47 →
   InferPacketNumber n last (p mod 2 ^ (8 * n)) = p).
Proof.
  intros Hp Hb Hl n Hre Hout.
  assert (valid_pn_len n) as Hn by apply GetPacketNumberLengthForPublicHeader_valid.
  assert (2 ^ (8 * n) = 2 * 2 ^ (8 * n - 1)) as Heq
    by (rewrite <- Z.pow_succ_r by (destruct Hn as [->|[->|[->| ->]]]; lia); f_equal; lia).
  assert (p - leastUnacked < 2 ^ (8 * n - 1)) as Hd.
  { clear Hre Heq. revert n Hn.
    unfold GetPacketNumberLengthForPublicHeader. cbv zeta.
    replace (u64 (p - leastUnacked)) with (p - leastUnacked) by zlia.
    change (Z.shiftl 2 (PacketNumberLen2 * 8 - 2)) with 32768. change (Z.shiftl 2 (PacketNumberLen4 * 8 - 2)) with 2147483648.
    unfold PacketNumberLen2, PacketNumberLen4, PacketNumberLen6.
    repeat case_bool; intros _; lia. }
  assert (2 ^ (8 * n - 1) <= 2 ^ 47) by (destruct Hn as [->|[->|[->| ->]]]; lia).
  apply InferPacketNumber_window; [done|lia|lia|lia].
Qed.

End packet_numbers.

(** ** Versions *)
Section versions.
Import protocol.

Lemma VersionTag_roundtrip_check :
  forallb (λ n, VersionTagToNumber (VersionNumberToTag (Z.of_nat n)) =? Z.of_nat n) (seq 0 1000) = true.
Proof. vm_compute. reflexivity. Qed.

Lemma VersionTag_inverse vn :
  0 <= vn < 1000 → VersionTagToNumber (VersionNumberToTag vn) = vn.
Proof.
  intros H. pose proof (proj1 (forallb_forall _ _) VersionTag_roundtrip_check (Z.to_nat vn)) as Hc.
  cbv beta in Hc. rewrite Z2Nat.id in Hc by lia. apply Z.eqb_eq, Hc, in_seq. lia.
Qed.

(** A version number of at most three digits survives the way to the
    four-character tag on the wire and back. *)
Theorem VersionTag_roundtrip vn :
  0 <= vn < 1000 → VersionTagToNumber (VersionNumberToTag vn) = vn.
Proof. apply VersionTag_inverse. Qed.

Lemma VersionTag_roundtrip_witness :
  0 <= VersionMP < 1000 ∧ VersionTagToNumber (VersionNumberToTag VersionMP) = VersionMP.
Proof. split; [vm_compute; split; congruence|]. apply (VersionTag_roundtrip VersionMP). vm_compute; split; congruence. Defined.

Lemma IsSupportedVersion_spec supported v :
  IsSupportedVersion supported v = true ↔ v ∈ supported.
Proof.
  induction supported as [|t l IH]; simpl; [set_solver|].
  rewrite elem_of_cons. case_bool; naive_solver.
Qed.

(** Version negotiation returns our most preferred version that the peer
    also offers, and [VersionUnsupported] exactly when there is no overlap. *)
Theorem ChooseSupportedVersion_spec ours theirs :
  (∃ pre v post, ours = pre ++ v :: post ∧ v ∈ theirs ∧ (∀ x, x ∈ pre → x ∉ theirs) ∧
     ChooseSupportedVersion ours theirs = v) ∨
  ((∀ x, x ∈ ours → x ∉ theirs) ∧ ChooseSupportedVersion ours theirs = VersionUnsupported).
Proof.
  induction ours as [|v ours IH]; simpl; [right; set_solver|].
  destruct (existsb _ theirs) eqn:E.
  - left. exists [], v, ours. apply existsb_exists in E as (x & Hx & ->%Z.eqb_eq).
    apply list_elem_of_In in Hx. set_solver.
  - assert (v ∉ theirs) as Hv.
    { intros Hin. apply list_elem_of_In in Hin.
      rewrite <- not_true_iff_false in E. apply E, existsb_exists. exists v.
      split; [done|apply Z.eqb_refl]. }
    destruct IH as [(pre & w & post & -> & Hw & Hpre & Heq)|[Hno Heq]]; [left|right].
    + exists (v :: pre), w, post. set_solver.
    + set_solver.
Qed.

End versions.
