(* ===== verification/ByteOrder.v ===== *)
(** * Byte orders and the 16-bit float of the wire format

    [internal/utils/byteorder*.go] and [internal/utils/float16.go]. The Go
    interface [ByteOrder] is a record of operations; [ByteOrderOk] is the
    contract that the frame codecs rely on, discharged for both
    implementations. *)

From S2P Require Import Prelude Protocol.

(** ** The interface *)

(** A buffer write returns the bytes it appends, or panics. *)
Record ByteOrder := {
  ReadUintN : Z → Parser Z;
  ReadUint64 : Parser Z;
  ReadUint32 : Parser Z;
  ReadUint16 : Parser Z;
  WriteUint64 : Z → outcome (list Z);
  WriteUint56 : Z → outcome (list Z);
  WriteUint48 : Z → outcome (list Z);
  WriteUint40 : Z → outcome (list Z);
  WriteUint32 : Z → outcome (list Z);
  WriteUint24 : Z → outcome (list Z);
  WriteUint16 : Z → outcome (list Z);
}.

(** ** byteorder_big_endian.go *)
Module bigEndian.

(** The loop of ReadUintN: [k] rounds left, the counter at [i]. *)
Fixpoint ReadUintN_loop (k : nat) (i length res : Z) : Parser Z :=
  match k with
  | O => mret res
  | S k' =>
      bt ← ReadByte;
      ReadUintN_loop k' (u8 (i + 1)) length
        (Z.lxor res (u64 (Z.shiftl bt (u8 (u8 (length - 1 - i) * 8)))))
  end.

Definition ReadUintN (length : Z) : Parser Z :=
  ReadUintN_loop (Z.to_nat length) 0 length 0.

Definition ReadUint64 : Parser Z :=
  b8 ← ReadByte; b7 ← ReadByte; b6 ← ReadByte; b5 ← ReadByte;
  b4 ← ReadByte; b3 ← ReadByte; b2 ← ReadByte; b1 ← ReadByte;
  mret (u64 (b1 + Z.shiftl b2 8 + Z.shiftl b3 16 + Z.shiftl b4 24 +
             Z.shiftl b5 32 + Z.shiftl b6 40 + Z.shiftl b7 48 + Z.shiftl b8 56)).

Definition ReadUint32 : Parser Z :=
  b4 ← ReadByte; b3 ← ReadByte; b2 ← ReadByte; b1 ← ReadByte;
  mret (u32 (b1 + Z.shiftl b2 8 + Z.shiftl b3 16 + Z.shiftl b4 24)).

Definition ReadUint16 : Parser Z :=
  b2 ← ReadByte; b1 ← ReadByte;
  mret (u16 (b1 + Z.shiftl b2 8)).

Definition WriteUint64 (i : Z) : outcome (list Z) :=
  Ok [u8 (Z.shiftr i 56); u8 (Z.shiftr i 48); u8 (Z.shiftr i 40); u8 (Z.shiftr i 32);
      u8 (Z.shiftr i 24); u8 (Z.shiftr i 16); u8 (Z.shiftr i 8); u8 i].

Definition WriteUint56 (i : Z) : outcome (list Z) :=
  if Z.shiftl 1 56 <=? i then Panic else
  Ok [u8 (Z.shiftr i 48); u8 (Z.shiftr i 40); u8 (Z.shiftr i 32);
      u8 (Z.shiftr i 24); u8 (Z.shiftr i 16); u8 (Z.shiftr i 8); u8 i].

Definition WriteUint48 (i : Z) : outcome (list Z) :=
  if Z.shiftl 1 48 <=? i then Panic else
  Ok [u8 (Z.shiftr i 40); u8 (Z.shiftr i 32);
      u8 (Z.shiftr i 24); u8 (Z.shiftr i 16); u8 (Z.shiftr i 8); u8 i].

Definition WriteUint40 (i : Z) : outcome (list Z) :=
  if Z.shiftl 1 40 <=? i then Panic else
  Ok [u8 (Z.shiftr i 32);
      u8 (Z.shiftr i 24); u8 (Z.shiftr i 16); u8 (Z.shiftr i 8); u8 i].

Definition WriteUint32 (i : Z) : outcome (list Z) :=
  Ok [u8 (Z.shiftr i 24); u8 (Z.shiftr i 16); u8 (Z.shiftr i 8); u8 i].

Definition WriteUint24 (i : Z) : outcome (list Z) :=
  if Z.shiftl 1 24 <=? i then Panic else
  Ok [u8 (Z.shiftr i 16); u8 (Z.shiftr i 8); u8 i].

Definition WriteUint16 (i : Z) : outcome (list Z) :=
  Ok [u8 (Z.shiftr i 8); u8 i].

End bigEndian.

(** ** byteorder_little_endian.go *)
Module littleEndian.

Fixpoint ReadUintN_loop (k : nat) (i res : Z) : Parser Z :=
  match k with
  | O => mret res
  | S k' =>
      bt ← ReadByte;
      ReadUintN_loop k' (u8 (i + 1)) (Z.lxor res (u64 (Z.shiftl bt (u8 (i * 8)))))
  end.

Definition ReadUintN (length : Z) : Parser Z :=
  ReadUintN_loop (Z.to_nat length) 0 0.

Definition ReadUint64 : Parser Z :=
  b1 ← ReadByte; b2 ← ReadByte; b3 ← ReadByte; b4 ← ReadByte;
  b5 ← ReadByte; b6 ← ReadByte; b7 ← ReadByte; b8 ← ReadByte;
  mret (u64 (b1 + Z.shiftl b2 8 + Z.shiftl b3 16 + Z.shiftl b4 24 +
             Z.shiftl b5 32 + Z.shiftl b6 40 + Z.shiftl b7 48 + Z.shiftl b8 56)).

Definition ReadUint32 : Parser Z :=
  b1 ← ReadByte; b2 ← ReadByte; b3 ← ReadByte; b4 ← ReadByte;
  mret (u32 (b1 + Z.shiftl b2 8 + Z.shiftl b3 16 + Z.shiftl b4 24)).

Definition ReadUint16 : Parser Z :=
  b1 ← ReadByte; b2 ← ReadByte;
  mret (u16 (b1 + Z.shiftl b2 8)).

Definition WriteUint64 (i : Z) : outcome (list Z) :=
  Ok [u8 i; u8 (Z.shiftr i 8); u8 (Z.shiftr i 16); u8 (Z.shiftr i 24);
      u8 (Z.shiftr i 32); u8 (Z.shiftr i 40); u8 (Z.shiftr i 48); u8 (Z.shiftr i 56)].

Definition WriteUint56 (i : Z) : outcome (list Z) :=
  if Z.shiftl 1 56 <=? i then Panic else
  Ok [u8 i; u8 (Z.shiftr i 8); u8 (Z.shiftr i 16); u8 (Z.shiftr i 24);
      u8 (Z.shiftr i 32); u8 (Z.shiftr i 40); u8 (Z.shiftr i 48)].

Definition WriteUint48 (i : Z) : outcome (list Z) :=
  if Z.shiftl 1 48 <=? i then Panic else
  Ok [u8 i; u8 (Z.shiftr i 8); u8 (Z.shiftr i 16); u8 (Z.shiftr i 24);
      u8 (Z.shiftr i 32); u8 (Z.shiftr i 40)].

Definition WriteUint40 (i : Z) : outcome (list Z) :=
  if Z.shiftl 1 40 <=? i then Panic else
  Ok [u8 i; u8 (Z.shiftr i 8); u8 (Z.shiftr i 16);
      u8 (Z.shiftr i 24); u8 (Z.shiftr i 32)].

Definition WriteUint32 (i : Z) : outcome (list Z) :=
  Ok [u8 i; u8 (Z.shiftr i 8); u8 (Z.shiftr i 16); u8 (Z.shiftr i 24)].

Definition WriteUint24 (i : Z) : outcome (list Z) :=
  if Z.shiftl 1 24 <=? i then Panic else
  Ok [u8 i; u8 (Z.shiftr i 8); u8 (Z.shiftr i 16)].

Definition WriteUint16 (i : Z) : outcome (list Z) :=
  Ok [u8 i; u8 (Z.shiftr i 8)].

End littleEndian.

Definition BigEndian : ByteOrder := {|
  ReadUintN := bigEndian.ReadUintN; ReadUint64 := bigEndian.ReadUint64;
  ReadUint32 := bigEndian.ReadUint32; ReadUint16 := bigEndian.ReadUint16;
  WriteUint64 := bigEndian.WriteUint64; WriteUint56 := bigEndian.WriteUint56;
  WriteUint48 := bigEndian.WriteUint48; WriteUint40 := bigEndian.WriteUint40;
  WriteUint32 := bigEndian.WriteUint32; WriteUint24 := bigEndian.WriteUint24;
  WriteUint16 := bigEndian.WriteUint16 |}.

Definition LittleEndian : ByteOrder := {|
  ReadUintN := littleEndian.ReadUintN; ReadUint64 := littleEndian.ReadUint64;
  ReadUint32 := littleEndian.ReadUint32; ReadUint16 := littleEndian.ReadUint16;
  WriteUint64 := littleEndian.WriteUint64; WriteUint56 := littleEndian.WriteUint56;
  WriteUint48 := littleEndian.WriteUint48; WriteUint40 := littleEndian.WriteUint40;
  WriteUint32 := littleEndian.WriteUint32; WriteUint24 := littleEndian.WriteUint24;
  WriteUint16 := littleEndian.WriteUint16 |}.

(** byteorder.go *)
Definition GetByteOrder (v : Z) : ByteOrder :=
  if v <? protocol.Version39 then LittleEndian else BigEndian.

(** ** float16.go *)
Module float16.

Definition uFloat16ExponentBits : Z := 5.
Definition uFloat16MaxExponent : Z := Z.shiftl 1 uFloat16ExponentBits - 2.
Definition uFloat16MantissaBits : Z := 16 - uFloat16ExponentBits.
Definition uFloat16MantissaEffectiveBits : Z := uFloat16MantissaBits + 1.
Definition uFloat16MaxValue : Z :=
  Z.shiftl (Z.shiftl 1 uFloat16MantissaEffectiveBits - 1) uFloat16MaxExponent.

(** The value of the 16 bits read by readUfloat16. *)
Definition decode (val : Z) : Z :=
  let res := val in
  if res <? Z.shiftl 1 uFloat16MantissaEffectiveBits then res
  else
    let exponent := u16 (Z.shiftr val uFloat16MantissaBits - 1) in
    let res := u64 (res - u64 (Z.shiftl exponent uFloat16MantissaBits)) in
    u64 (Z.shiftl res exponent).

Definition readUfloat16 (byteOrder : ByteOrder) : Parser Z :=
  val ← ReadUint16 byteOrder;
  mret (decode val).

(** The binary search over offsets 16, 8, 4, 2, 1: [fuel] bounds the rounds. *)
Fixpoint encode_loop (fuel : nat) (offset exponent value : Z) : Z * Z :=
  match fuel with
  | O => (exponent, value)
  | S fuel' =>
      if 0 <? offset then
        let '(exponent, value) :=
          if u64 (Z.shiftl 1 (u16 (uFloat16MantissaBits + offset))) <=? value
          then (u16 (exponent + offset), Z.shiftr value offset)
          else (exponent, value) in
        encode_loop fuel' (offset / 2) exponent value
      else (exponent, value)
  end.

(** The 16 bits written by writeUfloat16. *)
Definition encode (value : Z) : Z :=
  if value <? Z.shiftl 1 uFloat16MantissaEffectiveBits then u16 value
  else if uFloat16MaxValue <=? value then 2 ^ 16 - 1
  else
    let '(exponent, value) := encode_loop 6 16 0 value in
    u16 (u16 value + u16 (Z.shiftl exponent uFloat16MantissaBits)).

Definition writeUfloat16 (byteOrder : ByteOrder) (value : Z) : outcome (list Z) :=
  WriteUint16 byteOrder (encode value).

End float16.

(** ** Byte strings as numbers *)

Fixpoint le_bytes (n : nat) (v : Z) : list Z :=
  match n with O => [] | S n' => v mod 256 :: le_bytes n' (v / 256) end.
Fixpoint le_val (bs : list Z) : Z :=
  match bs with [] => 0 | b :: bs' => b + 256 * le_val bs' end.
Definition be_bytes (n : nat) (v : Z) : list Z := rev (le_bytes n v).

Lemma le_bytes_length n v : length (le_bytes n v) = n.
Proof. revert v; induction n; simpl; auto. Qed.

Lemma le_bytes_byte n v : Forall is_byte (le_bytes n v).
Proof. revert v; induction n; simpl; constructor; [zlia|auto]. Qed.

Lemma pow256_S (n : nat) : 256 ^ Z.of_nat (S n) = 256 * 256 ^ Z.of_nat n.
Proof. rewrite Nat2Z.inj_succ, Z.pow_succ_r; lia. Qed.

Lemma pow256_pow2 n : 0 <= n → 256 ^ n = 2 ^ (8 * n).
Proof. intros. rewrite Z.pow_mul_r by lia. done. Qed.

Lemma le_val_bytes n v : 0 <= v < 256 ^ Z.of_nat n → le_val (le_bytes n v) = v.
Proof.
  revert v; induction n as [|n IH]; intros v Hv; simpl le_bytes; simpl le_val; [simpl in Hv; lia|].
  rewrite pow256_S in Hv. rewrite IH by zlia. zlia.
Qed.

Lemma le_val_bound bs : Forall is_byte bs → 0 <= le_val bs < 256 ^ len bs.
Proof.
  unfold len. induction 1 as [|b bs Hb Hbs IH]; simpl le_val; simpl length; [simpl; lia|].
  rewrite pow256_S. unfold is_byte in Hb. lia.
Qed.

Lemma le_bytes_val bs : Forall is_byte bs → le_bytes (length bs) (le_val bs) = bs.
Proof.
  induction 1 as [|b bs Hb Hbs IH]; simpl; [done|].
  unfold is_byte in Hb. f_equal; [zlia|].
  replace ((b + 256 * le_val bs) / 256) with (le_val bs) by zlia. done.
Qed.

Lemma le_val_app bs cs : le_val (bs ++ cs) = le_val bs + 256 ^ len bs * le_val cs.
Proof.
  unfold len. induction bs as [|b bs IH]; simpl app; simpl le_val; simpl length; [simpl; lia|].
  rewrite IH, pow256_S. lia.
Qed.

(** ** The reading loops *)

Lemma lxor_disjoint a b k : 0 <= k → 0 <= a < 2 ^ k → Z.lxor a (b * 2 ^ k) = a + b * 2 ^ k.
Proof.
  intros Hk Ha. symmetry. apply Z.add_nocarry_lxor.
  apply Z.bits_inj'. intros i Hi. rewrite Z.land_spec, Z.bits_0.
  destruct (decide (i < k)).
  - rewrite Z.mul_pow2_bits_low by lia. by rewrite andb_false_r.
  - rewrite <- (Z.mod_small a (2 ^ k)), Z.mod_pow2_bits_high by lia. done.
Qed.

(** One byte shifted to its place inside 64 bits. *)
Lemma shift_byte b i : is_byte b → 0 <= i < 8 → u64 (Z.shiftl b (u8 (i * 8))) = b * 2 ^ (8 * i).
Proof.
  intros Hb Hi. replace (u8 (i * 8)) with (8 * i) by zlia.
  rewrite Z.shiftl_mul_pow2 by lia. apply u64_id. unfold is_u64, is_byte in *.
  assert (2 ^ (8 * i) <= 2 ^ 56) by (apply Z.pow_le_mono_r; lia). nia.
Qed.

Lemma le_loop_val bs i res r :
  Forall is_byte bs → 0 <= i → i + len bs <= 8 → 0 <= res < 2 ^ (8 * i) →
  littleEndian.ReadUintN_loop (length bs) i res (bs ++ r) = Ok (res + 2 ^ (8 * i) * le_val bs, r).
Proof.
  intros Hbs. revert i res. induction Hbs as [|b bs Hb Hbs IH]; intros i res Hi Hlen Hres.
  { simpl. unfold mret, parser_ret. do 2 f_equal. lia. }
  rewrite len_cons in Hlen. pose proof (len_nonneg bs).
  cbn [length littleEndian.ReadUintN_loop app]. erewrite parser_bind_ok by done.
  rewrite shift_byte, lxor_disjoint by (done || lia).
  replace (u8 (i + 1)) with (i + 1) by zlia.
  assert (2 ^ (8 * (i + 1)) = 256 * 2 ^ (8 * i)) as Hp
    by (replace (8 * (i + 1)) with (8 + 8 * i) by lia; rewrite Z.pow_add_r by lia; done).
  unfold is_byte in Hb. rewrite IH by (rewrite ?Hp; nia).
  do 2 f_equal. simpl le_val. rewrite Hp. lia.
Qed.

Lemma be_loop_val bs n h r :
  Forall is_byte bs → len bs <= n <= 8 → 0 <= h →
  bigEndian.ReadUintN_loop (length bs) (n - len bs) n (h * 2 ^ (8 * len bs)) (bs ++ r)
  = Ok (h * 2 ^ (8 * len bs) + le_val (rev bs), r).
Proof.
  intros Hbs. revert h. induction Hbs as [|b bs Hb Hbs IH]; intros h Hn Hh.
  { simpl. unfold mret, parser_ret. do 2 f_equal. lia. }
  rewrite len_cons in *. pose proof (len_nonneg bs).
  cbn [length bigEndian.ReadUintN_loop app]. erewrite parser_bind_ok by done.
  replace (u8 (n - 1 - (n - (1 + len bs)))) with (len bs) by zlia.
  rewrite shift_byte by (done || lia).
  assert (2 ^ (8 * (1 + len bs)) = 256 * 2 ^ (8 * len bs)) as Hp
    by (replace (8 * (1 + len bs)) with (8 + 8 * len bs) by lia; rewrite Z.pow_add_r by lia; done).
  assert (0 < 2 ^ (8 * len bs)) by (apply Z.pow_pos_nonneg; lia).
  unfold is_byte in Hb.
  rewrite Z.lxor_comm, lxor_disjoint by (rewrite ?Hp; nia).
  replace (u8 (n - (1 + len bs) + 1)) with (n - len bs) by zlia.
  replace (b * 2 ^ (8 * len bs) + h * 2 ^ (8 * (1 + len bs)))
    with ((256 * h + b) * 2 ^ (8 * len bs)) by (rewrite Hp; lia).
  rewrite IH by lia. do 2 f_equal. simpl rev. rewrite le_val_app. simpl le_val.
  replace (len (rev bs)) with (len bs) by (unfold len; by rewrite length_rev).
  rewrite (pow256_pow2 (len bs)) by lia. rewrite Hp. lia.
Qed.

(** ** The contract of a byte order

    [enc n v] is the encoding of [v] in [n] bytes. Reading inverts it, in both
    directions; the fixed-size readers are instances of [ReadUintN]; the
    writers produce [enc], and those of odd width panic on a value that does
    not fit. *)
Class ByteOrderOk (bo : ByteOrder) := {
  enc : nat → Z → list Z;
  enc_length n v : length (enc n v) = n;
  enc_bytes n v : Forall is_byte (enc n v);
  enc_1 v : is_byte v → enc 1 v = [v];
  ReadUintN_enc n v r : (n <= 8)%nat → 0 <= v < 256 ^ Z.of_nat n →
    ReadUintN bo (Z.of_nat n) (enc n v ++ r) = Ok (v, r);
  ReadUintN_inv n r v r' : Forall is_byte r → (n <= 8)%nat →
    ReadUintN bo (Z.of_nat n) r = Ok (v, r') →
    0 <= v < 256 ^ Z.of_nat n ∧ r = enc n v ++ r';
  ReadUintN_no_panic n r : ReadUintN bo n r ≠ Panic;
  ReadUint16_N r : Forall is_byte r → ReadUint16 bo r = ReadUintN bo 2 r;
  ReadUint32_N r : Forall is_byte r → ReadUint32 bo r = ReadUintN bo 4 r;
  ReadUint64_N r : Forall is_byte r → ReadUint64 bo r = ReadUintN bo 8 r;
  WriteUint16_enc v : WriteUint16 bo v = Ok (enc 2 v);
  WriteUint24_enc v : WriteUint24 bo v = if 2 ^ 24 <=? v then Panic else Ok (enc 3 v);
  WriteUint32_enc v : WriteUint32 bo v = Ok (enc 4 v);
  WriteUint40_enc v : WriteUint40 bo v = if 2 ^ 40 <=? v then Panic else Ok (enc 5 v);
  WriteUint48_enc v : WriteUint48 bo v = if 2 ^ 48 <=? v then Panic else Ok (enc 6 v);
  WriteUint56_enc v : WriteUint56 bo v = if 2 ^ 56 <=? v then Panic else Ok (enc 7 v);
  WriteUint64_enc v : WriteUint64 bo v = Ok (enc 8 v);
}.

Lemma digit_shift v k : 0 <= k → u8 (Z.shiftr v (8 * k)) = v / 256 ^ k mod 256.
Proof. intros. rewrite Z.shiftr_div_pow2, <- pow256_pow2 by lia. done. Qed.

Lemma div_256_pow v k : 0 <= k → v / 256 ^ k / 256 = v / 256 ^ (k + 1).
Proof. intros. rewrite Z.pow_add_r, Z.div_div by lia. done. Qed.

(** The written digits, in the shape of [le_bytes]. *)
Ltac digits :=
  cbn [le_bytes rev app]; rewrite ?Z.shiftr_div_pow2 by lia; unfold u8;
  rewrite ?Z.div_div by lia; done.

Ltac bytes_done :=
  solve [repeat first [done | apply Forall_nil_2 | apply Forall_cons; split]].

(** A fixed-size reader against the loop: short inputs fail alike, long ones
    have the value of the digits. *)
Ltac fixed_reader loop :=
  let r := fresh "r" in let H := fresh "H" in
  intros r H; repeat (destruct r as [|? r]; [reflexivity|apply Forall_cons in H as [? H]]);
  loop r;
  cbv [ReadUint16 ReadUint32 ReadUint64 LittleEndian BigEndian
       littleEndian.ReadUint16 littleEndian.ReadUint32 littleEndian.ReadUint64
       bigEndian.ReadUint16 bigEndian.ReadUint32 bigEndian.ReadUint64
       mbind parser_bind ReadByte mret parser_ret]; do 2 f_equal;
  rewrite ?Z.shiftl_mul_pow2 by lia; cbn [rev app le_val]; unfold is_byte in *; zlia.

Lemma le_ReadUintN_val bs r : Forall is_byte bs → len bs <= 8 →
  littleEndian.ReadUintN (len bs) (bs ++ r) = Ok (le_val bs, r).
Proof.
  intros. unfold littleEndian.ReadUintN.
  replace (Z.to_nat (len bs)) with (length bs) by (unfold len; lia).
  rewrite le_loop_val by (done || lia). do 2 f_equal. lia.
Qed.

Lemma be_ReadUintN_val bs r : Forall is_byte bs → len bs <= 8 →
  bigEndian.ReadUintN (len bs) (bs ++ r) = Ok (le_val (rev bs), r).
Proof.
  intros. unfold bigEndian.ReadUintN.
  replace (Z.to_nat (len bs)) with (length bs) by (unfold len; lia).
  pose proof (be_loop_val bs (len bs) 0 r) as Hl.
  rewrite Z.sub_diag, !Z.mul_0_l, !Z.add_0_l in Hl. apply Hl; done || lia.
Qed.

(** A reading loop returns only after consuming its bytes. *)
Lemma le_loop_consumes k i res r v r' :
  littleEndian.ReadUintN_loop k i res r = Ok (v, r') → ∃ bs, length bs = k ∧ r = bs ++ r'.
Proof.
  revert i res r. induction k as [|k IH]; intros i res r; cbn [littleEndian.ReadUintN_loop].
  - intros [= -> ->]. by exists [].
  - intros (b & r1 & Hb & Hr)%parser_bind_inv. destruct r as [|b' r]; [done|].
    injection Hb as -> ->. apply IH in Hr as (bs & <- & ->). by exists (b :: bs).
Qed.

Lemma be_loop_consumes k i n res r v r' :
  bigEndian.ReadUintN_loop k i n res r = Ok (v, r') → ∃ bs, length bs = k ∧ r = bs ++ r'.
Proof.
  revert i res r. induction k as [|k IH]; intros i res r; cbn [bigEndian.ReadUintN_loop].
  - intros [= -> ->]. by exists [].
  - intros (b & r1 & Hb & Hr)%parser_bind_inv. destruct r as [|b' r]; [done|].
    injection Hb as -> ->. apply IH in Hr as (bs & <- & ->). by exists (b :: bs).
Qed.

Lemma ReadByte_no_panic r : ReadByte r ≠ Panic.
Proof. by destruct r. Qed.

Lemma le_loop_no_panic k i res r : littleEndian.ReadUintN_loop k i res r ≠ Panic.
Proof.
  revert i res r. induction k as [|k IH]; intros i res r; [done|].
  apply parser_bind_panic; [apply ReadByte_no_panic|]. intros. apply IH.
Qed.

Lemma be_loop_no_panic k i n res r : bigEndian.ReadUintN_loop k i n res r ≠ Panic.
Proof.
  revert i res r. induction k as [|k IH]; intros i res r; [done|].
  apply parser_bind_panic; [apply ReadByte_no_panic|]. intros. apply IH.
Qed.

Lemma le_ReadUintN_enc n v r : (n <= 8)%nat → 0 <= v < 256 ^ Z.of_nat n →
  littleEndian.ReadUintN (Z.of_nat n) (le_bytes n v ++ r) = Ok (v, r).
Proof.
  intros Hn Hv. pose proof (le_ReadUintN_val (le_bytes n v) r (le_bytes_byte n v)) as H.
  rewrite le_val_bytes in H by done. unfold len in H. rewrite le_bytes_length in H. apply H. lia.
Qed.

Lemma be_ReadUintN_enc n v r : (n <= 8)%nat → 0 <= v < 256 ^ Z.of_nat n →
  bigEndian.ReadUintN (Z.of_nat n) (be_bytes n v ++ r) = Ok (v, r).
Proof.
  intros Hn Hv. unfold be_bytes.
  pose proof (be_ReadUintN_val (rev (le_bytes n v)) r (Forall_rev (le_bytes_byte n v))) as H.
  rewrite rev_involutive, le_val_bytes in H by done.
  unfold len in H. rewrite length_rev, le_bytes_length in H. apply H. lia.
Qed.

Lemma le_ReadUintN_inv n r v r' : Forall is_byte r → (n <= 8)%nat →
  littleEndian.ReadUintN (Z.of_nat n) r = Ok (v, r') →
  0 <= v < 256 ^ Z.of_nat n ∧ r = le_bytes n v ++ r'.
Proof.
  intros Hr Hn H. pose proof H as H'. unfold littleEndian.ReadUintN in H'.
  destruct (le_loop_consumes _ _ _ _ _ _ H') as (bs & Hl & ->). clear H'.
  apply Forall_app in Hr as [Hbs _]. assert (n = length bs) as -> by lia.
  pose proof (le_ReadUintN_val bs r' Hbs) as Hv. unfold len in Hv. rewrite Hv in H by lia.
  injection H as <-. rewrite le_bytes_val by done. split; [by apply le_val_bound|done].
Qed.

Lemma be_ReadUintN_inv n r v r' : Forall is_byte r → (n <= 8)%nat →
  bigEndian.ReadUintN (Z.of_nat n) r = Ok (v, r') →
  0 <= v < 256 ^ Z.of_nat n ∧ r = be_bytes n v ++ r'.
Proof.
  intros Hr Hn H. pose proof H as H'. unfold bigEndian.ReadUintN in H'.
  destruct (be_loop_consumes _ _ _ _ _ _ _ H') as (bs & Hl & ->). clear H'.
  apply Forall_app in Hr as [Hbs _]. assert (n = length bs) as -> by lia.
  pose proof (be_ReadUintN_val bs r' Hbs) as Hv. unfold len in Hv. rewrite Hv in H by lia.
  apply Forall_rev in Hbs. injection H as <-.
  pose proof (le_val_bound _ Hbs) as Hb. pose proof (le_bytes_val _ Hbs) as He.
  unfold len, be_bytes in *. rewrite length_rev in *. rewrite He, rev_involutive. done.
Qed.

Lemma be_bytes_length n v : length (be_bytes n v) = n.
Proof. unfold be_bytes. by rewrite length_rev, le_bytes_length. Qed.
Lemma be_bytes_byte n v : Forall is_byte (be_bytes n v).
Proof. apply Forall_rev, le_bytes_byte. Qed.

#[global] Instance LittleEndian_ok : ByteOrderOk LittleEndian.
Proof.
  refine (Build_ByteOrderOk LittleEndian le_bytes le_bytes_length le_bytes_byte _
    le_ReadUintN_enc le_ReadUintN_inv (λ n r, le_loop_no_panic _ _ _ _) _ _ _ _ _ _ _ _ _ _).
  - intros v Hv. cbn. f_equal. zlia.
  - fixed_reader ltac:(fun r => lazymatch goal with |- _ = ReadUintN _ _ (?a :: ?b :: _) =>
      rewrite (le_ReadUintN_val [a; b] r : _ → _ → ReadUintN LittleEndian 2 (a :: b :: r) = _)
        by bytes_done end).
  - fixed_reader ltac:(fun r => lazymatch goal with |- _ = ReadUintN _ _ (?a :: ?b :: ?c :: ?d :: _) =>
      rewrite (le_ReadUintN_val [a; b; c; d] r :
        _ → _ → ReadUintN LittleEndian 4 (a :: b :: c :: d :: r) = _)
        by bytes_done end).
  - fixed_reader ltac:(fun r => lazymatch goal with
      |- _ = ReadUintN _ _ (?a :: ?b :: ?c :: ?d :: ?e :: ?f :: ?g :: ?h :: _) =>
      rewrite (le_ReadUintN_val [a; b; c; d; e; f; g; h] r :
        _ → _ → ReadUintN LittleEndian 8 (a :: b :: c :: d :: e :: f :: g :: h :: r) = _)
        by bytes_done end).
  - intros v. cbn -[Z.shiftr]. unfold littleEndian.WriteUint16. f_equal. digits.
  - intros v. cbn -[Z.shiftr Z.shiftl Z.pow]. unfold littleEndian.WriteUint24.
    rewrite Z.shiftl_1_l. case_bool; [done|]. f_equal. digits.
  - intros v. cbn -[Z.shiftr]. unfold littleEndian.WriteUint32. f_equal. digits.
  - intros v. cbn -[Z.shiftr Z.shiftl Z.pow]. unfold littleEndian.WriteUint40.
    rewrite Z.shiftl_1_l. case_bool; [done|]. f_equal. digits.
  - intros v. cbn -[Z.shiftr Z.shiftl Z.pow]. unfold littleEndian.WriteUint48.
    rewrite Z.shiftl_1_l. case_bool; [done|]. f_equal. digits.
  - intros v. cbn -[Z.shiftr Z.shiftl Z.pow]. unfold littleEndian.WriteUint56.
    rewrite Z.shiftl_1_l. case_bool; [done|]. f_equal. digits.
  - intros v. cbn -[Z.shiftr]. unfold littleEndian.WriteUint64. f_equal. digits.
Qed.

#[global] Instance BigEndian_ok : ByteOrderOk BigEndian.
Proof.
  refine (Build_ByteOrderOk BigEndian be_bytes be_bytes_length be_bytes_byte _
    be_ReadUintN_enc be_ReadUintN_inv (λ n r, be_loop_no_panic _ _ _ _ _) _ _ _ _ _ _ _ _ _ _).
  - intros v Hv. cbn. f_equal. zlia.
  - fixed_reader ltac:(fun r => lazymatch goal with |- _ = ReadUintN _ _ (?a :: ?b :: _) =>
      rewrite (be_ReadUintN_val [a; b] r : _ → _ → ReadUintN BigEndian 2 (a :: b :: r) = _)
        by bytes_done end).
  - fixed_reader ltac:(fun r => lazymatch goal with |- _ = ReadUintN _ _ (?a :: ?b :: ?c :: ?d :: _) =>
      rewrite (be_ReadUintN_val [a; b; c; d] r :
        _ → _ → ReadUintN BigEndian 4 (a :: b :: c :: d :: r) = _)
        by bytes_done end).
  - fixed_reader ltac:(fun r => lazymatch goal with
      |- _ = ReadUintN _ _ (?a :: ?b :: ?c :: ?d :: ?e :: ?f :: ?g :: ?h :: _) =>
      rewrite (be_ReadUintN_val [a; b; c; d; e; f; g; h] r :
        _ → _ → ReadUintN BigEndian 8 (a :: b :: c :: d :: e :: f :: g :: h :: r) = _)
        by bytes_done end).
  - intros v. cbn -[Z.shiftr]. unfold bigEndian.WriteUint16. f_equal. digits.
  - intros v. cbn -[Z.shiftr Z.shiftl Z.pow]. unfold bigEndian.WriteUint24.
    rewrite Z.shiftl_1_l. case_bool; [done|]. f_equal. digits.
  - intros v. cbn -[Z.shiftr]. unfold bigEndian.WriteUint32. f_equal. digits.
  - intros v. cbn -[Z.shiftr Z.shiftl Z.pow]. unfold bigEndian.WriteUint40.
    rewrite Z.shiftl_1_l. case_bool; [done|]. f_equal. digits.
  - intros v. cbn -[Z.shiftr Z.shiftl Z.pow]. unfold bigEndian.WriteUint48.
    rewrite Z.shiftl_1_l. case_bool; [done|]. f_equal. digits.
  - intros v. cbn -[Z.shiftr Z.shiftl Z.pow]. unfold bigEndian.WriteUint56.
    rewrite Z.shiftl_1_l. case_bool; [done|]. f_equal. digits.
  - intros v. cbn -[Z.shiftr]. unfold bigEndian.WriteUint64. f_equal. digits.
Qed.

#[global] Instance GetByteOrder_ok v : ByteOrderOk (GetByteOrder v).
Proof. unfold GetByteOrder. destruct (v <? _); apply _. Qed.

(** ** Consequences of the contract, used by every frame codec *)
Section contract.
Context (bo : ByteOrder) {Hbo : ByteOrderOk bo}.

Lemma enc_len n v : len (enc (bo := bo) n v) = Z.of_nat n.
Proof. unfold len. by rewrite enc_length. Qed.

Lemma enc_app_bytes n v r : Forall is_byte r → Forall is_byte (enc (bo := bo) n v ++ r).
Proof. intros. apply Forall_app; split; [apply enc_bytes|done]. Qed.

Lemma ReadUint16_enc v r : is_u16 v → Forall is_byte r →
  ReadUint16 bo (enc (bo := bo) 2 v ++ r) = Ok (v, r).
Proof.
  intros Hv Hr. rewrite ReadUint16_N by by apply enc_app_bytes.
  apply (ReadUintN_enc 2); [lia|done].
Qed.

Lemma ReadUint32_enc v r : is_u32 v → Forall is_byte r →
  ReadUint32 bo (enc (bo := bo) 4 v ++ r) = Ok (v, r).
Proof.
  intros Hv Hr. rewrite ReadUint32_N by by apply enc_app_bytes.
  apply (ReadUintN_enc 4); [lia|done].
Qed.

Lemma ReadUint64_enc v r : is_u64 v → Forall is_byte r →
  ReadUint64 bo (enc (bo := bo) 8 v ++ r) = Ok (v, r).
Proof.
  intros Hv Hr. rewrite ReadUint64_N by by apply enc_app_bytes.
  apply (ReadUintN_enc 8); [lia|done].
Qed.

End contract.

(** For each byte order, writing an integer of 16, 24, 32, 40, 48, 56 or 64
    bits and reading it back with [ReadUintN] of the same width returns it and
    leaves the rest of the input; a value that does not fit the odd widths makes
    the writer panic instead of truncating. *)
Theorem byteorder_roundtrip version v r :
  is_u64 v →
  let bo := GetByteOrder version in
  let rt (n : Z) (w : outcome (list Z)) :=
    match w with
    | Ok bs => len bs = n ∧ (v < 2 ^ (8 * n) → ReadUintN bo n (bs ++ r) = Ok (v, r))
    | Panic => 2 ^ (8 * n) <= v
    | Err _ => False
    end in
  rt 2 (WriteUint16 bo v) ∧ rt 3 (WriteUint24 bo v) ∧ rt 4 (WriteUint32 bo v) ∧
  rt 5 (WriteUint40 bo v) ∧ rt 6 (WriteUint48 bo v) ∧ rt 7 (WriteUint56 bo v) ∧
  rt 8 (WriteUint64 bo v).
Proof.
  intros Hv bo rt. unfold is_u64 in Hv.
  assert (∀ k : nat, (k <= 8)%nat → rt (Z.of_nat k) (Ok (enc (bo := bo) k v))) as Hok.
  { intros k Hk. cbn. split; [apply enc_len|]. intros Hlt.
    apply ReadUintN_enc; [done|]. rewrite pow256_pow2; lia. }
  rewrite WriteUint16_enc, WriteUint24_enc, WriteUint32_enc, WriteUint40_enc, WriteUint48_enc,
    WriteUint56_enc, WriteUint64_enc.
  split; [|split; [|split; [|split; [|split; [|split]]]]];
    try case_bool; first [apply (Hok 2%nat); lia | apply (Hok 3%nat); lia | apply (Hok 4%nat); lia
      | apply (Hok 5%nat); lia | apply (Hok 6%nat); lia | apply (Hok 7%nat); lia
      | apply (Hok 8%nat); lia | cbn; lia].
Qed.

Lemma byteorder_roundtrip_witness :
  is_u64 70000 ∧
  ReadUintN (GetByteOrder 512) 3 ([1; 17; 112] ++ [9]) = Ok (70000, [9]) ∧
  WriteUint24 (GetByteOrder 512) 70000 = Ok [1; 17; 112].
Proof.
  assert (is_u64 70000) as H by (vm_compute; split; congruence).
  split; [exact H|]. destruct (byteorder_roundtrip 512 70000 [9] H) as (_ & [_ R] & _).
  split; [apply R; reflexivity|reflexivity].
Defined.

(** ** The 16-bit float *)
Section ufloat16.
Import float16.

(** The binary search divides by the power of two that leaves the highest bit
    at position 11. *)
Lemma encode_loop_spec (k : nat) e v : (k <= 4)%nat →
  2 ^ 11 <= v < 2 ^ (11 + 2 * 2 ^ Z.of_nat k) →
  0 <= e → e + 2 * 2 ^ Z.of_nat k <= 32 →
  ∃ s, encode_loop (S (S k)) (2 ^ Z.of_nat k) e v = (e + s, v / 2 ^ s) ∧
    0 <= s < 2 * 2 ^ Z.of_nat k ∧ 2 ^ 11 <= v / 2 ^ s < 2 ^ 12.
Proof.
  revert e v. induction k as [|k IH]; intros e v Hk Hv He Hb.
  - cbn [encode_loop]. change (2 ^ Z.of_nat 0) with 1 in *. simpl (0 <? 1).
    change (u64 (Z.shiftl 1 (u16 (uFloat16MantissaBits + 1)))) with 4096. change (1 / 2) with 0. cbv iota.
    destruct (Z.leb_spec 4096 v); cbn [encode_loop Z.ltb Z.compare]; [exists 1|exists 0].
    + rewrite Z.shiftr_div_pow2 by lia. replace (u16 (e + 1)) with (e + 1) by zlia.
      split; [done|]. lia.
    + rewrite Z.add_0_r, Z.pow_0_r, Z.div_1_r. split; [done|]. lia.
  - assert (0 < 2 ^ Z.of_nat k <= 16) as Hpk
      by (split; [lia|apply (Z.pow_le_mono_r 2 _ 4); lia]).
    assert (2 ^ Z.of_nat (S k) = 2 * 2 ^ Z.of_nat k) as HS
      by (rewrite Nat2Z.inj_succ, Z.pow_succ_r; lia).
    assert (2 * 2 ^ Z.of_nat k <= 16) as Ho
      by (rewrite <- HS; apply (Z.pow_le_mono_r 2 _ 4); lia).
    remember (S (S k)) as fuel. cbn [encode_loop]. subst fuel. rewrite HS in Hv, Hb |- *.
    set (o := 2 * 2 ^ Z.of_nat k) in *.
    replace (0 <? o) with true by (symmetry; apply Z.ltb_lt; lia).
    replace (o / 2) with (2 ^ Z.of_nat k) by zlia.
    assert (u64 (Z.shiftl 1 (u16 (uFloat16MantissaBits + o))) = 2 ^ (11 + o)) as ->.
    { change uFloat16MantissaBits with 11. replace (u16 (11 + o)) with (11 + o) by zlia.
      rewrite Z.shiftl_1_l. apply u64_id. split; [lia|]. apply Z.pow_lt_mono_r; lia. }
    destruct (Z.leb_spec (2 ^ (11 + o)) v).
    + rewrite Z.shiftr_div_pow2 by lia. replace (u16 (e + o)) with (e + o) by zlia.
      assert (2 ^ 11 <= v / 2 ^ o < 2 ^ (11 + o)) as Hd.
      { split; [apply Z.div_le_lower_bound; [lia|]|apply Z.div_lt_upper_bound; [lia|]];
          rewrite <- Z.pow_add_r by lia; [by rewrite Z.add_comm|].
        replace (o + (11 + o)) with (11 + 2 * o) by lia. lia. }
      destruct (IH (e + o) (v / 2 ^ o)) as (s & -> & Hs & Hr); [lia|fold o; lia|lia|lia|].
      rewrite Z.div_div, <- Z.pow_add_r in * by lia. exists (o + s).
      rewrite Z.add_assoc. split; [done|]. split; [lia|done].
    + destruct (IH e v) as (s & -> & Hs & Hr); [lia|fold o; lia|lia|lia|].
      exists s. split; [done|]. split; [lia|done].
Qed.

Lemma encode_range v : is_u16 (encode v).
Proof. unfold encode. repeat case_bool; try destruct (encode_loop _ _ _ _); zlia. Qed.

(** In the normal range the encoding is the exponent above the mantissa... *)
Lemma encode_normal v : 2 ^ 12 <= v < uFloat16MaxValue →
  ∃ s, 1 <= s <= 30 ∧ 2 ^ 11 <= v / 2 ^ s < 2 ^ 12 ∧ encode v = v / 2 ^ s + s * 2 ^ 11.
Proof.
  intros Hv. unfold encode. change (Z.shiftl 1 uFloat16MantissaEffectiveBits) with 4096.
  change uFloat16MaxValue with ((2 ^ 12 - 1) * 2 ^ 30) in *. do 2 (case_bool; [lia|]).
  destruct (encode_loop_spec 4 0 v) as (s & Hl & Hs & Hr); [lia|simpl Z.of_nat; lia|lia|simpl Z.of_nat; lia|].
  change (2 ^ Z.of_nat 4) with 16 in *. rewrite Z.add_0_l in Hl. rewrite Hl. cbv beta iota. clear Hl.
  assert (s <= 30).
  { destruct (decide (s <= 30)) as [|n]; [done|]. exfalso. assert (s = 31) as -> by lia. zlia. }
  assert (1 <= s).
  { destruct (decide (1 <= s)) as [|n]; [done|]. exfalso. assert (s = 0) as -> by lia. zlia. }
  exists s. split; [done|]. split; [done|].
  set (m := v / 2 ^ s) in *. clearbody m. change uFloat16MantissaBits with 11.
  rewrite Z.shiftl_mul_pow2 by lia. zlia.
Qed.

(** ... and decoding such a pattern shifts the mantissa back. *)
Lemma decode_normal m s : 2 ^ 11 <= m < 2 ^ 12 → 1 <= s <= 30 →
  decode (m + s * 2 ^ 11) = m * 2 ^ s.
Proof.
  intros Hm Hs. unfold decode. change (Z.shiftl 1 uFloat16MantissaEffectiveBits) with 4096.
  change uFloat16MantissaBits with 11. case_bool; [lia|].
  rewrite (Z.shiftr_div_pow2 _ 11) by lia.
  replace (u16 ((m + s * 2 ^ 11) / 2 ^ 11 - 1)) with s by zlia.
  rewrite !Z.shiftl_mul_pow2 by lia.
  replace (u64 (m + s * 2 ^ 11 - u64 (s * 2 ^ 11))) with m by zlia. apply u64_id. unfold is_u64.
  assert (2 ^ s <= 2 ^ 30) by (apply Z.pow_le_mono_r; lia). nia.
Qed.

(** A value has one exponent that leaves its highest bit at position 11. *)
Lemma exponent_unique m s t : 2 ^ 11 <= m < 2 ^ 12 → 0 <= s → 0 <= t →
  2 ^ 11 <= m * 2 ^ s / 2 ^ t < 2 ^ 12 → s = t.
Proof.
  intros Hm Hs Ht Hd. destruct (Z.lt_trichotomy s t) as [Hlt|[->|Hlt]]; [|done|]; exfalso.
  - replace t with (s + (t - s)) in Hd by lia. rewrite Z.pow_add_r in Hd by lia.
    rewrite <- Z.div_div, Z.div_mul in Hd by lia.
    assert (2 ^ 1 <= 2 ^ (t - s)) by (apply Z.pow_le_mono_r; lia).
    assert (m / 2 ^ (t - s) < 2 ^ 11) by (apply Z.div_lt_upper_bound; nia). lia.
  - replace s with (s - t + t) in Hd by lia. rewrite Z.pow_add_r, Z.mul_assoc, Z.div_mul in Hd by lia.
    assert (2 ^ 1 <= 2 ^ (s - t)) by (apply Z.pow_le_mono_r; lia). nia.
Qed.

Lemma encode_decode v : is_u16 v → encode (decode v) = v.
Proof.
  intros Hv. destruct (Z.lt_ge_cases v 4096) as [Hlt|Hge].
  { unfold decode, encode. change (Z.shiftl 1 uFloat16MantissaEffectiveBits) with 4096.
    destruct (Z.ltb_spec v 4096); [|lia]. destruct (Z.ltb_spec v 4096); [|lia]. by apply u16_id. }
  set (s := v / 2 ^ 11 - 1). set (m := v mod 2 ^ 11 + 2 ^ 11).
  assert (v = m + s * 2 ^ 11 ∧ 1 <= s <= 30 ∧ 2 ^ 11 <= m < 2 ^ 12) as (Hd & Hs & Hm)
    by (unfold m, s; zlia).
  clearbody m s. subst v. rewrite decode_normal by done.
  assert (2 ^ 1 <= 2 ^ s <= 2 ^ 30) by (split; apply Z.pow_le_mono_r; lia).
  destruct (Z.lt_ge_cases (m * 2 ^ s) uFloat16MaxValue) as [Hx|Hx].
  - destruct (encode_normal (m * 2 ^ s)) as (t & Ht & Hr & ->); [nia|].
    rewrite <- (exponent_unique m s t) in * by lia. by rewrite Z.div_mul by lia.
  - unfold encode. change (Z.shiftl 1 uFloat16MantissaEffectiveBits) with 4096.
    change uFloat16MaxValue with ((2 ^ 12 - 1) * 2 ^ 30) in *.
    destruct (Z.ltb_spec (m * 2 ^ s) 4096); [nia|]. case_bool; [|lia].
    destruct (decide (s = 30)) as [->|]; [lia|].
    assert (2 ^ s <= 2 ^ 29) by (apply Z.pow_le_mono_r; lia). nia.
Qed.

(** The 16-bit float encodes every representable value exactly (all 65536
    bit patterns survive decode-encode), encodes values below 4096 exactly,
    clamps values from the maximum on to the maximum, and otherwise rounds
    down with a relative error below 2^-11. *)
Theorem ufloat16_accuracy v :
  is_u64 v →
  (is_u16 v → encode (decode v) = v) ∧
  is_u16 (encode v) ∧
  (v < 4096 → decode (encode v) = v) ∧
  (uFloat16MaxValue <= v → decode (encode v) = uFloat16MaxValue) ∧
  (v < uFloat16MaxValue →
     decode (encode v) <= v ∧ 2048 * (v - decode (encode v)) <= v).
Proof.
  intros Hv. assert (v < 4096 → decode (encode v) = v) as Hs.
  { intros Hlt. unfold encode, decode.
    change (Z.shiftl 1 uFloat16MantissaEffectiveBits) with 4096.
    destruct (Z.ltb_spec v 4096); [|lia].
    rewrite u16_id by zlia. by destruct (Z.ltb_spec v 4096); [|lia]. }
  split; [apply encode_decode|]. split; [apply encode_range|]. split; [done|]. split.
  - intros Hm. unfold encode. change (Z.shiftl 1 uFloat16MantissaEffectiveBits) with 4096.
    change uFloat16MaxValue with 4396972769280 in *. do 2 (case_bool; [try lia|]); reflexivity || lia.
  - intros Hm. destruct (Z.lt_ge_cases v 4096); [rewrite Hs by done; zlia|].
    destruct (encode_normal v) as (s & Hs1 & Hr & ->); [lia|].
    rewrite decode_normal by done. pose proof (Z.div_mod v (2 ^ s)). pose proof (Z.mod_pos_bound v (2 ^ s)).
    assert (0 < 2 ^ s) by lia. nia.
Qed.

Lemma ufloat16_accuracy_witness :
  is_u64 1000003 ∧ decode (encode 1000003) <= 1000003 ∧
  2048 * (1000003 - decode (encode 1000003)) <= 1000003.
Proof.
  assert (is_u64 1000003) as H by (vm_compute; split; congruence).
  split; [exact H|]. apply (ufloat16_accuracy 1000003 H). vm_compute. reflexivity.
Defined.

Lemma readUfloat16_write bo `{!ByteOrderOk bo} v r : Forall is_byte r →
  ∃ bs, writeUfloat16 bo v = Ok bs ∧ len bs = 2 ∧ Forall is_byte bs ∧
    readUfloat16 bo (bs ++ r) = Ok (decode (encode v), r).
Proof.
  intros Hr. unfold writeUfloat16, readUfloat16. rewrite WriteUint16_enc.
  eexists. split; [done|]. split; [apply enc_len|]. split; [apply enc_bytes|].
  erewrite parser_bind_ok by (apply ReadUint16_enc; [apply encode_range|done]). done.
Qed.

End ufloat16.

(** *** The readers are safe *)
Section safe.
Context (bo : ByteOrder) {Hbo : ByteOrderOk bo}.

Lemma parses_ReadUintN n : 0 <= n <= 8 → parses (ReadUintN bo n) (λ v, 0 <= v < 256 ^ n).
Proof.
  intros Hn r Hr. destruct (ReadUintN bo n r) as [[v r']| |] eqn:E; [|done|by apply ReadUintN_no_panic in E].
  replace n with (Z.of_nat (Z.to_nat n)) in E by lia.
  apply ReadUintN_inv in E as [Hv ->]; [|done|lia]. rewrite Z2Nat.id in Hv by lia. eauto.
Qed.

Lemma parses_ReadUint16 : parses (ReadUint16 bo) is_u16.
Proof. intros r Hr. rewrite ReadUint16_N by done. by apply (parses_ReadUintN 2). Qed.
Lemma parses_ReadUint32 : parses (ReadUint32 bo) is_u32.
Proof. intros r Hr. rewrite ReadUint32_N by done. by apply (parses_ReadUintN 4). Qed.
Lemma parses_ReadUint64 : parses (ReadUint64 bo) is_u64.
Proof. intros r Hr. rewrite ReadUint64_N by done. by apply (parses_ReadUintN 8). Qed.

Lemma parses_readUfloat16 : parses (float16.readUfloat16 bo) (λ _, True).
Proof.
  unfold float16.readUfloat16. eapply parses_bind; [apply parses_ReadUint16|]. intros.
  by apply parses_ret.
Qed.
End safe.

#[export] Hint Resolve parses_ReadUint16 parses_ReadUint32 parses_ReadUint64 parses_readUfloat16 : parse.
