(* ===== verification/AckFrames.v ===== *)
(** * ACK and CLOSE_PATH frames

    [internal/wire/ack_frame.go], [ack_range.go] and [close_path_frame.go]. The
    two frames carry the same block structure: a largest packet number, a first
    block, and further blocks of (gap, length), where a gap of more than 255
    packets takes several blocks. The source repeats the code for both frames;
    the pieces that are the same text in both are modelled once, in [ackRanges]. *)

From S2P Require Import Prelude Protocol ByteOrder.

(** ** Writing to a buffer *)

(** [b.WriteByte] *)
Definition WriteByte (b : Z) : outcome (list Z) := Ok [u8 b].

(** Two writes in sequence. *)
Definition wseq (w1 w2 : outcome (list Z)) : outcome (list Z) :=
  a ← w1; b ← w2; Ok (a ++ b).
Declare Scope wire_scope.
Delimit Scope wire_scope with wire.
Infix ";;;" := wseq (at level 60, right associativity) : wire_scope.
#[global] Open Scope wire_scope.

(** ack_range.go *)
Record AckRange := MkAckRange { First : Z; Last : Z }.

#[global] Instance AckRange_eq_dec : EqDecision AckRange.
Proof. solve_decision. Defined.

Definition ErrInvalidAckRanges : error :=
  NewError "AckFrame: ACK frame contains invalid ACK ranges".
Definition ErrInvalidFirstAckRange : error :=
  NewError "AckFrame: ACK frame has invalid first ACK range".
Definition errInconsistentAckLargestAcked : error :=
  NewError "internal inconsistency: LargestAcked does not match ACK ranges".
Definition errInconsistentAckLowestAcked : error :=
  NewError "internal inconsistency: LowestAcked does not match ACK ranges".

Module ackRanges.
Import protocol.

(** The switch on a packet number length: a number written in 1, 2, 4 or 6
    bytes, nothing for another length. [mask] tells whether the 6 byte case cuts
    the number to 48 bits (AckFrame) or not (ClosePathFrame, which then panics on
    a larger number). *)
Definition writeNumber (mask : bool) (bo : ByteOrder) (n v : Z) : outcome (list Z) :=
  if n =? PacketNumberLen1 then WriteByte (u8 v)
  else if n =? PacketNumberLen2 then WriteUint16 bo (u16 v)
  else if n =? PacketNumberLen4 then WriteUint32 bo (u32 v)
  else if n =? PacketNumberLen6 then
    WriteUint48 bo (if mask then Z.land v (Z.shiftl 1 48 - 1) else v)
  else Ok [].

Definition HasMissingRanges (ranges : list AckRange) : bool := 0 <? len ranges.

(** The check of the consistency between neighbouring ranges. *)
Fixpoint validateNeighbours (lastAckRange : AckRange) (ranges : list AckRange) : bool :=
  match ranges with
  | [] => true
  | ackRange :: ranges' =>
      if First lastAckRange <=? First ackRange then false
      else if First lastAckRange <=? u64 (Last ackRange + 1) then false
      else validateNeighbours ackRange ranges'
  end.

Definition validateAckRanges (largestAcked : Z) (ranges : list AckRange) : bool :=
  match ranges with
  | [] => true
  | [_] => false
  | r0 :: ranges' =>
      if negb (Last r0 =? largestAcked) then false
      else if existsb (λ r, Last r <? First r) ranges then false
      else validateNeighbours r0 ranges'
  end.

(** The number of blocks of the gap between a range and the next lower one. *)
Definition gapOf (lastAckRange ackRange : AckRange) : Z :=
  u64 (First lastAckRange - Last ackRange - 1).
Definition gapBlocks (gap : Z) : Z :=
  let rangeLength := u64 (1 + gap / 255) in
  if gap mod 255 =? 0 then u64 (rangeLength - 1) else rangeLength.

(** The loop of numWritableNackRanges, over the ranges after the first. *)
Fixpoint countRanges (lastAckRange : AckRange) (ranges : list AckRange) (numRanges : Z) : Z :=
  match ranges with
  | [] => numRanges
  | ackRange :: ranges' =>
      let rangeLength := gapBlocks (gapOf lastAckRange ackRange) in
      if u64 (numRanges + rangeLength) <? 255
      then countRanges ackRange ranges' (u64 (numRanges + rangeLength))
      else numRanges
  end.

Definition numWritableNackRanges (ranges : list AckRange) : Z :=
  match ranges with
  | [] => 0
  | r0 :: ranges' => u64 (countRanges r0 ranges' 0 + 1)
  end.

Fixpoint maxRangeLength (ranges : list AckRange) (m : Z) : Z :=
  match ranges with
  | [] => m
  | r :: ranges' =>
      let rangeLength := u64 (Last r - First r + 1) in
      maxRangeLength ranges' (if m <? rangeLength then rangeLength else m)
  end.

Definition getMissingSequenceNumberDeltaLen (largestAcked lowestAcked : Z)
    (ranges : list AckRange) : Z :=
  let m := if HasMissingRanges ranges then maxRangeLength ranges 0
           else u64 (largestAcked - lowestAcked + 1) in
  if m <=? 255 then PacketNumberLen1
  else if m <=? 65535 then PacketNumberLen2
  else if m <=? 4294967295 then PacketNumberLen4
  else PacketNumberLen6.

(** The blocks of one long gap: [k] of them left, the last one carries the
    length of the range. *)
Fixpoint writeLongGap (mask : bool) (bo : ByteOrder) (dl gap length : Z) (k : nat) :
    outcome (list Z) :=
  match k with
  | O => Ok []
  | S O => WriteByte (u8 (1 + u64 (gap - 1) mod 255)) ;;; writeNumber mask bo dl length
  | S k' => WriteByte 255 ;;; writeNumber mask bo dl 0 ;;; writeLongGap mask bo dl gap length k'
  end.

(** The loop over the ranges after the first, with the number of blocks written
    so far; it stops when [numRanges] blocks are reached. *)
Fixpoint writeBlocks (mask : bool) (bo : ByteOrder) (dl numRanges : Z)
    (prev : AckRange) (ranges : list AckRange) (written : Z) : outcome (list Z * Z) :=
  match ranges with
  | [] => Ok ([], written)
  | ackRange :: ranges' =>
      let length := u64 (Last ackRange - First ackRange + 1) in
      let gap := gapOf prev ackRange in
      let num := u64 (gap / 255 + 1) in
      let num := if gap mod 255 =? 0 then u64 (num - 1) else num in
      bs ← (if num =? 1 then WriteByte (u8 gap) ;;; writeNumber mask bo dl length
            else writeLongGap mask bo dl gap length (Z.to_nat num));
      let written := u64 (written + num) in
      if numRanges <=? written then Ok (bs, written)
      else
        '(rest, total) ← writeBlocks mask bo dl numRanges ackRange ranges' written;
        Ok (bs ++ rest, total)
  end.

(** The reading loop: [acc] holds the ranges read so far, lowest first. *)
Fixpoint parseBlocks (bo : ByteOrder) (dl : Z) (k : nat) (acc : list AckRange)
    (inLongBlock lastRangeComplete : bool) : Parser (list AckRange * bool) :=
  match k with
  | O => mret (acc, lastRangeComplete)
  | S k' =>
      gap ← ReadByte;
      ackBlockLength ← ReadUintN bo dl;
      let length := ackBlockLength in
      match acc with
      | [] => panic
      | cur :: acc' =>
          let '(acc, lastRangeComplete) :=
            if inLongBlock then
              (MkAckRange (u64 (First cur - u64 (gap + length))) (u64 (Last cur - gap)) :: acc',
               lastRangeComplete)
            else
              let last := u64 (First cur - gap - 1) in
              (MkAckRange (u64 (last - length + 1)) last :: cur :: acc', false) in
          let lastRangeComplete := if 0 <? length then true else lastRangeComplete in
          parseBlocks bo dl k' acc (ackBlockLength =? 0) lastRangeComplete
      end
  end.

(** The ranges of a frame with missing ranges: the first block, the loop, and
    the removal of a last range that was never completed. *)
Definition parseRanges (bo : ByteOrder) (dl numAckBlocks largestAcked ackBlockLength : Z) :
    Parser (list AckRange) :=
  let first := MkAckRange (u64 (u64 (largestAcked - ackBlockLength) + 1)) largestAcked in
  parseBlocks bo dl (Z.to_nat numAckBlocks) [first] false false ≫= λ res : list AckRange * bool,
  let '(acc, lastRangeComplete) := res in
  if lastRangeComplete then mret (rev acc)
  else match acc with
       | [] => panic
       | _ :: acc' => mret (rev acc')
       end.

(** The linear search of AcksPacket. *)
Definition AcksPacket (lowestAcked largestAcked : Z) (ranges : list AckRange) (p : Z) : bool :=
  if (p <? lowestAcked) || (largestAcked <? p) then false
  else if HasMissingRanges ranges
  then existsb (λ r, (First r <=? p) && (p <=? Last r)) ranges
  else (lowestAcked <=? p) && (p <=? largestAcked).

(** Reading the largest packet number and the first block length, with the two
    checks that follow. *)
Definition checkFirstBlock (largestAcked ackBlockLength : Z) : Parser unit :=
  if (0 <? largestAcked) && (ackBlockLength <? 1) then throw ErrInvalidFirstAckRange
  else if largestAcked <? ackBlockLength then throw ErrInvalidAckRanges
  else mret ().

(** [2 * bits], or 1 when the bits are zero. *)
Definition fieldLen (bits : Z) : Z :=
  let l := u8 (2 * bits) in if l =? 0 then 1 else l.

End ackRanges.

(** ** ack_frame.go *)
Module AckFrame.
Import protocol ackRanges.

Record AckFrame := MkAckFrame {
  PathID : Z;
  LargestAcked : Z;
  LowestAcked : Z;
  AckRanges : list AckRange;
  PacketReceivedTime : Z;
  DelayTime : Z;
}.

#[global] Instance AckFrame_eq_dec : EqDecision AckFrame.
Proof. solve_decision. Defined.

Definition readPathID (typeByte : Z) : Parser Z :=
  if Z.land typeByte 16 =? 16 then ReadByte else mret 0.

(** The timestamps are read and dropped. *)
Fixpoint skipTimestamps (bo : ByteOrder) (k : nat) : Parser unit :=
  match k with
  | O => mret ()
  | S k' => ReadByte ≫= λ _, ReadUint16 bo ≫= λ _, skipTimestamps bo k'
  end.

Definition parseTimestamps (bo : ByteOrder) : Parser unit :=
  numTimestamp ← ReadByte;
  if 0 <? numTimestamp then
    ReadByte ≫= λ _, ReadUint32 bo ≫= λ _, skipTimestamps bo (Z.to_nat (numTimestamp - 1))
  else mret ().

Definition ParseAckFrame (version : Z) : Parser AckFrame :=
  let bo := GetByteOrder version in
  typeByte ← ReadByte;
  let hasMissingRanges := Z.land typeByte 32 =? 32 in
  let largestAckedLen := fieldLen (Z.shiftr (Z.land typeByte 12) 2) in
  let missingSequenceNumberDeltaLen := fieldLen (Z.land typeByte 3) in
  pathID ← readPathID typeByte;
  largestAcked ← ReadUintN bo largestAckedLen;
  delay ← float16.readUfloat16 bo;
  let delayTime := i64 (delay * time.Microsecond) in
  numAckBlocks ← (if hasMissingRanges then ReadByte else mret 0);
  if hasMissingRanges && (numAckBlocks =? 0) then throw ErrInvalidAckRanges else
  ackBlockLength ← ReadUintN bo missingSequenceNumberDeltaLen;
  checkFirstBlock largestAcked ackBlockLength ≫= λ _,
  (if hasMissingRanges then
     ranges ← parseRanges bo missingSequenceNumberDeltaLen numAckBlocks largestAcked ackBlockLength;
     match last ranges with
     | None => panic
     | Some r => mret (ranges, First r)
     end
   else mret ([], if largestAcked =? 0 then 0 else u64 (u64 (largestAcked + 1) - ackBlockLength)))
  ≫= λ res : list AckRange * Z, let '(ackRanges, lowestAcked) := res in
  if negb (validateAckRanges largestAcked ackRanges) then throw ErrInvalidAckRanges else
  parseTimestamps bo ≫= λ _,
  mret (MkAckFrame pathID largestAcked lowestAcked ackRanges 0 delayTime).

Definition typeByteOf (f : AckFrame) : Z :=
  let largestAckedLen := GetPacketNumberLength (LargestAcked f) in
  let dl := getMissingSequenceNumberDeltaLen (LargestAcked f) (LowestAcked f) (AckRanges f) in
  let typeByte := 64 in
  let typeByte := if negb (largestAckedLen =? PacketNumberLen1)
                  then Z.lxor typeByte (u8 (Z.shiftl (largestAckedLen / 2) 2)) else typeByte in
  let typeByte := if negb (dl =? PacketNumberLen1)
                  then Z.lxor typeByte (u8 (dl / 2)) else typeByte in
  let typeByte := if HasMissingRanges (AckRanges f) then Z.lor typeByte 32 else typeByte in
  if negb (PathID f =? InitialPathID) then Z.lor typeByte 16 else typeByte.

(** The first block length and the number of blocks it counts for, or the
    inconsistency errors. *)
Definition firstBlock (largestAcked lowestAcked : Z) (ranges : list AckRange) : outcome (Z * Z) :=
  match ranges, last ranges with
  | r0 :: _, Some rl =>
      if negb (largestAcked =? Last r0) then Err errInconsistentAckLargestAcked
      else if negb (lowestAcked =? First rl) then Err errInconsistentAckLowestAcked
      else Ok (u64 (largestAcked - First r0 + 1), 1)
  | _, _ => Ok (u64 (largestAcked - lowestAcked + 1), 0)
  end.

Definition errInconsistentNumber : error :=
  NewError "BUG: Inconsistent number of ACK ranges written".

(** Write sets [DelayTime] from the clock reading [now] and appends the frame. *)
Definition Write (f : AckFrame) (version now : Z) : AckFrame * outcome (list Z) :=
  let bo := GetByteOrder version in
  let dl := getMissingSequenceNumberDeltaLen (LargestAcked f) (LowestAcked f) (AckRanges f) in
  let delayTime := time.Sub now (PacketReceivedTime f) in
  let f := MkAckFrame (PathID f) (LargestAcked f) (LowestAcked f) (AckRanges f)
                      (PacketReceivedTime f) delayTime in
  let numRanges := numWritableNackRanges (AckRanges f) in
  (f,
   WriteByte (typeByteOf f) ;;;
   (if negb (PathID f =? InitialPathID) then WriteByte (PathID f) else Ok []) ;;;
   writeNumber true bo (GetPacketNumberLength (LargestAcked f)) (LargestAcked f) ;;;
   float16.writeUfloat16 bo (u64 (Z.quot delayTime time.Microsecond)) ;;;
   (if HasMissingRanges (AckRanges f) then
      if 255 <? numRanges then Panic else WriteByte (u64 (numRanges - 1))
    else Ok []) ;;;
   ('(firstAckBlockLength, written) ← firstBlock (LargestAcked f) (LowestAcked f) (AckRanges f);
    writeNumber true bo dl firstAckBlockLength ;;;
    ('(bs, written) ←
        match AckRanges f with
        | [] => Ok ([], written)
        | r0 :: ranges' => writeBlocks true bo dl numRanges r0 ranges' written
        end;
     if negb (numRanges =? written) then Err errInconsistentNumber
     else Ok bs ;;; WriteByte 0))).

Definition MinLength (f : AckFrame) (version : Z) : outcome Z :=
  let length := 1 + 2 + 1 in
  let length := u64 (length + GetPacketNumberLength (LargestAcked f)) in
  let dl := getMissingSequenceNumberDeltaLen (LargestAcked f) (LowestAcked f) (AckRanges f) in
  let length := if HasMissingRanges (AckRanges f)
                then u64 (length + u64 ((1 + dl) * numWritableNackRanges (AckRanges f)))
                else u64 (length + dl) in
  let length := u64 (length + (1 + 2) * 0) in
  Ok (if negb (PathID f =? InitialPathID) then u64 (length + 1) else length).

Definition AcksPacket (f : AckFrame) (p : Z) : bool :=
  ackRanges.AcksPacket (LowestAcked f) (LargestAcked f) (AckRanges f) p.

End AckFrame.

(** ** close_path_frame.go *)
Module ClosePathFrame.
Import protocol ackRanges.

Record ClosePathFrame := MkClosePathFrame {
  PathID : Z;
  LargestAcked : Z;
  LowestAcked : Z;
  AckRanges : list AckRange;
}.

#[global] Instance ClosePathFrame_eq_dec : EqDecision ClosePathFrame.
Proof. solve_decision. Defined.

Definition flagsOf (f : ClosePathFrame) : Z :=
  let largestAckedLen := GetPacketNumberLength (LargestAcked f) in
  let dl := getMissingSequenceNumberDeltaLen (LargestAcked f) (LowestAcked f) (AckRanges f) in
  let flags := if HasMissingRanges (AckRanges f) then Z.lor 0 16 else 0 in
  let flags := if negb (largestAckedLen =? PacketNumberLen1)
               then Z.lxor flags (u8 (Z.shiftl (largestAckedLen / 2) 2)) else flags in
  if negb (dl =? PacketNumberLen1) then Z.lxor flags (u8 (dl / 2)) else flags.

Definition errInconsistentNumber : error :=
  NewError "BUG: Inconsistent number of ACK ranges written in ClosePath".

Definition Write (f : ClosePathFrame) (version : Z) : outcome (list Z) :=
  let bo := GetByteOrder version in
  let dl := getMissingSequenceNumberDeltaLen (LargestAcked f) (LowestAcked f) (AckRanges f) in
  let numRanges := numWritableNackRanges (AckRanges f) in
  WriteByte 17 ;;;
  WriteByte (PathID f) ;;;
  WriteByte (flagsOf f) ;;;
  (if HasMissingRanges (AckRanges f) then
     if 255 <? numRanges then Panic else WriteByte (u64 (numRanges - 1))
   else Ok []) ;;;
  writeNumber false bo (GetPacketNumberLength (LargestAcked f)) (LargestAcked f) ;;;
  ('(firstAckBlockLength, written) ← AckFrame.firstBlock (LargestAcked f) (LowestAcked f) (AckRanges f);
   writeNumber false bo dl firstAckBlockLength ;;;
   ('(bs, written) ←
      match AckRanges f with
      | [] => Ok ([], written)
      | r0 :: ranges' => writeBlocks false bo dl numRanges r0 ranges' written
      end;
    if negb (numRanges =? written) then Err errInconsistentNumber else Ok bs)).

Definition ParseClosePathFrame (version : Z) : Parser ClosePathFrame :=
  let bo := GetByteOrder version in
  ReadByte ≫= λ _,
  pathID ← ReadByte;
  flags ← ReadByte;
  let hasMissingRanges := Z.land flags 16 =? 16 in
  let largestAckedLen := fieldLen (Z.shiftr (Z.land flags 12) 2) in
  let missingSequenceNumberDeltaLen := fieldLen (Z.land flags 3) in
  numAckBlocks ← (if hasMissingRanges then ReadByte else mret 0);
  if hasMissingRanges && (numAckBlocks =? 0) then throw ErrInvalidAckRanges else
  largestAcked ← ReadUintN bo largestAckedLen;
  ackBlockLength ← ReadUintN bo missingSequenceNumberDeltaLen;
  checkFirstBlock largestAcked ackBlockLength ≫= λ _,
  (if hasMissingRanges then
     ranges ← parseRanges bo missingSequenceNumberDeltaLen numAckBlocks largestAcked ackBlockLength;
     match last ranges with
     | None => panic
     | Some r => mret (ranges, First r)
     end
   else mret ([], if largestAcked =? 0 then 0 else u64 (u64 (largestAcked + 1) - ackBlockLength)))
  ≫= λ res : list AckRange * Z, let '(ackRanges, lowestAcked) := res in
  if negb (validateAckRanges largestAcked ackRanges) then throw ErrInvalidAckRanges else
  mret (MkClosePathFrame pathID largestAcked lowestAcked ackRanges).

Definition MinLength (f : ClosePathFrame) (version : Z) : outcome Z :=
  let length := 1 + 1 + 1 in
  let length := u64 (length + GetPacketNumberLength (LargestAcked f)) in
  let dl := getMissingSequenceNumberDeltaLen (LargestAcked f) (LowestAcked f) (AckRanges f) in
  Ok (if HasMissingRanges (AckRanges f)
      then u64 (length + u64 ((1 + dl) * numWritableNackRanges (AckRanges f)))
      else u64 (length + dl)).

Definition AcksPacket (f : ClosePathFrame) (p : Z) : bool :=
  ackRanges.AcksPacket (LowestAcked f) (LargestAcked f) (AckRanges f) p.

End ClosePathFrame.

(** ** The theory of ranges and blocks *)

(** Ranges from the highest to the lowest, each below [bound] with at least one
    packet missing in between. *)
Fixpoint ranges_below (bound : Z) (ranges : list AckRange) : Prop :=
  match ranges with
  | [] => True
  | r :: rs => 0 <= First r <= Last r ∧ Last r + 1 < bound ∧ ranges_below (First r) rs
  end.

(** A well-formed list of ranges of a frame with missing packets. *)
Definition valid_ranges (largest lowest : Z) (ranges : list AckRange) : Prop :=
  match ranges with
  | r0 :: rs =>
      0 <= First r0 <= Last r0 ∧ Last r0 = largest ∧ rs ≠ [] ∧ ranges_below (First r0) rs ∧
      (∀ rl, last ranges = Some rl → lowest = First rl)
  | [] => False
  end.

(** A well-formed pair of largest packet, lowest packet and ranges: what a
    frame on the wire may say. *)
Definition valid_acks (largest lowest : Z) (ranges : list AckRange) : Prop :=
  0 <= largest < 2 ^ 48 ∧
  match ranges with
  | [] => 0 <= lowest <= largest
  | _ => valid_ranges largest lowest ranges
  end.

(** The packets that a well-formed frame acknowledges. *)
Definition acked (largest lowest : Z) (ranges : list AckRange) (p : Z) : Prop :=
  match ranges with
  | [] => lowest <= p <= largest
  | _ => ∃ r, r ∈ ranges ∧ First r <= p <= Last r
  end.

Lemma ranges_below_bound b rs r : ranges_below b rs → r ∈ rs → 0 <= First r <= Last r ∧ Last r + 1 < b.
Proof.
  revert b. induction rs as [|r' rs IH]; simpl; intros b Hb Hr; [set_solver|].
  apply elem_of_cons in Hr as [->|Hr]; [naive_solver|].
  destruct Hb as (? & ? & Hb). specialize (IH _ Hb Hr). lia.
Qed.

Lemma ranges_below_last b rs r : ranges_below b rs → last rs = Some r →
  ∀ r', r' ∈ rs → First r <= First r'.
Proof.
  revert b. induction rs as [|r0 rs IH]; simpl; intros b Hb Hl r' Hr'; [done|].
  destruct Hb as (? & ? & Hb). destruct rs as [|r1 rs'].
  - injection Hl as ->. apply elem_of_cons in Hr' as [->|Hr']; [lia|set_solver].
  - assert (r ∈ r1 :: rs') as Hin by (by apply last_Some_elem_of).
    apply elem_of_cons in Hr' as [->|Hr'].
    + pose proof (ranges_below_bound _ _ _ Hb Hin). lia.
    + by apply (IH (First r0)).
Qed.

Section theory.
Import protocol ackRanges.

(** *** AcksPacket *)

Lemma valid_ranges_bounds largest lowest ranges r :
  valid_ranges largest lowest ranges → r ∈ ranges →
  0 <= First r <= Last r ∧ lowest <= First r ∧ Last r <= largest.
Proof.
  destruct ranges as [|r0 rs]; [done|]. intros (H0 & <- & Hne & Hb & Hlow) Hr.
  assert (is_Some (last (r0 :: rs))) as [rl Hl] by by apply last_is_Some.
  rewrite (Hlow rl Hl). rewrite last_cons in Hl. destruct rs as [|r1 rs]; [done|].
  destruct (last (r1 :: rs)) as [rl'|] eqn:E; [|by apply last_None in E]. injection Hl as ->.
  apply elem_of_cons in Hr as [->|Hr].
  - assert (rl ∈ r1 :: rs) as Hin by by apply last_Some_elem_of.
    pose proof (ranges_below_bound _ _ _ Hb Hin). lia.
  - pose proof (ranges_below_bound _ _ _ Hb Hr).
    pose proof (ranges_below_last _ _ _ Hb E _ Hr). lia.
Qed.

Lemma AcksPacket_spec largest lowest ranges p :
  valid_acks largest lowest ranges →
  AcksPacket lowest largest ranges p = true ↔ acked largest lowest ranges p.
Proof.
  intros [_ Hv]. unfold AcksPacket, HasMissingRanges. destruct ranges as [|r0 rs].
  - change (0 <? len (@nil AckRange)) with false. cbv iota. unfold acked.
    destruct ((p <? lowest) || (largest <? p)) eqn:Eo; split; intros; done || lia.
  - replace (0 <? len (r0 :: rs)) with true
      by (symmetry; apply Z.ltb_lt; rewrite len_cons; pose proof (len_nonneg rs); lia).
    remember (r0 :: rs) as ranges eqn:E.
    assert (acked largest lowest ranges p ↔ ∃ r, r ∈ ranges ∧ First r <= p <= Last r) as ->
      by by rewrite E.
    assert (valid_ranges largest lowest ranges) as Hr by by rewrite E in *. clear Hv E.
    destruct ((p <? lowest) || (largest <? p)) eqn:Eo.
    + split; [done|]. intros (r & Hin & Hp).
      pose proof (valid_ranges_bounds _ _ _ _ Hr Hin). lia.
    + rewrite existsb_exists. setoid_rewrite <- list_elem_of_In.
      split; intros (r & Hin & Hp); exists r; split; auto; lia.
Qed.

(** *** validateAckRanges *)

Lemma validateNeighbours_complete prev rs :
  First prev < 2 ^ 64 → ranges_below (First prev) rs → validateNeighbours prev rs = true.
Proof.
  revert prev. induction rs as [|r rs IH]; simpl; intros prev Hp Hb; [done|].
  destruct Hb as (? & ? & Hb). replace (u64 (Last r + 1)) with (Last r + 1) by zlia.
  repeat case_bool; try lia. apply IH; [lia|done].
Qed.

Lemma ranges_below_ordered b rs : ranges_below b rs → existsb (λ r, Last r <? First r) rs = false.
Proof.
  revert b. induction rs as [|r rs IH]; simpl; intros b Hb; [done|].
  destruct Hb as (? & ? & Hb). rewrite (IH _ Hb), orb_false_r. lia.
Qed.

Lemma validateAckRanges_complete largest lowest ranges :
  valid_ranges largest lowest ranges → largest < 2 ^ 64 → validateAckRanges largest ranges = true.
Proof.
  destruct ranges as [|r0 rs]; [done|]. intros (H0 & <- & Hne & Hb & _) Hlt.
  destruct rs as [|r1 rs]; [done|]. unfold validateAckRanges.
  rewrite Z.eqb_refl. simpl negb. cbv iota.
  assert (existsb (λ r, Last r <? First r) (r0 :: r1 :: rs) = false) as ->.
  { cbn [existsb]. pose proof (ranges_below_ordered _ _ Hb) as Ho. cbn [existsb] in Ho.
    rewrite Ho, orb_false_r. lia. }
  apply validateNeighbours_complete; [lia|done].
Qed.

(** *** Numbers and blocks on the wire *)

Context (bo : ByteOrder) {Hbo : ByteOrderOk bo}.

Lemma wseq_ok w1 w2 a b : w1 = Ok a → w2 = Ok b → wseq w1 w2 = Ok (a ++ b).
Proof. by intros -> ->. Qed.

Lemma writeNumber_enc mask n v : valid_pn_len n → 0 <= v < 2 ^ (8 * n) →
  writeNumber mask bo n v = Ok (enc (bo := bo) (Z.to_nat n) v).
Proof.
  intros [->|[->|[->| ->]]] Hv; unfold writeNumber; cbn [Z.eqb PacketNumberLen1 PacketNumberLen2
    PacketNumberLen4 PacketNumberLen6 Pos.eqb].
  - change (Z.to_nat 1) with 1%nat. rewrite enc_1 by zlia. unfold WriteByte. do 2 f_equal. zlia.
  - rewrite WriteUint16_enc, u16_id by zlia. done.
  - rewrite WriteUint32_enc, u32_id by zlia. done.
  - replace (if mask then Z.land v (Z.shiftl 1 48 - 1) else v) with v.
    + rewrite WriteUint48_enc. case_bool; [lia|done].
    + destruct mask; [|done]. change (Z.shiftl 1 48 - 1) with (Z.ones 48).
      rewrite Z.land_ones, Z.mod_small by lia. done.
Qed.

Lemma ReadUintN_pn n v r : valid_pn_len n → 0 <= v < 2 ^ (8 * n) →
  ReadUintN bo n (enc (bo := bo) (Z.to_nat n) v ++ r) = Ok (v, r).
Proof.
  intros Hn Hv. assert (n = Z.of_nat (Z.to_nat n)) as E
    by (destruct Hn as [->|[->|[->| ->]]]; done).
  rewrite E at 1. apply ReadUintN_enc; [destruct Hn as [->|[->|[->| ->]]]; simpl; lia|].
  rewrite <- E, pow256_pow2; [done|]. destruct Hn as [->|[->|[->| ->]]]; lia.
Qed.

(** A block: its gap and its length. *)
Definition block_bytes (dl : Z) (b : Z * Z) : list Z := b.1 :: enc (bo := bo) (Z.to_nat dl) b.2.
Definition blocks_bytes (dl : Z) (bs : list (Z * Z)) : list Z := concat (block_bytes dl <$> bs).

(** The blocks of a gap of at least one packet before a range of length [l]. *)
Definition gap_blocks (gap l : Z) : list (Z * Z) :=
  replicate (Z.to_nat ((gap - 1) / 255)) (255, 0) ++ [(1 + (gap - 1) mod 255, l)].

Definition range_len (r : AckRange) : Z := Last r - First r + 1.

Fixpoint ranges_blocks (prev : AckRange) (ranges : list AckRange) : list (Z * Z) :=
  match ranges with
  | [] => []
  | r :: rs => gap_blocks (First prev - Last r - 1) (range_len r) ++ ranges_blocks r rs
  end.

Lemma blocks_bytes_cons dl g l bs :
  blocks_bytes dl ((g, l) :: bs) = g :: enc (bo := bo) (Z.to_nat dl) l ++ blocks_bytes dl bs.
Proof. done. Qed.
Lemma blocks_bytes_single dl g l :
  blocks_bytes dl [(g, l)] = g :: enc (bo := bo) (Z.to_nat dl) l.
Proof. rewrite blocks_bytes_cons. unfold blocks_bytes. simpl. by rewrite app_nil_r. Qed.

Lemma blocks_bytes_app dl a b : blocks_bytes dl (a ++ b) = blocks_bytes dl a ++ blocks_bytes dl b.
Proof. unfold blocks_bytes. by rewrite fmap_app, concat_app. Qed.

Lemma blocks_bytes_byte_gen dl bs : Forall (λ b, is_byte b.1) bs → Forall is_byte (blocks_bytes dl bs).
Proof.
  induction 1 as [|[g l] bs Hb Hbs IH]; [constructor|]. rewrite blocks_bytes_cons.
  constructor; [done|]. by apply enc_app_bytes.
Qed.

Lemma blocks_bytes_byte dl prev rs : Forall is_byte (blocks_bytes dl (ranges_blocks prev rs)).
Proof.
  apply blocks_bytes_byte_gen. revert prev. induction rs as [|r rs IH]; intros prev; [constructor|].
  cbn [ranges_blocks]. apply Forall_app; split; [|done]. unfold gap_blocks.
  apply Forall_app; split; [|repeat constructor; simpl; zlia].
  apply Forall_replicate. simpl. unfold is_byte. lia.
Qed.

Lemma gapBlocks_val gap : 1 <= gap < 2 ^ 63 → gapBlocks gap = (gap - 1) / 255 + 1.
Proof. intros H. unfold gapBlocks. case_bool; zlia. Qed.

Lemma length_gap_blocks gap l : 1 <= gap → len (gap_blocks gap l) = (gap - 1) / 255 + 1.
Proof. intros. unfold gap_blocks. rewrite len_app. unfold len. rewrite length_replicate. simpl. lia. Qed.

Lemma gap_blocks_pos gap l : 1 <= len (gap_blocks gap l).
Proof. unfold gap_blocks, len. rewrite length_app. simpl. lia. Qed.

Lemma writeLongGap_enc mask dl gap l k : valid_pn_len dl → 1 <= gap < 2 ^ 64 → 0 <= l < 2 ^ (8 * dl) →
  writeLongGap mask bo dl gap l (S k)
  = Ok (blocks_bytes dl (replicate k (255, 0) ++ [(1 + (gap - 1) mod 255, l)])).
Proof.
  intros Hd Hg Hl. induction k as [|k IH].
  - cbn [writeLongGap]. erewrite wseq_ok; [|done|by apply writeNumber_enc].
    simpl replicate. rewrite app_nil_l, blocks_bytes_single. simpl. do 2 f_equal. zlia.
  - remember (S k) as k' eqn:E. cbn [writeLongGap]. rewrite E at 1. rewrite IH.
    erewrite wseq_ok; [|done|erewrite wseq_ok; [|by apply writeNumber_enc; [|destruct Hd as [->|[->|[->| ->]]]]|done]; done].
    subst k'. reflexivity.
Qed.

(** What is written for one range is the blocks of its gap. *)
Lemma write_range_enc mask dl gap l : valid_pn_len dl → 1 <= gap < 2 ^ 62 → 0 <= l < 2 ^ (8 * dl) →
  let num := u64 (gap / 255 + 1) in
  let num := if gap mod 255 =? 0 then u64 (num - 1) else num in
  num = (gap - 1) / 255 + 1 ∧
  (if num =? 1 then wseq (WriteByte (u8 gap)) (writeNumber mask bo dl l)
   else writeLongGap mask bo dl gap l (Z.to_nat num)) = Ok (blocks_bytes dl (gap_blocks gap l)).
Proof.
  intros Hd Hg Hl num0 num. assert (num = (gap - 1) / 255 + 1) as Hn
    by (unfold num, num0; case_bool; zlia).
  split; [done|]. clearbody num. subst num. unfold gap_blocks.
  destruct (Z.eqb_spec ((gap - 1) / 255 + 1) 1) as [E|E].
  - replace ((gap - 1) / 255) with 0 by lia. erewrite wseq_ok; [|done|by apply writeNumber_enc].
    simpl replicate. rewrite app_nil_l, blocks_bytes_single. simpl. do 2 f_equal. zlia.
  - replace (Z.to_nat ((gap - 1) / 255 + 1)) with (S (Z.to_nat ((gap - 1) / 255))) by lia.
    apply writeLongGap_enc; [done|lia|done].
Qed.

(** *** The ranges that fit into a frame *)

(** The ranges after the first that numWritableNackRanges counts: as long as
    fewer than 255 blocks are needed, [n] of which are already taken. *)
Fixpoint writable (prev : AckRange) (ranges : list AckRange) (n : Z) : list AckRange :=
  match ranges with
  | [] => []
  | r :: rs =>
      let b := (First prev - Last r - 2) / 255 + 1 in
      if n + b <? 255 then r :: writable r rs (n + b) else []
  end.

Lemma writable_prefix prev rs n : ∃ post, rs = writable prev rs n ++ post.
Proof.
  revert prev n. induction rs as [|r rs IH]; intros prev n; [by exists []|].
  cbn [writable]. case_bool; [|by exists (r :: rs)].
  destruct (IH r (n + ((First prev - Last r - 2) / 255 + 1))) as [post Hp].
  exists post. simpl. by rewrite <- Hp.
Qed.

Lemma ranges_below_app b rs1 rs2 : ranges_below b (rs1 ++ rs2) → ranges_below b rs1.
Proof. revert b. induction rs1 as [|r rs IH]; simpl; [done|]. naive_solver. Qed.

Lemma ranges_blocks_cons prev r rs :
  First prev - Last r - 1 >= 1 →
  len (ranges_blocks prev (r :: rs)) = (First prev - Last r - 2) / 255 + 1 + len (ranges_blocks r rs).
Proof.
  intros. cbn [ranges_blocks]. rewrite len_app, length_gap_blocks by lia.
  do 3 f_equal. lia.
Qed.

Lemma countRanges_writable prev rs n :
  First prev < 2 ^ 62 → ranges_below (First prev) rs → 0 <= n < 255 →
  countRanges prev rs n = n + len (ranges_blocks prev (writable prev rs n)) ∧
  n <= countRanges prev rs n < 255.
Proof.
  revert prev n. induction rs as [|r rs IH]; intros prev n Hp Hb Hn; cbn [countRanges writable].
  { cbn [ranges_blocks]. rewrite len_nil. lia. }
  destruct Hb as (? & ? & Hb).
  assert (gapOf prev r = First prev - Last r - 1) as -> by (unfold gapOf; zlia).
  rewrite gapBlocks_val by lia.
  replace (First prev - Last r - 1 - 1) with (First prev - Last r - 2) by lia.
  set (b := (First prev - Last r - 2) / 255 + 1).
  assert (1 <= b < 2 ^ 62) by (unfold b; zlia).
  replace (u64 (n + b)) with (n + b) by zlia.
  case_bool; [|cbn [ranges_blocks]; rewrite len_nil; lia].
  rewrite ranges_blocks_cons by lia. fold b.
  destruct (IH r (n + b)) as [-> ?]; [lia|done|lia|]. lia.
Qed.

(** The writing loop emits the blocks of the ranges that fit and counts them,
    provided that at least one range after the first fits. *)
Lemma writeBlocks_enc mask dl prev rs n :
  valid_pn_len dl → First prev < 2 ^ 62 → ranges_below (First prev) rs →
  (∀ r, r ∈ rs → range_len r < 2 ^ (8 * dl)) →
  0 <= n < 255 → writable prev rs n ≠ [] →
  writeBlocks mask bo dl (1 + countRanges prev rs n) prev rs (1 + n)
  = Ok (blocks_bytes dl (ranges_blocks prev (writable prev rs n)), 1 + countRanges prev rs n).
Proof.
  intros Hd. revert prev n. induction rs as [|r rs IH]; intros prev n Hp Hb Hlen Hn Hne; [done|].
  destruct (countRanges_writable prev (r :: rs) n) as [HN HN']; [done|done|done|].
  pose proof Hb as (Hr & Hgap & Hb').
  cbn [writeBlocks]. set (N := countRanges prev (r :: rs) n) in *.
  assert (gapOf prev r = First prev - Last r - 1) as -> by (unfold gapOf; zlia).
  assert (u64 (Last r - First r + 1) = range_len r) as -> by (unfold range_len; zlia).
  assert (0 <= range_len r < 2 ^ (8 * dl)) as Hl
    by (split; [unfold range_len; lia|apply Hlen; set_solver]).
  destruct (write_range_enc mask dl (First prev - Last r - 1) (range_len r)) as [Hnum ->];
    [done|lia|done|]. rewrite Hnum. clear Hnum. unfold mbind, outcome_bind.
  replace (First prev - Last r - 1 - 1) with (First prev - Last r - 2) by lia.
  cbn [writable] in Hne, HN |- *. set (b := (First prev - Last r - 2) / 255 + 1) in *.
  assert (1 <= b) by (unfold b; zlia).
  destruct (Z.ltb_spec (n + b) 255); [|done].
  rewrite ranges_blocks_cons in HN by lia. fold b in HN.
  replace (u64 (1 + n + b)) with (1 + (n + b)) by zlia.
  assert (N = countRanges r rs (n + b)) as HN2.
  { destruct (countRanges_writable r rs (n + b)) as [-> _]; [lia|done|lia|]. lia. }
  destruct (writable r rs (n + b)) as [|r1 ws] eqn:Ew.
  - cbn [ranges_blocks] in *. rewrite len_nil in HN. rewrite app_nil_r.
    destruct (Z.leb_spec (1 + N) (1 + (n + b))); [|lia]. do 2 f_equal. lia.
  - assert (0 < len (ranges_blocks r (r1 :: ws))).
    { cbn [ranges_blocks]. rewrite len_app. pose proof (len_nonneg (ranges_blocks r1 ws)).
      pose proof (gap_blocks_pos (First r - Last r1 - 1) (range_len r1)). lia. }
    destruct (Z.leb_spec (1 + N) (1 + (n + b))); [lia|].
    rewrite HN2 at 1. rewrite IH; [|lia|done|intros; apply Hlen; set_solver|lia|by rewrite Ew].
    rewrite Ew, <- HN2. cbn [ranges_blocks]. by rewrite !blocks_bytes_app.
Qed.

(** The other case: when not even the first gap fits, the loop writes its blocks
    nevertheless and the count at the end is off. *)
Lemma writeBlocks_overflow mask dl prev r rs :
  valid_pn_len dl → First prev < 2 ^ 62 → ranges_below (First prev) (r :: rs) →
  range_len r < 2 ^ (8 * dl) → 255 * 254 < First prev - Last r - 1 →
  countRanges prev (r :: rs) 0 = 0 ∧
  ∃ bs total, writeBlocks mask bo dl 1 prev (r :: rs) 1 = Ok (bs, total) ∧ 1 < total.
Proof.
  intros Hd Hp (Hr & Hgap & Hb) Hlen Hlong.
  destruct (write_range_enc mask dl (First prev - Last r - 1) (range_len r)) as [Hnum Hw];
    [done|lia|unfold range_len in *; lia|].
  assert (255 <= (First prev - Last r - 1 - 1) / 255 + 1 < 2 ^ 62) as Hbig by zlia.
  cbn [countRanges writeBlocks].
  assert (gapOf prev r = First prev - Last r - 1) as -> by (unfold gapOf; zlia).
  assert (u64 (Last r - First r + 1) = range_len r) as -> by (unfold range_len; zlia).
  rewrite gapBlocks_val by lia. split; [case_bool; [zlia|done]|].
  rewrite Hw, Hnum. unfold mbind, outcome_bind.
  replace (u64 (1 + ((First prev - Last r - 1 - 1) / 255 + 1)))
    with (1 + ((First prev - Last r - 1 - 1) / 255 + 1)) by zlia.
  destruct (Z.leb_spec 1 (1 + ((First prev - Last r - 1 - 1) / 255 + 1))); [|lia].
  eexists _, _. split; [done|lia].
Qed.

(** *** Reading the blocks back *)

(** The rest of a long gap: [k] full blocks and the last one. *)
Lemma parse_long k l last a acc c g dl m r :
  valid_pn_len dl → 0 < l < 2 ^ (8 * dl) → 1 <= a <= 255 →
  0 <= last - 255 * Z.of_nat k - a - l + 1 → last + 1 < 2 ^ 64 →
  g = 255 * Z.of_nat k + a →
  parseBlocks bo dl (S k + m) (MkAckRange (last + 1) last :: acc) true c
    (blocks_bytes dl (replicate k (255, 0) ++ [(a, l)]) ++ r)
  = parseBlocks bo dl m (MkAckRange (last - g - l + 1) (last - g) :: acc) false true r.
Proof.
  intros Hd Hl Ha Hlow Hhi ->. revert last Hlow Hhi. induction k as [|k IH]; intros last Hlow Hhi.
  - simpl replicate. rewrite app_nil_l, blocks_bytes_single. cbn [Nat.add parseBlocks app].
    erewrite parser_bind_ok by done. erewrite parser_bind_ok by (apply ReadUintN_pn; [done|lia]).
    cbn [First Last]. destruct (Z.ltb_spec 0 l); [|lia]. destruct (Z.eqb_spec l 0); [lia|].
    do 3 f_equal; zlia.
  - change (replicate (S k) (255, 0)) with ((255, 0) :: replicate k (255, 0)).
    rewrite <- app_comm_cons, blocks_bytes_cons, <- app_comm_cons, <- app_assoc.
    rewrite Nat.add_succ_l. cbn [parseBlocks]. erewrite parser_bind_ok by done.
    erewrite parser_bind_ok by (apply ReadUintN_pn; [done|lia]). cbn [First Last].
    change (0 <? 0) with false. change (0 =? 0) with true. cbv iota.
    replace (u64 (last + 1 - u64 (255 + 0))) with (last - 255 + 1) by zlia.
    replace (u64 (last - 255)) with (last - 255) by zlia.
    rewrite IH by lia. do 3 f_equal; lia.
Qed.

(** All the blocks of one range. *)
Lemma parse_range r0 acc c cur dl m r :
  valid_pn_len dl → range_len r0 < 2 ^ (8 * dl) → 0 <= First r0 <= Last r0 →
  Last r0 + 1 < First cur < 2 ^ 63 →
  parseBlocks bo dl (length (gap_blocks (First cur - Last r0 - 1) (range_len r0)) + m)
    (cur :: acc) false c
    (blocks_bytes dl (gap_blocks (First cur - Last r0 - 1) (range_len r0)) ++ r)
  = parseBlocks bo dl m (r0 :: cur :: acc) false true r.
Proof.
  intros Hd Hl Hr Hc. unfold gap_blocks. set (gap := First cur - Last r0 - 1).
  assert (1 <= gap) by lia. set (k := Z.to_nat ((gap - 1) / 255)).
  assert (gap = 255 * Z.of_nat k + (1 + (gap - 1) mod 255)) as Hgap by (unfold k; zlia).
  set (a := 1 + (gap - 1) mod 255) in *. assert (1 <= a <= 255) as Ha by (unfold a; zlia).
  clearbody a k. assert (First r0 = Last r0 - range_len r0 + 1) as HF by (unfold range_len; lia).
  set (l := range_len r0) in *. assert (0 < l) by (unfold l, range_len; lia). clearbody l.
  assert (r0 = MkAckRange (Last r0 - l + 1) (Last r0)) as Er by (rewrite <- HF; by destruct r0).
  rewrite length_app, length_replicate. simpl (length [_]). rewrite Nat.add_1_r.
  destruct k as [|k].
  - simpl replicate. rewrite app_nil_l, blocks_bytes_single. cbn [Nat.add parseBlocks app].
    erewrite parser_bind_ok by done. erewrite parser_bind_ok by (apply ReadUintN_pn; [done|lia]).
    destruct (Z.ltb_spec 0 l); [|lia]. destruct (Z.eqb_spec l 0); [lia|].
    transitivity (parseBlocks bo dl m (MkAckRange (Last r0 - l + 1) (Last r0) :: cur :: acc) false true r);
      [|by rewrite <- Er]. do 3 f_equal; zlia.
  - change (replicate (S k) (255, 0)) with ((255, 0) :: replicate k (255, 0)).
    rewrite <- app_comm_cons, blocks_bytes_cons, <- app_comm_cons, <- app_assoc.
    rewrite Nat.add_succ_l. cbn [parseBlocks]. erewrite parser_bind_ok by done.
    erewrite parser_bind_ok by (apply ReadUintN_pn; [done|lia]).
    change (0 <? 0) with false. change (0 =? 0) with true. cbv iota.
    replace (u64 (First cur - 255 - 1)) with (First cur - 256) by zlia.
    replace (u64 (First cur - 256 - 0 + 1)) with (First cur - 256 + 1) by zlia.
    rewrite (parse_long k l (First cur - 256) a (cur :: acc) _ (gap - 255)) by (done || lia).
    transitivity (parseBlocks bo dl m (MkAckRange (Last r0 - l + 1) (Last r0) :: cur :: acc) false true r);
      [|by rewrite <- Er]. do 3 f_equal; lia.
Qed.

Lemma parse_ranges ws cur acc c dl r :
  valid_pn_len dl → First cur < 2 ^ 63 → ranges_below (First cur) ws →
  (∀ x, x ∈ ws → range_len x < 2 ^ (8 * dl)) → ws ≠ [] →
  parseBlocks bo dl (length (ranges_blocks cur ws)) (cur :: acc) false c
    (blocks_bytes dl (ranges_blocks cur ws) ++ r)
  = Ok (rev ws ++ cur :: acc, true, r).
Proof.
  intros Hd. revert cur acc c. induction ws as [|w ws IH]; intros cur acc c Hc Hb Hlen Hne; [done|].
  destruct Hb as (Hr & Hg & Hb). cbn [ranges_blocks].
  rewrite length_app, blocks_bytes_app, <- app_assoc.
  rewrite parse_range by (try done; try (apply Hlen; set_solver); lia).
  destruct ws as [|w' ws'].
  - cbn. done.
  - rewrite IH by (try done; try lia; intros; apply Hlen; set_solver).
    simpl rev. by rewrite <- !app_assoc.
Qed.

(** *** Lengths *)

Lemma GetPacketNumberLength_spec p : 0 <= p < 2 ^ 48 →
  valid_pn_len (GetPacketNumberLength p) ∧ p < 2 ^ (8 * GetPacketNumberLength p).
Proof.
  intros Hp. unfold GetPacketNumberLength, valid_pn_len.
  change (Z.shiftl 1 (PacketNumberLen1 * 8)) with (2 ^ 8).
  change (Z.shiftl 1 (PacketNumberLen2 * 8)) with (2 ^ 16).
  change (Z.shiftl 1 (PacketNumberLen4 * 8)) with (2 ^ 32).
  unfold PacketNumberLen1, PacketNumberLen2, PacketNumberLen4, PacketNumberLen6.
  repeat case_bool; lia.
Qed.

Lemma maxRangeLength_bound rs m : 0 <= m < 2 ^ 48 →
  (∀ r, r ∈ rs → 0 <= First r <= Last r ∧ range_len r < 2 ^ 48) →
  m <= maxRangeLength rs m < 2 ^ 48 ∧ (∀ r, r ∈ rs → range_len r <= maxRangeLength rs m).
Proof.
  revert m. induction rs as [|r rs IH]; intros m Hm Hr; simpl; [split; [lia|set_solver]|].
  destruct (Hr r) as [? ?]; [set_solver|].
  assert (u64 (Last r - First r + 1) = range_len r) as -> by (unfold range_len in *; zlia).
  assert (0 <= range_len r) by (unfold range_len; lia).
  destruct (IH (if m <? range_len r then range_len r else m)) as [Hb Hall];
    [case_bool; lia|set_solver|].
  split; [case_bool; lia|]. intros x [->|Hx]%elem_of_cons; [case_bool; lia|by apply Hall].
Qed.

Lemma valid_ranges_len largest lowest ranges r :
  valid_ranges largest lowest ranges → largest < 2 ^ 48 → r ∈ ranges → range_len r < 2 ^ 48.
Proof.
  intros Hv Hl Hr. destruct ranges as [|r0 [|r1 rs]]; [done|naive_solver|].
  destruct Hv as (? & <- & _ & Hb & _). pose proof Hb as (? & ? & _).
  apply elem_of_cons in Hr as [->|Hr]; unfold range_len; [lia|].
  pose proof (ranges_below_bound _ _ _ Hb Hr). lia.
Qed.

(** The length field of the blocks is wide enough for every block. *)
Lemma deltaLen_spec largest lowest ranges : valid_acks largest lowest ranges →
  (ranges = [] → 1 <= lowest) →
  let dl := getMissingSequenceNumberDeltaLen largest lowest ranges in
  valid_pn_len dl ∧
  match ranges with
  | [] => largest - lowest + 1 < 2 ^ (8 * dl)
  | _ => ∀ r, r ∈ ranges → range_len r < 2 ^ (8 * dl)
  end.
Proof.
  intros [Hl Hv] H1 dl.
  set (m := if HasMissingRanges ranges then maxRangeLength ranges 0 else u64 (largest - lowest + 1)).
  assert (valid_pn_len dl ∧ (m < 2 ^ 48 → m < 2 ^ (8 * dl))) as [Hdl Hm].
  { unfold dl, getMissingSequenceNumberDeltaLen. fold m. unfold valid_pn_len, PacketNumberLen1,
      PacketNumberLen2, PacketNumberLen4, PacketNumberLen6. repeat case_bool; lia. }
  split; [done|]. destruct ranges as [|r0 rs].
  - change m with (u64 (largest - lowest + 1)) in Hm. specialize (H1 eq_refl). zlia.
  - assert (m = maxRangeLength (r0 :: rs) 0) as Em.
    { unfold m, HasMissingRanges. case_bool; [done|]. rewrite len_cons in *.
      pose proof (len_nonneg rs). lia. }
    destruct (maxRangeLength_bound (r0 :: rs) 0) as [Hmb Hall]; [lia| |].
    { intros r Hr. pose proof (valid_ranges_bounds _ _ _ _ Hv Hr).
      split; [lia|]. apply (valid_ranges_len _ _ _ _ Hv); [lia|done]. }
    intros r Hr. specialize (Hall r Hr). rewrite <- Em in *. lia.
Qed.

Lemma parseRanges_ok dl r0 ws r :
  valid_pn_len dl → 0 <= First r0 <= Last r0 → Last r0 < 2 ^ 62 → ranges_below (First r0) ws → ws ≠ [] →
  (∀ x, x ∈ ws → range_len x < 2 ^ (8 * dl)) →
  parseRanges bo dl (len (ranges_blocks r0 ws)) (Last r0) (range_len r0)
    (blocks_bytes dl (ranges_blocks r0 ws) ++ r) = Ok (r0 :: ws, r).
Proof.
  intros Hd H0 Hl Hb Hne Hlen. unfold parseRanges.
  assert (MkAckRange (u64 (u64 (Last r0 - range_len r0) + 1)) (Last r0) = r0) as ->.
  { assert (u64 (u64 (Last r0 - range_len r0) + 1) = First r0) as -> by (unfold range_len; zlia).
    by destruct r0. }
  replace (Z.to_nat (len (ranges_blocks r0 ws))) with (length (ranges_blocks r0 ws))
    by (unfold len; lia).
  erewrite parser_bind_ok by (apply parse_ranges; done || lia).
  cbv beta iota. rewrite rev_app_distr, rev_involutive. done.
Qed.

(** The ranges of a frame that reach the peer. *)
Definition sent_ranges (ranges : list AckRange) : list AckRange :=
  match ranges with [] => [] | r0 :: rs => r0 :: writable r0 rs 0 end.

Definition first_gap_fits (ranges : list AckRange) : Prop :=
  match ranges with
  | r0 :: r1 :: _ => First r0 - Last r1 - 1 <= 255 * 254
  | _ => True
  end.

Lemma first_gap_writable r0 rs : ranges_below (First r0) rs → rs ≠ [] →
  first_gap_fits (r0 :: rs) → writable r0 rs 0 ≠ [].
Proof.
  destruct rs as [|r1 rs]; [done|]. intros (? & ? & _) _ Hf. cbn [writable].
  case_bool; [done|]. unfold first_gap_fits in Hf. zlia.
Qed.

(** The ranges that reach the peer form a valid frame, and they acknowledge
    the same packets from their lowest one on. *)
Lemma writable_below r0 rs n : ranges_below (First r0) rs → ranges_below (First r0) (writable r0 rs n).
Proof.
  intros H. destruct (writable_prefix r0 rs n) as [post Hp]. rewrite Hp in H.
  by eapply ranges_below_app.
Qed.

Lemma valid_ranges_sent largest lowest ranges :
  valid_ranges largest lowest ranges → first_gap_fits ranges →
  ∃ rl, last (sent_ranges ranges) = Some rl ∧
    valid_ranges largest (First rl) (sent_ranges ranges).
Proof.
  destruct ranges as [|r0 rs]; [done|]. intros (H0 & HL & Hne & Hb & _) Hf.
  pose proof (first_gap_writable _ _ Hb Hne Hf) as Hw. cbn [sent_ranges].
  assert (is_Some (last (r0 :: writable r0 rs 0))) as [rl Hl] by by apply last_is_Some.
  exists rl. split; [done|]. split; [done|]. split; [done|]. split; [done|].
  split; [by apply writable_below|]. intros rl' Hl'. congruence.
Qed.

End theory.

(** ** ACK frames on the wire *)
Section ack_frame.
Import protocol ackRanges AckFrame.

(** The frames that a receiver sends: packet numbers start at 1 and stay below
    2^48, the ranges are ordered and separated. *)
Definition valid_ack_frame (f : AckFrame) : Prop :=
  is_u8 (PathID f) ∧ valid_acks (LargestAcked f) (LowestAcked f) (AckRanges f) ∧
  (AckRanges f = [] → 1 <= LowestAcked f).

(** What the peer reads: the ranges that fit, the lowest packet of these, and
    the delay in the precision of the 16-bit float. *)
Definition ack_image (f : AckFrame) (now : Z) : AckFrame :=
  let ranges := sent_ranges (AckRanges f) in
  MkAckFrame (PathID f) (LargestAcked f)
    (match last ranges with Some r => First r | None => LowestAcked f end)
    ranges 0
    (i64 (float16.decode (float16.encode
       (u64 (Z.quot (time.Sub now (PacketReceivedTime f)) time.Microsecond))) * time.Microsecond)).

Lemma typeByte_fields lal dl (miss mp : bool) : valid_pn_len lal → valid_pn_len dl →
  let tb := 64 in
  let tb := if negb (lal =? PacketNumberLen1) then Z.lxor tb (u8 (Z.shiftl (lal / 2) 2)) else tb in
  let tb := if negb (dl =? PacketNumberLen1) then Z.lxor tb (u8 (dl / 2)) else tb in
  let tb := if miss then Z.lor tb 32 else tb in
  let tb := if mp then Z.lor tb 16 else tb in
  u8 tb = tb ∧ (Z.land tb 32 =? 32) = miss ∧ (Z.land tb 16 =? 16) = mp ∧
  fieldLen (Z.shiftr (Z.land tb 12) 2) = lal ∧ fieldLen (Z.land tb 3) = dl ∧
  Z.land tb 128 = 0 ∧ Z.land tb 192 = 64.
Proof.
  intros [->|[->|[->| ->]]] [->|[->|[->| ->]]]; destruct miss, mp; vm_compute; repeat split.
Qed.

Lemma parseTimestamps_none bo r : parseTimestamps bo (0 :: r) = Ok ((), r).
Proof. done. Qed.

Lemma HasMissingRanges_cons r0 rs : HasMissingRanges (r0 :: rs) = true.
Proof. unfold HasMissingRanges. rewrite len_cons. pose proof (len_nonneg rs). lia. Qed.

Lemma readPathID_ok tb mp p r : (Z.land tb 16 =? 16) = mp → (mp = false → p = 0) →
  readPathID tb ((if mp then [p] else []) ++ r) = Ok (p, r).
Proof. intros Hm Hp. unfold readPathID. rewrite Hm. destruct mp; [done|]. by rewrite Hp. Qed.

Lemma checkFirstBlock_ok largest l r : 0 <= l → (0 < largest → 1 <= l) → l <= largest →
  checkFirstBlock largest l r = Ok ((), r).
Proof. intros. unfold checkFirstBlock. repeat case_bool; simpl; done || lia. Qed.

Lemma firstBlock_ok largest lowest r0 rs : valid_ranges largest lowest (r0 :: rs) → largest < 2 ^ 62 →
  firstBlock largest lowest (r0 :: rs) = Ok (range_len r0, 1).
Proof.
  intros (H0 & <- & _ & _ & Hlow) Hl. unfold firstBlock.
  destruct (last (r0 :: rs)) as [rl|] eqn:E; [|by apply last_None in E].
  rewrite (Hlow rl) by done. rewrite !Z.eqb_refl. simpl. do 2 f_equal. unfold range_len. zlia.
Qed.

Lemma numWritable_val r0 rs : First r0 < 2 ^ 62 → ranges_below (First r0) rs →
  numWritableNackRanges (r0 :: rs) = 1 + len (ranges_blocks r0 (writable r0 rs 0)) ∧
  numWritableNackRanges (r0 :: rs) = 1 + countRanges r0 rs 0 ∧
  1 <= numWritableNackRanges (r0 :: rs) <= 255.
Proof.
  intros. destruct (countRanges_writable r0 rs 0) as [E ?]; [done|done|lia|].
  unfold numWritableNackRanges. zlia.
Qed.

(** The byte string of a frame whose ranges fit. *)
Definition ack_bytes (bo : ByteOrder) `{!ByteOrderOk bo} (f : AckFrame) (delay : list Z) : list Z :=
  let dl := getMissingSequenceNumberDeltaLen (LargestAcked f) (LowestAcked f) (AckRanges f) in
  [typeByteOf f] ++ (if negb (PathID f =? InitialPathID) then [PathID f] else []) ++
  enc (bo := bo) (Z.to_nat (GetPacketNumberLength (LargestAcked f))) (LargestAcked f) ++ delay ++
  match AckRanges f with
  | [] => enc (bo := bo) (Z.to_nat dl) (LargestAcked f - LowestAcked f + 1) ++ [0]
  | r0 :: rs =>
      [len (ranges_blocks r0 (writable r0 rs 0))] ++ enc (bo := bo) (Z.to_nat dl) (range_len r0) ++
      blocks_bytes bo dl (ranges_blocks r0 (writable r0 rs 0)) ++ [0]
  end.

Lemma typeByteOf_u8 f : valid_ack_frame f → u8 (typeByteOf f) = typeByteOf f.
Proof.
  intros (_ & Hv & Hn). destruct (deltaLen_spec _ _ _ Hv Hn) as [Hd _].
  destruct (GetPacketNumberLength_spec (LargestAcked f)) as [Hl _]; [apply Hv|].
  apply (typeByte_fields _ _ (HasMissingRanges (AckRanges f)) (negb (PathID f =? InitialPathID)) Hl Hd).
Qed.

Lemma Write_bytes f version now : valid_ack_frame f → first_gap_fits (AckRanges f) →
  ∃ delay, float16.writeUfloat16 (GetByteOrder version)
     (u64 (Z.quot (time.Sub now (PacketReceivedTime f)) time.Microsecond)) = Ok delay ∧
  (Write f version now).2 = Ok (ack_bytes (GetByteOrder version) f delay).
Proof.
  intros Hf Hgap. pose proof Hf as (Hp & Hv & Hn). set (bo := GetByteOrder version).
  destruct (readUfloat16_write bo (u64 (Z.quot (time.Sub now (PacketReceivedTime f)) time.Microsecond)) [])
    as (delay & Hdelay & _ & _ & _); [done|].
  exists delay. split; [done|]. destruct (deltaLen_spec _ _ _ Hv Hn) as [Hd Hlen].
  pose proof Hv as [Hl Hv2].
  destruct (GetPacketNumberLength_spec (LargestAcked f)) as [Hlal Hlb]; [done|].
  unfold Write, ack_bytes. cbn [snd AckRanges PathID LargestAcked LowestAcked PacketReceivedTime].
  fold bo. change (typeByteOf (MkAckFrame (PathID f) (LargestAcked f) (LowestAcked f) (AckRanges f)
    (PacketReceivedTime f) (time.Sub now (PacketReceivedTime f)))) with (typeByteOf f).
  apply wseq_ok; [unfold WriteByte; by rewrite typeByteOf_u8|].
  apply wseq_ok;
    [destruct (negb _); [unfold WriteByte; by rewrite u8_id by done|done]|].
  apply wseq_ok; [apply writeNumber_enc; [done|lia]|]. apply wseq_ok; [done|].
  destruct (AckRanges f) as [|r0 rs] eqn:E.
  - change (HasMissingRanges []) with false. cbv iota.
    assert (u64 (LargestAcked f - LowestAcked f + 1) = LargestAcked f - LowestAcked f + 1) as Eu.
    { specialize (Hn eq_refl). zlia. }
    unfold firstBlock. simpl last. unfold mbind, outcome_bind. rewrite Eu.
    change (numWritableNackRanges []) with 0. rewrite Z.eqb_refl. simpl negb. cbv iota.
    erewrite <- (app_nil_l (enc _ _ ++ _)). apply wseq_ok; [done|].
    apply wseq_ok; [apply writeNumber_enc; [done|specialize (Hn eq_refl); lia]|done].
  - destruct Hv2 as (H0 & HL & Hne & Hb & Hlow).
    destruct (numWritable_val r0 rs) as (En & Ec & Hr); [lia|done|].
    rewrite HasMissingRanges_cons. destruct (Z.ltb_spec 255 (numWritableNackRanges (r0 :: rs))); [lia|].
    rewrite firstBlock_ok by (by repeat split || lia). unfold mbind at 1, outcome_bind at 1.
    assert (range_len r0 < 2 ^ (8 * getMissingSequenceNumberDeltaLen (LargestAcked f) (LowestAcked f) (r0 :: rs)))
      by (apply Hlen; set_solver).
    apply wseq_ok; [unfold WriteByte; do 2 f_equal; zlia|].
    apply wseq_ok; [apply writeNumber_enc; [done|unfold range_len in *; lia]|].
    rewrite Ec. pose proof (writeBlocks_enc bo true
      (getMissingSequenceNumberDeltaLen (LargestAcked f) (LowestAcked f) (r0 :: rs)) r0 rs 0) as Hw.
    rewrite Z.add_0_r in Hw. rewrite Hw; [|done|lia|done|intros; apply Hlen; set_solver|lia|by apply first_gap_writable].
    unfold mbind, outcome_bind. rewrite Z.eqb_refl. simpl negb. cbv iota. by apply wseq_ok.
Qed.

(** Reading such a byte string. *)
Lemma Parse_ack_bytes f version delay d r :
  valid_ack_frame f → first_gap_fits (AckRanges f) → Forall is_byte r →
  (∀ r, Forall is_byte r → float16.readUfloat16 (GetByteOrder version) (delay ++ r) = Ok (d, r)) →
  ParseAckFrame version (ack_bytes (GetByteOrder version) f delay ++ r) =
  Ok (MkAckFrame (PathID f) (LargestAcked f)
        (match last (sent_ranges (AckRanges f)) with Some r => First r | None => LowestAcked f end)
        (sent_ranges (AckRanges f)) 0 (i64 (d * time.Microsecond)), r).
Proof.
  intros Hf Hgap Hr Hdelay. pose proof Hf as (Hp & Hv & Hn). set (bo := GetByteOrder version) in *.
  destruct (deltaLen_spec _ _ _ Hv Hn) as [Hd Hlen]. pose proof Hv as [Hl Hv2].
  destruct (GetPacketNumberLength_spec (LargestAcked f)) as [Hlal Hlb]; [done|].
  destruct (typeByte_fields _ _ (HasMissingRanges (AckRanges f)) (negb (PathID f =? InitialPathID)) Hlal Hd)
    as (_ & Hmiss & Hmp & Hf1 & Hf2 & _ & _).
  fold (typeByteOf f) in Hmiss, Hmp, Hf1, Hf2.
  set (dl := getMissingSequenceNumberDeltaLen (LargestAcked f) (LowestAcked f) (AckRanges f)) in *.
  unfold ParseAckFrame, ack_bytes. fold bo dl. rewrite <- !app_assoc.
  erewrite parser_bind_ok by done. cbv zeta. rewrite Hmiss, Hf1, Hf2.
  erewrite parser_bind_ok by (apply readPathID_ok; [done|]; unfold InitialPathID; destruct (Z.eqb_spec (PathID f) 0); done).
  erewrite parser_bind_ok by (apply ReadUintN_pn; [done|lia]).
  assert (Forall is_byte (match AckRanges f with
    | [] => enc (bo := bo) (Z.to_nat dl) (LargestAcked f - LowestAcked f + 1) ++ [0]
    | r0 :: rs => [len (ranges_blocks r0 (writable r0 rs 0))] ++ enc (bo := bo) (Z.to_nat dl) (range_len r0) ++
      blocks_bytes bo dl (ranges_blocks r0 (writable r0 rs 0)) ++ [0] end ++ r)) as Hbytes.
  { apply Forall_app; split; [|done]. destruct (AckRanges f) as [|r0 rs] eqn:E.
    - apply enc_app_bytes. repeat constructor; lia.
    - destruct Hv2 as (H0 & HL & Hne & Hb & Hlow).
      destruct (numWritable_val r0 rs) as (En & Ec & Hrng); [lia|done|].
      apply Forall_app; split; [constructor; [unfold is_byte; lia|constructor]|].
      apply enc_app_bytes, Forall_app; split; [|repeat constructor; lia].
      apply blocks_bytes_byte. }
  erewrite parser_bind_ok by (by apply Hdelay).
  destruct (AckRanges f) as [|r0 rs] eqn:E.
  - change (HasMissingRanges []) with false. cbv iota. rewrite <- !app_assoc. specialize (Hn eq_refl).
    erewrite parser_bind_ok by done. rewrite andb_false_l.
    erewrite parser_bind_ok by (apply ReadUintN_pn; [done|lia]).
    erewrite parser_bind_ok by (apply checkFirstBlock_ok; lia). cbv beta.
    erewrite parser_bind_ok by done. cbv beta iota.
    change (negb (validateAckRanges (LargestAcked f) [])) with false. cbv iota.
    erewrite parser_bind_ok by done. destruct (Z.eqb_spec (LargestAcked f) 0); [lia|].
    unfold mret, parser_ret. simpl. do 3 f_equal. zlia.
  - assert (valid_ranges (LargestAcked f) (LowestAcked f) (r0 :: rs)) as Hvr by exact Hv2.
    destruct Hv2 as (H0 & HL & Hne & Hb & Hlow).
    destruct (numWritable_val r0 rs) as (En & Ec & Hrng); [lia|done|].
    pose proof (first_gap_writable _ _ Hb Hne Hgap) as Hw.
    pose proof (writable_below _ _ 0 Hb) as Hwb.
    destruct (valid_ranges_sent _ _ _ Hvr Hgap) as (rl & Hlast & Hvs).
    assert (0 < len (ranges_blocks r0 (writable r0 rs 0))) as Hpos.
    { destruct (writable r0 rs 0) as [|r1 ws]; [done|]. cbn [ranges_blocks]. rewrite len_app.
      pose proof (gap_blocks_pos (First r0 - Last r1 - 1) (range_len r1)).
      pose proof (len_nonneg (ranges_blocks r1 ws)). lia. }
    assert (range_len r0 < 2 ^ (8 * dl)) by (apply Hlen; set_solver).
    assert (1 <= range_len r0 <= LargestAcked f).
    { destruct rs as [|r1 rs]; [done|]. destruct Hb as (? & ? & _). unfold range_len. lia. }
    rewrite HasMissingRanges_cons. rewrite <- !app_assoc.
    erewrite parser_bind_ok by done. rewrite andb_true_l.
    destruct (Z.eqb_spec (len (ranges_blocks r0 (writable r0 rs 0))) 0); [lia|].
    erewrite parser_bind_ok by (apply ReadUintN_pn; [done|lia]).
    erewrite parser_bind_ok by (apply checkFirstBlock_ok; lia). cbv beta.
    cbn [sent_ranges] in Hlast, Hvs |- *. rewrite Hlast.
    erewrite (parser_bind_ok _ _ _ (r0 :: writable r0 rs 0, First rl)).
    2: { erewrite parser_bind_ok.
         2: { rewrite <- HL. apply parseRanges_ok; try done; try lia.
              intros x Hx. apply Hlen, elem_of_cons. right. destruct (writable_prefix r0 rs 0) as [post Hpost].
              rewrite Hpost. by apply elem_of_app; left. }
         rewrite Hlast. reflexivity. }
    cbv beta iota. rewrite (validateAckRanges_complete _ _ _ Hvs) by lia.
    cbv beta iota delta [negb]. erewrite parser_bind_ok by done. done.
Qed.

Lemma blocks_bytes_len bo `{!ByteOrderOk bo} dl bs : 0 <= dl → len (blocks_bytes bo dl bs) = (1 + dl) * len bs.
Proof.
  intros Hd. induction bs as [|[g l] bs IH]; [change (0 = (1 + dl) * 0); lia|].
  rewrite blocks_bytes_cons, !len_cons, len_app, enc_len, IH. lia.
Qed.

Lemma ack_bytes_len f version delay : valid_ack_frame f → first_gap_fits (AckRanges f) → len delay = 2 →
  MinLength f version = Ok (len (ack_bytes (GetByteOrder version) f delay)).
Proof.
  intros Hf Hgap Hdelay. pose proof Hf as (Hp & Hv & Hn). destruct (deltaLen_spec _ _ _ Hv Hn) as [Hd _].
  pose proof Hv as [Hl Hv2]. destruct (GetPacketNumberLength_spec (LargestAcked f)) as [Hlal _]; [done|].
  unfold MinLength, ack_bytes. f_equal. rewrite !len_app, Hdelay, enc_len.
  change (len [typeByteOf f]) with 1.
  assert (1 <= GetPacketNumberLength (LargestAcked f) <= 6) as Hlal' by (destruct Hlal as [->|[->|[->| ->]]]; lia).
  set (dl := getMissingSequenceNumberDeltaLen _ _ _) in *.
  assert (1 <= dl <= 6) as Hdl by (destruct Hd as [->|[->|[->| ->]]]; lia).
  replace (len (if negb (PathID f =? InitialPathID) then [PathID f] else []))
    with (if negb (PathID f =? InitialPathID) then 1 else 0) by by destruct (negb _).
  assert (∀ l, 0 <= l < 2 ^ 32 →
    (if negb (PathID f =? InitialPathID) then u64 (l + 1) else l)
    = l + (if negb (PathID f =? InitialPathID) then 1 else 0)) as Hpath
    by (intros; destruct (negb _); zlia).
  set (lal := GetPacketNumberLength (LargestAcked f)) in *.
  set (pid := if negb (PathID f =? InitialPathID) then 1 else 0) in *. clearbody lal dl.
  rewrite Z2Nat.id by lia. destruct (AckRanges f) as [|r0 rs] eqn:E.
  - change (HasMissingRanges []) with false. cbv iota. rewrite len_app, enc_len. change (len [0]) with 1.
    rewrite Hpath by zlia. clearbody pid. zlia.
  - destruct Hv2 as (H0 & HL & Hne & Hb & Hlow).
    destruct (numWritable_val r0 rs) as (En & Ec & Hrng); [lia|done|].
    rewrite HasMissingRanges_cons, !len_app, enc_len, blocks_bytes_len by lia.
    change (len [0]) with 1. change (len [_]) with 1.
    rewrite En in *. set (nb := len (ranges_blocks _ _)) in *. clearbody nb.
    assert (0 <= (1 + dl) * (1 + nb) <= 7 * 255) by nia.
    rewrite Hpath by zlia. clearbody pid. zlia.
Qed.

(** The ranges that are cut from a frame are below the ones that are sent. *)
Lemma ranges_below_post b rs1 rs2 rl : ranges_below b (rs1 ++ rs2) → last rs1 = Some rl →
  ranges_below (First rl) rs2.
Proof.
  revert b. induction rs1 as [|r rs1 IH]; intros b Hb Hl; [done|].
  destruct Hb as (? & ? & Hb). rewrite last_cons in Hl. destruct (last rs1) as [x|] eqn:E.
  - injection Hl as ->. by apply (IH (First r)).
  - injection Hl as ->. apply last_None in E as ->. done.
Qed.

Lemma sent_ranges_acked largest lowest ranges rl p :
  valid_ranges largest lowest ranges → first_gap_fits ranges → last (sent_ranges ranges) = Some rl →
  (∃ r, r ∈ sent_ranges ranges ∧ First r <= p <= Last r) ↔
  (∃ r, r ∈ ranges ∧ First r <= p <= Last r) ∧ First rl <= p.
Proof.
  intros Hv Hgap Hl. destruct (valid_ranges_sent _ _ _ Hv Hgap) as (rl' & Hl' & Hvs).
  assert (rl' = rl) as -> by congruence. clear Hl'.
  assert (∀ r, r ∈ sent_ranges ranges → First rl <= First r) as Hlow
    by (intros r Hr; apply (valid_ranges_bounds _ _ _ _ Hvs Hr)).
  destruct ranges as [|r0 rs]; [done|]. destruct Hv as (H0 & _ & Hne & Hb & _).
  destruct (writable_prefix r0 rs 0) as [post Hpost]. cbn [sent_ranges] in *. split.
  - intros (r & Hr & Hp). split; [|specialize (Hlow r Hr); lia]. exists r. split; [|done].
    rewrite Hpost. apply elem_of_cons in Hr as [->|Hr]; set_solver.
  - intros [(r & Hr & Hp) Hge]. exists r. split; [|done]. rewrite Hpost in Hr.
    assert (r ∈ (r0 :: writable r0 rs 0) ++ post) as [Hin|Hin]%elem_of_app by done; [done|].
    exfalso. rewrite Hpost in Hb. rewrite last_cons in Hl.
    destruct (last (writable r0 rs 0)) as [x|] eqn:E.
    + injection Hl as ->. pose proof (ranges_below_post _ _ _ _ Hb E) as Hq.
      pose proof (ranges_below_bound _ _ _ Hq Hin). lia.
    + apply last_None in E. rewrite <- Hpost in Hb. by apply first_gap_writable in E.
Qed.

Lemma ack_bytes_byte f bo `{!ByteOrderOk bo} delay : valid_ack_frame f → Forall is_byte delay →
  Forall is_byte (ack_bytes bo f delay).
Proof.
  intros Hf Hdelay. pose proof (typeByteOf_u8 f Hf) as Ht. destruct Hf as (Hp & Hv & Hn).
  unfold ack_bytes. apply Forall_app; split; [constructor; [zlia|constructor]|].
  apply Forall_app; split; [destruct (negb _); [constructor; [done|constructor]|constructor]|].
  apply enc_app_bytes, Forall_app; split; [done|]. pose proof Hv as [Hl Hv2].
  destruct (AckRanges f) as [|r0 rs].
  - apply enc_app_bytes. repeat constructor; lia.
  - destruct Hv2 as (H0 & HL & Hne & Hb & Hlow).
    destruct (numWritable_val r0 rs) as (En & Ec & Hrng); [lia|done|].
    apply Forall_app; split; [constructor; [unfold is_byte; lia|constructor]|].
    apply enc_app_bytes, Forall_app; split; [|repeat constructor; lia]. apply blocks_bytes_byte.
Qed.

Lemma ack_bytes_roundtrip f version now :
  valid_ack_frame f → first_gap_fits (AckRanges f) →
  ∃ bs, (Write f version now).2 = Ok bs ∧ MinLength f version = Ok (len bs) ∧ Forall is_byte bs ∧
    ∀ r, Forall is_byte r → ParseAckFrame version (bs ++ r) = Ok (ack_image f now, r).
Proof.
  intros Hf Hgap. destruct (Write_bytes f version now Hf Hgap) as (delay & Hd & Hw).
  set (us := u64 (Z.quot (time.Sub now (PacketReceivedTime f)) time.Microsecond)) in *.
  assert (len delay = 2 ∧ Forall is_byte delay ∧ ∀ r, Forall is_byte r →
    float16.readUfloat16 (GetByteOrder version) (delay ++ r) = Ok (float16.decode (float16.encode us), r))
    as (Hlen & Hdb & Hread).
  { destruct (readUfloat16_write (GetByteOrder version) us []) as (bs & Hbs & ? & ? & _); [done|].
    assert (bs = delay) as -> by congruence. split; [done|]. split; [done|]. intros r Hr.
    destruct (readUfloat16_write (GetByteOrder version) us r) as (bs & Hbs' & _ & _ & ?); [done|].
    assert (bs = delay) as -> by congruence. done. }
  eexists. split; [exact Hw|]. split; [by apply ack_bytes_len|].
  split; [by apply ack_bytes_byte|]. intros r Hr. by apply Parse_ack_bytes.
Qed.

(** C31: a valid ACK frame whose first gap fits into the block counter is written
    without an error or a panic, in exactly [MinLength] bytes, and the peer reads
    back its image: same path and largest packet, the ranges that fit, the delay
    in 16-bit float precision. What follows the frame is left unread. *)
Theorem ack_frame_roundtrip f version now :
  valid_ack_frame f → first_gap_fits (AckRanges f) →
  ∃ bs, (Write f version now).2 = Ok bs ∧ MinLength f version = Ok (len bs) ∧ Forall is_byte bs ∧
    ∀ r, Forall is_byte r → ParseAckFrame version (bs ++ r) = Ok (ack_image f now, r).
Proof. apply ack_bytes_roundtrip. Qed.

Lemma ack_frame_roundtrip_witness :
  let f := MkAckFrame 3 1000 2 [MkAckRange 990 1000; MkAckRange 2 300] 5000 0 in
  ∃ bs, (Write f 39 8000).2 = Ok bs ∧ MinLength f 39 = Ok (len bs) ∧ Forall is_byte bs ∧
    ∀ r, Forall is_byte r → ParseAckFrame 39 (bs ++ r) = Ok (ack_image f 8000, r).
Proof.
  apply ack_frame_roundtrip.
  - split; [vm_compute; split; congruence|]. split; [|done]. split; [vm_compute; split; congruence|].
    simpl. repeat split; try lia; try done. by intros rl [= <-].
  - simpl. lia.
Defined.

Lemma writable_all prev rs n : ranges_below (First prev) rs → n + len (ranges_blocks prev rs) < 255 →
  writable prev rs n = rs.
Proof.
  revert prev n. induction rs as [|r rs IH]; intros prev n Hb Hn; [done|].
  destruct Hb as (? & ? & Hb). cbn [ranges_blocks] in Hn. rewrite len_app, length_gap_blocks in Hn by lia.
  pose proof (len_nonneg (ranges_blocks r rs)). cbn [writable].
  replace (First prev - Last r - 2) with (First prev - Last r - 1 - 1) by lia.
  case_bool; [|lia]. by rewrite IH by (done || lia).
Qed.

Definition all_gaps_fit (ranges : list AckRange) : Prop :=
  match ranges with [] => True | r0 :: rs => len (ranges_blocks r0 rs) < 255 end.

(** The peer never takes a packet for acknowledged that the receiver did not
    acknowledge: the frame it reads is valid and acknowledges the packets of the
    written one from the lowest range that was sent on; and it acknowledges
    exactly the same packets when the gaps need fewer than 255 blocks. *)
Theorem ack_image_acks f now p :
  valid_ack_frame f → first_gap_fits (AckRanges f) →
  valid_acks (LargestAcked (ack_image f now)) (LowestAcked (ack_image f now)) (AckRanges (ack_image f now)) ∧
  AcksPacket (ack_image f now) p = AcksPacket f p && (LowestAcked (ack_image f now) <=? p) ∧
  (all_gaps_fit (AckRanges f) → AcksPacket (ack_image f now) p = AcksPacket f p).
Proof.
  intros (Hp & Hv & Hn) Hgap. pose proof Hv as [Hl Hv2].
  assert (valid_acks (LargestAcked (ack_image f now)) (LowestAcked (ack_image f now))
    (AckRanges (ack_image f now)) ∧
    (∀ q, acked (LargestAcked f) (LowestAcked (ack_image f now)) (sent_ranges (AckRanges f)) q ↔
    acked (LargestAcked f) (LowestAcked f) (AckRanges f) q ∧ LowestAcked (ack_image f now) <= q) ∧
    (all_gaps_fit (AckRanges f) → LowestAcked (ack_image f now) = LowestAcked f)) as (Hvi & Hac & Hall).
  { unfold ack_image. cbn [LargestAcked LowestAcked AckRanges].
    destruct (AckRanges f) as [|r0 rs] eqn:E; [split; [done|]; split; [simpl; lia|done]|].
    destruct (valid_ranges_sent _ _ _ Hv2 Hgap) as (rl & Hlast & Hvs). rewrite Hlast.
    split; [by split|]. split.
    - intros q. unfold acked. change (sent_ranges (r0 :: rs)) with (r0 :: writable r0 rs 0).
      cbv iota. exact (sent_ranges_acked (LargestAcked f) (LowestAcked f) (r0 :: rs) rl q Hv2 Hgap Hlast).
    - destruct Hv2 as (_ & _ & _ & Hb & Hlow). unfold all_gaps_fit. intros Hb255.
      cbn [sent_ranges] in Hlast. rewrite writable_all in Hlast by (done || lia). symmetry. by apply Hlow. }
  assert (AcksPacket (ack_image f now) p = AcksPacket f p && (LowestAcked (ack_image f now) <=? p)) as Heq.
  { apply eq_true_iff_eq. rewrite andb_true_iff, Z.leb_le. unfold AcksPacket.
    rewrite !AcksPacket_spec by done. apply Hac. }
  split; [done|]. split; [done|]. intros Hb255. rewrite Heq, (Hall Hb255).
  apply eq_true_iff_eq. rewrite andb_true_iff. split; [by intros [? _]|]. intros Ha. split; [done|].
  unfold AcksPacket, ackRanges.AcksPacket in Ha. destruct (Z.ltb_spec p (LowestAcked f)); [done|lia].
Qed.

Lemma ack_image_acks_witness :
  let f := MkAckFrame 3 1000 2 [MkAckRange 990 1000; MkAckRange 2 300] 5000 0 in
  AcksPacket (ack_image f 8000) 300 = AcksPacket f 300.
Proof.
  intros f. apply ack_image_acks.
  - split; [vm_compute; split; congruence|]. split; [|done]. split; [vm_compute; split; congruence|].
    simpl. repeat split; try lia; try done. by intros rl [= <-].
  - simpl. lia.
  - vm_compute. reflexivity.
Defined.

(** When more than 64770 packets are missing between the two highest
    ranges, Write counts no block for the gap, writes the blocks all the same and
    reports an inconsistency instead of a frame. *)
Theorem ack_write_long_first_gap f version now r0 r1 rs :
  valid_ack_frame f → AckRanges f = r0 :: r1 :: rs → 255 * 254 < First r0 - Last r1 - 1 →
  (Write f version now).2 = Err errInconsistentNumber.
Proof.
  intros Hf E Hgap. pose proof Hf as (Hp & Hv & Hn). set (bo := GetByteOrder version).
  destruct (deltaLen_spec _ _ _ Hv Hn) as [Hd Hlen]. pose proof Hv as [Hl Hv2].
  destruct (GetPacketNumberLength_spec (LargestAcked f)) as [Hlal Hlb]; [done|].
  destruct (readUfloat16_write bo (u64 (Z.quot (time.Sub now (PacketReceivedTime f)) time.Microsecond)) [])
    as (delay & Hdelay & _ & _ & _); [done|].
  unfold Write. cbn [snd AckRanges PathID LargestAcked LowestAcked PacketReceivedTime]. fold bo.
  rewrite (writeNumber_enc bo) by (done || lia). rewrite Hdelay, E in *. rewrite HasMissingRanges_cons.
  assert (valid_ranges (LargestAcked f) (LowestAcked f) (r0 :: r1 :: rs)) as Hvr by exact Hv2.
  destruct Hv2 as (H0 & HL & Hne & Hb & Hlow).
  assert (range_len r0 < 2 ^ (8 * getMissingSequenceNumberDeltaLen (LargestAcked f) (LowestAcked f) (r0 :: r1 :: rs)))
    by (apply Hlen; set_solver).
  destruct (writeBlocks_overflow bo true (getMissingSequenceNumberDeltaLen (LargestAcked f) (LowestAcked f)
    (r0 :: r1 :: rs)) r0 r1 rs) as (Hc & bs & total & Hw & Ht); [done|lia|done|apply Hlen; set_solver|done|].
  assert (numWritableNackRanges (r0 :: r1 :: rs) = 1) as ->
    by (unfold numWritableNackRanges; rewrite Hc; done).
  rewrite firstBlock_ok by (done || lia). unfold wseq, mbind, outcome_bind.
  rewrite (writeNumber_enc bo) by (done || unfold range_len in *; lia). rewrite Hw.
  destruct (Z.eqb_spec 1 total); [lia|]. by destruct (negb (PathID f =? InitialPathID)).
Qed.

Lemma ack_write_long_first_gap_witness :
  (Write (MkAckFrame 0 100000 10 [MkAckRange 100000 100000; MkAckRange 10 35228] 0 0) 39 0).2
  = Err errInconsistentNumber.
Proof.
  apply (ack_write_long_first_gap _ 39 0 (MkAckRange 100000 100000) (MkAckRange 10 35228) []).
  - split; [vm_compute; split; congruence|]. split; [|done]. split; [vm_compute; split; congruence|].
    simpl. repeat split; try lia; try done. by intros rl [= <-].
  - reflexivity.
  - simpl. lia.
Defined.

End ack_frame.

(** ** What the parsers accept

    The reading loop computes with wrapped 64-bit numbers. Here the ranges it
    builds are followed as integers, which may be negative; the validation at the
    end rejects every list in which a number had wrapped. *)
Section safe.
Import protocol ackRanges.
Context (bo : ByteOrder) {Hbo : ByteOrderOk bo}.

Definition wrap (r : AckRange) : AckRange := MkAckRange (u64 (First r)) (u64 (Last r)).

(** Descending ranges of integers below [b]. *)
Fixpoint desc (b : Z) (rs : list AckRange) : Prop :=
  match rs with
  | [] => True
  | r :: rs' => First r <= Last r < b ∧ desc (First r) rs'
  end.

(** The first packet of the lowest range. *)
Fixpoint low (b : Z) (rs : list AckRange) : Z :=
  match rs with [] => b | r :: rs' => low (First r) rs' end.

(** The first range is checked by the validation only. *)
Definition desc0 (b : Z) (rs : list AckRange) : Prop :=
  match rs with
  | [] => True
  | r :: rs' => Last r < b ∧ desc (First r) rs'
  end.

Lemma desc_snoc b rs c : desc b rs → First c <= Last c < low b rs → desc b (rs ++ [c]).
Proof. revert b. induction rs as [|r rs IH]; simpl; intros b; [done|]. intros [? ?] ?. auto. Qed.

Lemma desc0_snoc b rs c : desc0 b rs → Last c < low b rs → (First c <= Last c ∨ rs = []) → desc0 b (rs ++ [c]).
Proof.
  destruct rs as [|r rs]; simpl; [naive_solver|]. intros [? ?] ? [?|?]; [|done].
  split; [done|]. apply desc_snoc; [done|lia].
Qed.

Lemma low_snoc b rs c : low b (rs ++ [c]) = First c.
Proof. revert b. induction rs as [|r rs IH]; intros b; [done|]. apply IH. Qed.

Lemma low_last b rs : low b rs = match last rs with Some r => First r | None => b end.
Proof.
  revert b. induction rs as [|r rs IH]; intros b; [done|]. rewrite last_cons. cbn [low]. rewrite IH.
  by destruct (last rs).
Qed.

Lemma desc_low b rs r : desc b rs → r ∈ rs → low b rs <= First r.
Proof.
  revert b. induction rs as [|r' rs IH]; intros b; [set_solver|]. intros [? Hd] Hr. cbn [low].
  assert (∀ b, desc b rs → low b rs <= b) as Hle.
  { clear. induction rs as [|r rs IH]; simpl; [lia|]. intros b [? H]. specialize (IH _ H). lia. }
  apply elem_of_cons in Hr as [->|Hr]; [by apply Hle|by apply IH].
Qed.

(** The state of the loop: the ranges that are complete, and the one that is
    being read, which is empty in a long block. *)
Definition loop_state (b : Z) (k : nat) (J : list AckRange) (c : AckRange) (inLong complete : bool) : Prop :=
  desc0 b J ∧ Last c < low b J ∧
  if inLong then J ≠ [] ∧ First c = Last c + 1 ∧ complete = false
  else (First c <= Last c ∨ J = []) ∧ (complete = true ∨ (0 < k)%nat).

(** The ranges that the loop leaves, after a last incomplete one is dropped. *)
Definition loop_result (b lo : Z) (r0 : AckRange) (res : list AckRange * bool) : Prop :=
  ∃ J c, res.1 = wrap c :: rev (wrap <$> J) ∧
    let J' := if res.2 then J ++ [c] else J in
    J' ≠ [] ∧ desc0 b J' ∧ lo <= low b J' ∧ head J' = Some r0.

Lemma parseBlocks_safe dl k b lo r0 J c inLong complete :
  valid_pn_len dl → loop_state b k J c inLong complete → head (J ++ [c]) = Some r0 → lo <= First c →
  parses (parseBlocks bo dl k (wrap c :: rev (wrap <$> J)) inLong complete)
         (loop_result b (lo - Z.of_nat k * (2 ^ 48 + 256)) r0).
Proof.
  intros Hd. assert (256 ^ dl <= 2 ^ 48) as Hdl by (destruct Hd as [->|[->|[->| ->]]]; vm_compute; congruence).
  assert (0 <= dl <= 8) by (destruct Hd as [->|[->|[->| ->]]]; lia).
  revert lo J c inLong complete. induction k as [|k IH]; intros lo J c inLong complete (HJ & HL & Hst) Hh Hlo.
  - cbn [parseBlocks]. apply parses_ret. exists J, c. split; [done|]. cbn [snd].
    destruct inLong.
    + destruct Hst as (Hne & Hf & ->). split; [done|]. split; [done|]. split; [lia|]. by destruct J.
    + destruct Hst as [Hfl [->|?]]; [|lia]. split; [by destruct J|]. split; [by apply desc0_snoc|].
      rewrite low_snoc. split; [lia|done].
  - cbn [parseBlocks]. eapply parses_bind; [apply parses_ReadByte|]. intros gap Hgap.
    eapply parses_bind; [by apply parses_ReadUintN|]. intros l Hl. cbv beta zeta in Hl |- *.
    unfold is_byte in Hgap.
    assert (∀ J c' complete', desc0 b J → Last c' < low b J → head (J ++ [c']) = Some r0 → J ≠ [] →
      lo - (2 ^ 48 + 256) <= First c' → First c' = Last c' - l + 1 → complete' = false →
      parses (parseBlocks bo dl k (wrap c' :: rev (wrap <$> J)) (l =? 0) (if 0 <? l then true else complete'))
        (loop_result b (lo - Z.of_nat (S k) * (2 ^ 48 + 256)) r0)) as Hstep.
    { intros J' c' complete' ? ? ? ? ? ? ->. eapply parses_mono; [apply (IH (lo - (2 ^ 48 + 256)))|].
      - split; [done|]. split; [done|]. destruct (Z.eqb_spec l 0), (Z.ltb_spec 0 l); try lia.
        repeat split; done || lia.
      - done.
      - done.
      - intros res (J'' & c'' & ? & ? & ? & ? & ?). exists J'', c''. repeat split; done || lia. }
    destruct inLong; cbv iota beta zeta.
    + destruct Hst as (Hne & Hf & ->). set (c' := MkAckRange (First c - (gap + l)) (Last c - gap)).
      replace (MkAckRange (u64 (First (wrap c) - u64 (gap + l))) (u64 (Last (wrap c) - gap)))
        with (wrap c') by (unfold wrap, c'; cbn [First Last]; f_equal; zlia).
      apply Hstep; unfold c'; cbn [First Last]; try done; try lia. by destruct J.
    + destruct Hst as [Hfl _]. set (c' := MkAckRange (First c - gap - 1 - l + 1) (First c - gap - 1)).
      replace (MkAckRange (u64 (u64 (First (wrap c) - gap - 1) - l + 1)) (u64 (First (wrap c) - gap - 1)))
        with (wrap c') by (unfold wrap, c'; cbn [First Last]; f_equal; zlia).
      replace (wrap c :: rev (wrap <$> J)) with (rev (wrap <$> (J ++ [c])))
        by (rewrite fmap_app, rev_app_distr; done).
      apply Hstep; unfold c'; cbn [First Last]; try done; try lia.
      * by apply desc0_snoc.
      * rewrite low_snoc. lia.
      * by destruct J.
      * by destruct J.
Qed.

Lemma parseRanges_safe dl n largest l :
  valid_pn_len dl → 1 <= n <= 255 → 0 <= l <= largest → largest < 2 ^ 48 →
  parses (parseRanges bo dl n largest l) (λ rs, ∃ r0 J,
    rs = wrap <$> (r0 :: J) ∧ 1 <= First r0 ∧ Last r0 = largest ∧ First r0 < 2 ^ 49 ∧
    desc (First r0) J ∧ - 2 ^ 57 <= low (First r0) J).
Proof.
  intros Hd Hn Hl Hlt. set (r0 := MkAckRange (largest - l + 1) largest).
  assert (1 <= First r0 < 2 ^ 49 ∧ Last r0 = largest) as [Hr0 Hr0'] by (unfold r0; cbn [First Last]; lia).
  unfold parseRanges. replace (MkAckRange (u64 (u64 (largest - l) + 1)) largest) with (wrap r0)
    by (unfold wrap, r0; cbn [First Last]; f_equal; zlia).
  clearbody r0. eapply parses_bind.
  - apply (parseBlocks_safe dl _ (largest + 1) 1 r0 [] r0 false false Hd); [|done|lia].
    split; [done|]. cbn [low]. split; [lia|]. split; [by right|right; lia].
  - intros [acc complete] (J & c & E & Hne & Hdesc & Hlow & Hh). cbn [fst snd] in *. subst acc.
    assert (parses (if complete then mret (rev (wrap c :: rev (wrap <$> J))) else mret (rev (rev (wrap <$> J))))
      (λ rs, rs = wrap <$> (if complete then J ++ [c] else J))) as Hres.
    { destruct complete; apply parses_ret; [simpl|]; rewrite rev_involutive; [by rewrite fmap_app|done]. }
    set (J' := if complete then J ++ [c] else J) in *. clearbody J'. destruct J' as [|r0' J']; [done|].
    injection Hh as ->. eapply parses_mono; [exact Hres|]. intros rs ->. exists r0, J'.
    split; [done|]. split; [lia|]. split; [done|]. split; [lia|]. split; [apply Hdesc|].
    cbn [low] in Hlow. lia.
Qed.

(** The validation rejects wrapped numbers. *)
Lemma validateNeighbours_sound b prev J : 0 <= First prev < 2 ^ 63 → First prev = b →
  desc b J → (∀ r, r ∈ J → - 2 ^ 57 <= First r) →
  validateNeighbours prev (wrap <$> J) = true → wrap <$> J = J ∧ ranges_below b J.
Proof.
  revert b prev. induction J as [|r J IH]; intros b prev Hp <- Hd Hlo Hv; [done|].
  destruct Hd as [Hr Hd]. assert (- 2 ^ 57 <= First r) by (apply Hlo; set_solver).
  rewrite fmap_cons in Hv |- *. cbn [validateNeighbours] in Hv.
  destruct (Z.leb_spec (First prev) (First (wrap r))) as [|Hf]; [done|].
  destruct (Z.leb_spec (First prev) (u64 (Last (wrap r) + 1))) as [|Hf']; [done|].
  cbn [wrap First Last] in Hf, Hf'. assert (0 <= First r) by zlia.
  assert (wrap r = r) as E by (destruct r; unfold wrap; cbn [First Last] in *; f_equal; zlia).
  rewrite E in Hv. destruct (IH (First r) r) as [EJ Hb]; [zlia|done|done|set_solver|done|].
  split; [by rewrite E, EJ|].
  cbn [ranges_below]. split; [lia|]. split; [zlia|done].
Qed.

Lemma validateAckRanges_sound largest r0 J :
  1 <= First r0 → Last r0 = largest → 0 <= largest < 2 ^ 48 → First r0 < 2 ^ 49 →
  desc (First r0) J → - 2 ^ 57 <= low (First r0) J →
  validateAckRanges largest (wrap <$> (r0 :: J)) = true →
  wrap <$> (r0 :: J) = r0 :: J ∧ ∀ rl, last (r0 :: J) = Some rl → valid_ranges largest (First rl) (r0 :: J).
Proof.
  intros H1 <- Hlt H2 Hd Hlow Hv.
  assert (wrap r0 = r0) as E by (destruct r0; unfold wrap; cbn [First Last] in *; f_equal; zlia).
  destruct J as [|r1 J]; [done|]. rewrite fmap_cons, E in Hv |- *.
  assert (First r0 <= Last r0 ∧ validateNeighbours r0 (wrap <$> (r1 :: J)) = true) as [Hr Hn].
  { unfold validateAckRanges in Hv. cbn [fmap list_fmap existsb] in Hv |- *. destruct (negb _); [done|].
    destruct (Z.ltb_spec (Last r0) (First r0)); [done|]. split; [done|]. by destruct (_ || _). }
  destruct (validateNeighbours_sound (First r0) r0 (r1 :: J)) as [EJ Hb]; [lia|done|done| |done|].
  { intros r Hin. pose proof (desc_low _ _ _ Hd Hin). lia. }
  rewrite EJ. split; [done|]. intros rl Hl. split; [lia|]. split; [done|]. split; [done|].
  split; [done|]. intros ? ?. congruence.
Qed.

Lemma fieldLen_valid b : valid_pn_len (fieldLen (Z.land b 3)).
Proof.
  change 3 with (Z.ones 2). rewrite Z.land_ones by lia. unfold valid_pn_len.
  assert (0 <= b mod 2 ^ 2 < 4) as Hm by lia. set (x := b mod 2 ^ 2) in *. clearbody x.
  assert (x = 0 ∨ x = 1 ∨ x = 2 ∨ x = 3) as [->|[->|[->| ->]]] by lia; vm_compute; auto.
Qed.

Lemma fieldLen_valid_shifted b : valid_pn_len (fieldLen (Z.shiftr (Z.land b 12) 2)).
Proof. rewrite Z.shiftr_land. change (Z.shiftr 12 2) with 3. apply fieldLen_valid. Qed.

Lemma parses_pn n : valid_pn_len n → parses (ReadUintN bo n) (λ v, 0 <= v < 2 ^ 48).
Proof.
  intros Hn. assert (0 <= n <= 8) by (destruct Hn as [->|[->|[->| ->]]]; lia).
  eapply parses_mono; [by apply parses_ReadUintN|]. cbv beta.
  intros v Hv. destruct Hn as [->|[->|[->| ->]]]; lia.
Qed.

(** The part of the parsers that both frames have, from the first block on. *)
Lemma parse_tail_safe dl n (miss : bool) largest l :
  valid_pn_len dl → is_byte n → (miss = true → 1 <= n) → 0 <= largest < 2 ^ 48 → 0 <= l →
  (0 < largest → 1 <= l) → l <= largest →
  parses (if miss then
     ranges ← parseRanges bo dl n largest l;
     match last ranges with None => panic | Some r => mret (ranges, First r) end
   else mret ([], if largest =? 0 then 0 else u64 (u64 (largest + 1) - l)))
  (λ res : list AckRange * Z, validateAckRanges largest res.1 = true → valid_acks largest res.2 res.1).
Proof.
  intros Hd Hn Hmiss Hlt Hl Hl1 Hl2. unfold is_byte in Hn. destruct miss.
  - specialize (Hmiss eq_refl). eapply parses_bind; [apply parseRanges_safe; done || lia|].
    intros rs (r0 & J & -> & H1 & HL & HF & Hdesc & Hlow).
    destruct (last (wrap <$> (r0 :: J))) as [rl|] eqn:El; [|by apply last_None in El].
    apply parses_ret. intros Hv. cbn [fst snd] in *.
    destruct (validateAckRanges_sound largest r0 J) as [E Hvr]; try done; try lia.
    split; [done|]. rewrite E in El |- *. by apply Hvr.
  - apply parses_ret. intros _. split; [done|]. cbn [fst snd]. case_bool; zlia.
Qed.

Lemma checkFirstBlock_safe largest l :
  parses (checkFirstBlock largest l) (λ _, (0 < largest → 1 <= l) ∧ l <= largest).
Proof.
  unfold checkFirstBlock. destruct (_ && _) eqn:E; [apply parses_throw|].
  destruct (Z.ltb_spec largest l); [apply parses_throw|]. apply parses_ret. lia.
Qed.

Lemma skipTimestamps_safe k : parses (AckFrame.skipTimestamps bo k) (λ _, True).
Proof.
  induction k as [|k IH]; [by apply parses_ret|]. cbn [AckFrame.skipTimestamps].
  repeat parse_step.
Qed.

Lemma parseTimestamps_safe : parses (AckFrame.parseTimestamps bo) (λ _, True).
Proof. unfold AckFrame.parseTimestamps. repeat parse_step; auto. apply skipTimestamps_safe. Qed.

End safe.

Section accepted.
Import protocol ackRanges.

Lemma ParseAckFrame_safe version :
  parses1 (AckFrame.ParseAckFrame version) (λ f,
    is_u8 (AckFrame.PathID f) ∧
    valid_acks (AckFrame.LargestAcked f) (AckFrame.LowestAcked f) (AckFrame.AckRanges f)).
Proof.
  unfold AckFrame.ParseAckFrame. apply parses1_byte. intros tb Htb. cbv zeta.
  eapply parses_bind with is_u8; [unfold AckFrame.readPathID; repeat parse_step; done|]. intros pathID HpathID.
  eapply parses_bind; [exact (parses_pn _ _ (fieldLen_valid_shifted _))|]. intros largest Hlargest.
  parse_step. eapply parses_bind with (λ n, is_byte n); [repeat parse_step; done|]. intros n Hn.
  parse_step; [by parse_step|].
  eapply parses_bind; [exact (parses_pn _ _ (fieldLen_valid _))|]. intros l Hl.
  eapply parses_bind; [apply checkFirstBlock_safe|]. cbv beta. intros _ [Hl1 Hl2].
  eapply parses_bind; [apply (parse_tail_safe _ _ _ _ _ _ (fieldLen_valid _)); unfold is_byte in *; done || lia|].
  intros [ranges lowest] Hv. cbn [fst snd] in Hv. destruct (validateAckRanges largest ranges); [|apply parses_throw].
  eapply parses_bind; [exact (parseTimestamps_safe _)|]. intros. apply parses_ret. auto.
Qed.

Lemma ParseClosePathFrame_safe version :
  parses1 (ClosePathFrame.ParseClosePathFrame version) (λ f,
    is_u8 (ClosePathFrame.PathID f) ∧
    valid_acks (ClosePathFrame.LargestAcked f) (ClosePathFrame.LowestAcked f) (ClosePathFrame.AckRanges f)).
Proof.
  unfold ClosePathFrame.ParseClosePathFrame. apply parses1_byte. intros tb Htb. do 2 parse_step.
  eapply parses_bind with (λ n, is_byte n); [repeat parse_step; done|]. intros n Hn.
  parse_step; [by parse_step|].
  eapply parses_bind; [exact (parses_pn _ _ (fieldLen_valid_shifted _))|]. intros largest Hlargest.
  eapply parses_bind; [exact (parses_pn _ _ (fieldLen_valid _))|]. intros l Hl.
  eapply parses_bind; [apply checkFirstBlock_safe|]. cbv beta. intros _ [Hl1 Hl2].
  eapply parses_bind; [apply (parse_tail_safe _ _ _ _ _ _ (fieldLen_valid _)); unfold is_byte in *; done || lia|].
  intros [ranges lowest] Hv. cbn [fst snd] in Hv. destruct (validateAckRanges largest ranges); [|apply parses_throw].
  apply parses_ret. auto.
Qed.

(** ParseAckFrame and ParseClosePathFrame do not panic on any input of bytes
    and leave a proper suffix of it unread, and a frame that they accept is valid:
    its ranges are ordered, non-empty, separated by at least one missing packet,
    below 2^48, and agree with the largest and the lowest acknowledged packet; no
    number in it has wrapped around. AcksPacket on it is membership in the ranges. *)
Theorem parsed_acks_valid version :
  parses1 (AckFrame.ParseAckFrame version) (λ f,
    is_u8 (AckFrame.PathID f) ∧
    valid_acks (AckFrame.LargestAcked f) (AckFrame.LowestAcked f) (AckFrame.AckRanges f) ∧
    ∀ p, AckFrame.AcksPacket f p = true ↔
      acked (AckFrame.LargestAcked f) (AckFrame.LowestAcked f) (AckFrame.AckRanges f) p) ∧
  parses1 (ClosePathFrame.ParseClosePathFrame version) (λ f,
    is_u8 (ClosePathFrame.PathID f) ∧
    valid_acks (ClosePathFrame.LargestAcked f) (ClosePathFrame.LowestAcked f) (ClosePathFrame.AckRanges f) ∧
    ∀ p, ClosePathFrame.AcksPacket f p = true ↔
      acked (ClosePathFrame.LargestAcked f) (ClosePathFrame.LowestAcked f) (ClosePathFrame.AckRanges f) p).
Proof.
  split; (eapply parses1_mono; [apply ParseAckFrame_safe || apply ParseClosePathFrame_safe|]);
    intros f [? ?]; (split; [done|]; split; [done|]); intros p; by apply AcksPacket_spec.
Qed.

End accepted.

(** ** CLOSE_PATH frames on the wire *)
Section close_path_frame.
Import protocol ackRanges ClosePathFrame.

Definition valid_close_path_frame (f : ClosePathFrame) : Prop :=
  is_u8 (PathID f) ∧ valid_acks (LargestAcked f) (LowestAcked f) (AckRanges f) ∧
  (AckRanges f = [] → 1 <= LowestAcked f).

Definition close_path_image (f : ClosePathFrame) : ClosePathFrame :=
  let ranges := sent_ranges (AckRanges f) in
  MkClosePathFrame (PathID f) (LargestAcked f)
    (match last ranges with Some r => First r | None => LowestAcked f end) ranges.

Lemma flags_fields lal dl (miss : bool) : valid_pn_len lal → valid_pn_len dl →
  let fl := if miss then Z.lor 0 16 else 0 in
  let fl := if negb (lal =? PacketNumberLen1) then Z.lxor fl (u8 (Z.shiftl (lal / 2) 2)) else fl in
  let fl := if negb (dl =? PacketNumberLen1) then Z.lxor fl (u8 (dl / 2)) else fl in
  u8 fl = fl ∧ (Z.land fl 16 =? 16) = miss ∧
  fieldLen (Z.shiftr (Z.land fl 12) 2) = lal ∧ fieldLen (Z.land fl 3) = dl.
Proof.
  intros [->|[->|[->| ->]]] [->|[->|[->| ->]]]; destruct miss; vm_compute; repeat split.
Qed.

Definition close_path_bytes (bo : ByteOrder) `{!ByteOrderOk bo} (f : ClosePathFrame) : list Z :=
  let dl := getMissingSequenceNumberDeltaLen (LargestAcked f) (LowestAcked f) (AckRanges f) in
  let largest := enc (bo := bo) (Z.to_nat (GetPacketNumberLength (LargestAcked f))) (LargestAcked f) in
  [17] ++ [PathID f] ++ [flagsOf f] ++
  match AckRanges f with
  | [] => largest ++ enc (bo := bo) (Z.to_nat dl) (LargestAcked f - LowestAcked f + 1)
  | r0 :: rs =>
      [len (ranges_blocks r0 (writable r0 rs 0))] ++ largest ++ enc (bo := bo) (Z.to_nat dl) (range_len r0) ++
      blocks_bytes bo dl (ranges_blocks r0 (writable r0 rs 0))
  end.

Lemma Write_close_path_bytes f version :
  valid_close_path_frame f → first_gap_fits (AckRanges f) →
  Write f version = Ok (close_path_bytes (GetByteOrder version) f).
Proof.
  intros (Hp & Hv & Hn) Hgap. set (bo := GetByteOrder version).
  destruct (deltaLen_spec _ _ _ Hv Hn) as [Hd Hlen]. pose proof Hv as [Hl Hv2].
  destruct (GetPacketNumberLength_spec (LargestAcked f)) as [Hlal Hlb]; [done|].
  destruct (flags_fields _ _ (HasMissingRanges (AckRanges f)) Hlal Hd) as [Hfl _].
  fold (flagsOf f) in Hfl. unfold Write, close_path_bytes. fold bo.
  apply wseq_ok; [done|]. apply wseq_ok; [unfold WriteByte; by rewrite u8_id|].
  apply wseq_ok; [unfold WriteByte; by rewrite Hfl|].
  destruct (AckRanges f) as [|r0 rs] eqn:E.
  - change (HasMissingRanges []) with false. cbv iota.
    erewrite <- (app_nil_l (enc _ _ ++ _)). apply wseq_ok; [done|].
    apply wseq_ok; [apply writeNumber_enc; [done|lia]|].
    assert (u64 (LargestAcked f - LowestAcked f + 1) = LargestAcked f - LowestAcked f + 1) as Eu.
    { specialize (Hn eq_refl). zlia. }
    unfold AckFrame.firstBlock. simpl last. unfold mbind, outcome_bind. rewrite Eu.
    change (numWritableNackRanges []) with 0. rewrite Z.eqb_refl. simpl negb. cbv iota.
    rewrite <- (app_nil_r (enc _ _)). apply wseq_ok; [apply writeNumber_enc; [done|specialize (Hn eq_refl); lia]|done].
  - assert (valid_ranges (LargestAcked f) (LowestAcked f) (r0 :: rs)) as Hvr by exact Hv2.
    destruct Hv2 as (H0 & HL & Hne & Hb & Hlow).
    destruct (numWritable_val r0 rs) as (En & Ec & Hr); [lia|done|].
    rewrite HasMissingRanges_cons. destruct (Z.ltb_spec 255 (numWritableNackRanges (r0 :: rs))); [lia|].
    rewrite firstBlock_ok by (done || lia). unfold mbind at 1, outcome_bind at 1.
    assert (range_len r0 < 2 ^ (8 * getMissingSequenceNumberDeltaLen (LargestAcked f) (LowestAcked f) (r0 :: rs)))
      by (apply Hlen; set_solver).
    apply wseq_ok; [unfold WriteByte; do 2 f_equal; zlia|].
    apply wseq_ok; [apply writeNumber_enc; [done|lia]|].
    apply wseq_ok; [apply writeNumber_enc; [done|unfold range_len in *; lia]|].
    rewrite Ec. pose proof (writeBlocks_enc bo false
      (getMissingSequenceNumberDeltaLen (LargestAcked f) (LowestAcked f) (r0 :: rs)) r0 rs 0) as Hw.
    rewrite Z.add_0_r in Hw. rewrite Hw; [|done|lia|done|intros; apply Hlen; set_solver|lia|by apply first_gap_writable].
    unfold mbind, outcome_bind. rewrite Z.eqb_refl. done.
Qed.

Lemma Parse_close_path_bytes f version r :
  valid_close_path_frame f → first_gap_fits (AckRanges f) → Forall is_byte r →
  ParseClosePathFrame version (close_path_bytes (GetByteOrder version) f ++ r) = Ok (close_path_image f, r).
Proof.
  intros (Hp & Hv & Hn) Hgap Hr. set (bo := GetByteOrder version).
  destruct (deltaLen_spec _ _ _ Hv Hn) as [Hd Hlen]. pose proof Hv as [Hl Hv2].
  destruct (GetPacketNumberLength_spec (LargestAcked f)) as [Hlal Hlb]; [done|].
  destruct (flags_fields _ _ (HasMissingRanges (AckRanges f)) Hlal Hd) as (_ & Hmiss & Hf1 & Hf2).
  fold (flagsOf f) in Hmiss, Hf1, Hf2.
  set (dl := getMissingSequenceNumberDeltaLen (LargestAcked f) (LowestAcked f) (AckRanges f)) in *.
  unfold ParseClosePathFrame, close_path_bytes, close_path_image. fold bo dl. rewrite <- !app_assoc.
  do 3 (erewrite parser_bind_ok by done; cbv beta zeta). rewrite Hmiss, Hf1, Hf2.
  destruct (AckRanges f) as [|r0 rs] eqn:E.
  - change (HasMissingRanges []) with false. cbv iota. rewrite <- !app_assoc. specialize (Hn eq_refl).
    erewrite parser_bind_ok by done. rewrite andb_false_l.
    erewrite parser_bind_ok by (apply ReadUintN_pn; [done|lia]).
    erewrite parser_bind_ok by (apply ReadUintN_pn; [done|lia]).
    erewrite parser_bind_ok by (apply checkFirstBlock_ok; lia). cbv beta.
    erewrite parser_bind_ok by done. cbv beta iota.
    change (negb (validateAckRanges (LargestAcked f) [])) with false. cbv iota.
    destruct (Z.eqb_spec (LargestAcked f) 0); [lia|].
    unfold mret, parser_ret. simpl. do 3 f_equal. zlia.
  - assert (valid_ranges (LargestAcked f) (LowestAcked f) (r0 :: rs)) as Hvr by exact Hv2.
    destruct Hv2 as (H0 & HL & Hne & Hb & Hlow).
    destruct (numWritable_val r0 rs) as (En & Ec & Hrng); [lia|done|].
    pose proof (first_gap_writable _ _ Hb Hne Hgap) as Hw.
    pose proof (writable_below _ _ 0 Hb) as Hwb.
    destruct (valid_ranges_sent _ _ _ Hvr Hgap) as (rl & Hlast & Hvs).
    assert (0 < len (ranges_blocks r0 (writable r0 rs 0))) as Hpos.
    { destruct (writable r0 rs 0) as [|r1 ws]; [done|]. cbn [ranges_blocks]. rewrite len_app.
      pose proof (gap_blocks_pos (First r0 - Last r1 - 1) (range_len r1)).
      pose proof (len_nonneg (ranges_blocks r1 ws)). lia. }
    assert (range_len r0 < 2 ^ (8 * dl)) by (apply Hlen; set_solver).
    assert (1 <= range_len r0 <= LargestAcked f).
    { destruct rs as [|r1 rs]; [done|]. destruct Hb as (? & ? & _). unfold range_len. lia. }
    rewrite HasMissingRanges_cons. rewrite <- !app_assoc.
    erewrite parser_bind_ok by done. rewrite andb_true_l.
    destruct (Z.eqb_spec (len (ranges_blocks r0 (writable r0 rs 0))) 0); [lia|].
    erewrite parser_bind_ok by (apply ReadUintN_pn; [done|lia]).
    erewrite parser_bind_ok by (apply ReadUintN_pn; [done|lia]).
    erewrite parser_bind_ok by (apply checkFirstBlock_ok; lia). cbv beta.
    cbn [sent_ranges] in Hlast, Hvs |- *. rewrite Hlast.
    erewrite (parser_bind_ok _ _ _ (r0 :: writable r0 rs 0, First rl)).
    2: { erewrite parser_bind_ok.
         2: { rewrite <- HL. apply parseRanges_ok; try done; try lia.
              intros x Hx. apply Hlen, elem_of_cons. right. destruct (writable_prefix r0 rs 0) as [post Hpost].
              rewrite Hpost. by apply elem_of_app; left. }
         rewrite Hlast. reflexivity. }
    cbv beta iota. rewrite (validateAckRanges_complete _ _ _ Hvs) by lia. done.
Qed.

Lemma close_path_bytes_len f version : valid_close_path_frame f → first_gap_fits (AckRanges f) →
  MinLength f version = Ok (len (close_path_bytes (GetByteOrder version) f)).
Proof.
  intros (Hp & Hv & Hn) Hgap. destruct (deltaLen_spec _ _ _ Hv Hn) as [Hd _].
  pose proof Hv as [Hl Hv2]. destruct (GetPacketNumberLength_spec (LargestAcked f)) as [Hlal _]; [done|].
  unfold MinLength, close_path_bytes. f_equal. rewrite !len_app.
  change (len [17]) with 1. change (len [PathID f]) with 1. change (len [flagsOf f]) with 1.
  assert (1 <= GetPacketNumberLength (LargestAcked f) <= 6) as Hlal' by (destruct Hlal as [->|[->|[->| ->]]]; lia).
  set (dl := getMissingSequenceNumberDeltaLen _ _ _) in *.
  assert (1 <= dl <= 6) as Hdl by (destruct Hd as [->|[->|[->| ->]]]; lia).
  set (lal := GetPacketNumberLength (LargestAcked f)) in *. clearbody lal dl.
  destruct (AckRanges f) as [|r0 rs] eqn:E.
  - change (HasMissingRanges []) with false. cbv iota. rewrite len_app, !enc_len. zlia.
  - destruct Hv2 as (H0 & HL & Hne & Hb & Hlow).
    destruct (numWritable_val r0 rs) as (En & Ec & Hrng); [lia|done|].
    rewrite HasMissingRanges_cons, !len_app, !enc_len, blocks_bytes_len by lia.
    change (len [_]) with 1. rewrite En in *. set (nb := len (ranges_blocks _ _)) in *. clearbody nb.
    assert (0 <= (1 + dl) * (1 + nb) <= 7 * 255) by nia. zlia.
Qed.

Lemma close_path_bytes_roundtrip f version :
  valid_close_path_frame f → first_gap_fits (AckRanges f) →
  ∃ bs, Write f version = Ok bs ∧ MinLength f version = Ok (len bs) ∧ Forall is_byte bs ∧
    ∀ r, Forall is_byte r → ParseClosePathFrame version (bs ++ r) = Ok (close_path_image f, r).
Proof.
  intros Hf Hgap. eexists. split; [by apply Write_close_path_bytes|].
  split; [by apply close_path_bytes_len|]. split; [|intros; by apply Parse_close_path_bytes].
  destruct Hf as (Hp & Hv & Hn). destruct (deltaLen_spec _ _ _ Hv Hn) as [Hd _]. pose proof Hv as [Hl Hv2].
  destruct (GetPacketNumberLength_spec (LargestAcked f)) as [Hlal _]; [done|].
  destruct (flags_fields _ _ (HasMissingRanges (AckRanges f)) Hlal Hd) as [Hfl _]. fold (flagsOf f) in Hfl.
  unfold close_path_bytes. apply Forall_app; split; [by repeat constructor|].
  apply Forall_app; split; [by repeat constructor; apply Hp|].
  apply Forall_app; split; [constructor; [zlia|constructor]|]. destruct (AckRanges f) as [|r0 rs].
  - apply enc_app_bytes, enc_bytes.
  - destruct Hv2 as (H0 & HL & Hne & Hb & Hlow).
    destruct (numWritable_val r0 rs) as (En & Ec & Hrng); [lia|done|].
    apply Forall_app; split; [constructor; [unfold is_byte; lia|constructor]|].
    apply enc_app_bytes, enc_app_bytes, blocks_bytes_byte.
Qed.

(** A valid CLOSE_PATH frame whose first gap fits is written in exactly
    [MinLength] bytes, which are read back as its image. *)
Theorem close_path_roundtrip f version :
  valid_close_path_frame f → first_gap_fits (AckRanges f) →
  ∃ bs, Write f version = Ok bs ∧ MinLength f version = Ok (len bs) ∧ Forall is_byte bs ∧
    ∀ r, Forall is_byte r → ParseClosePathFrame version (bs ++ r) = Ok (close_path_image f, r).
Proof. apply close_path_bytes_roundtrip. Qed.

Lemma close_path_roundtrip_witness :
  let f := MkClosePathFrame 3 70000 2 [MkAckRange 69999 70000; MkAckRange 2 69000] in
  ∃ bs, Write f 39 = Ok bs ∧ MinLength f 39 = Ok (len bs) ∧ Forall is_byte bs ∧
    ∀ r, Forall is_byte r → ParseClosePathFrame 39 (bs ++ r) = Ok (close_path_image f, r).
Proof.
  apply close_path_roundtrip.
  - split; [vm_compute; split; congruence|]. split; [|done]. split; [vm_compute; split; congruence|].
    simpl. repeat split; try lia; try done. by intros rl [= <-].
  - simpl. lia.
Defined.

End close_path_frame.
