(* ===== verification/Frames.v ===== *)
(** * The frames and the payload of a packet

    The remaining frames of [internal/wire] (STREAM, RST_STREAM, WINDOW_UPDATE,
    BLOCKED, GOAWAY, CONNECTION_CLOSE, STOP_WAITING, PING, ADD_ADDRESS, PATHS),
    the [Frame] interface as a sum of all frames, and the frame loop of
    [packet_unpacker.go]. *)

From S2P Require Import Prelude Protocol ByteOrder AckFrames.

(** [b.Write] and [b.WriteString] *)
Definition WriteBytes (d : list Z) : outcome (list Z) := Ok d.

(** ** stream_frame.go *)
Module StreamFrame.

Record StreamFrame := MkStreamFrame {
  StreamID : Z;
  FinBit : bool;
  DataLenPresent : bool;
  Offset : Z;
  Data : list Z;
}.

#[global] Instance StreamFrame_eq_dec : EqDecision StreamFrame.
Proof. solve_decision. Defined.

Definition errInvalidStreamIDLen : error := NewError "StreamFrame: Invalid StreamID length".
Definition errInvalidOffsetLen : error := NewError "StreamFrame: Invalid offset length".
Definition errEmptyFrame : error :=
  NewError "StreamFrame: attempting to write empty frame without FIN".

Definition DataLen (f : StreamFrame) : Z := u64 (len (Data f)).

(** The checks on a frame that has been read. *)
Definition checkFrame (frame : StreamFrame) : Parser StreamFrame :=
  if u64 (Offset frame + DataLen frame) <? Offset frame then throw (qerr.Error qerr.InvalidStreamData)
  else if negb (FinBit frame) && (DataLen frame =? 0) then throw (qerr.Error qerr.EmptyStreamFrameNoFin)
  else mret frame.

Definition ParseStreamFrame (version : Z) : Parser StreamFrame :=
  let bo := GetByteOrder version in
  typeByte ← ReadByte;
  let finBit := 0 <? Z.land typeByte 64 in
  let dataLenPresent := 0 <? Z.land typeByte 32 in
  let offsetLen := Z.shiftr (Z.land typeByte 28) 2 in
  let offsetLen := if negb (offsetLen =? 0) then u8 (offsetLen + 1) else offsetLen in
  let streamIDLen := u8 (Z.land typeByte 3 + 1) in
  sid ← ReadUintN bo streamIDLen;
  offset ← ReadUintN bo offsetLen;
  dataLen ← (if dataLenPresent then ReadUint16 bo else mret 0);
  if u16 protocol.MaxPacketSize <? dataLen then throw (qerr.Error qerr.InvalidStreamData) else
  dataLen ← (if negb dataLenPresent then n ← ReaderLen; mret (u16 n) else mret dataLen);
  data ← (if negb (dataLen =? 0) then ReadFull (Z.to_nat dataLen) else mret []);
  checkFrame (MkStreamFrame (u32 sid) finBit dataLenPresent offset data).

Definition calculateStreamIDLength (f : StreamFrame) : Z :=
  if StreamID f <? Z.shiftl 1 8 then 1
  else if StreamID f <? Z.shiftl 1 16 then 2
  else if StreamID f <? Z.shiftl 1 24 then 3
  else 4.

Definition getOffsetLength (f : StreamFrame) : Z :=
  if Offset f =? 0 then 0
  else if Offset f <? Z.shiftl 1 16 then 2
  else if Offset f <? Z.shiftl 1 24 then 3
  else if Offset f <? Z.shiftl 1 32 then 4
  else if Offset f <? Z.shiftl 1 40 then 5
  else if Offset f <? Z.shiftl 1 48 then 6
  else if Offset f <? Z.shiftl 1 56 then 7
  else 8.

Definition writeStreamID (bo : ByteOrder) (streamIDLen sid : Z) : outcome (list Z) :=
  if streamIDLen =? 1 then WriteByte (u8 sid)
  else if streamIDLen =? 2 then WriteUint16 bo (u16 sid)
  else if streamIDLen =? 3 then WriteUint24 bo (u32 sid)
  else if streamIDLen =? 4 then WriteUint32 bo (u32 sid)
  else Err errInvalidStreamIDLen.

Definition writeOffset (bo : ByteOrder) (offsetLength offset : Z) : outcome (list Z) :=
  if offsetLength =? 0 then Ok []
  else if offsetLength =? 2 then WriteUint16 bo (u16 offset)
  else if offsetLength =? 3 then WriteUint24 bo (u32 offset)
  else if offsetLength =? 4 then WriteUint32 bo (u32 offset)
  else if offsetLength =? 5 then WriteUint40 bo offset
  else if offsetLength =? 6 then WriteUint48 bo offset
  else if offsetLength =? 7 then WriteUint56 bo offset
  else if offsetLength =? 8 then WriteUint64 bo offset
  else Err errInvalidOffsetLen.

Definition typeByteOf (f : StreamFrame) : Z :=
  let typeByte := 128 in
  let typeByte := if FinBit f then Z.lxor typeByte 64 else typeByte in
  let typeByte := if DataLenPresent f then Z.lxor typeByte 32 else typeByte in
  let offsetLength := getOffsetLength f in
  let typeByte := if 0 <? offsetLength
                  then Z.lxor typeByte (u8 (Z.shiftl (u8 (u8 offsetLength - 1)) 2)) else typeByte in
  Z.lxor typeByte (u8 (calculateStreamIDLength f - 1)).

Definition Write (f : StreamFrame) (version : Z) : outcome (list Z) :=
  let bo := GetByteOrder version in
  if (len (Data f) =? 0) && negb (FinBit f) then Err errEmptyFrame
  else
    WriteByte (typeByteOf f) ;;;
    writeStreamID bo (calculateStreamIDLength f) (StreamID f) ;;;
    writeOffset bo (getOffsetLength f) (Offset f) ;;;
    (if DataLenPresent f then WriteUint16 bo (u16 (len (Data f))) else Ok []) ;;;
    WriteBytes (Data f).

Definition MinLength (f : StreamFrame) (version : Z) : outcome Z :=
  let length := u64 (u64 (1 + calculateStreamIDLength f) + getOffsetLength f) in
  Ok (if DataLenPresent f then u64 (length + 2) else length).

End StreamFrame.

(** ** rst_stream_frame.go *)
Module RstStreamFrame.

Record RstStreamFrame := MkRstStreamFrame {
  StreamID : Z;
  ErrorCode : Z;
  ByteOffset : Z;
}.

#[global] Instance RstStreamFrame_eq_dec : EqDecision RstStreamFrame.
Proof. solve_decision. Defined.

Definition Write (f : RstStreamFrame) (version : Z) : outcome (list Z) :=
  let bo := GetByteOrder version in
  WriteByte 1 ;;; WriteUint32 bo (u32 (StreamID f)) ;;;
  WriteUint64 bo (ByteOffset f) ;;; WriteUint32 bo (ErrorCode f).

Definition MinLength (f : RstStreamFrame) (version : Z) : outcome Z := Ok (1 + 4 + 8 + 4).

Definition ParseRstStreamFrame (version : Z) : Parser RstStreamFrame :=
  let bo := GetByteOrder version in
  ReadByte ≫= λ _,
  sid ← ReadUint32 bo;
  byteOffset ← ReadUint64 bo;
  errorCode ← ReadUint32 bo;
  mret (MkRstStreamFrame sid errorCode byteOffset).

End RstStreamFrame.

(** ** window_update_frame.go *)
Module WindowUpdateFrame.

Record WindowUpdateFrame := MkWindowUpdateFrame {
  StreamID : Z;
  ByteOffset : Z;
}.

#[global] Instance WindowUpdateFrame_eq_dec : EqDecision WindowUpdateFrame.
Proof. solve_decision. Defined.

Definition Write (f : WindowUpdateFrame) (version : Z) : outcome (list Z) :=
  let bo := GetByteOrder version in
  WriteByte 4 ;;; WriteUint32 bo (u32 (StreamID f)) ;;; WriteUint64 bo (ByteOffset f).

Definition MinLength (f : WindowUpdateFrame) (version : Z) : outcome Z := Ok (1 + 4 + 8).

Definition ParseWindowUpdateFrame (version : Z) : Parser WindowUpdateFrame :=
  let bo := GetByteOrder version in
  ReadByte ≫= λ _,
  sid ← ReadUint32 bo;
  byteOffset ← ReadUint64 bo;
  mret (MkWindowUpdateFrame sid byteOffset).

End WindowUpdateFrame.

(** ** blocked_frame.go *)
Module BlockedFrame.

Record BlockedFrame := MkBlockedFrame { StreamID : Z }.

#[global] Instance BlockedFrame_eq_dec : EqDecision BlockedFrame.
Proof. solve_decision. Defined.

Definition Write (f : BlockedFrame) (version : Z) : outcome (list Z) :=
  WriteByte 5 ;;; WriteUint32 (GetByteOrder version) (u32 (StreamID f)).

Definition MinLength (f : BlockedFrame) (version : Z) : outcome Z := Ok (1 + 4).

Definition ParseBlockedFrame (version : Z) : Parser BlockedFrame :=
  ReadByte ≫= λ _,
  sid ← ReadUint32 (GetByteOrder version);
  mret (MkBlockedFrame sid).

End BlockedFrame.

(** ** goaway_frame.go *)
Module GoawayFrame.

Record GoawayFrame := MkGoawayFrame {
  ErrorCode : Z;
  LastGoodStream : Z;
  ReasonPhrase : list Z;
}.

#[global] Instance GoawayFrame_eq_dec : EqDecision GoawayFrame.
Proof. solve_decision. Defined.

Definition ParseGoawayFrame (version : Z) : Parser GoawayFrame :=
  let bo := GetByteOrder version in
  ReadByte ≫= λ _,
  errorCode ← ReadUint32 bo;
  lastGoodStream ← ReadUint32 bo;
  reasonPhraseLen ← ReadUint16 bo;
  if u16 protocol.MaxPacketSize <? reasonPhraseLen then throw (qerr.Error qerr.InvalidGoawayData) else
  reasonPhrase ← ReadFull (Z.to_nat reasonPhraseLen);
  mret (MkGoawayFrame errorCode lastGoodStream reasonPhrase).

Definition Write (f : GoawayFrame) (version : Z) : outcome (list Z) :=
  let bo := GetByteOrder version in
  WriteByte 3 ;;; WriteUint32 bo (u32 (ErrorCode f)) ;;; WriteUint32 bo (u32 (LastGoodStream f)) ;;;
  WriteUint16 bo (u16 (len (ReasonPhrase f))) ;;; WriteBytes (ReasonPhrase f).

Definition MinLength (f : GoawayFrame) (version : Z) : outcome Z :=
  Ok (u64 (1 + 4 + 4 + 2 + len (ReasonPhrase f))).

End GoawayFrame.

(** ** connection_close_frame.go *)
Module ConnectionCloseFrame.

Record ConnectionCloseFrame := MkConnectionCloseFrame {
  ErrorCode : Z;
  ReasonPhrase : list Z;
}.

#[global] Instance ConnectionCloseFrame_eq_dec : EqDecision ConnectionCloseFrame.
Proof. solve_decision. Defined.

Definition errReasonPhraseTooLong : error := NewError "ConnectionFrame: ReasonPhrase too long".

Definition ParseConnectionCloseFrame (version : Z) : Parser ConnectionCloseFrame :=
  let bo := GetByteOrder version in
  ReadByte ≫= λ _,
  errorCode ← ReadUint32 bo;
  reasonPhraseLen ← ReadUint16 bo;
  if u16 protocol.MaxPacketSize <? reasonPhraseLen
  then throw (qerr.Error qerr.InvalidConnectionCloseData) else
  reasonPhrase ← ReadFull (Z.to_nat reasonPhraseLen);
  mret (MkConnectionCloseFrame errorCode reasonPhrase).

Definition MinLength (f : ConnectionCloseFrame) (version : Z) : outcome Z :=
  Ok (u64 (1 + 4 + 2 + len (ReasonPhrase f))).

Definition Write (f : ConnectionCloseFrame) (version : Z) : outcome (list Z) :=
  let bo := GetByteOrder version in
  WriteByte 2 ;;; WriteUint32 bo (u32 (ErrorCode f)) ;;;
  (if 65535 <? len (ReasonPhrase f) then Err errReasonPhraseTooLong
   else WriteUint16 bo (u16 (len (ReasonPhrase f))) ;;; WriteBytes (ReasonPhrase f)).

End ConnectionCloseFrame.

(** ** stop_waiting_frame.go *)
Module StopWaitingFrame.
Import protocol.

Record StopWaitingFrame := MkStopWaitingFrame {
  LeastUnacked : Z;
  PacketNumberLen : Z;
  PacketNumber : Z;
}.

#[global] Instance StopWaitingFrame_eq_dec : EqDecision StopWaitingFrame.
Proof. solve_decision. Defined.

Definition errLeastUnackedHigherThanPacketNumber : error :=
  NewError "StopWaitingFrame: LeastUnacked can't be greater than the packet number".
Definition errPacketNumberNotSet : error := NewError "StopWaitingFrame: PacketNumber not set".
Definition errPacketNumberLenNotSet : error := NewError "StopWaitingFrame: PacketNumberLen not set".

Definition Write (f : StopWaitingFrame) (version : Z) : outcome (list Z) :=
  let bo := GetByteOrder version in
  if PacketNumber f =? 0 then Err errPacketNumberNotSet
  else if PacketNumber f <? LeastUnacked f then Err errLeastUnackedHigherThanPacketNumber
  else
    WriteByte 6 ;;;
    (let leastUnackedDelta := u64 (PacketNumber f - LeastUnacked f) in
     let n := PacketNumberLen f in
     if n =? PacketNumberLen1 then WriteByte (u8 leastUnackedDelta)
     else if n =? PacketNumberLen2 then WriteUint16 bo (u16 leastUnackedDelta)
     else if n =? PacketNumberLen4 then WriteUint32 bo (u32 leastUnackedDelta)
     else if n =? PacketNumberLen6 then WriteUint48 bo (Z.land leastUnackedDelta (Z.shiftl 1 48 - 1))
     else Err errPacketNumberLenNotSet).

Definition MinLength (f : StopWaitingFrame) (version : Z) : outcome Z :=
  if PacketNumberLen f =? PacketNumberLenInvalid then Err errPacketNumberLenNotSet
  else Ok (u64 (1 + PacketNumberLen f)).

Definition ParseStopWaitingFrame (packetNumber packetNumberLen version : Z) : Parser StopWaitingFrame :=
  ReadByte ≫= λ _,
  leastUnackedDelta ← ReadUintN (GetByteOrder version) packetNumberLen;
  if packetNumber <=? leastUnackedDelta then throw (qerr.Error qerr.InvalidStopWaitingData) else
  mret (MkStopWaitingFrame (u64 (packetNumber - leastUnackedDelta)) 0 0).

End StopWaitingFrame.

(** ** ping_frame.go *)
Module PingFrame.
Record PingFrame := MkPingFrame {}.

#[global] Instance PingFrame_eq_dec : EqDecision PingFrame.
Proof. solve_decision. Defined.

Definition ParsePingFrame (version : Z) : Parser PingFrame := ReadByte ≫= λ _, mret MkPingFrame.
Definition Write (f : PingFrame) (version : Z) : outcome (list Z) := WriteByte 7.
Definition MinLength (f : PingFrame) (version : Z) : outcome Z := Ok 1.
End PingFrame.

(** ** The parts of Go's net package that add_address_frame.go uses *)
Module net.

(** An [IP] is a byte slice of length 4 or 16 (or any other, invalid, one). *)
Definition IPv6len : nat := 16.
Definition v4InV6Prefix : list Z := [0; 0; 0; 0; 0; 0; 0; 0; 0; 0; 255; 255].

Record UDPAddr := MkUDPAddr { IP : list Z; Port : Z; Zone : string }.

#[global] Instance UDPAddr_eq_dec : EqDecision UDPAddr.
Proof. solve_decision. Defined.

Definition IPv4 (a b c d : Z) : list Z := v4InV6Prefix ++ [a; b; c; d].

(** [nil] is [None]. *)
Definition To4 (ip : list Z) : option (list Z) :=
  if (length ip =? 4)%nat then Some ip
  else if (length ip =? 16)%nat && bool_decide (take 12 ip = v4InV6Prefix) then Some (drop 12 ip)
  else None.

Definition To16 (ip : list Z) : option (list Z) :=
  if (length ip =? 4)%nat then Some (v4InV6Prefix ++ ip)
  else if (length ip =? 16)%nat then Some ip
  else None.

End net.

(** ** add_address_frame.go *)
Module AddAddressFrame.

Record AddAddressFrame := MkAddAddressFrame {
  IPVersion : Z;
  Addr : net.UDPAddr;
}.

#[global] Instance AddAddressFrame_eq_dec : EqDecision AddAddressFrame.
Proof. solve_decision. Defined.

Definition ErrUnknownIPVersion : error := NewError "AddAddressFrame: unknown IP version".
Definition errInconsistentAddrIPVersion : error :=
  NewError "internal inconsistency: Addr does not match IP version".

(** The loop that writes the first [k] bytes of [ip]. *)
Fixpoint writeIP (ip : list Z) (k : nat) : outcome (list Z) :=
  match k with
  | O => Ok []
  | S k' => match ip with
            | [] => Panic
            | b :: ip' => WriteByte b ;;; writeIP ip' k'
            end
  end.

Definition Write (f : AddAddressFrame) (version : Z) : outcome (list Z) :=
  WriteByte 16 ;;; WriteByte (IPVersion f) ;;;
  (if IPVersion f =? 4 then
     match net.To4 (net.IP (Addr f)) with
     | None => Err errInconsistentAddrIPVersion
     | Some ip => writeIP ip 4
     end
   else if IPVersion f =? 6 then
     match net.To16 (net.IP (Addr f)) with
     | None => Err errInconsistentAddrIPVersion
     | Some ip => writeIP ip 16
     end
   else Err ErrUnknownIPVersion) ;;;
  WriteUint16 (GetByteOrder version) (u16 (net.Port (Addr f))).

(** The loop that reads [k] bytes. *)
Fixpoint readIP (k : nat) : Parser (list Z) :=
  match k with
  | O => mret []
  | S k' => b ← ReadByte; ip ← readIP k'; mret (b :: ip)
  end.

Definition ParseAddAddressFrame (version : Z) : Parser AddAddressFrame :=
  ReadByte ≫= λ _,
  ipv ← ReadByte;
  ip ← (if ipv =? 4 then
          a ← ReadByte; b ← ReadByte; c ← ReadByte; d ← ReadByte;
          mret (net.IPv4 a b c d)
        else if ipv =? 6 then readIP net.IPv6len
        else throw ErrUnknownIPVersion);
  port ← ReadUint16 (GetByteOrder version);
  mret (MkAddAddressFrame ipv (net.MkUDPAddr ip port "")).

Definition MinLength (f : AddAddressFrame) (version : Z) : outcome Z :=
  if IPVersion f =? 4 then Ok (1 + 1 + 4 + 2)
  else if IPVersion f =? 6 then Ok (1 + 1 + 16 + 2)
  else Err ErrUnknownIPVersion.

End AddAddressFrame.

(** ** paths_frame.go *)
Module PathsFrame.

Record PathsFrame := MkPathsFrame {
  MaxNumPaths : Z;
  NumPaths : Z;
  PathIDs : list Z;
  RemoteRTTs : list Z;
}.

#[global] Instance PathsFrame_eq_dec : EqDecision PathsFrame.
Proof. solve_decision. Defined.

Definition ErrTooManyPaths : error := NewError "PathsFrame: more paths than the maximum enabled".
Definition ErrPathsNumber : error :=
  NewError "PathsFrame: number of paths advertised and # of paths do not match".
Definition ErrMissingRTT : error :=
  NewError "PathsFrame: number of paths IDs and number of remote RTTs do not match".

(** The loop over the indices; the lists have the same length. *)
Fixpoint writePaths (bo : ByteOrder) (pathIDs remoteRTTs : list Z) : outcome (list Z) :=
  match pathIDs, remoteRTTs with
  | [], _ => Ok []
  | p :: pathIDs', rtt :: remoteRTTs' =>
      WriteByte (u8 p) ;;; float16.writeUfloat16 bo (u64 (Z.quot rtt time.Microsecond)) ;;;
      writePaths bo pathIDs' remoteRTTs'
  | _ :: _, [] => Panic
  end.

Definition Write (f : PathsFrame) (version : Z) : outcome (list Z) :=
  WriteByte 18 ;;; WriteByte (MaxNumPaths f) ;;; WriteByte (NumPaths f) ;;;
  (if negb (NumPaths f =? len (PathIDs f)) then Err ErrPathsNumber
   else if negb (len (PathIDs f) =? len (RemoteRTTs f)) then Err ErrMissingRTT
   else writePaths (GetByteOrder version) (PathIDs f) (RemoteRTTs f)).

Fixpoint parsePaths (bo : ByteOrder) (k : nat) : Parser (list Z * list Z) :=
  match k with
  | O => mret ([], [])
  | S k' =>
      pathID ← ReadByte;
      remoteRTT ← float16.readUfloat16 bo;
      parsePaths bo k' ≫= λ res : list Z * list Z,
      let '(pathIDs, remoteRTTs) := res in
      mret (pathID :: pathIDs, i64 (i64 remoteRTT * time.Microsecond) :: remoteRTTs)
  end.

Definition ParsePathsFrame (version : Z) : Parser PathsFrame :=
  ReadByte ≫= λ _,
  maxNum ← ReadByte;
  num ← ReadByte;
  if maxNum <? num then throw ErrTooManyPaths else
  parsePaths (GetByteOrder version) (Z.to_nat num) ≫= λ res : list Z * list Z,
  let '(pathIDs, remoteRTTs) := res in
  mret (MkPathsFrame maxNum num pathIDs remoteRTTs).

(** The length is computed in [uint8], the type of [NumPaths]. *)
Definition MinLength (f : PathsFrame) (version : Z) : outcome Z :=
  let length := u8 (u8 (1 + 1 + 1) + u8 (3 * NumPaths f)) in
  Ok length.

End PathsFrame.

(** ** frame.go: the Frame interface

    The frames that implement it, with the dispatch of its two methods. Writing
    an ACK frame also updates the frame (its delay), from a clock reading. *)
Inductive Frame :=
  | FStream (f : StreamFrame.StreamFrame)
  | FAck (f : AckFrame.AckFrame)
  | FRstStream (f : RstStreamFrame.RstStreamFrame)
  | FConnectionClose (f : ConnectionCloseFrame.ConnectionCloseFrame)
  | FGoaway (f : GoawayFrame.GoawayFrame)
  | FWindowUpdate (f : WindowUpdateFrame.WindowUpdateFrame)
  | FBlocked (f : BlockedFrame.BlockedFrame)
  | FStopWaiting (f : StopWaitingFrame.StopWaitingFrame)
  | FPing (f : PingFrame.PingFrame)
  | FAddAddress (f : AddAddressFrame.AddAddressFrame)
  | FClosePath (f : ClosePathFrame.ClosePathFrame)
  | FPaths (f : PathsFrame.PathsFrame).

#[global] Instance Frame_eq_dec : EqDecision Frame.
Proof. solve_decision. Defined.

Module frame.

Definition Write (f : Frame) (version now : Z) : outcome (list Z) :=
  match f with
  | FStream f => StreamFrame.Write f version
  | FAck f => (AckFrame.Write f version now).2
  | FRstStream f => RstStreamFrame.Write f version
  | FConnectionClose f => ConnectionCloseFrame.Write f version
  | FGoaway f => GoawayFrame.Write f version
  | FWindowUpdate f => WindowUpdateFrame.Write f version
  | FBlocked f => BlockedFrame.Write f version
  | FStopWaiting f => StopWaitingFrame.Write f version
  | FPing f => PingFrame.Write f version
  | FAddAddress f => AddAddressFrame.Write f version
  | FClosePath f => ClosePathFrame.Write f version
  | FPaths f => PathsFrame.Write f version
  end.

Definition MinLength (f : Frame) (version : Z) : outcome Z :=
  match f with
  | FStream f => StreamFrame.MinLength f version
  | FAck f => AckFrame.MinLength f version
  | FRstStream f => RstStreamFrame.MinLength f version
  | FConnectionClose f => ConnectionCloseFrame.MinLength f version
  | FGoaway f => GoawayFrame.MinLength f version
  | FWindowUpdate f => WindowUpdateFrame.MinLength f version
  | FBlocked f => BlockedFrame.MinLength f version
  | FStopWaiting f => StopWaitingFrame.MinLength f version
  | FPing f => PingFrame.MinLength f version
  | FAddAddress f => AddAddressFrame.MinLength f version
  | FClosePath f => ClosePathFrame.MinLength f version
  | FPaths f => PathsFrame.MinLength f version
  end.

End frame.

(** ** packet_unpacker.go *)
Module packetUnpacker.
Import protocol.

Definition errCongestionFeedback : error := NewError "unimplemented: CONGESTION_FEEDBACK".

(** A parse error is wrapped into a QuicError with the code of the frame. *)
Definition wrapErr {A} (n : qerr.ErrorName) (p : Parser A) : Parser A := λ r,
  match p r with Err _ => Err (qerr.Error n) | o => o end.

(** One frame, whose type byte [typeByte] is still unread. *)
Definition parseFrame (version hdrPacketNumber hdrPacketNumberLen : Z)
    (encryptionLevel : EncryptionLevel) (typeByte : Z) : Parser Frame :=
  if Z.land typeByte 128 =? 128 then
    frame ← wrapErr qerr.InvalidStreamData (StreamFrame.ParseStreamFrame version);
    if negb (StreamFrame.StreamID frame =? 1) &&
       (encryption_rank encryptionLevel <=? encryption_rank EncryptionUnencrypted)
    then throw (qerr.Error qerr.UnencryptedStreamData)
    else mret (FStream frame)
  else if Z.land typeByte 192 =? 64 then
    FAck <$> wrapErr qerr.InvalidAckData (AckFrame.ParseAckFrame version)
  else if Z.land typeByte 224 =? 32 then throw errCongestionFeedback
  else if typeByte =? 1 then
    FRstStream <$> wrapErr qerr.InvalidRstStreamData (RstStreamFrame.ParseRstStreamFrame version)
  else if typeByte =? 2 then
    FConnectionClose <$> wrapErr qerr.InvalidConnectionCloseData
      (ConnectionCloseFrame.ParseConnectionCloseFrame version)
  else if typeByte =? 3 then
    FGoaway <$> wrapErr qerr.InvalidGoawayData (GoawayFrame.ParseGoawayFrame version)
  else if typeByte =? 4 then
    FWindowUpdate <$> wrapErr qerr.InvalidWindowUpdateData
      (WindowUpdateFrame.ParseWindowUpdateFrame version)
  else if typeByte =? 5 then
    FBlocked <$> wrapErr qerr.InvalidBlockedData (BlockedFrame.ParseBlockedFrame version)
  else if typeByte =? 6 then
    FStopWaiting <$> wrapErr qerr.InvalidStopWaitingData
      (StopWaitingFrame.ParseStopWaitingFrame hdrPacketNumber hdrPacketNumberLen version)
  else if typeByte =? 7 then FPing <$> PingFrame.ParsePingFrame version
  else if typeByte =? 16 then FAddAddress <$> AddAddressFrame.ParseAddAddressFrame version
  else if typeByte =? 17 then FClosePath <$> ClosePathFrame.ParseClosePathFrame version
  else if typeByte =? 18 then FPaths <$> PathsFrame.ParsePathsFrame version
  else throw (qerr.Error qerr.InvalidFrameData).

(** The loop over the payload. Every iteration reads at least one byte, so the
    length of the payload is enough [fuel]. *)
Fixpoint readFrames (version hdrPacketNumber hdrPacketNumberLen : Z)
    (encryptionLevel : EncryptionLevel) (fuel : nat) (r : list Z) : option (outcome (list Frame)) :=
  match r with
  | [] => Some (Ok [])
  | typeByte :: r' =>
      match fuel with
      | O => None
      | S fuel' =>
          if typeByte =? 0 then
            readFrames version hdrPacketNumber hdrPacketNumberLen encryptionLevel fuel' r'
          else
            match parseFrame version hdrPacketNumber hdrPacketNumberLen encryptionLevel typeByte r with
            | Ok (frame, r'') =>
                match readFrames version hdrPacketNumber hdrPacketNumberLen encryptionLevel fuel' r'' with
                | Some (Ok fs) => Some (Ok (frame :: fs))
                | o => o
                end
            | Err e => Some (Err e)
            | Panic => Some Panic
            end
      end
  end.

(** The AEAD is given: [Open data packetNumber associatedData]. *)
Definition Unpack (Open : list Z → Z → list Z → option (list Z * EncryptionLevel))
    (version : Z) (publicHeaderBinary : list Z) (hdrPacketNumber hdrPacketNumberLen : Z) (data : list Z) :
    option (outcome (EncryptionLevel * list Frame)) :=
  match Open data hdrPacketNumber publicHeaderBinary with
  | None => Some (Err (qerr.Error qerr.DecryptionFailure))
  | Some (decrypted, encryptionLevel) =>
      if len decrypted =? 0 then Some (Err (qerr.Error qerr.MissingPayload))
      else
        match readFrames version hdrPacketNumber hdrPacketNumberLen encryptionLevel
                (length decrypted) decrypted with
        | Some (Ok fs) => Some (Ok (encryptionLevel, fs))
        | Some (Err e) => Some (Err e)
        | Some Panic => Some Panic
        | None => None
        end
  end.

End packetUnpacker.

(** ** Writers and readers that match

    [reads T w p v n]: what [w] writes are [n] bytes, which [p] reads as the
    value [v] in front of every rest that satisfies [T]. Round trips of frames
    are composed from the round trips of their fields. *)
Definition reads {A} (T : list Z → Prop) (w : outcome (list Z)) (p : Parser A) (v : A) (n : Z) : Prop :=
  ∃ bs, w = Ok bs ∧ len bs = n ∧ Forall is_byte bs ∧
    ∀ r, Forall is_byte r → T r → p (bs ++ r) = Ok (v, r).

Definition any : list Z → Prop := λ _, True.

Section reads.

Lemma reads_bind {A B} T w1 w2 (p : Parser A) (k : A → Parser B) v x n1 n2 :
  reads any w1 p v n1 → reads T w2 (k v) x n2 → reads T (w1 ;;; w2) (p ≫= k) x (n1 + n2).
Proof.
  intros (b1 & -> & <- & H1 & Hp) (b2 & -> & <- & H2 & Hk). exists (b1 ++ b2).
  split; [done|]. split; [apply len_app|]. split; [by apply Forall_app|]. intros r Hr HT.
  rewrite <- app_assoc. erewrite parser_bind_ok; [by apply Hk|]. apply Hp; [by apply Forall_app|done].
Qed.

(** A value that is not on the wire. *)
Lemma reads_skip {A B} T w (p : Parser A) (k : A → Parser B) v x n :
  (∀ r, p r = Ok (v, r)) → reads T w (k v) x n → reads T w (p ≫= k) x n.
Proof.
  intros Hp (bs & -> & <- & Hb & Hk). exists bs. split; [done|]. split; [done|]. split; [done|].
  intros r Hr HT. erewrite parser_bind_ok by apply Hp. by apply Hk.
Qed.

(** The last field: nothing is read after it. *)
Lemma reads_last {A B} T w (p : Parser A) (k : A → Parser B) v x n :
  reads T w p v n → (∀ r, k v r = Ok (x, r)) → reads T w (p ≫= k) x n.
Proof.
  intros (bs & -> & <- & Hb & Hp) Hk. exists bs. split; [done|]. split; [done|]. split; [done|].
  intros r Hr HT. erewrite parser_bind_ok by by apply Hp. apply Hk.
Qed.

Lemma reads_nil {A} T (v : A) : reads T (Ok []) (mret v) v 0.
Proof. exists []. split; [done|]. split; [done|]. split; [constructor|done]. Qed.

Lemma reads_eq {A} T w w' (p : Parser A) v v' n n' :
  reads T w p v n → w = w' → v = v' → n = n' → reads T w' p v' n'.
Proof. by intros H -> -> ->. Qed.

Lemma reads_weaken {A} (T T' : list Z → Prop) w (p : Parser A) v n :
  reads T w p v n → (∀ r, T' r → T r) → reads T' w p v n.
Proof. intros (bs & ? & ? & ? & Hp) HT. exists bs. repeat split; try done. intros; apply Hp; auto. Qed.

Lemma reads_byte b : is_byte b → reads any (WriteByte b) ReadByte b 1.
Proof.
  intros Hb. exists [b]. split; [unfold WriteByte; do 2 f_equal; zlia|]. split; [done|].
  split; [by repeat constructor; apply Hb|done].
Qed.

Lemma reads_bytes d : Forall is_byte d → reads any (WriteBytes d) (ReadFull (length d)) d (len d).
Proof.
  intros Hd. exists d. split; [done|]. split; [done|]. split; [done|]. intros r _ _. apply ReadFull_app.
Qed.

Context (bo : ByteOrder) {Hbo : ByteOrderOk bo}.

Lemma reads_enc {A} n v (p : Parser A) x : (∀ r, Forall is_byte r → p (enc (bo := bo) n v ++ r) = Ok (x, r)) →
  reads any (Ok (enc (bo := bo) n v)) p x (Z.of_nat n).
Proof. intros Hp. eexists. split; [done|]. split; [apply enc_len|]. split; [apply enc_bytes|]. auto. Qed.

Lemma reads_u16 v : is_u16 v → reads any (WriteUint16 bo v) (ReadUint16 bo) v 2.
Proof. intros Hv. rewrite WriteUint16_enc. apply (reads_enc 2). intros. by apply ReadUint16_enc. Qed.
Lemma reads_u32 v : is_u32 v → reads any (WriteUint32 bo v) (ReadUint32 bo) v 4.
Proof. intros Hv. rewrite WriteUint32_enc. apply (reads_enc 4). intros. by apply ReadUint32_enc. Qed.
Lemma reads_u64 v : is_u64 v → reads any (WriteUint64 bo v) (ReadUint64 bo) v 8.
Proof. intros Hv. rewrite WriteUint64_enc. apply (reads_enc 8). intros. by apply ReadUint64_enc. Qed.

Lemma reads_ufloat16 v : reads any (float16.writeUfloat16 bo v) (float16.readUfloat16 bo)
  (float16.decode (float16.encode v)) 2.
Proof.
  destruct (readUfloat16_write bo v [] (Forall_nil_2 _)) as (bs & Hbs & Hl & Hb & _).
  exists bs. split; [done|]. split; [done|]. split; [done|]. intros r Hr _.
  destruct (readUfloat16_write bo v r Hr) as (bs' & Hbs' & _ & _ & ?).
  assert (bs' = bs) as -> by congruence. done.
Qed.

Lemma reads_uintN w n v : 0 <= n <= 8 → 0 <= v < 256 ^ n → w = Ok (enc (bo := bo) (Z.to_nat n) v) →
  reads any w (ReadUintN bo n) v n.
Proof.
  intros Hn Hv ->. replace n with (Z.of_nat (Z.to_nat n)) at 2 3 by lia. apply reads_enc. intros r _.
  apply ReadUintN_enc; [lia|]. by rewrite Z2Nat.id by lia.
Qed.

End reads.

(** A step of a round trip: the next field. *)
Ltac field := eapply reads_bind.
#[export] Hint Resolve reads_byte reads_bytes reads_u16 reads_u32 reads_u64 reads_ufloat16 reads_nil : parse.

(** ** The round trip of each frame *)
Section roundtrips.
Import protocol.

Definition valid_stream_frame (f : StreamFrame.StreamFrame) : Prop :=
  is_u32 (StreamFrame.StreamID f) ∧ is_u64 (StreamFrame.Offset f) ∧
  Forall is_byte (StreamFrame.Data f) ∧
  StreamFrame.Offset f + len (StreamFrame.Data f) < 2 ^ 64 ∧
  (StreamFrame.Data f = [] → StreamFrame.FinBit f = true) ∧
  len (StreamFrame.Data f) <= if StreamFrame.DataLenPresent f then MaxPacketSize else 65535.

Lemma stream_typeByte_fields ol il (fin dlp : bool) :
  ol = 0 ∨ 2 <= ol <= 8 → 1 <= il <= 4 →
  let tb := 128 in
  let tb := if fin then Z.lxor tb 64 else tb in
  let tb := if dlp then Z.lxor tb 32 else tb in
  let tb := if 0 <? ol then Z.lxor tb (u8 (Z.shiftl (u8 (u8 ol - 1)) 2)) else tb in
  let tb := Z.lxor tb (u8 (il - 1)) in
  is_byte tb ∧ Z.land tb 128 = 128 ∧ (0 <? Z.land tb 64) = fin ∧ (0 <? Z.land tb 32) = dlp ∧
  (let o := Z.shiftr (Z.land tb 28) 2 in (if negb (o =? 0) then u8 (o + 1) else o) = ol) ∧
  u8 (Z.land tb 3 + 1) = il.
Proof.
  intros Ho Hi. assert (il = 1 ∨ il = 2 ∨ il = 3 ∨ il = 4) as [->|[->|[->| ->]]] by lia;
  assert (ol = 0 ∨ ol = 2 ∨ ol = 3 ∨ ol = 4 ∨ ol = 5 ∨ ol = 6 ∨ ol = 7 ∨ ol = 8)
    as [->|[->|[->|[->|[->|[->|[->| ->]]]]]]] by lia;
  destruct fin, dlp; vm_compute; repeat split; congruence.
Qed.

Lemma streamIDLength_spec f : is_u32 (StreamFrame.StreamID f) →
  1 <= StreamFrame.calculateStreamIDLength f <= 4 ∧
  StreamFrame.StreamID f < 256 ^ StreamFrame.calculateStreamIDLength f.
Proof.
  unfold StreamFrame.calculateStreamIDLength, is_u32. rewrite !Z.shiftl_1_l.
  repeat case_bool; lia.
Qed.

Lemma offsetLength_spec f : is_u64 (StreamFrame.Offset f) →
  (StreamFrame.getOffsetLength f = 0 ∨ 2 <= StreamFrame.getOffsetLength f <= 8) ∧
  StreamFrame.Offset f < 256 ^ StreamFrame.getOffsetLength f.
Proof.
  unfold StreamFrame.getOffsetLength, is_u64. rewrite !Z.shiftl_1_l.
  repeat case_bool; lia.
Qed.

Lemma reads_streamID bo `{!ByteOrderOk bo} n v : 1 <= n <= 4 → 0 <= v < 256 ^ n →
  reads any (StreamFrame.writeStreamID bo n v) (ReadUintN bo n) v n.
Proof.
  intros Hn Hv. apply (reads_uintN bo); [lia|done|].
  assert (n = 1 ∨ n = 2 ∨ n = 3 ∨ n = 4) as [->|[->|[->| ->]]] by lia; unfold StreamFrame.writeStreamID; cbn [Z.eqb Pos.eqb].
  - change (Z.to_nat 1) with 1%nat. rewrite enc_1 by zlia. unfold WriteByte. do 2 f_equal. zlia.
  - rewrite WriteUint16_enc, u16_id by zlia. done.
  - rewrite WriteUint24_enc, u32_id by zlia. case_bool; [lia|done].
  - rewrite WriteUint32_enc, u32_id by zlia. done.
Qed.

Lemma enc_0 bo `{!ByteOrderOk bo} v : enc (bo := bo) 0 v = [].
Proof. apply nil_length_inv, enc_length. Qed.

Lemma reads_offset bo `{!ByteOrderOk bo} n v : n = 0 ∨ 2 <= n <= 8 → 0 <= v < 256 ^ n →
  reads any (StreamFrame.writeOffset bo n v) (ReadUintN bo n) v n.
Proof.
  intros Hn Hv. apply (reads_uintN bo); [lia|done|].
  assert (n = 0 ∨ n = 2 ∨ n = 3 ∨ n = 4 ∨ n = 5 ∨ n = 6 ∨ n = 7 ∨ n = 8)
    as [->|[->|[->|[->|[->|[->|[->| ->]]]]]]] by lia; unfold StreamFrame.writeOffset; cbn [Z.eqb Pos.eqb].
  - change (Z.to_nat 0) with 0%nat. by rewrite enc_0.
  - rewrite WriteUint16_enc, u16_id by zlia. done.
  - rewrite WriteUint24_enc, u32_id by zlia. case_bool; [lia|done].
  - rewrite WriteUint32_enc, u32_id by zlia. done.
  - rewrite WriteUint40_enc. case_bool; [lia|done].
  - rewrite WriteUint48_enc. case_bool; [lia|done].
  - rewrite WriteUint56_enc. case_bool; [lia|done].
  - by rewrite WriteUint64_enc.
Qed.

(** The rest that a frame allows: a STREAM frame without a data length takes
    all of it. *)
Definition stream_rest (f : StreamFrame.StreamFrame) : list Z → Prop := λ r,
  StreamFrame.DataLenPresent f = false → r = [].

Lemma stream_data_reads d : Forall is_byte d → len d < 2 ^ 16 →
  reads any (WriteBytes d) (if negb (len d =? 0) then ReadFull (Z.to_nat (len d)) else mret []) d (len d).
Proof.
  intros Hd Hl. destruct (Z.eqb_spec (len d) 0) as [E|E]; simpl negb; cbv iota.
  - destruct d; [apply reads_nil|]. rewrite len_cons in E. pose proof (len_nonneg d). lia.
  - replace (Z.to_nat (len d)) with (length d) by (unfold len; lia). by apply reads_bytes.
Qed.

Lemma checkFrame_ok f r : valid_stream_frame f →
  StreamFrame.checkFrame f r = Ok (f, r) ∧
  StreamFrame.MkStreamFrame (u32 (StreamFrame.StreamID f)) (StreamFrame.FinBit f)
    (StreamFrame.DataLenPresent f) (StreamFrame.Offset f) (StreamFrame.Data f) = f.
Proof.
  intros (Hid & Hoff & Hdata & Hsum & Hfin & Hlen).
  pose proof (len_nonneg (StreamFrame.Data f)) as Hn. unfold is_u64 in Hoff. split.
  - unfold StreamFrame.checkFrame, StreamFrame.DataLen. rewrite (u64_id (len _)) by zlia. rewrite u64_id by zlia.
    destruct (Z.ltb_spec (StreamFrame.Offset f + len (StreamFrame.Data f)) (StreamFrame.Offset f)); [lia|]. destruct (StreamFrame.Data f) as [|b d]; [by rewrite Hfin|].
    rewrite len_cons in *. pose proof (len_nonneg d). case_bool; [lia|]. by rewrite andb_false_r.
  - rewrite u32_id by done. by destruct f.
Qed.

Lemma stream_frame_reads f version : valid_stream_frame f →
  reads (stream_rest f) (StreamFrame.Write f version) (StreamFrame.ParseStreamFrame version) f
    (1 + (StreamFrame.calculateStreamIDLength f + (StreamFrame.getOffsetLength f +
      ((if StreamFrame.DataLenPresent f then 2 else 0) + len (StreamFrame.Data f))))).
Proof.
  intros Hf. pose proof Hf as (Hid & Hoff & Hdata & Hsum & Hfin & Hlen).
  destruct (streamIDLength_spec f Hid) as [Hil Hid']. destruct (offsetLength_spec f Hoff) as [Hol Hoff'].
  destruct (stream_typeByte_fields _ _ (StreamFrame.FinBit f) (StreamFrame.DataLenPresent f) Hol Hil)
    as (Htb & _ & Hfb & Hd & Ho & Hi). fold (StreamFrame.typeByteOf f) in Htb, Hfb, Hd, Ho, Hi.
  pose proof (len_nonneg (StreamFrame.Data f)) as Hn.
  unfold StreamFrame.Write, StreamFrame.ParseStreamFrame.
  replace ((len (StreamFrame.Data f) =? 0) && negb (StreamFrame.FinBit f)) with false.
  2: { destruct (StreamFrame.Data f) as [|b d]; [by rewrite Hfin|]. rewrite len_cons in *.
       pose proof (len_nonneg d). case_bool; [lia|done]. }
  field; [by apply reads_byte|]. cbv zeta. rewrite Hfb, Hd, Ho, Hi.
  field; [by apply (reads_streamID (GetByteOrder version)); [|unfold is_u32 in Hid; lia]|].
  field; [by apply (reads_offset (GetByteOrder version)); [|unfold is_u64 in Hoff; lia]|].
  destruct (StreamFrame.DataLenPresent f) eqn:Edl.
  - unfold MaxPacketSize in Hlen. rewrite u16_id by (unfold is_u16; lia).
    field; [apply (reads_u16 (GetByteOrder version)); unfold is_u16; lia|].
    change (u16 MaxPacketSize) with 1350. destruct (Z.ltb_spec 1350 (len (StreamFrame.Data f))); [lia|].
    eapply reads_skip; [done|]. eapply reads_last.
    + eapply reads_weaken; [apply stream_data_reads; [done|lia]|done].
    + intros r. rewrite <- Edl. destruct (checkFrame_ok f r Hf) as [? ->]. done.
  - field; [apply reads_nil|]. change (u16 MaxPacketSize <? 0) with false. cbv iota.
    destruct (stream_data_reads (StreamFrame.Data f)) as (bs & Hw & Hl & Hb & Hp); [done|lia|].
    injection Hw as <-. exists (StreamFrame.Data f). split; [done|]. split; [done|]. split; [done|].
    intros r Hr HT. rewrite (HT Edl), app_nil_r.
    erewrite parser_bind_ok by done. erewrite parser_bind_ok.
    2: { unfold u16. rewrite Z.mod_small by lia. rewrite <- (app_nil_r (StreamFrame.Data f)) at 3. by apply Hp. }
    rewrite <- Edl. destruct (checkFrame_ok f [] Hf) as [? ->]. done.
Qed.

Ltac last_field := eapply reads_last; [eauto with parse typeclass_instances|intros ?; repeat match goal with x := _ |- _ => subst x end;
  try done; match goal with |- context [?g] => is_var g; by destruct g end].
Ltac widths := rewrite ?u32_id, ?u16_id by (unfold is_u16, is_u32 in *; lia).

Lemma rst_stream_reads f version :
  is_u32 (RstStreamFrame.StreamID f) → is_u32 (RstStreamFrame.ErrorCode f) →
  is_u64 (RstStreamFrame.ByteOffset f) →
  reads any (RstStreamFrame.Write f version) (RstStreamFrame.ParseRstStreamFrame version) f 17.
Proof.
  intros. unfold RstStreamFrame.Write, RstStreamFrame.ParseRstStreamFrame. widths.
  change 17 with (1 + (4 + (8 + 4))).
  field; [by apply reads_byte|]. field; [by apply reads_u32; [apply _|]|].
  field; [by apply reads_u64; [apply _|]|]. last_field.
Qed.

Lemma window_update_reads f version :
  is_u32 (WindowUpdateFrame.StreamID f) → is_u64 (WindowUpdateFrame.ByteOffset f) →
  reads any (WindowUpdateFrame.Write f version) (WindowUpdateFrame.ParseWindowUpdateFrame version) f 13.
Proof.
  intros. unfold WindowUpdateFrame.Write, WindowUpdateFrame.ParseWindowUpdateFrame.
  widths. change 13 with (1 + (4 + 8)).
  field; [by apply reads_byte|]. field; [by apply reads_u32; [apply _|]|]. last_field.
Qed.

Lemma blocked_reads f version : is_u32 (BlockedFrame.StreamID f) →
  reads any (BlockedFrame.Write f version) (BlockedFrame.ParseBlockedFrame version) f 5.
Proof.
  intros. unfold BlockedFrame.Write, BlockedFrame.ParseBlockedFrame. widths.
  replace 5 with (1 + 4) at 2 by lia. field; [by apply reads_byte|]. last_field.
Qed.

Lemma goaway_reads f version :
  is_u32 (GoawayFrame.ErrorCode f) → is_u32 (GoawayFrame.LastGoodStream f) →
  Forall is_byte (GoawayFrame.ReasonPhrase f) → len (GoawayFrame.ReasonPhrase f) <= MaxPacketSize →
  reads any (GoawayFrame.Write f version) (GoawayFrame.ParseGoawayFrame version) f
    (1 + (4 + (4 + (2 + len (GoawayFrame.ReasonPhrase f))))).
Proof.
  intros Hc Hs Hb Hl. unfold GoawayFrame.Write, GoawayFrame.ParseGoawayFrame. set (ph := GoawayFrame.ReasonPhrase f) in *.
  pose proof (len_nonneg ph). unfold MaxPacketSize in Hl. widths.
  field; [by apply reads_byte|]. field; [by apply reads_u32; [apply _|]|].
  field; [by apply reads_u32; [apply _|]|]. field; [apply reads_u16; [apply _|unfold is_u16; lia]|].
  change (u16 MaxPacketSize) with 1350. destruct (Z.ltb_spec 1350 (len ph)); [lia|].
  replace (Z.to_nat (len ph)) with (length ph) by (unfold len; lia). last_field.
Qed.

Lemma connection_close_reads f version :
  is_u32 (ConnectionCloseFrame.ErrorCode f) →
  Forall is_byte (ConnectionCloseFrame.ReasonPhrase f) →
  len (ConnectionCloseFrame.ReasonPhrase f) <= MaxPacketSize →
  reads any (ConnectionCloseFrame.Write f version) (ConnectionCloseFrame.ParseConnectionCloseFrame version) f
    (1 + (4 + (2 + len (ConnectionCloseFrame.ReasonPhrase f)))).
Proof.
  intros Hc Hb Hl.
  unfold ConnectionCloseFrame.Write, ConnectionCloseFrame.ParseConnectionCloseFrame.
  set (ph := ConnectionCloseFrame.ReasonPhrase f) in *.
  pose proof (len_nonneg ph). unfold MaxPacketSize in Hl. widths.
  destruct (Z.ltb_spec 65535 (len ph)); [lia|].
  field; [by apply reads_byte|]. field; [by apply reads_u32; [apply _|]|].
  field; [apply reads_u16; [apply _|unfold is_u16; lia]|].
  change (u16 MaxPacketSize) with 1350. destruct (Z.ltb_spec 1350 (len ph)); [lia|].
  replace (Z.to_nat (len ph)) with (length ph) by (unfold len; lia). last_field.
Qed.

(** What a STOP_WAITING frame needs: it is sent in the packet it was made for,
    and its distance fits the packet number length. *)
Definition valid_stop_waiting (f : StopWaitingFrame.StopWaitingFrame) (pn pnLen : Z) : Prop :=
  StopWaitingFrame.PacketNumber f = pn ∧ StopWaitingFrame.PacketNumberLen f = pnLen ∧
  valid_pn_len pnLen ∧ 1 <= StopWaitingFrame.LeastUnacked f <= pn ∧ pn < 2 ^ 64 ∧
  pn - StopWaitingFrame.LeastUnacked f < 2 ^ (8 * pnLen).

Lemma stop_waiting_reads f version pn pnLen : valid_stop_waiting f pn pnLen →
  reads any (StopWaitingFrame.Write f version) (StopWaitingFrame.ParseStopWaitingFrame pn pnLen version)
    (StopWaitingFrame.MkStopWaitingFrame (StopWaitingFrame.LeastUnacked f) 0 0) (1 + pnLen).
Proof.
  intros (<- & <- & Hn & Hlu & Hpn & Hd). set (bo := GetByteOrder version).
  unfold StopWaitingFrame.Write, StopWaitingFrame.ParseStopWaitingFrame. fold bo.
  destruct (Z.eqb_spec (StopWaitingFrame.PacketNumber f) 0); [lia|].
  destruct (Z.ltb_spec (StopWaitingFrame.PacketNumber f) (StopWaitingFrame.LeastUnacked f)); [lia|].
  field; [by apply reads_byte|].
  set (d := StopWaitingFrame.PacketNumber f - StopWaitingFrame.LeastUnacked f) in *.
  assert (u64 d = d) as -> by zlia.
  pose proof (writeNumber_enc bo true _ d Hn) as Hw. unfold ackRanges.writeNumber in Hw.
  eapply reads_last.
  - apply (reads_uintN bo _ _ d); [destruct Hn as [->|[->|[->| ->]]]; lia| |].
    + rewrite pow256_pow2 by (destruct Hn as [->|[->|[->| ->]]]; lia). unfold d in *; lia.
    + rewrite <- Hw by (unfold d in *; lia).
      by destruct Hn as [->|[->|[->| ->]]].
  - intros r. cbv beta. destruct (Z.leb_spec (StopWaitingFrame.PacketNumber f) d); [unfold d in *; lia|].
    unfold mret, parser_ret, d. do 3 f_equal. zlia.
Qed.

Lemma ping_reads f version : reads any (PingFrame.Write f version) (PingFrame.ParsePingFrame version) f 1.
Proof. destruct f. eapply reads_last; [by apply reads_byte|done]. Qed.

(** The address as the peer sees it: always in 16 bytes, without a zone. *)
Definition addr_image (f : AddAddressFrame.AddAddressFrame) : AddAddressFrame.AddAddressFrame :=
  AddAddressFrame.MkAddAddressFrame (AddAddressFrame.IPVersion f)
    (net.MkUDPAddr (default [] (net.To16 (net.IP (AddAddressFrame.Addr f))))
       (net.Port (AddAddressFrame.Addr f)) "").

Definition valid_add_address (f : AddAddressFrame.AddAddressFrame) : Prop :=
  Forall is_byte (net.IP (AddAddressFrame.Addr f)) ∧ is_u16 (net.Port (AddAddressFrame.Addr f)) ∧
  (AddAddressFrame.IPVersion f = 4 ∧ is_Some (net.To4 (net.IP (AddAddressFrame.Addr f))) ∨
   AddAddressFrame.IPVersion f = 6 ∧ is_Some (net.To16 (net.IP (AddAddressFrame.Addr f)))).

Lemma ip_reads ip : Forall is_byte ip →
  reads any (AddAddressFrame.writeIP ip (length ip)) (AddAddressFrame.readIP (length ip)) ip (len ip).
Proof.
  induction 1 as [|b ip Hb Hip IH]; [apply reads_nil|]. cbn [AddAddressFrame.writeIP AddAddressFrame.readIP length].
  rewrite len_cons. field; [by apply reads_byte|]. by eapply reads_last; [apply IH|].
Qed.

Lemma To4_To16 ip ip4 : net.To4 ip = Some ip4 → Forall is_byte ip →
  length ip4 = 4%nat ∧ Forall is_byte ip4 ∧ net.To16 ip = Some (net.v4InV6Prefix ++ ip4).
Proof.
  unfold net.To4, net.To16. destruct (Nat.eqb_spec (length ip) 4); [by intros [= <-] ?|].
  destruct (Nat.eqb_spec (length ip) 16) as [E|]; [|done]. rewrite andb_true_l. case_bool_decide as Hp; [|done].
  intros [= <-] Hb. split; [rewrite length_drop; lia|]. split; [by apply Forall_drop|].
  f_equal. rewrite <- Hp. symmetry. apply take_drop.
Qed.

Lemma add_address_reads f version : valid_add_address f →
  reads any (AddAddressFrame.Write f version) (AddAddressFrame.ParseAddAddressFrame version) (addr_image f)
    (if AddAddressFrame.IPVersion f =? 4 then 8 else 20).
Proof.
  destruct f as [v [ip port zone]]. unfold valid_add_address, addr_image, AddAddressFrame.Write,
    AddAddressFrame.ParseAddAddressFrame. cbn [AddAddressFrame.IPVersion AddAddressFrame.Addr net.IP net.Port].
  intros (Hb & Hp & Hv). rewrite u16_id by done. destruct Hv as [[-> [ip4 H4]]|[-> [ip16 H6]]].
  - rewrite H4. destruct (To4_To16 _ _ H4 Hb) as (Hl & Hb4 & ->). change (if 4 =? 4 then 8 else 20) with (1 + (1 + (4 + 2))).
    field; [by apply reads_byte|]. field; [by apply reads_byte|]. cbn [Z.eqb Pos.eqb].
    destruct ip4 as [|a [|b [|c [|d [|? ?]]]]]; try done.
    field; [|last_field]. simpl default. apply Forall_cons in Hb4 as [Ha Hb4]. apply Forall_cons in Hb4 as [Hb' Hb4].
    apply Forall_cons in Hb4 as [Hc Hb4]. apply Forall_cons in Hb4 as [Hd _].
    cbn [AddAddressFrame.writeIP]. change 4 with (1 + (1 + (1 + (1 + 0)))).
    do 3 (field; [by apply reads_byte|]). rewrite Z.add_0_r.
    replace (WriteByte d ;;; Ok []) with (WriteByte d) by done. by eapply reads_last; [apply reads_byte|].
  - rewrite H6. change (if 6 =? 4 then 8 else 20) with (1 + (1 + (16 + 2))).
    field; [by apply reads_byte|]. field; [by apply reads_byte|]. cbn [Z.eqb Pos.eqb].
    assert (length ip16 = 16%nat ∧ Forall is_byte ip16) as [Hl Hb6].
    { unfold net.To16 in H6. destruct (Nat.eqb_spec (length ip) 4) as [E|]; [injection H6 as <-|].
      - split; [cbn [length app net.v4InV6Prefix]; lia|].
        repeat (constructor; [unfold is_byte; lia|]). done.
      - destruct (Nat.eqb_spec (length ip) 16); [|done]. by injection H6 as <-. }
    pose proof (ip_reads ip16 Hb6) as Hr. unfold len in Hr. rewrite Hl in Hr.
    field; [exact Hr|]. last_field.
Qed.

(** The path frame as the peer sees it. *)
Definition paths_image (f : PathsFrame.PathsFrame) : PathsFrame.PathsFrame :=
  PathsFrame.MkPathsFrame (PathsFrame.MaxNumPaths f) (PathsFrame.NumPaths f) (PathsFrame.PathIDs f)
    ((λ rtt, i64 (i64 (float16.decode (float16.encode (u64 (Z.quot rtt time.Microsecond)))) * time.Microsecond))
       <$> PathsFrame.RemoteRTTs f).

Definition valid_paths (f : PathsFrame.PathsFrame) : Prop :=
  PathsFrame.NumPaths f <= PathsFrame.MaxNumPaths f ∧ is_u8 (PathsFrame.MaxNumPaths f) ∧
  Forall is_byte (PathsFrame.PathIDs f) ∧
  len (PathsFrame.PathIDs f) = PathsFrame.NumPaths f ∧ len (PathsFrame.RemoteRTTs f) = PathsFrame.NumPaths f.

Lemma paths_loop_reads bo `{!ByteOrderOk bo} ids rtts : Forall is_byte ids → length ids = length rtts →
  reads any (PathsFrame.writePaths bo ids rtts) (PathsFrame.parsePaths bo (length ids))
    (ids, (λ rtt, i64 (i64 (float16.decode (float16.encode (u64 (Z.quot rtt time.Microsecond)))) * time.Microsecond))
       <$> rtts) (3 * len ids).
Proof.
  intros Hids. revert rtts. induction Hids as [|p ids Hp Hids IH]; intros [|rtt rtts] Hl; try done.
  - apply reads_nil.
  - cbn [PathsFrame.writePaths PathsFrame.parsePaths length]. rewrite u8_id by done. rewrite len_cons.
    replace (3 * (1 + len ids)) with (1 + (2 + 3 * len ids)) by lia.
    field; [by apply reads_byte|]. field; [by apply reads_ufloat16|].
    eapply reads_last; [apply IH; simpl in Hl; lia|]. done.
Qed.

Lemma paths_reads f version : valid_paths f →
  reads any (PathsFrame.Write f version) (PathsFrame.ParsePathsFrame version) (paths_image f)
    (3 + 3 * PathsFrame.NumPaths f).
Proof.
  destruct f as [mx n ids rtts]. unfold valid_paths, paths_image, PathsFrame.Write, PathsFrame.ParsePathsFrame.
  cbn [PathsFrame.MaxNumPaths PathsFrame.NumPaths PathsFrame.PathIDs PathsFrame.RemoteRTTs].
  intros (Hn & Hmx & Hids & Hl1 & Hl2). unfold is_u8 in Hmx. pose proof (len_nonneg ids).
  rewrite Hl1, Hl2, Z.eqb_refl. simpl negb. cbv iota.
  replace (3 + 3 * n) with (1 + (1 + (1 + 3 * n))) by lia.
  field; [by apply reads_byte|]. field; [apply reads_byte; unfold is_byte; lia|].
  field; [apply reads_byte; unfold is_byte; lia|]. destruct (Z.ltb_spec mx n); [lia|].
  replace (Z.to_nat n) with (length ids) by (unfold len in *; lia).
  eapply reads_last.
  - replace (3 * n) with (3 * len ids) by lia.
    apply paths_loop_reads; [apply _|done|unfold len in *; lia].
  - done.
Qed.

End roundtrips.

(** ** Frames and payloads *)
Section payload.
Import protocol packetUnpacker.
Context (version now pn pnLen : Z) (level : EncryptionLevel).

(** The frames that may be put into a packet with number [pn], written with
    [pnLen] bytes, at encryption level [level]. *)
Definition valid_frame (f : Frame) : Prop :=
  match f with
  | FStream f => valid_stream_frame f ∧
      (StreamFrame.StreamID f = 1 ∨ encryption_rank EncryptionUnencrypted < encryption_rank level)
  | FAck f => valid_ack_frame f ∧ first_gap_fits (AckFrame.AckRanges f)
  | FRstStream f => is_u32 (RstStreamFrame.StreamID f) ∧ is_u32 (RstStreamFrame.ErrorCode f) ∧
      is_u64 (RstStreamFrame.ByteOffset f)
  | FConnectionClose f => is_u32 (ConnectionCloseFrame.ErrorCode f) ∧
      Forall is_byte (ConnectionCloseFrame.ReasonPhrase f) ∧
      len (ConnectionCloseFrame.ReasonPhrase f) <= MaxPacketSize
  | FGoaway f => is_u32 (GoawayFrame.ErrorCode f) ∧ is_u32 (GoawayFrame.LastGoodStream f) ∧
      Forall is_byte (GoawayFrame.ReasonPhrase f) ∧ len (GoawayFrame.ReasonPhrase f) <= MaxPacketSize
  | FWindowUpdate f => is_u32 (WindowUpdateFrame.StreamID f) ∧ is_u64 (WindowUpdateFrame.ByteOffset f)
  | FBlocked f => is_u32 (BlockedFrame.StreamID f)
  | FStopWaiting f => valid_stop_waiting f pn pnLen
  | FPing _ => True
  | FAddAddress f => valid_add_address f
  | FClosePath f => valid_close_path_frame f ∧ first_gap_fits (ClosePathFrame.AckRanges f)
  | FPaths f => valid_paths f ∧ PathsFrame.NumPaths f < 85
  end.

(** The frame as the peer sees it. *)
Definition frame_image (f : Frame) : Frame :=
  match f with
  | FAck f => FAck (ack_image f now)
  | FStopWaiting f => FStopWaiting (StopWaitingFrame.MkStopWaitingFrame (StopWaitingFrame.LeastUnacked f) 0 0)
  | FAddAddress f => FAddAddress (addr_image f)
  | FClosePath f => FClosePath (close_path_image f)
  | FPaths f => FPaths (paths_image f)
  | f => f
  end.

(** Only a STREAM frame without data length constrains what follows it. *)
Definition frame_rest (f : Frame) : list Z → Prop :=
  match f with FStream f => stream_rest f | _ => any end.

(** MinLength does not count the data of a STREAM frame. *)
Definition frame_data_len (f : Frame) : Z :=
  match f with FStream f => len (StreamFrame.Data f) | _ => 0 end.

(** A type byte that selects the frame's own parser in the unpacker. *)
Definition selects (tb : Z) (f : Frame) : Prop :=
  tb ≠ 0 ∧
  match f with
  | FStream _ => Z.land tb 128 = 128
  | FAck _ => Z.land tb 128 = 0 ∧ Z.land tb 192 = 64
  | FRstStream _ => tb = 1 | FConnectionClose _ => tb = 2 | FGoaway _ => tb = 3
  | FWindowUpdate _ => tb = 4 | FBlocked _ => tb = 5 | FStopWaiting _ => tb = 6
  | FPing _ => tb = 7 | FAddAddress _ => tb = 16 | FClosePath _ => tb = 17 | FPaths _ => tb = 18
  end.

Lemma wseq_head b w bs : is_byte b → (WriteByte b ;;; w) = Ok bs → ∃ bs', bs = b :: bs'.
Proof.
  intros Hb. unfold wseq, WriteByte, mbind, outcome_bind. rewrite u8_id by done.
  destruct w as [bs'| |]; [|done|done]. intros [= <-]. by exists bs'.
Qed.

Lemma written_head f bs : valid_frame f → frame.Write f version now = Ok bs →
  ∃ tb bs', bs = tb :: bs' ∧ selects tb f.
Proof.
  intros Hv Hw.
  assert (∀ b (w : outcome (list Z)), frame.Write f version now = (WriteByte b ;;; w) → is_byte b → selects b f →
    ∃ tb bs', bs = tb :: bs' ∧ selects tb f) as Hh.
  { intros b w E Hb Hs. rewrite E in Hw. destruct (wseq_head _ _ _ Hb Hw) as [bs' ->]. eauto. }
  destruct f as [f|f|f|f|f|f|f|f|f|f|f|f]; try (eapply Hh; [reflexivity|done|by split]).
  - destruct Hv as [(Hid & Hoff & _ & _ & Hfin & _) _].
    destruct (streamIDLength_spec f Hid) as [Hil _]. destruct (offsetLength_spec f Hoff) as [Hol _].
    destruct (stream_typeByte_fields _ _ (StreamFrame.FinBit f) (StreamFrame.DataLenPresent f) Hol Hil)
      as (Htb & H128 & _). fold (StreamFrame.typeByteOf f) in Htb, H128.
    cbn [frame.Write] in Hw. unfold StreamFrame.Write in Hw. destruct (_ && _); [done|].
    destruct (wseq_head _ _ _ Htb Hw) as [bs' ->]. exists (StreamFrame.typeByteOf f), bs'.
    split; [done|]. split; [|done]. intros E. by rewrite E in H128.
  - destruct Hv as [Hv _]. pose proof Hv as (_ & Hva & Hn). destruct (deltaLen_spec _ _ _ Hva Hn) as [Hd _].
    destruct (GetPacketNumberLength_spec (AckFrame.LargestAcked f)) as [Hl _]; [apply Hva|].
    destruct (typeByte_fields _ _ (ackRanges.HasMissingRanges (AckFrame.AckRanges f))
      (negb (AckFrame.PathID f =? InitialPathID)) Hl Hd) as (Hu & _ & _ & _ & _ & H128 & H192).
    fold (AckFrame.typeByteOf f) in Hu, H128, H192.
    assert (is_byte (AckFrame.typeByteOf f)) by (rewrite <- Hu; apply u8_range).
    apply (Hh (AckFrame.typeByteOf f) _ eq_refl); [done|]. split; [|done].
    intros E. by rewrite E in H192.
  - cbn [frame.Write] in Hw. unfold StopWaitingFrame.Write in Hw. repeat (destruct (_ : bool); [done|]).
    destruct (wseq_head 6 _ _ ltac:(unfold is_byte; lia) Hw) as [bs' ->]. exists 6, bs'. by repeat split.
  - apply (Hh 7 (Ok []) eq_refl); [done|by split].
Qed.

Lemma wrapErr_ok {A} n (p : Parser A) r a r' : p r = Ok (a, r') → wrapErr n p r = Ok (a, r').
Proof. intros H. unfold wrapErr. by rewrite H. Qed.

Lemma reads_ack f : valid_ack_frame f → first_gap_fits (AckFrame.AckRanges f) → ∃ n,
  AckFrame.MinLength f version = Ok n ∧
  reads any (AckFrame.Write f version now).2 (AckFrame.ParseAckFrame version) (ack_image f now) n.
Proof.
  intros Hv Hg. destruct (ack_bytes_roundtrip f version now Hv Hg) as (bs & ? & ? & ? & ?).
  exists (len bs). split; [done|]. exists bs. auto.
Qed.

Lemma reads_close_path f : valid_close_path_frame f → first_gap_fits (ClosePathFrame.AckRanges f) → ∃ n,
  ClosePathFrame.MinLength f version = Ok n ∧
  reads any (ClosePathFrame.Write f version) (ClosePathFrame.ParseClosePathFrame version) (close_path_image f) n.
Proof.
  intros Hv Hg. destruct (close_path_bytes_roundtrip f version Hv Hg) as (bs & ? & ? & ? & ?).
  exists (len bs). split; [done|]. exists bs. auto.
Qed.

(** Writing a frame and reading it with the parser its type byte selects. *)
Lemma frame_reads f : valid_frame f → ∃ bs tb bs' n,
  frame.Write f version now = Ok bs ∧ bs = tb :: bs' ∧ tb ≠ 0 ∧ Forall is_byte bs ∧
  frame.MinLength f version = Ok n ∧ len bs = n + frame_data_len f ∧
  ∀ r, Forall is_byte r → frame_rest f r →
    parseFrame version pn pnLen level tb (bs ++ r) = Ok (frame_image f, r).
Proof.
  intros Hv.
  assert (∀ {A} (p : Parser A) (img : A) n,
    reads (frame_rest f) (frame.Write f version now) p img (n + frame_data_len f) →
    frame.MinLength f version = Ok n →
    (∀ tb r r', selects tb f → p r = Ok (img, r') → parseFrame version pn pnLen level tb r = Ok (frame_image f, r')) →
    ∃ bs tb bs' n, frame.Write f version now = Ok bs ∧ bs = tb :: bs' ∧ tb ≠ 0 ∧ Forall is_byte bs ∧
      frame.MinLength f version = Ok n ∧ len bs = n + frame_data_len f ∧
      ∀ r, Forall is_byte r → frame_rest f r →
        parseFrame version pn pnLen level tb (bs ++ r) = Ok (frame_image f, r)) as Hgen.
  { intros A p img n (bs & Hw & Hl & Hb & Hp) Hmin Hsel.
    destruct (written_head f bs Hv Hw) as (tb & bs' & E & Hs). exists bs, tb, bs', n.
    split; [done|]. split; [done|]. split; [apply Hs|]. split; [done|]. split; [done|]. split; [done|].
    intros r Hr HT. apply Hsel; [done|]. by apply Hp. }
  destruct f as [f|f|f|f|f|f|f|f|f|f|f|f]; cbn [valid_frame frame_rest frame_data_len frame.Write frame.MinLength] in *.
  - destruct Hv as [Hf Hlev]. pose proof (stream_frame_reads f version Hf) as Hr.
    destruct Hf as (Hid & Hoff & _ & _ & _ & _).
    destruct (streamIDLength_spec f Hid) as [Hil _]. destruct (offsetLength_spec f Hoff) as [Hol _].
    eapply (Hgen _ _ f (1 + StreamFrame.calculateStreamIDLength f + StreamFrame.getOffsetLength f +
      if StreamFrame.DataLenPresent f then 2 else 0)).
    + eapply reads_eq; [exact Hr|done|done|lia].
    + unfold StreamFrame.MinLength. f_equal. destruct (StreamFrame.DataLenPresent f); zlia.
    + intros tb r r' [_ H128] Hp. unfold parseFrame. rewrite H128. cbn [Z.eqb Pos.eqb].
      erewrite parser_bind_ok by by apply wrapErr_ok.
      replace (negb _ && _) with false; [done|]. symmetry. destruct Hlev as [->|Hlev]; [done|].
      destruct (Z.leb_spec (encryption_rank level) (encryption_rank EncryptionUnencrypted)); [lia|].
      apply andb_false_r.
  - destruct Hv as [Hf Hg]. destruct (reads_ack f Hf Hg) as (n & Hmin & Hr).
    eapply (Hgen _ _ (ack_image f now) n); [by rewrite Z.add_0_r|done|].
    intros tb r r' [_ [H128 H192]] Hp. unfold parseFrame. rewrite H128, H192.
    exact (parser_fmap_ok FAck _ _ _ _ (wrapErr_ok _ _ _ _ _ Hp)).
  - destruct Hv as (? & ? & ?). eapply (Hgen _ _ f 17); [by apply rst_stream_reads|done|].
    intros tb r r' [_ ->] Hp. exact (parser_fmap_ok FRstStream _ _ _ _ (wrapErr_ok _ _ _ _ _ Hp)).
  - destruct Hv as (? & ? & Hl). unfold MaxPacketSize in *. pose proof (len_nonneg (ConnectionCloseFrame.ReasonPhrase f)).
    eapply (Hgen _ _ f (1 + (4 + (2 + len (ConnectionCloseFrame.ReasonPhrase f)))));
      [rewrite Z.add_0_r; by apply connection_close_reads|unfold ConnectionCloseFrame.MinLength; f_equal; zlia|].
    intros tb r r' [_ ->] Hp. exact (parser_fmap_ok FConnectionClose _ _ _ _ (wrapErr_ok _ _ _ _ _ Hp)).
  - destruct Hv as (? & ? & ? & Hl). unfold MaxPacketSize in *. pose proof (len_nonneg (GoawayFrame.ReasonPhrase f)).
    eapply (Hgen _ _ f (1 + (4 + (4 + (2 + len (GoawayFrame.ReasonPhrase f))))));
      [rewrite Z.add_0_r; by apply goaway_reads|unfold GoawayFrame.MinLength; f_equal; zlia|].
    intros tb r r' [_ ->] Hp. exact (parser_fmap_ok FGoaway _ _ _ _ (wrapErr_ok _ _ _ _ _ Hp)).
  - destruct Hv as (? & ?). eapply (Hgen _ _ f 13); [by apply window_update_reads|done|].
    intros tb r r' [_ ->] Hp. exact (parser_fmap_ok FWindowUpdate _ _ _ _ (wrapErr_ok _ _ _ _ _ Hp)).
  - eapply (Hgen _ _ f 5); [by apply blocked_reads|done|].
    intros tb r r' [_ ->] Hp. exact (parser_fmap_ok FBlocked _ _ _ _ (wrapErr_ok _ _ _ _ _ Hp)).
  - pose proof Hv as (_ & Hl & Hn & _). eapply (Hgen _ _ _ (1 + pnLen));
      [rewrite Z.add_0_r; by apply stop_waiting_reads| |].
    { unfold StopWaitingFrame.MinLength. rewrite Hl. by destruct Hn as [->|[->|[->| ->]]]. }
    intros tb r r' [_ ->] Hp. exact (parser_fmap_ok FStopWaiting _ _ _ _ (wrapErr_ok _ _ _ _ _ Hp)).
  - eapply (Hgen _ _ f 1); [by apply ping_reads|done|].
    intros tb r r' [_ ->] Hp. exact (parser_fmap_ok FPing _ _ _ _ Hp).
  - eapply (Hgen _ _ _ (if AddAddressFrame.IPVersion f =? 4 then 8 else 20));
      [rewrite Z.add_0_r; by apply add_address_reads| |].
    { unfold AddAddressFrame.MinLength. by destruct Hv as (_ & _ & [[-> _]|[-> _]]). }
    intros tb r r' [_ ->] Hp. exact (parser_fmap_ok FAddAddress _ _ _ _ Hp).
  - destruct Hv as [Hf Hg]. destruct (reads_close_path f Hf Hg) as (n & Hmin & Hr).
    eapply (Hgen _ _ _ n); [by rewrite Z.add_0_r|done|].
    intros tb r r' [_ ->] Hp. exact (parser_fmap_ok FClosePath _ _ _ _ Hp).
  - destruct Hv as [Hv H85]. pose proof Hv as (_ & _ & _ & Hn & _).
    pose proof (len_nonneg (PathsFrame.PathIDs f)).
    eapply (Hgen _ _ _ (3 + 3 * PathsFrame.NumPaths f)); [rewrite Z.add_0_r; by apply paths_reads| |].
    { unfold PathsFrame.MinLength. f_equal. zlia. }
    intros tb r r' [_ ->] Hp. exact (parser_fmap_ok FPaths _ _ _ _ Hp).
Qed.

(** The frames of a packet, one after the other. *)
Fixpoint writeFrames (fs : list Frame) : outcome (list Z) :=
  match fs with
  | [] => Ok []
  | f :: fs' => frame.Write f version now ;;; writeFrames fs'
  end.

(** Only the last frame may be a STREAM frame without a data length. *)
Fixpoint valid_payload (fs : list Frame) : Prop :=
  match fs with
  | [] => True
  | f :: fs' => valid_frame f ∧ (fs' ≠ [] → ∀ r, frame_rest f r) ∧ valid_payload fs'
  end.

Lemma payload_reads fs : valid_payload fs → ∃ bs,
  writeFrames fs = Ok bs ∧ Forall is_byte bs ∧ (fs ≠ [] → bs ≠ []) ∧
  ∀ fuel, (length bs <= fuel)%nat →
    readFrames version pn pnLen level fuel bs = Some (Ok (frame_image <$> fs)).
Proof.
  induction fs as [|f fs IH]; intros Hv.
  - exists []. split; [done|]. split; [constructor|]. split; [done|]. by intros [|fuel].
  - destruct Hv as (Hf & Hrest & Hv). destruct (IH Hv) as (bs & Hw & Hb & Hne & Hread).
    destruct (frame_reads f Hf) as (fb & tb & fb' & n & Hfw & E & Htb & Hfb & _ & _ & Hp).
    exists (fb ++ bs). cbn [writeFrames]. split; [by rewrite Hfw, Hw|]. split; [by apply Forall_app|].
    split; [by rewrite E|]. intros fuel Hfuel. subst fb. destruct fuel as [|fuel]; [simpl in Hfuel; lia|].
    specialize (Hp bs Hb). cbn [app readFrames] in *. destruct (Z.eqb_spec tb 0); [done|].
    rewrite Hp.
    + rewrite Hread; [done|]. simpl in Hfuel. rewrite length_app in Hfuel. lia.
    + destruct fs as [|f' fs]; [|by apply Hrest]. injection Hw as <-.
      destruct f; [|done..]. by intros _.
Qed.

(** C30: for every list of valid frames (of which only the last may be a STREAM
    frame without a data length), the packet payload made of them is written
    without an error and the unpacker of the peer returns exactly the images of
    these frames, in order, with the encryption level of the AEAD. *)
Theorem payload_roundtrip Open hdr data fs :
  valid_payload fs → fs ≠ [] →
  ∃ bs, writeFrames fs = Ok bs ∧ Forall is_byte bs ∧
    (Open data pn hdr = Some (bs, level) →
     Unpack Open version hdr pn pnLen data = Some (Ok (level, frame_image <$> fs))).
Proof.
  intros Hv Hne. destruct (payload_reads fs Hv) as (bs & Hw & Hb & Hbs & Hread).
  exists bs. split; [done|]. split; [done|]. intros HO. unfold Unpack. rewrite HO.
  destruct (Z.eqb_spec (len bs) 0) as [E|E].
  - destruct bs as [|b bs]; [by destruct Hbs|]. rewrite len_cons in E. pose proof (len_nonneg bs). lia.
  - by rewrite Hread.
Qed.

(** For every frame, [MinLength] is the number of bytes that Write produces
    (without the data of a STREAM frame, which it does not count). *)
Theorem MinLength_exact f : valid_frame f →
  ∃ bs n, frame.Write f version now = Ok bs ∧ frame.MinLength f version = Ok n ∧
    len bs = n + frame_data_len f.
Proof. intros Hf. destruct (frame_reads f Hf) as (bs & tb & bs' & n & ? & _ & _ & _ & ? & ? & _). eauto. Qed.

End payload.

Lemma payload_roundtrip_witness :
  let fs := [FPing PingFrame.MkPingFrame;
             FStream (StreamFrame.MkStreamFrame 5 false true 70000 [1; 2; 3]);
             FStopWaiting (StopWaitingFrame.MkStopWaitingFrame 7 2 20);
             FStream (StreamFrame.MkStreamFrame 7 true false 0 [9])] in
  ∃ bs, writeFrames 39 0 fs = Ok bs ∧ Forall is_byte bs ∧
    (Some (bs, protocol.EncryptionSecure) = Some (bs, protocol.EncryptionSecure) →
     packetUnpacker.Unpack (λ _ _ _, Some (bs, protocol.EncryptionSecure)) 39 [] 20 2 []
     = Some (Ok (protocol.EncryptionSecure, frame_image 0 <$> fs))).
Proof.
  intros fs.
  assert (valid_payload 20 2 protocol.EncryptionSecure fs) as Hv.
  { repeat split; simpl; try (unfold protocol.MaxPacketSize; lia); try done;
      try (unfold is_u32, is_u64; simpl; lia); try (repeat constructor; unfold is_byte; lia);
      try (right; vm_compute; reflexivity); try by right; left. }
  destruct (payload_roundtrip 39 0 20 2 protocol.EncryptionSecure (λ _ _ _, None) [] [] fs Hv) as (bs & Hw & Hb & _);
    [done|].
  exists bs. split; [exact Hw|]. split; [exact Hb|]. intros HO.
  destruct (payload_roundtrip 39 0 20 2 protocol.EncryptionSecure
    (λ _ _ _, Some (bs, protocol.EncryptionSecure)) [] [] fs Hv) as (bs' & Hw' & _ & Hu); [done|].
  assert (bs' = bs) as E by congruence. subst bs'. exact (Hu HO).
Defined.

Lemma MinLength_exact_witness :
  ∃ bs n, frame.Write (FWindowUpdate (WindowUpdateFrame.MkWindowUpdateFrame 5 1000)) 39 0 = Ok bs ∧
    frame.MinLength (FWindowUpdate (WindowUpdateFrame.MkWindowUpdateFrame 5 1000)) 39 = Ok n ∧ len bs = n + 0.
Proof.
  apply (MinLength_exact 39 0 1 1 protocol.EncryptionSecure).
  split; unfold is_u32, is_u64; simpl; lia.
Defined.

(** The exception: [MinLength] of a PATHS frame is computed in 8 bits, so for
    85 paths or more it is smaller than what is written. *)
Theorem paths_MinLength_wraps f version : valid_paths f → 85 <= PathsFrame.NumPaths f →
  ∃ bs n, PathsFrame.Write f version = Ok bs ∧ PathsFrame.MinLength f version = Ok n ∧ n < len bs.
Proof.
  intros Hv Hn. destruct (paths_reads f version Hv) as (bs & Hw & Hl & _).
  exists bs, (u8 (3 + 3 * PathsFrame.NumPaths f)). split; [done|].
  split; [unfold PathsFrame.MinLength; f_equal; zlia|]. zlia.
Qed.

Lemma paths_MinLength_wraps_witness :
  ∃ bs n, PathsFrame.Write (PathsFrame.MkPathsFrame 255 90 (replicate 90 1) (replicate 90 0)) 39 = Ok bs ∧
    PathsFrame.MinLength (PathsFrame.MkPathsFrame 255 90 (replicate 90 1) (replicate 90 0)) 39 = Ok n ∧ n < len bs.
Proof.
  apply paths_MinLength_wraps; [|simpl; lia]. split; [simpl; lia|]. split; [vm_compute; split; congruence|].
  split; [apply Forall_replicate; unfold is_byte; lia|]. split; reflexivity.
Defined.

(** ** What the unpacker accepts *)
Section accepted.
Import protocol packetUnpacker.

Lemma parses1_wrapErr {A} n (p : Parser A) Q : parses1 p Q → parses1 (wrapErr n p) Q.
Proof. intros Hp r Hr. specialize (Hp r Hr). unfold wrapErr. by destruct (p r) as [[a r']| |]. Qed.

(** A stream frame from the wire. *)
Definition accepted_stream (f : StreamFrame.StreamFrame) : Prop :=
  is_u32 (StreamFrame.StreamID f) ∧ is_u64 (StreamFrame.Offset f) ∧
  Forall is_byte (StreamFrame.Data f) ∧ len (StreamFrame.Data f) < 2 ^ 16 ∧
  StreamFrame.Offset f + len (StreamFrame.Data f) < 2 ^ 64 ∧
  (StreamFrame.Data f = [] → StreamFrame.FinBit f = true).

Definition accepted_frame (pn : Z) (level : EncryptionLevel) (f : Frame) : Prop :=
  match f with
  | FStream f => accepted_stream f ∧
      (StreamFrame.StreamID f = 1 ∨ encryption_rank EncryptionUnencrypted < encryption_rank level)
  | FAck f => is_u8 (AckFrame.PathID f) ∧
      valid_acks (AckFrame.LargestAcked f) (AckFrame.LowestAcked f) (AckFrame.AckRanges f)
  | FRstStream f => is_u32 (RstStreamFrame.StreamID f) ∧ is_u32 (RstStreamFrame.ErrorCode f) ∧
      is_u64 (RstStreamFrame.ByteOffset f)
  | FConnectionClose f => is_u32 (ConnectionCloseFrame.ErrorCode f) ∧
      len (ConnectionCloseFrame.ReasonPhrase f) <= MaxPacketSize
  | FGoaway f => is_u32 (GoawayFrame.ErrorCode f) ∧ is_u32 (GoawayFrame.LastGoodStream f) ∧
      len (GoawayFrame.ReasonPhrase f) <= MaxPacketSize
  | FWindowUpdate f => is_u32 (WindowUpdateFrame.StreamID f) ∧ is_u64 (WindowUpdateFrame.ByteOffset f)
  | FBlocked f => is_u32 (BlockedFrame.StreamID f)
  | FStopWaiting f => 1 <= StopWaitingFrame.LeastUnacked f <= pn
  | FPing _ => True
  | FAddAddress f => length (net.IP (AddAddressFrame.Addr f)) = 16%nat ∧
      is_u16 (net.Port (AddAddressFrame.Addr f)) ∧
      (AddAddressFrame.IPVersion f = 4 ∨ AddAddressFrame.IPVersion f = 6)
  | FClosePath f => is_u8 (ClosePathFrame.PathID f) ∧
      valid_acks (ClosePathFrame.LargestAcked f) (ClosePathFrame.LowestAcked f) (ClosePathFrame.AckRanges f)
  | FPaths f => PathsFrame.NumPaths f <= PathsFrame.MaxNumPaths f ∧
      len (PathsFrame.PathIDs f) = PathsFrame.NumPaths f ∧ len (PathsFrame.RemoteRTTs f) = PathsFrame.NumPaths f
  end.

Lemma ParseStreamFrame_safe version : parses1 (StreamFrame.ParseStreamFrame version) accepted_stream.
Proof.
  unfold StreamFrame.ParseStreamFrame. apply parses1_byte. intros tb Htb. cbv zeta.
  assert (0 <= u8 (Z.land tb 3 + 1) <= 8) as H1.
  { change 3 with (Z.ones 2). rewrite Z.land_ones by lia. zlia. }
  eapply parses_bind; [exact (parses_ReadUintN _ _ H1)|]. intros sid _.
  set (ol := Z.shiftr (Z.land tb 28) 2). assert (0 <= ol <= 7) as Hol.
  { unfold ol. rewrite Z.shiftr_land. change (Z.shiftr 28 2) with (Z.ones 3). rewrite Z.land_ones by lia. lia. }
  assert (0 <= (if negb (ol =? 0) then u8 (ol + 1) else ol) <= 8) as H2
    by (destruct (negb _); zlia).
  eapply parses_bind; [exact (parses_ReadUintN _ _ H2)|]. cbv beta. intros off Hoff.
  assert (is_u64 off) as Hoff64.
  { unfold is_u64. assert (256 ^ (if negb (ol =? 0) then u8 (ol + 1) else ol) <= 256 ^ 8)
      by (apply Z.pow_le_mono_r; lia). lia. }
  eapply parses_bind with (λ n, is_u16 n); [repeat parse_step; done|]. intros n Hn.
  parse_step; [parse_step|].
  eapply parses_bind with (λ n, is_u16 n);
    [repeat parse_step; apply u16_range|]. intros dl Hdl.
  eapply parses_bind with (λ d, len d = dl ∧ Forall is_byte d).
  { parse_step.
    - eapply parses_mono; [apply parses_ReadFull|]. intros d [? ?]. split; [unfold len; zlia|done].
    - apply parses_ret. split; [unfold len; simpl; lia|constructor]. }
  intros d [Hl Hd]. unfold StreamFrame.checkFrame. parse_step; [parse_step|]. parse_step; [parse_step|].
  apply parses_ret. unfold accepted_stream, StreamFrame.DataLen in *.
  cbn [StreamFrame.StreamID StreamFrame.Offset StreamFrame.Data StreamFrame.FinBit] in *.
  split; [apply u32_range|]. split; [done|]. split; [done|]. unfold is_u16, is_u64 in *.
  split; [lia|]. split; [zlia|]. intros ->. simpl in *. by destruct (0 <? Z.land tb 64).
Qed.

Lemma parsePaths_safe bo `{!ByteOrderOk bo} k :
  parses (PathsFrame.parsePaths bo k) (λ res, length res.1 = k ∧ length res.2 = k).
Proof.
  induction k as [|k IH]; [by apply parses_ret|]. cbn [PathsFrame.parsePaths].
  parse_step. parse_step. eapply parses_bind; [exact IH|]. intros [ids rtts] [? ?].
  apply parses_ret. simpl in *. lia.
Qed.

Lemma readIP_safe k : parses (AddAddressFrame.readIP k) (λ ip, length ip = k).
Proof.
  induction k as [|k IH]; [by apply parses_ret|]. cbn [AddAddressFrame.readIP].
  parse_step. eapply parses_bind; [exact IH|]. cbv beta. intros ip ?. apply parses_ret. simpl. lia.
Qed.

Lemma parseFrame_safe version pn pnLen level tb : 0 <= pnLen <= 8 → pn < 2 ^ 64 →
  parses1 (parseFrame version pn pnLen level tb) (accepted_frame pn level).
Proof.
  intros Hpl Hpn. unfold parseFrame.
  assert (∀ e, parses1 (@throw Frame e) (accepted_frame pn level)) as Ht by (intros e r _; done).
  destruct (_ =? 128).
  { eapply parses1_check; [apply parses1_wrapErr, ParseStreamFrame_safe|]. intros f r Hf. cbv beta.
    destruct (negb _ && _) eqn:E; [done|]. split; [|done]. split; [done|].
    destruct (Z.eqb_spec (StreamFrame.StreamID f) 1); [by left|right].
    by destruct (Z.leb_spec (encryption_rank level) (encryption_rank EncryptionUnencrypted)). }
  destruct (_ =? 64).
  { eapply parses1_fmap; [apply parses1_wrapErr, ParseAckFrame_safe|]. by intros f ?. }
  destruct (_ =? 32); [done|].
  destruct (_ =? 1).
  { eapply parses1_fmap; [apply parses1_wrapErr|]. 2: { intros f Hf. exact Hf. }
    apply parses1_byte. intros. repeat parse_step; done. }
  destruct (_ =? 2).
  { eapply parses1_fmap; [apply parses1_wrapErr|]. 2: { intros f Hf. exact Hf. }
    apply parses1_byte. intros. parse_step. parse_step. parse_step; [parse_step|]. parse_step. apply parses_ret.
    split; [done|]. cbn [ConnectionCloseFrame.ReasonPhrase]. unfold len, is_u16, MaxPacketSize in *.
    change (u16 1350) with 1350 in *. lia. }
  destruct (_ =? 3).
  { eapply parses1_fmap; [apply parses1_wrapErr|]. 2: { intros f Hf. exact Hf. }
    apply parses1_byte. intros. parse_step. parse_step. parse_step. parse_step; [parse_step|]. parse_step. apply parses_ret.
    split; [done|]. split; [done|]. cbn [GoawayFrame.ReasonPhrase]. unfold len, is_u16, MaxPacketSize in *.
    change (u16 1350) with 1350 in *. lia. }
  destruct (_ =? 4).
  { eapply parses1_fmap; [apply parses1_wrapErr|]. 2: { intros f Hf. exact Hf. }
    apply parses1_byte. intros. repeat parse_step; done. }
  destruct (_ =? 5).
  { eapply parses1_fmap; [apply parses1_wrapErr|]. 2: { intros f Hf. exact Hf. }
    apply parses1_byte. intros. repeat parse_step; done. }
  destruct (_ =? 6).
  { eapply parses1_fmap; [apply parses1_wrapErr|]. 2: { intros f Hf. exact Hf. }
    apply parses1_byte. intros. eapply parses_bind; [exact (parses_ReadUintN _ _ Hpl)|]. cbv beta. intros d Hd.
    parse_step; [parse_step|]. apply parses_ret. cbn. zlia. }
  destruct (_ =? 7).
  { apply (parses1_fmap _ _ (λ _, True)); [|done]. apply parses1_byte. intros. by apply parses_ret. }
  destruct (_ =? 16).
  { eapply parses1_fmap. 2: { intros f Hf. exact Hf. } apply parses1_byte. intros. parse_step.
    eapply parses_bind with (λ ip, length ip = 16%nat ∧ (a = 4 ∨ a = 6)).
    { destruct (Z.eqb_spec a 4); [do 4 parse_step; apply parses_ret; split; [done|auto]|].
      destruct (Z.eqb_spec a 6); [|parse_step].
      eapply parses_mono; [apply readIP_safe|]. intros; split; auto. }
    intros ip [? ?]. parse_step. apply parses_ret. done. }
  destruct (_ =? 17).
  { eapply parses1_fmap; [apply ParseClosePathFrame_safe|]. by intros f ?. }
  destruct (_ =? 18); [|done].
  eapply parses1_fmap. 2: { intros f Hf. exact Hf. } apply parses1_byte. intros. parse_step. parse_step.
  parse_step; [parse_step|]. eapply parses_bind; [exact (parsePaths_safe _ _)|]. intros [ids rtts] [? ?].
  apply parses_ret. cbn [fst snd] in *. split; [cbn; lia|]. unfold is_byte in *. split; cbn; unfold len; lia.
Qed.

Lemma readFrames_safe version pn pnLen level fuel r : 0 <= pnLen <= 8 → pn < 2 ^ 64 →
  Forall is_byte r → (length r <= fuel)%nat →
  ∃ o, readFrames version pn pnLen level fuel r = Some o ∧ o ≠ Panic ∧
    ∀ fs, o = Ok fs → Forall (accepted_frame pn level) fs.
Proof.
  intros Hpl Hpn. revert r. induction fuel as [|fuel IH]; intros r Hr Hl.
  - destruct r; [|simpl in Hl; lia]. eexists. split; [done|]. split; [done|]. by intros ? [= <-].
  - destruct r as [|tb r]; [eexists; split; [done|]; split; [done|]; by intros ? [= <-]|].
    cbn [readFrames length] in *. destruct (tb =? 0).
    { apply Forall_cons in Hr as [_ Hr]. apply IH; [done|lia]. }
    pose proof (parseFrame_safe version pn pnLen level tb Hpl Hpn (tb :: r) Hr) as Hp.
    destruct (parseFrame _ _ _ _ _ (tb :: r)) as [[f r']|e|]; [|eexists; split; [done|]; split; [done|]; done|done].
    destruct Hp as [Hf (b & pre & E)]. rewrite E in Hr. apply Forall_cons in Hr as [_ Hr]. apply Forall_app in Hr as [_ Hr].
    assert (length r = length (pre ++ r')) as Hlen by congruence. rewrite length_app in Hlen.
    destruct (IH r' Hr) as (o & -> & Hno & Hok); [lia|].
    destruct o as [fs|e|]; (eexists; split; [done|]; split; [done|]); [|done|done].
    intros ? [= <-]. constructor; [done|]. by apply Hok.
Qed.

(** C33: for any decrypted payload of bytes (so for anything a peer can send),
    Unpack terminates with a result or an error and does not panic, and the frames
    that it returns are well-formed: ACK ranges are ordered, stream offsets do not
    overflow, unencrypted data is on the crypto stream, STOP_WAITING refers to
    packets up to this one. *)
Theorem Unpack_safe (Open : list Z → Z → list Z → option (list Z * EncryptionLevel)) version hdr pn pnLen data :
  0 <= pnLen <= 8 → pn < 2 ^ 64 →
  (∀ bs level, Open data pn hdr = Some (bs, level) → Forall is_byte bs) →
  ∃ o, Unpack Open version hdr pn pnLen data = Some o ∧ o ≠ Panic ∧
    ∀ level fs, o = Ok (level, fs) → Forall (accepted_frame pn level) fs.
Proof.
  intros Hpl Hpn Hbytes. unfold Unpack.
  destruct (Open data pn hdr) as [[bs level]|]; [|eexists; split; [done|]; split; done].
  destruct (_ =? 0); [eexists; split; [done|]; split; done|].
  destruct (readFrames_safe version pn pnLen level (length bs) bs Hpl Hpn (Hbytes _ _ eq_refl))
    as (o & -> & Hno & Hok); [lia|].
  destruct o as [fs|e|]; (eexists; split; [done|]; split; [done|]); [|done|done].
  intros ? ? [= <- <-]. by apply Hok.
Qed.

Lemma Unpack_safe_witness :
  ∃ o, Unpack (λ d _ _, Some (d, EncryptionSecure)) 39 [] 20 2 [0; 7; 6; 0; 13; 161; 7; 0; 1; 9] = Some o ∧ o ≠ Panic ∧
    ∀ level fs, o = Ok (level, fs) → Forall (accepted_frame 20 level) fs.
Proof.
  apply Unpack_safe; [lia|lia|]. intros bs level [= <- _]. repeat (constructor; [unfold is_byte; lia|]). constructor.
Defined.

End accepted.
