(* ===== verification/PublicHeader.v ===== *)
(** * The public header of a packet

    [internal/wire/public_header.go] and [version_negotiation.go]: the part of a
    packet that is not encrypted. *)

From S2P Require Import Prelude Protocol ByteOrder AckFrames Frames.

Module PublicHeader.
Import protocol.

Record PublicHeader := MkPublicHeader {
  Raw : list Z;
  ConnectionID : Z;
  PathID : Z;
  VersionFlag : bool;
  ResetFlag : bool;
  TruncateConnectionID : bool;
  MultipathFlag : bool;
  PacketNumberLen : Z;
  PacketNumber : Z;
  VersionNumber : Z;
  SupportedVersions : list Z;
  DiversificationNonce : list Z;
}.

#[global] Instance PublicHeader_eq_dec : EqDecision PublicHeader.
Proof. solve_decision. Defined.

Definition ErrPacketWithUnknownVersion : error :=
  NewError "PublicHeader: Received a packet without version number, that we don't know the version for".
Definition errResetAndVersionFlagSet : error :=
  NewError "PublicHeader: Reset Flag and Version Flag should not be set at the same time".
Definition errReceivedTruncatedConnectionID : error := qerr.Error qerr.InvalidPacketHeader.
Definition errInvalidConnectionID : error := qerr.Error qerr.InvalidPacketHeader.
Definition errGetLengthNotForVersionNegotiation : error :=
  NewError "PublicHeader: GetLength cannot be called for VersionNegotiation packets".
Definition errInvalidNonceLength : error := NewError "invalid diversification nonce length".
Definition errPacketNumberLenNotSet : error := NewError "PublicHeader: PacketNumberLen not set".

Definition isServer (p : Perspective) : bool := bool_decide (p = PerspectiveServer).
Definition isClient (p : Perspective) : bool := bool_decide (p = PerspectiveClient).

Definition hasPacketNumber (resetFlag versionFlag : bool) (packetSentBy : Perspective) : bool :=
  if resetFlag then false
  else if versionFlag && isServer packetSentBy then false
  else true.

(** The public flag byte. *)
Definition publicFlagByte (h : PublicHeader) (pers : Perspective) : Z :=
  let b := 0 in
  let b := if VersionFlag h then Z.lor b 1 else b in
  let b := if ResetFlag h then Z.lor b 2 else b in
  let b := if negb (TruncateConnectionID h) then Z.lor b 8 else b in
  let b := if 0 <? len (DiversificationNonce h) then Z.lor b 4 else b in
  let b := if hasPacketNumber (ResetFlag h) (VersionFlag h) pers then
             if PacketNumberLen h =? PacketNumberLen1 then Z.lor b 0
             else if PacketNumberLen h =? PacketNumberLen2 then Z.lor b 16
             else if PacketNumberLen h =? PacketNumberLen4 then Z.lor b 32
             else if PacketNumberLen h =? PacketNumberLen6 then Z.lor b 48
             else b
           else b in
  if MultipathFlag h then Z.lor b 64 else b.

Definition writePacketNumber (bo : ByteOrder) (packetNumberLen packetNumber : Z) : outcome (list Z) :=
  if packetNumberLen =? PacketNumberLen1 then WriteByte (u8 packetNumber)
  else if packetNumberLen =? PacketNumberLen2 then WriteUint16 bo (u16 packetNumber)
  else if packetNumberLen =? PacketNumberLen4 then WriteUint32 bo (u32 packetNumber)
  else if packetNumberLen =? PacketNumberLen6 then WriteUint48 bo (Z.land packetNumber (Z.shiftl 1 48 - 1))
  else Err errPacketNumberLenNotSet.

Definition Write (h : PublicHeader) (version : Z) (pers : Perspective) : outcome (list Z) :=
  if VersionFlag h && ResetFlag h then Err errResetAndVersionFlagSet
  else if (0 <? len (DiversificationNonce h)) && negb (len (DiversificationNonce h) =? 32)
  then Err errInvalidNonceLength
  else
    WriteByte (publicFlagByte h pers) ;;;
    (if negb (TruncateConnectionID h) then WriteUint64 LittleEndian (ConnectionID h) else Ok []) ;;;
    (if VersionFlag h && isClient pers
     then WriteUint32 LittleEndian (VersionNumberToTag (VersionNumber h)) else Ok []) ;;;
    (if 0 <? len (DiversificationNonce h) then WriteBytes (DiversificationNonce h) else Ok []) ;;;
    (if MultipathFlag h then WriteByte (PathID h) else Ok []) ;;;
    (if negb (hasPacketNumber (ResetFlag h) (VersionFlag h) pers) then Ok []
     else writePacketNumber (GetByteOrder version) (PacketNumberLen h) (PacketNumber h)).

(** The result and what the reader still holds: on success, and when a truncated
    connection ID is refused, the position is restored; when the input ends
    inside the connection ID only the last byte is unread. *)
Definition PeekConnectionID (packetSentBy : Perspective) (r : list Z) : outcome Z * list Z :=
  match ReadByte r with
  | Ok (publicFlagByte, r') =>
      let truncateConnectionID := Z.land publicFlagByte 8 =? 0 in
      if truncateConnectionID && isClient packetSentBy then (Err errReceivedTruncatedConnectionID, r)
      else if negb truncateConnectionID then
        match ReadUint64 LittleEndian r' with
        | Ok (connID, _) => (Ok connID, r)
        | Err e => (Err e, drop (length r - 1) r)
        | Panic => (Panic, r)
        end
      else (Ok 0, r)
  | Err e => (Err e, r)
  | Panic => (Panic, r)
  end.

(** The loop of a version negotiation packet: versions are read until the input
    ends. [fuel] bounds the number of versions. *)
Fixpoint readVersions (fuel : nat) (r : list Z) : list Z * list Z :=
  match fuel with
  | O => ([], r)
  | S fuel' =>
      match ReadUint32 LittleEndian r with
      | Ok (versionTag, r') =>
          let '(vs, r'') := readVersions fuel' r' in (VersionTagToNumber versionTag :: vs, r'')
      | _ => ([], [])
      end
  end.

Definition packetNumberLenOf (publicFlagByte : Z) : Z :=
  let bits := Z.land publicFlagByte 48 in
  if bits =? 48 then PacketNumberLen6
  else if bits =? 32 then PacketNumberLen4
  else if bits =? 16 then PacketNumberLen2
  else PacketNumberLen1.

Definition ParsePublicHeader (packetSentBy : Perspective) (version : Z) : Parser PublicHeader :=
  publicFlagByte ← ReadByte;
  let resetFlag := 0 <? Z.land publicFlagByte 2 in
  let versionFlag := 0 <? Z.land publicFlagByte 1 in
  if (version =? VersionUnknown) && negb (versionFlag || resetFlag)
  then throw ErrPacketWithUnknownVersion else
  let truncateConnectionID := Z.land publicFlagByte 8 =? 0 in
  if truncateConnectionID && isClient packetSentBy then throw errReceivedTruncatedConnectionID else
  let packetNumberLen := if hasPacketNumber resetFlag versionFlag packetSentBy
                         then packetNumberLenOf publicFlagByte else 0 in
  let multipathFlag := 0 <? Z.land publicFlagByte 64 in
  connID ← (if negb truncateConnectionID then
              connID ← ReadUint64 LittleEndian;
              if connID =? 0 then throw errInvalidConnectionID else mret connID
            else mret 0);
  nonce ← (if isServer packetSentBy && (0 <? Z.land publicFlagByte 4) then
             if negb versionFlag && negb resetFlag then ReadFull 32 else mret []
           else mret []);
  if (negb resetFlag && versionFlag) && isServer packetSentBy then
    n ← ReaderLen;
    if negb (n mod 4 =? 0) then throw (qerr.Error qerr.InvalidVersionNegotiationPacket)
    else λ r,
      let '(vs, r') := readVersions (S (length r)) r in
      Ok (MkPublicHeader [] connID 0 versionFlag resetFlag truncateConnectionID multipathFlag
            packetNumberLen 0 0 vs nonce, r')
  else
  versionNumber ← (if negb resetFlag && versionFlag then
                     versionTag ← ReadUint32 LittleEndian; mret (VersionTagToNumber versionTag)
                   else mret 0);
  let version := if negb resetFlag && versionFlag then versionNumber else version in
  pathID ← (if multipathFlag then ReadByte else mret 0);
  packetNumber ← (if hasPacketNumber resetFlag versionFlag packetSentBy
                  then ReadUintN (GetByteOrder version) packetNumberLen else mret 0);
  mret (MkPublicHeader [] connID pathID versionFlag resetFlag truncateConnectionID multipathFlag
          packetNumberLen packetNumber versionNumber [] nonce).

Definition GetLength (h : PublicHeader) (pers : Perspective) : outcome Z :=
  if VersionFlag h && ResetFlag h then Err errResetAndVersionFlagSet
  else if VersionFlag h && isServer pers then Err errGetLengthNotForVersionNegotiation
  else
    let hasPN := hasPacketNumber (ResetFlag h) (VersionFlag h) pers in
    if hasPN && (negb (PacketNumberLen h =? PacketNumberLen1) && negb (PacketNumberLen h =? PacketNumberLen2)
                 && negb (PacketNumberLen h =? PacketNumberLen4) && negb (PacketNumberLen h =? PacketNumberLen6))
    then Err StopWaitingFrame.errPacketNumberLenNotSet
    else
      let length := 1 in
      let length := if hasPN then u64 (length + PacketNumberLen h) else length in
      let length := if negb (TruncateConnectionID h) then u64 (length + 8) else length in
      let length := if VersionFlag h then u64 (length + 4) else length in
      let length := u64 (length + len (DiversificationNonce h)) in
      Ok (if MultipathFlag h then u64 (length + 1) else length).

(** version_negotiation.go: the error of Write is only logged. *)
Definition ComposeVersionNegotiation (connectionID : Z) (versions : list Z) : outcome (list Z) :=
  let header := MkPublicHeader [] connectionID 0 true false false false 0 1 0 [] [] in
  let bs := match Write header VersionWhatever PerspectiveServer with
            | Ok bs => Ok bs | Err _ => Ok [] | Panic => Panic end in
  bs ;;;
  foldr (λ v w, WriteUint32 LittleEndian (VersionNumberToTag v) ;;; w) (Ok []) versions.

End PublicHeader.

(** ** Headers of regular packets on the wire *)
Section header.
Import protocol PublicHeader.

(** The headers that the packet packer makes. *)
Definition valid_header (h : PublicHeader) (version : Z) (pers : Perspective) : Prop :=
  is_u64 (ConnectionID h) ∧ (TruncateConnectionID h = false → ConnectionID h ≠ 0) ∧
  (TruncateConnectionID h = true → pers = PerspectiveServer) ∧
  ResetFlag h = false ∧ (VersionFlag h = true → pers = PerspectiveClient) ∧
  (VersionFlag h = true → VersionNumber h = version ∧ 0 <= version < 1000) ∧
  (VersionFlag h = false → version ≠ VersionUnknown) ∧
  valid_pn_len (PacketNumberLen h) ∧ is_u64 (PacketNumber h) ∧ is_u8 (PathID h) ∧
  (DiversificationNonce h = [] ∨
   length (DiversificationNonce h) = 32%nat ∧ Forall is_byte (DiversificationNonce h) ∧ pers = PerspectiveServer).

(** What the peer reads: the low bytes of the packet number. *)
Definition header_image (h : PublicHeader) : PublicHeader :=
  MkPublicHeader [] (if TruncateConnectionID h then 0 else ConnectionID h)
    (if MultipathFlag h then PathID h else 0) (VersionFlag h) false (TruncateConnectionID h) (MultipathFlag h)
    (PacketNumberLen h) (PacketNumber h mod 2 ^ (8 * PacketNumberLen h))
    (if VersionFlag h then VersionNumber h else 0) [] (DiversificationNonce h).

Lemma flag_fields h pers : valid_pn_len (PacketNumberLen h) → ResetFlag h = false →
  hasPacketNumber false (VersionFlag h) pers = true →
  let b := publicFlagByte h pers in
  is_byte b ∧ (0 <? Z.land b 2) = false ∧ (0 <? Z.land b 1) = VersionFlag h ∧
  (Z.land b 8 =? 0) = TruncateConnectionID h ∧ (0 <? Z.land b 64) = MultipathFlag h ∧
  (0 <? Z.land b 4) = (0 <? len (DiversificationNonce h)) ∧ packetNumberLenOf b = PacketNumberLen h.
Proof.
  intros Hn Hrf Hhp. unfold publicFlagByte. rewrite Hrf, Hhp.
  destruct Hn as [->|[->|[->| ->]]]; destruct (VersionFlag h), (TruncateConnectionID h),
    (0 <? len (DiversificationNonce h)), (MultipathFlag h); vm_compute; repeat split; congruence.
Qed.

Lemma writePacketNumber_enc bo `{!ByteOrderOk bo} n v : valid_pn_len n → is_u64 v →
  reads any (writePacketNumber bo n v) (ReadUintN bo n) (v mod 2 ^ (8 * n)) n.
Proof.
  intros Hn Hv. assert (0 <= 8 * n) by (destruct Hn as [->|[->|[->| ->]]]; lia).
  apply (reads_uintN bo); [destruct Hn as [->|[->|[->| ->]]]; lia| |].
  - rewrite pow256_pow2 by (destruct Hn as [->|[->|[->| ->]]]; lia). apply Z.mod_pos_bound. lia.
  - destruct Hn as [->|[->|[->| ->]]]; unfold writePacketNumber; cbn [Z.eqb PacketNumberLen1 PacketNumberLen2
      PacketNumberLen4 PacketNumberLen6 Pos.eqb].
    + change (Z.to_nat 1) with 1%nat. rewrite enc_1 by zlia. unfold WriteByte. do 2 f_equal. zlia.
    + by rewrite WriteUint16_enc.
    + by rewrite WriteUint32_enc.
    + change (Z.shiftl 1 48 - 1) with (Z.ones 48). rewrite Z.land_ones by lia.
      rewrite WriteUint48_enc. change (8 * 6) with 48. case_bool; [lia|done].
Qed.

(** An optional field. *)
Lemma reads_opt {A} (c : bool) w (p : Parser A) v d n :
  (c = true → reads any w p v n) →
  reads any (if c then w else Ok []) (if c then p else mret d) (if c then v else d) (if c then n else 0).
Proof. destruct c; intros H; [by apply H|apply reads_nil]. Qed.

Lemma reads_wnil {A} T w (p : Parser A) v n : reads T w p v n → reads T (Ok [] ;;; w) p v n.
Proof. intros (bs & -> & ?). by exists bs. Qed.

(** The connection ID and the fields behind it. *)
Lemma connID_reads (tc : bool) cid : is_u64 cid → (tc = false → cid ≠ 0) →
  reads any (if negb tc then WriteUint64 LittleEndian cid else Ok [])
    (if negb tc then connID ← ReadUint64 LittleEndian;
       if connID =? 0 then throw errInvalidConnectionID else mret connID else mret 0)
    (if tc then 0 else cid) (if tc then 0 else 8).
Proof.
  intros Hc Hne. destruct tc; [apply reads_nil|]. simpl negb. cbv iota.
  eapply reads_last; [by apply reads_u64; [apply _|]|]. intros r. cbv beta.
  destruct (Z.eqb_spec cid 0); [by destruct Hne|done].
Qed.

Lemma VersionNumberToTag_u32 v : is_u32 (VersionNumberToTag v).
Proof. unfold VersionNumberToTag. apply u32_range. Qed.

Definition header_len (h : PublicHeader) : Z :=
  1 + ((if TruncateConnectionID h then 0 else 8) + ((if VersionFlag h then 4 else 0) +
  (len (DiversificationNonce h) + ((if MultipathFlag h then 1 else 0) + PacketNumberLen h)))).

Lemma path_pn_reads h version : is_u8 (PathID h) → valid_pn_len (PacketNumberLen h) → is_u64 (PacketNumber h) →
  ∀ (x : PublicHeader) (k : Z → Z → PublicHeader),
  x = k (if MultipathFlag h then PathID h else 0) (PacketNumber h mod 2 ^ (8 * PacketNumberLen h)) →
  reads any ((if MultipathFlag h then WriteByte (PathID h) else Ok []) ;;;
             writePacketNumber (GetByteOrder version) (PacketNumberLen h) (PacketNumber h))
    (pathID ← (if MultipathFlag h then ReadByte else mret 0);
     packetNumber ← ReadUintN (GetByteOrder version) (PacketNumberLen h);
     mret (k pathID packetNumber)) x ((if MultipathFlag h then 1 else 0) + PacketNumberLen h).
Proof.
  intros Hp Hn Hpn x k ->. field; [apply reads_opt; intros _; by apply reads_byte|].
  by eapply reads_last; [apply writePacketNumber_enc; [apply _|done|done]|].
Qed.

Lemma header_reads h version pers : valid_header h version pers →
  reads any (Write h version pers) (ParsePublicHeader pers version) (header_image h) (header_len h) ∧
  GetLength h pers = Ok (header_len h).
Proof.
  intros (Hcid & Hcz & Htc & Hrf & Hvf & Hvn & Hun & Hpnl & Hpn & Hpid & Hnonce).
  assert (hasPacketNumber (ResetFlag h) (VersionFlag h) pers = true) as Hhp.
  { unfold hasPacketNumber. rewrite Hrf. destruct (VersionFlag h); [by rewrite Hvf|done]. }
  assert (PacketNumberLen h = 1 ∨ PacketNumberLen h = 2 ∨ PacketNumberLen h = 4 ∨ PacketNumberLen h = 6)
    as Hpnl' by exact Hpnl.
  assert (len (DiversificationNonce h) = 0 ∨ len (DiversificationNonce h) = 32) as Hnl
    by (destruct Hnonce as [->|[? _]]; [by left|right; unfold len; lia]).
  split.
  2: { unfold GetLength, header_len. rewrite Hhp, Hrf, andb_false_r.
       replace (VersionFlag h && isServer pers) with false
         by (destruct (VersionFlag h); [by rewrite Hvf|done]).
       replace (true && _) with false by (destruct Hpnl' as [->|[->|[->| ->]]]; done).
       f_equal. destruct (TruncateConnectionID h), (VersionFlag h), (MultipathFlag h); cbn [negb]; zlia. }
  rewrite Hrf in Hhp. destruct (flag_fields h pers Hpnl Hrf Hhp) as (Hb & Hf2 & Hf1 & Hf8 & Hf64 & Hf4 & Hfn).
  unfold Write, ParsePublicHeader, header_len.
  rewrite Hrf, andb_false_r. replace ((0 <? len _) && negb _) with false.
  2: { destruct Hnl as [->| ->]; done. }
  field; [by apply reads_byte|]. cbv zeta. rewrite Hf2, Hf1, Hf8, Hf64, Hf4, Hfn.
  rewrite Hhp.
  replace ((version =? VersionUnknown) && negb (VersionFlag h || false)) with false.
  2: { destruct (VersionFlag h) eqn:E; [by rewrite andb_false_r|].
       destruct (Z.eqb_spec version VersionUnknown); [by destruct Hun|done]. }
  replace (TruncateConnectionID h && isClient pers) with false
    by (destruct (TruncateConnectionID h); [by rewrite Htc|done]).
  field; [by apply connID_reads|]. destruct (VersionFlag h) eqn:Evf.
  - rewrite Hvf in * by done. destruct Hnonce as [En|(_ & _ & ?)]; [|done]. rewrite En.
    destruct Hvn as [Evn Hvr]; [done|].
    change (0 <? len (@nil Z)) with false. change (len (@nil Z)) with 0. cbn [isClient isServer andb negb].
    eapply reads_skip; [done|]. field; [eapply reads_last; [by apply reads_u32; [apply _|apply VersionNumberToTag_u32]|done]|].
    apply reads_wnil. rewrite VersionTag_inverse by lia. rewrite Evn, Z.add_0_l.
    apply path_pn_reads; [done|done|done|]. unfold header_image. by rewrite Evf, En, Evn.
  - rewrite Z.add_0_l. apply reads_wnil. cbn [andb negb].
    eapply reads_bind.
    + instantiate (1 := DiversificationNonce h). destruct Hnonce as [En|(Hl32 & Hnb & ->)].
      * rewrite En. change (0 <? len (@nil Z)) with false. rewrite andb_false_r. apply reads_nil.
      * replace (0 <? len (DiversificationNonce h)) with true by (unfold len; lia). cbn [isServer andb].
        rewrite <- Hl32. by apply reads_bytes.
    + cbv beta. eapply reads_skip; [done|]. apply path_pn_reads; [done|done|done|]. unfold header_image. by rewrite Evf.
Qed.

(** The header of a regular packet (no reset, no version negotiation) is
    written in [GetLength] bytes, and the peer reads back the same header, with
    the packet number cut to the bytes that were sent. *)
Theorem header_roundtrip h version pers :
  valid_header h version pers →
  ∃ bs, Write h version pers = Ok bs ∧ GetLength h pers = Ok (len bs) ∧ Forall is_byte bs ∧
    ∀ r, Forall is_byte r → ParsePublicHeader pers version (bs ++ r) = Ok (header_image h, r).
Proof.
  intros Hv. destruct (header_reads h version pers Hv) as [(bs & Hw & Hl & Hb & Hp) HG].
  exists bs. split; [done|]. split; [by rewrite Hl|]. split; [done|]. intros r Hr. by apply Hp.
Qed.

Lemma header_roundtrip_witness :
  let h := MkPublicHeader [] 77 3 true false false true 2 70000 39 [] [] in
  ∃ bs, Write h 39 PerspectiveClient = Ok bs ∧ GetLength h PerspectiveClient = Ok (len bs) ∧ Forall is_byte bs ∧
    ∀ r, Forall is_byte r → ParsePublicHeader PerspectiveClient 39 (bs ++ r) = Ok (header_image h, r).
Proof.
  apply header_roundtrip. unfold valid_header. cbn. unfold is_u64, is_u8.
  repeat split; try lia; try done; try (by right; left); by left.
Defined.

(** C32: packet numbers survive truncation end to end. The sender chooses the
    length from its least unacked packet and writes a header; the receiver parses
    it and infers the number from the largest packet it has seen. It recovers the
    full number if that largest packet is at or above what the sender knows to be
    acked, and reordering is below half a window. For the 6 byte form, which the
    sender chooses without a check, fewer than 2^47 packets may be outstanding. *)
Theorem packet_number_recovered h version pers leastUnacked last r :
  let p := PacketNumber h in
  let n := GetPacketNumberLengthForPublicHeader p leastUnacked in
  PacketNumberLen h = n → valid_header h version pers →
  1 <= leastUnacked <= p → p < 2 ^ 62 → leastUnacked - 1 <= last →
  last + 1 - p < 2 ^ (8 * n - 1) → p - leastUnacked < 2 ^ 47 → Forall is_byte r →
  ∃ bs h', Write h version pers = Ok bs ∧ ParsePublicHeader pers version (bs ++ r) = Ok (h', r) ∧
    InferPacketNumber (PacketNumberLen h') last (PacketNumber h') = p.
Proof.
  intros p n En Hv Hlu Hp Hlast Hre Hout Hr.
  destruct (header_reads h version pers Hv) as [(bs & Hw & _ & _ & Hparse) _].
  exists bs, (header_image h). split; [done|]. split; [by apply Hparse|]. cbn [header_image PacketNumberLen PacketNumber].
  rewrite En. by apply packet_number_inferred.
Qed.

Lemma packet_number_recovered_witness :
  let h := MkPublicHeader [] 77 0 false false false false 2 70000 0 [] [] in
  ∃ bs h', Write h 39 PerspectiveClient = Ok bs ∧
    ParsePublicHeader PerspectiveClient 39 (bs ++ [1; 2]) = Ok (h', [1; 2]) ∧
    InferPacketNumber (PacketNumberLen h') 69998 (PacketNumber h') = 70000.
Proof.
  intros h. apply (packet_number_recovered h 39 PerspectiveClient 69000 69998 [1; 2]); try (vm_compute; congruence).
  - unfold valid_header, h. cbn. unfold is_u64, is_u8.
    repeat split; try lia; try done; try (by right; left); by left.
  - vm_compute. split; congruence.
  - repeat constructor; lia.
Defined.

(** Peeking reads the connection ID that parsing returns, and nothing is lost. *)
Lemma PeekConnectionID_spec h version pers bs r : valid_header h version pers →
  Write h version pers = Ok bs → Forall is_byte r →
  PeekConnectionID pers (bs ++ r) = (Ok (ConnectionID (header_image h)), bs ++ r).
Proof.
  intros Hv Hw Hr. pose proof Hv as (Hcid & Hcz & Htc & Hrf & Hvf & Hvn & Hun & Hpnl & Hpn & Hpid & Hnonce).
  assert (hasPacketNumber false (VersionFlag h) pers = true) as Hhp.
  { unfold hasPacketNumber. destruct (VersionFlag h); [by rewrite Hvf|done]. }
  destruct (flag_fields h pers Hpnl Hrf Hhp) as (Hb & _ & _ & Hf8 & _).
  destruct (header_reads h version pers Hv) as [(bs' & Hw' & _ & Hbb & _) _].
  assert (bs' = bs) as -> by congruence. clear Hw'.
  unfold Write in Hw. destruct (_ && _); [done|]. destruct (_ && _); [done|].
  unfold wseq at 1, WriteByte at 1, mbind at 1, outcome_bind at 1 in Hw.
  apply outcome_bind_inv in Hw as (rest & Hrest & [= <-]). rewrite u8_id in Hbb |- * by done.
  apply Forall_cons in Hbb as [_ Hbb].
  unfold PeekConnectionID. cbn [app ReadByte]. rewrite Hf8.
  replace (TruncateConnectionID h && isClient pers) with false
    by (destruct (TruncateConnectionID h); [by rewrite Htc|done]).
  unfold header_image. cbn [ConnectionID]. destruct (TruncateConnectionID h); [done|]. cbn [negb] in *.
  unfold wseq at 1 in Hrest. rewrite WriteUint64_enc in Hrest. unfold mbind at 1, outcome_bind at 1 in Hrest.
  apply outcome_bind_inv in Hrest as (rest' & _ & [= <-]). rewrite <- app_assoc.
  rewrite ReadUint64_enc; [done|done|]. apply Forall_app; split; [|done]. by apply Forall_app in Hbb as [_ ?].
Qed.

(** ** Version negotiation *)

Lemma versions_reads versions : Forall (λ v, 0 <= v < 1000) versions → ∃ bs,
  foldr (λ v w, WriteUint32 LittleEndian (VersionNumberToTag v) ;;; w) (Ok []) versions = Ok bs ∧
  length bs = (4 * length versions)%nat ∧ Forall is_byte bs ∧
  ∀ fuel, (length versions < fuel)%nat → readVersions fuel bs = (versions, []).
Proof.
  induction 1 as [|v vs Hv Hvs (bs & Hw & Hl & Hb & Hp)].
  - exists []. split; [done|]. split; [done|]. split; [constructor|]. intros [|fuel]; simpl; [lia|done].
  - destruct (reads_u32 LittleEndian _ (VersionNumberToTag_u32 v)) as (b4 & Hw4 & Hl4 & Hb4 & Hp4).
    exists (b4 ++ bs). cbn [foldr]. rewrite Hw, Hw4. split; [done|]. unfold len in Hl4.
    split; [rewrite length_app; simpl; lia|]. split; [by apply Forall_app|]. intros [|fuel] Hf; [lia|].
    cbn [readVersions]. rewrite Hp4 by done. rewrite Hp by (simpl in Hf; lia).
    by rewrite VersionTag_inverse.
Qed.

(** The version negotiation packet of a server is read by a client (which
    need not know the version) as the same connection ID and list of versions. *)
Theorem version_negotiation_roundtrip connID versions version :
  is_u64 connID → connID ≠ 0 → Forall (λ v, 0 <= v < 1000) versions →
  ∃ bs, ComposeVersionNegotiation connID versions = Ok bs ∧
    ParsePublicHeader PerspectiveServer version bs =
      Ok (MkPublicHeader [] connID 0 true false false false 0 0 0 versions [], []).
Proof.
  intros Hc Hnz Hvs. destruct (versions_reads versions Hvs) as (vb & Hvw & Hvl & Hvb & Hvp).
  unfold ComposeVersionNegotiation. rewrite Hvw. unfold Write.
  cbn [VersionFlag ResetFlag TruncateConnectionID MultipathFlag DiversificationNonce ConnectionID].
  change (publicFlagByte _ _) with 9. change (0 <? len (@nil Z)) with false. cbn [andb negb isClient].
  change (bool_decide (PerspectiveServer = PerspectiveClient)) with false. cbv iota.
  change (hasPacketNumber false true PerspectiveServer) with false. cbn [negb].
  rewrite WriteUint64_enc. cbn [wseq WriteByte mbind outcome_bind]. rewrite !app_nil_r.
  eexists. split; [done|]. unfold ParsePublicHeader. rewrite <- !app_assoc.
  erewrite parser_bind_ok by done. cbv zeta.
  replace ((version =? VersionUnknown) && _) with false by (symmetry; apply andb_false_r).
  change (u8 9) with 9. change (0 <? Z.land 9 2) with false. change (0 <? Z.land 9 1) with true.
  change (Z.land 9 8 =? 0) with false. change (0 <? Z.land 9 64) with false. change (0 <? Z.land 9 4) with false.
  change (hasPacketNumber false true PerspectiveServer) with false.
  change (isServer PerspectiveServer) with true. cbn [andb negb app].
  erewrite parser_bind_ok.
  2: { erewrite parser_bind_ok by by apply ReadUint64_enc. destruct (Z.eqb_spec connID 0); [done|]. reflexivity. }
  erewrite parser_bind_ok by done. cbv beta. erewrite parser_bind_ok by done. cbv beta.
  unfold len. rewrite Hvl. replace (Z.of_nat (4 * length versions) mod 4) with 0 by lia.
  cbn [Z.eqb negb]. rewrite Hvp by lia. done.
Qed.

Lemma version_negotiation_roundtrip_witness :
  ∃ bs, ComposeVersionNegotiation 77 protocol.SupportedVersions = Ok bs ∧
    ParsePublicHeader PerspectiveServer VersionUnknown bs =
      Ok (MkPublicHeader [] 77 0 true false false false 0 0 0 protocol.SupportedVersions [], []).
Proof.
  apply version_negotiation_roundtrip; [vm_compute; split; congruence|lia|].
  repeat (constructor; [vm_compute; split; congruence|]). constructor.
Defined.

(** ** What the parser accepts *)

Lemma packetNumberLenOf_valid b : valid_pn_len (packetNumberLenOf b).
Proof. unfold packetNumberLenOf, valid_pn_len. repeat case_bool; auto. Qed.

Lemma ReadUint32_suffix r v r' : ReadUint32 LittleEndian r = Ok (v, r') → ∃ pre, r = pre ++ r'.
Proof.
  destruct r as [|a [|b [|c [|d r]]]]; try done. intros [= _ <-]. by exists [a; b; c; d].
Qed.

Lemma readVersions_suffix fuel r vs r' : readVersions fuel r = (vs, r') → ∃ pre, r = pre ++ r'.
Proof.
  revert r vs r'. induction fuel as [|fuel IH]; intros r vs r'; cbn [readVersions].
  - intros [= <- <-]. by exists [].
  - destruct (ReadUint32 LittleEndian r) as [[t r1]| |] eqn:E.
    + destruct (readVersions fuel r1) as [vs1 r2] eqn:E2. intros [= <- <-].
      destruct (IH _ _ _ E2) as [pre ->]. apply ReadUint32_suffix in E as [pre' ->].
      exists (pre' ++ pre). by rewrite app_assoc.
    + intros [= <- <-]. exists r. by rewrite app_nil_r.
    + intros [= <- <-]. exists r. by rewrite app_nil_r.
Qed.

(** ParsePublicHeader and PeekConnectionID do not panic on any input of
    bytes; a header that is accepted has a non-zero connection ID unless the
    server truncated it, a packet number that fits its length exactly when the
    packet has one, and a nonce of 32 bytes or none. *)
Theorem ParsePublicHeader_safe pers version :
  parses (ParsePublicHeader pers version) (λ h,
    (if TruncateConnectionID h then pers = PerspectiveServer ∧ ConnectionID h = 0
     else is_u64 (ConnectionID h) ∧ ConnectionID h ≠ 0) ∧
    (hasPacketNumber (ResetFlag h) (VersionFlag h) pers = true →
       valid_pn_len (PacketNumberLen h) ∧ 0 <= PacketNumber h < 2 ^ (8 * PacketNumberLen h)) ∧
    is_u8 (PathID h) ∧
    (DiversificationNonce h = [] ∨ length (DiversificationNonce h) = 32%nat ∧ pers = PerspectiveServer)) ∧
  ∀ r, Forall is_byte r → (PeekConnectionID pers r).1 ≠ Panic.
Proof.
  split.
  - unfold ParsePublicHeader. parse_step. rename a into fb. parse_step; [parse_step|].
    parse_step; [parse_step|]. set (tc := Z.land fb 8 =? 0) in *.
    set (hp := hasPacketNumber (0 <? Z.land fb 2) (0 <? Z.land fb 1) pers).
    eapply parses_bind with (λ c, if tc then c = 0 else is_u64 c ∧ c ≠ 0).
    { destruct tc; [by apply parses_ret|]. cbn [negb].
      eapply parses_bind; [exact (parses_ReadUint64 LittleEndian)|]. intros c Hc.
      destruct (Z.eqb_spec c 0); [parse_step|]. by apply parses_ret. }
    intros cid Hcid.
    eapply parses_bind with (λ n, n = [] ∨ length n = 32%nat ∧ pers = PerspectiveServer).
    { parse_step; [|apply parses_ret; by left]. parse_step; [|apply parses_ret; by left].
      eapply parses_mono; [apply parses_ReadFull|]. intros d [? _]. right. split; [done|].
      apply andb_true_iff in H2 as [H2 _]. by apply bool_decide_eq_true in H2. }
    intros nonce Hnonce.
    assert (if tc then pers = PerspectiveServer ∧ cid = 0 else is_u64 cid ∧ cid ≠ 0) as Hid.
    { destruct tc; [|done]. split; [|done]. destruct pers; [done|].
      by match goal with H : _ && isClient _ = false |- _ => vm_compute in H end. }
    parse_step.
    + parse_step. parse_step; [parse_step|]. intros r Hr.
      destruct (readVersions (S (length r)) r) as [vs r'] eqn:E. split.
      * cbn [TruncateConnectionID ConnectionID ResetFlag VersionFlag PathID DiversificationNonce].
        split; [done|]. split; [|split; [unfold is_u8; lia|done]].
        intros Hhp. exfalso. unfold hasPacketNumber in Hhp.
        destruct (0 <? Z.land fb 2), (0 <? Z.land fb 1), (isServer pers); done.
      * apply (readVersions_suffix _ _ _ _ E).
    + eapply parses_bind with (λ _, True); [repeat parse_step; done|]. intros vn _. cbv zeta.
      eapply parses_bind with (λ p, is_u8 p); [repeat parse_step; done|]. intros pid Hpid.
      fold hp. eapply parses_bind with (λ p, hp = true → 0 <= p < 2 ^ (8 * packetNumberLenOf fb)).
      { destruct hp; [|by apply parses_ret]. pose proof (packetNumberLenOf_valid fb) as Hv.
        assert (0 <= packetNumberLenOf fb <= 8) as Hb by (destruct Hv as [->|[->|[->| ->]]]; lia).
        eapply parses_mono; [exact (parses_ReadUintN _ _ Hb)|]. cbv beta. rewrite pow256_pow2 by lia. auto. }
      intros pn Hpn. apply parses_ret.
      cbn [TruncateConnectionID ConnectionID ResetFlag VersionFlag PathID DiversificationNonce PacketNumber PacketNumberLen].
      split; [done|]. split; [|by split]. fold hp. intros Hhp. rewrite Hhp. split; [apply packetNumberLenOf_valid|auto].
  - intros r Hr. unfold PeekConnectionID. destruct r as [|fb r]; [done|]. cbn [ReadByte].
    destruct (_ && _); [done|]. destruct (negb _); [|done]. apply Forall_cons in Hr as [_ Hr].
    pose proof (parses_ReadUint64 LittleEndian r Hr). by destruct (ReadUint64 LittleEndian r) as [[? ?]| |].
Qed.

End header.
