(* ===== verification/HandshakeMessages.v ===== *)
(** * HandshakeMessages: the messages of the QUIC crypto handshake and public resets

    internal/handshake/tags.go, internal/handshake/handshake_message.go and
    internal/wire/public_reset.go. A message is a tag and a map from tags to values; it is
    written with an index of the end offsets of the values, which is filled in after the
    values were written. The first part has the data and the operations, the second part
    relates [Write] to a description of the format, and the third one has the theorems:
    messages survive the way over the wire, and whatever arrives is either refused or a
    message that could have been written. *)
From stdpp Require Import sorting.
From S2P Require Import Prelude Protocol ByteOrder AckFrames Frames PublicHeader.

(** ** encoding/binary, as far as it is used *)
Module binary.

(** [binary.LittleEndian.Uint32] and [Uint64] index the slice. *)
Definition Uint32 (b : list Z) : outcome Z :=
  match b with
  | b0 :: b1 :: b2 :: b3 :: _ =>
      Ok (Z.lor b0 (Z.lor (Z.shiftl b1 8) (Z.lor (Z.shiftl b2 16) (Z.shiftl b3 24))))
  | _ => Panic
  end.

Definition Uint64 (b : list Z) : outcome Z :=
  low ← Uint32 b; high ← Uint32 (drop 4 b); Ok (Z.lor low (Z.shiftl high 32)).

(** [binary.LittleEndian.PutUint32(b[i:], v)]. *)
Definition PutUint32 (i : nat) (v : Z) (b : list Z) : outcome (list Z) :=
  if decide (i + 4 <= length b)%nat
  then Ok (take i b ++ [u8 v; u8 (Z.shiftr v 8); u8 (Z.shiftr v 16); u8 (Z.shiftr v 24)] ++ drop (i + 4) b)
  else Panic.

End binary.

(** A slice expression [l[a:b]]. *)
Definition slice {A} (a b : nat) (l : list A) : outcome (list A) :=
  if decide (a <= b <= length l)%nat then Ok (take (b - a) (drop a l)) else Panic.

(** [copy(dst[i:], src)] for [i] within [dst]. *)
Definition copyAt {A} (i : nat) (src dst : list A) : list A :=
  let n := Nat.min (length src) (length dst - i) in
  take i dst ++ take n src ++ drop (i + n) dst.

Module handshake.
Import binary.

Definition CryptoMaxParams : Z := 128.
Definition CryptoParameterMaxLength : Z := 4000.

(** The tags that the components use; a tag is four characters, the first one in the lowest
    byte. *)
Definition tag4 (a b c d : Z) : Z := a + Z.shiftl b 8 + Z.shiftl c 16 + Z.shiftl d 24.
Definition TagCHLO : Z := tag4 67 72 76 79.
Definition TagREJ : Z := tag4 82 69 74 0.
Definition TagSCFG : Z := tag4 83 67 70 71.
Definition TagPAD : Z := tag4 80 65 68 0.
Definition TagSNI : Z := tag4 83 78 73 0.
Definition TagVER : Z := tag4 86 69 82 0.
Definition TagCCS : Z := tag4 67 67 83 0.
Definition TagCCRT : Z := tag4 67 67 82 84.
Definition TagMSPC : Z := tag4 77 83 80 67.
Definition TagMIDS : Z := tag4 77 73 68 83.
Definition TagSVID : Z := tag4 83 86 73 68.
Definition TagTCID : Z := tag4 84 67 73 68.
Definition TagPDMD : Z := tag4 80 68 77 68.
Definition TagICSL : Z := tag4 73 67 83 76.
Definition TagCFCW : Z := tag4 67 70 67 87.
Definition TagSFCW : Z := tag4 83 70 67 87.
Definition TagFHL2 : Z := tag4 70 72 76 50.
Definition TagNSTP : Z := tag4 78 83 84 80.
Definition TagCOPT : Z := tag4 67 79 80 84.
Definition TagSTK : Z := tag4 83 84 75 0.
Definition TagSNO : Z := tag4 83 78 79 0.
Definition TagPROF : Z := tag4 80 82 79 70.
Definition TagNONC : Z := tag4 78 79 78 67.
Definition TagXLCT : Z := tag4 88 76 67 84.
Definition TagSCID : Z := tag4 83 67 73 68.
Definition TagKEXS : Z := tag4 75 69 88 83.
Definition TagAEAD : Z := tag4 65 69 65 68.
Definition TagPUBS : Z := tag4 80 85 66 83.
Definition TagOBIT : Z := tag4 79 66 73 84.
Definition TagEXPY : Z := tag4 69 88 80 89.
Definition TagCERT : Z := 4283716163.
Definition TagSHLO : Z := tag4 83 72 76 79.
Definition TagPRST : Z := tag4 80 82 83 84.
Definition TagRSEQ : Z := tag4 82 83 69 81.
Definition TagRNON : Z := tag4 82 78 79 78.

Record HandshakeMessage := MkHandshakeMessage { Tag : Z; Data : gmap Z (list Z) }.

#[global] Instance HandshakeMessage_eq_dec : EqDecision HandshakeMessage.
Proof. solve_decision. Defined.

(** A step that may panic in a parser. *)
Definition lift {A} (o : outcome A) : Parser A := λ r,
  match o with Ok a => Ok (a, r) | Err e => Err e | Panic => Panic end.

Fixpoint parseLoop (n : nat) (indexPos : nat) (index : list Z) (dataStart : Z) (resultMap : gmap Z (list Z))
    : Parser (gmap Z (list Z)) :=
  match n with
  | O => mret resultMap
  | S n =>
      tag ← lift (slice indexPos (indexPos + 4) index ≫= Uint32);
      dataEnd ← lift (slice (indexPos + 4) (indexPos + 8) index ≫= Uint32);
      let dataLen := u32 (dataEnd - dataStart) in
      if CryptoParameterMaxLength <? dataLen then throw (qerr.Error qerr.CryptoInvalidValueLength)
      else
        data ← ReadFull (Z.to_nat dataLen);
        parseLoop n (indexPos + 8) index dataEnd (<[tag := data]> resultMap)
  end.

Definition ParseHandshakeMessage : Parser HandshakeMessage :=
  slice4 ← ReadFull 4;
  messageTag ← lift (Uint32 slice4);
  slice4 ← ReadFull 4;
  nPairs ← lift (Uint32 slice4);
  if CryptoMaxParams <? nPairs then throw (qerr.Error qerr.CryptoTooManyEntries)
  else
    index ← ReadFull (Z.to_nat (u32 (nPairs * 8)));
    resultMap ← parseLoop (Z.to_nat nPairs) 0 index 0 ∅;
    mret (MkHandshakeMessage messageTag resultMap).

Definition getTagsSorted (h : HandshakeMessage) : list Z := merge_sort (≤) (map_to_list (Data h)).*1.

Fixpoint writeLoop (data : gmap Z (list Z)) (tags : list Z) (i : nat) (offset : Z) (b indexData : list Z)
    : outcome (list Z * list Z) :=
  match tags with
  | [] => Ok (b, indexData)
  | t :: tags =>
      let v := default [] (data !! t) in
      let b := b ++ v in
      let offset := u32 (offset + u32 (len v)) in
      indexData ← PutUint32 (i * 8) t indexData;
      indexData ← PutUint32 (i * 8 + 4) offset indexData;
      writeLoop data tags (S i) offset b indexData
  end.

(** The buffer [b] afterwards. *)
Definition Write (h : HandshakeMessage) (b : list Z) : outcome (list Z) :=
  hdr ← (WriteUint32 LittleEndian (Tag h) ;;; WriteUint16 LittleEndian (u16 (Z.of_nat (size (Data h)))) ;;; WriteUint16 LittleEndian 0);
  let b := b ++ hdr in
  let indexStart := length b in
  let indexData := replicate (8 * size (Data h)) 0 in
  '(b, indexData) ← writeLoop (Data h) (getTagsSorted h) 0 0 (b ++ indexData) indexData;
  Ok (copyAt indexStart indexData b).

End handshake.

(** ** internal/wire/public_reset.go *)
Module publicReset.
Import binary handshake.

Record PublicReset := MkPublicReset { RejectedPacketNumber : Z; Nonce : Z }.

Definition WritePublicReset (connectionID rejectedPacketNumber nonceProof : Z) : outcome (list Z) :=
  WriteByte 10 ;;;
  WriteUint64 LittleEndian connectionID ;;;
  WriteUint32 LittleEndian TagPRST ;;;
  WriteUint32 LittleEndian 2 ;;;
  WriteUint32 LittleEndian TagRNON ;;;
  WriteUint32 LittleEndian 8 ;;;
  WriteUint32 LittleEndian TagRSEQ ;;;
  WriteUint32 LittleEndian 16 ;;;
  WriteUint64 LittleEndian nonceProof ;;;
  WriteUint64 LittleEndian rejectedPacketNumber.

Definition errWrongTag : error := NewError "wrong public reset tag".
Definition errRSEQMissing : error := NewError "RSEQ missing".
Definition errInvalidRSEQ : error := NewError "invalid RSEQ tag".
Definition errRNONMissing : error := NewError "RNON missing".
Definition errInvalidRNON : error := NewError "invalid RNON tag".

(** An entry of eight bytes. *)
Definition uint64Entry (missing invalid : error) (t : Z) (msg : HandshakeMessage) : outcome Z :=
  match Data msg !! t with
  | None => Err missing
  | Some v => if negb (len v =? 8) then Err invalid else Uint64 v
  end.

Definition ParsePublicReset (r : list Z) : outcome PublicReset :=
  '(msg, _) ← ParseHandshakeMessage r;
  if negb (Tag msg =? TagPRST) then Err errWrongTag
  else
    rseq ← uint64Entry errRSEQMissing errInvalidRSEQ TagRSEQ msg;
    rnon ← uint64Entry errRNONMissing errInvalidRNON TagRNON msg;
    Ok (MkPublicReset rseq rnon).

End publicReset.

(** ** The format of a message *)
Section format.
Import binary handshake.
Notation le := (enc (bo := LittleEndian)).

Lemma lor_shift a b k : 0 <= k → 0 <= a < 2 ^ k → Z.lor a (Z.shiftl b k) = a + b * 2 ^ k.
Proof.
  intros Hk Ha. rewrite Z.shiftl_mul_pow2 by done. rewrite <- Z.lxor_lor, lxor_disjoint; try done.
  apply Z.bits_inj'. intros i Hi. rewrite Z.land_spec, Z.bits_0. destruct (Z.lt_ge_cases i k).
  - rewrite Z.mul_pow2_bits_low by lia. apply andb_false_r.
  - destruct (decide (a = 0)) as [->|]; [by rewrite Z.bits_0|]. rewrite (Z.bits_above_log2 a); [done|lia|].
    apply Z.log2_lt_pow2; [lia|]. eapply Z.lt_le_trans; [apply Ha|]. apply Z.pow_le_mono_r; lia.
Qed.

Lemma Uint32_reads r : Forall is_byte r → Uint32 r = match ReadUint32 LittleEndian r with Ok (v, _) => Ok v | _ => Panic end.
Proof.
  intros Hr. destruct r as [|a [|b [|c [|d r]]]]; try done. unfold Uint32. cbn -[Z.shiftl Z.lor u32].
  assert (is_byte a ∧ is_byte b ∧ is_byte c ∧ is_byte d) as (Ha & Hb & Hc & Hd) by (by repeat (apply Forall_cons in Hr as [? Hr])).
  f_equal. unfold is_byte in *. rewrite (Z.lor_assoc (Z.shiftl b 8)), Z.lor_assoc, Z.lor_assoc, (lor_shift a b 8), (lor_shift _ c 16), (lor_shift _ d 24) by (try lia; change (2 ^ 8) with 256; change (2 ^ 16) with 65536; change (2 ^ 24) with 16777216; lia).
  rewrite u32_id; rewrite !Z.shiftl_mul_pow2 by lia; unfold is_u32; lia.
Qed.

Lemma Uint32_le v r : is_u32 v → Forall is_byte r → Uint32 (le 4 v ++ r) = Ok v.
Proof. intros Hv Hr. rewrite Uint32_reads by by apply enc_app_bytes. by rewrite ReadUint32_enc. Qed.

Lemma Uint32_4 b : Forall is_byte b → length b = 4%nat → ∃ v, Uint32 b = Ok v ∧ is_u32 v.
Proof.
  intros Hb Hl. rewrite Uint32_reads by done. pose proof (parses_ReadUint32 LittleEndian b Hb) as H.
  destruct b as [|? [|? [|? [|? ?]]]]; try done. cbn -[Z.shiftl u32] in *. eexists. split; [done|]. apply u32_range.
Qed.

Lemma PutUint32_le i v b : (i + 4 <= length b)%nat → PutUint32 i v b = Ok (take i b ++ le 4 v ++ drop (i + 4) b).
Proof. intros. unfold PutUint32. rewrite decide_True by done. pose proof (WriteUint32_enc (bo := LittleEndian) v) as [= ->]. done. Qed.

Implicit Types (kvs : list (Z * list Z)) (m : gmap Z (list Z)).

(** The entries of a message are the pairs of the map in the order of the tags; the index
    has for every entry the tag and the offset where its value ends. *)
Fixpoint indexOf (start : Z) kvs : list Z :=
  match kvs with
  | [] => []
  | (t, v) :: kvs => le 4 t ++ le 4 (start + len v) ++ indexOf (start + len v) kvs
  end.
Definition valuesOf kvs : list Z := kvs.*2 ≫= id.
Definition entriesOf (h : HandshakeMessage) : list (Z * list Z) := (λ t, (t, default [] (Data h !! t))) <$> getTagsSorted h.
Definition image (h : HandshakeMessage) : list Z :=
  le 4 (Tag h) ++ le 2 (Z.of_nat (size (Data h))) ++ le 2 0 ++ indexOf 0 (entriesOf h) ++ valuesOf (entriesOf h).

Lemma indexOf_length start kvs : length (indexOf start kvs) = (8 * length kvs)%nat.
Proof. revert start. induction kvs as [|[t v] kvs IH]; intros start; [done|]. cbn [indexOf length]. rewrite !length_app, !enc_length, IH. lia. Qed.

Lemma indexOf_bytes start kvs : Forall is_byte (indexOf start kvs).
Proof. revert start. induction kvs as [|[t v] kvs IH]; intros start; [done|]. cbn. by repeat apply enc_app_bytes. Qed.

(** What the loops keep of the pairs. *)
Definition entry_ok (kv : Z * list Z) : Prop := is_u32 kv.1 ∧ len kv.2 <= CryptoParameterMaxLength ∧ Forall is_byte kv.2.

Lemma valuesOf_bytes kvs : Forall entry_ok kvs → Forall is_byte (valuesOf kvs).
Proof. unfold valuesOf. induction 1 as [|[t v] kvs (_ & _ & Hv) _ IH]; [done|]. cbn. by apply Forall_app. Qed.

(** Room for the offsets of all the entries. *)
Definition fits (start : Z) kvs : Prop := 0 <= start ∧ start + CryptoParameterMaxLength * len kvs < 2 ^ 32.

Lemma fits_cons start t v kvs : entry_ok (t, v) → fits start ((t, v) :: kvs) → fits (start + len v) kvs ∧ is_u32 (start + len v).
Proof.
  intros (_ & Hv & _) [H0 H]. rewrite len_cons in H. cbn in Hv. unfold fits, is_u32, CryptoParameterMaxLength in *.
  pose proof (len_nonneg v). pose proof (len_nonneg kvs). lia.
Qed.

Lemma writeLoop_format data tags i offset b done_ :
  let kvs := (λ t, (t, default [] (data !! t))) <$> tags in
  Forall entry_ok kvs → fits offset kvs → length done_ = (8 * i)%nat →
  writeLoop data tags i offset b (done_ ++ replicate (8 * length tags) 0) =
    Ok (b ++ valuesOf kvs, done_ ++ indexOf offset kvs).
Proof.
  revert i offset b done_. induction tags as [|t tags IH]; intros i offset b done_ kvs Hok Hf Hl.
  - cbn. by rewrite !app_nil_r.
  - unfold kvs in *. cbn [fmap list_fmap] in *. apply Forall_cons in Hok as [Ht Hok].
    destruct (fits_cons _ _ _ _ Ht Hf) as [Hf' Hu]. set (v := default [] (data !! t)) in *.
    cbn [writeLoop]. fold v. rewrite (u32_id (len v)), u32_id by (unfold is_u32 in *; destruct Hf; pose proof (len_nonneg v); lia).
    replace (8 * length (t :: tags))%nat with (8 + 8 * length tags)%nat by (cbn; lia). rewrite replicate_add.
    set (rest := replicate (8 * length tags) 0). set (z4 := replicate 4 (0 : Z)). change (replicate 8 0) with (z4 ++ z4).
    rewrite PutUint32_le by (rewrite !length_app, Hl; cbn; lia). cbn [mbind outcome_bind].
    rewrite take_app_length' by lia. rewrite <- (drop_drop _ 4 (i * 8)), drop_app_length' by lia.
    rewrite <- (assoc_L (++) z4). rewrite drop_app_length' by done.
    rewrite PutUint32_le by (rewrite !length_app, enc_length, Hl; cbn; lia). cbn [mbind outcome_bind].
    rewrite (assoc_L (++) done_), take_app_length' by (rewrite length_app, enc_length; lia).
    rewrite <- (drop_drop _ 4 (i * 8 + 4)), drop_app_length' by (rewrite length_app, enc_length; lia).
    rewrite drop_app_length' by done.
    rewrite <- (assoc_L (++) done_), (assoc_L (++) (le 4 t)), (assoc_L (++) done_).
    rewrite IH by (try done; rewrite !length_app, !enc_length; lia).
    f_equal. cbn [indexOf]. unfold valuesOf. cbn. by rewrite <- !(assoc_L (++)).
Qed.

Lemma copyAt_exact {A} (pre old new post : list A) : length old = length new →
  copyAt (length pre) new (pre ++ old ++ post) = pre ++ new ++ post.
Proof.
  intros Hl. unfold copyAt. rewrite !length_app, Nat.min_l by lia.
  rewrite take_app_length, firstn_all, <- drop_drop, drop_app_length, drop_app_length' by lia. done.
Qed.

Lemma entriesOf_perm h : entriesOf h ≡ₚ map_to_list (Data h).
Proof.
  unfold entriesOf, getTagsSorted. rewrite merge_sort_Permutation, <- list_fmap_compose.
  rewrite (list_fmap_ext _ id); [by rewrite list_fmap_id|]. intros i [t v] H%list_elem_of_lookup_2%elem_of_map_to_list. cbn. by rewrite H.
Qed.

Lemma entriesOf_length h : length (entriesOf h) = size (Data h).
Proof. by rewrite entriesOf_perm, length_map_to_list. Qed.

(** The messages that fit the limits of the parser. *)
Definition message_ok (h : HandshakeMessage) : Prop :=
  is_u32 (Tag h) ∧ Z.of_nat (size (Data h)) <= CryptoMaxParams ∧
  map_Forall (λ t v, is_u32 t ∧ len v <= CryptoParameterMaxLength ∧ Forall is_byte v) (Data h).

Lemma message_entries h : message_ok h → Forall entry_ok (entriesOf h).
Proof. intros (_ & _ & H). rewrite entriesOf_perm. apply map_Forall_to_list in H. eapply Forall_impl; [exact H|]. by intros []. Qed.

Lemma message_fits h : message_ok h → fits 0 (entriesOf h).
Proof. intros (_ & H & _). unfold fits, len. rewrite entriesOf_length. unfold CryptoMaxParams, CryptoParameterMaxLength in *. lia. Qed.

Lemma Write_format h b : message_ok h → Write h b = Ok (b ++ image h).
Proof.
  intros Hok. pose proof (message_entries h Hok) as He. pose proof (message_fits h Hok) as Hf. destruct Hok as (_ & Hs & _).
  unfold Write, wseq. rewrite WriteUint32_enc, !WriteUint16_enc. cbn [mbind outcome_bind].
  rewrite u16_id by (unfold is_u16, CryptoMaxParams in *; lia).
  set (hdr := le 4 (Tag h) ++ _). pose proof (writeLoop_format (Data h) (getTagsSorted h) 0 0 ((b ++ hdr) ++ replicate (8 * size (Data h)) 0) [] He Hf eq_refl) as Hw.
  assert (length (getTagsSorted h) = size (Data h)) as El by (rewrite <- entriesOf_length; unfold entriesOf; by rewrite length_fmap).
  rewrite El in Hw. cbn [app] in Hw. rewrite Hw. cbn [mbind outcome_bind]. fold (entriesOf h).
  rewrite <- (assoc_L (++) (b ++ hdr)), copyAt_exact by (rewrite indexOf_length, entriesOf_length, length_replicate; done).
  unfold image, hdr. by rewrite <- !(assoc_L (++)).
Qed.
End format.

(** ** Messages on the wire *)
Section wire.
Import binary handshake.
Notation le := (enc (bo := LittleEndian)).
Implicit Types (kvs : list (Z * list Z)) (m : gmap Z (list Z)).

Lemma slice_middle {A} (pre x post : list A) a b : a = length pre → b = (a + length x)%nat → slice a b (pre ++ x ++ post) = Ok x.
Proof.
  intros -> ->. unfold slice. rewrite decide_True by (rewrite !length_app; lia).
  rewrite drop_app_length. replace (length pre + length x - length pre)%nat with (length x) by lia. by rewrite take_app_length.
Qed.

Lemma Uint32_enc4 v : is_u32 v → Uint32 (le 4 v) = Ok v.
Proof. intros Hv. rewrite <- (app_nil_r (le 4 v)). by apply Uint32_le. Qed.

Definition insert_all m kvs : gmap Z (list Z) := foldl (λ m kv, <[kv.1 := kv.2]> m) m kvs.

Lemma parseLoop_format kvs pos pre start m rest : Forall entry_ok kvs → fits start kvs → length pre = pos →
  parseLoop (length kvs) pos (pre ++ indexOf start kvs) start m (valuesOf kvs ++ rest) = Ok (insert_all m kvs, rest).
Proof.
  revert pos pre start m. induction kvs as [|[t v] kvs IH]; intros pos pre start m Hok Hf Hl; [done|].
  apply Forall_cons in Hok as [Ht Hok]. destruct (fits_cons _ _ _ _ Ht Hf) as [Hf' Hu]. destruct Ht as (Ht & Hv & _). cbn [fst snd] in *.
  cbn [length parseLoop indexOf]. unfold mbind at 1, parser_bind at 1, lift at 1.
  rewrite slice_middle by (rewrite ?enc_length; lia). cbn [mbind outcome_bind]. rewrite Uint32_enc4 by done.
  unfold mbind at 1, parser_bind at 1, lift at 1.
  rewrite (assoc_L (++) pre), slice_middle by (rewrite ?length_app, ?enc_length; lia). cbn [mbind outcome_bind]. rewrite Uint32_enc4 by done.
  replace (start + len v - start) with (len v) by lia. pose proof (len_nonneg v).
  rewrite u32_id by (unfold is_u32, CryptoParameterMaxLength in *; lia). rewrite (proj2 (Z.ltb_ge _ _)) by done.
  unfold mbind, parser_bind. unfold valuesOf. cbn [fmap list_fmap mbind list_bind snd id]. rewrite <- (assoc_L (++) v).
  unfold len. rewrite Nat2Z.id, ReadFull_app. rewrite (assoc_L (++) (pre ++ _)).
  rewrite IH by (try done; rewrite !length_app, !enc_length; lia). done.
Qed.

Lemma insert_all_perm m kvs : NoDup kvs.*1 → (∀ t, t ∈ kvs.*1 → m !! t = None) → insert_all m kvs = list_to_map kvs ∪ m.
Proof.
  unfold insert_all. revert m. induction kvs as [|[t v] kvs IH]; intros m Hd Hm; [cbn; by rewrite (left_id_L ∅ (∪))|].
  cbn in Hd |- *. apply NoDup_cons in Hd as [Hn Hd]. rewrite IH; [|done|].
  - rewrite <- insert_union_l. rewrite insert_union_r; [done|]. by apply not_elem_of_list_to_map_1.
  - intros t' Ht'. rewrite lookup_insert_ne by (intros ->; done). apply Hm. cbn. by right.
Qed.

Lemma insert_all_entries h : insert_all ∅ (entriesOf h) = Data h.
Proof.
  pose proof (entriesOf_perm h) as Hp. assert (NoDup (entriesOf h).*1) as Hd by (rewrite Hp; apply NoDup_fst_map_to_list).
  rewrite insert_all_perm by done. rewrite (right_id_L ∅ (∪)), (list_to_map_proper _ _ Hd Hp). apply list_to_map_to_list.
Qed.

Lemma lift_ok {A} (o : outcome A) a r : o = Ok a → lift o r = Ok (a, r).
Proof. by intros ->. Qed.

Lemma le_widen v : 0 <= v < 65536 → le 2 v ++ le 2 0 = le 4 v.
Proof.
  intros Hv. pose proof (WriteUint16_enc (bo := LittleEndian) v) as [= <-]. pose proof (WriteUint16_enc (bo := LittleEndian) 0) as [= <-].
  pose proof (WriteUint32_enc (bo := LittleEndian) v) as [= <-]. cbn [app].
  assert (Z.shiftr v 16 = 0 ∧ Z.shiftr v 24 = 0) as [-> ->]; [|done].
  rewrite !Z.shiftr_div_pow2 by lia. split; apply Z.div_small; lia.
Qed.

Lemma ParseHandshakeMessage_image h rest : message_ok h → Forall is_byte rest →
  ParseHandshakeMessage (image h ++ rest) = Ok (h, rest).
Proof.
  intros Hok Hr. pose proof (message_entries h Hok) as He. pose proof (message_fits h Hok) as Hf. destruct Hok as (Ht & Hs & _).
  unfold ParseHandshakeMessage, image. rewrite <- !(assoc_L (++)).
  rewrite (parser_bind_ok _ _ _ (le 4 (Tag h)) _ ltac:(etrans; [|apply ReadFull_app]; by rewrite enc_length)).
  rewrite (parser_bind_ok _ _ _ _ _ (lift_ok _ _ _ (Uint32_enc4 _ Ht))).
  rewrite (assoc_L (++) (le 2 _)).
  rewrite (parser_bind_ok _ _ _ (le 2 (Z.of_nat (size (Data h))) ++ le 2 0) _ ltac:(etrans; [|apply ReadFull_app]; by rewrite length_app, !enc_length)).
  rewrite le_widen by (unfold CryptoMaxParams in *; lia).
  assert (is_u32 (Z.of_nat (size (Data h)))) as Hu by (unfold is_u32, CryptoMaxParams in *; lia).
  rewrite (parser_bind_ok _ _ _ _ _ (lift_ok _ _ _ (Uint32_enc4 _ Hu))).
  rewrite (proj2 (Z.ltb_ge _ _)) by done.
  rewrite u32_id by (unfold is_u32, CryptoMaxParams in *; lia).
  rewrite (parser_bind_ok _ _ _ (indexOf 0 (entriesOf h)) (valuesOf (entriesOf h) ++ rest)).
  2: { etrans; [|apply ReadFull_app]. rewrite indexOf_length, entriesOf_length. f_equal. lia. }
  rewrite Nat2Z.id, <- entriesOf_length.
  rewrite (parser_bind_ok _ _ _ (Data h) rest).
  2: { rewrite (parseLoop_format _ 0 [] 0 ∅ rest He Hf eq_refl). by rewrite insert_all_entries. }
  by destruct h.
Qed.

Lemma are_bytes l : forallb (λ b, (0 <=? b) && (b <? 256)) l = true → Forall is_byte l.
Proof. rewrite Forall_forall. intros H b Hb. rewrite forallb_forall in H. specialize (H b (proj1 (list_elem_of_In _ _) Hb)). unfold is_byte. lia. Qed.

(** A safe parser that reads the index. *)
Lemma parses_Uint32 (o : outcome (list Z)) : (∃ b, o = Ok b ∧ Forall is_byte b ∧ length b = 4%nat) → parses (lift (o ≫= Uint32)) is_u32.
Proof.
  intros (b & -> & Hb & Hl) r Hr. destruct (Uint32_4 b Hb Hl) as (v & E & Hv). unfold lift. cbn. rewrite E. split; [done|by exists []].
Qed.

Lemma slice_4 index a : (a + 4 <= length index)%nat → Forall is_byte index →
  ∃ b, slice a (a + 4) index = Ok b ∧ Forall is_byte b ∧ length b = 4%nat.
Proof.
  intros Hl Hb. unfold slice. rewrite decide_True by lia. eexists. split; [done|]. split.
  - by apply Forall_take, Forall_drop.
  - rewrite length_take, length_drop. lia.
Qed.

Definition data_ok (n : nat) m : Prop :=
  (size m <= n)%nat ∧ map_Forall (λ t v, is_u32 t ∧ len v <= CryptoParameterMaxLength ∧ Forall is_byte v) m.

Lemma parses_parseLoop n k pos index start m : length index = (pos + 8 * n)%nat → Forall is_byte index → data_ok k m →
  parses (parseLoop n pos index start m) (data_ok (k + n)).
Proof.
  revert k pos start m. induction n as [|n IH]; intros k pos start m Hl Hb Hm.
  { apply parses_ret. by rewrite Nat.add_0_r. }
  cbn [parseLoop]. eapply parses_bind; [apply parses_Uint32, slice_4; [lia|done]|]. intros tag Ht.
  replace (pos + 8)%nat with (pos + 4 + 4)%nat by lia.
  eapply parses_bind; [apply parses_Uint32, slice_4; [lia|done]|]. intros dataEnd He.
  destruct (Z.ltb_spec CryptoParameterMaxLength (u32 (dataEnd - start))) as [Hlt|Hle]; [apply parses_throw|].
  eapply parses_bind; [apply parses_ReadFull|]. intros data [Hd Hdb].
  replace (k + S n)%nat with (S k + n)%nat by lia. apply IH; [lia|done|].
  destruct Hm as [Hs Hm]. split.
  - rewrite map_size_insert. destruct (m !! tag); cbn; lia.
  - apply map_Forall_insert_2; [|done]. split_and!; [done| |done]. unfold len. rewrite Hd. pose proof (u32_range (dataEnd - start)) as [??]. lia.
Qed.

Lemma parses_ParseHandshakeMessage : parses ParseHandshakeMessage message_ok.
Proof.
  unfold ParseHandshakeMessage. eapply parses_bind; [apply parses_ReadFull|]. intros b [Hl Hb].
  eapply parses_bind; [apply (parses_Uint32 (Ok b)); eauto|]. intros tag Ht.
  eapply parses_bind; [apply parses_ReadFull|]. intros b' [Hl' Hb'].
  eapply parses_bind; [apply (parses_Uint32 (Ok b')); eauto|]. intros nPairs Hn.
  destruct (Z.ltb_spec CryptoMaxParams nPairs) as [Hlt|Hle]; [apply parses_throw|].
  rewrite u32_id by (unfold is_u32, CryptoMaxParams in *; lia).
  eapply parses_bind; [apply parses_ReadFull|]. intros index [Hil Hib].
  eapply parses_bind; [apply (parses_parseLoop (Z.to_nat nPairs) 0 0); [unfold is_u32 in *; lia|done|split; [done|apply map_Forall_empty]]|].
  intros m [Hs Hm]. apply parses_ret. split_and!; [done| |done]. cbn. unfold is_u32 in *. lia.
Qed.

(** Handshake messages survive the way over the wire. A message with at most 128 entries
    of at most 4000 bytes is appended to the buffer, whose contents stay as they are, and is
    read back with the same tag and the same map, whatever follows it; the in-place update of
    the index does not touch the values. *)
Theorem handshake_message_roundtrip h b rest : message_ok h → Forall is_byte rest →
  ∃ bs, Write h b = Ok (b ++ bs) ∧ ParseHandshakeMessage (bs ++ rest) = Ok (h, rest).
Proof. intros Hok Hr. exists (image h). split; [by apply Write_format|by apply ParseHandshakeMessage_image]. Qed.

(** C34: whatever bytes arrive, parsing a handshake message does not panic, and a message that
    is accepted is well formed: its tags are 32-bit numbers, it has at most 128 entries, no
    value is longer than 4000 bytes, and what was not read is the rest of the input. So an
    accepted message can be written again, and reads back as the same message. *)
Theorem parsed_message_well_formed r : Forall is_byte r →
  match ParseHandshakeMessage r with
  | Ok (h, r') => message_ok h ∧ (∃ pre, r = pre ++ r') ∧
      ∃ bs, Write h [] = Ok bs ∧ ParseHandshakeMessage bs = Ok (h, [])
  | Err _ => True
  | Panic => False
  end.
Proof.
  intros Hr. pose proof (parses_ParseHandshakeMessage r Hr) as H. destruct (ParseHandshakeMessage r) as [[h r']| |]; [|done|done].
  destruct H as [Hok Hpre]. split_and!; [done|done|]. exists (image h). split; [by rewrite Write_format|].
  rewrite <- (app_nil_r (image h)). by apply ParseHandshakeMessage_image.
Qed.

End wire.

(** ** Public resets *)
Section reset.
Import protocol binary handshake publicReset PublicHeader.
Notation le := (enc (bo := LittleEndian)).

Lemma Uint64_val b : Forall is_byte b → (8 <= length b)%nat → ∃ v, Uint64 b = Ok v.
Proof.
  intros Hb Hl. destruct b as [|? [|? [|? [|? [|? [|? [|? [|? ?]]]]]]]]; cbn in Hl; try lia. unfold Uint64. cbn. eauto.
Qed.

Lemma Uint64_enc v : is_u64 v → Uint64 (le 8 v) = Ok v.
Proof.
  intros Hv. pose proof (WriteUint64_enc (bo := LittleEndian) v) as [= <-]. unfold Uint64.
  pose proof (Uint32_enc4 (u32 v) (u32_range v)) as H1. pose proof (Uint32_enc4 (Z.shiftr v 32)) as H2.
  pose proof (WriteUint32_enc (bo := LittleEndian) (u32 v)) as [= E1]. pose proof (WriteUint32_enc (bo := LittleEndian) (Z.shiftr v 32)) as [= E2].
  rewrite <- E1 in H1. rewrite <- E2 in H2. clear E1 E2.
  assert (∀ k, 0 <= k <= 24 → u8 (Z.shiftr (u32 v) k) = u8 (Z.shiftr v k)) as Hd.
  { intros k Hk. unfold u8, u32. change 256 with (2 ^ 8). change 4294967296 with (2 ^ 32).
    rewrite !Z.shiftr_div_pow2, <- !Z.land_ones, <- !Z.shiftr_div_pow2 by lia. apply Z.bits_inj'. intros i Hi.
    rewrite !Z.land_spec, !Z.shiftr_spec, !Z.land_spec by lia. destruct (Z.lt_ge_cases i 8).
    - rewrite (Z.ones_spec_low 32) by lia. by rewrite andb_true_r.
    - rewrite (Z.ones_spec_high 8) by lia. by rewrite !andb_false_r. }
  rewrite !Z.shiftr_shiftr in H2 by lia. rewrite (Hd 8), (Hd 16), (Hd 24) in H1 by lia.
  assert (u8 (u32 v) = u8 v) as E0 by (pose proof (Hd 0) as Hz; rewrite !Z.shiftr_0_r in Hz; apply Hz; lia). rewrite E0 in H1.
  change (32 + 8) with 40 in H2. change (32 + 16) with 48 in H2. change (32 + 24) with 56 in H2.
  unfold Uint32 in *. injection H1 as H1. cbn [mbind outcome_bind drop]. rewrite H1.
  assert (is_u32 (Z.shiftr v 32)) as Hs. { unfold is_u32, is_u64 in *. rewrite Z.shiftr_div_pow2 by lia. change (2 ^ 64) with (2 ^ 32 * 2 ^ 32) in Hv. split; [apply Z.div_pos; lia|apply Z.div_lt_upper_bound; lia]. }
  injection (H2 Hs) as E2. rewrite E2. f_equal. rewrite lor_shift by (try lia; apply u32_range).
  unfold u32. rewrite Z.shiftr_div_pow2 by lia. change (2 ^ 32) with 4294967296. pose proof (Z.div_mod v 4294967296). lia.
Qed.

Lemma uint64Entry_safe e1 e2 t msg : message_ok msg → uint64Entry e1 e2 t msg ≠ Panic.
Proof.
  intros (_ & _ & Hm). unfold uint64Entry. destruct (Data msg !! t) as [v|] eqn:E; [|done].
  destruct (Z.eqb_spec (len v) 8) as [Hl|]; [|done]. destruct (Hm _ _ E) as (_ & _ & Hb).
  destruct (Uint64_val v Hb) as [x ->]; [unfold len in Hl; lia|done].
Qed.

(** The entries of a public reset. *)
Definition resetMessage (rejected nonce : Z) : HandshakeMessage :=
  MkHandshakeMessage TagPRST {[ TagRNON := le 8 nonce; TagRSEQ := le 8 rejected ]}.

Lemma resetMessage_image rejected nonce : image (resetMessage rejected nonce) =
  le 4 TagPRST ++ le 2 2 ++ le 2 0 ++ le 4 TagRNON ++ le 4 8 ++ le 4 TagRSEQ ++ le 4 16 ++ le 8 nonce ++ le 8 rejected.
Proof.
  unfold image. assert (entriesOf (resetMessage rejected nonce) = [(TagRNON, le 8 nonce); (TagRSEQ, le 8 rejected)]) as ->.
  { unfold entriesOf. assert (getTagsSorted (resetMessage rejected nonce) = [TagRNON; TagRSEQ]) as -> by reflexivity. done. }
  unfold valuesOf. cbn [indexOf fmap list_fmap mbind list_bind snd id fst app]. rewrite !enc_len, !app_nil_r, <- !(assoc_L (++)). done.
Qed.

Lemma Z_u32 z : (0 <=? z) && (z <? 2 ^ 32) = true → is_u32 z.
Proof. unfold is_u32. lia. Qed.

Lemma image_bytes h : message_ok h → Forall is_byte (image h).
Proof. intros Hok. do 3 apply enc_app_bytes. apply Forall_app. split; [apply indexOf_bytes|by apply valuesOf_bytes, message_entries]. Qed.

Lemma resetMessage_ok rejected nonce : message_ok (resetMessage rejected nonce).
Proof.
  split; [by apply Z_u32|]. split.
  - cbn [Data resetMessage]. rewrite map_size_insert_None, map_size_singleton by by apply lookup_singleton_ne. by vm_compute.
  - apply map_Forall_insert_2; [|apply map_Forall_singleton]; (split; [by apply Z_u32|]; split; [rewrite enc_len; by vm_compute|apply enc_bytes]).
Qed.

(** A public reset arrives. What WritePublicReset makes is read by the client as a public
    header with the reset flag and the connection ID, whatever version it uses, and the rest
    as the rejected packet number and the nonce; and no bytes whatever make ParsePublicReset
    panic. *)
Theorem public_reset_roundtrip connectionID rejected nonce version junk :
  is_u64 connectionID → connectionID ≠ 0 → is_u64 rejected → is_u64 nonce → Forall is_byte junk →
  (∃ bs hdr r, WritePublicReset connectionID rejected nonce = Ok bs ∧
     ParsePublicHeader PerspectiveServer version bs = Ok (hdr, r) ∧
     ResetFlag hdr = true ∧ ConnectionID hdr = connectionID ∧
     ParsePublicReset r = Ok (MkPublicReset rejected nonce)) ∧
  ParsePublicReset junk ≠ Panic.
Proof.
  intros Hc Hc0 Hr Hn Hj. split.
  - unfold WritePublicReset, wseq. rewrite !WriteUint64_enc, !WriteUint32_enc. cbn [mbind outcome_bind WriteByte].
    rewrite <- (le_widen 2) by lia. rewrite <- !(assoc_L (++)), <- resetMessage_image.
    pose proof (resetMessage_ok rejected nonce) as Hok. pose proof (ParseHandshakeMessage_image _ [] Hok (Forall_nil_2 _)) as Hp.
    rewrite app_nil_r in Hp. eexists _, _, (image (resetMessage rejected nonce)). split; [done|]. split.
    + unfold ParsePublicHeader. cbn [app]. erewrite parser_bind_ok by done. cbv zeta. change (u8 10) with 10.
      change (0 <? Z.land 10 2) with true. change (0 <? Z.land 10 1) with false. change (Z.land 10 8 =? 0) with false.
      change (0 <? Z.land 10 64) with false. change (hasPacketNumber true false PerspectiveServer) with false.
      cbn [negb andb orb]. rewrite andb_false_r. cbn [negb andb].
      erewrite parser_bind_ok.
      2: { erewrite parser_bind_ok by (apply ReadUint64_enc; [done|apply image_bytes; apply Hok]). destruct (Z.eqb_spec connectionID 0); [done|]. reflexivity. }
      change (isServer PerspectiveServer && _) with false. reflexivity.
    + split; [done|]. split; [done|]. unfold ParsePublicReset. rewrite Hp. cbn [mbind outcome_bind].
      cbn [Tag resetMessage]. rewrite Z.eqb_refl. cbn [negb]. unfold uint64Entry. cbn [Data resetMessage].
      rewrite (lookup_insert_ne _ TagRNON TagRSEQ), lookup_singleton_eq, enc_len by by vm_compute. change (Z.of_nat 8 =? 8) with true. cbn [negb].
      rewrite Uint64_enc by done. cbn [mbind outcome_bind]. rewrite lookup_insert_eq, enc_len. change (Z.of_nat 8 =? 8) with true. cbn [negb].
      by rewrite Uint64_enc.
  - unfold ParsePublicReset. pose proof (parses_ParseHandshakeMessage junk Hj) as H.
    destruct (ParseHandshakeMessage junk) as [[msg r]| |]; [|done|done]. destruct H as [Hok _]. cbn [mbind outcome_bind].
    case_match; [done|]. pose proof (uint64Entry_safe errRSEQMissing errInvalidRSEQ TagRSEQ msg Hok).
    destruct (uint64Entry errRSEQMissing errInvalidRSEQ TagRSEQ msg); [|done|done]. cbn [mbind outcome_bind].
    pose proof (uint64Entry_safe errRNONMissing errInvalidRNON TagRNON msg Hok).
    by destruct (uint64Entry errRNONMissing errInvalidRNON TagRNON msg).
Qed.
End reset.

(** ** Examples *)
Module HandshakeMessageExamples.
Import protocol binary handshake publicReset.

Definition chlo : HandshakeMessage := MkHandshakeMessage TagCHLO {[ TagSNI := [113; 46; 99]; TagPAD := []; TagSFCW := [0; 64; 0; 0] ]}.

Lemma chlo_ok : message_ok chlo.
Proof.
  split; [by apply Z_u32|]. split; [by vm_compute|]. repeat apply map_Forall_insert_2; try apply map_Forall_singleton;
    (split; [by apply Z_u32|]; split; [by vm_compute|by apply are_bytes]).
Qed.

Lemma handshake_message_roundtrip_witness :
  ∃ bs, Write chlo [1; 2] = Ok ([1; 2] ++ bs) ∧ ParseHandshakeMessage (bs ++ [9]) = Ok (chlo, [9]).
Proof. apply (handshake_message_roundtrip chlo [1; 2] [9]); [apply chlo_ok|by apply are_bytes]. Defined.

(** A message with one entry, and a byte that follows it. *)
Lemma parsed_message_well_formed_witness :
  match ParseHandshakeMessage [1; 0; 0; 0; 1; 0; 0; 0; 5; 0; 0; 0; 2; 0; 0; 0; 8; 9; 7] with
  | Ok (h, r') => message_ok h ∧ r' = [7]
  | _ => False
  end.
Proof.
  pose proof (parsed_message_well_formed [1; 0; 0; 0; 1; 0; 0; 0; 5; 0; 0; 0; 2; 0; 0; 0; 8; 9; 7]
    (are_bytes [1; 0; 0; 0; 1; 0; 0; 0; 5; 0; 0; 0; 2; 0; 0; 0; 8; 9; 7] eq_refl)) as H.
  destruct (ParseHandshakeMessage _) as [[h r']| |] eqn:E; vm_compute in E; try discriminate. injection E as _ <-. split; [apply H|reflexivity].
Defined.

Lemma public_reset_roundtrip_witness : ∃ bs hdr r, WritePublicReset 77 5 6 = Ok bs ∧
  PublicHeader.ParsePublicHeader PerspectiveServer 512 bs = Ok (hdr, r) ∧
  PublicHeader.ResetFlag hdr = true ∧ PublicHeader.ConnectionID hdr = 77 ∧ ParsePublicReset r = Ok (MkPublicReset 5 6).
Proof.
  apply (public_reset_roundtrip 77 5 6 512 []); [split; lia|lia|split; lia|split; lia|constructor].
Defined.

End HandshakeMessageExamples.
