(* ===== verification/ReceivedPackets.v ===== *)
(** * The receiving half of the ack handler

    [ackhandler/received_packet_history.go] (the set of received packets as a list
    of intervals), [received_packet_handler.go] (when and what to acknowledge) and
    [stop_waiting_manager.go]. *)

From S2P Require Import Prelude Protocol ByteOrder AckFrames Frames.

(** ** internal/utils/packet_interval.go *)
Record PacketInterval := MkPacketInterval { Start : Z; End : Z }.

#[global] Instance PacketInterval_eq_dec : EqDecision PacketInterval.
Proof. solve_decision. Defined.

(** ** received_packet_history.go *)
Module receivedPacketHistory.
Import protocol.

(** The linked list [ranges] is the list of its values from [Back()] to
    [Front()], the order in which ReceivedPacket walks it. *)
Record receivedPacketHistory := MkHistory {
  ranges : list PacketInterval;
  lowestInReceivedPacketNumbers : Z;
}.

Definition errTooManyOutstandingReceivedAckRanges : error :=
  qerr.Error qerr.TooManyOutstandingReceivedPackets.

Definition newReceivedPacketHistory : receivedPacketHistory := MkHistory [] 0.

(** What follows the extension of the range [el]: it is merged with its
    predecessor when the two have become adjacent. *)
Definition maybeMerge (el : PacketInterval) (prevs : list PacketInterval) : list PacketInterval :=
  match prevs with
  | prev :: prevs' =>
      if u64 (End prev + 1) =? Start el then MkPacketInterval (Start prev) (End el) :: prevs'
      else el :: prevs
  | [] => [el]
  end.

(** The loop over the elements from the back; when it ends without a return, a
    new range is inserted before the front. *)
Fixpoint insertLoop (p : Z) (els : list PacketInterval) : list PacketInterval :=
  match els with
  | [] => [MkPacketInterval p p]
  | el :: prevs =>
      if (Start el <=? p) && (p <=? End el) then els
      else if End el =? u64 (p - 1) then maybeMerge (MkPacketInterval (Start el) p) prevs
      else if Start el =? u64 (p + 1) then maybeMerge (MkPacketInterval p (End el)) prevs
      else if End el <? p then MkPacketInterval p p :: els
      else el :: insertLoop p prevs
  end.

Definition ReceivedPacket (h : receivedPacketHistory) (p : Z) : receivedPacketHistory * option error :=
  if MaxTrackedReceivedAckRanges <=? len (ranges h)
  then (h, Some errTooManyOutstandingReceivedAckRanges)
  else if len (ranges h) =? 0
  then (MkHistory [MkPacketInterval p p] (lowestInReceivedPacketNumbers h), None)
  else (MkHistory (insertLoop p (ranges h)) (lowestInReceivedPacketNumbers h), None).

(** The loop of DeleteUpTo, over the elements from the front. *)
Fixpoint deleteLoop (p : Z) (els : list PacketInterval) : list PacketInterval :=
  match els with
  | [] => []
  | el :: next =>
      if (Start el <=? p) && (p <? End el) then MkPacketInterval (u64 (p + 1)) (End el) :: deleteLoop p next
      else if End el <=? p then deleteLoop p next
      else els
  end.

Definition DeleteUpTo (h : receivedPacketHistory) (p : Z) : receivedPacketHistory :=
  MkHistory (rev (deleteLoop p (rev (ranges h))))
    (utils.MaxPacketNumber (lowestInReceivedPacketNumbers h) (u64 (p + 1))).

Definition GetAckRanges (h : receivedPacketHistory) : list AckRange :=
  (λ el, MkAckRange (Start el) (End el)) <$> ranges h.

Definition GetHighestAckRange (h : receivedPacketHistory) : AckRange :=
  match ranges h with
  | r :: _ => MkAckRange (Start r) (End r)
  | [] => MkAckRange 0 0
  end.

End receivedPacketHistory.

(** ** received_packet_handler.go *)
Module receivedPacketHandler.
Import protocol.

Record receivedPacketHandler := MkHandler {
  largestObserved : Z;
  lowerLimit : Z;
  largestObservedReceivedTime : Z;
  packetHistory : receivedPacketHistory.receivedPacketHistory;
  ackSendDelay : Z;
  packetsReceivedSinceLastAck : Z;
  retransmittablePacketsReceivedSinceLastAck : Z;
  ackQueued : bool;
  ackAlarm : Z;
  lastAck : option AckFrame.AckFrame;
  version : Z;
  packets : Z;
  recvStreamFrameBytes : Z;
}.

Definition errInvalidPacketNumber : error := NewError "ReceivedPacketHandler: Invalid packet number".

Definition NewReceivedPacketHandler (version : Z) : receivedPacketHandler :=
  MkHandler 0 0 time.zero receivedPacketHistory.newReceivedPacketHistory AckSendDelay
    0 0 false time.zero None version 0 0.

Definition GetStatistics (h : receivedPacketHandler) : Z * Z := (packets h, recvStreamFrameBytes h).

(** maybeQueueAck: the counters, then the decision whether an ACK is queued. *)
Definition maybeQueueAck (h : receivedPacketHandler) (now packetNumber : Z) (shouldInstigateAck : bool) :
    receivedPacketHandler :=
  let received := packetsReceivedSinceLastAck h + 1 in
  let retransmittable := if shouldInstigateAck then retransmittablePacketsReceivedSinceLastAck h + 1
                         else retransmittablePacketsReceivedSinceLastAck h in
  let queued := match lastAck h with None => true | Some _ => ackQueued h end in
  let queued := if version h <? Version39 then
                  if MaxPacketsReceivedBeforeAckSend <=? received then true else queued
                else queued in
  let queued := match lastAck h with
                | Some a => if packetNumber <? AckFrame.LargestAcked a then true else queued
                | None => queued end in
  let queued := match lastAck h with
                | Some a =>
                    if AckFrame.LargestAcked a <?
                       First (receivedPacketHistory.GetHighestAckRange (packetHistory h))
                    then true else queued
                | None => queued end in
  let '(queued, alarm) :=
    if negb queued && shouldInstigateAck then
      if RetransmittablePacketsBeforeAck <=? retransmittable then (true, ackAlarm h)
      else (queued, if time.IsZero (ackAlarm h) then time.Add now (ackSendDelay h) else ackAlarm h)
    else (queued, ackAlarm h) in
  let alarm := if queued then time.zero else alarm in
  MkHandler (largestObserved h) (lowerLimit h) (largestObservedReceivedTime h) (packetHistory h) (ackSendDelay h)
    received retransmittable queued alarm (lastAck h) (version h) (packets h) (recvStreamFrameBytes h).

Definition ReceivedPacket (h : receivedPacketHandler) (now packetNumber : Z) (shouldInstigateAck : bool)
    (payloadLength : Z) : receivedPacketHandler * option error :=
  if packetNumber =? 0 then (h, Some errInvalidPacketNumber)
  else
    let '(largest, rcvTime) := if largestObserved h <? packetNumber then (packetNumber, now)
                               else (largestObserved h, largestObservedReceivedTime h) in
    let with_history hist :=
      MkHandler largest (lowerLimit h) rcvTime hist (ackSendDelay h) (packetsReceivedSinceLastAck h)
        (retransmittablePacketsReceivedSinceLastAck h) (ackQueued h) (ackAlarm h) (lastAck h) (version h)
        (u64 (packets h + 1)) (u64 (recvStreamFrameBytes h + payloadLength)) in
    if packetNumber <=? lowerLimit h then (with_history (packetHistory h), None)
    else
      let '(hist, err) := receivedPacketHistory.ReceivedPacket (packetHistory h) packetNumber in
      match err with
      | Some e => (with_history hist, Some e)
      | None => (maybeQueueAck (with_history hist) now packetNumber shouldInstigateAck, None)
      end.

Definition SetLowerLimit (h : receivedPacketHandler) (p : Z) : receivedPacketHandler :=
  MkHandler (largestObserved h) p (largestObservedReceivedTime h)
    (receivedPacketHistory.DeleteUpTo (packetHistory h) p) (ackSendDelay h) (packetsReceivedSinceLastAck h)
    (retransmittablePacketsReceivedSinceLastAck h) (ackQueued h) (ackAlarm h) (lastAck h) (version h)
    (packets h) (recvStreamFrameBytes h).

(** The ranges of a frame: none when there is a single one. Indexing the last
    element of an empty slice panics. *)
Definition GetAckFrame (h : receivedPacketHandler) (now : Z) :
    receivedPacketHandler * outcome (option AckFrame.AckFrame) :=
  if negb (ackQueued h) && (time.IsZero (ackAlarm h) || time.After (ackAlarm h) now) then (h, Ok None)
  else
    let ackRanges := receivedPacketHistory.GetAckRanges (packetHistory h) in
    match last ackRanges with
    | None => (h, Panic)
    | Some lowest =>
        let ack := AckFrame.MkAckFrame 0 (largestObserved h) (First lowest)
                     (if 1 <? len ackRanges then ackRanges else []) (largestObservedReceivedTime h) 0 in
        (MkHandler (largestObserved h) (lowerLimit h) (largestObservedReceivedTime h) (packetHistory h)
           (ackSendDelay h) 0 0 false time.zero (Some ack) (version h) (packets h) (recvStreamFrameBytes h),
         Ok (Some ack))
    end.

Definition GetClosePathFrame (h : receivedPacketHandler) : outcome ClosePathFrame.ClosePathFrame :=
  let ackRanges := receivedPacketHistory.GetAckRanges (packetHistory h) in
  match last ackRanges with
  | None => Panic
  | Some lowest =>
      Ok (ClosePathFrame.MkClosePathFrame 0 (largestObserved h) (First lowest)
            (if 1 <? len ackRanges then ackRanges else []))
  end.

Definition GetAlarmTimeout (h : receivedPacketHandler) : Z := ackAlarm h.

End receivedPacketHandler.

(** ** stop_waiting_manager.go *)
Module stopWaitingManager.

Record stopWaitingManager := MkManager {
  largestLeastUnackedSent : Z;
  nextLeastUnacked : Z;
  lastStopWaitingFrame : option StopWaitingFrame.StopWaitingFrame;
}.

Definition newFrame (leastUnacked : Z) : StopWaitingFrame.StopWaitingFrame :=
  StopWaitingFrame.MkStopWaitingFrame leastUnacked 0 0.

Definition GetStopWaitingFrame (s : stopWaitingManager) (force : bool) :
    stopWaitingManager * option StopWaitingFrame.StopWaitingFrame :=
  if nextLeastUnacked s <=? largestLeastUnackedSent s then
    if force then
      let last := match lastStopWaitingFrame s with
                  | None => if 0 <? largestLeastUnackedSent s then Some (newFrame (nextLeastUnacked s)) else None
                  | Some f => Some f
                  end in
      (MkManager (largestLeastUnackedSent s) (nextLeastUnacked s) last, last)
    else (s, None)
  else
    let swf := newFrame (nextLeastUnacked s) in
    (MkManager (nextLeastUnacked s) (nextLeastUnacked s) (Some swf), Some swf).

Definition ReceivedAck (s : stopWaitingManager) (ack : AckFrame.AckFrame) : stopWaitingManager :=
  if nextLeastUnacked s <=? AckFrame.LargestAcked ack
  then MkManager (largestLeastUnackedSent s) (u64 (AckFrame.LargestAcked ack + 1)) (lastStopWaitingFrame s)
  else s.

Definition QueuedRetransmissionForPacketNumber (s : stopWaitingManager) (p : Z) : stopWaitingManager :=
  if nextLeastUnacked s <=? p
  then MkManager (largestLeastUnackedSent s) (u64 (p + 1)) (lastStopWaitingFrame s)
  else s.

End stopWaitingManager.

(** ** The history as a set of packet numbers *)
Section history.
Import protocol receivedPacketHistory.

(** The set that a list of intervals stands for. *)
Definition contains (els : list PacketInterval) (q : Z) : Prop :=
  ∃ el, el ∈ els ∧ Start el <= q <= End el.

(** Intervals from high to low, non-empty, with a gap in between, below [b]. *)
Fixpoint intervals_below (b : Z) (els : list PacketInterval) : Prop :=
  match els with
  | [] => True
  | el :: els' => 1 <= Start el <= End el ∧ End el + 1 < b ∧ intervals_below (Start el) els'
  end.

(** The well-formed histories, of packet numbers from 1 to 2^48 - 1. *)
Definition wf_history (h : receivedPacketHistory) : Prop := intervals_below (2 ^ 48 + 1) (ranges h).

Lemma contains_nil q : ¬ contains [] q.
Proof. intros (el & Hel & _). set_solver. Qed.
Lemma contains_cons el els q : contains (el :: els) q ↔ Start el <= q <= End el ∨ contains els q.
Proof.
  unfold contains. split.
  - intros (x & [->|Hx]%elem_of_cons & Hq); eauto.
  - intros [Hq|(x & Hx & Hq)]; [exists el|exists x]; set_solver.
Qed.

Lemma intervals_below_bound b els q : intervals_below b els → contains els q → 1 <= q ∧ q + 1 < b.
Proof.
  revert b. induction els as [|el els IH]; intros b Hb Hc; [by apply contains_nil in Hc|].
  destruct Hb as (? & ? & Hb). apply contains_cons in Hc as [?|Hc]; [lia|].
  specialize (IH _ Hb Hc). lia.
Qed.

Lemma intervals_below_mono b b' els : b <= b' → intervals_below b els → intervals_below b' els.
Proof. destruct els as [|el els]; simpl; [done|]. intros ? (? & ? & ?). repeat split; done || lia. Qed.

Lemma maybeMerge_spec b el prevs : 1 <= Start el <= End el → End el + 1 < b → b <= 2 ^ 48 + 1 →
  intervals_below (Start el + 1) prevs →
  intervals_below b (maybeMerge el prevs) ∧
  ∀ q, contains (maybeMerge el prevs) q ↔ Start el <= q <= End el ∨ contains prevs q.
Proof.
  intros Hel Hb Hb2 Hp. unfold maybeMerge. destruct prevs as [|prev prevs].
  - split; [simpl; lia|]. intros q. apply contains_cons.
  - destruct Hp as (? & ? & Hp). replace (u64 (End prev + 1)) with (End prev + 1) by zlia.
    destruct (Z.eqb_spec (End prev + 1) (Start el)) as [E|E].
    + split; [simpl; repeat split; done || lia|]. intros q. rewrite !contains_cons. cbn [Start End].
      split; [intros [?|?]; [|tauto]|intros [?|[?|?]]; [left; lia|left; lia|tauto]].
      destruct (decide (Start el <= q)); [left; lia|right; left; lia].
    + split; [simpl; repeat split; done || lia|]. intros q. by rewrite !contains_cons.
Qed.

Lemma insertLoop_spec b p els : 1 <= p → p + 1 < b → b <= 2 ^ 48 + 1 → intervals_below b els →
  intervals_below b (insertLoop p els) ∧ ∀ q, contains (insertLoop p els) q ↔ q = p ∨ contains els q.
Proof.
  revert b. induction els as [|el els IH]; intros b Hp Hpb Hb Hels; cbn [insertLoop].
  - split; [simpl; lia|]. intros q. rewrite contains_cons. cbn [Start End].
    pose proof (contains_nil q). split; [intros [?|?]; [left; lia|tauto]|intros [->|?]; [left; lia|tauto]].
  - destruct Hels as (Hel & Helb & Hels).
    replace (u64 (p - 1)) with (p - 1) by zlia. replace (u64 (p + 1)) with (p + 1) by zlia.
    destruct ((Start el <=? p) && (p <=? End el)) eqn:Ein.
    { split; [simpl; done|]. intros q. rewrite contains_cons. split; [tauto|]. intros [->|?]; [left; lia|tauto]. }
    destruct (Z.eqb_spec (End el) (p - 1)) as [E|E].
    { destruct (maybeMerge_spec b (MkPacketInterval (Start el) p) els) as [Hw Hc]; cbn [Start End] in *; try lia.
      { eapply intervals_below_mono; [|done]. lia. }
      split; [done|]. intros q. rewrite Hc, contains_cons.
      split; [intros [?|?]; [|tauto]|intros [->|[?|?]]; [left; lia|left; lia|tauto]].
      destruct (decide (q = p)); [tauto|right; left; lia]. }
    destruct (Z.eqb_spec (Start el) (p + 1)) as [E'|E'].
    { destruct (maybeMerge_spec b (MkPacketInterval p (End el)) els) as [Hw Hc]; cbn [Start End] in *; try lia.
      { replace (p + 1) with (Start el) by lia. done. }
      split; [done|]. intros q. rewrite Hc, contains_cons.
      split; [intros [?|?]; [|tauto]|intros [->|[?|?]]; [left; lia|left; lia|tauto]].
      destruct (decide (q = p)); [tauto|right; left; lia]. }
    destruct (Z.ltb_spec (End el) p).
    { split; [simpl; repeat split; done || lia|]. intros q. rewrite !contains_cons. cbn [Start End].
      split; [intros [?|?]; [left; lia|tauto]|intros [->|?]; [left; lia|tauto]]. }
    destruct (IH (Start el)) as [Hw Hc]; [lia|lia|lia|done|].
    split; [simpl; repeat split; done || lia|]. intros q. rewrite !contains_cons, Hc. tauto.
Qed.

(** The front-to-back view, for DeleteUpTo. *)
Lemma intervals_below_app b els1 els2 : intervals_below b (els1 ++ els2) ↔
  intervals_below b els1 ∧ intervals_below (match last els1 with Some el => Start el | None => b end) els2.
Proof.
  revert b. induction els1 as [|el els1 IH]; intros b; [simpl; tauto|].
  cbn [app intervals_below]. rewrite IH, last_cons. destruct (last els1); tauto.
Qed.

Lemma contains_app els1 els2 q : contains (els1 ++ els2) q ↔ contains els1 q ∨ contains els2 q.
Proof.
  induction els1 as [|el els1 IH]; simpl.
  - pose proof (contains_nil q). tauto.
  - rewrite !contains_cons, IH. tauto.
Qed.

Lemma contains_rev els q : contains (rev els) q ↔ contains els q.
Proof.
  induction els as [|el els IH]; [done|]. cbn [rev]. rewrite contains_app, IH, !contains_cons.
  pose proof (contains_nil q). tauto.
Qed.

(** The other intervals are above the one at the front. *)
Lemma intervals_above_front b els el q : intervals_below b (els ++ [el]) → contains els q → End el + 1 < q.
Proof.
  revert b q. induction els as [|e els IH]; intros b q Hb Hc; [by apply contains_nil in Hc|].
  destruct Hb as (? & ? & Hb). apply contains_cons in Hc as [?|Hc]; [|by apply (IH (Start e))].
  destruct els as [|e' els]; [destruct Hb as (? & ? & _); lia|].
  assert (End el + 1 < Start e'); [|destruct Hb as (? & ? & _); lia].
  apply (IH (Start e)); [done|]. apply contains_cons. left. destruct Hb as (? & ? & _). lia.
Qed.

Lemma deleteLoop_above p els : (∀ q, contains els q → p < q) → Forall (λ el, Start el <= End el) els →
  deleteLoop p els = els.
Proof.
  intros Hq Hf. destruct Hf as [|el els Hel Hels]; [done|]. cbn [deleteLoop].
  assert (p < Start el) by (apply Hq, contains_cons; left; lia).
  destruct (Z.leb_spec (Start el) p); [lia|]. destruct (Z.leb_spec (End el) p); [lia|]. done.
Qed.

Lemma intervals_below_nonempty b els : intervals_below b els → Forall (λ el, Start el <= End el) els.
Proof.
  revert b. induction els as [|el els IH]; intros b Hb; [constructor|]. destruct Hb as (? & ? & Hb).
  constructor; [lia|eauto].
Qed.

Lemma deleteLoop_spec b p els : 0 <= p → b <= 2 ^ 48 + 1 → intervals_below b (rev els) →
  intervals_below b (rev (deleteLoop p els)) ∧
  ∀ q, contains (deleteLoop p els) q ↔ contains els q ∧ p < q.
Proof.
  intros Hp Hb. induction els as [|el els IH]; intros Hels.
  { split; [done|]. intros q. pose proof (contains_nil q). simpl. tauto. }
  cbn [rev] in Hels. pose proof Hels as Hels'. apply intervals_below_app in Hels' as [Hr Hel].
  destruct Hel as (Hel & Helb & _). destruct (IH Hr) as [IHb IHc]. clear IH.
  assert (∀ q, contains els q → End el + 1 < q) as Habove.
  { intros q Hq. apply (intervals_above_front b (rev els)); [done|]. by apply contains_rev. }
  assert (Forall (λ el, Start el <= End el) els) as Hne.
  { rewrite <- (rev_involutive els). apply Forall_rev. by apply (intervals_below_nonempty b). }
  cbn [deleteLoop]. destruct ((Start el <=? p) && (p <? End el)) eqn:E1.
  - assert (deleteLoop p els = els) as Ed.
    { apply deleteLoop_above; [|done]. intros q Hq. specialize (Habove q Hq). lia. }
    assert (End el < 2 ^ 48).
    { assert (contains (rev els ++ [el]) (End el)) as Hc by (apply contains_app; right; apply contains_cons; left; lia).
      pose proof (intervals_below_bound _ _ _ Hels Hc). lia. }
    rewrite Ed. replace (u64 (p + 1)) with (p + 1) by zlia. split.
    + cbn [rev]. apply intervals_below_app. split; [done|]. cbn [intervals_below Start End]. lia.
    + intros q. rewrite !contains_cons. cbn [Start End]. split.
      * intros [?|Hq]; [split; [left|]; lia|]. split; [by right|]. specialize (Habove q Hq). lia.
      * intros [[?|Hq] ?]; [left; lia|by right].
  - destruct (Z.leb_spec (End el) p).
    + split; [done|]. intros q. rewrite contains_cons, IHc. split; [tauto|]. intros [[?|?] ?]; [lia|tauto].
    + split; [done|]. intros q. rewrite contains_cons. split; [|tauto]. intros [?|Hq]; (split; [tauto|]); [lia|].
      specialize (Habove q Hq). lia.
Qed.

Lemma length_zero_iff_nil' {A} (l : list A) : len l = 0 → l = [].
Proof. destruct l; [done|]. rewrite len_cons. pose proof (len_nonneg l). lia. Qed.

Lemma DeleteUpTo_spec h p : wf_history h → 0 <= p →
  wf_history (DeleteUpTo h p) ∧ ∀ q, contains (ranges (DeleteUpTo h p)) q ↔ contains (ranges h) q ∧ p < q.
Proof.
  intros Hh Hp. unfold wf_history, DeleteUpTo. cbn [ranges].
  destruct (deleteLoop_spec (2 ^ 48 + 1) p (rev (ranges h))) as [Hw Hc]; [lia|lia|by rewrite rev_involutive|].
  split; [done|]. intros q. by rewrite contains_rev, Hc, contains_rev.
Qed.

(** C29: the history is a set of packet numbers. Every operation keeps the list of
    intervals well-formed (ordered, non-empty, never adjacent); receiving a packet
    adds exactly this number, unless 2500 ranges are tracked, when it is refused
    with an error and nothing changes; deleting removes exactly the numbers up to
    [p]. *)
Theorem history_refines_set h p :
  wf_history h → 1 <= p < 2 ^ 48 →
  (let '(h', err) := ReceivedPacket h p in
   wf_history h' ∧
   match err with
   | None => ∀ q, contains (ranges h') q ↔ q = p ∨ contains (ranges h) q
   | Some e => e = errTooManyOutstandingReceivedAckRanges ∧ h' = h ∧
               MaxTrackedReceivedAckRanges <= len (ranges h)
   end) ∧
  (let h' := DeleteUpTo h p in
   wf_history h' ∧ ∀ q, contains (ranges h') q ↔ contains (ranges h) q ∧ p < q).
Proof.
  intros Hh Hp. split.
  - unfold ReceivedPacket. destruct (Z.leb_spec MaxTrackedReceivedAckRanges (len (ranges h))); [done|].
    destruct (Z.eqb_spec (len (ranges h)) 0) as [E|E].
    + apply length_zero_iff_nil' in E. unfold wf_history. cbn [ranges]. rewrite E. split; [simpl; lia|].
      intros q. rewrite contains_cons. cbn [Start End]. pose proof (contains_nil q).
      split; [intros [?|?]; [left; lia|tauto]|intros [->|?]; [left; lia|tauto]].
    + unfold wf_history. cbn [ranges]. apply insertLoop_spec; [lia|lia|lia|done].
  - apply DeleteUpTo_spec; [done|lia].
Qed.

Lemma history_refines_set_witness :
  let h := MkHistory [MkPacketInterval 7 9; MkPacketInterval 2 5] 0 in
  let h' := (ReceivedPacket h 6).1 in
  ranges h' = [MkPacketInterval 2 9] ∧ ∀ q, contains (ranges h') q ↔ q = 6 ∨ contains (ranges h) q.
Proof.
  intros h h'. split; [vm_compute; reflexivity|].
  assert (wf_history h) as Hwf by (unfold wf_history, h; cbn; lia).
  destruct (history_refines_set h 6 Hwf) as [[_ Hc] _]; [lia|]. exact Hc.
Defined.

End history.

(** ** What the handler acknowledges *)
Section handler.
Import protocol receivedPacketHandler.
Notation hist := receivedPacketHistory.ranges.

(** The executions of a handler: packets are received without an error, a lower
    limit is set below a packet that has been received (a STOP_WAITING frame names
    a packet up to the one that carries it), ACK frames are taken. [rcv] collects
    the packet numbers received and [lim] the highest lower limit. *)
Inductive reach : list Z → Z → receivedPacketHandler → Prop :=
  | reach_new v : reach [] 0 (NewReceivedPacketHandler v)
  | reach_recv rcv lim h now pn si pl h' :
      reach rcv lim h → 1 <= pn < 2 ^ 48 →
      ReceivedPacket h now pn si pl = (h', None) → reach (pn :: rcv) lim h'
  | reach_limit rcv lim h p :
      reach rcv lim h → 0 <= p < largestObserved h → reach rcv (Z.max lim p) (SetLowerLimit h p)
  | reach_ack rcv lim h now h' o :
      reach rcv lim h → GetAckFrame h now = (h', Ok o) → reach rcv lim h'.

Definition handler_inv (rcv : list Z) (lim : Z) (h : receivedPacketHandler) : Prop :=
  wf_history (packetHistory h) ∧ 0 <= lim ∧ lowerLimit h <= lim ∧
  (∀ q, contains (hist (packetHistory h)) q → q ∈ rcv) ∧
  (∀ q, q ∈ rcv → lim < q → contains (hist (packetHistory h)) q) ∧
  (∀ q, q ∈ rcv → q <= largestObserved h) ∧
  match rcv with
  | [] => largestObserved h = 0 ∧ lim = 0 ∧ lastAck h = None ∧ ackQueued h = false ∧ ackAlarm h = 0
  | _ => contains (hist (packetHistory h)) (largestObserved h) ∧ lim < largestObserved h
  end.

Lemma maybeQueueAck_fields h now pn si :
  let h' := maybeQueueAck h now pn si in
  largestObserved h' = largestObserved h ∧ lowerLimit h' = lowerLimit h ∧ packetHistory h' = packetHistory h ∧
  largestObservedReceivedTime h' = largestObservedReceivedTime h ∧ lastAck h' = lastAck h ∧
  ackSendDelay h' = ackSendDelay h ∧ version h' = version h.
Proof. unfold maybeQueueAck. cbv zeta. destruct (if negb _ && _ then _ else _) as [q a]. by repeat split. Qed.

(** The effect of ReceivedPacket on what is tracked. *)
Lemma ReceivedPacket_fields h now pn si pl h' : 1 <= pn →
  ReceivedPacket h now pn si pl = (h', None) →
  largestObserved h' = Z.max (largestObserved h) pn ∧ lowerLimit h' = lowerLimit h ∧
  (pn <= lowerLimit h ∧ packetHistory h' = packetHistory h ∨
   lowerLimit h < pn ∧ receivedPacketHistory.ReceivedPacket (packetHistory h) pn = (packetHistory h', None)).
Proof.
  intros Hpn. unfold ReceivedPacket. destruct (Z.eqb_spec pn 0); [lia|].
  destruct (if largestObserved h <? pn then _ else _) as [lg tm] eqn:El.
  assert (lg = Z.max (largestObserved h) pn) as -> by (destruct (Z.ltb_spec (largestObserved h) pn); injection El; lia).
  destruct (Z.leb_spec pn (lowerLimit h)); [intros [= <-]; cbn; auto|].
  destruct (receivedPacketHistory.ReceivedPacket _ pn) as [hs [e|]] eqn:E; [done|]. intros [= <-].
  destruct (maybeQueueAck_fields (MkHandler (Z.max (largestObserved h) pn) (lowerLimit h) tm hs (ackSendDelay h)
    (packetsReceivedSinceLastAck h) (retransmittablePacketsReceivedSinceLastAck h) (ackQueued h) (ackAlarm h)
    (lastAck h) (version h) (u64 (packets h + 1)) (u64 (recvStreamFrameBytes h + pl))) now pn si)
    as (-> & -> & -> & _). cbn [largestObserved lowerLimit packetHistory]. auto.
Qed.

Lemma history_insert hs pn hs' : wf_history hs → 1 <= pn < 2 ^ 48 →
  receivedPacketHistory.ReceivedPacket hs pn = (hs', None) →
  wf_history hs' ∧ ∀ q, contains (hist hs') q ↔ q = pn ∨ contains (hist hs) q.
Proof.
  intros Hwf Hpn. unfold receivedPacketHistory.ReceivedPacket. destruct (_ <=? _); [done|].
  destruct (Z.eqb_spec (len (hist hs)) 0) as [E|E]; intros [= <-]; unfold wf_history; cbn [hist].
  - apply length_zero_iff_nil' in E. rewrite E. apply (insertLoop_spec (2 ^ 48 + 1) pn []); simpl; lia || done.
  - apply insertLoop_spec; [lia|lia|lia|done].
Qed.

Lemma reach_inv rcv lim h : reach rcv lim h → handler_inv rcv lim h.
Proof.
  induction 1 as [v|rcv lim h now pn si pl h' _ IH Hpn Hr|rcv lim h p _ IH Hp|rcv lim h now h' o _ IH Hack].
  - split; [done|]. split; [lia|]. split; [cbn; lia|]. split; [intros q Hq; by apply contains_nil in Hq|].
    split; [set_solver|]. split; [set_solver|done].
  - destruct IH as (Hwf & Hlim & Hlow & Hin & Hout & Hmax & Hcase).
    apply ReceivedPacket_fields in Hr as (Hlg & Hll & Hhist); [|lia].
    assert (wf_history (packetHistory h') ∧ (∀ q, contains (hist (packetHistory h')) q →
      q = pn ∨ contains (hist (packetHistory h)) q) ∧
      (∀ q, contains (hist (packetHistory h)) q → contains (hist (packetHistory h')) q) ∧
      (lowerLimit h < pn → contains (hist (packetHistory h')) pn)) as (Hwf' & H1 & H2 & H3).
    { destruct Hhist as [[? ->]|[? E]]; [repeat split; [done|auto|auto|lia]|].
      destruct (history_insert _ _ _ Hwf Hpn E) as [? Hc]. setoid_rewrite Hc. repeat split; auto. }
    split; [done|]. split; [done|]. split; [lia|].
    split; [intros q Hq; apply H1 in Hq as [->|Hq]; [set_solver|]; apply elem_of_cons; auto|].
    split; [intros q [->|Hq]%elem_of_cons Hlt; [apply H3; lia|auto]|].
    split; [intros q [->|Hq]%elem_of_cons; [lia|specialize (Hmax q Hq); lia]|].
    rewrite Hlg. destruct (decide (largestObserved h < pn)).
    + rewrite Z.max_r by lia. destruct rcv; [destruct Hcase as (? & -> & _)|destruct Hcase as [_ ?]];
        (split; [apply H3; lia|lia]).
    + rewrite Z.max_l by lia. destruct rcv; [destruct Hcase as (? & _); lia|]. destruct Hcase. auto.
  - destruct IH as (Hwf & Hlim & Hlow & Hin & Hout & Hmax & Hcase).
    destruct (DeleteUpTo_spec (packetHistory h) p Hwf) as [Hwf' Hc]; [lia|].
    split; [done|]. cbn [packetHistory lowerLimit largestObserved SetLowerLimit lastAck ackQueued ackAlarm].
    split; [lia|]. split; [lia|]. split; [intros q Hq; apply Hc in Hq as [Hq _]; auto|].
    split; [intros q Hq Hlt; apply Hc; split; [apply Hout; [done|lia]|lia]|].
    split; [done|]. destruct rcv; [destruct Hcase as (? & _); lia|]. destruct Hcase as [? ?].
    split; [apply Hc; split; [done|lia]|lia].
  - assert (packetHistory h' = packetHistory h ∧ lowerLimit h' = lowerLimit h ∧ largestObserved h' = largestObserved h ∧
      (rcv = [] → h' = h)) as (E1 & E2 & E3 & E4).
    { unfold GetAckFrame in Hack. destruct (negb _ && _) eqn:Edue; [by injection Hack as <-|].
      destruct (last _) as [lowest|] eqn:El; [|done]. injection Hack as <- _. repeat split. intros ->.
      exfalso. destruct IH as (_ & _ & _ & _ & _ & _ & (_ & _ & _ & Hq & Ha)). by rewrite Hq, Ha in Edue. }
    unfold handler_inv. rewrite E1, E2, E3. destruct IH as (? & ? & ? & ? & ? & ? & Hcase).
    do 6 (split; [done|]). destruct rcv; [by rewrite E4|done].
Qed.

(** The ranges of the history make a valid frame. *)
Lemma history_ranges b els : intervals_below b els → ranges_below b ((λ el, MkAckRange (Start el) (End el)) <$> els).
Proof.
  revert b. induction els as [|el els IH]; intros b Hb; [done|]. destruct Hb as (? & ? & Hb).
  rewrite fmap_cons. split; [cbn; lia|]. split; [done|]. by apply IH.
Qed.

Lemma reach_ack_ranges rcv lim h : reach rcv lim h → rcv ≠ [] → ∃ lowest,
  last (receivedPacketHistory.GetAckRanges (packetHistory h)) = Some lowest ∧
  let rs := receivedPacketHistory.GetAckRanges (packetHistory h) in
  let frs := if 1 <? len rs then rs else [] in
  valid_acks (largestObserved h) (First lowest) frs ∧ 1 <= First lowest ∧
  ∀ q, acked (largestObserved h) (First lowest) frs q ↔ contains (hist (packetHistory h)) q.
Proof.
  intros Hr Hne. destruct (reach_inv _ _ _ Hr) as (Hwf & Hlim & Hlow & Hin & Hout & Hmax & Hcase).
  destruct rcv as [|r0 rcv]; [done|]. destruct Hcase as [Hlg Hlt]. clear Hne.
  unfold receivedPacketHistory.GetAckRanges. set (els := hist (packetHistory h)) in *.
  assert (∀ q, contains els q → q <= largestObserved h) as Hall by auto.
  unfold wf_history in Hwf. fold els in Hwf. clearbody els.
  destruct els as [|el els]; [by apply contains_nil in Hlg|].
  pose proof (intervals_below_bound _ _ _ Hwf Hlg) as Hbound.
  pose proof (intervals_below_nonempty _ _ Hwf) as Hnonempty.
  destruct Hwf as (Hel & Helb & Hwf).
  assert (End el = largestObserved h) as HEnd.
  { apply contains_cons in Hlg as [?|Hlg].
    - assert (End el <= largestObserved h) by (apply Hall, contains_cons; left; lia). lia.
    - pose proof (intervals_below_bound _ _ _ Hwf Hlg).
      assert (End el <= largestObserved h) by (apply Hall, contains_cons; left; lia). lia. }
  set (g := λ el, MkAckRange (Start el) (End el)).
  assert (is_Some (last (g <$> el :: els))) as [lowest Hlast] by (by apply last_is_Some; rewrite fmap_cons).
  exists lowest. split; [done|].
  destruct els as [|el2 els].
  - injection Hlast as <-. change (1 <? len (g <$> [el])) with false. cbv iota zeta. cbn [g First].
    split; [split; [lia|lia]|]. split; [lia|]. intros q. rewrite contains_cons. cbn [acked].
    pose proof (contains_nil q). split; [left; lia|intros [?|?]; [lia|tauto]].
  - replace (1 <? len (g <$> el :: el2 :: els)) with true.
    2: { symmetry. rewrite !fmap_cons, !len_cons. pose proof (len_nonneg (g <$> els)). lia. }
    cbv iota zeta.
    assert (valid_ranges (largestObserved h) (First lowest) (g <$> el :: el2 :: els)) as Hvr.
    { rewrite fmap_cons. split; [cbn; lia|]. split; [done|]. split; [by rewrite fmap_cons|].
      split; [by apply history_ranges|]. intros rl Hrl. rewrite fmap_cons in Hlast. congruence. }
    assert (lowest ∈ (g <$> el :: el2 :: els)) as Hlin by by apply last_Some_elem_of.
    split; [|split].
    + split; [lia|]. rewrite !fmap_cons in *. done.
    + apply list_elem_of_fmap in Hlin as (x & -> & Hx). cbn. apply elem_of_cons in Hx as [->|Hx]; [lia|].
      assert (Start x <= End x) by (eapply Forall_forall in Hnonempty; [|by apply elem_of_cons; right]; done).
      assert (contains (el2 :: els) (Start x)) as Hc by (exists x; split; [done|lia]).
      pose proof (intervals_below_bound _ _ _ Hwf Hc). lia.
    + intros q. rewrite !fmap_cons. unfold acked. rewrite <- !fmap_cons. split.
      * intros (r & Hr' & Hq). apply list_elem_of_fmap in Hr' as (x & -> & Hx). exists x. auto.
      * intros (x & Hx & Hq). exists (g x). split; [by apply list_elem_of_fmap_2|done].
Qed.

(** On every execution, GetAckFrame does not panic; the frame it returns is
    valid, and it acknowledges only packets that have been received, and all of
    them above the highest lower limit. *)
Theorem ack_frame_faithful rcv lim h now :
  reach rcv lim h →
  ∃ fo, (GetAckFrame h now).2 = Ok fo ∧
    ∀ f, fo = Some f → valid_ack_frame f ∧
      (∀ q, AckFrame.AcksPacket f q = true → q ∈ rcv) ∧
      (∀ q, q ∈ rcv → lim < q → AckFrame.AcksPacket f q = true).
Proof.
  intros Hr. destruct (reach_inv _ _ _ Hr) as (Hwf & Hlim & Hlow & Hin & Hout & Hmax & Hcase).
  unfold GetAckFrame. destruct (negb _ && _) eqn:Edue; [by exists None|].
  assert (rcv ≠ []) as Hne.
  { intros ->. destruct Hcase as (_ & _ & _ & Hq & Ha). by rewrite Hq, Ha in Edue. }
  destruct (reach_ack_ranges _ _ _ Hr Hne) as (lowest & -> & Hv & H1 & Hac). eexists. split; [done|].
  intros f [= <-]. split; [|split].
  - split; [unfold is_u8; cbn; lia|]. split; [exact Hv|]. done.
  - intros q Hq. apply AcksPacket_spec in Hq; [|exact Hv]. apply Hin, Hac, Hq.
  - intros q Hq Hlt. apply AcksPacket_spec; [exact Hv|]. apply Hac. auto.
Qed.

(** The handler after the packets of [pns], received at time 1. *)
Fixpoint receive_all (h : receivedPacketHandler) (pns : list Z) : receivedPacketHandler :=
  match pns with
  | [] => h
  | pn :: pns' => receive_all (ReceivedPacket h 1 pn true 0).1 pns'
  end.

Lemma ack_frame_faithful_witness :
  let h := receive_all (NewReceivedPacketHandler 39) [1; 2; 5] in
  ∃ fo, (GetAckFrame h 2).2 = Ok fo ∧
    ∀ f, fo = Some f → valid_ack_frame f ∧
      (∀ q, AckFrame.AcksPacket f q = true → q ∈ [5; 2; 1]) ∧
      (∀ q, q ∈ [5; 2; 1] → 0 < q → AckFrame.AcksPacket f q = true).
Proof.
  apply ack_frame_faithful.
  apply (reach_recv [2; 1] 0 (receive_all (NewReceivedPacketHandler 39) [1; 2]) 1 5 true 0); [|lia|reflexivity].
  apply (reach_recv [1] 0 (receive_all (NewReceivedPacketHandler 39) [1]) 1 2 true 0); [|lia|reflexivity].
  apply (reach_recv [] 0 (NewReceivedPacketHandler 39) 1 1 true 0); [apply reach_new|lia|reflexivity].
Defined.

(** A path that has received a packet can always be closed: the CLOSE_PATH
    frame is valid and reports exactly the packets of the history. On a path that
    has not received any packet yet, GetClosePathFrame panics. *)
Theorem close_path_frame_faithful rcv lim h :
  reach rcv lim h →
  (rcv = [] → GetClosePathFrame h = Panic) ∧
  (rcv ≠ [] → ∃ f, GetClosePathFrame h = Ok f ∧ valid_close_path_frame f ∧
     (∀ q, ClosePathFrame.AcksPacket f q = true → q ∈ rcv) ∧
     (∀ q, q ∈ rcv → lim < q → ClosePathFrame.AcksPacket f q = true)).
Proof.
  intros Hr. destruct (reach_inv _ _ _ Hr) as (Hwf & Hlim & Hlow & Hin & Hout & Hmax & Hcase).
  unfold GetClosePathFrame. split.
  - intros ->. unfold receivedPacketHistory.GetAckRanges.
    destruct (hist (packetHistory h)) as [|el els] eqn:E; [done|]. exfalso.
    unfold wf_history in Hwf. rewrite E in Hwf. destruct Hwf as (? & _).
    assert (Start el ∈ []) by (apply Hin, contains_cons; left; lia). set_solver.
  - intros Hne. destruct (reach_ack_ranges _ _ _ Hr Hne) as (lowest & -> & Hv & H1 & Hac).
    eexists. split; [done|]. split; [|split].
    + split; [unfold is_u8; cbn; lia|]. split; [exact Hv|]. done.
    + intros q Hq. apply AcksPacket_spec in Hq; [|exact Hv]. apply Hin, Hac, Hq.
    + intros q Hq Hlt. apply AcksPacket_spec; [exact Hv|]. apply Hac. auto.
Qed.

Lemma close_path_frame_faithful_witness :
  GetClosePathFrame (NewReceivedPacketHandler 39) = Panic.
Proof. apply (close_path_frame_faithful [] 0); [apply reach_new|reflexivity]. Defined.

Lemma reach_delay rcv lim h : reach rcv lim h → ackSendDelay h = AckSendDelay.
Proof.
  induction 1 as [v|rcv lim h now pn si pl h' _ IH Hpn HR|rcv lim h p _ IH Hp|rcv lim h now h' o _ IH Hack]; [done| |done|].
  - unfold ReceivedPacket in HR. destruct (pn =? 0); [done|].
    destruct (if largestObserved h <? pn then _ else _) as [lg tm]. destruct (pn <=? lowerLimit h); [by injection HR as <-|].
    destruct (receivedPacketHistory.ReceivedPacket _ pn) as [hs [e|]]; [done|]. injection HR as <-.
    match goal with |- context [maybeQueueAck ?x _ _ _] =>
      destruct (maybeQueueAck_fields x now pn si) as (_ & _ & _ & _ & _ & -> & _) end. done.
  - unfold GetAckFrame in Hack. destruct (negb _ && _); [by injection Hack as <-|].
    destruct (last _); [|done]. by injection Hack as <-.
Qed.

(** A packet above the lower limit goes to maybeQueueAck. *)
Lemma ReceivedPacket_queue h now pn si pl h' : 1 <= pn → lowerLimit h < pn →
  ReceivedPacket h now pn si pl = (h', None) →
  ∃ h0, h' = maybeQueueAck h0 now pn si ∧ ackSendDelay h0 = ackSendDelay h ∧ ackAlarm h0 = ackAlarm h ∧
    retransmittablePacketsReceivedSinceLastAck h0 = retransmittablePacketsReceivedSinceLastAck h.
Proof.
  intros Hpn Hlow. unfold ReceivedPacket. destruct (Z.eqb_spec pn 0); [lia|].
  destruct (if largestObserved h <? pn then _ else _) as [lg tm]. destruct (Z.leb_spec pn (lowerLimit h)); [lia|].
  destruct (receivedPacketHistory.ReceivedPacket _ pn) as [hs [e|]]; [done|]. intros [= <-].
  eexists. split; [reflexivity|]. done.
Qed.

Lemma maybeQueueAck_alarm h now pn :
  let h' := maybeQueueAck h now pn true in
  ackQueued h' = true ∨
  ackAlarm h' = (if time.IsZero (ackAlarm h) then time.Add now (ackSendDelay h) else ackAlarm h) ∧ ackQueued h' = false.
Proof.
  unfold maybeQueueAck. cbv zeta. match goal with |- context [negb ?q && true] => destruct q end; [by left|].
  cbn [negb andb]. destruct (_ <=? _); [by left|]. by right.
Qed.

Lemma maybeQueueAck_second h now pn :
  RetransmittablePacketsBeforeAck <= retransmittablePacketsReceivedSinceLastAck h + 1 →
  ackQueued (maybeQueueAck h now pn true) = true.
Proof.
  intros Hrt. unfold maybeQueueAck. cbv zeta. match goal with |- context [negb ?q && true] => destruct q end; [done|].
  cbn [negb andb]. destruct (Z.leb_spec RetransmittablePacketsBeforeAck
    (retransmittablePacketsReceivedSinceLastAck h + 1)); [done|lia].
Qed.

(** When an ACK is due there is one. *)
Lemma ack_frame_exists rcv lim h now : reach rcv lim h → rcv ≠ [] →
  ackQueued h = true ∨ time.IsZero (ackAlarm h) = false ∧ time.After (ackAlarm h) now = false →
  ∃ f, (GetAckFrame h now).2 = Ok (Some f).
Proof.
  intros Hr Hne Hdue. destruct (reach_ack_ranges _ _ _ Hr Hne) as (lowest & Hl & _).
  unfold GetAckFrame. replace (negb _ && _) with false by (destruct Hdue as [->|[-> ->]]; [done|by destruct (negb _)]).
  rewrite Hl. eauto.
Qed.

(** An acknowledgement is not put off for long. After a retransmittable
    packet above the lower limit, an ACK is queued or the alarm is set, no later
    than [AckSendDelay] (25 ms) from now if it was not running; the second
    retransmittable packet since the last ACK queues it; and once it is queued,
    GetAckFrame returns a frame at any time. *)
Theorem ack_timely rcv lim h now pn pl h' :
  reach rcv lim h → 1 <= pn < 2 ^ 48 → lowerLimit h < pn → 0 < now →
  ReceivedPacket h now pn true pl = (h', None) →
  (ackQueued h' = true ∨
   ackAlarm h' = (if time.IsZero (ackAlarm h) then time.Add now AckSendDelay else ackAlarm h) ∧
   time.IsZero (ackAlarm h') = false) ∧
  (RetransmittablePacketsBeforeAck <= retransmittablePacketsReceivedSinceLastAck h + 1 → ackQueued h' = true) ∧
  ((ackQueued h' = true ∨ time.IsZero (ackAlarm h') = false ∧ ackAlarm h' <= now) →
     ∃ f, (GetAckFrame h' now).2 = Ok (Some f)).
Proof.
  intros Hr Hpn Hlow Hnow HR.
  assert (reach (pn :: rcv) lim h') as Hr' by by eapply reach_recv.
  pose proof (reach_delay _ _ _ Hr) as Hdelay. 
  destruct (ReceivedPacket_queue _ _ _ _ _ _ (proj1 Hpn) Hlow HR) as (h0 & E & Ed & Ea & Ert).
  split; [|split].
  - rewrite E. destruct (maybeQueueAck_alarm h0 now pn) as [?|[? ?]]; [by left|right].
    rewrite <- Hdelay, <- Ed, <- Ea. split; [done|]. apply Z.eqb_neq.
    match goal with H : ackAlarm _ = _ |- _ => rewrite H end.
    unfold time.IsZero, time.Add. rewrite Ed, Hdelay. unfold AckSendDelay, time.Millisecond. case_bool; lia.
  - intros Hrt. rewrite E. apply maybeQueueAck_second. by rewrite Ert.
  - intros Hdue. destruct (ack_frame_exists (pn :: rcv) lim h' now) as [f Hf]; [done|done| |by exists f].
    destruct Hdue as [->|[-> ?]]; [by left|right]. split; [done|]. unfold time.After. lia.
Qed.

Lemma ack_timely_witness :
  let h := receive_all (NewReceivedPacketHandler 39) [1] in
  let h' := (ReceivedPacket h 5 2 true 0).1 in
  ackQueued h' = true ∧ ∃ f, (GetAckFrame h' 5).2 = Ok (Some f).
Proof.
  intros h h'.
  destruct (ack_timely [1] 0 h 5 2 0 h') as (_ & H2 & H3); [|lia|vm_compute; reflexivity|lia|reflexivity|].
  - apply (reach_recv [] 0 (NewReceivedPacketHandler 39) 1 1 true 0); [apply reach_new|lia|reflexivity].
  - assert (ackQueued h' = true) as Hq by (apply H2; vm_compute; congruence).
    split; [exact Hq|]. apply H3. left. exact Hq.
Defined.

(** Receiving a packet again is not filtered out before the decision to
    acknowledge: a duplicate of a packet below the largest acknowledged one leaves
    the history as it is and still queues an ACK. *)
Theorem duplicate_queues_ack rcv lim h now pn si pl a :
  reach rcv lim h → contains (hist (packetHistory h)) pn → lowerLimit h < pn →
  len (hist (packetHistory h)) < MaxTrackedReceivedAckRanges →
  lastAck h = Some a → pn < AckFrame.LargestAcked a →
  ∃ h', ReceivedPacket h now pn si pl = (h', None) ∧ ackQueued h' = true ∧
    ∀ q, contains (hist (packetHistory h')) q ↔ contains (hist (packetHistory h)) q.
Proof.
  intros Hr Hc Hlow Hlen Ha Hlt. destruct (reach_inv _ _ _ Hr) as (Hwf & _).
  pose proof (intervals_below_bound _ _ _ Hwf Hc) as Hb.
  unfold ReceivedPacket. destruct (Z.eqb_spec pn 0); [lia|].
  destruct (if largestObserved h <? pn then _ else _) as [lg tm].
  destruct (Z.leb_spec pn (lowerLimit h)); [lia|].
  destruct (receivedPacketHistory.ReceivedPacket (packetHistory h) pn) as [hs err] eqn:E.
  assert (err = None) as ->.
  { unfold receivedPacketHistory.ReceivedPacket in E. destruct (Z.leb_spec MaxTrackedReceivedAckRanges
      (len (hist (packetHistory h)))); [lia|]. by destruct (_ =? 0); injection E. }
  destruct (history_insert (packetHistory h) pn hs Hwf) as [_ Hc']; [lia|done|].
  eexists. split; [done|]. split.
  - unfold maybeQueueAck. cbn [lastAck ackQueued version packetHistory]. rewrite Ha.
    destruct (Z.ltb_spec pn (AckFrame.LargestAcked a)); [|lia]. destruct (AckFrame.LargestAcked a <? _); done.
  - match goal with |- context [maybeQueueAck ?x _ _ _] => destruct (maybeQueueAck_fields x now pn si) as (_ & _ & -> & _) end.
    cbn [packetHistory]. intros q. rewrite Hc'. split; [intros [->|?]; done|auto].
Qed.

Lemma duplicate_queues_ack_witness :
  let h0 := receive_all (NewReceivedPacketHandler 39) [1; 2; 3] in
  let h := (GetAckFrame h0 5).1 in
  ∃ h', ReceivedPacket h 6 2 false 0 = (h', None) ∧ ackQueued h' = true ∧
    ∀ q, contains (hist (packetHistory h')) q ↔ contains (hist (packetHistory h)) q.
Proof.
  intros h0 h.
  apply (duplicate_queues_ack [3; 2; 1] 0 h 6 2 false 0 (AckFrame.MkAckFrame 0 3 1 [] 1 0)).
  - apply (reach_ack _ _ h0 5 h (Some (AckFrame.MkAckFrame 0 3 1 [] 1 0))); [|vm_compute; reflexivity].
    apply (reach_recv [2; 1] 0 (receive_all (NewReceivedPacketHandler 39) [1; 2]) 1 3 true 0); [|lia|reflexivity].
    apply (reach_recv [1] 0 (receive_all (NewReceivedPacketHandler 39) [1]) 1 2 true 0); [|lia|reflexivity].
    apply (reach_recv [] 0 (NewReceivedPacketHandler 39) 1 1 true 0); [apply reach_new|lia|reflexivity].
  - exists (MkPacketInterval 1 3). split; [vm_compute; constructor|simpl; lia].
  - vm_compute. reflexivity.
  - vm_compute. reflexivity.
  - vm_compute. reflexivity.
  - vm_compute. reflexivity.
Defined.

End handler.

(** ** STOP_WAITING frames *)
Section stop_waiting.
Import stopWaitingManager.

(** Nothing above the next least unacked packet has been announced, and the last
    frame announced what was sent last. *)
Definition swm_inv (s : stopWaitingManager) : Prop :=
  0 <= largestLeastUnackedSent s <= nextLeastUnacked s ∧ nextLeastUnacked s <= 2 ^ 48 ∧
  ∀ f, lastStopWaitingFrame s = Some f → StopWaitingFrame.LeastUnacked f = largestLeastUnackedSent s.

(** The stop-waiting manager keeps its invariant in every operation; a frame
    that it hands out always names the current least unacked packet (one above the
    largest packet acked or retransmitted), an unforced frame is handed out exactly
    when that packet has advanced, and a forced one whenever it is positive. *)
Theorem stop_waiting_correct s force ack p :
  swm_inv s → 0 <= AckFrame.LargestAcked ack < 2 ^ 48 → 0 <= p < 2 ^ 48 →
  (let '(s', fo) := GetStopWaitingFrame s force in
   swm_inv s' ∧ nextLeastUnacked s' = nextLeastUnacked s ∧
   (∀ f, fo = Some f → StopWaitingFrame.LeastUnacked f = nextLeastUnacked s) ∧
   (force = false → (is_Some fo ↔ largestLeastUnackedSent s < nextLeastUnacked s)) ∧
   (force = true → 0 < nextLeastUnacked s → is_Some fo)) ∧
  (let s' := ReceivedAck s ack in
   swm_inv s' ∧ nextLeastUnacked s' = Z.max (nextLeastUnacked s) (AckFrame.LargestAcked ack + 1)) ∧
  (let s' := QueuedRetransmissionForPacketNumber s p in
   swm_inv s' ∧ nextLeastUnacked s' = Z.max (nextLeastUnacked s) (p + 1)).
Proof.
  intros (Hle & Hb & Hlast) Hack Hp. split; [|split].
  - unfold GetStopWaitingFrame. destruct (Z.leb_spec (nextLeastUnacked s) (largestLeastUnackedSent s)).
    + destruct force.
      * destruct (lastStopWaitingFrame s) as [f|] eqn:E.
        -- specialize (Hlast f eq_refl). split; [split; [done|split; [done|by intros ? [= <-]]]|].
           split; [done|]. split; [intros ? [= <-]; lia|]. split; [done|eauto].
        -- destruct (Z.ltb_spec 0 (largestLeastUnackedSent s)).
           ++ split; [split; [done|split; [done|intros ? [= <-]; cbn; lia]]|]. split; [done|].
              split; [by intros ? [= <-]|]. split; [done|eauto].
           ++ split; [by split|]. split; [done|]. split; [done|]. split; [done|lia].
      * split; [by split|]. split; [done|]. split; [done|]. split; [|done]. intros _.
        split; [by intros [? ?]|lia].
    + split; [split; [cbn; lia|split; [done|by intros ? [= <-]]]|]. split; [done|]. split; [by intros ? [= <-]|].
      split; [intros _; split; [done|eauto]|eauto].
  - unfold ReceivedAck. destruct (Z.leb_spec (nextLeastUnacked s) (AckFrame.LargestAcked ack)); unfold swm_inv;
      cbn [largestLeastUnackedSent nextLeastUnacked lastStopWaitingFrame]; repeat split; done || zlia.
  - unfold QueuedRetransmissionForPacketNumber. destruct (Z.leb_spec (nextLeastUnacked s) p); unfold swm_inv;
      cbn [largestLeastUnackedSent nextLeastUnacked lastStopWaitingFrame]; repeat split; done || zlia.
Qed.

Lemma stop_waiting_correct_witness :
  is_Some (GetStopWaitingFrame (MkManager 0 10 None) false).2 ∧
  nextLeastUnacked (ReceivedAck (MkManager 0 10 None) (AckFrame.MkAckFrame 0 19 1 [] 0 0)) = 20.
Proof.
  assert (swm_inv (MkManager 0 10 None)) as Hs by (split; [cbn; lia|]; split; [cbn; lia|by intros f [=]]).
  destruct (stop_waiting_correct (MkManager 0 10 None) false (AckFrame.MkAckFrame 0 19 1 [] 0 0) 5 Hs)
    as ((_ & _ & _ & Hf & _) & (_ & Hn) & _); [cbn; lia|lia|].
  split; [apply Hf; [reflexivity|cbn; lia]|]. rewrite Hn. reflexivity.
Defined.

End stop_waiting.
