(* ===== verification/GoFloat.v ===== *)
(** * Go's floating-point numbers

    [float32] and [float64] as IEEE 754 binary formats with rounding to nearest,
    by the specification floats of the Standard Library, and the conversions that
    the source uses between them and 64-bit integers. *)

From S2P Require Import Prelude.
From Stdlib Require Import SpecFloat.

(** A format: its precision and its maximal exponent. *)
Record format := MkFormat { fprec : Z; femax : Z }.
Definition float32 : format := MkFormat 24 128.
Definition float64 : format := MkFormat 53 1024.

Definition float := spec_float.

(** Conversion of an integer: [float64(x)]. *)
Definition of_int (fm : format) (z : Z) : float :=
  binary_normalize (fprec fm) (femax fm) z 0 false.

(** A constant [m * 2^e] that is exact in the format. *)
Definition const (fm : format) (m e : Z) : float :=
  binary_normalize (fprec fm) (femax fm) m e false.

Definition fmul (fm : format) : float → float → float := SFmul (fprec fm) (femax fm).
Definition fadd (fm : format) : float → float → float := SFadd (fprec fm) (femax fm).
Definition fsub (fm : format) : float → float → float := SFsub (fprec fm) (femax fm).
Definition fdiv (fm : format) : float → float → float := SFdiv (fprec fm) (femax fm).
Definition flt : float → float → bool := SFltb.
Definition fle : float → float → bool := SFleb.

(** The integer part, towards zero. *)
Definition trunc (f : float) : option Z :=
  match f with
  | S754_zero _ => Some 0
  | S754_finite s m e =>
      let v := if 0 <=? e then Zpos m * 2 ^ e else Zpos m / 2 ^ (- e) in
      Some (if s then - v else v)
  | _ => None
  end.

(** Conversion to [int64]. Go leaves a value out of range to the implementation;
    on amd64 it is the smallest integer. *)
Definition to_int64 (f : float) : Z :=
  match trunc f with
  | Some v => if (- 2 ^ 63 <=? v) && (v <? 2 ^ 63) then v else - 2 ^ 63
  | None => - 2 ^ 63
  end.

(** Conversion to [uint64]; out of range, the value on amd64. *)
Definition to_uint64 (f : float) : Z :=
  match trunc f with
  | Some v => if (0 <=? v) && (v <? 2 ^ 64) then v else 2 ^ 63
  | None => 2 ^ 63
  end.

Lemma to_uint64_range f : 0 <= to_uint64 f < 2 ^ 64.
Proof.
  unfold to_uint64. destruct (trunc f) as [v|]; [|lia].
  destruct (Z.leb_spec 0 v), (Z.ltb_spec v (2 ^ 64)); cbn [andb]; lia.
Qed.
