(* ===== verification/FloatBounds.v ===== *)
(** * Bounds on floating-point results

    The specification floats of the Standard Library come without a theory. This file
    proves what the components need of one: rounding to nearest respects bounds that
    the format holds exactly, for conversions, sums, products and quotients of
    non-negative numbers ([within], [of_int_within], [fadd_within], [fmul_within],
    [fdiv_within]), and what the conversion back to an integer gives. *)

From S2P Require Import Prelude GoFloat.
From Stdlib Require Import SpecFloat.

(** ** Rounding respects representable bounds

    A value between two numbers that the format holds exactly is rounded to a number
    between them. This is all the float reasoning the components need. *)

Section rounding.
Context (prec emax : Z).
Hypothesis Hprec : 1 < prec.

Local Notation fexp := (fexp prec emax).
Local Notation emin := (emin prec emax).

Lemma digits2_pos_spec p :
  2 ^ (Zpos (digits2_pos p) - 1) <= Zpos p < 2 ^ Zpos (digits2_pos p).
Proof.
  induction p as [p IH|p IH|]; cbn [digits2_pos]; [| |done].
  all: rewrite Pos2Z.inj_succ, Z.pow_succ_r by lia.
  all: replace (Z.succ (Zpos (digits2_pos p)) - 1) with (Z.succ (Zpos (digits2_pos p) - 1)) by lia.
  all: rewrite Z.pow_succ_r by lia; lia.
Qed.

Lemma iter_pos_iter {A} (f : A → A) p x : iter_pos f p x = Nat.iter (Pos.to_nat p) f x.
Proof.
  revert x. induction p as [p IH|p IH|]; intros x; cbn [iter_pos]; [| |done].
  - rewrite !IH, <- Nat.iter_add, Pos2Nat.inj_xI.
    rewrite <- Nat.iter_succ_r. f_equal. lia.
  - rewrite !IH, <- Nat.iter_add, Pos2Nat.inj_xO. f_equal. lia.
Qed.

Definition inexact (x : shr_record) : bool := shr_r x || shr_s x.

Lemma shr_1_spec x :
  0 <= shr_m x →
  shr_m (shr_1 x) = shr_m x / 2 ∧
  (inexact (shr_1 x) = true → shr_m x mod 2 = 1 ∨ inexact x = true).
Proof.
  destruct x as [m r s]. unfold inexact. cbn [shr_m shr_r shr_s]. intros H.
  destruct m as [|[p|p|]|p]; cbn [shr_1 shr_m shr_r shr_s orb]; [| | | |lia].
  - split; [done|by right].
  - split; [rewrite (Pos2Z.inj_xI p); lia|left; rewrite (Pos2Z.inj_xI p); lia].
  - split; [rewrite (Pos2Z.inj_xO p); lia|by right].
  - split; [done|by left].
Qed.

Lemma shr_iter_spec n x :
  0 <= shr_m x →
  shr_m (Nat.iter n shr_1 x) = shr_m x / 2 ^ Z.of_nat n ∧
  (inexact (Nat.iter n shr_1 x) = true → shr_m x mod 2 ^ Z.of_nat n ≠ 0 ∨ inexact x = true).
Proof.
  intros H. induction n as [|n [IH1 IH2]]; cbn [Nat.iter nat_rect].
  { split; [by rewrite Z.div_1_r|by right]. }
  change (nat_rect (λ _, shr_record) x (λ _, shr_1) n) with (Nat.iter n shr_1 x) in *.
  set (y := Nat.iter n shr_1 x) in *.
  assert (0 < 2 ^ Z.of_nat n) as Hp by (apply Z.pow_pos_nonneg; lia).
  destruct (shr_1_spec y) as [E1 E2]; [rewrite IH1; apply Z.div_pos; lia|].
  rewrite Nat2Z.inj_succ, Z.pow_succ_r by lia.
  split.
  - rewrite E1, IH1, Z.div_div by lia. f_equal. lia.
  - intros [Hm|Hy]%E2.
    + left. rewrite IH1 in Hm. intros H0.
      rewrite (Z.mul_comm 2), Z.rem_mul_r in H0 by lia.
      pose proof (Z.mod_pos_bound (shr_m x) (2 ^ Z.of_nat n) Hp). nia.
    + apply IH2 in Hy as [Hm|]; [left|by right]. intros H0. apply Hm.
      rewrite (Z.mul_comm 2), Z.rem_mul_r in H0 by lia.
      pose proof (Z.mod_pos_bound (shr_m x) (2 ^ Z.of_nat n) Hp).
      pose proof (Z.mod_pos_bound (shr_m x / 2 ^ Z.of_nat n) 2). nia.
Qed.

(** [shr] by [n], a negative [n] being no shift. *)
Lemma shr_spec m l e n :
  0 <= m →
  ∃ x, shr (shr_record_of_loc m l) e n = (x, e + Z.max 0 n) ∧
  shr_m x = m / 2 ^ Z.max 0 n ∧
  (inexact x = true → m mod 2 ^ Z.max 0 n ≠ 0 ∨ l ≠ loc_Exact).
Proof.
  intros H. set (x := shr_record_of_loc m l).
  assert (shr_m x = m) as Em by (destruct l as [|[]]; done).
  assert (inexact x = true → l ≠ loc_Exact) as Ei by (destruct l as [|[]]; done).
  destruct n as [|p|p].
  - exists x. cbn. rewrite Z.add_0_r, Z.div_1_r. auto.
  - exists (iter_pos shr_1 p x). rewrite Z.max_r by lia. cbn [shr].
    rewrite iter_pos_iter. destruct (shr_iter_spec (Pos.to_nat p) x) as [E1 E2]; [lia|].
    rewrite positive_nat_Z, Em in E1, E2. split; [done|]. split; [done|]. intros []%E2; auto.
  - exists x. cbn. rewrite Z.add_0_r, Z.div_1_r. auto.
Qed.

Lemma round_nearest_even_spec x :
  let r := round_nearest_even (shr_m x) (loc_of_shr_record x) in
  r = shr_m x ∨ r = shr_m x + 1 ∧ inexact x = true.
Proof.
  destruct x as [m [] []]; cbn; auto. destruct (Z.even m); auto.
Qed.

(** The exponent to which a mantissa is shifted before rounding. *)
Definition target (m e : Z) : Z := Z.max e (fexp (Zdigits2 m + e)).

Definition packed (s : bool) (r e : Z) (f : spec_float) : Prop :=
  (r = 0 ∧ f = S754_zero s) ∨
  ∃ m2 e2, e <= e2 ∧ r = Zpos m2 * 2 ^ (e2 - e) ∧
    f = if e2 <=? emax - prec then S754_finite s m2 e2 else S754_infinity s.

Lemma binary_round_aux_spec s m e l :
  0 < m →
  let e1 := target m e in
  ∃ r, (r = m / 2 ^ (e1 - e) ∨
        r = m / 2 ^ (e1 - e) + 1 ∧ (m mod 2 ^ (e1 - e) ≠ 0 ∨ l ≠ loc_Exact)) ∧
       packed s r e1 (binary_round_aux prec emax s m e l).
Proof.
  intros Hm e1. unfold binary_round_aux, shr_fexp.
  set (d := Zdigits2 m). set (n := fexp (d + e) - e).
  destruct (shr_spec m l e n) as (x & -> & Ex & Ix); [lia|].
  assert (e + Z.max 0 n = e1) as -> by (unfold e1, target, n, d; lia).
  assert (Z.max 0 n = e1 - e) as En by (unfold e1, target, n, d; lia). rewrite En in *.
  set (r := round_nearest_even (shr_m x) (loc_of_shr_record x)).
  assert (0 <= m / 2 ^ (e1 - e)) as Hq
    by (apply Z.div_pos; [lia|]; apply Z.pow_pos_nonneg; lia).
  assert (r = m / 2 ^ (e1 - e) ∨ r = m / 2 ^ (e1 - e) + 1 ∧
          (m mod 2 ^ (e1 - e) ≠ 0 ∨ l ≠ loc_Exact)) as Hr.
  { destruct (round_nearest_even_spec x) as [E|[E I]]; fold r in E; rewrite Ex in E; auto. }
  exists r. split; [done|].
  assert (0 <= r <= 2 ^ prec) as Hrp.
  { assert (m / 2 ^ (e1 - e) < 2 ^ prec); [|lia].
    assert (m < 2 ^ d).
    { unfold d. destruct m as [|p|p]; [lia| |lia]. cbn [Zdigits2]. apply digits2_pos_spec. }
    apply Z.div_lt_upper_bound; [apply Z.pow_pos_nonneg; lia|].
    rewrite <- Z.pow_add_r by lia. apply (Z.lt_le_trans _ (2 ^ d)); [done|].
    apply Z.pow_le_mono_r; [lia|]. unfold e1, target, SpecFloat.fexp. fold d. lia. }
  assert (emin <= e1) as Hmin by (unfold e1, target, SpecFloat.fexp; lia).
  clearbody r e1. clear Ix Ex En Hr Hq.
  destruct (shr_spec r loc_Exact e1 (fexp (Zdigits2 r + e1) - e1)) as (y & -> & Ey & _); [lia|].
  destruct (Z.eq_dec r 0) as [->|Hr0].
  { rewrite Ey, Z.div_0_l by (apply Z.pow_nonzero; lia). left. done. }
  right. rewrite Ey. destruct r as [|p|p]; [lia| |lia]. cbn [Zdigits2].
  pose proof (digits2_pos_spec p) as Hd. set (dp := Zpos (digits2_pos p)) in *.
  assert (dp <= prec + 1) as Hdp.
  { destruct (Z.le_gt_cases dp (prec + 1)) as [|Hgt]; [done|].
    assert (2 ^ (prec + 1) <= 2 ^ (dp - 1)) by (apply Z.pow_le_mono_r; lia).
    rewrite Z.pow_add_r in H by lia. lia. }
  destruct (Z.le_gt_cases dp prec) as [Hle|Hgt].
  - assert (Z.max 0 (fexp (dp + e1) - e1) = 0) as ->
      by (unfold SpecFloat.fexp; lia).
    rewrite Z.add_0_r, Z.div_1_r. exists p, e1. rewrite Z.sub_diag. split; [lia|]. split; [lia|done].
  - assert (dp = prec + 1) as E by lia.
    assert (Zpos p = 2 ^ prec) as Ep.
    { rewrite E in Hd. replace (prec + 1 - 1) with prec in Hd by lia. lia. }
    assert (Z.max 0 (fexp (dp + e1) - e1) = 1) as -> by (unfold SpecFloat.fexp; lia).
    destruct p as [p|p|]; [| |].
    + exfalso. assert (Z.odd (2 ^ prec) = true) by (by rewrite <- Ep).
      rewrite Z.odd_pow in H by lia. done.
    + assert (Zpos p~0 / 2 ^ 1 = Zpos p) as ->.
      { change (2 ^ 1) with 2. rewrite (Pos2Z.inj_xO p). lia. }
      exists p, (e1 + 1). split; [lia|]. replace (e1 + 1 - e1) with 1 by lia.
      rewrite (Pos2Z.inj_xO p). split; [lia|done].
    + exfalso. assert (2 ^ 1 <= 2 ^ prec) by (apply Z.pow_le_mono_r; lia). lia.
Qed.
End rounding.

Lemma scale_le k k' a x b y :
  0 <= x + k → 0 <= y + k → 0 <= x + k' → 0 <= y + k' →
  a * 2 ^ (x + k) <= b * 2 ^ (y + k) → a * 2 ^ (x + k') <= b * 2 ^ (y + k').
Proof.
  intros Hx Hy Hx' Hy' H. destruct (Z.le_ge_cases k k').
  - replace (x + k') with (x + k + (k' - k)) by lia. replace (y + k') with (y + k + (k' - k)) by lia.
    rewrite (Z.pow_add_r 2 (x + k)), (Z.pow_add_r 2 (y + k)), !Z.mul_assoc by lia.
    apply Z.mul_le_mono_nonneg_r; [|done]. apply Z.pow_nonneg. lia.
  - replace (x + k) with (x + k' + (k - k')) in H by lia.
    replace (y + k) with (y + k' + (k - k')) in H by lia.
    rewrite (Z.pow_add_r 2 (x + k')), (Z.pow_add_r 2 (y + k')), !Z.mul_assoc in H by lia.
    apply Z.mul_le_mono_pos_r in H; [done|]. apply Z.pow_pos_nonneg; lia.
Qed.

(** A common scale for some exponents. *)
Lemma common_scale (l : list Z) : ∃ k, Forall (λ e, 0 <= e + k) l.
Proof.
  induction l as [|e l [k IH]]; [by exists 0|]. exists (Z.abs k + Z.abs e). constructor; [lia|].
  eapply Forall_impl; [exact IH|]. cbn. lia.
Qed.

Lemma pow2_pos e : 0 <= e → 0 < 2 ^ e.
Proof. intros. by apply Z.pow_pos_nonneg. Qed.

Section bounds.
Context (fm : format).

(** What the formats have in common. *)
Definition sane : Prop := 1 < fprec fm ∧ 2 * fprec fm < femax fm.
Local Notation emin := (emin (fprec fm) (femax fm)).
Local Notation fexp := (fexp (fprec fm) (femax fm)).
Local Notation target := (target (fprec fm) (femax fm)).

(** [A * 2^E <= f <= B * 2^E]. *)
Definition within (f : float) (A B E : Z) : Prop :=
  match f with
  | S754_zero false => A <= 0 <= B
  | S754_finite false m e =>
      emin <= e ∧ ∀ k, 0 <= e + k → 0 <= E + k →
      A * 2 ^ (E + k) <= Zpos m * 2 ^ (e + k) <= B * 2 ^ (E + k)
  | _ => False
  end.

(** A bound that the format holds exactly, without overflow. *)
Definition bound_ok (B E : Z) : Prop :=
  B <= 2 ^ fprec fm ∧ emin <= E <= femax fm - 2 * fprec fm.

Hypothesis Hsane : sane.

Lemma within_intro m e A B E k :
  emin <= e → 0 <= e + k → 0 <= E + k →
  A * 2 ^ (E + k) <= Zpos m * 2 ^ (e + k) → Zpos m * 2 ^ (e + k) <= B * 2 ^ (E + k) →
  within (S754_finite false m e) A B E.
Proof. intros. split; [done|]. intros k' ? ?. split; eapply (scale_le k k'); eauto. Qed.

Lemma within_packed r e f A B E k :
  packed (fprec fm) (femax fm) false r e f → emin <= e → bound_ok B E → 0 <= e + k → 0 <= E + k →
  A * 2 ^ (E + k) <= r * 2 ^ (e + k) → r * 2 ^ (e + k) <= B * 2 ^ (E + k) → within f A B E.
Proof.
  intros [[-> ->]|(m2 & e2 & He2 & -> & ->)] Hmin [HB HE] Hek HEk H1 H2.
  { cbn. rewrite Z.mul_0_l in *.
    assert (0 < 2 ^ (E + k)) by (apply Z.pow_pos_nonneg; lia). nia. }
  rewrite <- Z.mul_assoc, <- Z.pow_add_r in H1, H2 by lia.
  replace (e2 - e + (e + k)) with (e2 + k) in H1, H2 by lia.
  destruct (Z.leb_spec e2 (femax fm - fprec fm)) as [|Hov].
  { apply (within_intro _ _ _ _ _ k); try done; lia. }
  exfalso. destruct Hsane.
  assert (2 ^ (e2 + k) <= 2 ^ (fprec fm + (E + k))).
  { rewrite (Z.pow_add_r 2 (fprec fm)) by lia.
    assert (0 < 2 ^ (E + k)) by (apply Z.pow_pos_nonneg; lia).
    assert (0 < 2 ^ (e2 + k)) by (apply Z.pow_pos_nonneg; lia). nia. }
  apply Z.pow_le_mono_r_iff in H3; lia.
Qed.

Lemma coarse e E k : e <= E → 0 <= e + k → 2 ^ (E + k) = 2 ^ (E - e) * 2 ^ (e + k).
Proof. intros. rewrite <- Z.pow_add_r by lia. f_equal. lia. Qed.

Lemma normal_mantissa m e :
  0 < m → e <= fexp (Zdigits2 m + e) → emin < target m e →
  2 ^ (fprec fm - 1) <= m / 2 ^ (target m e - e).
Proof.
  intros Hm Hf. unfold FloatBounds.target. rewrite Z.max_r by lia. unfold SpecFloat.fexp at 1. intros Hn.
  destruct m as [|p|p]; [lia| |lia]. cbn [Zdigits2] in *.
  pose proof (digits2_pos_spec p) as [Hd _]. set (d := Zpos (digits2_pos p)) in *.
  unfold SpecFloat.fexp in *. destruct Hsane.
  apply Z.div_le_lower_bound; [apply Z.pow_pos_nonneg; lia|].
  rewrite <- Z.pow_add_r by lia. etrans; [|exact Hd]. apply Z.pow_le_mono_r; lia.
Qed.

(** The mantissa [m], with what is left of the value after it described by [l], is
    rounded. *)
Lemma round_within m e l A B E k :
  0 < m → 0 <= e + k → 0 <= E + k → A <= 2 ^ fprec fm → bound_ok B E →
  (l = loc_Exact ∨ e <= fexp (Zdigits2 m + e)) →
  (m * 2 ^ (e + k) < B * 2 ^ (E + k) ∨ l = loc_Exact ∧ m * 2 ^ (e + k) <= B * 2 ^ (E + k)) →
  (A * 2 ^ (E + k) <= m * 2 ^ (e + k) ∨
   e <= fexp (Zdigits2 m + e) ∧ A * 2 ^ (E + k) < (m + 1) * 2 ^ (e + k)) →
  within (binary_round_aux (fprec fm) (femax fm) false m e l) A B E.
Proof.
  intros Hm Hek HEk HA [HB HE] Hl Hup Hlo. destruct Hsane as [Hp1 Hp2].
  destruct (binary_round_aux_spec (fprec fm) (femax fm) Hp1 false m e l Hm) as (r & Hr & Hpk).
  set (e1 := target m e) in *.
  assert (e <= e1) as He1 by (unfold e1, FloatBounds.target; lia).
  assert (emin <= e1) as Hmin by (unfold e1, FloatBounds.target, SpecFloat.fexp; lia).
  assert (0 < 2 ^ (e + k)) as P1 by (apply Z.pow_pos_nonneg; lia).
  assert (0 < 2 ^ (E + k)) as P2 by (apply Z.pow_pos_nonneg; lia).
  assert (0 < 2 ^ (e1 - e)) as P3 by (apply Z.pow_pos_nonneg; lia).
  assert (2 ^ (e1 + k) = 2 ^ (e1 - e) * 2 ^ (e + k)) as Ek.
  { rewrite <- Z.pow_add_r by lia. f_equal. lia. }
  set (q := m / 2 ^ (e1 - e)) in *.
  pose proof (Z.div_mod m (2 ^ (e1 - e)) ltac:(lia)) as Hdm. fold q in Hdm.
  pose proof (Z.mod_pos_bound m (2 ^ (e1 - e)) P3) as Hmod.
  set (w := m mod 2 ^ (e1 - e)) in *.
  apply (within_packed r e1 _ A B E k Hpk Hmin); [done|lia|done|..].
  all: rewrite Ek.
  - assert (A * 2 ^ (E + k) <= q * (2 ^ (e1 - e) * 2 ^ (e + k))); [|nia].
    destruct (Z.le_gt_cases e1 E) as [HEe|HEe].
    + rewrite (coarse e1 E k) by lia. rewrite (coarse e1 E k) in Hlo by lia. rewrite Ek in *.
      assert (A * 2 ^ (E - e1) * 2 ^ (e1 - e) <= m) by (destruct Hlo as [Hlo|[_ Hlo]]; nia).
      assert (A * 2 ^ (E - e1) <= q) by nia. nia.
    + destruct (Z.le_gt_cases e (fexp (Zdigits2 m + e))) as [Hf|Hf].
      * rewrite <- Ek. apply (Z.le_trans _ (2 ^ fprec fm * 2 ^ (E + k))); [nia|].
        apply (Z.le_trans _ (2 ^ (fprec fm - 1) * 2 ^ (e1 + k))).
        { rewrite <- !Z.pow_add_r by lia. apply Z.pow_le_mono_r; lia. }
        apply Z.mul_le_mono_nonneg_r; [rewrite Ek; lia|].
        apply normal_mantissa; [done|done|]. fold e1. lia.
      * destruct Hlo as [Hlo|[? _]]; [|lia].
        assert (e1 = e) as E1 by (unfold e1, FloatBounds.target; lia).
        rewrite E1, Z.sub_diag in *. change (2 ^ 0) with 1 in *. nia.
  - destruct Hr as [->|[-> Hin]]; [nia|].
    assert (q * (2 ^ (e1 - e) * 2 ^ (e + k)) < B * 2 ^ (E + k)) as Hlt
      by (destruct Hup as [?|[? ?]], Hin as [?|?]; try done; nia).
    destruct (Z.le_gt_cases e1 E) as [HEe|HEe].
    + rewrite (coarse e1 E k) by lia. rewrite (coarse e1 E k) in Hlt by lia. rewrite Ek in *.
      assert (q < B * 2 ^ (E - e1)) by nia. nia.
    + exfalso. destruct (Z.le_gt_cases e (fexp (Zdigits2 m + e))) as [Hf|Hf].
      * assert (2 ^ (fprec fm - 1) <= q) as Hq by (apply normal_mantissa; [done|done|]; fold e1; lia).
        assert (2 ^ fprec fm * 2 ^ (E + k) <= 2 ^ (fprec fm - 1) * 2 ^ (e1 + k)).
        { rewrite <- !Z.pow_add_r by lia. apply Z.pow_le_mono_r; lia. }
        rewrite <- Ek in Hlt. assert (0 < 2 ^ (e1 + k)) by (rewrite Ek; lia). nia.
      * destruct Hl as [Hl|?]; [|lia]. destruct Hin as [Hin|?]; [|done].
        assert (e1 = e) as E1 by (unfold e1, FloatBounds.target; lia).
        unfold w in Hin. rewrite E1, Z.sub_diag, Z.mod_1_r in Hin. done.
Qed.

(** ** Operations *)

Lemma within_mono f A B A' B' E :
  within f A B E → A' <= A → B <= B' → within f A' B' E.
Proof.
  destruct f as [[]|s| |[] m e]; cbn; try done; [lia|]. intros [He H] HA HB. split; [done|].
  intros k ? ?. specialize (H k ltac:(done) ltac:(done)).
  assert (0 <= 2 ^ (E + k)) by (apply Z.pow_nonneg; lia). nia.
Qed.

Lemma within_shift f A B E j :
  0 <= j → within f A B E → within f (A * 2 ^ j) (B * 2 ^ j) (E - j).
Proof.
  intros Hj. assert (0 < 2 ^ j) by (apply Z.pow_pos_nonneg; lia).
  destruct f as [[]|s| |[] m e]; cbn; try done; [nia|]. intros [He H']. split; [done|].
  intros k ? ?. specialize (H' k ltac:(lia) ltac:(lia)).
  rewrite <- !Z.mul_assoc, <- !Z.pow_add_r by lia. by replace (j + (E - j + k)) with (E + k) by lia.
Qed.

Lemma within_unshift f A B E j :
  0 <= j → within f (A * 2 ^ j) (B * 2 ^ j) (E - j) → within f A B E.
Proof.
  intros Hj. pose proof (pow2_pos _ Hj).
  destruct f as [[]|s| |[] m e]; cbn; try done; [nia|]. intros [He H']. split; [done|].
  intros k ? ?. specialize (H' (k + j) ltac:(lia) ltac:(lia)).
  rewrite <- !Z.mul_assoc, <- !Z.pow_add_r in H' by lia.
  replace (j + (E - j + (k + j))) with (E + (k + j)) in H' by lia.
  split; apply (scale_le (k + j) k); try lia; apply H'.
Qed.

Lemma within_trunc f A B : within f A B 0 → ∃ v, trunc f = Some v ∧ A <= v <= B.
Proof.
  destruct f as [[]|s| |[] m e]; cbn; try done; [eauto|]. intros [He H].
  destruct (Z.leb_spec 0 e).
  - specialize (H 0 ltac:(lia) ltac:(lia)). rewrite !Z.add_0_r in H. eexists. split; [done|]. lia.
  - specialize (H (- e) ltac:(lia) ltac:(lia)). rewrite Z.add_opp_diag_r, Z.add_0_l in H.
    eexists. split; [done|]. assert (0 < 2 ^ (- e)) by (apply Z.pow_pos_nonneg; lia).
    split; [apply Z.div_le_lower_bound; lia|apply Z.div_le_upper_bound; lia].
Qed.

Lemma shl_align_spec m e e' :
  ∃ mz ez, shl_align m e e' = (mz, ez) ∧ ez = Z.min e e' ∧ Zpos mz = Zpos m * 2 ^ (e - ez).
Proof.
  unfold shl_align. destruct (e' - e) as [|d|d] eqn:Ed.
  - exists m, e. rewrite Z.sub_diag. split; [done|]. split; lia.
  - exists m, e. rewrite Z.sub_diag. split; [done|]. split; lia.
  - exists (Pos.iter xO m d), e'. split; [done|]. split; [lia|].
    replace (e - e') with (Zpos d) by lia. clear.
    induction d as [|d IH] using Pos.peano_ind.
    + cbn. lia.
    + rewrite Pos.iter_succ, Pos2Z.inj_succ, Z.pow_succ_r by lia.
      rewrite (Pos2Z.inj_xO (Pos.iter xO m d)), IH. lia.
Qed.

Lemma binary_round_within m e A B E k :
  0 <= e + k → 0 <= E + k → A <= 2 ^ fprec fm → bound_ok B E →
  A * 2 ^ (E + k) <= Zpos m * 2 ^ (e + k) → Zpos m * 2 ^ (e + k) <= B * 2 ^ (E + k) →
  within (binary_round (fprec fm) (femax fm) false m e) A B E.
Proof.
  intros Hek HEk HA HB H1 H2. unfold binary_round.
  destruct (shl_align_spec m e (fexp (Zpos (digits2_pos m) + e))) as (mz & ez & -> & Ez & Em).
  set (k' := Z.abs k + Z.abs ez). assert (k <= k') by lia.
  assert (Zpos mz * 2 ^ (ez + k') = Zpos m * 2 ^ (e + k')) as Ev.
  { rewrite Em, <- Z.mul_assoc, <- Z.pow_add_r by lia. do 2 f_equal. lia. }
  apply (round_within _ _ _ _ _ _ k'); [lia|lia|lia|done|done|by left|..].
  - right. split; [done|]. rewrite Ev. apply (scale_le k k'); lia.
  - left. rewrite Ev. apply (scale_le k k'); lia.
Qed.

Lemma of_int_within z A B :
  0 <= z → A <= z <= B → B <= 2 ^ fprec fm → emin <= 0 → within (of_int fm z) A B 0.
Proof.
  intros Hz [HA HB] Hp Hm. destruct Hsane. unfold of_int. destruct z as [|p|p]; [done| |lia].
  apply (binary_round_within _ _ _ _ _ 0); [lia|lia|lia|split; lia|..].
  all: change (2 ^ (0 + 0)) with 1; lia.
Qed.

Lemma fmul_within x y A B E C D F :
  within x A B E → within y C D F → 0 <= A → 0 <= C → A * C <= 2 ^ fprec fm →
  bound_ok (B * D) (E + F) → within (fmul fm x y) (A * C) (B * D) (E + F).
Proof.
  intros Hx Hy HA HC HAC HBD.
  destruct x as [[]|s| |[] mx ex]; try done; destruct y as [[]|s'| |[] my ey]; try done;
    cbn in Hx, Hy; unfold fmul, SFmul, xorb.
  1: { cbn. nia. }
  1: { destruct Hy as [_ Hy]. specialize (Hy (Z.abs ey + Z.abs F) ltac:(lia) ltac:(lia)).
       assert (0 < 2 ^ (ey + (Z.abs ey + Z.abs F))) by (apply Z.pow_pos_nonneg; lia).
       assert (0 < 2 ^ (F + (Z.abs ey + Z.abs F))) by (apply Z.pow_pos_nonneg; lia).
       assert (0 < D) by nia. cbn. nia. }
  1: { destruct Hx as [_ Hx]. specialize (Hx (Z.abs ex + Z.abs E) ltac:(lia) ltac:(lia)).
       assert (0 < 2 ^ (ex + (Z.abs ex + Z.abs E))) by (apply Z.pow_pos_nonneg; lia).
       assert (0 < 2 ^ (E + (Z.abs ex + Z.abs E))) by (apply Z.pow_pos_nonneg; lia).
       assert (0 < B) by nia. cbn. nia. }
  destruct Hx as [_ Hx], Hy as [_ Hy].
  set (k1 := Z.abs ex + Z.abs E). set (k2 := Z.abs ey + Z.abs F).
  specialize (Hx k1 ltac:(lia) ltac:(lia)). specialize (Hy k2 ltac:(lia) ltac:(lia)).
  assert (∀ a b, 0 <= a + k1 → 0 <= b + k2 → 2 ^ (a + b + (k1 + k2)) = 2 ^ (a + k1) * 2 ^ (b + k2)) as Hpow.
  { intros. rewrite <- Z.pow_add_r by lia. f_equal. lia. }
  assert (0 < 2 ^ (E + k1)) by (apply Z.pow_pos_nonneg; lia).
  assert (0 < 2 ^ (F + k2)) by (apply Z.pow_pos_nonneg; lia).
  assert (0 < 2 ^ (ex + k1)) by (apply Z.pow_pos_nonneg; lia).
  assert (0 < 2 ^ (ey + k2)) by (apply Z.pow_pos_nonneg; lia).
  rewrite Pos2Z.inj_mul.
  apply (round_within _ _ _ _ _ _ (k1 + k2)); [lia|lia|lia|done|done|by left|..].
  - right. split; [done|]. rewrite !Hpow by lia.
    transitivity ((Zpos mx * 2 ^ (ex + k1)) * (Zpos my * 2 ^ (ey + k2))); [lia|].
    transitivity ((B * 2 ^ (E + k1)) * (D * 2 ^ (F + k2))); [|lia].
    apply Z.mul_le_mono_nonneg; lia.
  - left. rewrite !Hpow by lia.
    transitivity ((A * 2 ^ (E + k1)) * (C * 2 ^ (F + k2))); [lia|].
    transitivity ((Zpos mx * 2 ^ (ex + k1)) * (Zpos my * 2 ^ (ey + k2))); [|lia].
    apply Z.mul_le_mono_nonneg; nia.
Qed.

Lemma fadd_within x y A B C D E :
  within x A B E → within y C D E → 0 <= A → 0 <= C → A + C <= 2 ^ fprec fm →
  bound_ok (B + D) E → within (fadd fm x y) (A + C) (B + D) E.
Proof.
  intros Hx Hy HA HC HAC HBD.
  destruct x as [[]|s| |[] mx ex]; try done; destruct y as [[]|s'| |[] my ey]; try done;
    unfold fadd, SFadd.
  1: { cbn in *. lia. }
  1: { cbn in Hx. eapply within_mono; [exact Hy|lia|lia]. }
  1: { cbn in Hy. eapply within_mono; [exact Hx|lia|lia]. }
  destruct Hx as [_ Hx], Hy as [_ Hy]. set (ez := Z.min ex ey).
  destruct (shl_align_spec mx ex ez) as (m1 & e1 & -> & E1 & M1).
  destruct (shl_align_spec my ey ez) as (m2 & e2 & -> & E2 & M2).
  cbn [fst cond_Zopp]. change (Zpos m1 + Zpos m2) with (Zpos (m1 + m2)). unfold binary_normalize.
  destruct (common_scale [ex; ey; E; ez]) as [k Hk]. rewrite !Forall_cons in Hk.
  destruct Hk as (Kx & Ky & KE & Kz & _).
  specialize (Hx k Kx KE). specialize (Hy k Ky KE).
  assert (Zpos (m1 + m2) * 2 ^ (ez + k) = Zpos mx * 2 ^ (ex + k) + Zpos my * 2 ^ (ey + k)) as Ev.
  { clear Hx Hy. rewrite Pos2Z.inj_add, M1, M2, Z.mul_add_distr_r, <- !Z.mul_assoc, <- !Z.pow_add_r by lia.
    do 2 f_equal; f_equal; lia. }
  apply (binary_round_within _ _ _ _ _ k); [done|done|done|done|..]; rewrite Ev, Z.mul_add_distr_r;
    apply Z.add_le_mono; [apply Hx|apply Hy|apply Hx|apply Hy].
Qed.

Lemma digits2_ge q j : 0 < q → 2 ^ j <= q → j < Zdigits2 q.
Proof.
  intros Hq H. destruct q as [|p|p]; [lia| |lia]. cbn [Zdigits2].
  destruct (digits2_pos_spec p) as [_ Hd].
  destruct (Z.lt_ge_cases j 0); [lia|].
  apply (Z.pow_lt_mono_r_iff 2); lia.
Qed.

Lemma new_location_exact n k : new_location n k = loc_Exact ↔ k = 0.
Proof.
  unfold new_location, new_location_even, new_location_odd.
  destruct (Z.even n), (Z.eqb_spec k 0); split; done.
Qed.

Lemma pow_split a b k c k2 :
  a = b + c → 0 <= b + k → 0 <= c + k2 → 2 ^ (a + (k + k2)) = 2 ^ (b + k) * 2 ^ (c + k2).
Proof. intros. rewrite <- Z.pow_add_r by lia. f_equal. lia. Qed.

Lemma quotient_bounds n Y q r d W V G H A B C D M M' :
  n = d * q + r → 0 <= r < d → 0 < W → 0 < V → 0 < G → 0 < H → Y = d * V → 0 < M → 0 < C →
  A * (G * H) <= n * W * V <= B * (G * H) → C * H <= Y <= D * H → M * D <= A → B <= M' * C →
  q * W <= M' * G ∧ (r ≠ 0 → q * W < M' * G) ∧ M * G < (q + 1) * W.
Proof.
  intros -> Hr HW HV HG HH -> HM HC [L1 L2] [L3 L4] L5 L6.
  assert (0 < d * V) as HY by nia. assert (0 < G * H) as HGH by nia. assert (0 < W * V) as HWV by nia.
  assert ((d * q + r) * W * V <= M' * G * (d * V)) as U.
  { etrans; [exact L2|]. transitivity (M' * C * (G * H)); [nia|].
    assert (C <= D) by nia. assert (A <= B) by nia. assert (0 < B) by nia. assert (0 <= M') by nia.
    replace (M' * C * (G * H)) with (M' * G * (C * H)) by ring.
    apply Z.mul_le_mono_nonneg_l; [nia|done]. }
  assert (M * G * (d * V) <= (d * q + r) * W * V) as L.
  { etrans; [|exact L1]. transitivity (M * D * (G * H)); [|nia].
    replace (M * D * (G * H)) with (M * G * (D * H)) by ring.
    apply Z.mul_le_mono_nonneg_l; [nia|done]. }
  replace ((d * q + r) * W * V) with (q * W * (d * V) + r * (W * V)) in U, L by ring.
  split_and!.
  - apply (Z.mul_le_mono_pos_r _ _ (d * V)); [done|]. nia.
  - intros Hr0. apply (Z.mul_lt_mono_pos_r (d * V)); [done|]. nia.
  - apply (Z.mul_lt_mono_pos_r (d * V)); [done|].
    apply (Z.le_lt_trans _ (q * W * (d * V) + r * (W * V))); [done|].
    replace ((q + 1) * W * (d * V)) with (q * W * (d * V) + d * (W * V)) by ring. nia.
Qed.

(** The quotient of mantissas has the digits that its rounding needs. *)
Lemma quotient_digits mx my ex ey e' s q M E k :
  let dx := Zpos (digits2_pos mx) in let dy := Zpos (digits2_pos my) in
  e' = Z.min (fexp (dx + ex - (dy + ey))) (ex - ey) → s = ex - ey - e' →
  q = Zpos mx * 2 ^ s / Zpos my →
  0 <= e' + k → 0 <= E + k → emin <= E → 0 < M → M * 2 ^ (E + k) < (q + 1) * 2 ^ (e' + k) →
  0 < q ∧ e' <= fexp (Zdigits2 q + e').
Proof.
  intros dx dy He Hs Hq Ke KE HE HM HL. destruct Hsane as [Hp _].
  assert (0 <= s) as Hs0 by lia. assert (2 ^ (dx - 1 + s) <= Zpos mx * 2 ^ s) as Hx.
  { rewrite Z.pow_add_r by lia. apply Z.mul_le_mono_nonneg_r; [apply Z.pow_nonneg; lia|].
    apply digits2_pos_spec. }
  assert (Zpos my < 2 ^ dy) as Hy by apply digits2_pos_spec.
  assert (∀ j, j <= dx - 1 + s - dy → 2 ^ j <= q) as Hj.
  { intros j Hj. destruct (Z.lt_ge_cases j 0); [rewrite Z.pow_neg_r by done; subst q|].
    - apply Z.div_pos; [|done]. apply Z.mul_nonneg_nonneg; [done|]. apply Z.pow_nonneg. lia.
    - subst q. apply Z.div_le_lower_bound; [done|]. etrans; [|exact Hx].
      transitivity (2 ^ (dy + j)); [|apply Z.pow_le_mono_r; lia].
      rewrite Z.pow_add_r by lia. apply Z.mul_le_mono_nonneg_r; [apply Z.pow_nonneg|]; lia. }
  assert (0 < q) as Hq0.
  { destruct (Z.le_gt_cases e' (dx + ex - (dy + ey) - fprec fm)) as [Hn|Hn].
    - specialize (Hj 0 ltac:(lia)). change (2 ^ 0) with 1 in Hj. lia.
    - assert (e' <= E) by (unfold SpecFloat.fexp in He; lia).
      assert (2 ^ (e' + k) <= 2 ^ (E + k)) by (apply Z.pow_le_mono_r; lia).
      pose proof (pow2_pos _ Ke). nia. }
  split; [done|].
  assert (dx - 1 + s - dy < Zdigits2 q) as Hd by (apply digits2_ge; [done|]; apply Hj; lia).
  unfold SpecFloat.fexp in *. lia.
Qed.

(** The quotient's lower bound is positive: there is no underflow. *)
Lemma fdiv_within x y A B E C D F M M' :
  within x A B E → within y C D F → 0 < C → 0 < M → M <= 2 ^ fprec fm →
  M * D <= A → B <= M' * C → bound_ok M' (E - F) →
  within (fdiv fm x y) M M' (E - F).
Proof.
  intros Hx Hy HC HM HMp HA HB HM'.
  destruct y as [[]|s'| |[] my ey]; try done; cbn in Hy; [lia|].
  destruct x as [[]|s| |[] mx ex]; try done; cbn in Hx.
  { exfalso. destruct Hy as [_ Hy]. specialize (Hy (Z.abs ey + Z.abs F) ltac:(lia) ltac:(lia)).
    assert (0 < 2 ^ (F + (Z.abs ey + Z.abs F))) by (apply Z.pow_pos_nonneg; lia).
    assert (C <= D) by nia. nia. }
  destruct Hx as [_ Hx], Hy as [_ Hy].
  unfold fdiv, SFdiv, SFdiv_core_binary. cbn [Zdigits2 xorb].
  set (dx := Zpos (digits2_pos mx)). set (dy := Zpos (digits2_pos my)).
  set (e' := Z.min (fexp (dx + ex - (dy + ey))) (ex - ey)).
  set (s := ex - ey - e'). assert (0 <= s) as Hs by lia.
  assert (match s with 0 => Zpos mx | Zpos _ => Z.shiftl (Zpos mx) s | Zneg _ => 0 end
          = Zpos mx * 2 ^ s) as ->.
  { destruct s eqn:Es; [lia| |lia]. apply Z.shiftl_mul_pow2. lia. }
  rewrite (surjective_pairing (Z.div_eucl _ _)).
  change (Z.div_eucl (Zpos mx * 2 ^ s) (Zpos my)).1 with (Zpos mx * 2 ^ s / Zpos my).
  change (Z.div_eucl (Zpos mx * 2 ^ s) (Zpos my)).2 with (Zpos mx * 2 ^ s mod Zpos my).
  assert (0 < 2 ^ s) as Ps by (apply Z.pow_pos_nonneg; lia).
  pose proof (Z.div_mod (Zpos mx * 2 ^ s) (Zpos my) ltac:(lia)) as Hdm.
  pose proof (Z.mod_pos_bound (Zpos mx * 2 ^ s) (Zpos my) ltac:(lia)) as Hmod.
  set (q := Zpos mx * 2 ^ s / Zpos my) in *. set (r := Zpos mx * 2 ^ s mod Zpos my) in *.
  destruct (common_scale [ey; F]) as [k2 Hk2]. rewrite !Forall_cons in Hk2.
  destruct Hk2 as (Ky & KF & _).
  destruct (common_scale [e'; E - F; s + e']) as [k Hk]. rewrite !Forall_cons in Hk.
  destruct Hk as (Ke & KG & Ks & _).
  assert (E = E - F + F) as S1 by lia. assert (ex = s + e' + ey) as S2 by lia.
  assert (0 <= E + (k + k2)) as S3 by lia. assert (0 <= ex + (k + k2)) as S4 by lia.
  specialize (Hx (k + k2) S4 S3). specialize (Hy k2 Ky KF).
  rewrite (pow_split E (E - F) k F k2) in Hx by assumption.
  rewrite (pow_split ex (s + e') k ey k2) in Hx by assumption.
  rewrite <- (Z.add_assoc s e' k), (Z.pow_add_r 2 s), !(Z.mul_assoc (Zpos mx)) in Hx by assumption.
  pose proof (pow2_pos _ KG) as PG. pose proof (pow2_pos _ KF) as PH.
  pose proof (pow2_pos _ Ke) as PW. pose proof (pow2_pos _ Ky) as PY.
  destruct (quotient_bounds (Zpos mx * 2 ^ s) (Zpos my * 2 ^ (ey + k2)) q r (Zpos my)
    (2 ^ (e' + k)) (2 ^ (ey + k2)) (2 ^ (E - F + k)) (2 ^ (F + k2)) A B C D M M') as (U & U' & L);
    try assumption; try done.
  assert (0 < q ∧ e' <= fexp (Zdigits2 q + e')) as [Hq Hf].
  { eapply (quotient_digits mx my ex ey e' s q M (E - F) k); try done. apply HM'. }
  apply (round_within _ _ _ _ _ _ k); [done|done|done|done|done|by right|..].
  - destruct (Z.eq_dec r 0) as [->|]; [right|left; auto]. split; [by apply new_location_exact|done].
  - by right.
Qed.
End bounds.

Lemma sane_float32 : sane float32.
Proof. split; reflexivity. Qed.
Lemma sane_float64 : sane float64.
Proof. split; reflexivity. Qed.

(** Decide the side conditions of the lemmas above at closed bounds. *)
Lemma bound_ok_float32 B E : B <= 2 ^ 24 → -149 <= E <= 80 → bound_ok float32 B E.
Proof. intros. split; [done|]. change (-149 <= E <= 80). done. Qed.

Lemma within_const c e : 0 < c <= 2 ^ 24 → -149 <= e <= 80 → within float32 (const float32 c e) c c e.
Proof.
  intros Hc He. destruct c as [|p|p]; [lia| |lia]. unfold const, binary_normalize.
  destruct (common_scale [e]) as [k Hk]. rewrite Forall_cons in Hk. destruct Hk as [Hk _].
  apply (binary_round_within float32 sane_float32 _ _ _ _ _ k); [done|done|apply Hc| |done|done].
  apply bound_ok_float32; lia.
Qed.

Lemma of_int32_within z A B : 0 <= z → A <= z <= B → B <= 2 ^ 24 → within float32 (of_int float32 z) A B 0.
Proof. intros. by apply (of_int_within float32 sane_float32). Qed.

Lemma within_to_int64 fm f A B :
  within fm f A B 0 → 0 <= A → B < 2 ^ 63 → A <= to_int64 f <= B.
Proof.
  intros (v & Hv & Hb)%within_trunc HA HB. unfold to_int64. rewrite Hv.
  destruct (Z.leb_spec (- 2 ^ 63) v), (Z.ltb_spec v (2 ^ 63)); cbn [andb]; lia.
Qed.

Lemma within_to_uint64 fm f A B :
  within fm f A B 0 → 0 <= A → B < 2 ^ 64 → A <= to_uint64 f <= B.
Proof.
  intros (v & Hv & Hb)%within_trunc HA HB. unfold to_uint64. rewrite Hv.
  destruct (Z.leb_spec 0 v), (Z.ltb_spec v (2 ^ 64)); cbn [andb]; lia.
Qed.
