(* ===== verification/SentPackets.v ===== *)
(** * The sending half of the ack handler

    [ackhandler/packet.go], [retransmittable.go] and [sent_packet_handler.go]: the
    packets in flight on a path, acknowledgements, loss detection and
    retransmission. The congestion controller and the RTT estimator are used
    through the operations of [congestion/interface.go] and [RTTStats]; they are
    classes here, so the theorems hold for every implementation of them. *)

From S2P Require Import Prelude Protocol ByteOrder AckFrames Frames ReceivedPackets GoFloat.

(** ** The interfaces of the congestion package that the handler uses *)

(** [RTTStats]: the estimator, of a state type [R]. *)
Class RTTStats (R : Type) := {
  LatestRTT : R → Z;
  SmoothedRTT : R → Z;
  UpdateRTT : R → Z → Z → Z → R;
}.

(** [SendAlgorithm], of a state type [C]. An implementation also reads the
    estimator that it was made with. *)
Class SendAlgorithm (R C : Type) := {
  OnPacketSent : C → R → Z → Z → Z → Z → bool → C;
  GetCongestionWindow : C → R → Z;
  MaybeExitSlowStart : C → R → C;
  OnPacketAcked : C → R → Z → Z → Z → C;
  OnPacketLost : C → R → Z → Z → Z → C;
  OnRetransmissionTimeout : C → R → bool → C;
  RetransmissionDelay : C → R → Z;
  AlgSmoothedRTT : C → R → Z;
}.

(** ** retransmittable.go *)

Definition IsFrameRetransmittable (f : Frame) : bool :=
  match f with FStopWaiting _ | FAck _ => false | _ => true end.

Fixpoint stripNonRetransmittableFrames (fs : list Frame) : list Frame :=
  match fs with
  | [] => []
  | f :: fs' => if IsFrameRetransmittable f then f :: stripNonRetransmittableFrames fs'
                else stripNonRetransmittableFrames fs'
  end.

Fixpoint HasRetransmittableFrames (fs : list Frame) : bool :=
  match fs with
  | [] => false
  | f :: fs' => if IsFrameRetransmittable f then true else HasRetransmittableFrames fs'
  end.

(** ** packet.go *)

Record Packet := MkPacket {
  PacketNumber : Z;
  Frames : list Frame;
  Length : Z;
  EncLevel : protocol.EncryptionLevel;
  SendTime : Z;
}.

Module Packet.

Fixpoint GetFramesForRetransmission (fs : list Frame) : list Frame :=
  match fs with
  | [] => []
  | f :: fs' => match f with
                | FAck _ | FStopWaiting _ => GetFramesForRetransmission fs'
                | _ => f :: GetFramesForRetransmission fs'
                end
  end.

(** The frames for which IsRetransmittable, GetCopyFrames and IsDupDropable
    have a case. *)
Definition listed (f : Frame) : bool :=
  match f with
  | FStream _ | FRstStream _ | FWindowUpdate _ | FBlocked _ | FPing _ | FGoaway _
  | FAddAddress _ | FPaths _ => true
  | FAck _ | FStopWaiting _ | FConnectionClose _ | FClosePath _ => false
  end.

Fixpoint IsRetransmittable (fs : list Frame) : bool :=
  match fs with
  | [] => false
  | f :: fs' => if listed f then true else IsRetransmittable fs'
  end.

Fixpoint GetStreamFrameLength (fs : list Frame) (sfPayloadLength : Z) : Z :=
  match fs with
  | [] => sfPayloadLength
  | FStream f :: fs' => GetStreamFrameLength fs' (u64 (sfPayloadLength + StreamFrame.DataLen f))
  | _ :: fs' => GetStreamFrameLength fs' sfPayloadLength
  end.

(** [None] is [nil]. *)
Fixpoint copyFrames (fs : list Frame) : list Frame :=
  match fs with
  | [] => []
  | f :: fs' => if listed f then f :: copyFrames fs' else copyFrames fs'
  end.
Definition GetCopyFrames (fs : list Frame) : option (list Frame) :=
  match copyFrames fs with [] => None | l => Some l end.

Fixpoint IsDupDropable (fs : list Frame) : bool :=
  match fs with
  | [] => true
  | f :: fs' => if listed f then IsDupDropable fs' else false
  end.

End Packet.

(** ** sent_packet_handler.go *)
Module sentPacketHandler.
Import protocol.

Definition defaultRTOTimeout : Z := 500 * time.Millisecond.
Definition minRTOTimeout : Z := 200 * time.Millisecond.
Definition maxRTOTimeout : Z := 60 * time.Second.
Definition maxTailLossProbes : Z := 2.
Definition minRetransmissionTime : Z := 200 * time.Millisecond.
Definition minTailLossProbeTimeout : Z := 10 * time.Millisecond.

Definition ErrDuplicateOrOutOfOrderAck : error := NewError "SentPacketHandler: Duplicate or out-of-order ACK".
Definition ErrTooManyTrackedSentPackets : error :=
  NewError "Too many outstanding non-acked and non-retransmitted packets".
Definition ErrAckForSkippedPacket : error := qerr.Error qerr.InvalidAckData.
Definition errAckForUnsentPacket : error := qerr.Error qerr.InvalidAckData.
Definition errPacketNumberNotIncreasing : error := NewError "Already sent a packet with a higher packet number".
Definition errAckedWrongPacket : error := NewError "BUG: ackhandler would have acked wrong packet".

Section handler.
Context {R C : Type} `{!RTTStats R, !SendAlgorithm R C}.

(** [packetHistory] is the linked list from front to back. The callbacks are not
    part of the state: the calls of [onAckCallback] are returned, and the answer
    of [onRTOCallback] is an argument of OnAlarm. *)
Record sentPacketHandler := MkSentPacketHandler {
  lastSentPacketNumber : Z;
  skippedPackets : list Z;
  numNonRetransmittablePackets : Z;
  LargestAcked : Z;
  largestReceivedPacketWithAck : Z;
  packetHistory : list Packet;
  stopWaiting : stopWaitingManager.stopWaitingManager;
  retransmissionQueue : list Packet;
  bytesInFlight : Z;
  congestion : C;
  rttStats : R;
  rtoCount : Z;
  tlpCount : Z;
  lossTime : Z;
  lastSentTime : Z;
  alarm : Z;
  pathID : Z;
  packets : Z;
  retransmissions : Z;
  losses : Z;
  sentStreamFrameBytes : Z;
}.

Definition set_lastSentPacketNumber (v : Z) (h : sentPacketHandler) : sentPacketHandler :=
  MkSentPacketHandler
    v (skippedPackets h) (numNonRetransmittablePackets h) (LargestAcked h)
    (largestReceivedPacketWithAck h) (packetHistory h) (stopWaiting h) (retransmissionQueue h)
    (bytesInFlight h) (congestion h) (rttStats h) (rtoCount h) (tlpCount h) (lossTime h)
    (lastSentTime h) (alarm h) (pathID h) (packets h) (retransmissions h) (losses h)
    (sentStreamFrameBytes h).
Definition set_skippedPackets (v : list Z) (h : sentPacketHandler) : sentPacketHandler :=
  MkSentPacketHandler
    (lastSentPacketNumber h) v (numNonRetransmittablePackets h) (LargestAcked h)
    (largestReceivedPacketWithAck h) (packetHistory h) (stopWaiting h) (retransmissionQueue h)
    (bytesInFlight h) (congestion h) (rttStats h) (rtoCount h) (tlpCount h) (lossTime h)
    (lastSentTime h) (alarm h) (pathID h) (packets h) (retransmissions h) (losses h)
    (sentStreamFrameBytes h).
Definition set_numNonRetransmittablePackets (v : Z) (h : sentPacketHandler) : sentPacketHandler :=
  MkSentPacketHandler
    (lastSentPacketNumber h) (skippedPackets h) v (LargestAcked h) (largestReceivedPacketWithAck
    h) (packetHistory h) (stopWaiting h) (retransmissionQueue h) (bytesInFlight h) (congestion
    h) (rttStats h) (rtoCount h) (tlpCount h) (lossTime h) (lastSentTime h) (alarm h) (pathID h)
    (packets h) (retransmissions h) (losses h) (sentStreamFrameBytes h).
Definition set_LargestAcked (v : Z) (h : sentPacketHandler) : sentPacketHandler :=
  MkSentPacketHandler
    (lastSentPacketNumber h) (skippedPackets h) (numNonRetransmittablePackets h) v
    (largestReceivedPacketWithAck h) (packetHistory h) (stopWaiting h) (retransmissionQueue h)
    (bytesInFlight h) (congestion h) (rttStats h) (rtoCount h) (tlpCount h) (lossTime h)
    (lastSentTime h) (alarm h) (pathID h) (packets h) (retransmissions h) (losses h)
    (sentStreamFrameBytes h).
Definition set_largestReceivedPacketWithAck (v : Z) (h : sentPacketHandler) : sentPacketHandler :=
  MkSentPacketHandler
    (lastSentPacketNumber h) (skippedPackets h) (numNonRetransmittablePackets h) (LargestAcked
    h) v (packetHistory h) (stopWaiting h) (retransmissionQueue h) (bytesInFlight h) (congestion
    h) (rttStats h) (rtoCount h) (tlpCount h) (lossTime h) (lastSentTime h) (alarm h) (pathID h)
    (packets h) (retransmissions h) (losses h) (sentStreamFrameBytes h).
Definition set_packetHistory (v : list Packet) (h : sentPacketHandler) : sentPacketHandler :=
  MkSentPacketHandler
    (lastSentPacketNumber h) (skippedPackets h) (numNonRetransmittablePackets h) (LargestAcked
    h) (largestReceivedPacketWithAck h) v (stopWaiting h) (retransmissionQueue h) (bytesInFlight
    h) (congestion h) (rttStats h) (rtoCount h) (tlpCount h) (lossTime h) (lastSentTime h)
    (alarm h) (pathID h) (packets h) (retransmissions h) (losses h) (sentStreamFrameBytes h).
Definition set_stopWaiting (v : stopWaitingManager.stopWaitingManager) (h : sentPacketHandler) : sentPacketHandler :=
  MkSentPacketHandler
    (lastSentPacketNumber h) (skippedPackets h) (numNonRetransmittablePackets h) (LargestAcked
    h) (largestReceivedPacketWithAck h) (packetHistory h) v (retransmissionQueue h)
    (bytesInFlight h) (congestion h) (rttStats h) (rtoCount h) (tlpCount h) (lossTime h)
    (lastSentTime h) (alarm h) (pathID h) (packets h) (retransmissions h) (losses h)
    (sentStreamFrameBytes h).
Definition set_retransmissionQueue (v : list Packet) (h : sentPacketHandler) : sentPacketHandler :=
  MkSentPacketHandler
    (lastSentPacketNumber h) (skippedPackets h) (numNonRetransmittablePackets h) (LargestAcked
    h) (largestReceivedPacketWithAck h) (packetHistory h) (stopWaiting h) v (bytesInFlight h)
    (congestion h) (rttStats h) (rtoCount h) (tlpCount h) (lossTime h) (lastSentTime h) (alarm
    h) (pathID h) (packets h) (retransmissions h) (losses h) (sentStreamFrameBytes h).
Definition set_bytesInFlight (v : Z) (h : sentPacketHandler) : sentPacketHandler :=
  MkSentPacketHandler
    (lastSentPacketNumber h) (skippedPackets h) (numNonRetransmittablePackets h) (LargestAcked
    h) (largestReceivedPacketWithAck h) (packetHistory h) (stopWaiting h) (retransmissionQueue
    h) v (congestion h) (rttStats h) (rtoCount h) (tlpCount h) (lossTime h) (lastSentTime h)
    (alarm h) (pathID h) (packets h) (retransmissions h) (losses h) (sentStreamFrameBytes h).
Definition set_congestion (v : C) (h : sentPacketHandler) : sentPacketHandler :=
  MkSentPacketHandler
    (lastSentPacketNumber h) (skippedPackets h) (numNonRetransmittablePackets h) (LargestAcked
    h) (largestReceivedPacketWithAck h) (packetHistory h) (stopWaiting h) (retransmissionQueue
    h) (bytesInFlight h) v (rttStats h) (rtoCount h) (tlpCount h) (lossTime h) (lastSentTime h)
    (alarm h) (pathID h) (packets h) (retransmissions h) (losses h) (sentStreamFrameBytes h).
Definition set_rttStats (v : R) (h : sentPacketHandler) : sentPacketHandler :=
  MkSentPacketHandler
    (lastSentPacketNumber h) (skippedPackets h) (numNonRetransmittablePackets h) (LargestAcked
    h) (largestReceivedPacketWithAck h) (packetHistory h) (stopWaiting h) (retransmissionQueue
    h) (bytesInFlight h) (congestion h) v (rtoCount h) (tlpCount h) (lossTime h) (lastSentTime
    h) (alarm h) (pathID h) (packets h) (retransmissions h) (losses h) (sentStreamFrameBytes h).
Definition set_rtoCount (v : Z) (h : sentPacketHandler) : sentPacketHandler :=
  MkSentPacketHandler
    (lastSentPacketNumber h) (skippedPackets h) (numNonRetransmittablePackets h) (LargestAcked
    h) (largestReceivedPacketWithAck h) (packetHistory h) (stopWaiting h) (retransmissionQueue
    h) (bytesInFlight h) (congestion h) (rttStats h) v (tlpCount h) (lossTime h) (lastSentTime
    h) (alarm h) (pathID h) (packets h) (retransmissions h) (losses h) (sentStreamFrameBytes h).
Definition set_tlpCount (v : Z) (h : sentPacketHandler) : sentPacketHandler :=
  MkSentPacketHandler
    (lastSentPacketNumber h) (skippedPackets h) (numNonRetransmittablePackets h) (LargestAcked
    h) (largestReceivedPacketWithAck h) (packetHistory h) (stopWaiting h) (retransmissionQueue
    h) (bytesInFlight h) (congestion h) (rttStats h) (rtoCount h) v (lossTime h) (lastSentTime
    h) (alarm h) (pathID h) (packets h) (retransmissions h) (losses h) (sentStreamFrameBytes h).
Definition set_lossTime (v : Z) (h : sentPacketHandler) : sentPacketHandler :=
  MkSentPacketHandler
    (lastSentPacketNumber h) (skippedPackets h) (numNonRetransmittablePackets h) (LargestAcked
    h) (largestReceivedPacketWithAck h) (packetHistory h) (stopWaiting h) (retransmissionQueue
    h) (bytesInFlight h) (congestion h) (rttStats h) (rtoCount h) (tlpCount h) v (lastSentTime
    h) (alarm h) (pathID h) (packets h) (retransmissions h) (losses h) (sentStreamFrameBytes h).
Definition set_lastSentTime (v : Z) (h : sentPacketHandler) : sentPacketHandler :=
  MkSentPacketHandler
    (lastSentPacketNumber h) (skippedPackets h) (numNonRetransmittablePackets h) (LargestAcked
    h) (largestReceivedPacketWithAck h) (packetHistory h) (stopWaiting h) (retransmissionQueue
    h) (bytesInFlight h) (congestion h) (rttStats h) (rtoCount h) (tlpCount h) (lossTime h) v
    (alarm h) (pathID h) (packets h) (retransmissions h) (losses h) (sentStreamFrameBytes h).
Definition set_alarm (v : Z) (h : sentPacketHandler) : sentPacketHandler :=
  MkSentPacketHandler
    (lastSentPacketNumber h) (skippedPackets h) (numNonRetransmittablePackets h) (LargestAcked
    h) (largestReceivedPacketWithAck h) (packetHistory h) (stopWaiting h) (retransmissionQueue
    h) (bytesInFlight h) (congestion h) (rttStats h) (rtoCount h) (tlpCount h) (lossTime h)
    (lastSentTime h) v (pathID h) (packets h) (retransmissions h) (losses h)
    (sentStreamFrameBytes h).
Definition set_packets (v : Z) (h : sentPacketHandler) : sentPacketHandler :=
  MkSentPacketHandler
    (lastSentPacketNumber h) (skippedPackets h) (numNonRetransmittablePackets h) (LargestAcked
    h) (largestReceivedPacketWithAck h) (packetHistory h) (stopWaiting h) (retransmissionQueue
    h) (bytesInFlight h) (congestion h) (rttStats h) (rtoCount h) (tlpCount h) (lossTime h)
    (lastSentTime h) (alarm h) (pathID h) v (retransmissions h) (losses h) (sentStreamFrameBytes
    h).
Definition set_retransmissions (v : Z) (h : sentPacketHandler) : sentPacketHandler :=
  MkSentPacketHandler
    (lastSentPacketNumber h) (skippedPackets h) (numNonRetransmittablePackets h) (LargestAcked
    h) (largestReceivedPacketWithAck h) (packetHistory h) (stopWaiting h) (retransmissionQueue
    h) (bytesInFlight h) (congestion h) (rttStats h) (rtoCount h) (tlpCount h) (lossTime h)
    (lastSentTime h) (alarm h) (pathID h) (packets h) v (losses h) (sentStreamFrameBytes h).
Definition set_losses (v : Z) (h : sentPacketHandler) : sentPacketHandler :=
  MkSentPacketHandler
    (lastSentPacketNumber h) (skippedPackets h) (numNonRetransmittablePackets h) (LargestAcked
    h) (largestReceivedPacketWithAck h) (packetHistory h) (stopWaiting h) (retransmissionQueue
    h) (bytesInFlight h) (congestion h) (rttStats h) (rtoCount h) (tlpCount h) (lossTime h)
    (lastSentTime h) (alarm h) (pathID h) (packets h) (retransmissions h) v
    (sentStreamFrameBytes h).
Definition set_sentStreamFrameBytes (v : Z) (h : sentPacketHandler) : sentPacketHandler :=
  MkSentPacketHandler
    (lastSentPacketNumber h) (skippedPackets h) (numNonRetransmittablePackets h) (LargestAcked
    h) (largestReceivedPacketWithAck h) (packetHistory h) (stopWaiting h) (retransmissionQueue
    h) (bytesInFlight h) (congestion h) (rttStats h) (rtoCount h) (tlpCount h) (lossTime h)
    (lastSentTime h) (alarm h) (pathID h) (packets h) (retransmissions h) (losses h) v.

Definition NewSentPacketHandler (rtt : R) (cong : C) (path : Z) : sentPacketHandler :=
  MkSentPacketHandler 0 [] 0 0 0 [] (stopWaitingManager.MkManager 0 0 None) [] 0 cong rtt 0 0
    time.zero time.zero time.zero path 0 0 0 0.

Definition GetCongestionWindowPackets (h : sentPacketHandler) : Z :=
  GetCongestionWindow (congestion h) (rttStats h) / 1460.

Definition GetStatistics (h : sentPacketHandler) : Z * Z * Z * Z :=
  (packets h, retransmissions h, losses h, sentStreamFrameBytes h).

Definition largestInOrderAcked (h : sentPacketHandler) : Z :=
  match packetHistory h with
  | f :: _ => u64 (PacketNumber f - 1)
  | [] => LargestAcked h
  end.

Definition ShouldSendRetransmittablePacket (h : sentPacketHandler) : bool :=
  MaxNonRetransmittablePackets <=? numNonRetransmittablePackets h.

Definition hasMultipleOutstandingRetransmittablePackets (h : sentPacketHandler) : bool :=
  match packetHistory h with _ :: _ :: _ => true | _ => false end.

Definition computeRTOTimeout (h : sentPacketHandler) : Z :=
  let rto := RetransmissionDelay (congestion h) (rttStats h) in
  let rto := if rto =? 0 then defaultRTOTimeout else rto in
  let rto := utils.MaxDuration rto minRTOTimeout in
  let rto := i64 (Z.shiftl rto (rtoCount h)) in
  utils.MinDuration rto maxRTOTimeout.

Definition computeTLPTimeout (h : sentPacketHandler) : Z :=
  let rtt := AlgSmoothedRTT (congestion h) (rttStats h) in
  if hasMultipleOutstandingRetransmittablePackets h
  then utils.MaxDuration (i64 (2 * rtt)) (i64 (Z.quot (i64 (rtt * 3)) 2 + Z.quot minRetransmissionTime 2))
  else utils.MaxDuration (i64 (2 * rtt)) minTailLossProbeTimeout.

Definition updateLossDetectionAlarm (h : sentPacketHandler) : sentPacketHandler :=
  if len (packetHistory h) =? 0 then set_alarm time.zero h
  else if negb (time.IsZero (lossTime h)) then set_alarm (lossTime h) h
  else if negb (SmoothedRTT (rttStats h) =? 0) && (tlpCount h <? maxTailLossProbes)
  then set_alarm (time.Add (lastSentTime h) (computeTLPTimeout h)) h
  else set_alarm (time.Add (lastSentTime h)
         (utils.MaxDuration (computeRTOTimeout h) minRetransmissionTime)) h.

(** The loop that records the skipped packet numbers: [k] of them from [p]. *)
Fixpoint skipLoop (p : Z) (k : nat) (skipped : list Z) : list Z :=
  match k with
  | O => skipped
  | S k' =>
      let skipped := skipped ++ [p] in
      skipLoop (p + 1) k' (if MaxTrackedSkippedPackets <? len skipped then drop 1 skipped else skipped)
  end.

Definition SentPacket (h : sentPacketHandler) (now : Z) (packet : Packet) :
    sentPacketHandler * option error :=
  if PacketNumber packet <=? lastSentPacketNumber h then (h, Some errPacketNumberNotIncreasing)
  else if MaxTrackedSentPackets <? len (retransmissionQueue h) + len (packetHistory h) + 1
  then (h, Some ErrTooManyTrackedSentPackets)
  else
    let h := set_skippedPackets
      (skipLoop (lastSentPacketNumber h + 1)
         (Z.to_nat (PacketNumber packet - (lastSentPacketNumber h + 1))) (skippedPackets h)) h in
    let h := set_lastSentPacketNumber (PacketNumber packet) h in
    let h := set_packets (u64 (packets h + 1)) h in
    let h := set_sentStreamFrameBytes
      (u64 (sentStreamFrameBytes h + Packet.GetStreamFrameLength (Frames packet) 0)) h in
    let h := set_lastSentTime now h in
    let frames := stripNonRetransmittableFrames (Frames packet) in
    let isRetransmittable := negb (len frames =? 0) in
    let h := if isRetransmittable then
        let packet := MkPacket (PacketNumber packet) frames (Length packet) (EncLevel packet) now in
        let h := set_bytesInFlight (u64 (bytesInFlight h + Length packet)) h in
        let h := set_packetHistory (packetHistory h ++ [packet]) h in
        set_numNonRetransmittablePackets 0 h
      else set_numNonRetransmittablePackets (numNonRetransmittablePackets h + 1) h in
    let h := set_congestion (OnPacketSent (congestion h) (rttStats h) now (bytesInFlight h)
      (PacketNumber packet) (Length packet) isRetransmittable) h in
    (updateLossDetectionAlarm h, None).

(** [packetHistory.Remove] of the element that holds the packet [p]. Packet
    numbers in the history are distinct. *)
Fixpoint removeElement (p : Packet) (l : list Packet) : list Packet :=
  match l with
  | [] => []
  | q :: l' => if PacketNumber q =? PacketNumber p then l' else q :: removeElement p l'
  end.

Definition onPacketAcked (h : sentPacketHandler) (p : Packet) : sentPacketHandler :=
  let h := set_bytesInFlight (u64 (bytesInFlight h - Length p)) h in
  let h := set_rtoCount 0 h in
  let h := set_tlpCount 0 h in
  set_packetHistory (removeElement p (packetHistory h)) h.

Definition queuePacketForRetransmission (h : sentPacketHandler) (p : Packet) : sentPacketHandler :=
  let h := set_bytesInFlight (u64 (bytesInFlight h - Length p)) h in
  let h := set_retransmissionQueue (retransmissionQueue h ++ [p]) h in
  let h := set_packetHistory (removeElement p (packetHistory h)) h in
  set_stopWaiting (stopWaitingManager.QueuedRetransmissionForPacketNumber (stopWaiting h) (PacketNumber p)) h.

(** The ranges from the lowest on; [ackRangeIndex] only moves upwards, to the
    last range at most. *)
Fixpoint advance (packetNumber : Z) (rs : list AckRange) : list AckRange :=
  match rs with
  | [] => []
  | r :: rs' => match rs' with
                | [] => rs
                | _ => if Last r <? packetNumber then advance packetNumber rs' else rs
                end
  end.

(** The loop of determineNewlyAckedPackets, whose text is the same for ACK and
    CLOSE_PATH frames; [rs] are the ranges from the current one upwards. *)
Fixpoint newlyAckedLoop (lowestAcked largestAcked : Z) (hasMissingRanges : bool) (rs : list AckRange)
    (l : list Packet) : outcome (list Packet) :=
  match l with
  | [] => Ok []
  | packet :: l' =>
      let packetNumber := PacketNumber packet in
      if packetNumber <? lowestAcked then newlyAckedLoop lowestAcked largestAcked hasMissingRanges rs l'
      else if largestAcked <? packetNumber then Ok []
      else if hasMissingRanges then
        match advance packetNumber rs with
        | [] => Panic
        | ackRange :: rs' =>
            if First ackRange <=? packetNumber then
              if Last ackRange <? packetNumber then Err errAckedWrongPacket
              else acked ← newlyAckedLoop lowestAcked largestAcked hasMissingRanges (ackRange :: rs') l';
                   Ok (packet :: acked)
            else newlyAckedLoop lowestAcked largestAcked hasMissingRanges (ackRange :: rs') l'
        end
      else acked ← newlyAckedLoop lowestAcked largestAcked hasMissingRanges rs l'; Ok (packet :: acked)
  end.

Definition determineNewlyAckedPackets (h : sentPacketHandler) (f : AckFrame.AckFrame) : outcome (list Packet) :=
  newlyAckedLoop (AckFrame.LowestAcked f) (AckFrame.LargestAcked f)
    (ackRanges.HasMissingRanges (AckFrame.AckRanges f)) (rev (AckFrame.AckRanges f)) (packetHistory h).

Definition determineNewlyAckedPacketsClosePath (h : sentPacketHandler) (f : ClosePathFrame.ClosePathFrame) :
    outcome (list Packet) :=
  newlyAckedLoop (ClosePathFrame.LowestAcked f) (ClosePathFrame.LargestAcked f)
    (ackRanges.HasMissingRanges (ClosePathFrame.AckRanges f)) (rev (ClosePathFrame.AckRanges f)) (packetHistory h).

(** The search for the packet that gives an RTT sample. *)
Fixpoint findSendTime (largestAcked : Z) (l : list Packet) : option Z :=
  match l with
  | [] => None
  | packet :: l' =>
      if PacketNumber packet =? largestAcked then Some (SendTime packet)
      else if largestAcked <? PacketNumber packet then None
      else findSendTime largestAcked l'
  end.

Definition maybeUpdateRTT (h : sentPacketHandler) (now largestAcked ackDelay rcvTime : Z) :
    sentPacketHandler * bool :=
  match findSendTime largestAcked (packetHistory h) with
  | Some sendTime => (set_rttStats (UpdateRTT (rttStats h) (time.Sub rcvTime sendTime) ackDelay now) h, true)
  | None => (h, false)
  end.

Fixpoint hasRetransmittable (l : list Packet) : bool :=
  match l with
  | [] => false
  | p :: l' => if Packet.IsRetransmittable (Frames p) then true else hasRetransmittable l'
  end.
Definition hasOutstandingRetransmittablePacket (h : sentPacketHandler) : bool :=
  hasRetransmittable (packetHistory h).

Definition skippedPacketsAcked (h : sentPacketHandler) (f : AckFrame.AckFrame) : bool :=
  existsb (AckFrame.AcksPacket f) (skippedPackets h).
Definition skippedPacketsAckedClosePath (h : sentPacketHandler) (f : ClosePathFrame.ClosePathFrame) : bool :=
  existsb (ClosePathFrame.AcksPacket f) (skippedPackets h).

(** The index behind the last skipped packet that is at most [lioa]. *)
Fixpoint gcIndex (lioa : Z) (i : nat) (deleteIndex : nat) (skipped : list Z) : nat :=
  match skipped with
  | [] => deleteIndex
  | p :: skipped' => gcIndex lioa (S i) (if p <=? lioa then S i else deleteIndex) skipped'
  end.
Definition garbageCollectSkippedPackets (h : sentPacketHandler) : sentPacketHandler :=
  set_skippedPackets (drop (gcIndex (largestInOrderAcked h) 0 0 (skippedPackets h)) (skippedPackets h)) h.

(** [(1.0 + timeReorderingFraction) * maxRTT] in float64; the constant 1.125 is
    9 * 2^-3. *)
Definition delayUntilLost (h : sentPacketHandler) : Z :=
  let maxRTT := of_int float64 (utils.MaxDuration (LatestRTT (rttStats h)) (SmoothedRTT (rttStats h))) in
  to_int64 (fmul float64 (const float64 9 (-3)) maxRTT).

(** The loop that collects the lost packets, counts them and sets [lossTime]
    from the first packet that is not lost yet. *)
Fixpoint lostLoop (h : sentPacketHandler) (now delay : Z) (l : list Packet) : sentPacketHandler * list Packet :=
  match l with
  | [] => (h, [])
  | packet :: l' =>
      if LargestAcked h <? PacketNumber packet then (h, [])
      else
        let timeSinceSent := time.Sub now (SendTime packet) in
        if delay <? timeSinceSent then
          let '(h, lost) := lostLoop (set_losses (u64 (losses h + 1)) h) now delay l' in
          (h, packet :: lost)
        else if time.IsZero (lossTime h) then
          lostLoop (set_lossTime (time.Add now (i64 (delay - timeSinceSent))) h) now delay l'
        else lostLoop h now delay l'
  end.

(** The loop over the lost packets. *)
Definition loseOne (h : sentPacketHandler) (p : Packet) : sentPacketHandler :=
  let h := queuePacketForRetransmission h p in
  set_congestion (OnPacketLost (congestion h) (rttStats h) (PacketNumber p) (Length p) (bytesInFlight h)) h.
Definition loseAll (h : sentPacketHandler) (lost : list Packet) : sentPacketHandler := foldl loseOne h lost.

Definition detectLostPackets (h : sentPacketHandler) (now : Z) : sentPacketHandler :=
  let h := set_lossTime time.zero h in
  let '(h, lost) := lostLoop h now (delayUntilLost h) (packetHistory h) in
  loseAll h lost.

(** The packets up to LargestAcked, counted as losses. *)
Fixpoint inflightLoop (h : sentPacketHandler) (l : list Packet) : sentPacketHandler * list Packet :=
  match l with
  | [] => (h, [])
  | packet :: l' =>
      if LargestAcked h <? PacketNumber packet then (h, [])
      else let '(h, lost) := inflightLoop (set_losses (u64 (losses h + 1)) h) l' in (h, packet :: lost)
  end.
Definition SetInflightAsLost (h : sentPacketHandler) : sentPacketHandler :=
  let '(h, lost) := inflightLoop h (packetHistory h) in loseAll h lost.

(** The loop over the acked packets; the calls of the callback are collected. *)
Definition ackOne (h : sentPacketHandler) (p : Packet) : sentPacketHandler :=
  let h := onPacketAcked h p in
  set_congestion (OnPacketAcked (congestion h) (rttStats h) (PacketNumber p) (Length p) (bytesInFlight h)) h.
Definition ackAll (h : sentPacketHandler) (acked : list Packet) : sentPacketHandler := foldl ackOne h acked.
Definition ackCalls (h : sentPacketHandler) (acked : list Packet) : list (Z * Z) :=
  (λ p, (pathID h, PacketNumber p)) <$> acked.

(** The result of an operation that may fail: the error is [None] on success;
    a panic is a result of its own. *)
Definition ReceivedAck (h : sentPacketHandler) (ackFrame : AckFrame.AckFrame)
    (withPacketNumber rcvTime nowRTT nowLoss : Z) : outcome (sentPacketHandler * option error * list (Z * Z)) :=
  if lastSentPacketNumber h <? AckFrame.LargestAcked ackFrame then Ok (h, Some errAckForUnsentPacket, [])
  else if withPacketNumber <=? largestReceivedPacketWithAck h
  then Ok (h, Some ErrDuplicateOrOutOfOrderAck, [])
  else
    let h := set_largestReceivedPacketWithAck withPacketNumber h in
    if AckFrame.LargestAcked ackFrame <=? largestInOrderAcked h then Ok (h, None, [])
    else
      let h := set_LargestAcked (AckFrame.LargestAcked ackFrame) h in
      if skippedPacketsAcked h ackFrame then Ok (h, Some ErrAckForSkippedPacket, [])
      else
        let '(h, rttUpdated) :=
          maybeUpdateRTT h nowRTT (AckFrame.LargestAcked ackFrame) (AckFrame.DelayTime ackFrame) rcvTime in
        let h := if rttUpdated then set_congestion (MaybeExitSlowStart (congestion h) (rttStats h)) h else h in
        match determineNewlyAckedPackets h ackFrame with
        | Err e => Ok (h, Some e, [])
        | Panic => Panic
        | Ok ackedPackets =>
            let calls := ackCalls h ackedPackets in
            let h := ackAll h ackedPackets in
            let h := detectLostPackets h nowLoss in
            let h := updateLossDetectionAlarm h in
            let h := garbageCollectSkippedPackets h in
            let h := set_stopWaiting (stopWaitingManager.ReceivedAck (stopWaiting h) ackFrame) h in
            Ok (h, None, calls)
        end.

Definition ReceivedClosePath (h : sentPacketHandler) (f : ClosePathFrame.ClosePathFrame)
    (withPacketNumber : Z) : outcome (sentPacketHandler * option error * list (Z * Z)) :=
  if lastSentPacketNumber h <? ClosePathFrame.LargestAcked f then Ok (h, Some errAckForUnsentPacket, [])
  else if withPacketNumber <=? largestReceivedPacketWithAck h
  then Ok (h, Some ErrDuplicateOrOutOfOrderAck, [])
  else
    let h := set_largestReceivedPacketWithAck withPacketNumber h in
    if skippedPacketsAckedClosePath h f then Ok (h, Some ErrAckForSkippedPacket, [])
    else
      match determineNewlyAckedPacketsClosePath h f with
      | Err e => Ok (h, Some e, [])
      | Panic => Panic
      | Ok ackedPackets =>
          let calls := ackCalls h ackedPackets in
          let h := ackAll h ackedPackets in
          let h := SetInflightAsLost h in
          let h := garbageCollectSkippedPackets h in
          Ok (h, None, calls)
      end.

Definition queueRTO (h : sentPacketHandler) (p : Packet) : sentPacketHandler :=
  let h := queuePacketForRetransmission h p in
  let h := set_losses (u64 (losses h + 1)) h in
  set_congestion (OnPacketLost (congestion h) (rttStats h) (PacketNumber p) (Length p) (bytesInFlight h)) h.

Definition retransmitTLP (h : sentPacketHandler) : sentPacketHandler :=
  match last (packetHistory h) with
  | Some p => queuePacketForRetransmission h p
  | None => h
  end.

(** [for Len() > 0 { queueRTO(Front()) }]; every iteration takes one packet. *)
Fixpoint retransmitLoop (fuel : nat) (h : sentPacketHandler) : sentPacketHandler :=
  match fuel, packetHistory h with
  | S fuel', p :: _ => retransmitLoop fuel' (queueRTO h p)
  | _, _ => h
  end.
Definition retransmitAllPackets (h : sentPacketHandler) : sentPacketHandler :=
  let h := retransmitLoop (length (packetHistory h)) h in
  set_congestion (OnRetransmissionTimeout (congestion h) (rttStats h) true) h.

Definition retransmitOldestPacket (h : sentPacketHandler) : sentPacketHandler :=
  match packetHistory h with p :: _ => queueRTO h p | [] => h end.
Definition retransmitOldestTwoPackets (h : sentPacketHandler) : sentPacketHandler :=
  let h := retransmitOldestPacket h in
  let h := retransmitOldestPacket h in
  set_congestion (OnRetransmissionTimeout (congestion h) (rttStats h) true) h.

(** [onRTO] is the RTO callback, if there is one. *)
Definition OnAlarm (h : sentPacketHandler) (now : Z) (onRTO : option (Z → bool)) : sentPacketHandler :=
  if negb (hasOutstandingRetransmittablePacket h) then set_alarm time.zero h
  else
    let h :=
      if negb (time.IsZero (lossTime h)) then detectLostPackets h now
      else if tlpCount h <? maxTailLossProbes then
        let h := retransmitTLP h in set_tlpCount (u32 (tlpCount h + 1)) h
      else
        let potentiallyFailed := match onRTO with Some f => f (lastSentTime h) | None => false end in
        let h := if potentiallyFailed then retransmitAllPackets h else retransmitOldestTwoPackets h in
        set_rtoCount (u32 (rtoCount h + 1)) h in
    updateLossDetectionAlarm h.

Definition GetAlarmTimeout (h : sentPacketHandler) : Z := alarm h.

Definition DequeuePacketForRetransmission (h : sentPacketHandler) : sentPacketHandler * option Packet :=
  match retransmissionQueue h with
  | [] => (h, None)
  | packet :: queue =>
      (set_retransmissions (u64 (retransmissions h + 1)) (set_retransmissionQueue queue h), Some packet)
  end.

Definition GetLeastUnacked (h : sentPacketHandler) : Z := u64 (largestInOrderAcked h + 1).

Definition GetStopWaitingFrame (h : sentPacketHandler) (force : bool) :
    sentPacketHandler * option StopWaitingFrame.StopWaitingFrame :=
  let '(s, f) := stopWaitingManager.GetStopWaitingFrame (stopWaiting h) force in (set_stopWaiting s h, f).

Definition SendingAllowed (h : sentPacketHandler) : bool :=
  let congestionLimited := GetCongestionWindow (congestion h) (rttStats h) <? bytesInFlight h in
  let maxTrackedLimited := MaxTrackedSentPackets <=? len (retransmissionQueue h) + len (packetHistory h) in
  let haveRetransmissions := 0 <? len (retransmissionQueue h) in
  negb maxTrackedLimited && (negb congestionLimited || haveRetransmissions).

Definition DuplicatePacket (h : sentPacketHandler) (packet : Packet) : sentPacketHandler :=
  set_retransmissionQueue (retransmissionQueue h ++ [packet]) h.

(** packet_linkedlist.go, RemovePacketByNumber: the list without the packet, and
    the length of the packet (0 when it is not in the list). *)
Fixpoint removeByNumber (num : Z) (l : list Packet) : list Packet * Z :=
  match l with
  | [] => ([], 0)
  | p :: l' => if PacketNumber p =? num then (l', Length p)
               else let '(l'', n) := removeByNumber num l' in (p :: l'', n)
  end.

(** The search in the retransmission queue. *)
Fixpoint removeQueued (num : Z) (l : list Packet) : option (list Packet) :=
  match l with
  | [] => None
  | p :: l' => if PacketNumber p =? num then Some l'
               else match removeQueued num l' with Some l'' => Some (p :: l'') | None => None end
  end.

Definition RemovePacketByNumber (h : sentPacketHandler) (num : Z) : sentPacketHandler * bool :=
  let '(history, removedBytes) := removeByNumber num (packetHistory h) in
  let h := set_packetHistory history h in
  let h := set_bytesInFlight (u64 (bytesInFlight h - removedBytes)) h in
  if 0 <? removedBytes then (set_tlpCount 0 (set_rtoCount 0 h), true)
  else match removeQueued num (retransmissionQueue h) with
       | Some queue => (set_retransmissionQueue queue h, true)
       | None => (h, false)
       end.

End handler.
End sentPacketHandler.

(** ** Lists of packets *)
Section packets.
Import sentPacketHandler.

(** Packets in the order of their numbers, all above [lo]. *)
Fixpoint sorted_from (lo : Z) (l : list Packet) : Prop :=
  match l with
  | [] => True
  | p :: l' => lo < PacketNumber p ∧ sorted_from (PacketNumber p) l'
  end.

Definition bytes (l : list Packet) : Z := foldr (λ p n, Length p + n) 0 l.

Lemma sorted_from_above lo l p : sorted_from lo l → p ∈ l → lo < PacketNumber p.
Proof.
  revert lo. induction l as [|q l IH]; intros lo Hs Hp; [set_solver|]. destruct Hs as [? Hs].
  apply elem_of_cons in Hp as [->|Hp]; [done|]. specialize (IH _ Hs Hp). lia.
Qed.

Lemma sorted_from_mono lo lo' l : lo' <= lo → sorted_from lo l → sorted_from lo' l.
Proof. destruct l; simpl; [done|]. intros ? [? ?]. split; [lia|done]. Qed.

Lemma sorted_from_snoc lo l p : sorted_from lo l → (∀ q, q ∈ l → PacketNumber q < PacketNumber p) →
  lo < PacketNumber p → sorted_from lo (l ++ [p]).
Proof.
  revert lo. induction l as [|q l IH]; intros lo Hs Hq Hlo; simpl; [done|]. destruct Hs as [? Hs].
  split; [done|]. apply IH; [done|set_solver|apply Hq; set_solver].
Qed.

Lemma sorted_from_filter lo l f : sorted_from lo l → sorted_from lo (List.filter f l).
Proof.
  revert lo. induction l as [|q l IH]; intros lo Hs; simpl; [done|]. destruct Hs as [? Hs].
  destruct (f q); simpl; [auto|]. apply (sorted_from_mono (PacketNumber q)); [lia|auto].
Qed.

Lemma filter_elem f (l : list Packet) p : p ∈ List.filter f l ↔ p ∈ l ∧ f p = true.
Proof. rewrite !list_elem_of_In. apply List.filter_In. Qed.

Lemma filter_ext f g (l : list Packet) : (∀ p, p ∈ l → f p = g p) → List.filter f l = List.filter g l.
Proof. intros H. apply List.filter_ext_in. intros p Hp. apply H. by apply list_elem_of_In. Qed.

Lemma filter_filter f g (l : list Packet) : List.filter f (List.filter g l) = List.filter (λ p, g p && f p) l.
Proof. induction l as [|p l IH]; simpl; [done|]. destruct (g p); simpl; [|done]. destruct (f p); by rewrite IH. Qed.

Lemma filter_none f (l : list Packet) : (∀ p, p ∈ l → f p = false) → List.filter f l = [].
Proof.
  induction l as [|p l IH]; intros H; [done|]. simpl. rewrite H by set_solver. apply IH. set_solver.
Qed.

Lemma filter_all f (l : list Packet) : (∀ p, p ∈ l → f p = true) → List.filter f l = l.
Proof.
  induction l as [|p l IH]; intros H; [done|]. simpl. rewrite H by set_solver. f_equal. apply IH. set_solver.
Qed.

Lemma bytes_app l k : bytes (l ++ k) = bytes l + bytes k.
Proof. unfold bytes. induction l as [|p l IH]; simpl; lia. Qed.

Lemma bytes_bound l n : Forall (λ p, 0 <= Length p <= n) l → 0 <= bytes l <= n * len l.
Proof.
  induction 1 as [|p l Hp Hl IH]; [simpl; unfold len; simpl; lia|]. rewrite len_cons.
  change (bytes (p :: l)) with (Length p + bytes l). lia.
Qed.

(** Removing one element is filtering by its number. *)
Lemma removeElement_filter lo p l : sorted_from lo l →
  removeElement p l = List.filter (λ q, negb (PacketNumber q =? PacketNumber p)) l.
Proof.
  revert lo. induction l as [|q l IH]; intros lo Hs; [done|]. destruct Hs as [? Hs]. simpl.
  destruct (Z.eqb_spec (PacketNumber q) (PacketNumber p)) as [E|E]; simpl; [|f_equal; by eapply IH].
  symmetry. apply filter_all. intros x Hx. pose proof (sorted_from_above _ _ _ Hs Hx). lia.
Qed.

Lemma bytes_remove lo p l : sorted_from lo l → p ∈ l →
  bytes l = Length p + bytes (List.filter (λ q, negb (PacketNumber q =? PacketNumber p)) l).
Proof.
  revert lo. induction l as [|q l IH]; intros lo Hs Hp; [set_solver|]. destruct Hs as [? Hs].
  change (bytes (q :: l)) with (Length q + bytes l). simpl.
  apply elem_of_cons in Hp as [->|Hp].
  - rewrite Z.eqb_refl. simpl. rewrite filter_all; [done|]. intros x Hx.
    pose proof (sorted_from_above _ _ _ Hs Hx). lia.
  - pose proof (sorted_from_above _ _ _ Hs Hp). destruct (Z.eqb_spec (PacketNumber q) (PacketNumber p)); [lia|].
    simpl. rewrite (IH _ Hs Hp). lia.
Qed.

(** The packets of [l] that are not in [ps], by number. *)
Definition minus (l ps : list Packet) : list Packet :=
  List.filter (λ q, negb (existsb (λ p, PacketNumber q =? PacketNumber p) ps)) l.

Lemma minus_nil l : minus l [] = l.
Proof. by apply filter_all. Qed.

Lemma minus_cons l p ps : minus l (p :: ps) = minus (List.filter (λ q, negb (PacketNumber q =? PacketNumber p)) l) ps.
Proof.
  unfold minus. rewrite filter_filter. apply filter_ext. intros q _. simpl.
  by destruct (PacketNumber q =? PacketNumber p).
Qed.

(** Taking a filtered part away leaves the rest. *)
Lemma minus_filter lo l f : sorted_from lo l → minus l (List.filter f l) = List.filter (λ p, negb (f p)) l.
Proof.
  intros Hs. apply filter_ext. intros q Hq. f_equal.
  destruct (f q) eqn:E.
  - apply existsb_exists. exists q. split; [|apply Z.eqb_refl]. apply list_elem_of_In, filter_elem. done.
  - apply not_true_is_false. intros (x & Hx & Ex)%existsb_exists. apply list_elem_of_In, filter_elem in Hx as [Hx Hfx].
    apply Z.eqb_eq in Ex. assert (q = x) as ->; [|congruence].
    clear -Hs Hq Hx Ex. revert lo Hs. induction l as [|y l IH]; intros lo Hs; [set_solver|]. destruct Hs as [? Hs].
    apply elem_of_cons in Hq as [->|Hq], Hx as [->|Hx]; [done| | |eauto].
    + pose proof (sorted_from_above _ _ _ Hs Hx). lia.
    + pose proof (sorted_from_above _ _ _ Hs Hq). lia.
Qed.

Lemma sorted_from_notin p l : sorted_from (PacketNumber p) l → p ∉ l.
Proof. intros Hs Hp. pose proof (sorted_from_above _ _ _ Hs Hp). lia. Qed.

End packets.

(** ** Which packets an ACK acknowledges *)
Section newly_acked.
Import sentPacketHandler.

(** Ranges from low to high. *)
Fixpoint ascending (lo : Z) (rs : list AckRange) : Prop :=
  match rs with
  | [] => True
  | r :: rs' => lo < First r <= Last r ∧ ascending (Last r) rs'
  end.

Definition in_ranges (rs : list AckRange) (p : Z) : bool :=
  existsb (λ r, (First r <=? p) && (p <=? Last r)) rs.

Lemma ascending_snoc lo rs r :
  ascending lo (rs ++ [r]) ↔
  ascending lo rs ∧ match last rs with Some x => Last x | None => lo end < First r <= Last r.
Proof.
  revert lo. induction rs as [|x rs IH]; intros lo; [simpl; tauto|].
  cbn [app ascending]. rewrite IH, last_cons. destruct (last rs); tauto.
Qed.

Lemma last_rev {A} (l : list A) : last (rev l) = head l.
Proof. destruct l as [|y l]; [done|]. cbn [rev head]. by rewrite last_snoc. Qed.

Lemma ranges_ascending b rs : ranges_below b rs → ascending (-1) (rev rs).
Proof.
  revert b. induction rs as [|r rs IH]; intros b Hb; [done|]. destruct Hb as (? & ? & Hb).
  cbn [rev]. apply ascending_snoc. split; [eauto|]. rewrite last_rev.
  destruct rs as [|r' rs]; [simpl; lia|]. destruct Hb as (? & ? & _). simpl. lia.
Qed.

Lemma valid_ranges_ascending largest lowest ranges : valid_ranges largest lowest ranges →
  ascending (-1) (rev ranges) ∧ rev ranges ≠ [] ∧ ∃ r, last (rev ranges) = Some r ∧ Last r = largest.
Proof.
  destruct ranges as [|r0 rs]; [done|]. intros (H0 & HL & Hne & Hb & _). split.
  - apply (ranges_ascending (largest + 2)). split; [lia|]. split; [lia|done].
  - split; [cbn [rev]; by destruct (rev rs)|]. exists r0. by rewrite last_rev.
Qed.

Lemma in_ranges_rev rs p : in_ranges (rev rs) p = in_ranges rs p.
Proof.
  unfold in_ranges. apply eq_true_iff_eq. rewrite !existsb_exists.
  split; intros (x & Hx & ?); exists x; (split; [|done]); [by apply in_rev|by apply in_rev; rewrite rev_involutive].
Qed.

Lemma in_ranges_low lo rs p : ascending lo rs → p <= lo → in_ranges rs p = false.
Proof.
  revert lo. induction rs as [|r rs IH]; intros lo Ha Hp; [done|]. destruct Ha as [? Ha].
  cbn. fold (in_ranges rs p). rewrite (IH _ Ha) by lia. lia.
Qed.

(** The ranges that are skipped lie below the packet. *)
Lemma advance_spec lo p rs : ascending lo rs → rs ≠ [] →
  ∃ r rs', advance p rs = r :: rs' ∧ (∃ lo', ascending lo' (r :: rs')) ∧ last (r :: rs') = last rs ∧
    (∀ q, p <= q → in_ranges (r :: rs') q = in_ranges rs q) ∧ (p <= Last r ∨ rs' = []).
Proof.
  revert lo. induction rs as [|r rs IH]; intros lo Ha Hne; [done|]. cbn [advance].
  destruct rs as [|r1 rs]; [exists r, []; eauto 10|].
  destruct (Z.ltb_spec (Last r) p).
  - destruct Ha as [Hr Ha]. destruct (IH _ Ha ltac:(done)) as (x & rs' & E & Hasc & Hl & Hin & Hor).
    exists x, rs'. split; [done|]. split; [done|]. split; [by rewrite Hl|]. split; [|done].
    intros q Hq. rewrite (Hin q Hq). change (in_ranges (r :: r1 :: rs) q) with
      (((First r <=? q) && (q <=? Last r)) || in_ranges (r1 :: rs) q).
    destruct (Z.leb_spec q (Last r)); [lia|]. by rewrite andb_false_r.
  - exists r, (r1 :: rs). repeat split; eauto.
Qed.

Lemma newlyAcked_ranges lo lowest largest rs l b :
  ascending lo rs → rs ≠ [] → (∀ r, last rs = Some r → Last r = largest) → sorted_from b l →
  newlyAckedLoop lowest largest true rs l =
    Ok (List.filter (λ p, (lowest <=? PacketNumber p) && (PacketNumber p <=? largest) &&
                          in_ranges rs (PacketNumber p)) l).
Proof.
  revert lo rs b. induction l as [|p l IH]; intros lo rs b Ha Hne Hlast Hs; [done|].
  destruct Hs as [Hb Hs]. cbn [newlyAckedLoop List.filter].
  destruct (Z.ltb_spec (PacketNumber p) lowest).
  { rewrite (IH _ _ _ Ha Hne Hlast Hs). destruct (Z.leb_spec lowest (PacketNumber p)); [lia|done]. }
  destruct (Z.ltb_spec largest (PacketNumber p)).
  { destruct (Z.leb_spec (PacketNumber p) largest); [lia|]. rewrite andb_false_r. cbn [andb].
    rewrite filter_none; [done|]. intros q Hq. pose proof (sorted_from_above _ _ _ Hs Hq).
    destruct (Z.leb_spec (PacketNumber q) largest); [lia|]. by rewrite andb_false_r. }
  destruct (advance_spec lo (PacketNumber p) rs Ha Hne) as (r & rs' & -> & [lo' Ha'] & Hl' & Hin & Hor).
  assert (Last r < PacketNumber p → False) as Hno.
  { intros Hlt. destruct Hor as [?| ->]; [lia|]. specialize (Hlast r). rewrite <- Hl' in Hlast.
    specialize (Hlast eq_refl). lia. }
  assert (newlyAckedLoop lowest largest true (r :: rs') l = Ok (List.filter (λ p, (lowest <=? PacketNumber p) &&
    (PacketNumber p <=? largest) && in_ranges rs (PacketNumber p)) l)) as E.
  { rewrite (IH lo' (r :: rs') _ Ha' ltac:(done) ltac:(by rewrite Hl') Hs). f_equal. apply filter_ext.
    intros q Hq. pose proof (sorted_from_above _ _ _ Hs Hq). f_equal. apply Hin. lia. }
  rewrite <- (Hin (PacketNumber p)) by lia.
  destruct (Z.leb_spec lowest (PacketNumber p)); [|lia]. destruct (Z.leb_spec (PacketNumber p) largest); [|lia].
  cbn [andb]. change (in_ranges (r :: rs') (PacketNumber p)) with
    (((First r <=? PacketNumber p) && (PacketNumber p <=? Last r)) || in_ranges rs' (PacketNumber p)).
  destruct (Z.leb_spec (First r) (PacketNumber p)).
  - destruct (Z.ltb_spec (Last r) (PacketNumber p)); [by destruct Hno|]. rewrite E.
    destruct (Z.leb_spec (PacketNumber p) (Last r)); [|lia]. done.
  - rewrite E. cbn [andb orb]. destruct Ha' as [_ Ha']. rewrite (in_ranges_low _ _ _ Ha') by lia. done.
Qed.

Lemma newlyAcked_all lowest largest rs l b : sorted_from b l →
  newlyAckedLoop lowest largest false rs l =
    Ok (List.filter (λ p, (lowest <=? PacketNumber p) && (PacketNumber p <=? largest)) l).
Proof.
  revert b. induction l as [|p l IH]; intros b Hs; [done|]. destruct Hs as [Hb Hs].
  cbn [newlyAckedLoop List.filter]. rewrite (IH _ Hs).
  destruct (Z.ltb_spec (PacketNumber p) lowest), (Z.leb_spec lowest (PacketNumber p)); try lia; cbn [andb]; [done|].
  destruct (Z.ltb_spec largest (PacketNumber p)), (Z.leb_spec (PacketNumber p) largest); try lia; [|done].
  rewrite filter_none; [done|]. intros q Hq. pose proof (sorted_from_above _ _ _ Hs Hq). lia.
Qed.

(** The loop finds exactly the packets for which AcksPacket holds. *)
Lemma newlyAcked_spec lowest largest ranges l b : valid_acks largest lowest ranges → sorted_from b l →
  newlyAckedLoop lowest largest (ackRanges.HasMissingRanges ranges) (rev ranges) l =
    Ok (List.filter (λ p, ackRanges.AcksPacket lowest largest ranges (PacketNumber p)) l).
Proof.
  intros [_ Hv] Hs. unfold ackRanges.AcksPacket. destruct ranges as [|r0 rs].
  - change (ackRanges.HasMissingRanges []) with false. rewrite (newlyAcked_all _ _ _ _ b Hs). f_equal.
    apply filter_ext. intros p _. cbv iota. destruct (Z.ltb_spec (PacketNumber p) lowest),
      (Z.ltb_spec largest (PacketNumber p)); cbn [orb]; lia.
  - rewrite HasMissingRanges_cons. destruct (valid_ranges_ascending _ _ _ Hv) as (Ha & Hne & r & Hl & Hr).
    rewrite (newlyAcked_ranges (-1) lowest largest _ l b Ha Hne); [|congruence|done]. f_equal.
    apply filter_ext. intros p _. rewrite in_ranges_rev. fold (in_ranges (r0 :: rs) (PacketNumber p)).
    destruct (Z.ltb_spec (PacketNumber p) lowest), (Z.ltb_spec largest (PacketNumber p)); cbn [orb]; try lia.
    destruct (Z.leb_spec lowest (PacketNumber p)), (Z.leb_spec (PacketNumber p) largest); try lia. done.
Qed.

End newly_acked.

(** ** The invariant of the handler *)
Section invariant.
Import protocol sentPacketHandler.
Context {R C : Type} `{!RTTStats R, !SendAlgorithm R C}.
Notation handler := (@sentPacketHandler R C).

(** What is tracked for retransmission: frames that must arrive. *)
Definition packet_ok (p : Packet) : Prop :=
  0 <= Length p < 2 ^ 32 ∧ Frames p ≠ [] ∧ Forall (λ f, IsFrameRetransmittable f = true) (Frames p).

Record sph_inv (h : handler) : Prop := {
  inv_last : 0 <= lastSentPacketNumber h < 2 ^ 48;
  inv_sorted : sorted_from 0 (packetHistory h);
  inv_sent p : p ∈ packetHistory h → PacketNumber p <= lastSentPacketNumber h ∧ packet_ok p;
  inv_bytes : bytesInFlight h = bytes (packetHistory h);
  inv_len : len (packetHistory h) <= MaxTrackedSentPackets;
  inv_skipped_len : len (skippedPackets h) <= MaxTrackedSkippedPackets;
  inv_skipped s : s ∈ skippedPackets h → 1 <= s < lastSentPacketNumber h ∧
    ∀ p, p ∈ packetHistory h → PacketNumber p ≠ s;
}.

(** The fields the invariant is about. *)
Definition same_core (h h' : handler) : Prop :=
  lastSentPacketNumber h' = lastSentPacketNumber h ∧ skippedPackets h' = skippedPackets h ∧
  packetHistory h' = packetHistory h ∧ retransmissionQueue h' = retransmissionQueue h ∧
  bytesInFlight h' = bytesInFlight h.

Lemma inv_same_core h h' : same_core h h' → sph_inv h → sph_inv h'.
Proof. intros (E1 & E2 & E3 & E4 & E5) [? ? ? ? ? ? ?]. by constructor; rewrite ?E1, ?E2, ?E3, ?E4, ?E5. Qed.

Lemma alarm_core h : same_core h (updateLossDetectionAlarm h).
Proof. unfold updateLossDetectionAlarm. repeat (case_match; [done|]). done. Qed.

Lemma bytes_range h : sph_inv h → 0 <= bytes (packetHistory h) < 2 ^ 63.
Proof.
  intros H. assert (Forall (λ p, 0 <= Length p <= 2 ^ 32) (packetHistory h)) as Hf.
  { apply Forall_forall. intros p Hp. destruct (inv_sent h H p Hp) as [_ [? _]]. lia. }
  pose proof (bytes_bound _ _ Hf). pose proof (inv_len h H) as Hl. unfold MaxTrackedSentPackets in Hl.
  pose proof (len_nonneg (packetHistory h)). lia.
Qed.

(** Taking packets out of the history one by one. *)
Lemma foldl_remove (f : handler → Packet → handler) ps h b :
  (∀ h p, packetHistory (f h p) = removeElement p (packetHistory h)) →
  (∀ h p, bytesInFlight (f h p) = u64 (bytesInFlight h - Length p)) →
  sorted_from 0 (packetHistory h) → bytesInFlight h = bytes (packetHistory h) →
  bytes (packetHistory h) < 2 ^ 63 → (∀ p, p ∈ packetHistory h → 0 <= Length p) →
  (∀ p, p ∈ ps → p ∈ packetHistory h) → sorted_from b ps →
  packetHistory (foldl f h ps) = minus (packetHistory h) ps ∧
  bytesInFlight (foldl f h ps) = bytes (minus (packetHistory h) ps).
Proof.
  intros Hh Hb. revert h b. induction ps as [|p ps IH]; intros h b Hs Hbif Hlt Hpos Hin Hps.
  { by rewrite minus_nil. }
  destruct Hps as [_ Hps]. assert (p ∈ packetHistory h) as Hp by set_solver.
  pose proof (bytes_remove _ _ _ Hs Hp) as Hrem. cbn [foldl]. rewrite minus_cons.
  rewrite <- (removeElement_filter _ _ _ Hs), <- Hh.
  assert (0 <= bytes (removeElement p (packetHistory h))) as Hge.
  { rewrite (removeElement_filter _ _ _ Hs). assert (Forall (λ p, 0 <= Length p)
      (List.filter (λ q, negb (PacketNumber q =? PacketNumber p)) (packetHistory h))) as Hf.
    { apply Forall_forall. intros q Hq. apply filter_elem in Hq as [Hq _]. auto. }
    clear -Hf. induction Hf as [|q l Hq Hl IH]; [done|]. change (0 <= Length q + bytes l). lia. }
  rewrite <- (removeElement_filter _ _ _ Hs) in Hrem. specialize (Hpos p Hp) as Hlp.
  apply (IH (f h p) (PacketNumber p)).
  - rewrite Hh, (removeElement_filter _ _ _ Hs). by apply sorted_from_filter.
  - rewrite Hb, Hh, Hbif, Hrem. zlia.
  - rewrite Hh. lia.
  - intros q. rewrite Hh, (removeElement_filter _ _ _ Hs), filter_elem. intros [Hq _]. auto.
  - intros q Hq. rewrite Hh, (removeElement_filter _ _ _ Hs), filter_elem. split; [set_solver|].
    pose proof (sorted_from_above _ _ _ Hps Hq). lia.
  - done.
Qed.

(** What the folds leave unchanged. *)
Lemma ackAll_fields ps h :
  lastSentPacketNumber (ackAll h ps) = lastSentPacketNumber h ∧ skippedPackets (ackAll h ps) = skippedPackets h ∧
  retransmissionQueue (ackAll h ps) = retransmissionQueue h ∧ LargestAcked (ackAll h ps) = LargestAcked h ∧
  rttStats (ackAll h ps) = rttStats h ∧ lastSentTime (ackAll h ps) = lastSentTime h ∧
  stopWaiting (ackAll h ps) = stopWaiting h.
Proof. unfold ackAll. revert h. induction ps as [|p ps IH]; intros h; [done|]. cbn [foldl]. by destruct (IH (ackOne h p)) as (-> & -> & -> & -> & -> & -> & ->). Qed.

Lemma loseAll_fields ps h :
  lastSentPacketNumber (loseAll h ps) = lastSentPacketNumber h ∧ skippedPackets (loseAll h ps) = skippedPackets h ∧
  retransmissionQueue (loseAll h ps) = retransmissionQueue h ++ ps ∧ LargestAcked (loseAll h ps) = LargestAcked h ∧
  rttStats (loseAll h ps) = rttStats h ∧ lossTime (loseAll h ps) = lossTime h ∧ lastSentTime (loseAll h ps) = lastSentTime h.
Proof.
  unfold loseAll. revert h. induction ps as [|p ps IH]; intros h; [by rewrite app_nil_r|]. cbn [foldl].
  destruct (IH (loseOne h p)) as (-> & -> & -> & -> & -> & -> & ->). 
  change (retransmissionQueue (loseOne h p)) with (retransmissionQueue h ++ [p]). by rewrite <- app_assoc.
Qed.

(** The removal of a filtered part of the history, with the same queue or with
    the part appended to it, keeps the invariant. *)
Lemma inv_filter h h' f :
  sph_inv h →
  lastSentPacketNumber h' = lastSentPacketNumber h → skippedPackets h' = skippedPackets h →
  packetHistory h' = List.filter f (packetHistory h) → bytesInFlight h' = bytes (packetHistory h') →
  sph_inv h'.
Proof.
  intros [H1 H2 H3 H4 H5 H6 H7] E1 E2 E3 E4. constructor; rewrite ?E1, ?E2, ?E3 in *.
  - done.
  - by apply sorted_from_filter.
  - intros p [Hp _]%filter_elem. auto.
  - done.
  - assert (length (List.filter f (packetHistory h)) <= length (packetHistory h))%nat by apply List.filter_length_le.
    unfold len in *. lia.
  - done.
  - intros s Hs. split; [by apply H7|]. intros p [Hp _]%filter_elem. by apply H7.
Qed.

Lemma ackAll_spec h f : sph_inv h →
  packetHistory (ackAll h (List.filter f (packetHistory h))) = List.filter (λ p, negb (f p)) (packetHistory h) ∧
  sph_inv (ackAll h (List.filter f (packetHistory h))).
Proof.
  intros H. set (ps := List.filter f (packetHistory h)).
  destruct (foldl_remove ackOne ps h 0) as [Hh Hb]; [done|done|apply H|apply H|apply bytes_range, H| | | |].
  { intros p Hp. apply (inv_sent h H p Hp). }
  { by intros p [Hp _]%filter_elem. }
  { apply sorted_from_filter, H. }
  fold (ackAll h ps) in Hh, Hb. unfold ps in Hh at 2. rewrite (minus_filter 0) in Hh by apply H.
  unfold ps in Hb at 2. rewrite (minus_filter 0) in Hb by apply H. split; [done|].
  destruct (ackAll_fields ps h) as (E1 & E2 & E3 & _).
  apply (inv_filter h _ (λ p, negb (f p)) H E1 E2 Hh). by rewrite Hh.
Qed.

Lemma loseAll_spec h f : sph_inv h →
  let ps := List.filter f (packetHistory h) in
  packetHistory (loseAll h ps) = List.filter (λ p, negb (f p)) (packetHistory h) ∧
  retransmissionQueue (loseAll h ps) = retransmissionQueue h ++ ps ∧ sph_inv (loseAll h ps).
Proof.
  intros H ps.
  destruct (foldl_remove loseOne ps h 0) as [Hh Hb]; [done|done|apply H|apply H|apply bytes_range, H| | | |].
  { intros p Hp. apply (inv_sent h H p Hp). }
  { by intros p [Hp _]%filter_elem. }
  { apply sorted_from_filter, H. }
  fold (loseAll h ps) in Hh, Hb. unfold ps in Hh at 2. rewrite (minus_filter 0) in Hh by apply H.
  unfold ps in Hb at 2. rewrite (minus_filter 0) in Hb by apply H.
  destruct (loseAll_fields ps h) as (E1 & E2 & E3 & _). split; [done|]. split; [done|].
  apply (inv_filter h _ (λ p, negb (f p)) H E1 E2 Hh). by rewrite Hh.
Qed.

(** The loops that look for lost packets. *)
Definition is_lost (largest now delay : Z) (p : Packet) : bool :=
  (PacketNumber p <=? largest) && (delay <? time.Sub now (SendTime p)).

Lemma lostLoop_spec b now delay l h : sorted_from b l →
  let '(h', lost) := lostLoop h now delay l in
  same_core h h' ∧ LargestAcked h' = LargestAcked h ∧ rttStats h' = rttStats h ∧
  lastSentTime h' = lastSentTime h ∧ stopWaiting h' = stopWaiting h ∧
  lost = List.filter (is_lost (LargestAcked h) now delay) l.
Proof.
  revert b h. induction l as [|p l IH]; intros b h Hs; [done|]. destruct Hs as [Hb Hs].
  cbn [lostLoop List.filter]. unfold is_lost at 1. destruct (Z.ltb_spec (LargestAcked h) (PacketNumber p)).
  - repeat (split; [done|]). destruct (Z.leb_spec (PacketNumber p) (LargestAcked h)); [lia|]. cbn [andb].
    symmetry. apply filter_none. intros q Hq. pose proof (sorted_from_above _ _ _ Hs Hq). unfold is_lost. lia.
  - destruct (Z.leb_spec (PacketNumber p) (LargestAcked h)); [|lia]. cbn [andb].
    destruct (Z.ltb_spec delay (time.Sub now (SendTime p))).
    + specialize (IH _ (set_losses (u64 (losses h + 1)) h) Hs). destruct (lostLoop _ now delay l) as [h' lost].
      destruct IH as ((? & ? & ? & ? & ?) & ? & ? & ? & ? & ->). by repeat split.
    + destruct (time.IsZero (lossTime h)).
      * specialize (IH _ (set_lossTime (time.Add now (i64 (delay - time.Sub now (SendTime p)))) h) Hs).
        destruct (lostLoop _ now delay l) as [h' lost]. destruct IH as ((? & ? & ? & ? & ?) & ? & ? & ? & ? & ->).
        by repeat split.
      * apply (IH _ h Hs).
Qed.

Lemma inflightLoop_spec b l h : sorted_from b l →
  let '(h', lost) := inflightLoop h l in
  same_core h h' ∧ LargestAcked h' = LargestAcked h ∧ rttStats h' = rttStats h ∧
  lost = List.filter (λ p, PacketNumber p <=? LargestAcked h) l.
Proof.
  revert b h. induction l as [|p l IH]; intros b h Hs; [done|]. destruct Hs as [Hb Hs].
  cbn [inflightLoop List.filter]. destruct (Z.ltb_spec (LargestAcked h) (PacketNumber p)).
  - repeat (split; [done|]). destruct (Z.leb_spec (PacketNumber p) (LargestAcked h)); [lia|].
    symmetry. apply filter_none. intros q Hq. pose proof (sorted_from_above _ _ _ Hs Hq). lia.
  - destruct (Z.leb_spec (PacketNumber p) (LargestAcked h)); [|lia].
    specialize (IH _ (set_losses (u64 (losses h + 1)) h) Hs). destruct (inflightLoop _ l) as [h' lost].
    destruct IH as ((? & ? & ? & ? & ?) & ? & ? & ->). by repeat split.
Qed.

Lemma detectLostPackets_spec h now : sph_inv h →
  let h' := detectLostPackets h now in
  let lost := is_lost (LargestAcked h) now (delayUntilLost h) in
  packetHistory h' = List.filter (λ p, negb (lost p)) (packetHistory h) ∧
  retransmissionQueue h' = retransmissionQueue h ++ List.filter lost (packetHistory h) ∧ sph_inv h'.
Proof.
  intros H h' lost. unfold h', detectLostPackets.
  pose proof (lostLoop_spec 0 now (delayUntilLost h) (packetHistory h) (set_lossTime time.zero h) (inv_sorted h H)) as Hl.
  change (delayUntilLost (set_lossTime time.zero h)) with (delayUntilLost h).
  change (packetHistory (set_lossTime time.zero h)) with (packetHistory h).
  destruct (lostLoop _ _ _ _) as [h1 ps]. destruct Hl as (Hcore & _ & _ & _ & _ & ->).
  assert (sph_inv h1) as H1 by (eapply inv_same_core; [exact Hcore|]; by eapply inv_same_core; [|exact H]).
  destruct Hcore as (E1 & E2 & E3 & E4 & E5). cbn in E3, E4.
  change (LargestAcked (set_lossTime time.zero h)) with (LargestAcked h). fold lost.
  pose proof (loseAll_spec h1 lost H1) as Hs. cbv zeta in Hs. rewrite E3, E4 in Hs. exact Hs.
Qed.

Lemma SetInflightAsLost_spec h : sph_inv h →
  let h' := SetInflightAsLost h in
  packetHistory h' = List.filter (λ p, negb (PacketNumber p <=? LargestAcked h)) (packetHistory h) ∧
  retransmissionQueue h' =
    retransmissionQueue h ++ List.filter (λ p, PacketNumber p <=? LargestAcked h) (packetHistory h) ∧ sph_inv h'.
Proof.
  intros H h'. unfold h', SetInflightAsLost.
  pose proof (inflightLoop_spec 0 (packetHistory h) h (inv_sorted h H)) as Hl.
  destruct (inflightLoop _ _) as [h1 ps]. destruct Hl as (Hcore & _ & _ & ->).
  assert (sph_inv h1) as H1 by by eapply inv_same_core.
  destruct Hcore as (E1 & E2 & E3 & E4 & E5).
  pose proof (loseAll_spec h1 (λ p, PacketNumber p <=? LargestAcked h) H1) as Hs. cbv zeta in Hs.
  rewrite E3, E4 in Hs. exact Hs.
Qed.

(** *** Sending *)

(** The numbers from [p] on. *)
Fixpoint seqZ_from (p : Z) (k : nat) : list Z :=
  match k with O => [] | S k' => p :: seqZ_from (p + 1) k' end.

Lemma seqZ_from_elem s p k : s ∈ seqZ_from p k ↔ p <= s < p + Z.of_nat k.
Proof.
  revert p. induction k as [|k IH]; intros p; simpl; [set_solver by lia|].
  rewrite elem_of_cons, IH. lia.
Qed.

Lemma drop_elem (s : Z) k l : s ∈ drop k l → s ∈ l.
Proof. intros Hs. rewrite <- (take_drop k l). apply elem_of_app. by right. Qed.

(** The last ten elements of a list. *)
Definition last_ten (l : list Z) : list Z := drop (length l - 10) l.

Lemma last_ten_cons s l : (10 <= length l)%nat → last_ten (s :: l) = last_ten l.
Proof.
  intros Hl. unfold last_ten. cbn [length]. replace (S (length l) - 10)%nat with (S (length l - 10)) by lia. done.
Qed.

Lemma last_ten_short l : (length l <= 10)%nat → last_ten l = l.
Proof. intros Hl. unfold last_ten. by replace (length l - 10)%nat with 0%nat by lia. Qed.

(** The skipped packets that are remembered are the last ten of all. *)
Lemma skipLoop_spec p k sk : (length sk <= 10)%nat → skipLoop p k sk = last_ten (sk ++ seqZ_from p k).
Proof.
  revert p sk. induction k as [|k IH]; intros p sk Hl; cbn [skipLoop seqZ_from].
  - by rewrite app_nil_r, last_ten_short.
  - replace (sk ++ p :: seqZ_from (p + 1) k) with ((sk ++ [p]) ++ seqZ_from (p + 1) k) by by rewrite <- app_assoc.
    unfold MaxTrackedSkippedPackets. destruct (Z.ltb_spec 10 (len (sk ++ [p]))) as [Hlt|Hge].
    + unfold len in Hlt. rewrite length_app in Hlt. cbn [length] in Hlt.
      rewrite IH by (rewrite length_drop, length_app; cbn [length]; lia).
      destruct sk as [|s sk]; [simpl in Hlt; lia|]. cbn [length] in *. cbn [app].
      rewrite (last_ten_cons s) by (rewrite !length_app; cbn [length]; lia). done.
    + unfold len in Hge. apply IH. lia.
Qed.

Lemma last_ten_elem s l : s ∈ last_ten l → s ∈ l.
Proof. apply drop_elem. Qed.

Lemma last_ten_length l : (length (last_ten l) <= 10)%nat.
Proof. unfold last_ten. rewrite length_drop. lia. Qed.

Lemma strip_spec fs : Forall (λ f, IsFrameRetransmittable f = true) (stripNonRetransmittableFrames fs).
Proof.
  induction fs as [|f fs IH]; simpl; [constructor|]. destruct (IsFrameRetransmittable f) eqn:E; [|done].
  by constructor.
Qed.

(** What a packet adds to the history: nothing, when it holds only frames that
    are not sent again. *)
Definition tracked (now : Z) (packet : Packet) : list Packet :=
  match stripNonRetransmittableFrames (Frames packet) with
  | [] => []
  | fr => [MkPacket (PacketNumber packet) fr (Length packet) (EncLevel packet) now]
  end.

Lemma SentPacket_ok h now packet h' : SentPacket h now packet = (h', None) →
  lastSentPacketNumber h < PacketNumber packet ∧
  len (retransmissionQueue h) + len (packetHistory h) + 1 <= MaxTrackedSentPackets ∧
  lastSentPacketNumber h' = PacketNumber packet ∧
  skippedPackets h' = skipLoop (lastSentPacketNumber h + 1)
    (Z.to_nat (PacketNumber packet - (lastSentPacketNumber h + 1))) (skippedPackets h) ∧
  retransmissionQueue h' = retransmissionQueue h ∧
  packetHistory h' = packetHistory h ++ tracked now packet ∧
  bytesInFlight h' = match tracked now packet with
                     | [] => bytesInFlight h
                     | _ => u64 (bytesInFlight h + Length packet)
                     end.
Proof.
  unfold SentPacket. destruct (Z.leb_spec (PacketNumber packet) (lastSentPacketNumber h)); [done|].
  destruct (Z.ltb_spec MaxTrackedSentPackets (len (retransmissionQueue h) + len (packetHistory h) + 1)); [done|].
  intros [= <-]. split; [done|]. split; [done|].
  match goal with |- context [updateLossDetectionAlarm ?x] =>
    destruct (alarm_core x) as (-> & -> & -> & -> & ->) end.
  unfold tracked. destruct (stripNonRetransmittableFrames (Frames packet)) as [|f fr].
  - rewrite app_nil_r. done.
  - change (len (f :: fr) =? 0) with false. done.
Qed.

Lemma tracked_spec now packet p : p ∈ tracked now packet → 0 <= Length packet < 2 ^ 32 →
  PacketNumber p = PacketNumber packet ∧ packet_ok p.
Proof.
  unfold tracked. pose proof (strip_spec (Frames packet)) as Hs. destruct (stripNonRetransmittableFrames _).
  - set_solver.
  - intros ->%list_elem_of_singleton ?. done.
Qed.

Lemma tracked_len now packet : len (tracked now packet) <= 1.
Proof. unfold tracked. by destruct (stripNonRetransmittableFrames _). Qed.

(** The skipped numbers after a packet was sent lie below it and were not used. *)
Lemma skipped_after h pn s : sph_inv h → lastSentPacketNumber h < pn →
  s ∈ skipLoop (lastSentPacketNumber h + 1) (Z.to_nat (pn - (lastSentPacketNumber h + 1))) (skippedPackets h) →
  1 <= s < pn ∧ (s ∈ skippedPackets h ∨ lastSentPacketNumber h < s).
Proof.
  intros H Hpn. pose proof (inv_skipped_len h H) as Hl. unfold MaxTrackedSkippedPackets, len in Hl.
  rewrite skipLoop_spec by lia. intros [Hs|Hs%seqZ_from_elem]%last_ten_elem%elem_of_app.
  - destruct (inv_skipped h H s Hs) as [? _]. split; [lia|by left].
  - pose proof (inv_last h H). split; [lia|right; lia].
Qed.

Lemma SentPacket_inv h now packet h' err : sph_inv h → PacketNumber packet < 2 ^ 48 → 0 <= Length packet < 2 ^ 32 →
  SentPacket h now packet = (h', err) → sph_inv h'.
Proof.
  intros H Hpn Hlen E. destruct err as [e|].
  { revert E. unfold SentPacket. case_match; [by intros [= <- _]|]. case_match; [by intros [= <- _]|done]. }
  destruct (SentPacket_ok _ _ _ _ E) as (Hlast & Hroom & E1 & E2 & E3 & E4 & E5). clear E.
  pose proof (bytes_range h H) as Hb. pose proof (len_nonneg (retransmissionQueue h)).
  pose proof (skipped_after h (PacketNumber packet)) as Hsk. pose proof H as [H1 H2 H3 H4 H5 H6 H7].
  pose proof (tracked_len now packet).
  constructor; rewrite ?E1, ?E2, ?E3, ?E4, ?E5.
  - lia.
  - unfold tracked. destruct (stripNonRetransmittableFrames _) as [|f fr]; [by rewrite app_nil_r|].
    apply sorted_from_snoc; [done| |cbn; lia]. intros q Hq. destruct (H3 q Hq). cbn. lia.
  - intros p [Hp|Hp]%elem_of_app; [destruct (H3 p Hp); split; [lia|done]|].
    destruct (tracked_spec _ _ _ Hp Hlen). split; [lia|done].
  - rewrite bytes_app. unfold tracked. destruct (stripNonRetransmittableFrames _) as [|f fr].
    + change (bytes []) with 0. lia.
    + change (bytes [_]) with (Length packet + 0). rewrite H4. zlia.
  - rewrite len_app. lia.
  - unfold MaxTrackedSkippedPackets, len in *. rewrite skipLoop_spec by lia.
    pose proof (last_ten_length (skippedPackets h ++ seqZ_from (lastSentPacketNumber h + 1)
      (Z.to_nat (PacketNumber packet - (lastSentPacketNumber h + 1))))). lia.
  - intros s Hs. destruct (Hsk s H Hlast Hs) as [? Hor]. split; [done|].
    intros p [Hp|Hp]%elem_of_app.
    + destruct Hor as [?|?]; [by apply H7|]. destruct (H3 p Hp). lia.
    + destruct (tracked_spec _ _ _ Hp Hlen). lia.
Qed.

(** *** Retransmitting *)

Lemma queuePacket_spec h p : sph_inv h → p ∈ packetHistory h →
  let h' := queuePacketForRetransmission h p in
  packetHistory h' = List.filter (λ q, negb (PacketNumber q =? PacketNumber p)) (packetHistory h) ∧
  retransmissionQueue h' = retransmissionQueue h ++ [p] ∧ sph_inv h'.
Proof.
  intros H Hp h'. assert (packetHistory h' = List.filter (λ q, negb (PacketNumber q =? PacketNumber p)) (packetHistory h)) as Eh
    by apply (removeElement_filter 0 p _ (inv_sorted h H)).
  split; [done|]. split; [done|]. pose proof (bytes_range h H) as Hb.
  pose proof (bytes_remove 0 p _ (inv_sorted h H) Hp) as Hrem. destruct (inv_sent h H p Hp) as [_ [Hlp _]].
  apply (inv_filter h h' _ H eq_refl eq_refl Eh).
  rewrite Eh. change (bytesInFlight h') with (u64 (bytesInFlight h - Length p)). rewrite (inv_bytes h H), Hrem.
  assert (Forall (λ p, 0 <= Length p <= 2 ^ 32)
    (List.filter (λ q, negb (PacketNumber q =? PacketNumber p)) (packetHistory h))) as Hf.
  { apply Forall_forall. intros q [Hq _]%filter_elem. destruct (inv_sent h H q Hq) as [_ [? _]]. lia. }
  pose proof (bytes_bound _ _ Hf). zlia.
Qed.

Lemma queueRTO_spec h p : sph_inv h → p ∈ packetHistory h →
  let h' := queueRTO h p in
  packetHistory h' = List.filter (λ q, negb (PacketNumber q =? PacketNumber p)) (packetHistory h) ∧
  retransmissionQueue h' = retransmissionQueue h ++ [p] ∧ sph_inv h'.
Proof.
  intros H Hp. destruct (queuePacket_spec h p H Hp) as (E1 & E2 & Hi). split; [exact E1|]. split; [exact E2|].
  eapply inv_same_core; [|exact Hi]. by repeat split.
Qed.

Lemma retransmitOldest_inv h : sph_inv h → sph_inv (retransmitOldestPacket h).
Proof.
  intros H. unfold retransmitOldestPacket. destruct (packetHistory h) as [|p l] eqn:E; [done|].
  apply queueRTO_spec; [done|]. rewrite E. set_solver.
Qed.

Lemma queueRTO_front h p l : sph_inv h → packetHistory h = p :: l →
  packetHistory (queueRTO h p) = l ∧ retransmissionQueue (queueRTO h p) = retransmissionQueue h ++ [p] ∧ sph_inv (queueRTO h p).
Proof.
  intros H E. destruct (queueRTO_spec h p H) as (E1 & E2 & Hi); [rewrite E; set_solver|].
  split; [|by split]. rewrite E1, E. simpl. rewrite Z.eqb_refl. simpl. apply filter_all.
  pose proof (inv_sorted h H) as Hs. rewrite E in Hs. destruct Hs as [_ Hs].
  intros q Hq. pose proof (sorted_from_above _ _ _ Hs Hq). lia.
Qed.

(** The loop of retransmitAllPackets empties the history into the queue, in order. *)
Lemma retransmitLoop_spec fuel h : sph_inv h → (length (packetHistory h) <= fuel)%nat →
  let h' := retransmitLoop fuel h in
  packetHistory h' = [] ∧ retransmissionQueue h' = retransmissionQueue h ++ packetHistory h ∧ sph_inv h'.
Proof.
  revert h. induction fuel as [|fuel IH]; intros h H Hl; cbn [retransmitLoop].
  - destruct (packetHistory h) as [|p l] eqn:E; [|simpl in Hl; lia]. rewrite app_nil_r. by split.
  - destruct (packetHistory h) as [|p l] eqn:E; [rewrite app_nil_r; by split|].
    destruct (queueRTO_front h p l H E) as (E1 & E2 & Hi).
    destruct (IH (queueRTO h p) Hi) as (F1 & F2 & F3); [rewrite E1; simpl in Hl; lia|].
    split; [done|]. split; [|done]. rewrite F2, E1, E2, <- app_assoc. done.
Qed.

Lemma retransmitTLP_inv h : sph_inv h → sph_inv (retransmitTLP h).
Proof.
  intros H. unfold retransmitTLP. destruct (last (packetHistory h)) as [p|] eqn:E; [|done].
  apply queuePacket_spec; [done|]. by apply last_Some_elem_of.
Qed.

Lemma OnAlarm_inv h now onRTO : sph_inv h → sph_inv (OnAlarm h now onRTO).
Proof.
  intros H. unfold OnAlarm. destruct (negb (hasOutstandingRetransmittablePacket h)).
  { apply (inv_same_core h); [by repeat split|done]. }
  eapply inv_same_core; [apply alarm_core|].
  destruct (negb _); [by apply detectLostPackets_spec|]. destruct (_ <? _).
  - apply (inv_same_core (retransmitTLP h)); [by repeat split|]. by apply retransmitTLP_inv.
  - destruct (match onRTO with Some f => f (lastSentTime h) | None => false end).
    + apply (inv_same_core (retransmitLoop (length (packetHistory h)) h)); [by repeat split|].
      by apply retransmitLoop_spec.
    + apply (inv_same_core (retransmitOldestPacket (retransmitOldestPacket h))); [by repeat split|].
      by apply retransmitOldest_inv, retransmitOldest_inv.
Qed.

Lemma gc_inv h : sph_inv h → sph_inv (garbageCollectSkippedPackets h).
Proof.
  intros [H1 H2 H3 H4 H5 H6 H7]. unfold garbageCollectSkippedPackets.
  set (k := gcIndex _ _ _ _). clearbody k. constructor; cbn; try done.
  - unfold len in *. rewrite length_drop. lia.
  - intros s Hs%drop_elem. by apply H7.
Qed.

(** *** Acknowledgements *)

Lemma gc_fields (h : handler) : let h' := garbageCollectSkippedPackets h in
  packetHistory h' = packetHistory h ∧ retransmissionQueue h' = retransmissionQueue h ∧ rttStats h' = rttStats h ∧
  LargestAcked h' = LargestAcked h ∧ bytesInFlight h' = bytesInFlight h.
Proof. done. Qed.

Lemma alarm_fields (h : handler) : let h' := updateLossDetectionAlarm h in
  rttStats h' = rttStats h ∧ LargestAcked h' = LargestAcked h.
Proof. unfold updateLossDetectionAlarm. repeat (case_match; [done|]). done. Qed.

Lemma detectLostPackets_fields h now : sph_inv h → let h' := detectLostPackets h now in
  rttStats h' = rttStats h ∧ LargestAcked h' = LargestAcked h.
Proof.
  intros H. unfold detectLostPackets.
  pose proof (lostLoop_spec 0 now (delayUntilLost (set_lossTime time.zero h)) (packetHistory h)
    (set_lossTime time.zero h) (inv_sorted h H)) as Hl.
  change (packetHistory (set_lossTime time.zero h)) with (packetHistory h).
  destruct (lostLoop _ _ _ _) as [h1 ps]. destruct Hl as (_ & E1 & E2 & _).
  destruct (loseAll_fields ps h1) as (_ & _ & _ & F1 & F2 & _). cbv zeta. rewrite F1, F2, E1, E2. done.
Qed.

(** The part of ReceivedAck and of ReceivedClosePath behind the guards: the loop
    succeeds and takes what the frame acknowledges out of the history. *)
Lemma ack_packets largest lowest ranges h : sph_inv h → valid_acks largest lowest ranges →
  let acks := λ p, ackRanges.AcksPacket lowest largest ranges (PacketNumber p) in
  newlyAckedLoop lowest largest (ackRanges.HasMissingRanges ranges) (rev ranges) (packetHistory h) =
    Ok (List.filter acks (packetHistory h)) ∧
  packetHistory (ackAll h (List.filter acks (packetHistory h))) = List.filter (λ p, negb (acks p)) (packetHistory h) ∧
  sph_inv (ackAll h (List.filter acks (packetHistory h))).
Proof.
  intros H Hv acks. split; [apply (newlyAcked_spec _ _ _ _ 0 Hv (inv_sorted h H))|].
  exact (ackAll_spec h acks H).
Qed.

(** What ReceivedAck does before the acked packets are looked for. *)
Definition ack_prepared (h : handler) (f : AckFrame.AckFrame) (withPacketNumber rcvTime nowRTT : Z) : handler :=
  let h := set_LargestAcked (AckFrame.LargestAcked f) (set_largestReceivedPacketWithAck withPacketNumber h) in
  let '(h, rttUpdated) := maybeUpdateRTT h nowRTT (AckFrame.LargestAcked f) (AckFrame.DelayTime f) rcvTime in
  if rttUpdated then set_congestion (MaybeExitSlowStart (congestion h) (rttStats h)) h else h.

Lemma ack_prepared_fields h f wp rcv now : let h' := ack_prepared h f wp rcv now in
  same_core h h' ∧ LargestAcked h' = AckFrame.LargestAcked f ∧ pathID h' = pathID h ∧
  rttStats h' = match findSendTime (AckFrame.LargestAcked f) (packetHistory h) with
                | Some sendTime => UpdateRTT (rttStats h) (time.Sub rcv sendTime) (AckFrame.DelayTime f) now
                | None => rttStats h
                end.
Proof. unfold ack_prepared, maybeUpdateRTT. cbn. by destruct (findSendTime _ _). Qed.

(** The guards of ReceivedAck. *)
Definition ack_accepted (h : handler) (f : AckFrame.AckFrame) (withPacketNumber : Z) : Prop :=
  AckFrame.LargestAcked f <= lastSentPacketNumber h ∧ largestReceivedPacketWithAck h < withPacketNumber ∧
  largestInOrderAcked h < AckFrame.LargestAcked f ∧ skippedPacketsAcked h f = false.

Lemma ReceivedAck_accepted h f wp rcv n1 n2 : sph_inv h →
  valid_acks (AckFrame.LargestAcked f) (AckFrame.LowestAcked f) (AckFrame.AckRanges f) →
  ack_accepted h f wp →
  let hp := ack_prepared h f wp rcv n1 in
  let acked := List.filter (λ p, AckFrame.AcksPacket f (PacketNumber p)) (packetHistory h) in
  ReceivedAck h f wp rcv n1 n2 =
    let h' := garbageCollectSkippedPackets (updateLossDetectionAlarm (detectLostPackets (ackAll hp acked) n2)) in
    Ok (set_stopWaiting (stopWaitingManager.ReceivedAck (stopWaiting h') f) h', None,
        (λ p, (pathID h, PacketNumber p)) <$> acked).
Proof.
  intros H Hv (G1 & G2 & G3 & G4) hp acked. unfold ReceivedAck.
  destruct (Z.ltb_spec (lastSentPacketNumber h) (AckFrame.LargestAcked f)); [lia|].
  destruct (Z.leb_spec wp (largestReceivedPacketWithAck h)); [lia|].
  change (largestInOrderAcked (set_largestReceivedPacketWithAck wp h)) with (largestInOrderAcked h).
  destruct (Z.leb_spec (AckFrame.LargestAcked f) (largestInOrderAcked h)); [lia|].
  change (skippedPacketsAcked (set_LargestAcked (AckFrame.LargestAcked f)
    (set_largestReceivedPacketWithAck wp h)) f) with (skippedPacketsAcked h f). rewrite G4.
  destruct (ack_prepared_fields h f wp rcv n1) as (Hcore & _ & Ep & _). fold hp in Hcore, Ep.
  pose proof (ack_packets _ _ _ _ (inv_same_core _ _ Hcore H) Hv) as (E & _).
  destruct Hcore as (_ & _ & Eh & _). unfold acked. rewrite <- Eh, <- Ep.
  unfold hp, ack_prepared in E |- *. unfold determineNewlyAckedPackets.
  destruct (maybeUpdateRTT _ _ _ _ _) as [h1 rtt]. rewrite E. done.
Qed.

(** The packets of the history that an ACK leaves in flight, and those that it
    shows to be lost. *)
Lemma ReceivedAck_state h f wp rcv n1 n2 : sph_inv h →
  valid_acks (AckFrame.LargestAcked f) (AckFrame.LowestAcked f) (AckFrame.AckRanges f) → ack_accepted h f wp →
  let acks := λ p, AckFrame.AcksPacket f (PacketNumber p) in
  ∃ h', ReceivedAck h f wp rcv n1 n2 =
      Ok (h', None, (λ p, (pathID h, PacketNumber p)) <$> List.filter acks (packetHistory h)) ∧
    let lost := is_lost (AckFrame.LargestAcked f) n2 (delayUntilLost h') in
    packetHistory h' = List.filter (λ p, negb (acks p) && negb (lost p)) (packetHistory h) ∧
    retransmissionQueue h' =
      retransmissionQueue h ++ List.filter (λ p, negb (acks p) && lost p) (packetHistory h) ∧
    rttStats h' = match findSendTime (AckFrame.LargestAcked f) (packetHistory h) with
                  | Some sendTime => UpdateRTT (rttStats h) (time.Sub rcv sendTime) (AckFrame.DelayTime f) n1
                  | None => rttStats h
                  end ∧
    LargestAcked h' = AckFrame.LargestAcked f ∧ sph_inv h'.
Proof.
  intros H Hv Hacc acks. rewrite (ReceivedAck_accepted h f wp rcv n1 n2 H Hv Hacc). cbv zeta.
  destruct (ack_prepared_fields h f wp rcv n1) as (Hcore & El & _ & Er).
  set (hp := ack_prepared h f wp rcv n1) in *.
  pose proof (ack_packets _ _ _ _ (inv_same_core _ _ Hcore H) Hv) as (_ & Eh & Hi).
  destruct Hcore as (_ & _ & Ec & Eq & _). rewrite Ec in Eh, Hi.
  change (λ p, ackRanges.AcksPacket _ _ _ (PacketNumber p)) with acks in Eh, Hi.
  set (ha := ackAll hp (List.filter acks (packetHistory h))) in *.
  destruct (ackAll_fields (List.filter acks (packetHistory h)) hp) as (_ & _ & Fq & Fl & Fr & _). fold ha in Fq, Fl, Fr.
  destruct (detectLostPackets_spec ha n2 Hi) as (Gh & Gq & Hd). destruct (detectLostPackets_fields ha n2 Hi) as (Gr & Gl).
  set (hd := detectLostPackets ha n2) in *. destruct (alarm_core hd) as (_ & _ & Ah & Aq & _).
  destruct (alarm_fields hd) as (Ar & Al). set (hu := updateLossDetectionAlarm hd) in *.
  eexists. split; [done|]. change (delayUntilLost (set_stopWaiting _ _)) with (delayUntilLost hu).
  assert (delayUntilLost hu = delayUntilLost ha) as -> by (unfold delayUntilLost; by rewrite Ar, Gr).
  rewrite Fl, El in Gh, Gq. split; [|split; [|split; [|split]]].
  - change (packetHistory hu = List.filter (λ p, negb (acks p) &&
      negb (is_lost (AckFrame.LargestAcked f) n2 (delayUntilLost ha) p)) (packetHistory h)).
    by rewrite Ah, Gh, Eh, filter_filter.
  - change (retransmissionQueue hu = retransmissionQueue h ++ List.filter (λ p, negb (acks p) &&
      is_lost (AckFrame.LargestAcked f) n2 (delayUntilLost ha) p) (packetHistory h)).
    by rewrite Aq, Gq, Eh, filter_filter, Fq, Eq.
  - change (rttStats hu = match findSendTime (AckFrame.LargestAcked f) (packetHistory h) with
                  | Some sendTime => UpdateRTT (rttStats h) (time.Sub rcv sendTime) (AckFrame.DelayTime f) n1
                  | None => rttStats h
                  end). by rewrite Ar, Gr, Fr, Er.
  - change (LargestAcked hu = AckFrame.LargestAcked f). by rewrite Al, Gl, Fl, El.
  - apply (inv_same_core (garbageCollectSkippedPackets hu)); [by repeat split|]. apply gc_inv.
    by apply (inv_same_core hd); [apply alarm_core|].
Qed.

(** The outcome of ReceivedAck when a guard fails. *)
Lemma ReceivedAck_rejected h f wp rcv n1 n2 : sph_inv h →
  valid_acks (AckFrame.LargestAcked f) (AckFrame.LowestAcked f) (AckFrame.AckRanges f) → ~ ack_accepted h f wp →
  ∃ h' err, ReceivedAck h f wp rcv n1 n2 = Ok (h', err, []) ∧ same_core h h' ∧
    err = (if lastSentPacketNumber h <? AckFrame.LargestAcked f then Some errAckForUnsentPacket
           else if wp <=? largestReceivedPacketWithAck h then Some ErrDuplicateOrOutOfOrderAck
           else if AckFrame.LargestAcked f <=? largestInOrderAcked h then None
           else Some ErrAckForSkippedPacket).
Proof.
  intros H Hv Hn. unfold ReceivedAck.
  destruct (Z.ltb_spec (lastSentPacketNumber h) (AckFrame.LargestAcked f)); [by eexists _, _|].
  destruct (Z.leb_spec wp (largestReceivedPacketWithAck h)); [by eexists _, _|].
  change (largestInOrderAcked (set_largestReceivedPacketWithAck wp h)) with (largestInOrderAcked h).
  destruct (Z.leb_spec (AckFrame.LargestAcked f) (largestInOrderAcked h)); [by eexists _, _|].
  change (skippedPacketsAcked (set_LargestAcked (AckFrame.LargestAcked f)
    (set_largestReceivedPacketWithAck wp h)) f) with (skippedPacketsAcked h f).
  destruct (skippedPacketsAcked h f) eqn:E; [by eexists _, _|]. destruct Hn. repeat split; auto.
Qed.

Lemma ack_accepted_dec h f wp : {ack_accepted h f wp} + {~ ack_accepted h f wp}.
Proof.
  unfold ack_accepted. destruct (Z_le_dec (AckFrame.LargestAcked f) (lastSentPacketNumber h)); [|right; tauto].
  destruct (Z_lt_dec (largestReceivedPacketWithAck h) wp); [|right; tauto].
  destruct (Z_lt_dec (largestInOrderAcked h) (AckFrame.LargestAcked f)); [|right; tauto].
  destruct (skippedPacketsAcked h f); [right; intros (_ & _ & _ & [=])|left; tauto].
Qed.

(** ReceivedClosePath: the packets up to LargestAcked of the handler are lost. *)
Lemma ReceivedClosePath_state h f wp : sph_inv h →
  valid_acks (ClosePathFrame.LargestAcked f) (ClosePathFrame.LowestAcked f) (ClosePathFrame.AckRanges f) →
  let acks := λ p, ClosePathFrame.AcksPacket f (PacketNumber p) in
  ∃ h' err calls, ReceivedClosePath h f wp = Ok (h', err, calls) ∧ sph_inv h' ∧
    if lastSentPacketNumber h <? ClosePathFrame.LargestAcked f
    then err = Some errAckForUnsentPacket ∧ h' = h ∧ calls = []
    else if wp <=? largestReceivedPacketWithAck h
    then err = Some ErrDuplicateOrOutOfOrderAck ∧ h' = h ∧ calls = []
    else if skippedPacketsAckedClosePath h f
    then err = Some ErrAckForSkippedPacket ∧ same_core h h' ∧ calls = []
    else err = None ∧ calls = (λ p, (pathID h, PacketNumber p)) <$> List.filter acks (packetHistory h) ∧
      packetHistory h' =
        List.filter (λ p, negb (acks p) && negb (PacketNumber p <=? LargestAcked h)) (packetHistory h) ∧
      retransmissionQueue h' =
        retransmissionQueue h ++
        List.filter (λ p, negb (acks p) && (PacketNumber p <=? LargestAcked h)) (packetHistory h).
Proof.
  intros H Hv acks. unfold ReceivedClosePath.
  destruct (Z.ltb_spec (lastSentPacketNumber h) (ClosePathFrame.LargestAcked f)); [by eexists _, _, _|].
  destruct (Z.leb_spec wp (largestReceivedPacketWithAck h)); [by eexists _, _, _|].
  change (skippedPacketsAckedClosePath (set_largestReceivedPacketWithAck wp h) f) with
    (skippedPacketsAckedClosePath h f).
  set (h1 := set_largestReceivedPacketWithAck wp h).
  assert (sph_inv h1) as Hi1 by (apply (inv_same_core h); [by repeat split|done]).
  destruct (skippedPacketsAckedClosePath h f); [by eexists _, _, _|].
  pose proof (ack_packets _ _ _ _ Hi1 Hv) as (E & Eh & Hi). unfold determineNewlyAckedPacketsClosePath. rewrite E.
  change (packetHistory h1) with (packetHistory h) in *.
  change (λ p, ackRanges.AcksPacket _ _ _ (PacketNumber p)) with acks in Eh, Hi |- *.
  destruct (SetInflightAsLost_spec _ Hi) as (Gh & Gq & Hd).
  destruct (ackAll_fields (List.filter acks (packetHistory h)) h1) as (_ & _ & Fq & Fl & _).
  rewrite Fl, Eh, filter_filter in Gh, Gq. rewrite Fq in Gq.
  eexists _, _, _. split; [done|]. split; [by apply gc_inv|]. split; [done|]. split; [done|]. split; [exact Gh|exact Gq].
Qed.

(** *** Runs of the handler *)

Lemma removeByNumber_filter b num l : sorted_from b l →
  (removeByNumber num l).1 = List.filter (λ q, negb (PacketNumber q =? num)) l ∧
  bytes l = (removeByNumber num l).2 + bytes (removeByNumber num l).1.
Proof.
  revert b. induction l as [|p l IH]; intros b Hs; [done|]. destruct Hs as [_ Hs]. simpl.
  destruct (Z.eqb_spec (PacketNumber p) num) as [E|E]; simpl.
  - split; [|lia]. symmetry. apply filter_all. intros q Hq. pose proof (sorted_from_above _ _ _ Hs Hq). lia.
  - destruct (IH _ Hs) as [E1 E2]. destruct (removeByNumber num l) as [l' n]. simpl in *.
    split; [by f_equal|lia].
Qed.

Lemma removeQueued_elem num l l' : removeQueued num l = Some l' →
  ∀ p, (p ∈ l' → p ∈ l) ∧ (p ∈ l → p ∈ l' ∨ PacketNumber p = num).
Proof.
  revert l'. induction l as [|q l IH]; intros l'; simpl; [done|].
  destruct (Z.eqb_spec (PacketNumber q) num).
  - intros [= ->] p. set_solver.
  - destruct (removeQueued num l) as [l1|] eqn:E; [|done]. intros [= <-] p. specialize (IH l1 eq_refl p). set_solver.
Qed.

(** Removal by number takes the packet out of the history and corrects the bytes
    in flight; or it takes it out of the queue. *)
Lemma RemovePacketByNumber_spec h num : sph_inv h →
  let h' := (RemovePacketByNumber h num).1 in
  packetHistory h' = List.filter (λ q, negb (PacketNumber q =? num)) (packetHistory h) ∧
  (∀ p, p ∈ retransmissionQueue h' → p ∈ retransmissionQueue h) ∧
  (∀ p, p ∈ retransmissionQueue h → p ∈ retransmissionQueue h' ∨ PacketNumber p = num) ∧ sph_inv h'.
Proof.
  intros H h'. pose proof (removeByNumber_filter 0 num _ (inv_sorted h H)) as [E1 E2].
  pose proof (bytes_range h H) as Hb.
  assert (0 <= bytes (removeByNumber num (packetHistory h)).1) as Hnn.
  { rewrite E1. refine (proj1 (bytes_bound _ (2 ^ 32) _)). apply Forall_forall.
    intros q [Hq _]%filter_elem. destruct (inv_sent h H q Hq) as [_ [? _]]. lia. }
  assert (0 <= (removeByNumber num (packetHistory h)).2) as Hrn.
  { clear -H. pose proof (inv_sent h H) as Hp. induction (packetHistory h) as [|p l IH]; simpl; [done|].
    destruct (PacketNumber p =? num); [destruct (Hp p) as [_ [? _]]; [by left|simpl; lia]|].
    destruct (removeByNumber num l) as [l' n]. simpl in *. apply IH. intros q Hq. apply Hp. by right. }
  unfold h', RemovePacketByNumber. destruct (removeByNumber num (packetHistory h)) as [hist n] eqn:Er.
  cbn [fst snd] in *. cbn [retransmissionQueue set_bytesInFlight set_packetHistory].
  assert (∀ hn : handler, lastSentPacketNumber hn = lastSentPacketNumber h → skippedPackets hn = skippedPackets h →
    packetHistory hn = hist → bytesInFlight hn = u64 (bytesInFlight h - n) → sph_inv hn) as Hinv.
  { intros hn F1 F2 F3 F4. apply (inv_filter h hn (λ q, negb (PacketNumber q =? num)) H F1 F2); [by rewrite F3|].
    rewrite F4, F3, (inv_bytes h H), E2. zlia. }
  destruct (0 <? n).
  { split; [done|]. split; [done|]. split; [auto|]. by apply Hinv. }
  destruct (removeQueued num (retransmissionQueue h)) as [queue|] eqn:Eq.
  - pose proof (removeQueued_elem _ _ _ Eq) as Hq. split; [done|]. split; [apply Hq|]. split; [apply Hq|].
    by apply Hinv.
  - split; [done|]. split; [done|]. split; [auto|]. by apply Hinv.
Qed.

(** What an operation reports about packet numbers: a packet that has to be
    delivered was accepted, one was acknowledged, handed out for retransmission or
    withdrawn; or a packet was queued as a duplicate. *)
Inductive event :=
  | Tracked (n : Z) | Acked (n : Z) | Dequeued (n : Z) | Withdrawn (n : Z) | Duplicated (p : Packet).

(** One call of an operation. The wire decoder gives valid ranges only, packet
    numbers have 48 bits on the wire. A duplicate is any packet: the scheduler
    duplicates a packet with all the frames it was packed with, ACK and STOP_WAITING
    frames included. *)
Inductive step (h : handler) : list event → handler → Prop :=
  | step_sent now packet h' : PacketNumber packet < 2 ^ 48 → 0 <= Length packet < 2 ^ 32 →
      SentPacket h now packet = (h', None) → step h (Tracked ∘ PacketNumber <$> tracked now packet) h'
  | step_sent_error now packet h' e : SentPacket h now packet = (h', Some e) → step h [] h'
  | step_ack f wp rcv n1 n2 h' err calls :
      valid_acks (AckFrame.LargestAcked f) (AckFrame.LowestAcked f) (AckFrame.AckRanges f) →
      ReceivedAck h f wp rcv n1 n2 = Ok (h', err, calls) → step h (Acked ∘ snd <$> calls) h'
  | step_close f wp h' err calls :
      valid_acks (ClosePathFrame.LargestAcked f) (ClosePathFrame.LowestAcked f) (ClosePathFrame.AckRanges f) →
      ReceivedClosePath h f wp = Ok (h', err, calls) → step h (Acked ∘ snd <$> calls) h'
  | step_inflight : step h [] (SetInflightAsLost h)
  | step_alarm now onRTO : step h [] (OnAlarm h now onRTO)
  | step_dequeue h' p : DequeuePacketForRetransmission h = (h', Some p) → step h [Dequeued (PacketNumber p)] h'
  | step_dequeue_none h' : DequeuePacketForRetransmission h = (h', None) → step h [] h'
  | step_stop_waiting force : step h [] (GetStopWaitingFrame h force).1
  | step_duplicate p : step h [Duplicated p] (DuplicatePacket h p)
  | step_remove num : step h [Withdrawn num] (RemovePacketByNumber h num).1.

Inductive run (h0 : handler) : list event → handler → Prop :=
  | run_nil : run h0 [] h0
  | run_step evs h es h' : run h0 evs h → step h es h' → run h0 (evs ++ es) h'.

Definition number_in (n : Z) (l : list Packet) : Prop := ∃ p, p ∈ l ∧ PacketNumber p = n.

(** Where a packet is. *)
Definition accounted (n : Z) (evs : list event) (h : handler) : Prop :=
  number_in n (packetHistory h) ∨ number_in n (retransmissionQueue h) ∨
  Acked n ∈ evs ∨ Dequeued n ∈ evs ∨ Withdrawn n ∈ evs.

Definition held (n : Z) (h : handler) : Prop := number_in n (packetHistory h) ∨ number_in n (retransmissionQueue h).

Lemma held_core n h h' : same_core h h' → held n h → held n h'.
Proof. intros (_ & _ & E1 & E2 & _). unfold held. by rewrite E1, E2. Qed.

(** Moving a part of the history to the queue. *)
Lemma held_moved f n h h' : packetHistory h' = List.filter (λ p, negb (f p)) (packetHistory h) →
  retransmissionQueue h' = retransmissionQueue h ++ List.filter f (packetHistory h) → held n h → held n h'.
Proof.
  intros E1 E2 [(p & Hp & Hn)|(p & Hp & Hn)]; unfold held; rewrite E1, E2.
  - destruct (f p) eqn:E.
    + right. exists p. split; [|done]. apply elem_of_app. right. by apply filter_elem.
    + left. exists p. split; [|done]. apply filter_elem. by rewrite E.
  - right. exists p. split; [|done]. apply elem_of_app. by left.
Qed.

Lemma held_queued n h h' p : packetHistory h' = List.filter (λ q, negb (PacketNumber q =? PacketNumber p)) (packetHistory h) →
  retransmissionQueue h' = retransmissionQueue h ++ [p] → held n h → held n h'.
Proof.
  intros E1 E2 [(q & Hq & Hn)|(q & Hq & Hn)]; unfold held; rewrite E1, E2.
  - destruct (Z.eqb_spec (PacketNumber q) (PacketNumber p)) as [E|E].
    + right. exists p. split; [set_solver|lia].
    + left. exists q. split; [|done]. apply filter_elem. split; [done|lia].
  - right. exists q. split; [set_solver|done].
Qed.

Lemma retransmitOldest_held n h : sph_inv h → held n h → held n (retransmitOldestPacket h).
Proof.
  intros H. unfold retransmitOldestPacket. destruct (packetHistory h) as [|p l] eqn:E; [done|].
  destruct (queueRTO_spec h p H) as (E1 & E2 & _); [rewrite E; by left|]. by apply held_queued with p.
Qed.

Lemma OnAlarm_held n h now onRTO : sph_inv h → held n h → held n (OnAlarm h now onRTO).
Proof.
  intros H Hn. unfold OnAlarm. destruct (negb (hasOutstandingRetransmittablePacket h)); [exact Hn|].
  eapply held_core; [apply alarm_core|]. destruct (negb _).
  { destruct (detectLostPackets_spec h now H) as (E1 & E2 & _). exact (held_moved _ n _ _ E1 E2 Hn). }
  destruct (_ <? _).
  - apply (held_core n (retransmitTLP h)); [by repeat split|]. unfold retransmitTLP.
    destruct (last (packetHistory h)) as [p|] eqn:E; [|done].
    destruct (queuePacket_spec h p H (last_Some_elem_of _ _ E)) as (E1 & E2 & _). by apply held_queued with h p.
  - destruct (match onRTO with Some f => f (lastSentTime h) | None => false end).
    + apply (held_core n (retransmitLoop (length (packetHistory h)) h)); [by repeat split|].
      destruct (retransmitLoop_spec _ h H (le_n _)) as (E1 & E2 & _). unfold held. rewrite E1, E2.
      destruct Hn as [(p & ? & ?)|(p & ? & ?)]; right; exists p; set_solver.
    + apply (held_core n (retransmitOldestPacket (retransmitOldestPacket h))); [by repeat split|].
      apply retransmitOldest_held; [by apply retransmitOldest_inv|by apply retransmitOldest_held].
Qed.

(** What both kinds of acknowledgement do with the history. *)
Lemma held_acked n h h' acks lost (calls : list (Z * Z)) :
  calls = (λ p, (pathID h, PacketNumber p)) <$> List.filter acks (packetHistory h) →
  packetHistory h' = List.filter (λ p, negb (acks p) && negb (lost p)) (packetHistory h) →
  retransmissionQueue h' = retransmissionQueue h ++ List.filter (λ p, negb (acks p) && lost p) (packetHistory h) →
  held n h → accounted n (Acked ∘ snd <$> calls) h'.
Proof.
  intros -> E1 E2 [(p & Hp & Hn)|(p & Hp & Hn)]; unfold accounted; rewrite E1, E2.
  - destruct (acks p) eqn:Ea.
    + right; right; left. rewrite <- list_fmap_compose. apply list_elem_of_fmap. exists p. split; [by rewrite <- Hn|].
      by apply filter_elem.
    + destruct (lost p) eqn:El.
      * right; left. exists p. split; [|done]. apply elem_of_app. right. apply filter_elem. by rewrite Ea, El.
      * left. exists p. split; [|done]. apply filter_elem. by rewrite Ea, El.
  - right; left. exists p. split; [|done]. apply elem_of_app. by left.
Qed.

Lemma held_accounted n es h : held n h → accounted n es h.
Proof. intros [?|?]; [by left|by right; left]. Qed.

Lemma SentPacket_error h now packet h' e : SentPacket h now packet = (h', Some e) → h' = h.
Proof. unfold SentPacket. case_match; [by intros [= <- _]|]. case_match; [by intros [= <- _]|done]. Qed.

(** The invariant is kept and no packet is forgotten. *)
Definition keeps (h : handler) (es : list event) (h' : handler) : Prop :=
  sph_inv h' ∧ ∀ n, held n h ∨ Tracked n ∈ es → accounted n es h'.

Lemma keeps_held h h' : sph_inv h' → (∀ n, held n h → held n h') → keeps h [] h'.
Proof. intros Hi Hh. split; [done|]. intros n [Hn|Hn]; [by apply held_accounted, Hh|set_solver]. Qed.

Lemma keeps_core h h' : sph_inv h → same_core h h' → keeps h [] h'.
Proof. intros H Hc. apply keeps_held; [by apply (inv_same_core h)|]. intros n. by apply held_core. Qed.

Lemma keeps_sent h now packet h' : sph_inv h → PacketNumber packet < 2 ^ 48 → 0 <= Length packet < 2 ^ 32 →
  SentPacket h now packet = (h', None) → keeps h (Tracked ∘ PacketNumber <$> tracked now packet) h'.
Proof.
  intros H Hpn Hl E. split; [by eapply SentPacket_inv|].
  destruct (SentPacket_ok _ _ _ _ E) as (_ & _ & _ & _ & E1 & E2 & _).
  intros n Hn. apply held_accounted. unfold held. rewrite E1, E2. destruct Hn as [[(p & ? & ?)|?]|Hn].
  - left. exists p. set_solver.
  - by right.
  - left. apply list_elem_of_fmap in Hn as (p & [= ->] & Hp). exists p. set_solver.
Qed.

Lemma keeps_acked h h' acks lost (calls : list (Z * Z)) : sph_inv h' →
  calls = (λ p, (pathID h, PacketNumber p)) <$> List.filter acks (packetHistory h) →
  packetHistory h' = List.filter (λ p, negb (acks p) && negb (lost p)) (packetHistory h) →
  retransmissionQueue h' = retransmissionQueue h ++ List.filter (λ p, negb (acks p) && lost p) (packetHistory h) →
  keeps h (Acked ∘ snd <$> calls) h'.
Proof.
  intros Hi Ec E1 E2. split; [done|]. intros n [Hn|Hn]; [by apply (held_acked n h h' acks lost)|].
  by apply list_elem_of_fmap in Hn as (? & [=] & _).
Qed.

Lemma keeps_ack h f wp rcv n1 n2 h' err calls : sph_inv h →
  valid_acks (AckFrame.LargestAcked f) (AckFrame.LowestAcked f) (AckFrame.AckRanges f) →
  ReceivedAck h f wp rcv n1 n2 = Ok (h', err, calls) → keeps h (Acked ∘ snd <$> calls) h'.
Proof.
  intros H Hv E. destruct (ack_accepted_dec h f wp) as [Ha|Ha].
  - destruct (ReceivedAck_state h f wp rcv n1 n2 H Hv Ha) as (hn & E' & E1 & E2 & _ & _ & Hi).
    rewrite E' in E. injection E as <- _ Ec. exact (keeps_acked h hn _ _ calls Hi (eq_sym Ec) E1 E2).
  - destruct (ReceivedAck_rejected h f wp rcv n1 n2 H Hv Ha) as (hn & err' & E' & Hc & _).
    rewrite E' in E. injection E as <- _ <-. by apply keeps_core.
Qed.

Lemma keeps_close h f wp h' err calls : sph_inv h →
  valid_acks (ClosePathFrame.LargestAcked f) (ClosePathFrame.LowestAcked f) (ClosePathFrame.AckRanges f) →
  ReceivedClosePath h f wp = Ok (h', err, calls) → keeps h (Acked ∘ snd <$> calls) h'.
Proof.
  intros H Hv E. destruct (ReceivedClosePath_state h f wp H Hv) as (hn & err' & calls' & E' & Hi & Hcases).
  rewrite E' in E. injection E as <- _ <-.
  destruct (_ <? _); [destruct Hcases as (_ & -> & ->); by apply keeps_core|].
  destruct (_ <=? _); [destruct Hcases as (_ & -> & ->); by apply keeps_core|].
  destruct (skippedPacketsAckedClosePath h f); [destruct Hcases as (_ & Hc & ->); by apply keeps_core|].
  destruct Hcases as (_ & Ec & E1 & E2). exact (keeps_acked h hn _ _ calls' Hi Ec E1 E2).
Qed.

Lemma keeps_dequeue h h' p : sph_inv h → DequeuePacketForRetransmission h = (h', Some p) →
  keeps h [Dequeued (PacketNumber p)] h'.
Proof.
  intros H. unfold DequeuePacketForRetransmission. destruct (retransmissionQueue h) as [|q queue] eqn:Eq; [done|].
  intros [= <- <-]. split.
  - apply (inv_filter h _ (λ _, true) H); try done; [symmetry; by apply filter_all|apply (inv_bytes h H)].
  - intros n [[Hn|(x & Hx & Hn)]|Hn]; [by left| |set_solver]. rewrite Eq in Hx. subst n.
    apply elem_of_cons in Hx as [->|Hx]; [right; right; right; left; set_solver|]. right; left. by exists x.
Qed.

Lemma keeps_duplicate h p : sph_inv h → keeps h [Duplicated p] (DuplicatePacket h p).
Proof.
  intros [H1 H2 H3 H4 H5 H6 H7]. split; [by constructor|].
  intros n [[?|(q & ? & ?)]|Hn]; [by left| |set_solver]. right; left. exists q. cbn. set_solver.
Qed.

Lemma keeps_remove h num : sph_inv h → keeps h [Withdrawn num] (RemovePacketByNumber h num).1.
Proof.
  intros H. destruct (RemovePacketByNumber_spec h num H) as (E1 & _ & E2 & Hi). split; [done|].
  intros n [[(q & Hq & Hn)|(q & Hq & Hn)]|Hn]; [| |set_solver].
  - destruct (Z.eqb_spec (PacketNumber q) num); [right; right; right; right; set_solver|].
    left. exists q. split; [|done]. rewrite E1. apply filter_elem. split; [done|lia].
  - destruct (E2 q Hq) as [?|?]; [right; left; by exists q|right; right; right; right; set_solver].
Qed.

(** Every operation keeps the invariant, and loses no packet. *)
Lemma step_keeps h es h' : sph_inv h → step h es h' → keeps h es h'.
Proof.
  intros H Hstep. destruct Hstep as [now packet h' Hpn Hl E|now packet h' e E|f wp rcv n1 n2 h' err calls Hv E
    |f wp h' err calls Hv E| |now onRTO|h' p E|h' E|force|p|num].
  - by apply keeps_sent.
  - apply SentPacket_error in E as ->. by apply keeps_core.
  - by eapply keeps_ack.
  - by eapply keeps_close.
  - destruct (SetInflightAsLost_spec h H) as (E1 & E2 & Hi). apply keeps_held; [done|].
    intros n. exact (held_moved _ n _ _ E1 E2).
  - apply keeps_held; [by apply OnAlarm_inv|]. intros n. by apply OnAlarm_held.
  - by apply keeps_dequeue.
  - unfold DequeuePacketForRetransmission in E. destruct (retransmissionQueue h); [|done]. injection E as <-.
    by apply keeps_core.
  - apply keeps_core; [done|]. unfold GetStopWaitingFrame. by destruct (stopWaitingManager.GetStopWaitingFrame _ _).
  - by apply keeps_duplicate.
  - by apply keeps_remove.
Qed.

Lemma accounted_app n evs es h : accounted n es h → accounted n (evs ++ es) h.
Proof. unfold accounted. rewrite !elem_of_app. tauto. Qed.

Lemma new_handler_inv rtt cong path : sph_inv (NewSentPacketHandler rtt cong path).
Proof. constructor; cbn; done || by intros ? ?%elem_of_nil. Qed.

Lemma run_keeps rtt cong path evs h : run (NewSentPacketHandler rtt cong path) evs h →
  sph_inv h ∧ ∀ n, Tracked n ∈ evs → accounted n evs h.
Proof.
  induction 1 as [|evs h es h' _ [Hi IH] Hstep]; [split; [apply new_handler_inv|set_solver]|].
  destruct (step_keeps h es h' Hi Hstep) as [Hi' Hacc]. split; [done|].
  intros n [Hn|Hn]%elem_of_app; [|by apply accounted_app, Hacc; right].
  destruct (IH n Hn) as [?|[?|[?|[?|?]]]]; [apply accounted_app, Hacc; by left; left
    |apply accounted_app, Hacc; by left; right|right; right; left; set_solver
    |right; right; right; left; set_solver|right; right; right; right; set_solver].
Qed.

(** *** Where the packets of the queue come from *)

Definition from_queue_or_history (h h' : handler) : Prop :=
  ∀ p, p ∈ retransmissionQueue h' → p ∈ retransmissionQueue h ∨ p ∈ packetHistory h.

Lemma origin_same h h' : retransmissionQueue h' = retransmissionQueue h → from_queue_or_history h h'.
Proof. intros E p. rewrite E. by left. Qed.

Lemma origin_moved f h h' : retransmissionQueue h' = retransmissionQueue h ++ List.filter f (packetHistory h) →
  from_queue_or_history h h'.
Proof. intros E p. rewrite E. intros [?|[? _]%filter_elem]%elem_of_app; auto. Qed.

Lemma origin_core h h1 h2 : same_core h1 h2 → from_queue_or_history h h1 → from_queue_or_history h h2.
Proof. intros (_ & _ & _ & E & _) Hq p. rewrite E. apply Hq. Qed.

Lemma retransmitOldest_origin h : sph_inv h → from_queue_or_history h (retransmitOldestPacket h) ∧
  ∀ p, p ∈ packetHistory (retransmitOldestPacket h) → p ∈ packetHistory h.
Proof.
  intros H. unfold retransmitOldestPacket. destruct (packetHistory h) as [|p l] eqn:E.
  { split; [by apply origin_same|by rewrite E]. }
  destruct (queueRTO_front h p l H E) as (E1 & E2 & _). split.
  - intros q. rewrite E2, E. set_solver.
  - rewrite E1. set_solver.
Qed.

Lemma OnAlarm_origin h now onRTO : sph_inv h → from_queue_or_history h (OnAlarm h now onRTO).
Proof.
  intros H. unfold OnAlarm. destruct (negb (hasOutstandingRetransmittablePacket h)); [by apply origin_same|].
  eapply origin_core; [apply alarm_core|]. destruct (negb _).
  { destruct (detectLostPackets_spec h now H) as (_ & E2 & _). by eapply origin_moved. }
  destruct (_ <? _).
  - apply (origin_core h (retransmitTLP h)); [by repeat split|]. unfold retransmitTLP.
    destruct (last (packetHistory h)) as [p|] eqn:E; [|by apply origin_same].
    apply last_Some_elem_of in E. destruct (queuePacket_spec h p H E) as (_ & E2 & _). intros q. rewrite E2. set_solver.
  - destruct (match onRTO with Some f => f (lastSentTime h) | None => false end).
    + apply (origin_core h (retransmitLoop (length (packetHistory h)) h)); [by repeat split|].
      destruct (retransmitLoop_spec _ h H (le_n _)) as (_ & E2 & _). intros q. rewrite E2. set_solver.
    + apply (origin_core h (retransmitOldestPacket (retransmitOldestPacket h))); [by repeat split|].
      destruct (retransmitOldest_origin h H) as [H1 H2].
      destruct (retransmitOldest_origin _ (retransmitOldest_inv h H)) as [H3 _].
      intros q [Hq|Hq]%H3; [by apply H1|right; by apply H2].
Qed.

Lemma ReceivedAck_origin h f wp rcv n1 n2 h' err calls : sph_inv h →
  valid_acks (AckFrame.LargestAcked f) (AckFrame.LowestAcked f) (AckFrame.AckRanges f) →
  ReceivedAck h f wp rcv n1 n2 = Ok (h', err, calls) → from_queue_or_history h h'.
Proof.
  intros H Hv E. destruct (ack_accepted_dec h f wp) as [Ha|Ha].
  - destruct (ReceivedAck_state h f wp rcv n1 n2 H Hv Ha) as (hn & E' & _ & E2 & _).
    rewrite E' in E. injection E as <- _ _. by eapply origin_moved.
  - destruct (ReceivedAck_rejected h f wp rcv n1 n2 H Hv Ha) as (hn & err' & E' & (_ & _ & _ & E2 & _) & _).
    rewrite E' in E. injection E as <- _ _. by apply origin_same.
Qed.

Lemma ReceivedClosePath_origin h f wp h' err calls : sph_inv h →
  valid_acks (ClosePathFrame.LargestAcked f) (ClosePathFrame.LowestAcked f) (ClosePathFrame.AckRanges f) →
  ReceivedClosePath h f wp = Ok (h', err, calls) → from_queue_or_history h h'.
Proof.
  intros H Hv E. destruct (ReceivedClosePath_state h f wp H Hv) as (hn & err' & calls' & E' & _ & Hcases).
  rewrite E' in E. injection E as <- _ <-.
  destruct (_ <? _); [destruct Hcases as (_ & -> & _); by apply origin_same|].
  destruct (_ <=? _); [destruct Hcases as (_ & -> & _); by apply origin_same|].
  destruct (skippedPacketsAckedClosePath h f); [destruct Hcases as (_ & (_ & _ & _ & E2 & _) & _); by apply origin_same|].
  destruct Hcases as (_ & _ & _ & E2). by eapply origin_moved.
Qed.

Lemma step_origin h es h' : sph_inv h → step h es h' →
  ∀ p, p ∈ retransmissionQueue h' → p ∈ retransmissionQueue h ∨ p ∈ packetHistory h ∨ Duplicated p ∈ es.
Proof.
  intros H Hstep. assert (from_queue_or_history h h' ∨ ∃ q, es = [Duplicated q] ∧
    retransmissionQueue h' = retransmissionQueue h ++ [q]) as Ho; [|clear -Ho; intros p Hp; destruct Ho as [Ho|(q & -> & E)];
    [destruct (Ho p Hp); auto|rewrite E in Hp; set_solver]].
  destruct Hstep as [now packet h' Hpn Hl E|now packet h' e E|f wp rcv n1 n2 h' err calls Hv E
    |f wp h' err calls Hv E| |now onRTO|h' p E|h' E|force|p|num]; [left..|right|left].
  - destruct (SentPacket_ok _ _ _ _ E) as (_ & _ & _ & _ & E2 & _). by apply origin_same.
  - apply SentPacket_error in E as ->. by apply origin_same.
  - by eapply ReceivedAck_origin.
  - by eapply ReceivedClosePath_origin.
  - destruct (SetInflightAsLost_spec h H) as (_ & E2 & _). by eapply origin_moved.
  - by apply OnAlarm_origin.
  - unfold DequeuePacketForRetransmission in E. destruct (retransmissionQueue h) as [|q l] eqn:Eq; [done|].
    injection E as <- <-. intros x Hx. rewrite Eq. left. by right.
  - unfold DequeuePacketForRetransmission in E. destruct (retransmissionQueue h) eqn:Eq; [|done].
    injection E as <-. by apply origin_same.
  - apply origin_same. unfold GetStopWaitingFrame. by destruct (stopWaitingManager.GetStopWaitingFrame _ _).
  - by exists p.
  - destruct (RemovePacketByNumber_spec h num H) as (_ & E1 & _). intros x Hx. left. by apply E1.
Qed.

Lemma run_origin rtt cong path evs h : run (NewSentPacketHandler rtt cong path) evs h →
  ∀ p, p ∈ retransmissionQueue h → packet_ok p ∨ Duplicated p ∈ evs.
Proof.
  induction 1 as [|evs h es h' Hr IH Hstep]; [by intros p ?%elem_of_nil|]. intros p Hp.
  destruct (run_keeps _ _ _ _ _ Hr) as [Hi _]. rewrite elem_of_app.
  destruct (step_origin h es h' Hi Hstep p Hp) as [Hq|[Hh|Hd]]; [destruct (IH p Hq); auto| |auto].
  left. by apply (inv_sent h Hi p).
Qed.

(** ** The properties of the handler *)

(** C3: in every state that the operations reach from a new handler (for packet
    numbers below 2^48, packets shorter than 2^32 bytes and acknowledgements with the
    well-formed ranges that the wire decoder gives) the history is sorted by packet
    number and holds only packets that were sent and have frames to be sent again, and
    no others, the bytes in flight are the sum of their lengths, the tracked packets
    and skipped numbers stay within their limits, no skipped number is a packet of the
    history; a packet of the retransmission queue holds only frames to be sent again,
    unless it was queued as a duplicate, which is queued with whatever frames the
    scheduler passes, ACK and STOP_WAITING frames included; and an ACK or CLOSE_PATH
    frame with well-formed ranges is handled without a panic and without the error
    that marks a bug. *)
Theorem sent_handler_invariant rtt cong path evs h :
  run (NewSentPacketHandler rtt cong path) evs h →
  sph_inv h ∧
  (∀ p, p ∈ retransmissionQueue h → packet_ok p ∨ Duplicated p ∈ evs) ∧
  (∀ f wp rcv n1 n2, valid_acks (AckFrame.LargestAcked f) (AckFrame.LowestAcked f) (AckFrame.AckRanges f) →
     ∃ h' err calls, ReceivedAck h f wp rcv n1 n2 = Ok (h', err, calls) ∧ err ≠ Some errAckedWrongPacket) ∧
  (∀ f wp, valid_acks (ClosePathFrame.LargestAcked f) (ClosePathFrame.LowestAcked f) (ClosePathFrame.AckRanges f) →
     ∃ h' err calls, ReceivedClosePath h f wp = Ok (h', err, calls) ∧ err ≠ Some errAckedWrongPacket).
Proof.
  intros Hr. destruct (run_keeps _ _ _ _ _ Hr) as [H _]. split; [done|]. split; [by eapply run_origin|]. split.
  - intros f wp rcv n1 n2 Hv. destruct (ack_accepted_dec h f wp) as [Ha|Ha].
    + destruct (ReceivedAck_state h f wp rcv n1 n2 H Hv Ha) as (h' & E & _). rewrite E. by eexists _, _, _.
    + destruct (ReceivedAck_rejected h f wp rcv n1 n2 H Hv Ha) as (h' & err & E & _ & ->).
      rewrite E. eexists _, _, _. split; [done|]. by repeat case_match.
  - intros f wp Hv. destruct (ReceivedClosePath_state h f wp H Hv) as (h' & err & calls & E & _ & Hc).
    rewrite E. eexists _, _, _. split; [done|]. repeat case_match; by destruct Hc as (-> & _).
Qed.

(** C2: no packet is forgotten: along every run of the handler (any calls of its
    operations, duplicates of any packets included, with packet numbers below 2^48,
    packets shorter than 2^32 bytes and acknowledgements with the well-formed ranges
    that the wire decoder gives), a packet that was accepted with frames to be
    delivered is still in flight, or waits in the retransmission queue, or was
    acknowledged through the callback, handed out for retransmission, or withdrawn by
    number. *)
Theorem sent_packets_accounted rtt cong path evs h n :
  run (NewSentPacketHandler rtt cong path) evs h → Tracked n ∈ evs → accounted n evs h.
Proof. intros [_ Hn]%run_keeps. apply Hn. Qed.

(** C4: an ACK frame that passes the guards calls back for exactly the packets in
    flight that it acknowledges; what is left splits into the packets that stay in
    flight and those that are lost (not above the largest acked one and older than
    9/8 of the larger RTT), which are queued in order; the RTT is updated from the
    largest acked packet if it was in flight; the invariant is kept. *)
Theorem received_ack_correct h f wp rcv n1 n2 : sph_inv h →
  valid_acks (AckFrame.LargestAcked f) (AckFrame.LowestAcked f) (AckFrame.AckRanges f) → ack_accepted h f wp →
  let acks := λ p, AckFrame.AcksPacket f (PacketNumber p) in
  ∃ h', ReceivedAck h f wp rcv n1 n2 =
      Ok (h', None, (λ p, (pathID h, PacketNumber p)) <$> List.filter acks (packetHistory h)) ∧
    let lost := is_lost (AckFrame.LargestAcked f) n2 (delayUntilLost h') in
    packetHistory h' = List.filter (λ p, negb (acks p) && negb (lost p)) (packetHistory h) ∧
    retransmissionQueue h' =
      retransmissionQueue h ++ List.filter (λ p, negb (acks p) && lost p) (packetHistory h) ∧
    rttStats h' = match findSendTime (AckFrame.LargestAcked f) (packetHistory h) with
                  | Some sendTime => UpdateRTT (rttStats h) (time.Sub rcv sendTime) (AckFrame.DelayTime f) n1
                  | None => rttStats h
                  end ∧
    LargestAcked h' = AckFrame.LargestAcked f ∧ sph_inv h'.
Proof. exact (ReceivedAck_state h f wp rcv n1 n2). Qed.

(** An ACK frame that fails a guard acknowledges nothing and changes neither the
    history nor the queue nor the bytes in flight; the error says which guard: a
    packet that was never sent, a duplicate or reordered ACK, or a packet number that
    was skipped; an ACK below the packets in flight is ignored without an error. *)
Theorem received_ack_rejected h f wp rcv n1 n2 : sph_inv h →
  valid_acks (AckFrame.LargestAcked f) (AckFrame.LowestAcked f) (AckFrame.AckRanges f) → ~ ack_accepted h f wp →
  ∃ h' err, ReceivedAck h f wp rcv n1 n2 = Ok (h', err, []) ∧ same_core h h' ∧
    err = (if lastSentPacketNumber h <? AckFrame.LargestAcked f then Some errAckForUnsentPacket
           else if wp <=? largestReceivedPacketWithAck h then Some ErrDuplicateOrOutOfOrderAck
           else if AckFrame.LargestAcked f <=? largestInOrderAcked h then None
           else Some ErrAckForSkippedPacket).
Proof. exact (ReceivedAck_rejected h f wp rcv n1 n2). Qed.

(** A CLOSE_PATH frame calls back for exactly the packets in flight that it
    acknowledges and queues the other packets up to the largest number that an ACK
    frame acknowledged before; packets above that number stay in flight. Frames that
    fail a guard change nothing of the history. *)
Theorem received_close_path_correct h f wp : sph_inv h →
  valid_acks (ClosePathFrame.LargestAcked f) (ClosePathFrame.LowestAcked f) (ClosePathFrame.AckRanges f) →
  let acks := λ p, ClosePathFrame.AcksPacket f (PacketNumber p) in
  ∃ h' err calls, ReceivedClosePath h f wp = Ok (h', err, calls) ∧ sph_inv h' ∧
    if lastSentPacketNumber h <? ClosePathFrame.LargestAcked f
    then err = Some errAckForUnsentPacket ∧ h' = h ∧ calls = []
    else if wp <=? largestReceivedPacketWithAck h
    then err = Some ErrDuplicateOrOutOfOrderAck ∧ h' = h ∧ calls = []
    else if skippedPacketsAckedClosePath h f
    then err = Some ErrAckForSkippedPacket ∧ same_core h h' ∧ calls = []
    else err = None ∧ calls = (λ p, (pathID h, PacketNumber p)) <$> List.filter acks (packetHistory h) ∧
      packetHistory h' =
        List.filter (λ p, negb (acks p) && negb (PacketNumber p <=? LargestAcked h)) (packetHistory h) ∧
      retransmissionQueue h' =
        retransmissionQueue h ++
        List.filter (λ p, negb (acks p) && (PacketNumber p <=? LargestAcked h)) (packetHistory h).
Proof. exact (ReceivedClosePath_state h f wp). Qed.

(** Sending a packet fails exactly when its number does not increase or too many
    packets are tracked, and changes nothing then; otherwise the packet enters the
    history iff it has frames to be sent again, with the time and without the other
    frames, and the numbers that were skipped are remembered, the last ten of them. *)
Theorem sent_packet_correct h now packet : sph_inv h →
  let '(h', err) := SentPacket h now packet in
  if PacketNumber packet <=? lastSentPacketNumber h then err = Some errPacketNumberNotIncreasing ∧ h' = h
  else if MaxTrackedSentPackets <? len (retransmissionQueue h) + len (packetHistory h) + 1
  then err = Some ErrTooManyTrackedSentPackets ∧ h' = h
  else err = None ∧ lastSentPacketNumber h' = PacketNumber packet ∧
    packetHistory h' = packetHistory h ++ tracked now packet ∧
    retransmissionQueue h' = retransmissionQueue h ∧
    skippedPackets h' = last_ten (skippedPackets h ++ seqZ_from (lastSentPacketNumber h + 1)
      (Z.to_nat (PacketNumber packet - (lastSentPacketNumber h + 1)))).
Proof.
  intros H. pose proof (SentPacket_ok h now packet) as Hok. pose proof (SentPacket_error h now packet) as Herr.
  destruct (SentPacket h now packet) as [h' err] eqn:E. unfold SentPacket in E.
  destruct (_ <=? _); [by injection E as <- <-|]. destruct (_ <? _); [by injection E as <- <-|].
  assert (err = None) as -> by by injection E. destruct (Hok h' eq_refl) as (_ & _ & E1 & E2 & E3 & E4 & _).
  rewrite E1, E2, E3, E4, skipLoop_spec; [done|].
  pose proof (inv_skipped_len h H) as Hl. unfold MaxTrackedSkippedPackets, len in Hl. lia.
Qed.

(** The retransmission timeout is the RTO (the default of 500ms without an RTT,
    at least 200ms) doubled for every timeout in a row, and at most one minute, as
    long as the doubling does not overflow 64 bits. *)
Theorem rto_backoff (h : handler) :
  let delay := RetransmissionDelay (congestion h) (rttStats h) in
  let base := Z.max (if delay =? 0 then defaultRTOTimeout else delay) minRTOTimeout in
  0 <= rtoCount h → base * 2 ^ rtoCount h < 2 ^ 63 →
  computeRTOTimeout h = Z.min (base * 2 ^ rtoCount h) maxRTOTimeout ∧
  minRTOTimeout <= computeRTOTimeout h <= maxRTOTimeout.
Proof.
  intros delay base Hc Hb. unfold computeRTOTimeout. fold delay.
  assert (utils.MaxDuration (if delay =? 0 then defaultRTOTimeout else delay) minRTOTimeout = base) as ->.
  { unfold utils.MaxDuration, base. destruct (Z.ltb_spec minRTOTimeout (if delay =? 0 then defaultRTOTimeout else delay)); lia. }
  assert (minRTOTimeout <= base) by lia. unfold minRTOTimeout, time.Millisecond in *.
  rewrite Z.shiftl_mul_pow2 by done. assert (0 < 2 ^ rtoCount h) by (apply Z.pow_pos_nonneg; lia).
  assert (200 * 1000000 * 1 <= base * 2 ^ rtoCount h) by (apply Z.mul_le_mono_nonneg; lia).
  set (x := base * 2 ^ rtoCount h) in *. clearbody x.
  assert (i64 x = x) as -> by zlia. unfold utils.MinDuration, maxRTOTimeout, time.Second.
  destruct (Z.ltb_spec (60 * 1000000000) x); lia.
Qed.

(** When the alarm reports a potentially failed path, the whole history is queued
    for retransmission in the order of the packet numbers and nothing is in flight. *)
Theorem potentially_failed_retransmits h now f : sph_inv h →
  hasOutstandingRetransmittablePacket h = true → lossTime h = time.zero → maxTailLossProbes <= tlpCount h →
  f (lastSentTime h) = true →
  let h' := OnAlarm h now (Some f) in
  packetHistory h' = [] ∧ retransmissionQueue h' = retransmissionQueue h ++ packetHistory h ∧
  bytesInFlight h' = 0 ∧ alarm h' = time.zero.
Proof.
  intros H Ho El Ht Ef h'. unfold h', OnAlarm. rewrite Ho, El, Ef. cbn [negb].
  change (negb (time.IsZero time.zero)) with false. cbv iota.
  destruct (Z.ltb_spec (tlpCount h) maxTailLossProbes); [lia|].
  set (hr := set_rtoCount _ _). destruct (retransmitLoop_spec _ h H (le_n _)) as (E1 & E2 & Hi).
  assert (packetHistory hr = []) as F1 by exact E1.
  assert (updateLossDetectionAlarm hr = set_alarm time.zero hr) as ->
    by (unfold updateLossDetectionAlarm; by rewrite F1).
  split; [exact E1|]. split; [exact E2|]. split; [|done].
  pose proof (inv_bytes _ Hi) as Hb. rewrite E1 in Hb. exact Hb.
Qed.

End invariant.

(** ** Concrete runs *)
Module SentExamples.
Import protocol sentPacketHandler.

(** An estimator that keeps the last sample, and a controller with a fixed window. *)
#[local] Instance last_sample : RTTStats Z :=
  { LatestRTT r := r; SmoothedRTT r := r; UpdateRTT _ sendDelta _ _ := sendDelta }.
#[local] Instance fixed_window : SendAlgorithm Z unit :=
  { OnPacketSent c _ _ _ _ _ _ := c; GetCongestionWindow _ _ := 10000; MaybeExitSlowStart c _ := c;
    OnPacketAcked c _ _ _ _ := c; OnPacketLost c _ _ _ _ := c; OnRetransmissionTimeout c _ _ := c;
    RetransmissionDelay _ r := 2 * r; AlgSmoothedRTT _ r := r }.

Definition ping (n : Z) : Packet := MkPacket n [FPing PingFrame.MkPingFrame] 1200 EncryptionForwardSecure 0.

Definition h0 : @sentPacketHandler Z unit := NewSentPacketHandler 0 tt 1.
Definition h1 := (SentPacket h0 1000 (ping 1)).1.
Definition h2 := (SentPacket h1 2000 (ping 2)).1.
Definition h3 := (SentPacket h2 3000 (ping 4)).1.

Lemma step_ping h h' now n : n < 2 ^ 48 → SentPacket h now (ping n) = (h', None) → step h [Tracked n] h'.
Proof. intros Hn E. exact (step_sent h now (ping n) h' Hn (conj (proj1 (Z.leb_le 0 1200) eq_refl) eq_refl) E). Qed.

Lemma run_h3 : run h0 [Tracked 1; Tracked 2; Tracked 4] h3.
Proof.
  apply (run_step h0 [Tracked 1; Tracked 2] h2 [Tracked 4]).
  - apply (run_step h0 [Tracked 1] h1 [Tracked 2]).
    + apply (run_step h0 [] h0 [Tracked 1]); [constructor|]. apply (step_ping _ _ 1000); [lia|vm_compute; reflexivity].
    + apply (step_ping _ _ 2000); [lia|vm_compute; reflexivity].
  - apply (step_ping _ _ 3000); [lia|vm_compute; reflexivity].
Qed.

Lemma inv_h3 : sph_inv h3.
Proof. exact (proj1 (run_keeps _ _ _ _ _ run_h3)). Qed.

(** Packet 2 is acknowledged; packet 1 was sent too long ago. *)
Definition ack2 : AckFrame.AckFrame := AckFrame.MkAckFrame 1 2 2 [] 0 0.

(** Packet 4 is duplicated with the ACK frame that it was packed with. *)
Definition duplicate4 : Packet :=
  MkPacket 4 [FAck ack2; FPing PingFrame.MkPingFrame] 1200 EncryptionForwardSecure 0.
Definition h4 := DuplicatePacket h3 duplicate4.

Lemma run_h4 : run h0 [Tracked 1; Tracked 2; Tracked 4; Duplicated duplicate4] h4.
Proof. exact (run_step h0 _ h3 _ h4 run_h3 (step_duplicate h3 duplicate4)). Qed.

Lemma sent_handler_invariant_witness :
  bytesInFlight h4 = bytes (packetHistory h4) ∧ bytesInFlight h4 = 3600 ∧
  retransmissionQueue h4 = [duplicate4] ∧ Duplicated duplicate4 ∈ [Tracked 1; Tracked 2; Tracked 4; Duplicated duplicate4].
Proof.
  destruct (sent_handler_invariant 0 tt 1 _ h4 run_h4) as (Hi & Hq & _).
  split; [exact (inv_bytes h4 Hi)|]. split; [reflexivity|]. split; [reflexivity|].
  destruct (Hq duplicate4) as [(_ & _ & Hf)|Hd]; [left| |exact Hd].
  inversion Hf as [|? ? Hx _]. discriminate Hx.
Defined.

Lemma sent_packets_accounted_witness : accounted 2 [Tracked 1; Tracked 2; Tracked 4; Duplicated duplicate4] h4.
Proof. apply (sent_packets_accounted 0 tt 1 _ h4 2 run_h4). right; left. Defined.

Lemma received_ack_correct_witness :
  ∃ h', ReceivedAck h3 ack2 1 3000 3000 4000 = Ok (h', None, [(1, 2)]) ∧
    PacketNumber <$> packetHistory h' = [4] ∧ PacketNumber <$> retransmissionQueue h' = [1].
Proof.
  destruct (received_ack_correct h3 ack2 1 3000 3000 4000 inv_h3) as (h' & E & _).
  - vm_compute. repeat split; congruence.
  - vm_compute. repeat split; congruence.
  - exists h'. split; [exact E|]. vm_compute in E. injection E as <-. split; reflexivity.
Defined.

(** Packet 3 was skipped. *)
Definition ack3 : AckFrame.AckFrame := AckFrame.MkAckFrame 1 3 3 [] 0 0.

Lemma received_ack_rejected_witness :
  ∃ h', ReceivedAck h3 ack3 1 3000 3000 4000 = Ok (h', Some ErrAckForSkippedPacket, []).
Proof.
  destruct (received_ack_rejected h3 ack3 1 3000 3000 4000 inv_h3) as (h' & err & E & _ & Ee).
  - vm_compute. repeat split; congruence.
  - intros (_ & _ & _ & Hs). vm_compute in Hs. congruence.
  - exists h'. rewrite E, Ee. reflexivity.
Defined.

(** Nothing was acknowledged before: the frame acknowledges packet 1, and the
    packets 2 and 4 stay in flight. *)
Lemma received_close_path_correct_witness :
  ∃ h', ReceivedClosePath h3 (ClosePathFrame.MkClosePathFrame 1 1 1 []) 1 = Ok (h', None, [(1, 1)]) ∧
    PacketNumber <$> packetHistory h' = [2; 4] ∧ retransmissionQueue h' = [].
Proof.
  destruct (received_close_path_correct h3 (ClosePathFrame.MkClosePathFrame 1 1 1 []) 1 inv_h3)
    as (h' & err & calls & E & _ & Hc).
  - vm_compute. repeat split; congruence.
  - exists h'. destruct Hc as (-> & -> & E1 & E2). rewrite E1, E2. split; [exact E|]. split; reflexivity.
Defined.

Lemma sent_packet_correct_witness : skippedPackets (SentPacket h3 5000 (ping 20)).1 = [10; 11; 12; 13; 14; 15; 16; 17; 18; 19].
Proof.
  pose proof (sent_packet_correct h3 5000 (ping 20) inv_h3) as H.
  destruct (SentPacket h3 5000 (ping 20)) as [h' err]. cbn [fst].
  destruct H as (_ & _ & _ & _ & ->). reflexivity.
Defined.

Lemma rto_backoff_witness : computeRTOTimeout (set_rtoCount 3 h3) = 4 * time.Second.
Proof.
  destruct (rto_backoff (set_rtoCount 3 h3)) as [-> _]; [vm_compute; congruence|reflexivity|reflexivity].
Defined.

Lemma potentially_failed_retransmits_witness :
  PacketNumber <$> retransmissionQueue (OnAlarm (set_tlpCount 2 h3) 9000 (Some (λ _, true))) = [1; 2; 4].
Proof.
  destruct (potentially_failed_retransmits (set_tlpCount 2 h3) 9000 (λ _, true)) as (_ & -> & _).
  - apply (inv_same_core h3); [by repeat split|exact inv_h3].
  - reflexivity.
  - reflexivity.
  - vm_compute. congruence.
  - reflexivity.
  - reflexivity.
Defined.

End SentExamples.
