(* ===== verification/RttStats.v ===== *)
(** * Round-trip statistics

    congestion/rtt_stats.go: the round-trip times that the sent packet handler, the
    congestion controllers and the scheduler read. The smoothed values are computed in
    [float32] as in the source. *)

From S2P Require Import Prelude Protocol GoFloat FloatBounds SentPackets.

Module rtt_stats.

Definition initialRTTus : Z := 100 * 1000.
Definition rttAlpha : float := const float32 1 (-3).
Definition oneMinusAlpha : float := const float32 7 (-3).
Definition rttBeta : float := const float32 1 (-2).
Definition oneMinusBeta : float := const float32 3 (-2).
Definition halfWindow : float := const float32 1 (-1).
Definition quarterWindow : float := const float32 1 (-2).

Record rttSample := MkSample { rtt : Z; sampleTime : Z }.
Definition noSample : rttSample := MkSample 0 time.zero.

Record RTTStats := MkRTTStats {
  initialRTT : Z;
  recentMinRTTwindow : Z;
  minRTT : Z;
  latestRTT : Z;
  smoothedRTT : Z;
  meanDeviation : Z;
  numMinRTTsamplesRemaining : Z;
  newMinRTT : rttSample;
  recentMinRTT : rttSample;
  halfWindowRTT : rttSample;
  quarterWindowRTT : rttSample;
}.

Definition NewRTTStats : RTTStats :=
  MkRTTStats initialRTTus utils.InfDuration 0 0 0 0 0 noSample noSample noSample noSample.

(** [&congestion.RTTStats{}], which path.go makes instead. *)
Definition zeroRTTStats : RTTStats := MkRTTStats 0 0 0 0 0 0 0 noSample noSample noSample noSample.

Definition RecentMinRTT (r : RTTStats) : Z := rtt (recentMinRTT r).
Definition GetQuarterWindowRTT (r : RTTStats) : Z := rtt (quarterWindowRTT r).
Definition GetHalfWindowRTT (r : RTTStats) : Z := rtt (halfWindowRTT r).

Definition SetRecentMinRTTwindow (r : RTTStats) (w : Z) : RTTStats :=
  MkRTTStats (initialRTT r) w (minRTT r) (latestRTT r) (smoothedRTT r) (meanDeviation r)
    (numMinRTTsamplesRemaining r) (newMinRTT r) (recentMinRTT r) (halfWindowRTT r) (quarterWindowRTT r).

(** The fields that [updateRecentMinRTT] works on. *)
Definition set_samples (r : RTTStats) (n : Z) (new recent half quarter : rttSample) : RTTStats :=
  MkRTTStats (initialRTT r) (recentMinRTTwindow r) (minRTT r) (latestRTT r) (smoothedRTT r) (meanDeviation r)
    n new recent half quarter.

(** The window in microseconds times a fraction of it, negated: [-time.Duration(...)]. *)
Definition windowPart (w : Z) (part : float) : Z :=
  i64 (i64 (- to_int64 (fmul float32 (of_int float32 (Z.quot w time.Microsecond)) part)) * time.Microsecond).

(** A forced sampling period, and what it leaves when it ends. *)
Definition forcedSample (r : RTTStats) (s : rttSample) : RTTStats :=
  if 0 <? numMinRTTsamplesRemaining r then
    let n := numMinRTTsamplesRemaining r - 1 in
    let new := if (rtt (newMinRTT r) =? 0) || (rtt s <=? rtt (newMinRTT r)) then s else newMinRTT r in
    if n =? 0 then set_samples r n new new new new
    else set_samples r n new (recentMinRTT r) (halfWindowRTT r) (quarterWindowRTT r)
  else r.

(** Update the three recent samples. *)
Definition recordSample (r : RTTStats) (s : rttSample) : RTTStats :=
  let n := numMinRTTsamplesRemaining r in let new := newMinRTT r in
  if (rtt (recentMinRTT r) =? 0) || (rtt s <=? rtt (recentMinRTT r)) then set_samples r n new s s s
  else if rtt s <=? rtt (halfWindowRTT r) then set_samples r n new (recentMinRTT r) s s
  else if rtt s <=? rtt (quarterWindowRTT r) then
    set_samples r n new (recentMinRTT r) (halfWindowRTT r) s
  else r.

(** Expire old samples. *)
Definition expireSamples (r : RTTStats) (s : rttSample) : RTTStats :=
  let n := numMinRTTsamplesRemaining r in let new := newMinRTT r in
  let now := sampleTime s in let w := recentMinRTTwindow r in
  if time.Before (sampleTime (recentMinRTT r)) (time.Add now (i64 (- w))) then
    set_samples r n new (halfWindowRTT r) (quarterWindowRTT r) s
  else if time.Before (sampleTime (halfWindowRTT r)) (time.Add now (windowPart w halfWindow)) then
    set_samples r n new (recentMinRTT r) (quarterWindowRTT r) s
  else if time.Before (sampleTime (quarterWindowRTT r)) (time.Add now (windowPart w quarterWindow)) then
    set_samples r n new (recentMinRTT r) (halfWindowRTT r) s
  else r.

Definition updateRecentMinRTT (r : RTTStats) (sample now : Z) : RTTStats :=
  let s := MkSample sample now in
  expireSamples (recordSample (forcedSample r s) s) s.

(** The weighted mean of two durations, in microseconds of [float32]. *)
Definition blend (w1 : float) (d1 : Z) (w2 : float) (d2 : Z) : Z :=
  i64 (to_int64 (fadd float32
    (fmul float32 w1 (of_int float32 (Z.quot d1 time.Microsecond)))
    (fmul float32 w2 (of_int float32 (Z.quot d2 time.Microsecond)))) * time.Microsecond).

Definition set_rtts (r : RTTStats) (min latest smoothed dev : Z) : RTTStats :=
  MkRTTStats (initialRTT r) (recentMinRTTwindow r) min latest smoothed dev
    (numMinRTTsamplesRemaining r) (newMinRTT r) (recentMinRTT r) (halfWindowRTT r) (quarterWindowRTT r).

Definition UpdateRTT (r : RTTStats) (sendDelta ackDelay now : Z) : RTTStats :=
  if (sendDelta =? utils.InfDuration) || (sendDelta <=? 0) then r
  else
    let min := if (minRTT r =? 0) || (sendDelta <? minRTT r) then sendDelta else minRTT r in
    let r := updateRecentMinRTT r sendDelta now in
    let sample := if ackDelay <? sendDelta then i64 (sendDelta - ackDelay) else sendDelta in
    if smoothedRTT r =? 0 then set_rtts r min sample sample (Z.quot sample 2)
    else
      set_rtts r min sample
        (blend oneMinusAlpha (smoothedRTT r) rttAlpha sample)
        (blend oneMinusBeta (meanDeviation r) rttBeta (utils.AbsDuration (i64 (smoothedRTT r - sample)))).

Definition SampleNewRecentMinRTT (r : RTTStats) (numSamples : Z) : RTTStats :=
  set_samples r numSamples noSample (recentMinRTT r) (halfWindowRTT r) (quarterWindowRTT r).

Definition OnConnectionMigration (r : RTTStats) : RTTStats :=
  MkRTTStats initialRTTus utils.InfDuration 0 0 0 0 0 (newMinRTT r) noSample noSample noSample.

Definition ExpireSmoothedMetrics (r : RTTStats) : RTTStats :=
  set_rtts r (minRTT r) (latestRTT r) (utils.MaxDuration (smoothedRTT r) (latestRTT r))
    (utils.MaxDuration (meanDeviation r) (utils.AbsDuration (i64 (smoothedRTT r - latestRTT r)))).

Definition UpdateSessionRTT (r : RTTStats) (srtt : Z) : RTTStats :=
  set_rtts r (minRTT r) (latestRTT r) srtt (meanDeviation r).

End rtt_stats.

(** The estimator the sent packet handler uses. *)
#[export] Instance rtt_stats_RTTStats : RTTStats rtt_stats.RTTStats := {
  LatestRTT := rtt_stats.latestRTT;
  SmoothedRTT := rtt_stats.smoothedRTT;
  UpdateRTT := rtt_stats.UpdateRTT;
}.

(** ** Smoothing *)

Section smoothing.
Import rtt_stats.

(** A weighted mean of durations of [a] to [b] microseconds is one. *)
Lemma blend_between c1 c2 j d1 d2 a b :
  0 < c1 → 0 < c2 → 0 <= j <= 24 → c1 + c2 = 2 ^ j → 0 <= a → b * 2 ^ j <= 2 ^ 24 →
  a * 1000 <= d1 <= b * 1000 → a * 1000 <= d2 <= b * 1000 →
  a * 1000 <= blend (const float32 c1 (- j)) d1 (const float32 c2 (- j)) d2 <= b * 1000.
Proof.
  intros H1 H2 Hj Hsum Ha Hb Hd1 Hd2.
  assert (0 < 2 ^ j) as Hp by (apply pow2_pos; lia).
  assert (2 ^ j <= 2 ^ 24) as Hp' by (apply Z.pow_le_mono_r; lia).
  assert (∀ d, a * 1000 <= d <= b * 1000 → a <= Z.quot d 1000 <= b) as Hq.
  { intros d Hd. rewrite Z.quot_div_nonneg by lia.
    split; [apply Z.div_le_lower_bound|apply Z.div_le_upper_bound]; lia. }
  assert (∀ c d, 0 < c → c <= 2 ^ j → a * 1000 <= d <= b * 1000 →
    within float32 (fmul float32 (const float32 c (- j)) (of_int float32 (Z.quot d 1000))) (c * a) (c * b) (- j)) as Hm.
  { intros c d Hc Hc' Hd. specialize (Hq d Hd).
    rewrite <- (Z.add_0_r (- j)) at 2. apply (fmul_within float32 sane_float32).
    - apply within_const; lia.
    - apply of_int32_within; nia.
    - lia.
    - lia.
    - change (fprec float32) with 24. nia.
    - apply bound_ok_float32; nia. }
  unfold blend, time.Microsecond.
  assert (within float32 (fadd float32
    (fmul float32 (const float32 c1 (- j)) (of_int float32 (Z.quot d1 1000)))
    (fmul float32 (const float32 c2 (- j)) (of_int float32 (Z.quot d2 1000)))) a b 0) as Hw.
  { apply (within_unshift _ _ _ _ _ j); [lia|]. change (0 - j) with (- j).
    replace (a * 2 ^ j) with (c1 * a + c2 * a) by nia. replace (b * 2 ^ j) with (c1 * b + c2 * b) by nia.
    apply (fadd_within float32 sane_float32).
    - apply Hm; [done|lia|done].
    - apply Hm; [done|lia|done].
    - nia.
    - nia.
    - change (fprec float32) with 24. nia.
    - apply bound_ok_float32; nia. }
  assert (b <= 2 ^ 24) by nia. apply within_to_int64 in Hw; [|done|lia].
  unfold i64. rewrite Z.mod_small; lia.
Qed.

(** A call of [UpdateRTT]. *)
Record measurement := Measure { sendDelta : Z; ackDelay : Z; measuredAt : Z }.

Definition valid (m : measurement) : bool :=
  negb ((sendDelta m =? utils.InfDuration) || (sendDelta m <=? 0)).

(** The round trip without the delay that the peer reports. *)
Definition corrected (m : measurement) : Z :=
  if ackDelay m <? sendDelta m then sendDelta m - ackDelay m else sendDelta m.

Definition update (r : RTTStats) (m : measurement) : RTTStats :=
  UpdateRTT r (sendDelta m) (ackDelay m) (measuredAt m).

(** Calls with [int64] arguments, as the handler makes them: no negative delay, and a
    corrected round trip of [a] to [b] microseconds when the call counts. *)
Definition measures (a b : Z) (m : measurement) : Prop :=
  0 <= ackDelay m ∧ sendDelta m <= utils.InfDuration ∧
  (valid m = true → a * time.Microsecond <= corrected m <= b * time.Microsecond).

Definition smoothed_ok (a b : Z) (r : RTTStats) : Prop :=
  a * time.Microsecond <= smoothedRTT r <= b * time.Microsecond ∧
  a * time.Microsecond <= latestRTT r <= b * time.Microsecond ∧
  0 <= meanDeviation r <= b * time.Microsecond.

(** The fields that the recent samples leave alone. *)
Definition same_rtts (r r' : RTTStats) : Prop :=
  smoothedRTT r' = smoothedRTT r ∧ meanDeviation r' = meanDeviation r ∧ minRTT r' = minRTT r ∧
  latestRTT r' = latestRTT r ∧ recentMinRTTwindow r' = recentMinRTTwindow r.

#[local] Instance same_rtts_trans : Transitive same_rtts.
Proof. unfold same_rtts. intros ??? ??. naive_solver congruence. Qed.

Lemma updateRecent_rtts r s now : same_rtts r (updateRecentMinRTT r s now).
Proof.
  unfold updateRecentMinRTT. transitivity (forcedSample r (MkSample s now)).
  { unfold forcedSample, set_samples, same_rtts. repeat case_match; done. }
  generalize (forcedSample r (MkSample s now)) as r1. intros r1.
  transitivity (recordSample r1 (MkSample s now)).
  { unfold recordSample, set_samples, same_rtts. repeat case_match; done. }
  generalize (recordSample r1 (MkSample s now)) as r2. intros r2.
  unfold expireSamples, set_samples, same_rtts. repeat case_match; done.
Qed.

Lemma update_smoothed a b r m :
  1 <= a → b <= 2 ^ 21 → measures a b m → (smoothedRTT r = 0 ∨ smoothed_ok a b r) →
  valid m = true → smoothed_ok a b (update r m).
Proof.
  intros Ha Hb (Hd & Hinf & Hm) Hr Hv. specialize (Hm Hv).
  unfold update, UpdateRTT, valid in *. rewrite negb_true_iff in Hv. rewrite Hv.
  apply orb_false_iff in Hv as [_ Hpos%Z.leb_gt].
  destruct (updateRecent_rtts r (sendDelta m) (measuredAt m)) as (Es & Ed & _). rewrite Es, Ed.
  assert ((if ackDelay m <? sendDelta m then i64 (sendDelta m - ackDelay m) else sendDelta m) = corrected m) as ->.
  { unfold corrected, utils.InfDuration in *. case_match; [zlia|done]. }
  unfold time.Microsecond in *. unfold smoothed_ok.
  destruct (Z.eqb_spec (smoothedRTT r) 0) as [|Hs]; cbn [set_rtts smoothedRTT latestRTT meanDeviation].
  { unfold time.Microsecond. rewrite Z.quot_div_nonneg by lia. lia. }
  destruct Hr as [?|(Hs1 & _ & Hd1)]; [done|]. unfold time.Microsecond in *.
  split; [|split; [done|]].
  - apply (blend_between 7 1 3); try done; lia.
  - apply (blend_between 3 1 2 _ _ 0 b); try done; [lia|]. unfold utils.AbsDuration.
    assert (i64 (smoothedRTT r - corrected m) = smoothedRTT r - corrected m) as -> by zlia.
    case_match; [|rewrite Z.leb_gt in *]; zlia.
Qed.

Lemma updates_smoothed a b ms r :
  1 <= a → b <= 2 ^ 21 → Forall (measures a b) ms → (smoothedRTT r = 0 ∨ smoothed_ok a b r) →
  Exists (λ m, valid m = true) ms ∨ smoothed_ok a b r → smoothed_ok a b (foldl update r ms).
Proof.
  intros Ha Hb Hms. revert r. induction Hms as [|m ms Hm _ IH]; intros r Hr Hex; cbn.
  { by destruct Hex as [?%Exists_nil|]. }
  destruct (valid m) eqn:Hv.
  - pose proof (update_smoothed a b r m Ha Hb Hm Hr Hv). apply IH; auto.
  - assert (update r m = r) as ->.
    { unfold update, UpdateRTT. unfold valid in Hv. rewrite negb_false_iff in Hv. by rewrite Hv. }
    apply IH; [done|]. destruct Hex as [[?|?]%Exists_cons|?]; [congruence|by left|by right].
Qed.

(** The smoothed round-trip time is a mean of the round trips: when every counted
    round trip, corrected for the delay that the peer reports, lies between [a] and [b]
    microseconds (at least one, at most 2^21, about two seconds), the smoothed and the
    latest RTT lie between [a] and [b] microseconds, in spite of the truncations of the
    float arithmetic, and the mean deviation is at most [b] microseconds. This holds for
    statistics from the constructor and for the zero ones that a path makes. *)
Theorem smoothed_rtt_between a b r0 ms :
  1 <= a → b <= 2 ^ 21 → r0 ∈ [NewRTTStats; zeroRTTStats] →
  Forall (measures a b) ms → Exists (λ m, valid m = true) ms →
  smoothed_ok a b (foldl update r0 ms).
Proof.
  rewrite !elem_of_cons, elem_of_nil. intros Ha Hb [->|[->|[]]] Hm He; apply updates_smoothed; auto.
Qed.

End smoothing.

(** ** Minima *)

Section minima.
Import rtt_stats.

(** The calls that change the statistics. *)
Inductive rtt_op :=
  | DoUpdate (m : measurement)
  | DoSetWindow (w : Z)
  | DoSampleNew (n : Z)
  | DoMigrate
  | DoExpire
  | DoSession (srtt : Z).

Definition rtt_step (r : RTTStats) (o : rtt_op) : RTTStats :=
  match o with
  | DoUpdate m => update r m
  | DoSetWindow w => SetRecentMinRTTwindow r w
  | DoSampleNew n => SampleNewRecentMinRTT r n
  | DoMigrate => OnConnectionMigration r
  | DoExpire => ExpireSmoothedMetrics r
  | DoSession srtt => UpdateSessionRTT r srtt
  end.

(** The counted round trips since the last migration. *)
Definition history_step (hist : list rttSample) (o : rtt_op) : list rttSample :=
  match o with
  | DoUpdate m => if valid m then hist ++ [MkSample (sendDelta m) (measuredAt m)] else hist
  | DoMigrate => []
  | _ => hist
  end.

(** A round trip of the history after which there was none lower. *)
Definition last_low (hist : list rttSample) (s : rttSample) : Prop :=
  ∃ pre post, hist = pre ++ s :: post ∧ Forall (λ x, rtt s <= rtt x) post.

Definition is_min (hist : list rttSample) (v : Z) : Prop :=
  match hist with
  | [] => v = 0
  | _ => (∃ s, s ∈ hist ∧ rtt s = v) ∧ Forall (λ x, v <= rtt x) hist
  end.

Definition three_ok (P : rttSample → Prop) (r : RTTStats) : Prop :=
  P (recentMinRTT r) ∧ P (halfWindowRTT r) ∧ P (quarterWindowRTT r) ∧
  rtt (recentMinRTT r) <= rtt (halfWindowRTT r) <= rtt (quarterWindowRTT r).

Record minima_ok (hist : list rttSample) (r : RTTStats) : Prop := {
  mo_pos : Forall (λ x, 0 < rtt x) hist;
  mo_min : is_min hist (minRTT r);
  mo_three : three_ok (if hist then (.= noSample) else last_low hist) r;
  mo_latest : ∀ s, last hist = Some s → rtt (quarterWindowRTT r) <= rtt s;
  mo_new : 0 < numMinRTTsamplesRemaining r → newMinRTT r = noSample ∨ last_low hist (newMinRTT r);
}.

(** Conjunctions of hypotheses and of arithmetic. *)
Ltac parts := intros; split_and!; first [lia | auto].

Lemma last_low_new hist s : last_low (hist ++ [s]) s.
Proof. exists hist, []. done. Qed.

Lemma last_low_snoc hist x s : last_low hist x → rtt x <= rtt s → last_low (hist ++ [s]) x.
Proof.
  intros (pre & post & -> & H) Hs. exists pre, (post ++ [s]). rewrite <- app_assoc. split; [done|].
  apply Forall_app. auto.
Qed.

Lemma last_low_pos hist x : last_low hist x → Forall (λ x, 0 < rtt x) hist → 0 < rtt x.
Proof. intros (pre & post & -> & _) H. rewrite Forall_app, Forall_cons in H. apply H. Qed.

(** Between the steps of an update a sample counts in the old or in the new history. *)
Definition cand (hist : list rttSample) (s x : rttSample) : Prop :=
  x = noSample ∨ last_low hist x ∨ last_low (hist ++ [s]) x.

Lemma cand_low hist s x : cand hist s x → rtt x ≠ 0 → rtt x <= rtt s → last_low (hist ++ [s]) x.
Proof. intros [->|[H|H]] ? ?; [done|by apply last_low_snoc|done]. Qed.

Lemma forcedSample_ok hist r s :
  minima_ok hist r → let r' := forcedSample r s in
  three_ok (cand hist s) r' ∧
  (0 < numMinRTTsamplesRemaining r' → last_low (hist ++ [s]) (newMinRTT r')).
Proof.
  intros [Hpos _ H3 _ Hnew]. cbv zeta.
  assert (three_ok (cand hist s) r) as Hc.
  { unfold three_ok, cand in *. destruct hist; naive_solver. }
  unfold forcedSample. destruct (Z.ltb_spec 0 (numMinRTTsamplesRemaining r)) as [Hn|]; [|split; [done|lia]].
  specialize (Hnew Hn).
  assert (last_low (hist ++ [s])
    (if (rtt (newMinRTT r) =? 0) || (rtt s <=? rtt (newMinRTT r)) then s else newMinRTT r)) as Hl.
  { destruct (Z.eqb_spec (rtt (newMinRTT r)) 0), (Z.leb_spec (rtt s) (rtt (newMinRTT r))); cbn [orb];
      try apply last_low_new.
    destruct Hnew as [E|Hnew]; [by rewrite E in *|]. apply last_low_snoc; [done|lia]. }
  destruct (Z.eqb_spec (numMinRTTsamplesRemaining r - 1) 0); cbn [set_samples].
  - split; [|cbn; lia]. revert Hl. case_match; unfold three_ok, cand; cbn; parts.
  - split; [exact Hc|]. intros _. exact Hl.
Qed.

Lemma recordSample_ok hist r s :
  three_ok (cand hist s) r → Forall (λ x, 0 < rtt x) (hist ++ [s]) → let r' := recordSample r s in
  three_ok (last_low (hist ++ [s])) r' ∧ rtt (quarterWindowRTT r') <= rtt s.
Proof.
  intros (H1 & H2 & H3 & Ho) Hs. cbv zeta. unfold recordSample, three_ok.
  pose proof (last_low_new hist s).
  destruct (Z.eqb_spec (rtt (recentMinRTT r)) 0), (Z.leb_spec (rtt s) (rtt (recentMinRTT r))); cbn [orb];
    [cbn; parts..|].
  assert (0 < rtt (recentMinRTT r)) as Hp.
  { destruct H1 as [E|[H1|H1]]; [by rewrite E in *|..]; eapply last_low_pos; try done.
    rewrite Forall_app in Hs. apply Hs. }
  assert (last_low (hist ++ [s]) (recentMinRTT r)) by (apply cand_low; [done|lia|lia]).
  destruct (Z.leb_spec (rtt s) (rtt (halfWindowRTT r))); [cbn; parts|].
  assert (last_low (hist ++ [s]) (halfWindowRTT r)) by (apply cand_low; [done|lia|lia]).
  destruct (Z.leb_spec (rtt s) (rtt (quarterWindowRTT r))); [cbn; parts|].
  assert (last_low (hist ++ [s]) (quarterWindowRTT r)) by (apply cand_low; [done|lia|lia]).
  cbn; parts.
Qed.

Lemma expireSamples_ok hist r s :
  three_ok (last_low (hist ++ [s])) r → rtt (quarterWindowRTT r) <= rtt s →
  let r' := expireSamples r s in
  three_ok (last_low (hist ++ [s])) r' ∧ rtt (quarterWindowRTT r') <= rtt s.
Proof.
  intros (H1 & H2 & H3 & Ho) Hs. cbv zeta. unfold expireSamples, three_ok.
  pose proof (last_low_new hist s). repeat case_match; cbn; parts.
Qed.

Lemma is_min_snoc hist s v :
  0 < rtt s → Forall (λ x, 0 < rtt x) hist → is_min hist v →
  is_min (hist ++ [s]) (if (v =? 0) || (rtt s <? v) then rtt s else v).
Proof.
  intros Hs Hpos Hm. destruct hist as [|x hist]; cbn in Hm.
  { subst v. cbn. split; [exists s; split; [by left|done]|]. repeat constructor. lia. }
  destruct Hm as [(y & Hy & Ev) Hall]. cbn [is_min app].
  change (x :: hist ++ [s]) with ((x :: hist) ++ [s]).
  assert (0 < v) by (subst v; rewrite Forall_forall in Hpos; auto).
  destruct (Z.eqb_spec v 0); [lia|]. cbn [orb].
  destruct (Z.ltb_spec (rtt s) v); rewrite Forall_app, Forall_singleton.
  - split; [exists s; split; [|done]; apply elem_of_app; right; by left|]. split; [|lia].
    eapply Forall_impl; [exact Hall|]. cbn. lia.
  - split; [exists y; split; [|done]; apply elem_of_app; by left|]. split; [done|lia].
Qed.

Lemma if_snoc {A} (hist : list A) s (B : Type) (x y : B) : (if hist ++ [s] then x else y) = y.
Proof. by destruct hist. Qed.

Lemma minima_update hist r m :
  minima_ok hist r → minima_ok (history_step hist (DoUpdate m)) (update r m).
Proof.
  intros H. unfold update, UpdateRTT, history_step, valid.
  destruct (Z.eqb_spec (sendDelta m) utils.InfDuration), (Z.leb_spec (sendDelta m) 0); cbn [orb negb]; try done.
  set (s := MkSample (sendDelta m) (measuredAt m)).
  assert (Forall (λ x, 0 < rtt x) (hist ++ [s])) as Hpos.
  { apply Forall_app. split; [apply H|]. by constructor. }
  destruct (forcedSample_ok hist r s H) as [F1 F2].
  assert (∀ r1, numMinRTTsamplesRemaining (recordSample r1 s) = numMinRTTsamplesRemaining r1 ∧
    newMinRTT (recordSample r1 s) = newMinRTT r1) as R.
  { intros r1. unfold recordSample. repeat case_match; done. }
  assert (∀ r1, numMinRTTsamplesRemaining (expireSamples r1 s) = numMinRTTsamplesRemaining r1 ∧
    newMinRTT (expireSamples r1 s) = newMinRTT r1) as X.
  { intros r1. unfold expireSamples. repeat case_match; done. }
  destruct (recordSample_ok _ _ _ F1 Hpos) as [R1 R2].
  destruct (expireSamples_ok _ _ _ R1 R2) as [X1 X2].
  unfold updateRecentMinRTT. fold s.
  set (r1 := expireSamples (recordSample (forcedSample r s) s) s) in *.
  assert (0 < numMinRTTsamplesRemaining r1 → newMinRTT r1 = noSample ∨ last_low (hist ++ [s]) (newMinRTT r1)) as N.
  { unfold r1. destruct (X (recordSample (forcedSample r s) s)) as [-> ->].
    destruct (R (forcedSample r s)) as [-> ->]. auto. }
  clearbody r1. clear F1 F2 R R1 R2 X.
  assert (is_min (hist ++ [s]) (if (minRTT r =? 0) || (sendDelta m <? minRTT r) then sendDelta m else minRTT r)) as M.
  { apply (is_min_snoc hist s); [done|apply H|apply H]. }
  destruct (smoothedRTT r1 =? 0); (split; [done|exact M|rewrite if_snoc; exact X1| |exact N]).
  all: intros s' Hs'; rewrite last_snoc in Hs'; injection Hs' as <-; exact X2.
Qed.

Lemma minima_step hist r o : minima_ok hist r → minima_ok (history_step hist o) (rtt_step r o).
Proof.
  destruct o; [apply minima_update|..]; intros [H1 H2 H3 H4 H5]; split; try done. by left.
Qed.

Lemma minima_init r0 : r0 ∈ [NewRTTStats; zeroRTTStats] → minima_ok [] r0.
Proof. rewrite !elem_of_cons, elem_of_nil. intros [->|[->|[]]]; split; done. Qed.

Lemma minima_run ops hist r :
  minima_ok hist r → minima_ok (foldl history_step hist ops) (foldl rtt_step r ops).
Proof. revert hist r. induction ops; cbn; auto using minima_step. Qed.

(** From new statistics, whatever sequence of calls is made (measurements, valid or not, a change of the
    window, a forced sampling, an expiry of the smoothed metrics, an update from the
    session, a migration): [MinRTT] is the minimum of the round trips counted since the
    last migration (0 if there are none); once there is one, the recent minimum and the
    two samples that follow it are round trips that were measured and after which none
    lower was, in increasing order and at most the last one. *)
Theorem rtt_minima r0 ops :
  r0 ∈ [NewRTTStats; zeroRTTStats] →
  let r := foldl rtt_step r0 ops in
  let hist := foldl history_step [] ops in
  is_min hist (minRTT r) ∧
  (∀ s, last hist = Some s →
    last_low hist (recentMinRTT r) ∧ last_low hist (halfWindowRTT r) ∧ last_low hist (quarterWindowRTT r) ∧
    RecentMinRTT r <= GetHalfWindowRTT r <= GetQuarterWindowRTT r ∧ GetQuarterWindowRTT r <= rtt s).
Proof.
  intros H0 r hist. destruct (minima_run ops [] r0 (minima_init r0 H0)) as [_ H2 H3 H4 _].
  fold r hist in H2, H3, H4. split; [done|]. intros s Hs. specialize (H4 s Hs).
  destruct hist; [done|]. destruct H3 as (? & ? & ? & ?). auto.
Qed.

End minima.

(** ** Witnesses *)

Module RttExamples.
Import rtt_stats.

(** Round trips of 100, 60 and 140 ms, of which the peer took 20 ms, and an invalid one. *)
Definition trips : list measurement :=
  [Measure (100 * time.Millisecond) 0 1; Measure 0 0 2; Measure (60 * time.Millisecond) 0 3;
   Measure (140 * time.Millisecond) (20 * time.Millisecond) 4].

Lemma smoothed_rtt_between_witness :
  (1 <= 60000 ∧ Forall (measures 60000 120000) trips) ∧
  smoothed_ok 60000 120000 (foldl update zeroRTTStats trips) ∧
  smoothedRTT (foldl update zeroRTTStats trips) = 98125 * time.Microsecond.
Proof.
  assert (Forall (measures 60000 120000) trips) as H.
  { unfold trips. repeat (apply Forall_cons_2; [split_and!; vm_compute; intros; split_and?; congruence|]).
    apply Forall_nil_2. }
  split; [split; [lia|exact H]|]. split; [|vm_compute; reflexivity].
  apply (smoothed_rtt_between 60000 120000 zeroRTTStats trips); [lia|lia|right; left|exact H|]. left. reflexivity.
Defined.

(** The zero statistics have a window of length zero: older samples expire with each
    later round trip. *)
Lemma rtt_minima_witness :
  let ops := DoUpdate <$> trips in
  let r := foldl rtt_step zeroRTTStats ops in
  is_min (foldl history_step [] ops) (minRTT r) ∧ minRTT r = 60 * time.Millisecond ∧ GetQuarterWindowRTT r = 140 * time.Millisecond.
Proof.
  split; [|vm_compute; split; reflexivity].
  apply (rtt_minima zeroRTTStats (DoUpdate <$> trips)). right; left.
Defined.

End RttExamples.
