(* ===== verification/Congestion.v ===== *)
(** * Congestion control

    The controllers of congestion/: bandwidth.go, stats.go, hybrid_slow_start.go,
    prr_sender.go, cubic.go and cubic_sender.go. The fields and the code that the CUBIC
    and the OLIA sender have in common are in the module [window]. A reading of the clock
    is an argument of the operation that takes it. *)

From S2P Require Import Prelude Protocol GoFloat FloatBounds SentPackets RttStats.

(** ** bandwidth.go *)
Definition BytesPerSecond : Z := 8.
Definition BandwidthFromDelta (bytes delta : Z) : Z :=
  u64 (u64 (bytes * time.Second) / u64 delta * BytesPerSecond).

(** ** stats.go *)
Record connectionStats := MkStats { slowstartPacketsLost : Z; slowstartBytesLost : Z }.

(** ** hybrid_slow_start.go *)
Module hybrid_slow_start.

Definition hybridStartLowWindow : Z := 16.
Definition hybridStartMinSamples : Z := 8.
Definition hybridStartDelayFactorExp : Z := 3.
Definition hybridStartDelayMinThresholdUs : Z := 4000.
Definition hybridStartDelayMaxThresholdUs : Z := 16000.

Record HybridSlowStart := MkHybrid {
  endPacketNumber : Z;
  lastSentPacketNumber : Z;
  started : bool;
  currentMinRTT : Z;
  rttSampleCount : Z;
  hystartFound : bool;
}.

Definition NewHybridSlowStart : HybridSlowStart := MkHybrid 0 0 false 0 0 false.

Definition StartReceiveRound (s : HybridSlowStart) (lastSent : Z) : HybridSlowStart :=
  MkHybrid lastSent (lastSentPacketNumber s) true 0 0 (hystartFound s).

Definition IsEndOfRound (s : HybridSlowStart) (ack : Z) : bool := endPacketNumber s <? ack.

(** The increase of the delay that ends slow start. *)
Definition increaseThreshold (minRTT : Z) : Z :=
  let us := Z.shiftr (Z.quot minRTT time.Microsecond) hybridStartDelayFactorExp in
  let us := utils.MinInt64 us hybridStartDelayMaxThresholdUs in
  i64 (utils.MaxInt64 us hybridStartDelayMinThresholdUs * time.Microsecond).

Definition ShouldExitSlowStart (s : HybridSlowStart) (latestRTT minRTT congestionWindow : Z) :
    HybridSlowStart * bool :=
  let s := if started s then s else StartReceiveRound s (lastSentPacketNumber s) in
  if hystartFound s then (s, true)
  else
    let n := u32 (rttSampleCount s + 1) in
    let cur := if (n <=? hybridStartMinSamples) &&
                  ((currentMinRTT s =? 0) || (latestRTT <? currentMinRTT s))
               then latestRTT else currentMinRTT s in
    let found := (n =? hybridStartMinSamples) && (i64 (minRTT + increaseThreshold minRTT) <? cur) in
    (MkHybrid (endPacketNumber s) (lastSentPacketNumber s) (started s) cur n found,
     (hybridStartLowWindow <=? congestionWindow) && found).

Definition OnPacketSent (s : HybridSlowStart) (packetNumber : Z) : HybridSlowStart :=
  MkHybrid (endPacketNumber s) packetNumber (started s) (currentMinRTT s) (rttSampleCount s) (hystartFound s).

Definition OnPacketAcked (s : HybridSlowStart) (ackedPacketNumber : Z) : HybridSlowStart :=
  if IsEndOfRound s ackedPacketNumber
  then MkHybrid (endPacketNumber s) (lastSentPacketNumber s) false (currentMinRTT s) (rttSampleCount s) (hystartFound s)
  else s.

Definition Restart (s : HybridSlowStart) : HybridSlowStart :=
  MkHybrid (endPacketNumber s) (lastSentPacketNumber s) false (currentMinRTT s) (rttSampleCount s) false.

End hybrid_slow_start.

(** ** prr_sender.go *)
Module prr_sender.

Record PrrSender := MkPrr {
  bytesSentSinceLoss : Z;
  bytesDeliveredSinceLoss : Z;
  ackCountSinceLoss : Z;
  bytesInFlightBeforeLoss : Z;
}.

Definition NewPrrSender : PrrSender := MkPrr 0 0 0 0.

Definition OnPacketSent (p : PrrSender) (sentBytes : Z) : PrrSender :=
  MkPrr (u64 (bytesSentSinceLoss p + sentBytes)) (bytesDeliveredSinceLoss p) (ackCountSinceLoss p)
    (bytesInFlightBeforeLoss p).

Definition OnPacketLost (p : PrrSender) (bytesInFlight : Z) : PrrSender := MkPrr 0 0 0 bytesInFlight.

Definition OnPacketAcked (p : PrrSender) (ackedBytes : Z) : PrrSender :=
  MkPrr (bytesSentSinceLoss p) (u64 (bytesDeliveredSinceLoss p + ackedBytes)) (u64 (ackCountSinceLoss p + 1))
    (bytesInFlightBeforeLoss p).

Definition TimeUntilSend (p : PrrSender) (congestionWindow bytesInFlight slowstartThreshold : Z) : Z :=
  if (bytesSentSinceLoss p =? 0) || (bytesInFlight <? protocol.DefaultTCPMSS) then 0
  else if bytesInFlight <? congestionWindow then
    if u64 (bytesDeliveredSinceLoss p + ackCountSinceLoss p * protocol.DefaultTCPMSS) <=? bytesSentSinceLoss p
    then utils.InfDuration else 0
  else if u64 (bytesSentSinceLoss p * bytesInFlightBeforeLoss p) <?
          u64 (bytesDeliveredSinceLoss p * slowstartThreshold) then 0
  else utils.InfDuration.

End prr_sender.

(** ** cubic.go *)
Module cubic.

Definition cubeScale : Z := 40.
Definition cubeCongestionWindowScale : Z := 410.
Definition cubeFactor : Z := Z.shiftl 1 cubeScale / cubeCongestionWindowScale.
Definition defaultNumConnections : Z := 2.
(** 0.7 and 0.85, rounded to [float32]. *)
Definition beta : float := fdiv float32 (of_int float32 7) (of_int float32 10).
Definition betaLastMax : float := fdiv float32 (of_int float32 85) (of_int float32 100).
Definition maxCubicTimeInterval : Z := 30 * time.Millisecond.

Record Cubic := MkCubic {
  numConnections : Z;
  epoch : Z;
  appLimitedStartTime : Z;
  lastUpdateTime : Z;
  lastCongestionWindow : Z;
  lastMaxCongestionWindow : Z;
  ackedPacketsCount : Z;
  estimatedTCPcongestionWindow : Z;
  originPointCongestionWindow : Z;
  timeToOriginPoint : Z;
  lastTargetCongestionWindow : Z;
}.

Definition Reset (c : Cubic) : Cubic :=
  MkCubic (numConnections c) time.zero time.zero time.zero 0 0 0 0 0 0 0.

Definition NewCubic : Cubic :=
  Reset (MkCubic defaultNumConnections time.zero time.zero time.zero 0 0 0 0 0 0 0).

(** The backoff factor of [n] emulated connections, and the matching increase. *)
Definition beta_of (n : Z) : float :=
  fdiv float32 (fadd float32 (fsub float32 (of_int float32 n) (of_int float32 1)) beta) (of_int float32 n).
Definition alpha_of (n : Z) : float :=
  let b := beta_of n in
  fdiv float32
    (fmul float32 (fmul float32 (fmul float32 (of_int float32 3) (of_int float32 n)) (of_int float32 n))
       (fsub float32 (of_int float32 1) b))
    (fadd float32 (of_int float32 1) b).

Definition OnApplicationLimited (c : Cubic) (now : Z) : Cubic :=
  if time.IsZero (appLimitedStartTime c) then
    MkCubic (numConnections c) (epoch c) now (lastUpdateTime c) (lastCongestionWindow c)
      (lastMaxCongestionWindow c) (ackedPacketsCount c) (estimatedTCPcongestionWindow c)
      (originPointCongestionWindow c) (timeToOriginPoint c) (lastTargetCongestionWindow c)
  else c.

Definition CongestionWindowAfterPacketLoss (c : Cubic) (currentCongestionWindow : Z) : Cubic * Z :=
  let lastMax :=
    if currentCongestionWindow <? lastMaxCongestionWindow c
    then to_uint64 (fmul float32 betaLastMax (of_int float32 currentCongestionWindow))
    else currentCongestionWindow in
  (MkCubic (numConnections c) time.zero (appLimitedStartTime c) (lastUpdateTime c) (lastCongestionWindow c)
     lastMax (ackedPacketsCount c) (estimatedTCPcongestionWindow c)
     (originPointCongestionWindow c) (timeToOriginPoint c) (lastTargetCongestionWindow c),
   to_uint64 (fmul float32 (of_int float32 currentCongestionWindow) (beta_of (numConnections c)))).

(** The integer part of [math.Cbrt] of an integer, by its bits from the highest. *)
Fixpoint cbrt_bits (bits : nat) (k x : Z) : Z :=
  match bits with
  | O => k
  | S b => let k' := k + 2 ^ Z.of_nat b in cbrt_bits b (if k' * k' * k' <=? x then k' else k) x
  end.
Definition cbrt (x : Z) : Z := cbrt_bits 22 0 x.

(** The time to the origin point, for a window that is [D] packets below it. *)
Definition originTime (D : Z) : Z :=
  u32 (cbrt (default 0 (trunc (of_int float64 (u64 (cubeFactor * u64 D)))))).

(** The start of an epoch, or the shift of it by the time that the sender was limited by
    the application. *)
Definition startEpoch (c : Cubic) (currentCongestionWindow now : Z) : Cubic :=
  if time.IsZero (epoch c) then
    let reached := lastMaxCongestionWindow c <=? currentCongestionWindow in
    MkCubic (numConnections c) now (appLimitedStartTime c) (lastUpdateTime c) (lastCongestionWindow c)
      (lastMaxCongestionWindow c) 1 currentCongestionWindow
      (if reached then currentCongestionWindow else lastMaxCongestionWindow c)
      (if reached then 0 else originTime (lastMaxCongestionWindow c - currentCongestionWindow))
      (lastTargetCongestionWindow c)
  else if negb (time.IsZero (appLimitedStartTime c)) then
    MkCubic (numConnections c) (time.Add (epoch c) (time.Sub now (appLimitedStartTime c))) time.zero
      (lastUpdateTime c) (lastCongestionWindow c) (lastMaxCongestionWindow c) (ackedPacketsCount c)
      (estimatedTCPcongestionWindow c) (originPointCongestionWindow c) (timeToOriginPoint c)
      (lastTargetCongestionWindow c)
  else c.

(** The window on the cubic curve. *)
Definition cubicTarget (c : Cubic) (delayMin now : Z) : Z :=
  let elapsedTime :=
    Z.quot (i64 (Z.quot (time.Sub (time.Add now delayMin) (epoch c)) time.Microsecond * 1024)) 1000000 in
  let offset := i64 (timeToOriginPoint c - elapsedTime) in
  let offset := if offset <? 0 then i64 (- offset) else offset in
  let delta := u64 (Z.shiftr (i64 (cubeCongestionWindowScale * offset * offset * offset)) cubeScale) in
  if timeToOriginPoint c <? elapsedTime then u64 (originPointCongestionWindow c + delta)
  else u64 (originPointCongestionWindow c - delta).

(** The acknowledgements after which Reno would increase its window. *)
Definition requiredAckCount (n est : Z) : Z := to_uint64 (fdiv float32 (of_int float32 est) (alpha_of n)).

(** The [for] loop that updates the estimated TCP window. Every round takes at least
    one from [acked], or has an [est] below the number of connections and raises it; the
    fuel is the sum of the two ([estimate_loop_ends]). *)
Fixpoint estimateLoop (fuel : nat) (n acked est : Z) : Z * Z :=
  match fuel with
  | O => (acked, est)
  | S fuel =>
      if acked <? requiredAckCount n est then (acked, est)
      else estimateLoop fuel n (u64 (acked - requiredAckCount n est)) (u64 (est + 1))
  end.

Definition CongestionWindowAfterAck (c : Cubic) (currentCongestionWindow delayMin now : Z) : Cubic * Z :=
  let acked := u64 (ackedPacketsCount c + 1) in
  let c := MkCubic (numConnections c) (epoch c) (appLimitedStartTime c) (lastUpdateTime c)
    (lastCongestionWindow c) (lastMaxCongestionWindow c) acked (estimatedTCPcongestionWindow c)
    (originPointCongestionWindow c) (timeToOriginPoint c) (lastTargetCongestionWindow c) in
  if (lastCongestionWindow c =? currentCongestionWindow) &&
     (time.Sub now (lastUpdateTime c) <=? maxCubicTimeInterval)
  then (c, utils.MaxPacketNumber (lastTargetCongestionWindow c) (estimatedTCPcongestionWindow c))
  else
    let c := MkCubic (numConnections c) (epoch c) (appLimitedStartTime c) now
      currentCongestionWindow (lastMaxCongestionWindow c) acked (estimatedTCPcongestionWindow c)
      (originPointCongestionWindow c) (timeToOriginPoint c) (lastTargetCongestionWindow c) in
    let c := startEpoch c currentCongestionWindow now in
    let target := cubicTarget c delayMin now in
    let '(acked, est) := estimateLoop (S (Z.to_nat (ackedPacketsCount c + numConnections c))) (numConnections c)
      (ackedPacketsCount c) (estimatedTCPcongestionWindow c) in
    (MkCubic (numConnections c) (epoch c) (appLimitedStartTime c) (lastUpdateTime c)
       (lastCongestionWindow c) (lastMaxCongestionWindow c) acked est
       (originPointCongestionWindow c) (timeToOriginPoint c) target,
     if target <? est then est else target).

Definition SetNumConnections (c : Cubic) (n : Z) : Cubic :=
  MkCubic n (epoch c) (appLimitedStartTime c) (lastUpdateTime c) (lastCongestionWindow c)
    (lastMaxCongestionWindow c) (ackedPacketsCount c) (estimatedTCPcongestionWindow c)
    (originPointCongestionWindow c) (timeToOriginPoint c) (lastTargetCongestionWindow c).

End cubic.

(** ** The part of cubic_sender.go that olia_sender.go repeats *)
Module window.
Import hybrid_slow_start prr_sender.

Definition maxBurstBytes : Z := 3 * protocol.DefaultTCPMSS.
Definition defaultMinimumCongestionWindow : Z := 2.
Definition renoBeta : float := fdiv float32 (of_int float32 7) (of_int float32 10).

Record window := MkWindow {
  hybridSlowStart : HybridSlowStart;
  prr : PrrSender;
  stats : connectionStats;
  largestSentPacketNumber : Z;
  largestAckedPacketNumber : Z;
  largestSentAtLastCutback : Z;
  congestionWindow : Z;
  slowstartThreshold : Z;
  lastCutbackExitedSlowstart : bool;
  slowStartLargeReduction : bool;
  minCongestionWindow : Z;
  maxTCPCongestionWindow : Z;
  numConnections : Z;
  congestionWindowCount : Z;
  initialCongestionWindow : Z;
  initialMaxCongestionWindow : Z;
}.

Definition set_hybridSlowStart (v : HybridSlowStart) (c : window) : window :=
  MkWindow v (prr c) (stats c) (largestSentPacketNumber c) (largestAckedPacketNumber c)
    (largestSentAtLastCutback c) (congestionWindow c) (slowstartThreshold c) (lastCutbackExitedSlowstart c)
    (slowStartLargeReduction c) (minCongestionWindow c) (maxTCPCongestionWindow c) (numConnections c)
    (congestionWindowCount c) (initialCongestionWindow c) (initialMaxCongestionWindow c).
Definition set_prr (v : PrrSender) (c : window) : window :=
  MkWindow (hybridSlowStart c) v (stats c) (largestSentPacketNumber c) (largestAckedPacketNumber c)
    (largestSentAtLastCutback c) (congestionWindow c) (slowstartThreshold c) (lastCutbackExitedSlowstart c)
    (slowStartLargeReduction c) (minCongestionWindow c) (maxTCPCongestionWindow c) (numConnections c)
    (congestionWindowCount c) (initialCongestionWindow c) (initialMaxCongestionWindow c).
Definition set_stats (v : connectionStats) (c : window) : window :=
  MkWindow (hybridSlowStart c) (prr c) v (largestSentPacketNumber c) (largestAckedPacketNumber c)
    (largestSentAtLastCutback c) (congestionWindow c) (slowstartThreshold c) (lastCutbackExitedSlowstart c)
    (slowStartLargeReduction c) (minCongestionWindow c) (maxTCPCongestionWindow c) (numConnections c)
    (congestionWindowCount c) (initialCongestionWindow c) (initialMaxCongestionWindow c).
Definition set_largestSentPacketNumber (v : Z) (c : window) : window :=
  MkWindow (hybridSlowStart c) (prr c) (stats c) v (largestAckedPacketNumber c) (largestSentAtLastCutback c)
    (congestionWindow c) (slowstartThreshold c) (lastCutbackExitedSlowstart c) (slowStartLargeReduction c)
    (minCongestionWindow c) (maxTCPCongestionWindow c) (numConnections c) (congestionWindowCount c)
    (initialCongestionWindow c) (initialMaxCongestionWindow c).
Definition set_largestAckedPacketNumber (v : Z) (c : window) : window :=
  MkWindow (hybridSlowStart c) (prr c) (stats c) (largestSentPacketNumber c) v (largestSentAtLastCutback c)
    (congestionWindow c) (slowstartThreshold c) (lastCutbackExitedSlowstart c) (slowStartLargeReduction c)
    (minCongestionWindow c) (maxTCPCongestionWindow c) (numConnections c) (congestionWindowCount c)
    (initialCongestionWindow c) (initialMaxCongestionWindow c).
Definition set_largestSentAtLastCutback (v : Z) (c : window) : window :=
  MkWindow (hybridSlowStart c) (prr c) (stats c) (largestSentPacketNumber c) (largestAckedPacketNumber c) v
    (congestionWindow c) (slowstartThreshold c) (lastCutbackExitedSlowstart c) (slowStartLargeReduction c)
    (minCongestionWindow c) (maxTCPCongestionWindow c) (numConnections c) (congestionWindowCount c)
    (initialCongestionWindow c) (initialMaxCongestionWindow c).
Definition set_congestionWindow (v : Z) (c : window) : window :=
  MkWindow (hybridSlowStart c) (prr c) (stats c) (largestSentPacketNumber c) (largestAckedPacketNumber c)
    (largestSentAtLastCutback c) v (slowstartThreshold c) (lastCutbackExitedSlowstart c)
    (slowStartLargeReduction c) (minCongestionWindow c) (maxTCPCongestionWindow c) (numConnections c)
    (congestionWindowCount c) (initialCongestionWindow c) (initialMaxCongestionWindow c).
Definition set_slowstartThreshold (v : Z) (c : window) : window :=
  MkWindow (hybridSlowStart c) (prr c) (stats c) (largestSentPacketNumber c) (largestAckedPacketNumber c)
    (largestSentAtLastCutback c) (congestionWindow c) v (lastCutbackExitedSlowstart c)
    (slowStartLargeReduction c) (minCongestionWindow c) (maxTCPCongestionWindow c) (numConnections c)
    (congestionWindowCount c) (initialCongestionWindow c) (initialMaxCongestionWindow c).
Definition set_lastCutbackExitedSlowstart (v : bool) (c : window) : window :=
  MkWindow (hybridSlowStart c) (prr c) (stats c) (largestSentPacketNumber c) (largestAckedPacketNumber c)
    (largestSentAtLastCutback c) (congestionWindow c) (slowstartThreshold c) v (slowStartLargeReduction c)
    (minCongestionWindow c) (maxTCPCongestionWindow c) (numConnections c) (congestionWindowCount c)
    (initialCongestionWindow c) (initialMaxCongestionWindow c).
Definition set_slowStartLargeReduction (v : bool) (c : window) : window :=
  MkWindow (hybridSlowStart c) (prr c) (stats c) (largestSentPacketNumber c) (largestAckedPacketNumber c)
    (largestSentAtLastCutback c) (congestionWindow c) (slowstartThreshold c) (lastCutbackExitedSlowstart c) v
    (minCongestionWindow c) (maxTCPCongestionWindow c) (numConnections c) (congestionWindowCount c)
    (initialCongestionWindow c) (initialMaxCongestionWindow c).
Definition set_maxTCPCongestionWindow (v : Z) (c : window) : window :=
  MkWindow (hybridSlowStart c) (prr c) (stats c) (largestSentPacketNumber c) (largestAckedPacketNumber c)
    (largestSentAtLastCutback c) (congestionWindow c) (slowstartThreshold c) (lastCutbackExitedSlowstart c)
    (slowStartLargeReduction c) (minCongestionWindow c) v (numConnections c) (congestionWindowCount c)
    (initialCongestionWindow c) (initialMaxCongestionWindow c).
Definition set_numConnections (v : Z) (c : window) : window :=
  MkWindow (hybridSlowStart c) (prr c) (stats c) (largestSentPacketNumber c) (largestAckedPacketNumber c)
    (largestSentAtLastCutback c) (congestionWindow c) (slowstartThreshold c) (lastCutbackExitedSlowstart c)
    (slowStartLargeReduction c) (minCongestionWindow c) (maxTCPCongestionWindow c) v (congestionWindowCount c)
    (initialCongestionWindow c) (initialMaxCongestionWindow c).
Definition set_congestionWindowCount (v : Z) (c : window) : window :=
  MkWindow (hybridSlowStart c) (prr c) (stats c) (largestSentPacketNumber c) (largestAckedPacketNumber c)
    (largestSentAtLastCutback c) (congestionWindow c) (slowstartThreshold c) (lastCutbackExitedSlowstart c)
    (slowStartLargeReduction c) (minCongestionWindow c) (maxTCPCongestionWindow c) (numConnections c) v
    (initialCongestionWindow c) (initialMaxCongestionWindow c).

Definition NewWindow (initial initialMax : Z) : window :=
  MkWindow NewHybridSlowStart NewPrrSender (MkStats 0 0) 0 0 0 initial initialMax false false
    defaultMinimumCongestionWindow initialMax cubic.defaultNumConnections 0 initial initialMax.

Definition GetCongestionWindow (c : window) : Z := u64 (congestionWindow c * protocol.DefaultTCPMSS).
Definition GetSlowStartThreshold (c : window) : Z := u64 (slowstartThreshold c * protocol.DefaultTCPMSS).

Definition InRecovery (c : window) : bool :=
  (largestAckedPacketNumber c <=? largestSentAtLastCutback c) && negb (largestAckedPacketNumber c =? 0).

Definition InSlowStart (c : window) : bool := GetCongestionWindow c <? GetSlowStartThreshold c.

Definition TimeUntilSend (c : window) (bytesInFlight : Z) : Z :=
  if InRecovery c then
    prr_sender.TimeUntilSend (prr c) (GetCongestionWindow c) bytesInFlight (GetSlowStartThreshold c)
  else if bytesInFlight <? GetCongestionWindow c then 0
  else utils.InfDuration.

Definition OnPacketSent (c : window) (packetNumber bytes : Z) (isRetransmittable : bool) : window * bool :=
  if negb isRetransmittable then (c, false)
  else
    let c := if InRecovery c then set_prr (prr_sender.OnPacketSent (prr c) bytes) c else c in
    let c := set_largestSentPacketNumber packetNumber c in
    (set_hybridSlowStart (hybrid_slow_start.OnPacketSent (hybridSlowStart c) packetNumber) c, true).

Definition ExitSlowstart (c : window) : window := set_slowstartThreshold (congestionWindow c) c.

Definition MaybeExitSlowStart (c : window) (r : rtt_stats.RTTStats) : window :=
  if InSlowStart c then
    let '(h, exit) := ShouldExitSlowStart (hybridSlowStart c) (rtt_stats.latestRTT r) (rtt_stats.minRTT r)
      (GetCongestionWindow c / protocol.DefaultTCPMSS) in
    let c := set_hybridSlowStart h c in
    if exit then ExitSlowstart c else c
  else c.

Definition isCwndLimited (c : window) (bytesInFlight : Z) : bool :=
  let congestionWindow := GetCongestionWindow c in
  if congestionWindow <=? bytesInFlight then true
  else
    let availableBytes := u64 (congestionWindow - bytesInFlight) in
    let slowStartLimited := InSlowStart c && (congestionWindow / 2 <? bytesInFlight) in
    slowStartLimited || (availableBytes <=? maxBurstBytes).

Definition RenoBeta (c : window) : float :=
  fdiv float32 (fadd float32 (fsub float32 (of_int float32 (numConnections c)) (of_int float32 1)) renoBeta)
    (of_int float32 (numConnections c)).

(** [OnPacketLost] for a packet sent before the last cutback. *)
Definition lateLoss (c : window) (lostBytes : Z) : window :=
  if lastCutbackExitedSlowstart c then
    let st := MkStats (u64 (slowstartPacketsLost (stats c) + 1)) (u64 (slowstartBytesLost (stats c) + lostBytes)) in
    let c := set_stats st c in
    if slowStartLargeReduction c then
      let c :=
        if (slowstartPacketsLost st =? 1) ||
           (u64 (slowstartBytesLost st - lostBytes) / protocol.DefaultTCPMSS <?
            slowstartBytesLost st / protocol.DefaultTCPMSS)
        then set_congestionWindow
               (utils.MaxPacketNumber (u64 (congestionWindow c - 1)) (minCongestionWindow c)) c
        else c in
      set_slowstartThreshold (congestionWindow c) c
    else c
  else c.

(** [OnPacketLost] for a new loss: before the window is cut back, and after that. *)
Definition beginLoss (c : window) (bytesInFlight : Z) : window :=
  let c := set_lastCutbackExitedSlowstart (InSlowStart c) c in
  let c := if InSlowStart c
    then set_stats (MkStats (u64 (slowstartPacketsLost (stats c) + 1)) (slowstartBytesLost (stats c))) c else c in
  set_prr (prr_sender.OnPacketLost (prr c) bytesInFlight) c.

Definition endLoss (c : window) : window :=
  let c := if congestionWindow c <? minCongestionWindow c
    then set_congestionWindow (minCongestionWindow c) c else c in
  let c := set_slowstartThreshold (congestionWindow c) c in
  let c := set_largestSentAtLastCutback (largestSentPacketNumber c) c in
  set_congestionWindowCount 0 c.

(** [OnRetransmissionTimeout] after packets were retransmitted, and
    [OnConnectionMigration]. *)
Definition timeoutWindow (c : window) : window :=
  let c := set_hybridSlowStart (Restart (hybridSlowStart c)) c in
  let c := set_slowstartThreshold (congestionWindow c / 2) c in
  set_congestionWindow (minCongestionWindow c) c.

Definition migrateWindow (c : window) : window :=
  let c := set_hybridSlowStart (Restart (hybridSlowStart c)) c in
  let c := set_prr NewPrrSender c in
  let c := set_largestSentPacketNumber 0 c in
  let c := set_largestAckedPacketNumber 0 c in
  let c := set_largestSentAtLastCutback 0 c in
  let c := set_lastCutbackExitedSlowstart false c in
  let c := set_congestionWindowCount 0 c in
  let c := set_congestionWindow (initialCongestionWindow c) c in
  let c := set_slowstartThreshold (initialMaxCongestionWindow c) c in
  set_maxTCPCongestionWindow (initialMaxCongestionWindow c) c.

Definition BandwidthEstimate (c : window) (r : rtt_stats.RTTStats) : Z :=
  let srtt := rtt_stats.smoothedRTT r in
  if srtt =? 0 then 0 else BandwidthFromDelta (GetCongestionWindow c) srtt.

Definition RetransmissionDelay (r : rtt_stats.RTTStats) : Z :=
  if rtt_stats.smoothedRTT r =? 0 then 0
  else i64 (rtt_stats.smoothedRTT r + i64 (rtt_stats.meanDeviation r * 4)).

End window.

(** ** cubic_sender.go *)
Module cubic_sender.
Import window.

Record cubicSender := MkCubicSender { win : window; cubic : cubic.Cubic; reno : bool }.

Definition set_win (w : window) (c : cubicSender) : cubicSender := MkCubicSender w (cubic c) (reno c).
Definition set_cubic (k : cubic.Cubic) (c : cubicSender) : cubicSender := MkCubicSender (win c) k (reno c).

Definition NewCubicSender (reno : bool) (initial initialMax : Z) : cubicSender :=
  MkCubicSender (NewWindow initial initialMax) cubic.NewCubic reno.

Definition TimeUntilSend (c : cubicSender) (bytesInFlight : Z) : Z := window.TimeUntilSend (win c) bytesInFlight.
Definition GetCongestionWindow (c : cubicSender) : Z := window.GetCongestionWindow (win c).
Definition BandwidthEstimate (c : cubicSender) (r : rtt_stats.RTTStats) : Z := window.BandwidthEstimate (win c) r.
Definition RetransmissionDelay (r : rtt_stats.RTTStats) : Z := window.RetransmissionDelay r.
Definition SmoothedRTT (r : rtt_stats.RTTStats) : Z := rtt_stats.smoothedRTT r.

Definition OnPacketSent (c : cubicSender) (packetNumber bytes : Z) (isRetransmittable : bool) : cubicSender * bool :=
  let '(w, b) := window.OnPacketSent (win c) packetNumber bytes isRetransmittable in (set_win w c, b).

Definition MaybeExitSlowStart (c : cubicSender) (r : rtt_stats.RTTStats) : cubicSender :=
  set_win (window.MaybeExitSlowStart (win c) r) c.

Definition maybeIncreaseCwnd (c : cubicSender) (r : rtt_stats.RTTStats) (now bytesInFlight : Z) : cubicSender :=
  let w := win c in
  if negb (isCwndLimited w bytesInFlight) then set_cubic (cubic.OnApplicationLimited (cubic c) now) c
  else if maxTCPCongestionWindow w <=? congestionWindow w then c
  else if InSlowStart w then set_win (set_congestionWindow (u64 (congestionWindow w + 1)) w) c
  else if reno c then
    let w := set_congestionWindowCount (u64 (congestionWindowCount w + 1)) w in
    set_win
      (if congestionWindow w <=? u64 (congestionWindowCount w * u64 (numConnections w))
       then set_congestionWindowCount 0 (set_congestionWindow (u64 (congestionWindow w + 1)) w) else w) c
  else
    let '(k, v) := cubic.CongestionWindowAfterAck (cubic c) (congestionWindow w) (rtt_stats.minRTT r) now in
    set_win (set_congestionWindow (utils.MinPacketNumber (maxTCPCongestionWindow w) v) w) (set_cubic k c).

Definition OnPacketAcked (c : cubicSender) (r : rtt_stats.RTTStats)
    (now ackedPacketNumber ackedBytes bytesInFlight : Z) : cubicSender :=
  let w := win c in
  let w := set_largestAckedPacketNumber
    (utils.MaxPacketNumber ackedPacketNumber (largestAckedPacketNumber w)) w in
  if InRecovery w then set_win (set_prr (prr_sender.OnPacketAcked (prr w) ackedBytes) w) c
  else
    let c := maybeIncreaseCwnd (set_win w c) r now bytesInFlight in
    let w := win c in
    if InSlowStart w
    then set_win (set_hybridSlowStart (hybrid_slow_start.OnPacketAcked (hybridSlowStart w) ackedPacketNumber) w) c
    else c.

Definition OnPacketLost (c : cubicSender) (packetNumber lostBytes bytesInFlight : Z) : cubicSender :=
  let w := win c in
  if packetNumber <=? largestSentAtLastCutback w then set_win (lateLoss w lostBytes) c
  else
    let w := beginLoss w bytesInFlight in
    if slowStartLargeReduction w && InSlowStart w then
      set_win (endLoss (set_congestionWindow (u64 (congestionWindow w - 1)) w)) c
    else if reno c then
      set_win (endLoss (set_congestionWindow
        (to_uint64 (fmul float32 (of_int float32 (congestionWindow w)) (RenoBeta w))) w)) c
    else
      let '(k, v) := cubic.CongestionWindowAfterPacketLoss (cubic c) (congestionWindow w) in
      set_win (endLoss (set_congestionWindow v w)) (set_cubic k c).

Definition SetNumEmulatedConnections (c : cubicSender) (n : Z) : cubicSender :=
  let n := utils.Max n 1 in
  set_win (set_numConnections n (win c)) (set_cubic (cubic.SetNumConnections (cubic c) n) c).

Definition OnRetransmissionTimeout (c : cubicSender) (packetsRetransmitted : bool) : cubicSender :=
  let c := set_win (set_largestSentAtLastCutback 0 (win c)) c in
  if negb packetsRetransmitted then c
  else set_win (timeoutWindow (win c)) (set_cubic (cubic.Reset (cubic c)) c).

Definition OnConnectionMigration (c : cubicSender) : cubicSender :=
  set_win (migrateWindow (win c)) (set_cubic (cubic.Reset (cubic c)) c).

Definition SetSlowStartLargeReduction (c : cubicSender) (enabled : bool) : cubicSender :=
  set_win (set_slowStartLargeReduction enabled (win c)) c.

End cubic_sender.

(** ** The float factors *)

Section factors.
Import cubic.

(** The number of connections that a sender may emulate here. *)
Definition maxEmulated : Z := 256.

(** A positive float, as its mantissa and exponent. *)
Definition parts_of (f : float) : option (Z * Z) :=
  match f with SpecFloat.S754_finite false m e => Some (Zpos m, e) | _ => None end.

Lemma parts_within f m e : parts_of f = Some (m, e) → -149 <= e → within float32 f m m e.
Proof.
  destruct f as [| | |[] p e']; try done. intros [= <- <-] He. split; [done|]. lia.
Qed.

(** [beta_of n] is at most one, [alpha_of n] between one half and [n]. *)
Definition factors_ok (n : Z) : bool :=
  match parts_of (beta_of n), parts_of (alpha_of n) with
  | Some (m, e), Some (m', e') =>
      (-149 <=? e) && (e <=? 0) && (m <=? 2 ^ (- e)) &&
      (-149 <=? e') && (e' <=? 0) && (2 ^ (- e') <=? 2 * m') && (m' <=? n * 2 ^ (- e'))
  | _, _ => false
  end.

Lemma factors_checked : forallb factors_ok (seqZ 1 maxEmulated) = true.
Proof. vm_compute. reflexivity. Qed.

Lemma factors_spec n :
  1 <= n <= maxEmulated →
  (∃ m e, within float32 (beta_of n) m m e ∧ 0 < m <= 2 ^ (- e) ∧ -149 <= e <= 0) ∧
  (∃ m e, within float32 (alpha_of n) m m e ∧ 2 ^ (- e) <= 2 * m ∧ 0 < m <= n * 2 ^ (- e) ∧ -149 <= e <= 0).
Proof.
  intros Hn. pose proof factors_checked as H. rewrite forallb_forall in H.
  specialize (H n). rewrite <- list_elem_of_In, elem_of_seqZ in H. specialize (H ltac:(lia)).
  unfold factors_ok in H.
  destruct (parts_of (beta_of n)) as [[m e]|] eqn:Eb; [|done].
  destruct (parts_of (alpha_of n)) as [[m' e']|] eqn:Ea; [|done].
  rewrite !andb_true_iff, !Z.leb_le in H. destruct H as ((((((?&?)&?)&?)&?)&?)&?).
  split; [exists m, e|exists m', e'].
  all: split; [by apply parts_within|].
  all: assert (0 < m) by (destruct (beta_of n) as [| | |[] p ?]; try done; by injection Eb as <- <-).
  all: assert (0 < m') by (destruct (alpha_of n) as [| | |[] p ?]; try done; by injection Ea as <- <-).
  all: lia.
Qed.

(** A cutback does not increase the window. *)
Lemma cut_bound n w : 1 <= n <= maxEmulated → 0 <= w <= 2 ^ 24 →
  0 <= to_uint64 (fmul float32 (of_int float32 w) (beta_of n)) <= w.
Proof.
  intros Hn Hw. destruct (factors_spec n Hn) as [(m & e & Hb & Hm & He) _].
  apply (within_to_uint64 float32); [|lia|lia].
  apply (within_mono float32 _ (0 * 0) (w * 1)); [|lia|lia].
  change 0 with (0 + 0) at 3. apply (fmul_within float32 sane_float32); try lia.
  - apply of_int32_within; lia.
  - apply (within_unshift float32 _ _ _ _ (- e)); [lia|]. replace (0 - - e) with e by lia.
    eapply within_mono; [exact Hb|lia|lia].
  - apply bound_ok_float32; lia.
Qed.

(** Reno increases its window of [est] packets after at least [est / n] of them. *)
Lemma required_bound n est M : 1 <= n <= maxEmulated → 1 <= est <= 2 ^ 23 → 0 < M → M * n <= est →
  M <= requiredAckCount n est <= 2 * est.
Proof.
  intros Hn Hest HM HMn. destruct (factors_spec n Hn) as [_ (m & e & Ha & Hm1 & Hm2 & He)].
  pose proof (pow2_pos (- e) ltac:(lia)) as Hp.
  apply (within_to_uint64 float32); [|lia|lia].
  replace 0 with (e - e) by lia.
  apply (fdiv_within float32 sane_float32 _ _ (est * 2 ^ (- e)) (est * 2 ^ (- e)) e m m e); try nia.
  - replace e with (0 - - e) at 3 by lia. apply within_shift; [lia|]. apply of_int32_within; lia.
  - exact Ha.
  - change (M <= 2 ^ 24). nia.
  - replace (e - e) with 0 by lia. apply bound_ok_float32; lia.
Qed.

End factors.

(** ** CUBIC *)

Section cubic_proofs.
Import cubic.

Lemma requiredAckCount_range n est : 0 <= requiredAckCount n est < 2 ^ 64.
Proof. apply to_uint64_range. Qed.

(** A round takes from [acked], or raises an [est] that is below [n]. *)
Lemma required_small n est :
  1 <= n <= maxEmulated → 1 <= est <= 2 ^ 23 → requiredAckCount n est = 0 → est < n.
Proof.
  intros Hn He H0. destruct (Z.lt_ge_cases est n); [done|].
  pose proof (required_bound n est 1 Hn He ltac:(lia) ltac:(lia)). lia.
Qed.

Lemma estimateLoop_spec fuel n acked est :
  1 <= n <= maxEmulated → 0 <= acked → 1 <= est → Z.max est maxEmulated + acked <= 2 ^ 23 →
  acked + Z.max 0 (n - est) < Z.of_nat fuel →
  ∃ acked' est', estimateLoop fuel n acked est = (acked', est') ∧
    0 <= acked' < requiredAckCount n est' ∧ est <= est' ∧
    Z.max est' maxEmulated + acked' <= Z.max est maxEmulated + acked ∧
    ∀ more, estimateLoop (fuel + more) n acked est = (acked', est').
Proof.
  intros Hn. revert acked est. induction fuel as [|fuel IH]; intros acked est Ha He Hp Hf; [lia|].
  cbn [estimateLoop plus]. pose proof (requiredAckCount_range n est).
  destruct (Z.ltb_spec acked (requiredAckCount n est)) as [Hlt|Hge].
  { exists acked, est. split; [done|]. split; [done|]. split; [lia|]. split; [lia|]. done. }
  rewrite (u64_id (acked - requiredAckCount n est)), (u64_id (est + 1)) by (unfold is_u64; lia).
  assert (requiredAckCount n est = 0 → est < n) as Hs by (apply required_small; lia).
  destruct (IH (acked - requiredAckCount n est) (est + 1)) as (a' & e' & E & H1 & H2 & H3 & H4); [lia..|].
  exists a', e'. split; [done|]. split; [done|]. split; [lia|]. split; [lia|]. done.
Qed.

(** The loop that follows Reno's window ends by its own test, and no more fuel would
    change its result, for every number of emulated connections up to 256 and every
    estimate and count of acknowledgements below 2^22: the count that is left is less
    than what the new estimate requires, and the estimate has not gone down. *)
Theorem estimate_loop_ends n acked est :
  1 <= n <= maxEmulated → 0 <= acked <= 2 ^ 22 → 1 <= est <= 2 ^ 22 →
  ∃ acked' est', estimateLoop (S (Z.to_nat (acked + n))) n acked est = (acked', est') ∧
    0 <= acked' < requiredAckCount n est' ∧ est <= est' ∧
    ∀ more, estimateLoop (S (Z.to_nat (acked + n)) + more) n acked est = (acked', est').
Proof.
  intros Hn Ha He. unfold maxEmulated in Hn.
  destruct (estimateLoop_spec (S (Z.to_nat (acked + n))) n acked est) as (a' & e' & E & H1 & H2 & _ & H4);
    [done|lia|lia|unfold maxEmulated; lia|lia|]. eauto 10.
Qed.

Lemma cbrt_bits_spec bits k x :
  0 <= k → k * k * k <= x → x < (k + 2 ^ Z.of_nat bits) * (k + 2 ^ Z.of_nat bits) * (k + 2 ^ Z.of_nat bits) →
  let r := cbrt_bits bits k x in k <= r ∧ r * r * r <= x < (r + 1) * (r + 1) * (r + 1).
Proof.
  revert k. induction bits as [|b IH]; intros k Hk Hlo Hhi; [cbn in *; lia|].
  cbn [cbrt_bits]. cbv zeta. rewrite Nat2Z.inj_succ, Z.pow_succ_r in Hhi by lia.
  pose proof (pow2_pos (Z.of_nat b) ltac:(lia)). set (p := 2 ^ Z.of_nat b) in *.
  destruct (Z.leb_spec ((k + p) * (k + p) * (k + p)) x) as [Hle|Hgt].
  - destruct (IH (k + p)) as [? ?]; [lia|done| |lia]. by replace (k + p + p) with (k + 2 * p) by lia.
  - apply IH; done.
Qed.

Lemma cbrt_spec x : 0 <= x < 2 ^ 66 → 0 <= cbrt x ∧ cbrt x * cbrt x * cbrt x <= x < (cbrt x + 1) * (cbrt x + 1) * (cbrt x + 1).
Proof. intros Hx. apply cbrt_bits_spec; [lia|lia|]. cbn. lia. Qed.

(** The cubic function of the CUBIC paper in the units of the code: windows in packets,
    times in 2^-10 seconds, the inflection point [origin] at time [K]. *)
Definition curve (origin K t : Z) : Z :=
  if K <? t then origin + 410 * (t - K) ^ 3 / 2 ^ 40 else origin - 410 * (K - t) ^ 3 / 2 ^ 40.

Lemma curve_mono origin K t t' : 0 <= t → t <= t' → curve origin K t <= curve origin K t'.
Proof.
  intros Ht Htt. unfold curve.
  destruct (Z.ltb_spec K t), (Z.ltb_spec K t').
  - assert (410 * (t - K) ^ 3 / 2 ^ 40 <= 410 * (t' - K) ^ 3 / 2 ^ 40); [|lia].
    apply Z.div_le_mono; [lia|]. apply Z.mul_le_mono_nonneg_l; [lia|]. apply Z.pow_le_mono_l. lia.
  - lia.
  - assert (0 <= 410 * (K - t) ^ 3 / 2 ^ 40) by (apply Z.div_pos; [apply Z.mul_nonneg_nonneg; [lia|]; apply Z.pow_nonneg|]; lia).
    assert (0 <= 410 * (t' - K) ^ 3 / 2 ^ 40) by (apply Z.div_pos; [apply Z.mul_nonneg_nonneg; [lia|]; apply Z.pow_nonneg|]; lia).
    lia.
  - assert (410 * (K - t') ^ 3 / 2 ^ 40 <= 410 * (K - t) ^ 3 / 2 ^ 40); [|lia].
    apply Z.div_le_mono; [lia|]. apply Z.mul_le_mono_nonneg_l; [lia|]. apply Z.pow_le_mono_l. lia.
Qed.

(** The time since the epoch in 2^-10 seconds. *)
Definition elapsed (d : Z) : Z := d / 1000 * 1024 / 1000000.

Lemma elapsed_mono d d' : d <= d' → elapsed d <= elapsed d'.
Proof.
  intros. unfold elapsed. apply Z.div_le_mono; [lia|]. apply Z.mul_le_mono_nonneg_r; [lia|].
  apply Z.div_le_mono; lia.
Qed.

Lemma elapsed_range d : 0 <= d <= 256 * time.Second → 0 <= elapsed d <= 2 ^ 18.
Proof.
  unfold time.Second. intros. split; [apply (elapsed_mono 0); lia|].
  transitivity (elapsed (256 * 1000000000)); [apply elapsed_mono; lia|done].
Qed.

Lemma offset_cube o : 0 <= o <= 2 ^ 18 →
  u64 (Z.shiftr (i64 (cubeCongestionWindowScale * o * o * o)) cubeScale) = 410 * o ^ 3 / 2 ^ 40 ∧
  0 <= 410 * o ^ 3 / 2 ^ 40 < 2 ^ 23.
Proof.
  intros Ho. unfold cubeCongestionWindowScale, cubeScale.
  assert (0 <= o ^ 3 <= 2 ^ 54) as H3.
  { split; [apply Z.pow_nonneg; lia|]. change (2 ^ 54) with ((2 ^ 18) ^ 3). apply Z.pow_le_mono_l. lia. }
  replace (410 * o * o * o) with (410 * o ^ 3) by ring. generalize dependent (o ^ 3). intros v Hv.
  assert (i64 (410 * v) = 410 * v) as -> by zlia. rewrite Z.shiftr_div_pow2 by lia.
  assert (0 <= 410 * v / 2 ^ 40 < 2 ^ 23) by (split; [apply Z.div_pos|apply Z.div_lt_upper_bound]; lia).
  split; [zlia|done].
Qed.

Lemma cubicTarget_curve c d now :
  let e := now + d - epoch c in let K := timeToOriginPoint c in let t := elapsed e in
  0 <= e <= 256 * time.Second → 0 <= K <= 2 ^ 18 → 0 <= originPointCongestionWindow c <= 2 ^ 32 →
  0 <= curve (originPointCongestionWindow c) K t →
  cubicTarget c d now = curve (originPointCongestionWindow c) K t.
Proof.
  intros e K t He HK Ho Hc. unfold cubicTarget. pose proof (elapsed_range e He) as Ht. fold t in Ht.
  assert (Z.quot (i64 (Z.quot (time.Sub (time.Add now d) (epoch c)) time.Microsecond * 1024)) 1000000 = t) as ->.
  { unfold time.Sub, time.Add, time.Microsecond, t, elapsed. fold e. unfold time.Second in He.
    rewrite Z.min_r, Z.max_r by lia. rewrite (Z.quot_div_nonneg e) by lia.
    assert (0 <= e / 1000 <= 256000000) by (split; [apply Z.div_pos|apply Z.div_le_upper_bound]; lia).
    assert (i64 (e / 1000 * 1024) = e / 1000 * 1024) as -> by (unfold i64; rewrite Z.mod_small; lia).
    apply Z.quot_div_nonneg; lia. }
  fold K. clearbody t K e. cbv zeta.
  assert (i64 (K - t) = K - t) as -> by (unfold i64; rewrite Z.mod_small; lia).
  unfold curve in *. destruct (Z.ltb_spec (K - t) 0) as [Hlt|Hge], (Z.ltb_spec K t) as [|]; try lia.
  - assert (i64 (- (K - t)) = t - K) as -> by (unfold i64; rewrite Z.mod_small; lia).
    destruct (offset_cube (t - K)) as [-> ?]; [lia|]. apply u64_id. unfold is_u64. lia.
  - destruct (offset_cube (K - t)) as [-> ?]; [lia|]. apply u64_id. unfold is_u64. lia.
Qed.

Lemma originTime_spec D : 0 <= D <= 2 ^ 20 →
  0 <= originTime D <= 2 ^ 18 ∧ 410 * originTime D ^ 3 <= 2 ^ 40 * D.
Proof.
  intros HD. unfold originTime. assert (cubeFactor = 2681735677) as -> by reflexivity.
  rewrite (u64_id D), (u64_id (2681735677 * D)) by (unfold is_u64; lia).
  destruct (within_trunc float64 (of_int float64 (2681735677 * D)) (2681735677 * D) (2681735677 * D)) as (v & -> & Hv).
  { apply (of_int_within float64 sane_float64); [lia|lia| |done]. change (2681735677 * D <= 2 ^ 53). lia. }
  change (default 0 (Some v)) with v.
  destruct (cbrt_spec v) as [K0 [K1 _]]; [lia|]. generalize dependent (cbrt v). intros K K0 K1.
  assert (K <= 2 ^ 18) as K2.
  { destruct (Z.le_gt_cases K (2 ^ 18)); [done|].
    assert (2 ^ 18 * 2 ^ 18 * 2 ^ 18 <= K * K * K) by nia. lia. }
  rewrite u32_id by (unfold is_u32; lia). split; [lia|].
  replace (K ^ 3) with (K * K * K) by ring. lia.
Qed.

Lemma startEpoch_origin c cur now :
  epoch c = 0 → 0 <= cur <= 2 ^ 20 → 0 <= lastMaxCongestionWindow c <= 2 ^ 20 →
  let c1 := startEpoch c cur now in
  epoch c1 = now ∧ originPointCongestionWindow c1 = Z.max cur (lastMaxCongestionWindow c) ∧
  let K := timeToOriginPoint c1 in
  0 <= K <= 2 ^ 18 ∧ 410 * K ^ 3 <= 2 ^ 40 * (originPointCongestionWindow c1 - cur).
Proof.
  intros He Hc Hm. unfold startEpoch. rewrite He. cbn [time.IsZero Z.eqb epoch originPointCongestionWindow timeToOriginPoint].
  split; [done|]. destruct (Z.leb_spec (lastMaxCongestionWindow c) cur) as [Hle|Hgt].
  { split; [lia|]. split; lia. }
  split; [lia|]. apply originTime_spec. lia.
Qed.

(** The first acknowledgement after a loss starts an epoch, and for 256 seconds from
    then the window that CUBIC aims at is the cubic function of the time elapsed, with
    its inflection point at the larger of the current window and the window before the
    loss: it never lies below the current window, does not go down with time, and meets
    the inflection point exactly when the time to it has passed. Neither the shifts nor
    the unsigned subtraction overflow. *)
Theorem cubic_curve_correct c cur now0 now now' d :
  epoch c = 0 → 0 <= cur <= 2 ^ 20 → 0 <= lastMaxCongestionWindow c <= 2 ^ 20 → 0 <= d →
  now0 <= now <= now' → now' + d - now0 <= 256 * time.Second →
  let c1 := startEpoch c cur now0 in
  let origin := Z.max cur (lastMaxCongestionWindow c) in
  cubicTarget c1 d now = curve origin (timeToOriginPoint c1) (elapsed (now + d - now0)) ∧
  cur <= cubicTarget c1 d now <= cubicTarget c1 d now' ∧
  (elapsed (now + d - now0) = timeToOriginPoint c1 → cubicTarget c1 d now = origin).
Proof.
  intros He Hc Hm Hd Hn Hn'. destruct (startEpoch_origin c cur now0 He Hc Hm) as (E1 & E2 & HK & HK3).
  intros c1 origin. fold c1 in E1, E2, HK, HK3. fold origin in E2. set (K := timeToOriginPoint c1) in *.
  assert (cur <= curve origin K 0) as H0.
  { unfold curve. destruct (Z.ltb_spec K 0); [lia|]. rewrite Z.sub_0_r. rewrite E2 in HK3.
    assert (410 * K ^ 3 / 2 ^ 40 <= origin - cur); [apply Z.div_le_upper_bound; lia|lia]. }
  assert (∀ n, now0 <= n <= now' → cubicTarget c1 d n = curve origin K (elapsed (n + d - now0)) ∧
    cur <= curve origin K (elapsed (n + d - now0))) as H.
  { intros n Hnn. pose proof (elapsed_range (n + d - now0) ltac:(lia)).
    assert (cur <= curve origin K (elapsed (n + d - now0))).
    { etrans; [exact H0|]. apply curve_mono; lia. }
    split; [|done]. unfold K. rewrite <- E2, <- E1. apply cubicTarget_curve; rewrite ?E1.
    - lia.
    - done.
    - rewrite E2. unfold origin. lia.
    - rewrite E2. fold K. lia. }
  destruct (H now) as [-> ?]; [lia|]. destruct (H now') as [-> ?]; [lia|].
  split; [done|]. split.
  - split; [done|]. apply curve_mono; [apply elapsed_range; lia|]. apply elapsed_mono. lia.
  - intros ->. unfold curve. rewrite Z.ltb_irrefl, Z.sub_diag. cbn. lia.
Qed.

End cubic_proofs.

(** ** The CUBIC sender *)

Section sender_proofs.
Import window cubic_sender.

(** The limits of a window: at least [lo], at most [M] packets. *)
Record win_ok (lo M : Z) (w : window) : Prop := {
  wo_min : minCongestionWindow w = 2;
  wo_init : 2 <= initialCongestionWindow w <= M;
  wo_initMax : initialMaxCongestionWindow w = M;
  wo_max : maxTCPCongestionWindow w = M;
  wo_cwnd : lo <= congestionWindow w <= M;
  wo_thresh : 0 <= slowstartThreshold w <= M;
  wo_conns : 1 <= numConnections w <= maxEmulated;
}.

(** The estimate of Reno's window is at least 2 once it is used, and bounded by the
    acknowledgements counted, at most [B]. *)
Record cubic_ok (B : Z) (k : cubic.Cubic) : Prop := {
  co_acked : 0 <= cubic.ackedPacketsCount k;
  co_bound : Z.max (cubic.estimatedTCPcongestionWindow k) maxEmulated + cubic.ackedPacketsCount k <= B;
  co_est : cubic.epoch k = 0 ∧ cubic.lastCongestionWindow k = 0 ∨ 2 <= cubic.estimatedTCPcongestionWindow k;
  co_conns : 1 <= cubic.numConnections k <= maxEmulated;
}.

Lemma startEpoch_counts k cur now :
  let k' := cubic.startEpoch k cur now in
  cubic.numConnections k' = cubic.numConnections k ∧
  (cubic.epoch k = 0 ∧ cubic.ackedPacketsCount k' = 1 ∧ cubic.estimatedTCPcongestionWindow k' = cur ∨
   cubic.epoch k ≠ 0 ∧ cubic.ackedPacketsCount k' = cubic.ackedPacketsCount k ∧
   cubic.estimatedTCPcongestionWindow k' = cubic.estimatedTCPcongestionWindow k).
Proof.
  unfold cubic.startEpoch, time.IsZero. destruct (Z.eqb_spec (cubic.epoch k) 0); [|destruct negb]; cbn; auto.
Qed.

Lemma afterAck_ok B M k cur d now :
  cubic_ok B k → 2 <= cur <= M → M + maxEmulated + 1 <= B → B + 1 <= 2 ^ 23 →
  let '(k', v) := cubic.CongestionWindowAfterAck k cur d now in cubic_ok (B + 1) k' ∧ 2 <= v.
Proof.
  intros [Ha Hb He Hn] Hc HB HB'. unfold cubic.CongestionWindowAfterAck.
  unfold maxEmulated in *.
  rewrite u64_id by (unfold is_u64; lia).
  cbn [cubic.lastCongestionWindow cubic.lastUpdateTime cubic.lastTargetCongestionWindow
       cubic.estimatedTCPcongestionWindow].
  match goal with |- context [if ?b then _ else _] => destruct b eqn:Eq end.
  { rewrite andb_true_iff, Z.eqb_eq in Eq. split.
    - split; cbn; unfold maxEmulated; lia.
    - unfold utils.MaxPacketNumber. case_match; lia. }
  clear Eq. match goal with |- context [cubic.startEpoch ?k0 cur now] => set (k1 := k0) end.
  destruct (startEpoch_counts k1 cur now) as [En Hs]. set (k2 := cubic.startEpoch k1 cur now) in *.
  cbn in En, Hs. clearbody k2.
  assert (2 <= cubic.estimatedTCPcongestionWindow k2 ∧ 1 <= cubic.ackedPacketsCount k2 ∧
    Z.max (cubic.estimatedTCPcongestionWindow k2) 256 + cubic.ackedPacketsCount k2 <= B + 1) as (He2 & Ha2 & Hp2) by lia.
  destruct (estimateLoop_spec (S (Z.to_nat (cubic.ackedPacketsCount k2 + cubic.numConnections k2)))
    (cubic.numConnections k2) (cubic.ackedPacketsCount k2) (cubic.estimatedTCPcongestionWindow k2))
    as (a & e & -> & H1 & H2 & H3 & _); unfold maxEmulated in *; [lia..|].
  split; [split; cbn; unfold maxEmulated; lia|]. case_match; lia.
Qed.
Lemma win_ok_bytes lo M w : 0 <= lo → M <= 2 ^ 20 → win_ok lo M w →
  window.GetCongestionWindow w = congestionWindow w * 1460 ∧ GetSlowStartThreshold w = slowstartThreshold w * 1460.
Proof.
  intros Hlo HM []. unfold window.GetCongestionWindow, GetSlowStartThreshold, protocol.DefaultTCPMSS.
  split; apply u64_id; unfold is_u64; lia.
Qed.

(** Updates of the fields that the limits do not mention. *)
Lemma win_ok_set_prr lo M w v : win_ok lo M w → win_ok lo M (set_prr v w).
Proof. intros []. by split. Qed.
Lemma win_ok_set_stats lo M w v : win_ok lo M w → win_ok lo M (set_stats v w).
Proof. intros []. by split. Qed.
Lemma win_ok_set_hybrid lo M w v : win_ok lo M w → win_ok lo M (set_hybridSlowStart v w).
Proof. intros []. by split. Qed.
Lemma win_ok_set_sent lo M w v : win_ok lo M w → win_ok lo M (set_largestSentPacketNumber v w).
Proof. intros []. by split. Qed.
Lemma win_ok_set_acked lo M w v : win_ok lo M w → win_ok lo M (set_largestAckedPacketNumber v w).
Proof. intros []. by split. Qed.
Lemma win_ok_set_cutback lo M w v : win_ok lo M w → win_ok lo M (set_largestSentAtLastCutback v w).
Proof. intros []. by split. Qed.
Lemma win_ok_set_exited lo M w v : win_ok lo M w → win_ok lo M (set_lastCutbackExitedSlowstart v w).
Proof. intros []. by split. Qed.
Lemma win_ok_set_large lo M w v : win_ok lo M w → win_ok lo M (set_slowStartLargeReduction v w).
Proof. intros []. by split. Qed.
Lemma win_ok_set_count lo M w v : win_ok lo M w → win_ok lo M (set_congestionWindowCount v w).
Proof. intros []. by split. Qed.
Lemma win_ok_set_cwnd lo M w v : win_ok lo M w → lo <= v <= M → win_ok lo M (set_congestionWindow v w).
Proof. intros [] ?. by split. Qed.
Lemma win_ok_set_thresh lo M w v : win_ok lo M w → 0 <= v <= M → win_ok lo M (set_slowstartThreshold v w).
Proof. intros [] ?. by split. Qed.
Lemma win_ok_set_conns lo M w v : win_ok lo M w → 1 <= v <= maxEmulated → win_ok lo M (set_numConnections v w).
Proof. intros [] ?. by split. Qed.

#[local] Hint Resolve win_ok_set_prr win_ok_set_stats win_ok_set_hybrid win_ok_set_sent win_ok_set_acked
  win_ok_set_cutback win_ok_set_exited win_ok_set_large win_ok_set_count win_ok_set_cwnd win_ok_set_thresh
  win_ok_set_conns : quic.

Lemma win_ok_sent lo M w pn bytes b : win_ok lo M w → win_ok lo M (window.OnPacketSent w pn bytes b).1.
Proof. intros. unfold window.OnPacketSent. repeat case_match; cbn [fst]; auto with quic. Qed.

Lemma win_ok_exit lo M w r : 0 <= lo → win_ok lo M w → win_ok lo M (window.MaybeExitSlowStart w r).
Proof.
  intros Hlo H. unfold window.MaybeExitSlowStart. repeat case_match; auto with quic.
  unfold ExitSlowstart. apply win_ok_set_thresh; [auto with quic|]. destruct H. cbn. lia.
Qed.

Lemma win_ok_begin lo M w bif : win_ok lo M w → win_ok lo M (beginLoss w bif).
Proof. intros. unfold beginLoss. cbv zeta. case_match; auto with quic. Qed.

(** After a loss the window is the reduced one, or the minimum. *)
Lemma win_ok_end lo M w v : 0 <= lo <= 2 → 2 <= M → win_ok lo M w → 0 <= v <= M →
  win_ok lo M (endLoss (set_congestionWindow v w)) ∧
  congestionWindow (endLoss (set_congestionWindow v w)) = Z.max 2 v.
Proof.
  intros Hlo HM [] Hv. unfold endLoss. cbn [set_congestionWindow congestionWindow minCongestionWindow].
  rewrite wo_min0. destruct (Z.ltb_spec v 2).
  - split; [split; try done; cbn; lia|cbn; lia].
  - split; [split; try done; cbn; lia|cbn; lia].
Qed.

Lemma win_ok_late lo M w lost : 1 <= lo <= 2 → 2 <= M <= 2 ^ 20 → win_ok lo M w → win_ok lo M (lateLoss w lost).
Proof.
  intros Hlo HM H. unfold lateLoss. cbv zeta.
  destruct (lastCutbackExitedSlowstart w); [|done].
  set (w1 := set_stats _ w). assert (win_ok lo M w1) as H1 by (unfold w1; auto with quic).
  clearbody w1. destruct (slowStartLargeReduction w1); [|done].
  match goal with |- context [if ?b then _ else w1] => destruct b end.
  - destruct H1. unfold utils.MaxPacketNumber. rewrite wo_min0.
    rewrite u64_id by (unfold is_u64; lia).
    split; try done; cbn; case_match; rewrite ?Z.ltb_lt, ?Z.ltb_ge in *; lia.
  - destruct H1. split; try done; cbn; lia.
Qed.

(** The calls that change a sender. *)
Inductive cubic_op :=
  | CSent (packetNumber bytes : Z) (isRetransmittable : bool)
  | CAcked (r : rtt_stats.RTTStats) (now packetNumber bytes bytesInFlight : Z)
  | CLost (packetNumber bytes bytesInFlight : Z)
  | CExit (r : rtt_stats.RTTStats)
  | CTimeout (packetsRetransmitted : bool)
  | CMigrate
  | CEmulate (n : Z)
  | CLarge (enabled : bool).

Definition cubic_step (c : cubicSender) (o : cubic_op) : cubicSender :=
  match o with
  | CSent pn bytes b => (OnPacketSent c pn bytes b).1
  | CAcked r now pn bytes bif => OnPacketAcked c r now pn bytes bif
  | CLost pn bytes bif => OnPacketLost c pn bytes bif
  | CExit r => MaybeExitSlowStart c r
  | CTimeout b => OnRetransmissionTimeout c b
  | CMigrate => OnConnectionMigration c
  | CEmulate n => SetNumEmulatedConnections c n
  | CLarge b => SetSlowStartLargeReduction c b
  end.

Definition op_ok (o : cubic_op) : Prop := match o with CEmulate n => n <= maxEmulated | _ => True end.

Record cubic_inv (M B : Z) (c : cubicSender) : Prop := {
  ci_win : win_ok 2 M (win c);
  ci_cubic : cubic_ok B (cubic c);
}.

Section steps.
Context (M B : Z) (HM : 2 <= M <= 2 ^ 20) (HB : M + maxEmulated + 1 <= B) (HB' : B + 1 <= 2 ^ 23).

Lemma cubic_ok_more k : cubic_ok B k → cubic_ok (B + 1) k.
Proof. intros []. split; try done. lia. Qed.

Lemma reset_ok k : cubic_ok B k → cubic_ok B (cubic.Reset k).
Proof. intros []. split; cbn; unfold maxEmulated in *; try lia; auto. Qed.

Lemma increase_inv c r now bif : cubic_inv M B c → cubic_inv M (B + 1) (maybeIncreaseCwnd c r now bif).
Proof.
  intros [Hw Hk]. pose proof (cubic_ok_more _ Hk) as Hk'. unfold maybeIncreaseCwnd.
  destruct (isCwndLimited (win c) bif); cbn [negb]; [|split; [done|]].
  2: { unfold cubic.OnApplicationLimited. destruct Hk'. case_match; by split. }
  destruct (Z.leb_spec (maxTCPCongestionWindow (win c)) (congestionWindow (win c))); [by split|].
  assert (u64 (congestionWindow (win c) + 1) = congestionWindow (win c) + 1 ∧
    2 <= congestionWindow (win c) + 1 <= M) as [Eu Hc] by (destruct Hw; rewrite u64_id; unfold is_u64; lia).
  destruct (InSlowStart (win c)); [split; [|done]; rewrite Eu; cbn [win set_win]; auto with quic|].
  destruct (reno c); cbv zeta.
  - split; [|done]. cbn [set_win win]. case_match; [|auto with quic].
    cbn [congestionWindow set_congestionWindowCount]. rewrite Eu. auto with quic.
  - pose proof (afterAck_ok B M (cubic c) (congestionWindow (win c)) (rtt_stats.minRTT r) now Hk) as Ha.
    destruct (cubic.CongestionWindowAfterAck _ _ _ _) as [k v].
    destruct Ha as [Ha Hv]; [destruct Hw; lia|done|done|]. split; [|done].
    apply win_ok_set_cwnd; [done|]. destruct Hw. unfold utils.MinPacketNumber. case_match; lia.
Qed.

Lemma acked_inv c r now pn bytes bif :
  cubic_inv M B c → cubic_inv M (B + 1) (OnPacketAcked c r now pn bytes bif).
Proof.
  intros [Hw Hk]. unfold OnPacketAcked. cbv zeta. set (w := set_largestAckedPacketNumber _ (win c)).
  assert (win_ok 2 M w) as Hw1 by (unfold w; auto with quic). clearbody w.
  destruct (InRecovery w).
  { split; [cbn; auto with quic|by apply cubic_ok_more]. }
  assert (cubic_inv M (B + 1) (maybeIncreaseCwnd (set_win w c) r now bif)) as [H1 H2]
    by (by apply increase_inv).
  case_match; split; cbn; auto with quic.
Qed.

Lemma lost_inv c pn bytes bif : cubic_inv M B c → cubic_inv M B (OnPacketLost c pn bytes bif).
Proof.
  intros [Hw Hk]. unfold OnPacketLost. destruct (Z.leb_spec pn (largestSentAtLastCutback (win c))).
  { split; [|done]. apply win_ok_late; [lia|lia|done]. }
  cbv zeta. pose proof (win_ok_begin 2 M (win c) bif Hw) as Hb. set (w := beginLoss (win c) bif) in *.
  assert (2 <= congestionWindow w <= M) as Hc by (by destruct Hb). clearbody w.
  assert (∀ n, 1 <= n <= maxEmulated →
    0 <= to_uint64 (fmul float32 (of_int float32 (congestionWindow w)) (cubic.beta_of n)) <= M) as Hcut.
  { intros n Hn. pose proof (cut_bound n (congestionWindow w) Hn ltac:(lia)). lia. }
  destruct (slowStartLargeReduction w && InSlowStart w); [|destruct (reno c)].
  - split; [|done]. apply win_ok_end; [lia|lia|done|]. rewrite u64_id; unfold is_u64; lia.
  - split; [|done]. apply win_ok_end; [lia|lia|done|]. apply Hcut. by destruct Hb.
  - unfold cubic.CongestionWindowAfterPacketLoss. split.
    + apply win_ok_end; [lia|lia|done|]. apply Hcut. by destruct Hk.
    + destruct Hk. cbn. split; try done. cbn. destruct co_est0 as [[_ ?]|?]; auto.
Qed.

Definition is_ack (o : cubic_op) : bool := match o with CAcked _ _ _ _ _ => true | _ => false end.

Lemma other_inv c o : op_ok o → is_ack o = false → cubic_inv M B c → cubic_inv M B (cubic_step c o).
Proof.
  intros Ho Ha H. pose proof (ci_cubic _ _ _ H) as Hk. pose proof (ci_win _ _ _ H) as Hw.
  destruct o as [pn bytes b|r now pn bytes bif|pn bytes bif|r|b| |n|b]; try done; cbn [cubic_step].
  - unfold OnPacketSent. pose proof (win_ok_sent 2 M (win c) pn bytes b Hw).
    destruct (window.OnPacketSent _ _ _ _). by split.
  - by apply lost_inv.
  - split; [|done]. apply win_ok_exit; [lia|done].
  - unfold OnRetransmissionTimeout. destruct b; cbn [negb]; cbv zeta; split; cbn [win cubic set_win set_cubic].
    + destruct Hw. unfold timeoutWindow. split; try done; cbn; [lia|].
      split; [apply Z.div_pos|apply Z.div_le_upper_bound]; lia.
    + by apply reset_ok.
    + auto with quic.
    + done.
  - split; cbn.
    + destruct Hw. unfold migrateWindow. split; try done; cbn; lia.
    + by apply reset_ok.
  - cbn in Ho. assert (1 <= utils.Max n 1 <= maxEmulated) as Hn.
    { unfold utils.Max, maxEmulated in *. case_match; rewrite ?Z.ltb_lt, ?Z.ltb_ge in *; lia. }
    split; cbn; [auto with quic|]. destruct Hk. by split.
  - split; cbn; auto with quic.
Qed.

Lemma cubic_step_inv c o : op_ok o → cubic_inv M B c → cubic_inv M (B + 1) (cubic_step c o).
Proof.
  intros Ho H. destruct (is_ack o) eqn:Ha; [destruct o; try done; by apply acked_inv|].
  destruct (other_inv c o Ho Ha H). split; [done|by apply cubic_ok_more].
Qed.
End steps.

Lemma cubic_run_inv M ops c B :
  2 <= M <= 2 ^ 20 → M + maxEmulated + 1 <= B → B + len ops <= 2 ^ 23 → Forall op_ok ops →
  cubic_inv M B c → cubic_inv M (B + len ops) (foldl cubic_step c ops).
Proof.
  intros HM HB. revert c B HB. induction ops as [|o ops IH]; intros c B HB HB' Ho H; cbn [foldl].
  { by replace (B + len (@nil cubic_op)) with B by (unfold len; cbn; lia). }
  rewrite Forall_cons in Ho. destruct Ho as [Ho Hos]. rewrite len_cons in *. pose proof (len_nonneg ops).
  replace (B + (1 + len ops)) with (B + 1 + len ops) by lia.
  apply IH; [lia|lia|done|]. apply cubic_step_inv; [done|done|lia|done|done].
Qed.

Lemma cubic_inv_init M reno initial :
  2 <= initial <= M → cubic_inv M (M + maxEmulated + 1) (NewCubicSender reno initial M).
Proof.
  intros. split; (split; cbn; unfold maxEmulated, cubic.defaultNumConnections, time.zero; try lia). done.
Qed.

(** C14: The congestion window of a CUBIC or Reno sender never leaves its limits: from a
    new sender with an initial window of at least two packets and a maximum of at most
    2^20, whatever calls are made (packets sent, acknowledged and lost in any order,
    exits from slow start, timeouts, migrations, changes of the number of emulated
    connections up to 256 and of the large reduction), fewer than 2^22 of them, the
    window stays between 2 packets and the maximum, the slow start threshold does not
    exceed the maximum, and their values in bytes do not overflow. *)
Theorem cubic_window_bounded M reno initial ops :
  2 <= initial <= M → M <= 2 ^ 20 → len ops < 2 ^ 22 → Forall op_ok ops →
  let w := win (foldl cubic_step (NewCubicSender reno initial M) ops) in
  2 <= congestionWindow w <= M ∧ 0 <= slowstartThreshold w <= M ∧
  window.GetCongestionWindow w = congestionWindow w * protocol.DefaultTCPMSS ∧
  GetSlowStartThreshold w = slowstartThreshold w * protocol.DefaultTCPMSS.
Proof.
  intros Hi HM Hl Ho w. unfold maxEmulated in *.
  destruct (cubic_run_inv M ops (NewCubicSender reno initial M) (M + maxEmulated + 1)) as [Hw _];
    try done; unfold maxEmulated; try lia.
  { by apply cubic_inv_init. }
  fold w in Hw. destruct (win_ok_bytes 2 M w) as [E1 E2]; [lia|lia|done|]. by destruct Hw.
Qed.

(** *** Losses *)

(** With two emulated connections a cutback is by 15 percent, to the packet. *)
Lemma cut_checked :
  forallb (λ w, to_uint64 (fmul float32 (of_int float32 w) (cubic.beta_of 2)) =? 17 * w / 20)
    (seqZ 0 (protocol.DefaultMaxCongestionWindow + 1)) = true.
Proof. vm_compute. reflexivity. Qed.

Lemma cut_exact w : 0 <= w <= protocol.DefaultMaxCongestionWindow →
  to_uint64 (fmul float32 (of_int float32 w) (cubic.beta_of 2)) = 17 * w / 20.
Proof.
  intros Hw. pose proof cut_checked as H. rewrite forallb_forall in H. specialize (H w).
  rewrite <- list_elem_of_In, elem_of_seqZ, Z.eqb_eq in H. apply H. lia.
Qed.

(** What a loss does, with two emulated connections and windows up to the default
    maximum. A packet sent before the last cutback changes neither the window nor the
    threshold nor the state of CUBIC. Another loss cuts the window to 85 percent, rounded
    down, but to no less than two packets, makes this the slow start threshold, resets
    Reno's count and the rate reduction (which remembers the bytes in flight), and takes
    the largest packet sent so far as the end of the recovery: every packet up to that one
    then counts as sent before the cutback. *)
Theorem cubic_loss_correct c pn bytes bif :
  win_ok 2 protocol.DefaultMaxCongestionWindow (win c) → slowStartLargeReduction (win c) = false →
  numConnections (win c) = 2 → cubic.numConnections (cubic c) = 2 →
  let c' := OnPacketLost c pn bytes bif in
  (pn <= largestSentAtLastCutback (win c) →
     congestionWindow (win c') = congestionWindow (win c) ∧
     slowstartThreshold (win c') = slowstartThreshold (win c) ∧ cubic c' = cubic c) ∧
  (largestSentAtLastCutback (win c) < pn →
     congestionWindow (win c') = Z.max 2 (17 * congestionWindow (win c) / 20) ∧
     slowstartThreshold (win c') = congestionWindow (win c') ∧
     congestionWindowCount (win c') = 0 ∧ prr (win c') = prr_sender.MkPrr 0 0 0 bif ∧
     largestSentAtLastCutback (win c') = largestSentPacketNumber (win c) ∧
     InRecovery (win c') = (largestAckedPacketNumber (win c) <=? largestSentPacketNumber (win c)) &&
                           negb (largestAckedPacketNumber (win c) =? 0)).
Proof.
  intros Hw Hl Hn Hk c'. unfold c', OnPacketLost.
  destruct (Z.leb_spec pn (largestSentAtLastCutback (win c))) as [Hpn|Hpn]; (split; [intros _|lia] || (split; [lia|intros _])).
  { unfold lateLoss. cbn [win set_win cubic]. case_match; [|done].
    cbn [slowStartLargeReduction set_stats]. rewrite Hl. done. }
  cbv zeta. set (w := beginLoss (win c) bif).
  assert (congestionWindow w = congestionWindow (win c) ∧ slowStartLargeReduction w = false ∧
    numConnections w = 2 ∧ minCongestionWindow w = 2 ∧ prr w = prr_sender.MkPrr 0 0 0 bif ∧
    largestSentPacketNumber w = largestSentPacketNumber (win c) ∧
    largestAckedPacketNumber w = largestAckedPacketNumber (win c)) as (E1 & E2 & E3 & E4 & E5 & E6 & E7).
  { destruct Hw. unfold w, beginLoss. cbv zeta. case_match; done. }
  clearbody w. rewrite E2. cbn [andb]. unfold cubic.CongestionWindowAfterPacketLoss, RenoBeta.
  rewrite E1, E3, Hk. cbv zeta.
  change (fdiv float32 (fadd float32 (fsub float32 (of_int float32 2) (of_int float32 1)) renoBeta) (of_int float32 2))
    with (cubic.beta_of 2).
  rewrite cut_exact by (destruct Hw; lia).
  set (v := 17 * congestionWindow (win c) / 20).
  assert (∀ k, let c1 := set_win (endLoss (set_congestionWindow v w)) k in
    congestionWindow (win c1) = Z.max 2 v ∧ slowstartThreshold (win c1) = congestionWindow (win c1) ∧
    congestionWindowCount (win c1) = 0 ∧ prr (win c1) = prr_sender.MkPrr 0 0 0 bif ∧
    largestSentAtLastCutback (win c1) = largestSentPacketNumber (win c) ∧
    InRecovery (win c1) = (largestAckedPacketNumber (win c) <=? largestSentPacketNumber (win c)) &&
                           negb (largestAckedPacketNumber (win c) =? 0)) as H.
  { intros k. unfold endLoss, InRecovery. cbn [set_congestionWindow congestionWindow minCongestionWindow].
    rewrite E4. destruct (Z.ltb_spec v 2); cbn; rewrite ?E5, ?E6, ?E7; split_and!; lia || done. }
  destruct (reno c); apply H.
Qed.

(** The state without the statistics, which nothing but the large reduction reads. *)
Definition no_stats (c : cubicSender) : cubicSender := set_win (set_stats (MkStats 0 0) (win c)) c.

(** Packets sent, acknowledged, and lost packets up to [high]. *)
Definition in_round (high : Z) (o : cubic_op) : Prop :=
  match o with
  | CSent _ _ _ | CAcked _ _ _ _ _ | CExit _ => True
  | CLost pn _ _ => pn <= high
  | _ => False
  end.

Definition is_loss (o : cubic_op) : bool := match o with CLost _ _ _ => true | _ => false end.

Lemma no_stats_sent c pn bytes b : cubic_step (no_stats c) (CSent pn bytes b) = no_stats (cubic_step c (CSent pn bytes b)).
Proof.
  destruct c as [w k r]. unfold cubic_step, OnPacketSent, window.OnPacketSent. destruct b; [|done].
  cbn [negb no_stats win set_win]. change (InRecovery (set_stats (MkStats 0 0) w)) with (InRecovery w).
  by destruct (InRecovery w).
Qed.

Lemma no_stats_exit c r : cubic_step (no_stats c) (CExit r) = no_stats (cubic_step c (CExit r)).
Proof.
  destruct c as [w k rn]. unfold cubic_step, MaybeExitSlowStart, window.MaybeExitSlowStart.
  cbn [no_stats win set_win cubic reno]. change (InSlowStart (set_stats (MkStats 0 0) w)) with (InSlowStart w).
  destruct (InSlowStart w); [|done].
  change (hybridSlowStart (set_stats (MkStats 0 0) w)) with (hybridSlowStart w).
  change (window.GetCongestionWindow (set_stats (MkStats 0 0) w)) with (window.GetCongestionWindow w).
  destruct (hybrid_slow_start.ShouldExitSlowStart _ _ _ _) as [h []]; done.
Qed.

Lemma no_stats_increase c r now bif :
  maybeIncreaseCwnd (no_stats c) r now bif = no_stats (maybeIncreaseCwnd c r now bif).
Proof.
  destruct c as [w k rn]. unfold maybeIncreaseCwnd. cbn [no_stats win set_win cubic reno].
  set (w0 := set_stats (MkStats 0 0) w).
  change (isCwndLimited w0 bif) with (isCwndLimited w bif).
  change (InSlowStart w0) with (InSlowStart w).
  change (maxTCPCongestionWindow w0) with (maxTCPCongestionWindow w).
  change (congestionWindow w0) with (congestionWindow w).
  destruct (isCwndLimited w bif); [|done]. cbn [negb].
  destruct (maxTCPCongestionWindow w <=? congestionWindow w); [done|].
  destruct (InSlowStart w); [done|]. destruct rn.
  - cbv zeta.
    change (congestionWindow (set_congestionWindowCount (u64 (congestionWindowCount w0 + 1)) w0) <=?
      u64 (congestionWindowCount (set_congestionWindowCount (u64 (congestionWindowCount w0 + 1)) w0) *
       u64 (numConnections (set_congestionWindowCount (u64 (congestionWindowCount w0 + 1)) w0))))
      with (congestionWindow w <=? u64 (u64 (congestionWindowCount w + 1) * u64 (numConnections w))).
    change (congestionWindow (set_congestionWindowCount (u64 (congestionWindowCount w + 1)) w) <=?
      u64 (congestionWindowCount (set_congestionWindowCount (u64 (congestionWindowCount w + 1)) w) *
       u64 (numConnections (set_congestionWindowCount (u64 (congestionWindowCount w + 1)) w))))
      with (congestionWindow w <=? u64 (u64 (congestionWindowCount w + 1) * u64 (numConnections w))).
    by destruct (_ <=? _).
  - by destruct (cubic.CongestionWindowAfterAck _ _ _ _).
Qed.

Lemma no_stats_acked c r now pn bytes bif :
  cubic_step (no_stats c) (CAcked r now pn bytes bif) = no_stats (cubic_step c (CAcked r now pn bytes bif)).
Proof.
  unfold cubic_step, OnPacketAcked. cbv zeta.
  set (w := set_largestAckedPacketNumber _ (win c)).
  change (set_largestAckedPacketNumber _ (win (no_stats c))) with (set_stats (MkStats 0 0) w).
  change (InRecovery (set_stats (MkStats 0 0) w)) with (InRecovery w).
  destruct (InRecovery w); [done|].
  change (set_win (set_stats (MkStats 0 0) w) (no_stats c)) with (no_stats (set_win w c)).
  rewrite no_stats_increase. set (c1 := maybeIncreaseCwnd (set_win w c) r now bif).
  change (InSlowStart (win (no_stats c1))) with (InSlowStart (win c1)).
  by destruct (InSlowStart (win c1)).
Qed.

(** What the operations of a round trip leave alone. *)
Definition round_of (c : cubicSender) : Z * bool * bool :=
  (largestSentAtLastCutback (win c), lastCutbackExitedSlowstart (win c), slowStartLargeReduction (win c)).

(** The option that makes losses after the exit from slow start count one by one applies. *)
Definition reduces_further (c : cubicSender) : bool :=
  lastCutbackExitedSlowstart (win c) && slowStartLargeReduction (win c).

Lemma round_increase c r now bif : round_of (maybeIncreaseCwnd c r now bif) = round_of c.
Proof.
  unfold maybeIncreaseCwnd. cbv zeta. repeat case_match; done.
Qed.

Lemma round_step c o : in_round (largestSentAtLastCutback (win c)) o →
  round_of (cubic_step c o) = round_of c.
Proof.
  intros Ho. destruct o as [pn bytes b|r now pn bytes bif|pn bytes bif|r| | | |]; try done; cbn [cubic_step].
  - unfold OnPacketSent, window.OnPacketSent. destruct b; [|done]. cbn [negb]. by destruct (InRecovery (win c)).
  - unfold OnPacketAcked. cbv zeta. set (w := set_largestAckedPacketNumber _ (win c)).
    assert (round_of (set_win w c) = round_of c) as E by done. clearbody w.
    destruct (InRecovery w); [by rewrite <- E|]. rewrite <- E, <- (round_increase (set_win w c) r now bif).
    by destruct (InSlowStart _).
  - cbn in Ho. unfold OnPacketLost. rewrite (proj2 (Z.leb_le _ _) Ho). unfold lateLoss. cbv zeta.
    repeat case_match; done.
  - unfold MaybeExitSlowStart, window.MaybeExitSlowStart. repeat case_match; done.
Qed.

Lemma late_loss_ignored c pn bytes bif :
  pn <= largestSentAtLastCutback (win c) → reduces_further c = false →
  no_stats (cubic_step c (CLost pn bytes bif)) = no_stats c.
Proof.
  intros Hp Hl. cbn [cubic_step]. unfold OnPacketLost. rewrite (proj2 (Z.leb_le _ _) Hp).
  unfold reduces_further in Hl. unfold lateLoss. cbv zeta. destruct (lastCutbackExitedSlowstart (win c)); [|done].
  cbn [slowStartLargeReduction set_stats]. cbn in Hl. by rewrite Hl.
Qed.

Lemma no_stats_step c o high : in_round high o → is_loss o = false →
  cubic_step (no_stats c) o = no_stats (cubic_step c o).
Proof.
  destruct o; try done; intros; [apply no_stats_sent|apply no_stats_acked|apply no_stats_exit].
Qed.

Lemma no_stats_idem c : no_stats (no_stats c) = no_stats c.
Proof. done. Qed.

Lemma no_stats_run ops high c : Forall (in_round high) ops → Forall (λ o, is_loss o = false) ops →
  foldl cubic_step (no_stats c) ops = no_stats (foldl cubic_step c ops).
Proof.
  revert c. induction ops as [|o ops IH]; intros c Hr Hl; [done|].
  rewrite Forall_cons in Hr, Hl. cbn. rewrite (no_stats_step c o high) by apply Hr || apply Hl. apply IH; naive_solver.
Qed.

Lemma losses_ignored ops c : reduces_further c = false → Forall (in_round (largestSentAtLastCutback (win c))) ops →
  no_stats (foldl cubic_step c ops) =
  no_stats (foldl cubic_step c (List.filter (λ o, negb (is_loss o)) ops)).
Proof.
  revert c. induction ops as [|o ops IH]; intros c Hl Hr; [done|].
  rewrite Forall_cons in Hr. destruct Hr as [Ho Hr].
  pose proof (round_step c o Ho) as [= E1 E2 E3].
  cbn [foldl List.filter]. rewrite IH by (unfold reduces_further in *; rewrite ?E1, ?E2, ?E3; done).
  destruct (is_loss o) eqn:Eo; cbn [negb]; [|done].
  destruct o; try done. set (l := List.filter _ ops).
  assert (Forall (in_round (largestSentAtLastCutback (win c))) l ∧ Forall (λ o, is_loss o = false) l) as [L1 L2].
  { unfold l. split; apply Forall_forall; intros o; rewrite list_elem_of_In, filter_In, <- list_elem_of_In.
    - rewrite Forall_forall in Hr. intros [? ?]. by apply Hr.
    - by intros [_ ?%negb_true_iff]. }
  rewrite <- !(no_stats_run l _ _ L1 L2), late_loss_ignored; done.
Qed.

(** The bytes of the lost packets. *)
Definition lost_bytes (ops : list cubic_op) : Z :=
  foldr (λ o n, match o with CLost _ bytes _ => bytes + n | _ => n end) 0 ops.

(** A lost packet of at most one segment. *)
Definition small_loss (o : cubic_op) : Prop :=
  match o with CLost _ bytes _ => 0 <= bytes <= protocol.DefaultTCPMSS | _ => False end.

(** The counters of lost packets and bytes do not overflow; the cutback out of slow start has counted
    its own packet. *)
Definition counters_fit (c : cubicSender) (ops : list cubic_op) : Prop :=
  1 <= slowstartPacketsLost (stats (win c)) ∧ slowstartPacketsLost (stats (win c)) + len ops < 2 ^ 64 ∧
  0 <= slowstartBytesLost (stats (win c)) ∧ slowstartBytesLost (stats (win c)) + lost_bytes ops < 2 ^ 64.

Definition segments_lost (c : cubicSender) (ops : list cubic_op) : Z :=
  (slowstartBytesLost (stats (win c)) + lost_bytes ops) / protocol.DefaultTCPMSS -
  slowstartBytesLost (stats (win c)) / protocol.DefaultTCPMSS.

Lemma lost_bytes_nonneg ops : Forall small_loss ops → 0 <= lost_bytes ops.
Proof. induction 1 as [|o ops Ho _ IH]; [done|]. destruct o as [| |pn bytes bif| | | | |]; try done.
  change (0 <= bytes + lost_bytes ops). cbn in Ho. lia. Qed.

Lemma segment_crossed b l : 0 <= l <= 1460 → (b + l) / 1460 = b / 1460 + (if b / 1460 <? (b + l) / 1460 then 1 else 0).
Proof.
  intros Hl. destruct (Z.ltb_spec (b / 1460) ((b + l) / 1460)); Z.to_euclidean_division_equations; lia.
Qed.

Lemma further_loss c pn bytes bif : pn <= largestSentAtLastCutback (win c) → reduces_further c = true →
  counters_fit c [CLost pn bytes bif] → 0 <= bytes <= protocol.DefaultTCPMSS →
  1 <= minCongestionWindow (win c) <= congestionWindow (win c) → congestionWindow (win c) < 2 ^ 64 →
  let c' := cubic_step c (CLost pn bytes bif) in
  congestionWindow (win c') = Z.max (minCongestionWindow (win c)) (congestionWindow (win c) - segments_lost c [CLost pn bytes bif]) ∧
  slowstartThreshold (win c') = congestionWindow (win c') ∧
  stats (win c') = MkStats (slowstartPacketsLost (stats (win c)) + 1) (slowstartBytesLost (stats (win c)) + bytes) ∧
  minCongestionWindow (win c') = minCongestionWindow (win c).
Proof.
  intros Hp Hf (H1 & H2 & H3 & H4) Hb Hmin Hw c'. unfold segments_lost. cbn [lost_bytes foldr] in *. rewrite Z.add_0_r in *.
  change (len [_]) with 1 in H2. unfold c'. cbn [cubic_step]. unfold OnPacketLost. rewrite (proj2 (Z.leb_le _ _) Hp).
  unfold reduces_further in Hf. apply andb_true_iff in Hf as [Hx Hl]. unfold lateLoss. rewrite Hx. cbv zeta. cbn [slowStartLargeReduction set_stats]. rewrite Hl.
  cbn [win set_win]. set (w := win c) in *. clearbody w. unfold protocol.DefaultTCPMSS in *.
  set (pl := slowstartPacketsLost (stats w)) in *. set (bl := slowstartBytesLost (stats w)) in *.
  assert (u64 (pl + 1) = pl + 1) as E1 by (apply u64_id; unfold is_u64; lia).
  assert (u64 (bl + bytes) = bl + bytes) as E2 by (apply u64_id; unfold is_u64; lia). rewrite E1, E2.
  cbn [slowstartPacketsLost slowstartBytesLost]. replace (bl + bytes - bytes) with bl by lia.
  rewrite (u64_id bl) by (unfold is_u64; lia). assert (pl + 1 =? 1 = false) as -> by lia. cbn [orb].
  pose proof (segment_crossed bl bytes Hb) as Es. destruct (bl / 1460 <? (bl + bytes) / 1460);
    repeat split; cbn; try done; unfold utils.MaxPacketNumber; rewrite ?(u64_id (congestionWindow w - 1)) by (unfold is_u64; lia).
  - case_match; lia.
  - lia.
Qed.

Lemma further_losses ops c : reduces_further c = true → Forall (in_round (largestSentAtLastCutback (win c))) ops →
  Forall small_loss ops → counters_fit c ops →
  1 <= minCongestionWindow (win c) <= congestionWindow (win c) → congestionWindow (win c) < 2 ^ 64 →
  congestionWindow (win (foldl cubic_step c ops)) =
    Z.max (minCongestionWindow (win c)) (congestionWindow (win c) - segments_lost c ops).
Proof.
  revert c. induction ops as [|o ops IH]; intros c Hf Hr Hs (H1 & H2 & H3 & H4) Hmin Hw.
  { unfold segments_lost. cbn. rewrite Z.add_0_r. lia. }
  apply Forall_cons in Hr as [Ho Hr], Hs as [Hso Hs]. destruct o as [| |pn bytes bif| | | | |]; try done. cbn [in_round small_loss] in Ho, Hso.
  pose proof (lost_bytes_nonneg ops Hs) as Hlb. pose proof (len_nonneg ops) as Hlen.
  assert (lost_bytes (CLost pn bytes bif :: ops) = bytes + lost_bytes ops) as El by done. rewrite El in H4.
  assert (len (CLost pn bytes bif :: ops) = 1 + len ops) as En by (unfold len; cbn; lia). rewrite En in H2.
  pose proof (round_step c (CLost pn bytes bif) Ho) as [= E1 E2 E3].
  destruct (further_loss c pn bytes bif Ho Hf) as (Ec & _ & Est & Em); [|done|done|done|].
  { unfold counters_fit. change (len [_]) with 1. cbn [lost_bytes foldr]. repeat split; lia. }
  cbn [foldl]. set (c' := cubic_step c (CLost pn bytes bif)) in *.
  assert (segments_lost c [CLost pn bytes bif] = (slowstartBytesLost (stats (win c)) + bytes) / protocol.DefaultTCPMSS -
    slowstartBytesLost (stats (win c)) / protocol.DefaultTCPMSS) as Es by (unfold segments_lost; cbn [lost_bytes foldr]; by rewrite Z.add_0_r).
  pose proof (segment_crossed (slowstartBytesLost (stats (win c))) bytes Hso) as Hx. unfold protocol.DefaultTCPMSS in *.
  assert (0 <= segments_lost c [CLost pn bytes bif]) as Hge by (rewrite Es; case_match; lia).
  rewrite IH.
  - rewrite Ec, Em, Es. unfold segments_lost. rewrite Est, El. cbn [slowstartBytesLost]. unfold protocol.DefaultTCPMSS.
    rewrite !Z.add_assoc. pose proof (Z.div_le_mono (slowstartBytesLost (stats (win c)) + bytes)
      (slowstartBytesLost (stats (win c)) + bytes + lost_bytes ops) 1460). lia.
  - unfold reduces_further, c'. cbn [cubic_step]. by rewrite E2, E3.
  - unfold c'. cbn [cubic_step]. by rewrite E1.
  - done.
  - unfold counters_fit. rewrite Est. cbn [slowstartPacketsLost slowstartBytesLost]. repeat split; lia.
  - rewrite Em, Ec. lia.
  - rewrite Ec. lia.
Qed.

(** C15: The window is cut back at most once per round trip. After a cutback, as long as
    only packets that were sent before it are lost, losses have no effect: whatever
    packets are sent and acknowledged in between, the sender (window, threshold, CUBIC,
    rate reduction, slow start) ends in the state that it would have reached without any
    of these losses; only the loss statistics differ. The exception is the option
    SetSlowStartLargeReduction, which is off by default, after a cutback that ended slow start: then a sequence of
    further losses of packets of at most one segment takes one from the window, down to its minimum, for every
    segment of lost bytes (if the counters of the statistics do not overflow and have counted the first loss). *)
Theorem one_cutback_per_round ops c : Forall (in_round (largestSentAtLastCutback (win c))) ops →
  if reduces_further c then
    Forall small_loss ops → counters_fit c ops →
    1 <= minCongestionWindow (win c) <= congestionWindow (win c) → congestionWindow (win c) < 2 ^ 64 →
    congestionWindow (win (foldl cubic_step c ops)) =
      Z.max (minCongestionWindow (win c)) (congestionWindow (win c) - segments_lost c ops)
  else
    no_stats (foldl cubic_step c ops) =
    no_stats (foldl cubic_step c (List.filter (λ o, negb (is_loss o)) ops)).
Proof.
  intros Hr. destruct (reduces_further c) eqn:E; [intros; by apply further_losses|by apply losses_ignored].
Qed.

End sender_proofs.

(** ** Proportional rate reduction *)

Section prr_proofs.
Import prr_sender.

(** During a recovery packets are acknowledged, and sent whenever the reduction allows. *)
Inductive prr_event :=
  | PAck (bytes : Z)
  | PSend (bytes congestionWindow bytesInFlight : Z).

Definition prr_step (ssthresh : Z) (p : PrrSender) (e : prr_event) : PrrSender :=
  match e with
  | PAck b => OnPacketAcked p b
  | PSend b cwnd bif => if TimeUntilSend p cwnd bif ssthresh =? 0 then OnPacketSent p b else p
  end.

Definition prr_event_ok (e : prr_event) : Prop :=
  match e with
  | PAck b => 0 <= b <= protocol.DefaultTCPMSS
  | PSend b _ bif => 0 <= b <= protocol.DefaultTCPMSS ∧ protocol.DefaultTCPMSS <= bif
  end.

(** The limits of RFC 6937, up to one packet. *)
Definition prr_limit (ssthresh : Z) (p : PrrSender) : Prop :=
  let out := bytesSentSinceLoss p - protocol.DefaultTCPMSS in
  out <= 0 ∨ out <= bytesDeliveredSinceLoss p + ackCountSinceLoss p * protocol.DefaultTCPMSS ∨
  out * bytesInFlightBeforeLoss p <= bytesDeliveredSinceLoss p * ssthresh.

Record prr_inv (S F n : Z) (p : PrrSender) : Prop := {
  pi_flight : bytesInFlightBeforeLoss p = F;
  pi_sent : 0 <= bytesSentSinceLoss p <= n * 1460;
  pi_delivered : 0 <= bytesDeliveredSinceLoss p <= n * 1460;
  pi_acks : 0 <= ackCountSinceLoss p <= n;
  pi_limit : prr_limit S p;
}.

Lemma prr_step_inv S F n p e :
  0 <= S <= 2 ^ 24 → 0 <= F <= 2 ^ 24 → 0 <= n < 2 ^ 24 → prr_event_ok e →
  prr_inv S F n p → prr_inv S F (n + 1) (prr_step S p e).
Proof.
  intros HS HF Hn He [E Hs Hd Ha Hl]. unfold prr_event_ok, prr_limit, protocol.DefaultTCPMSS in *.
  destruct e as [b|b cwnd bif]; cbn [prr_step].
  - unfold OnPacketAcked. rewrite !u64_id by (unfold is_u64; lia).
    split; cbn; [done|lia|lia|lia|]. unfold prr_limit, protocol.DefaultTCPMSS. cbn. nia.
  - destruct (Z.eqb_spec (TimeUntilSend p cwnd bif S) 0) as [Ht|]; [|split; (done || lia)].
    assert (bytesSentSinceLoss p = 0 ∨
      bytesSentSinceLoss p < bytesDeliveredSinceLoss p + ackCountSinceLoss p * 1460 ∨
      bytesSentSinceLoss p * F < bytesDeliveredSinceLoss p * S) as Hallow.
    { unfold TimeUntilSend, utils.InfDuration, protocol.DefaultTCPMSS in Ht. rewrite E in Ht.
      destruct (Z.eqb_spec (bytesSentSinceLoss p) 0); [by left|].
      destruct (Z.ltb_spec bif 1460); [lia|]. cbn [orb] in Ht.
      rewrite !u64_id in Ht by (unfold is_u64; nia). repeat case_bool; (done || auto). }
    unfold OnPacketSent. rewrite u64_id by (unfold is_u64; lia).
    split; cbn; [done|lia|lia|lia|]. unfold prr_limit, protocol.DefaultTCPMSS. cbn. rewrite E. nia.
Qed.

(** Proportional rate reduction limits what is sent during a recovery. From a loss
    with [F] bytes in flight, whatever packets of at most one segment are acknowledged
    and sent (whenever [TimeUntilSend] allows it, with at least a segment in flight, at
    any congestion window), the bytes sent exceed by at most one segment either the
    proportional share [delivered * ssthresh / F] or what was delivered plus one segment
    per acknowledgement. *)
Theorem prr_limits_sending S F p0 es :
  0 <= S <= 2 ^ 24 → 0 <= F <= 2 ^ 24 → len es <= 2 ^ 24 → Forall prr_event_ok es →
  prr_limit S (foldl (prr_step S) (OnPacketLost p0 F) es).
Proof.
  intros HS HF Hl He.
  cut (∀ n p, 0 <= n → n + len es <= 2 ^ 24 → prr_inv S F n p → ∃ n', prr_inv S F n' (foldl (prr_step S) p es)).
  { intros H. destruct (H 0 (OnPacketLost p0 F)) as [n' []]; [lia|lia| |done].
    split; cbn; try lia. left. unfold protocol.DefaultTCPMSS. cbn. lia. }
  clear Hl. induction He as [|e es He _ IH]; intros n p Hn Hl Hp; cbn [foldl]; [by exists n|].
  rewrite len_cons in Hl. pose proof (len_nonneg es).
  apply (IH (n + 1)); [lia|lia|]. apply prr_step_inv; (done || lia).
Qed.

End prr_proofs.

(** ** Hybrid slow start *)

Section hybrid_proofs.
Import hybrid_slow_start.

(** One eighth of the minimal RTT, in whole microseconds, between 4 and 16 ms. *)
Definition threshold (m : Z) : Z := Z.max 4000000 (Z.min 16000000 (m / 1000 / 8 * 1000)).

Lemma increaseThreshold_spec m : 0 <= m < 2 ^ 62 → increaseThreshold m = threshold m.
Proof.
  intros Hm. unfold increaseThreshold, threshold, utils.MinInt64, utils.MaxInt64, hybridStartDelayFactorExp,
    hybridStartDelayMinThresholdUs, hybridStartDelayMaxThresholdUs, time.Microsecond.
  rewrite Z.shiftr_div_pow2, Z.quot_div_nonneg by lia. change (2 ^ 3) with 8.
  assert (0 <= m / 1000 / 8 < 2 ^ 62) by (split; [apply Z.div_pos; [apply Z.div_pos|]|apply Z.div_lt_upper_bound;
    [|apply Z.div_lt_upper_bound]]; lia).
  generalize dependent (m / 1000 / 8). intros v Hv.
  repeat case_bool; unfold i64; rewrite Z.mod_small; lia.
Qed.

Definition feed (m w : Z) (s : HybridSlowStart) (rtt : Z) : HybridSlowStart :=
  (ShouldExitSlowStart s rtt m w).1.

(** The least of the first eight samples of a round, 0 if there are none. *)
Definition least8 (l : list Z) : Z :=
  match take 8 l with [] => 0 | x :: l' => foldr Z.min x l' end.

Definition round_state (m : Z) (l : list Z) (s : HybridSlowStart) : Prop :=
  started s = true ∧ hystartFound s = (8 <=? len l) && (m + threshold m <? least8 l) ∧
  (hystartFound s = false → currentMinRTT s = least8 l ∧ rttSampleCount s = len l).

Lemma foldr_min_snoc x0 l x : foldr Z.min x0 (l ++ [x]) = Z.min x (foldr Z.min x0 l).
Proof. induction l as [|y l IH]; cbn; [lia|]. rewrite IH. lia. Qed.

Lemma foldr_min_pos x0 l : 0 < x0 → Forall (λ x, 0 < x) l → 0 < foldr Z.min x0 l.
Proof. intros Hx Hl. induction Hl; cbn; lia. Qed.

Lemma least8_pos l : l ≠ [] → Forall (λ x, 0 < x) l → 0 < least8 l.
Proof.
  intros Hn Hl. destruct l as [|x l]; [done|]. rewrite Forall_cons in Hl. unfold least8. cbn [take].
  apply foldr_min_pos; [apply Hl|]. apply Forall_take, Hl.
Qed.

Lemma least8_snoc l x : Forall (λ x, 0 < x) l →
  least8 (l ++ [x]) =
  if len l <? 8 then (if (least8 l =? 0) || (x <? least8 l) then x else least8 l) else least8 l.
Proof.
  intros Hl. unfold len. destruct (Z.ltb_spec (Z.of_nat (length l)) 8) as [H|H].
  - destruct l as [|y l]; [done|]. pose proof (least8_pos (y :: l) ltac:(done) Hl) as Hp.
    unfold least8 in *. rewrite (take_ge (y :: l)) in * by (cbn in *; lia).
    rewrite take_ge by (rewrite ?length_app; cbn in *; lia).
    cbn [app] in *. rewrite foldr_min_snoc. repeat case_bool; cbn [orb]; lia.
  - unfold least8. rewrite take_app_le by lia. done.
Qed.

Lemma feed_step m w l s x :
  0 <= m < 2 ^ 61 → 0 < x → len l < 2 ^ 32 - 1 → Forall (λ x, 0 < x) l →
  round_state m l s → round_state m (l ++ [x]) (feed m w s x).
Proof.
  intros Hm Hx Hl Hpos (Hs & Hf & Hc). unfold feed, ShouldExitSlowStart. rewrite Hs.
  unfold round_state. rewrite least8_snoc, len_app by done. change (len [x]) with 1.
  destruct (hystartFound s) eqn:Ef.
  { symmetry in Hf. rewrite andb_true_iff, Z.leb_le in Hf. destruct Hf as [H8 Ht]. cbn [fst].
    split; [done|]. split; [|by rewrite Ef]. rewrite Ef.
    destruct (Z.ltb_spec (len l) 8); [lia|]. rewrite Ht. destruct (Z.leb_spec 8 (len l + 1)); [done|lia]. }
  destruct (Hc eq_refl) as [Ec En]. rewrite increaseThreshold_spec by lia. pose proof (len_nonneg l).
  rewrite Ec, En. unfold hybridStartMinSamples.
  assert (u32 (len l + 1) = len l + 1) as -> by (rewrite u32_id; unfold is_u32; lia).
  assert (i64 (m + threshold m) = m + threshold m) as ->.
  { assert (0 <= threshold m <= 16000000) by (unfold threshold; lia). unfold i64. rewrite Z.mod_small; lia. }
  cbn [fst started hystartFound currentMinRTT rttSampleCount].
  split; [done|].
  destruct (Z.ltb_spec (len l) 8) as [H8|H8].
  - destruct (Z.leb_spec (len l + 1) 8); [|lia]. cbn [andb]. split; [|done].
    destruct (Z.eqb_spec (len l + 1) 8), (Z.leb_spec 8 (len l + 1)); (done || lia).
  - destruct (Z.leb_spec (len l + 1) 8); [lia|]. cbn [andb]. split; [|done].
    destruct (Z.eqb_spec (len l + 1) 8); [lia|]. cbn [andb].
    destruct (Z.leb_spec 8 (len l)); [|lia]. cbn [andb] in Hf. rewrite <- Hf. by rewrite andb_false_r.
Qed.

Lemma feed_run m w k l s :
  0 <= m < 2 ^ 61 → Forall (λ x, 0 < x) k → Forall (λ x, 0 < x) l → len k + len l < 2 ^ 32 →
  round_state m k s → round_state m (k ++ l) (foldl (feed m w) s l).
Proof.
  intros Hm Hk Hl. revert k s Hk. induction Hl as [|x l Hx Hl IH]; intros k s Hk Hn Hs; cbn [foldl].
  { by rewrite app_nil_r. }
  rewrite len_cons in Hn. pose proof (len_nonneg l).
  replace (k ++ x :: l) with ((k ++ [x]) ++ l) by (by rewrite <- app_assoc).
  apply IH; [apply Forall_app; auto|rewrite len_app; change (len [x]) with 1; lia|].
  apply feed_step; (done || lia).
Qed.

(** Hybrid slow start judges a round by its first eight round-trip times: at the start
    of a round, whatever samples follow, an increase of the delay is found exactly when
    there were eight and the least of the first eight exceeds the minimal RTT by more than
    an eighth of it, but by at least 4 and at most 16 ms; once it is found, every later
    call asks to exit slow start. *)
Theorem hybrid_round m w s l x :
  0 <= m < 2 ^ 61 → Forall (λ x, 0 < x) l → 0 < len l < 2 ^ 32 → started s = false → hystartFound s = false →
  let s' := foldl (feed m w) s l in
  hystartFound s' = (8 <=? len l) && (m + threshold m <? least8 l) ∧
  (hystartFound s' = true → (ShouldExitSlowStart s' x m w).2 = true).
Proof.
  intros Hm Hpos Hl Hs Hf s'.
  assert (s' = foldl (feed m w) (StartReceiveRound s (lastSentPacketNumber s)) l) as E.
  { unfold s'. destruct l as [|y l]; [unfold len in Hl; cbn in Hl; lia|]. cbn [foldl]. f_equal.
    unfold feed, ShouldExitSlowStart. by rewrite Hs. }
  destruct (feed_run m w [] l (StartReceiveRound s (lastSentPacketNumber s))) as (H1 & H2 & _); try done; [unfold len in *; cbn; lia|..].
  rewrite <- E in H1, H2. split; [done|]. intros H. unfold ShouldExitSlowStart. by rewrite H1, H.
Qed.

End hybrid_proofs.

(** ** The interface of the sent packet handler *)

Section instances.
Context (clock : nat → Z).

(** A sender with the number of readings that it has taken of its clock. *)
Definition clocked : Type := nat * cubic_sender.cubicSender.

#[export] Instance cubic_SendAlgorithm : SendAlgorithm rtt_stats.RTTStats clocked := {
  OnPacketSent '(n, c) r now bif pn bytes b := (n, (cubic_sender.OnPacketSent c pn bytes b).1);
  GetCongestionWindow '(n, c) r := cubic_sender.GetCongestionWindow c;
  MaybeExitSlowStart '(n, c) r := (n, cubic_sender.MaybeExitSlowStart c r);
  OnPacketAcked '(n, c) r pn bytes bif := (S n, cubic_sender.OnPacketAcked c r (clock n) pn bytes bif);
  OnPacketLost '(n, c) r pn bytes bif := (n, cubic_sender.OnPacketLost c pn bytes bif);
  OnRetransmissionTimeout '(n, c) r b := (n, cubic_sender.OnRetransmissionTimeout c b);
  RetransmissionDelay _ r := cubic_sender.RetransmissionDelay r;
  AlgSmoothedRTT _ r := cubic_sender.SmoothedRTT r;
}.
End instances.

(** ** Witnesses *)

Module CongestionExamples.
Import window cubic_sender.

Lemma estimate_loop_ends_witness :
  (1 <= 2 <= maxEmulated ∧ 0 <= 10 <= 2 ^ 22 ∧ 1 <= 2 <= 2 ^ 22) ∧
  (∃ acked' est', cubic.estimateLoop (S (Z.to_nat (10 + 2))) 2 10 2 = (acked', est') ∧
     0 <= acked' < cubic.requiredAckCount 2 est' ∧ 2 <= est' ∧
     ∀ more, cubic.estimateLoop (S (Z.to_nat (10 + 2)) + more) 2 10 2 = (acked', est')) ∧
  cubic.estimateLoop (S (Z.to_nat (10 + 2))) 2 10 2 = (1, 5).
Proof.
  split; [unfold maxEmulated; lia|]. split; [|vm_compute; reflexivity].
  apply (estimate_loop_ends 2 10 2); unfold maxEmulated; lia.
Defined.

(** After a loss that left 85 of 100 packets. *)
Definition lossy : cubic.Cubic := cubic.MkCubic 2 0 0 0 100 100 0 100 100 0 100.

Lemma cubic_curve_correct_witness :
  let c1 := cubic.startEpoch lossy 85 1000 in
  (85 <= cubic.cubicTarget c1 0 (1000 + time.Second) <= cubic.cubicTarget c1 0 (1000 + 5 * time.Second)) ∧
  cubic.cubicTarget c1 0 (1000 + time.Second) = 95 ∧ cubic.cubicTarget c1 0 (1000 + 5 * time.Second) = 101.
Proof.
  split; [|vm_compute; split; reflexivity].
  apply (cubic_curve_correct lossy 85 1000 (1000 + time.Second) (1000 + 5 * time.Second) 0);
    unfold time.Second; (reflexivity || cbn; lia).
Defined.

(** Eight packets sent, two acknowledged, three of the others lost, one more sent. *)
Definition rtts : rtt_stats.RTTStats := rtt_stats.UpdateRTT rtt_stats.NewRTTStats (50 * time.Millisecond) 0 1.
Definition sends : list cubic_op := (λ n, CSent n 1350 true) <$> seqZ 1 8.
Definition acks : list cubic_op := [CAcked rtts 100 1 1350 46720; CAcked rtts 200 2 1350 46720].
Definition losses : list cubic_op := [CLost 3 1350 8100; CLost 4 1350 6750; CSent 9 1350 true; CLost 5 1350 6750].

Definition sender : cubicSender := NewCubicSender false 32 protocol.DefaultMaxCongestionWindow.

Lemma cubic_window_bounded_witness :
  let ops := sends ++ acks ++ losses ++ [CEmulate 4; CLost 9 1350 1350; CTimeout true] in
  Forall op_ok ops ∧
  2 <= congestionWindow (win (foldl cubic_step sender (sends ++ acks ++ losses))) <= protocol.DefaultMaxCongestionWindow ∧
  2 <= congestionWindow (win (foldl cubic_step sender ops)) <= protocol.DefaultMaxCongestionWindow ∧
  congestionWindow (win (foldl cubic_step sender (sends ++ acks))) = 34 ∧
  congestionWindow (win (foldl cubic_step sender (sends ++ acks ++ losses))) = 28.
Proof.
  assert (Forall op_ok (sends ++ acks ++ losses ++ [CEmulate 4; CLost 9 1350 1350; CTimeout true])) as H.
  { unfold sends, acks, losses. repeat (apply Forall_cons_2; [vm_compute; (exact I || congruence)|]). apply Forall_nil_2. }
  split; [exact H|]. split.
  { apply (cubic_window_bounded protocol.DefaultMaxCongestionWindow false 32 (sends ++ acks ++ losses));
      [unfold protocol.DefaultMaxCongestionWindow; lia|vm_compute; congruence|vm_compute; reflexivity|].
    rewrite !Forall_app in H. rewrite !Forall_app. tauto. }
  split; [|vm_compute; split; reflexivity].
  apply (cubic_window_bounded protocol.DefaultMaxCongestionWindow false 32
    (sends ++ acks ++ losses ++ [CEmulate 4; CLost 9 1350 1350; CTimeout true]));
    [unfold protocol.DefaultMaxCongestionWindow; lia|vm_compute; congruence|vm_compute; reflexivity|exact H].
Defined.

Definition grown : cubicSender := foldl cubic_step sender (sends ++ acks).

Lemma cubic_loss_correct_witness :
  let c' := OnPacketLost grown 3 1350 8100 in
  congestionWindow (win c') = Z.max 2 (17 * congestionWindow (win grown) / 20) ∧
  largestSentAtLastCutback (win c') = 8.
Proof.
  destruct (cubic_loss_correct grown 3 1350 8100) as [_ H].
  - split; vm_compute; (reflexivity || split; congruence).
  - vm_compute. reflexivity.
  - vm_compute. reflexivity.
  - vm_compute. reflexivity.
  - destruct H as (H1 & _ & _ & _ & H2 & _); [vm_compute; reflexivity|]. split; [exact H1|].
    rewrite H2. vm_compute. reflexivity.
Defined.

Lemma one_cutback_per_round_witness :
  let c := OnPacketLost grown 3 1350 8100 in
  let ops := [CLost 4 1350 6750; CSent 9 1350 true; CLost 5 1350 6750; CAcked rtts 300 6 1350 5400] in
  no_stats (foldl cubic_step c ops) =
  no_stats (foldl cubic_step c [CSent 9 1350 true; CAcked rtts 300 6 1350 5400]) ∧
  InRecovery (win (foldl cubic_step c ops)) = true.
Proof.
  split; [|vm_compute; reflexivity].
  apply (one_cutback_per_round [CLost 4 1350 6750; CSent 9 1350 true; CLost 5 1350 6750; CAcked rtts 300 6 1350 5400] (OnPacketLost grown 3 1350 8100)).
  repeat (apply Forall_cons_2; [vm_compute; (exact I || congruence)|]). apply Forall_nil_2.
Defined.

(** With the option, three further losses of a segment take three from the window. *)
Example large_reduction_counts :
  let c := OnPacketLost (SetSlowStartLargeReduction grown true) 3 1460 8100 in
  let ops := [CLost 4 1460 6750; CLost 5 1460 6750; CLost 6 1460 5400] in
  reduces_further c = true ∧
  congestionWindow (win (foldl cubic_step c ops)) = congestionWindow (win c) - 3.
Proof. vm_compute. split; reflexivity. Qed.

Lemma prr_limits_sending_witness :
  let es := [PSend 1350 40880 46720; PAck 1350; PAck 1350; PSend 1350 40880 46720; PSend 1350 40880 46720] in
  Forall prr_event_ok es ∧
  prr_limit 40880 (foldl (prr_step 40880) (prr_sender.OnPacketLost prr_sender.NewPrrSender 46720) es) ∧
  prr_sender.bytesSentSinceLoss
    (foldl (prr_step 40880) (prr_sender.OnPacketLost prr_sender.NewPrrSender 46720) es) = 2700.
Proof.
  assert (Forall prr_event_ok [PSend 1350 40880 46720; PAck 1350; PAck 1350; PSend 1350 40880 46720; PSend 1350 40880 46720]) as H.
  { repeat (apply Forall_cons_2; [unfold prr_event_ok, protocol.DefaultTCPMSS; lia|]). apply Forall_nil_2. }
  split; [exact H|]. split; [|vm_compute; reflexivity].
  apply (prr_limits_sending 40880 46720 prr_sender.NewPrrSender
    [PSend 1350 40880 46720; PAck 1350; PAck 1350; PSend 1350 40880 46720; PSend 1350 40880 46720]);
    [lia|lia|vm_compute; congruence|exact H].
Defined.

(** A round of round trips around 60 ms, when the minimum is 50 ms. *)
Lemma hybrid_round_witness :
  let l := (λ n, (60 + n) * time.Millisecond) <$> seqZ 0 8 in
  let s' := foldl (feed (50 * time.Millisecond) 20) hybrid_slow_start.NewHybridSlowStart l in
  hybrid_slow_start.hystartFound s' = true ∧
  (hybrid_slow_start.ShouldExitSlowStart s' (50 * time.Millisecond) (50 * time.Millisecond) 20).2 = true.
Proof.
  destruct (hybrid_round (50 * time.Millisecond) 20 hybrid_slow_start.NewHybridSlowStart
    ((λ n, (60 + n) * time.Millisecond) <$> seqZ 0 8) (50 * time.Millisecond)) as [H1 H2].
  - unfold time.Millisecond. lia.
  - repeat (apply Forall_cons_2; [vm_compute; reflexivity|]). apply Forall_nil_2.
  - vm_compute. split; congruence.
  - reflexivity.
  - reflexivity.
  - split; [rewrite H1; vm_compute; reflexivity|]. apply H2. rewrite H1. vm_compute. reflexivity.
Defined.

End CongestionExamples.
