(* ===== verification/CongestedHandler.v ===== *)
(** * The sent packet handler with its congestion controller

    The handler of SentPackets.v is proved against the interface of the congestion
    package. Here it is put together with an implementation: what the calls of the
    interface preserve holds in every state that the handler reaches
    ([run_congestion]), and with the CUBIC sender and the RTT statistics of the source
    this bounds what it sends. *)

From S2P Require Import Prelude Protocol AckFrames ReceivedPackets SentPackets RttStats Congestion.

Section preserved.
Import sentPacketHandler.
Context {R C : Type} `{!RTTStats R, !SendAlgorithm R C}.
Notation handler := (@sentPacketHandler R C).

(** A property of the controller that each call preserves. *)
Class Preserved (P : C → Prop) : Prop := {
  pres_sent c r now bif pn bytes b : P c → P (OnPacketSent c r now bif pn bytes b);
  pres_exit c r : P c → P (MaybeExitSlowStart c r);
  pres_acked c r pn bytes bif : P c → P (OnPacketAcked c r pn bytes bif);
  pres_lost c r pn bytes bif : P c → P (OnPacketLost c r pn bytes bif);
  pres_timeout c r b : P c → P (OnRetransmissionTimeout c r b);
}.

Context (P : C → Prop) `{!Preserved P}.

(** The handler's controller has the property. *)
Definition holds (h : handler) : Prop := P (congestion h).

Lemma holds_same (h : handler) h' : congestion h' = congestion h → holds h → holds h'.
Proof. unfold holds. by intros ->. Qed.

Lemma holds_alarm (h : handler) : holds h → holds (updateLossDetectionAlarm h).
Proof. apply holds_same. unfold updateLossDetectionAlarm. repeat case_match; done. Qed.

Lemma holds_sent (h : handler) now packet : holds h → holds (SentPacket h now packet).1.
Proof.
  intros H. unfold SentPacket. case_match; [done|]. case_match; [done|]. cbn [fst].
  apply holds_alarm. unfold holds. case_match; apply pres_sent; exact H.
Qed.

Lemma holds_queue (h : handler) p : congestion (queuePacketForRetransmission h p) = congestion h.
Proof. unfold queuePacketForRetransmission. repeat case_match; done. Qed.

Lemma holds_loseAll l (h : handler) : holds h → holds (loseAll h l).
Proof.
  revert h. induction l as [|p l IH]; intros h H; [done|]. cbn. apply IH. unfold loseOne, holds.
  apply pres_lost. by rewrite holds_queue.
Qed.

Lemma holds_ackAll l (h : handler) : holds h → holds (ackAll h l).
Proof. revert h. induction l as [|p l IH]; intros h H; [done|]. cbn. apply IH. by apply pres_acked. Qed.

Lemma lostLoop_congestion (h : handler) now delay l : congestion (lostLoop h now delay l).1 = congestion h.
Proof.
  revert h. induction l as [|p l IH]; intros h; [done|]. cbn [lostLoop].
  case_match; [done|]. case_match; [|case_match; by rewrite IH].
  specialize (IH (set_losses (u64 (losses h + 1)) h)). by destruct (lostLoop _ _ _ _).
Qed.

Lemma holds_detect (h : handler) now : holds h → holds (detectLostPackets h now).
Proof.
  intros H. unfold detectLostPackets. cbv zeta.
  pose proof (lostLoop_congestion (set_lossTime time.zero h) now
    (delayUntilLost (set_lossTime time.zero h)) (packetHistory (set_lossTime time.zero h))) as E.
  destruct (lostLoop _ _ _ _) as [h1 lost]. apply holds_loseAll. by apply (holds_same h).
Qed.

Lemma inflightLoop_congestion (h : handler) l : congestion (inflightLoop h l).1 = congestion h.
Proof.
  revert h. induction l as [|p l IH]; intros h; [done|]. cbn [inflightLoop]. case_match; [done|].
  specialize (IH (set_losses (u64 (losses h + 1)) h)). by destruct (inflightLoop _ _).
Qed.

Lemma holds_inflight (h : handler) : holds h → holds (SetInflightAsLost h).
Proof.
  intros H. unfold SetInflightAsLost. pose proof (inflightLoop_congestion h (packetHistory h)) as E.
  destruct (inflightLoop _ _) as [h1 lost]. apply holds_loseAll. by apply (holds_same h).
Qed.

Lemma holds_rtt (h : handler) now la d rcv : holds h → holds (maybeUpdateRTT h now la d rcv).1.
Proof. unfold maybeUpdateRTT. by case_match. Qed.

Lemma holds_ack (h : handler) f wp rcv n1 n2 h' err calls :
  holds h → ReceivedAck h f wp rcv n1 n2 = Ok (h', err, calls) → holds h'.
Proof.
  intros H. unfold ReceivedAck.
  case_match; [by intros [= <- <- <-]|]. case_match; [by intros [= <- <- <-]|]. cbv zeta.
  case_match; [by intros [= <- <- <-]|]. case_match; [by intros [= <- <- <-]|].
  match goal with |- context [maybeUpdateRTT ?g ?a ?b ?c ?d] =>
    pose proof (holds_rtt g a b c d H) as Hr; destruct (maybeUpdateRTT g a b c d) as [h1 upd] end.
  cbn [fst] in Hr.
  assert (holds (if upd then set_congestion (MaybeExitSlowStart (congestion h1) (rttStats h1)) h1 else h1)) as He
    by (destruct upd; [by apply pres_exit|done]).
  generalize dependent (if upd then set_congestion (MaybeExitSlowStart (congestion h1) (rttStats h1)) h1 else h1).
  intros h2 He. destruct (determineNewlyAckedPackets h2 f) as [acked|e|]; [|by intros [= <- <- <-]|done].
  intros [= <- <- <-]. unfold holds. cbn. apply holds_alarm, holds_detect, holds_ackAll, He.
Qed.

Lemma holds_close (h : handler) f wp h' err calls :
  holds h → ReceivedClosePath h f wp = Ok (h', err, calls) → holds h'.
Proof.
  intros H. unfold ReceivedClosePath.
  case_match; [by intros [= <- <- <-]|]. case_match; [by intros [= <- <- <-]|]. cbv zeta.
  case_match; [by intros [= <- <- <-]|].
  destruct (determineNewlyAckedPacketsClosePath _ _) as [acked|e|]; [|by intros [= <- <- <-]|done].
  intros [= <- <- <-]. unfold holds. cbn. by apply holds_inflight, holds_ackAll.
Qed.

Lemma holds_queueRTO (h : handler) p : holds h → holds (queueRTO h p).
Proof.
  intros H. unfold queueRTO, holds. apply pres_lost. apply (holds_same h); [|done]. apply (holds_queue h p).
Qed.

Lemma holds_retransmitLoop fuel (h : handler) : holds h → holds (retransmitLoop fuel h).
Proof.
  revert h. induction fuel as [|fuel IH]; intros h H; [done|]. cbn. case_match; [done|].
  by apply IH, holds_queueRTO.
Qed.

Lemma holds_oldest (h : handler) : holds h → holds (retransmitOldestPacket h).
Proof. intros H. unfold retransmitOldestPacket. case_match; [done|by apply holds_queueRTO]. Qed.

Lemma holds_onAlarm (h : handler) now onRTO : holds h → holds (OnAlarm h now onRTO).
Proof.
  intros H. unfold OnAlarm. case_match; [done|]. apply holds_alarm.
  case_match; [by apply holds_detect|]. case_match.
  - unfold retransmitTLP. case_match; [|done]. apply (holds_same h); [|done]. apply (holds_queue h).
  - cbv zeta. unfold holds. cbn. case_match.
    + by apply pres_timeout, holds_retransmitLoop.
    + by apply pres_timeout, holds_oldest, holds_oldest.
Qed.

Lemma holds_step (h : handler) es h' : step h es h' → holds h → holds h'.
Proof.
  intros Hs H. destruct Hs as [now packet h' _ _ E|now packet h' e E|f wp rcv n1 n2 h' err calls _ E|
    f wp h' err calls _ E| |now onRTO|h' p E|h' E|force|p _|num].
  - by apply (f_equal fst) in E; cbn in E; subst h'; apply holds_sent.
  - by apply (f_equal fst) in E; cbn in E; subst h'; apply holds_sent.
  - by eapply holds_ack.
  - by eapply holds_close.
  - by apply holds_inflight.
  - by apply holds_onAlarm.
  - apply (f_equal fst) in E. cbn in E. subst h'. unfold DequeuePacketForRetransmission. by case_match.
  - apply (f_equal fst) in E. cbn in E. subst h'. unfold DequeuePacketForRetransmission. by case_match.
  - unfold GetStopWaitingFrame. by destruct (stopWaitingManager.GetStopWaitingFrame _ _).
  - done.
  - unfold RemovePacketByNumber. destruct (removeByNumber _ _). repeat case_match; done.
Qed.

(** What the calls of the controller preserve holds along every run of the handler. *)
Lemma run_congestion h0 evs h : run h0 evs h → holds h0 → holds h.
Proof. induction 1; eauto using holds_step. Qed.

End preserved.

(** ** The handler with CUBIC *)

Section cubic_handler.
Import sentPacketHandler.
Context (clock : nat → Z).
#[local] Instance cubic_alg : SendAlgorithm rtt_stats.RTTStats clocked := cubic_SendAlgorithm clock.

(** The controller that [NewSentPacketHandler] makes when it is given none. *)
Definition defaultController : clocked :=
  (0%nat, cubic_sender.NewCubicSender false protocol.InitialCongestionWindow protocol.DefaultMaxCongestionWindow).

(** The packets that the controller was told were acknowledged. *)
Definition acknowledgements (h : @sentPacketHandler rtt_stats.RTTStats clocked) : Z := Z.of_nat (congestion h).1.

(** The limits, for the first 2^22 acknowledgements. *)
Definition limited (c : clocked) : Prop :=
  Z.of_nat c.1 <= 2 ^ 22 →
  cubic_inv protocol.DefaultMaxCongestionWindow
    (protocol.DefaultMaxCongestionWindow + maxEmulated + 1 + Z.of_nat c.1) c.2.

Lemma limited_step n c o :
  op_ok o → is_ack o = false → limited (n, c) → limited (n, cubic_step c o).
Proof.
  unfold limited, protocol.DefaultMaxCongestionWindow, maxEmulated. cbn [fst snd]. intros Ho Ha H Hn.
  apply other_inv; unfold maxEmulated; [lia|lia|done|done|auto].
Qed.

#[local] Instance limited_preserved : Preserved limited.
Proof.
  split; intros [n c]; intros.
  - by apply (limited_step n c (CSent pn bytes b)).
  - by apply (limited_step n c (CExit r)).
  - unfold limited, protocol.DefaultMaxCongestionWindow, maxEmulated in *. cbn [fst snd] in *. intros Hn.
    cbn [OnPacketAcked cubic_alg cubic_SendAlgorithm fst snd] in *.
    rewrite Nat2Z.inj_succ in *. replace (2500 + 256 + 1 + Z.succ (Z.of_nat n)) with (2500 + 256 + 1 + Z.of_nat n + 1) by lia.
    apply acked_inv; unfold maxEmulated; [lia|lia|lia|]. apply H. lia.
  - by apply (limited_step n c (CLost pn bytes bif)).
  - by apply (limited_step n c (CTimeout b)).
Qed.

Lemma defaultController_limited : limited defaultController.
Proof. intros _. apply cubic_inv_init. unfold protocol.DefaultMaxCongestionWindow, protocol.InitialCongestionWindow. lia. Qed.

(** C13: The handler with the CUBIC controller that it makes by default, in every state
    that any calls of its operations reach, duplicates of any packets included (packet
    numbers below 2^48, packets shorter than 2^32 bytes, acknowledgements with well-formed
    ranges, and within 2^22 acknowledged packets): its congestion window is between
    2 and 2500 segments. So sending is refused, unless a retransmission waits, while more
    than 2500 segments are in flight; and it never locks up: with at most two segments in
    flight and room to track another packet, sending is allowed. *)
Theorem cubic_handler_limits rtt path evs h :
  run (NewSentPacketHandler rtt defaultController path) evs h → acknowledgements h <= 2 ^ 22 →
  2 * protocol.DefaultTCPMSS <= GetCongestionWindow (congestion h) (rttStats h)
    <= protocol.DefaultMaxCongestionWindow * protocol.DefaultTCPMSS ∧
  (SendingAllowed h = true → retransmissionQueue h = [] →
     bytesInFlight h <= protocol.DefaultMaxCongestionWindow * protocol.DefaultTCPMSS) ∧
  (bytesInFlight h <= 2 * protocol.DefaultTCPMSS →
     len (retransmissionQueue h) + len (packetHistory h) < protocol.MaxTrackedSentPackets →
     SendingAllowed h = true).
Proof.
  intros Hr Hn. pose proof (run_congestion limited _ _ _ Hr defaultController_limited Hn) as [Hw _].
  assert (2 * protocol.DefaultTCPMSS <= GetCongestionWindow (congestion h) (rttStats h)
    <= protocol.DefaultMaxCongestionWindow * protocol.DefaultTCPMSS) as Hc.
  { destruct (congestion h) as [n c]. cbn [snd] in Hw. cbn [GetCongestionWindow cubic_alg cubic_SendAlgorithm]. unfold cubic_sender.GetCongestionWindow.
    destruct (win_ok_bytes 2 protocol.DefaultMaxCongestionWindow (cubic_sender.win c)) as [-> _]; [lia|done|done|].
    destruct Hw. unfold protocol.DefaultTCPMSS. lia. }
  split; [done|]. unfold SendingAllowed. cbv zeta. split.
  - intros Ha Eq. rewrite Eq, andb_true_iff, orb_true_iff in Ha. destruct Ha as [_ [Ha|Ha]]; [|done].
    apply negb_true_iff, Z.ltb_ge in Ha. lia.
  - intros Hb Ht. apply andb_true_iff. split; [apply negb_true_iff, Z.leb_gt; lia|].
    apply orb_true_iff. left. apply negb_true_iff, Z.ltb_ge. lia.
Qed.
End cubic_handler.

(** ** Witness *)

Module HandlerExamples.
Import sentPacketHandler.

Definition tick (n : nat) : Z := 1000 * Z.of_nat n.
#[local] Instance ticking : SendAlgorithm rtt_stats.RTTStats clocked := cubic_SendAlgorithm tick.

Definition fresh : @sentPacketHandler rtt_stats.RTTStats clocked :=
  NewSentPacketHandler rtt_stats.NewRTTStats defaultController 0.
Definition after_ping : @sentPacketHandler rtt_stats.RTTStats clocked := (SentPacket fresh 1000 (SentExamples.ping 1)).1.

Lemma run_after_ping : run fresh [Tracked 1] after_ping.
Proof.
  apply (run_step fresh [] fresh [Tracked 1]); [constructor|].
  apply (step_sent fresh 1000 (SentExamples.ping 1) after_ping); [reflexivity|split; [|reflexivity]|vm_compute; reflexivity].
  vm_compute. congruence.
Qed.

Lemma cubic_handler_limits_witness :
  2 * protocol.DefaultTCPMSS <= GetCongestionWindow (congestion after_ping) (rttStats after_ping) ∧
  SendingAllowed after_ping = true ∧ bytesInFlight after_ping = 1200.
Proof.
  destruct (cubic_handler_limits tick rtt_stats.NewRTTStats 0 _ after_ping run_after_ping) as (H1 & _ & H3);
    [vm_compute; congruence|].
  split; [apply H1|]. split; [|vm_compute; reflexivity]. apply H3; vm_compute; (reflexivity || congruence).
Defined.

End HandlerExamples.
