(* ===== verification/Olia.v ===== *)
(** * Coupled congestion control

    congestion/olia.go and olia_sender.go. The senders of the paths of a connection share
    a map of pointers to all of them, and an acknowledgement on one path writes to the
    others: the state is the whole map, with the RTT statistics that each sender points
    to, and an operation names the path that it is called on. The order in which a
    [range] over the map visits the paths is an argument where it matters. *)

From S2P Require Import Prelude Protocol GoFloat FloatBounds SentPackets RttStats Congestion CongestedHandler.

(** ** olia.go *)
Module olia.

Definition scale : Z := 10.

Record Olia := MkOlia {
  loss1 : Z;
  loss2 : Z;
  loss3 : Z;
  epsilonNum : Z;
  epsilonDen : Z;
  sndCwndCnt : Z;
}.

Definition NewOlia (ackedBytes : Z) : Olia := MkOlia ackedBytes ackedBytes ackedBytes 0 1 0.
Definition Reset : Olia := MkOlia 0 0 0 0 1 0.

Definition oliaScale (val s : Z) : Z := u64 (Z.shiftl val s).

Definition SmoothedBytesBetweenLosses (o : Olia) : Z :=
  utils.MaxByteCount (u64 (loss3 o - loss2 o)) (u64 (loss2 o - loss1 o)).

Definition UpdateAckedSinceLastLoss (o : Olia) (ackedBytes : Z) : Olia :=
  MkOlia (loss1 o) (loss2 o) (u64 (loss3 o + ackedBytes)) (epsilonNum o) (epsilonDen o) (sndCwndCnt o).

Definition OnPacketLost (o : Olia) : Olia :=
  MkOlia (loss2 o) (loss3 o) (loss3 o) (epsilonNum o) (epsilonDen o) (sndCwndCnt o).

Definition set_cnt (o : Olia) (v : Z) : Olia :=
  MkOlia (loss1 o) (loss2 o) (loss3 o) (epsilonNum o) (epsilonDen o) v.
Definition set_epsilon (o : Olia) (num den : Z) : Olia :=
  MkOlia (loss1 o) (loss2 o) (loss3 o) num den (sndCwndCnt o).

(** The new count, before it is compared with a whole packet. *)
Definition increase (o : Olia) (currentCongestionWindow rate cwndScaled : Z) : Z :=
  let incDen := u64 (u64 (epsilonDen o * currentCongestionWindow) * rate) in
  let incDen := if incDen =? 0 then 1 else incDen in
  let square := u64 (u64 (epsilonDen o * cwndScaled) * cwndScaled) in
  if epsilonNum o =? -1 then
    if square <? rate
    then i64 (sndCwndCnt o - i64 (oliaScale (u64 (rate - square)) scale / incDen))
    else i64 (sndCwndCnt o + i64 (oliaScale (u64 (square - rate)) scale / incDen))
  else
    let incNum := u64 (u64 (u64 (epsilonNum o) * rate) + square) in
    i64 (sndCwndCnt o + i64 (oliaScale incNum scale / incDen)).

Definition CongestionWindowAfterAck (o : Olia) (currentCongestionWindow rate cwndScaled : Z) : Olia * Z :=
  let cnt := increase o currentCongestionWindow rate cwndScaled in
  if 1023 <=? cnt then (set_cnt o 0, u64 (currentCongestionWindow + 1))
  else if cnt <=? -1023 then
    (set_cnt o 0, utils.MaxPacketNumber 1 (u64 (currentCongestionWindow - 1)))
  else (set_cnt o cnt, currentCongestionWindow).

End olia.

(** ** olia_sender.go *)
Module olia_sender.
Import window.

Record OliaSender := MkOliaSender { win : window; olia : olia.Olia }.

Definition set_win (w : window) (o : OliaSender) : OliaSender := MkOliaSender w (olia o).
Definition set_olia (k : olia.Olia) (o : OliaSender) : OliaSender := MkOliaSender (win o) k.

Definition NewOliaSender (initial initialMax : Z) : OliaSender :=
  MkOliaSender (NewWindow initial initialMax) (olia.NewOlia 0).

(** The shared map, with the statistics of each path. *)
Notation senders := (gmap Z (OliaSender * rtt_stats.RTTStats)).

Definition cwnd (e : OliaSender * rtt_stats.RTTStats) : Z := congestionWindow (win e.1).
Definition srtt (e : OliaSender * rtt_stats.RTTStats) : Z := rtt_stats.smoothedRTT e.2.

Definition getMaxCwnd (m : senders) : Z :=
  map_fold (λ _ e best, utils.MaxPacketNumber best (cwnd e)) 0 m.

Definition getRate (m : senders) (pathRTT : Z) : Z :=
  let rate := map_fold (λ _ e rate,
    let scaledNum := u64 (olia.oliaScale (cwnd e) olia.scale * u64 pathRTT) in
    if srtt e =? 0 then rate else u64 (rate + scaledNum / u64 (srtt e))) 1 m in
  u64 (rate * rate).

(** What the paths are compared by: the bytes between losses and the square of the RTT. *)
Definition rtt2 (e : OliaSender * rtt_stats.RTTStats) : Z := i64 (srtt e * srtt e).
Definition lossBytes (e : OliaSender * rtt_stats.RTTStats) : Z := olia.SmoothedBytesBetweenLosses (olia e.1).
Definition atLeast (e : OliaSender * rtt_stats.RTTStats) (best : Z * Z) : bool :=
  i64 (i64 best.2 * rtt2 e) <=? i64 (i64 (lossBytes e) * best.1).

(** The first loop of [getEpsilon]: the best path, as its squared RTT and its bytes. *)
Definition best (m : senders) (order : list Z) : Z * Z :=
  foldl (λ b e, if atLeast e b then (rtt2 e, lossBytes e) else b) (0, 0) (omap (m !!.) order).

(** The second loop: the sizes of M and of B without M. *)
Definition inM (m : senders) (e : OliaSender * rtt_stats.RTTStats) : bool := cwnd e =? getMaxCwnd m.
Definition inBNotM (m : senders) (b : Z * Z) (e : OliaSender * rtt_stats.RTTStats) : bool :=
  negb (inM m e) && atLeast e b.
Definition count (P : OliaSender * rtt_stats.RTTStats → bool) (m : senders) : Z :=
  map_fold (λ _ e n, if P e then u8 (n + 1) else n) 0 m.

(** The third loop, for one path. *)
Definition assign (m : senders) (b : Z * Z) (e : OliaSender * rtt_stats.RTTStats) : OliaSender * rtt_stats.RTTStats :=
  let M := count (inM m) m in
  let BNotM := count (inBNotM m b) m in
  let n := u32 (Z.of_nat (size m)) in
  let set num den := (set_olia (olia.set_epsilon (olia e.1) num den) e.1, e.2) in
  if BNotM =? 0 then set 0 1
  else if (cwnd e <? getMaxCwnd m) && atLeast e b then set 1 (u32 (n * BNotM))
  else if inM m e then set (-1) (u32 (n * M))
  else set 0 1.

Definition getEpsilon (m : senders) (order : list Z) : senders :=
  let b := best m order in assign m b <$> m.

Definition maybeIncreaseCwnd (m : senders) (p : Z) (order : list Z) (bytesInFlight : Z) : senders :=
  match m !! p with
  | None => m
  | Some (o, r) =>
      let w := win o in
      if negb (isCwndLimited w bytesInFlight) then m
      else if maxTCPCongestionWindow w <=? congestionWindow w then m
      else if InSlowStart w then <[p := (set_win (set_congestionWindow (u64 (congestionWindow w + 1)) w) o, r)]> m
      else
        let m := getEpsilon m order in
        match m !! p with
        | None => m
        | Some (o, r) =>
            let rate := getRate m (rtt_stats.smoothedRTT r) in
            let cwndScaled := olia.oliaScale (congestionWindow w) olia.scale in
            let '(k, v) := olia.CongestionWindowAfterAck (olia o) (congestionWindow w) rate cwndScaled in
            <[p := (MkOliaSender (set_congestionWindow (utils.MinPacketNumber (maxTCPCongestionWindow w) v) w) k, r)]> m
        end
  end.

Definition OnPacketAcked (m : senders) (p : Z) (order : list Z)
    (ackedPacketNumber ackedBytes bytesInFlight : Z) : senders :=
  match m !! p with
  | None => m
  | Some (o, r) =>
      let w := win o in
      let w := set_largestAckedPacketNumber
        (utils.MaxPacketNumber ackedPacketNumber (largestAckedPacketNumber w)) w in
      if InRecovery w then <[p := (set_win (set_prr (prr_sender.OnPacketAcked (prr w) ackedBytes) w) o, r)]> m
      else
        let o := MkOliaSender w (olia.UpdateAckedSinceLastLoss (olia o) ackedBytes) in
        let m := maybeIncreaseCwnd (<[p := (o, r)]> m) p order bytesInFlight in
        match m !! p with
        | None => m
        | Some (o, r) =>
            let w := win o in
            if InSlowStart w
            then <[p := (set_win (set_hybridSlowStart
                   (hybrid_slow_start.OnPacketAcked (hybridSlowStart w) ackedPacketNumber) w) o, r)]> m
            else m
        end
  end.

(** The operations that concern one sender only; where olia_sender.go repeats
    cubic_sender.go they are those of the module [window]. *)
Definition TimeUntilSend (o : OliaSender) (bytesInFlight : Z) : Z := window.TimeUntilSend (win o) bytesInFlight.
Definition GetCongestionWindow (o : OliaSender) : Z := window.GetCongestionWindow (win o).
Definition BandwidthEstimate (o : OliaSender) (r : rtt_stats.RTTStats) : Z := window.BandwidthEstimate (win o) r.
Definition RetransmissionDelay (r : rtt_stats.RTTStats) : Z := window.RetransmissionDelay r.
Definition SmoothedRTT (r : rtt_stats.RTTStats) : Z := rtt_stats.smoothedRTT r.

Definition OnPacketSent (o : OliaSender) (packetNumber bytes : Z) (isRetransmittable : bool) : OliaSender * bool :=
  let '(w, b) := window.OnPacketSent (win o) packetNumber bytes isRetransmittable in (set_win w o, b).

Definition MaybeExitSlowStart (o : OliaSender) (r : rtt_stats.RTTStats) : OliaSender :=
  set_win (window.MaybeExitSlowStart (win o) r) o.

Definition OnPacketLost (o : OliaSender) (packetNumber lostBytes bytesInFlight : Z) : OliaSender :=
  let w := win o in
  if packetNumber <=? largestSentAtLastCutback w then set_win (lateLoss w lostBytes) o
  else
    let w := beginLoss w bytesInFlight in
    let o := MkOliaSender w (olia.OnPacketLost (olia o)) in
    if slowStartLargeReduction w && InSlowStart w
    then set_win (endLoss (set_congestionWindow (u64 (congestionWindow w - 1)) w)) o
    else set_win (endLoss (set_congestionWindow
           (to_uint64 (fmul float32 (of_int float32 (congestionWindow w)) (RenoBeta w))) w)) o.

Definition SetNumEmulatedConnections (o : OliaSender) (n : Z) : OliaSender :=
  set_win (set_numConnections (utils.Max n 1) (win o)) o.

Definition OnRetransmissionTimeout (o : OliaSender) (packetsRetransmitted : bool) : OliaSender :=
  let o := set_win (set_largestSentAtLastCutback 0 (win o)) o in
  if negb packetsRetransmitted then o
  else MkOliaSender (timeoutWindow (win o)) olia.Reset.

Definition OnConnectionMigration (o : OliaSender) : OliaSender := MkOliaSender (migrateWindow (win o)) olia.Reset.

Definition SetSlowStartLargeReduction (o : OliaSender) (enabled : bool) : OliaSender :=
  set_win (set_slowStartLargeReduction enabled (win o)) o.

End olia_sender.

(** ** The limits of the windows *)

Section olia_window.
Import window olia_sender.

Definition entry_ok (M : Z) (e : OliaSender * rtt_stats.RTTStats) : Prop := win_ok 1 M (win e.1).
Definition senders_ok (M : Z) (m : senders) : Prop := map_Forall (λ _, entry_ok M) m.

Context (M : Z) (HM : 2 <= M <= 2 ^ 20).

Lemma senders_insert m p o r : senders_ok M m → win_ok 1 M (win o) → senders_ok M (<[p := (o, r)]> m).
Proof. intros Hm Ho. apply map_Forall_insert_2; done. Qed.

Lemma epsilon_win m order p e : getEpsilon m order !! p = Some e →
  ∃ e0, m !! p = Some e0 ∧ win e.1 = win e0.1 ∧ e.2 = e0.2.
Proof.
  unfold getEpsilon. cbv zeta. rewrite lookup_fmap. intros (e0 & -> & E0)%fmap_Some.
  exists e0. split; [done|]. unfold assign in E0. repeat case_match; subst e; done.
Qed.

Lemma senders_epsilon m order : senders_ok M m → senders_ok M (getEpsilon m order).
Proof.
  intros Hm p e (e0 & E & Ew & _)%epsilon_win. unfold entry_ok. rewrite Ew. by apply (Hm p e0).
Qed.

Lemma olia_window_after c w rate scaled : 1 <= w < 2 ^ 63 →
  let v := (olia.CongestionWindowAfterAck c w rate scaled).2 in Z.max 1 (w - 1) <= v <= w + 1.
Proof.
  intros Hw. unfold olia.CongestionWindowAfterAck, utils.MaxPacketNumber.
  rewrite (u64_id (w + 1)), (u64_id (w - 1)) by (unfold is_u64; lia).
  repeat case_match; cbn [snd]; rewrite ?Z.ltb_lt, ?Z.ltb_ge in *; lia.
Qed.

Lemma senders_increase m p order bif : senders_ok M m → senders_ok M (maybeIncreaseCwnd m p order bif).
Proof.
  intros Hm. unfold maybeIncreaseCwnd. destruct (m !! p) as [[o r]|] eqn:Ep; [|done]. cbv zeta.
  pose proof (Hm p _ Ep) as Ho. unfold entry_ok in Ho. cbn [fst] in Ho.
  destruct (isCwndLimited (win o) bif); cbn [negb]; [|done].
  destruct (Z.leb_spec (maxTCPCongestionWindow (win o)) (congestionWindow (win o))); [done|].
  destruct (InSlowStart (win o)).
  - apply senders_insert; [done|]. destruct Ho. rewrite u64_id by (unfold is_u64; lia).
    apply win_ok_set_cwnd; [by split|lia].
  - destruct (getEpsilon m order !! p) as [[o' r']|] eqn:E'; [|by apply senders_epsilon].
    pose proof (olia_window_after (olia o') (congestionWindow (win o)) (getRate (getEpsilon m order)
      (rtt_stats.smoothedRTT r')) (olia.oliaScale (congestionWindow (win o)) olia.scale)) as Hv.
    destruct (olia.CongestionWindowAfterAck _ _ _ _) as [k v]. cbn [snd] in Hv.
    apply senders_insert; [by apply senders_epsilon|]. apply win_ok_set_cwnd; [done|].
    destruct Ho. specialize (Hv ltac:(lia)). unfold utils.MinPacketNumber.
    case_match; rewrite ?Z.ltb_lt, ?Z.ltb_ge in *; lia.
Qed.

Lemma senders_acked m p order pn bytes bif :
  senders_ok M m → senders_ok M (OnPacketAcked m p order pn bytes bif).
Proof.
  intros Hm. unfold OnPacketAcked. destruct (m !! p) as [[o r]|] eqn:Ep; [|done]. cbv zeta.
  pose proof (Hm p _ Ep) as Ho. unfold entry_ok in Ho. cbn [fst] in Ho.
  set (w := set_largestAckedPacketNumber _ (win o)).
  assert (win_ok 1 M w) as Hw by (apply win_ok_set_acked, Ho). clearbody w.
  destruct (InRecovery w); [apply senders_insert; [done|by apply win_ok_set_prr]|].
  match goal with |- context [maybeIncreaseCwnd ?m0 p order bif] =>
    assert (senders_ok M (maybeIncreaseCwnd m0 p order bif)) as H1
      by (apply senders_increase, senders_insert; done);
    generalize dependent (maybeIncreaseCwnd m0 p order bif) end.
  intros m1 H1. destruct (m1 !! p) as [[o1 r1]|] eqn:E1; [|done].
  destruct (InSlowStart (win o1)); [|done]. apply senders_insert; [done|].
  apply win_ok_set_hybrid. exact (H1 p _ E1).
Qed.

Lemma lost_ok o pn bytes bif : win_ok 1 M (win o) → win_ok 1 M (win (OnPacketLost o pn bytes bif)).
Proof.
  intros Hw. unfold OnPacketLost. destruct (Z.leb_spec pn (largestSentAtLastCutback (win o))).
  { apply win_ok_late; [lia|lia|done]. }
  cbv zeta. pose proof (win_ok_begin 1 M (win o) bif Hw) as Hb. set (w := beginLoss (win o) bif) in *.
  assert (1 <= congestionWindow w <= M) as Hc by (by destruct Hb). clearbody w.
  destruct (slowStartLargeReduction w && InSlowStart w).
  - apply win_ok_end; [lia|lia|done|]. rewrite u64_id; unfold is_u64; lia.
  - apply win_ok_end; [lia|lia|done|].
    pose proof (cut_bound (numConnections w) (congestionWindow w) ltac:(by destruct Hb) ltac:(lia)). 
    change (RenoBeta w) with (cubic.beta_of (numConnections w)). lia.
Qed.

(** The calls on the sender of a path. *)
Inductive olia_op :=
  | OSent (packetNumber bytes : Z) (isRetransmittable : bool)
  | OAcked (order : list Z) (packetNumber bytes bytesInFlight : Z)
  | OLost (packetNumber bytes bytesInFlight : Z)
  | OExit
  | OTimeout (packetsRetransmitted : bool)
  | OMigrate
  | OEmulate (n : Z)
  | OLarge (enabled : bool)
  | ORtt (r : rtt_stats.RTTStats).

(** A call on one sender; [ORtt] is an update of the statistics that it points to. *)
Definition local_step (o : OliaSender) (r : rtt_stats.RTTStats) (op : olia_op) : OliaSender * rtt_stats.RTTStats :=
  match op with
  | OSent pn bytes b => ((OnPacketSent o pn bytes b).1, r)
  | OAcked _ _ _ _ => (o, r)
  | OLost pn bytes bif => (OnPacketLost o pn bytes bif, r)
  | OExit => (MaybeExitSlowStart o r, r)
  | OTimeout b => (OnRetransmissionTimeout o b, r)
  | OMigrate => (OnConnectionMigration o, r)
  | OEmulate n => (SetNumEmulatedConnections o n, r)
  | OLarge b => (SetSlowStartLargeReduction o b, r)
  | ORtt r' => (o, r')
  end.

Definition olia_step (m : senders) (call : Z * olia_op) : senders :=
  match call.2 with
  | OAcked order pn bytes bif => OnPacketAcked m call.1 order pn bytes bif
  | op => match m !! call.1 with
          | Some (o, r) => <[call.1 := local_step o r op]> m
          | None => m
          end
  end.

Definition olia_op_ok (call : Z * olia_op) : Prop :=
  match call.2 with OEmulate n => n <= maxEmulated | _ => True end.

Lemma local_ok o r op p : olia_op_ok (p, op) → win_ok 1 M (win o) → win_ok 1 M (win (local_step o r op).1).
Proof.
  intros Hop Hw. destruct op as [pn bytes b|order pn bytes bif|pn bytes bif| |b| |n|b|r']; cbn [local_step fst]; try done.
  - unfold OnPacketSent. pose proof (win_ok_sent 1 M (win o) pn bytes b Hw).
    by destruct (window.OnPacketSent _ _ _ _).
  - by apply lost_ok.
  - apply win_ok_exit; [lia|done].
  - unfold OnRetransmissionTimeout. destruct b; cbn [negb win set_win]; [|by apply win_ok_set_cutback].
    destruct Hw. unfold timeoutWindow. split; try done; cbn; [lia|].
    split; [apply Z.div_pos|apply Z.div_le_upper_bound]; lia.
  - destruct Hw. unfold OnConnectionMigration, migrateWindow. split; try done; cbn; lia.
  - cbn in Hop. apply win_ok_set_conns; [done|]. unfold utils.Max, maxEmulated in *.
    case_match; rewrite ?Z.ltb_lt, ?Z.ltb_ge in *; lia.
  - by apply win_ok_set_large.
Qed.

Lemma olia_step_ok m call : olia_op_ok call → senders_ok M m → senders_ok M (olia_step m call).
Proof.
  intros Hc Hm. destruct call as [p op].
  assert (∀ o r, m !! p = Some (o, r) → senders_ok M (<[p := local_step o r op]> m)) as H.
  { intros o r E. rewrite (surjective_pairing (local_step o r op)). apply senders_insert; [done|].
    apply (local_ok o r op p); [done|]. exact (Hm p _ E). }
  unfold olia_step. cbn [fst snd].
  destruct op; try (destruct (m !! p) as [[]|]; [by apply H|done]). by apply senders_acked.
Qed.

Lemma olia_run_ok calls m : Forall olia_op_ok calls → senders_ok M m → senders_ok M (foldl olia_step m calls).
Proof.
  intros Hc. revert m. induction Hc as [|call calls Hc _ IH]; intros m Hm; [done|]. by apply IH, olia_step_ok.
Qed.
End olia_window.

Section olia_claims.
Import window olia_sender.

(** The map of new senders, one for each path. *)
Definition new_senders (initial M : Z) (rtts : gmap Z rtt_stats.RTTStats) : senders :=
  (λ r, (NewOliaSender initial M, r)) <$> rtts.

(** Under OLIA the congestion window of every path stays between one packet and its
    maximum, whatever calls are made on the senders of the paths in whatever order, with
    the RTT statistics of the paths changing arbitrarily in between, and in whatever order
    the shared map of senders is traversed. (A single path may go below the two packets
    that the code calls the minimum, when OLIA shifts traffic away from it.) *)
Theorem olia_windows_bounded M initial rtts calls :
  2 <= initial <= M → M <= 2 ^ 20 → Forall olia_op_ok calls →
  map_Forall (λ _ e, 1 <= cwnd e <= M ∧ window.GetCongestionWindow (win e.1) = cwnd e * protocol.DefaultTCPMSS)
    (foldl olia_step (new_senders initial M rtts) calls).
Proof.
  intros Hi HM Hc. assert (senders_ok M (new_senders initial M rtts)) as H0.
  { intros p e. unfold new_senders. rewrite lookup_fmap. intros (r & _ & ->)%fmap_Some.
    unfold entry_ok. cbn. split; cbn; unfold cubic.defaultNumConnections, maxEmulated; (done || lia). }
  intros p e He. pose proof (olia_run_ok M ltac:(lia) calls _ Hc H0 p e He) as Hw. unfold entry_ok in Hw.
  destruct (win_ok_bytes 1 M (win e.1)) as [E _]; [lia|lia|done|]. by destruct Hw.
Qed.

(** *** The epsilons *)

Lemma getMaxCwnd_max m p e : m !! p = Some e → cwnd e <= getMaxCwnd m.
Proof.
  revert p e. unfold getMaxCwnd. apply (map_fold_weak_ind (λ v m, ∀ p e, m !! p = Some e → cwnd e <= v)).
  { intros p e. by rewrite lookup_empty. }
  intros i x m' v _ IH p e. unfold utils.MaxPacketNumber.
  rewrite lookup_insert_Some. intros [[<- <-]|[_ He]].
  - case_match; rewrite ?Z.ltb_lt, ?Z.ltb_ge in *; lia.
  - specialize (IH p e He). case_match; rewrite ?Z.ltb_lt, ?Z.ltb_ge in *; lia.
Qed.

Lemma getMaxCwnd_attained m : (∀ p e, m !! p = Some e → 0 < cwnd e) →
  m = ∅ ∨ ∃ p e, m !! p = Some e ∧ cwnd e = getMaxCwnd m.
Proof.
  intros Hpos. cut (m = ∅ ∧ getMaxCwnd m = 0 ∨ ∃ p e, m !! p = Some e ∧ cwnd e = getMaxCwnd m); [tauto|].
  revert Hpos. unfold getMaxCwnd. apply (map_fold_weak_ind (λ v m, (∀ p e, m !! p = Some e → 0 < cwnd e) →
    m = ∅ ∧ v = 0 ∨ ∃ p e, m !! p = Some e ∧ cwnd e = v)); [by left|].
  intros i x m' v Hi IH Hpos. unfold utils.MaxPacketNumber. right.
  pose proof (Hpos i x (lookup_insert_eq _ _ _)).
  destruct (Z.ltb_spec (cwnd x) v); [|exists i, x; by rewrite lookup_insert_eq].
  destruct IH as [[-> ->]|(p & e & He & Hv)]; [|lia|].
  - intros p e He. apply (Hpos p e). rewrite lookup_insert_ne; [done|]. by intros ->; rewrite Hi in He.
  - exists p, e. split; [|done]. rewrite lookup_insert_ne; [done|]. by intros ->; rewrite Hi in He.
Qed.

(** The number of paths with a property. *)
Definition number (P : OliaSender * rtt_stats.RTTStats → bool) (m : senders) : Z :=
  len (List.filter P (map_to_list m).*2).

Lemma size_paths (m : senders) : Z.of_nat (size m) = len (map_to_list m).*2.
Proof. unfold len. rewrite length_fmap. by rewrite length_map_to_list. Qed.

(** An 8-bit counter counts the paths of a connection, which has at most 255. *)
Lemma count_number P (m : senders) : Z.of_nat (size m) <= 255 → count P m = number P m.
Proof.
  rewrite size_paths. unfold count, number. rewrite map_fold_foldr.
  induction (map_to_list m) as [|[k e] l IH]; [done|].
  cbn [foldr uncurry]. rewrite fmap_cons. cbn [snd List.filter].
  rewrite len_cons. intros Hl. rewrite IH by lia. pose proof (len_nonneg (List.filter P l.*2)).
  assert (len (List.filter P l.*2) <= len l.*2) by (unfold len; pose proof (filter_length_le P l.*2); lia).
  destruct (P e); [|done]. rewrite len_cons, u8_id by (unfold is_u8; lia). lia.
Qed.

(** The sum of a quantity over the paths. *)
Definition total (f : OliaSender * rtt_stats.RTTStats → Z) (m : senders) : Z :=
  foldr (λ e s, f e + s) 0 (map_to_list m).*2.

Lemma total_classes (P Q : OliaSender * rtt_stats.RTTStats → bool) a b (m : senders) :
  (∀ e, P e = true → Q e = false) →
  total (λ e, if P e then a else if Q e then b else 0) m = a * number P m + b * number Q m.
Proof.
  intros HPQ. unfold total, number. induction (map_to_list m).*2 as [|e l IH]; [unfold len; cbn; lia|].
  cbn [foldr List.filter]. rewrite IH. specialize (HPQ e). destruct (P e), (Q e); try (by specialize (HPQ eq_refl));
    rewrite ?len_cons; lia.
Qed.

Lemma total_fmap f g (m : senders) : total f (g <$> m) = total (f ∘ g) m.
Proof.
  unfold total. rewrite map_to_list_fmap, <- list_fmap_compose.
  induction (map_to_list m) as [|[k e] l IH]; [done|]. cbn in *. by rewrite IH.
Qed.

Definition epsilon (e : OliaSender * rtt_stats.RTTStats) : Z * Z :=
  (olia.epsilonNum (olia e.1), olia.epsilonDen (olia e.1)).

Lemma number_pos P m p e : m !! p = Some e → P e = true → 0 < number P m.
Proof.
  intros Hp HP. unfold number. assert (e ∈ List.filter P (map_to_list m).*2) as He.
  { rewrite list_elem_of_In, filter_In, <- list_elem_of_In. split; [|done].
    apply list_elem_of_fmap. exists (p, e). split; [done|]. by apply elem_of_map_to_list. }
  destruct (List.filter P (map_to_list m).*2); [by apply elem_of_nil in He|]. rewrite len_cons.
  pose proof (len_nonneg l). lia.
Qed.

Lemma number_exists P (m : senders) : number P m ≠ 0 → ∃ p e, m !! p = Some e ∧ P e = true.
Proof.
  unfold number. intros HB. destruct (List.filter _ _) as [|x l] eqn:El; [done|].
  assert (x ∈ List.filter P (map_to_list m).*2) as Hx by (rewrite El; by left).
  rewrite list_elem_of_In, filter_In, <- list_elem_of_In in Hx. destruct Hx as [Hx ?].
  apply list_elem_of_fmap in Hx as ([k e'] & -> & He). exists k, e'. split; [|done]. by apply elem_of_map_to_list.
Qed.

Lemma number_le P (m : senders) : 0 <= number P m <= Z.of_nat (size m).
Proof.
  rewrite size_paths. unfold number. split; [apply len_nonneg|].
  unfold len. pose proof (filter_length_le P (map_to_list m).*2). lia.
Qed.

(** The third loop on one path, with the sizes of the sets. *)
Lemma assign_epsilon m b p e : m !! p = Some e → Z.of_nat (size m) <= 255 →
  let n := Z.of_nat (size m) in
  epsilon (assign m b e) =
  if number (inBNotM m b) m =? 0 then (0, 1)
  else if inBNotM m b e then (1, n * number (inBNotM m b) m)
  else if inM m e then (-1, n * number (inM m) m)
  else (0, 1).
Proof.
  intros Hp Hn. cbv zeta. unfold assign. rewrite !count_number by done.
  pose proof (number_le (inBNotM m b) m). pose proof (number_le (inM m) m).
  rewrite (u32_id (Z.of_nat (size m))) by (unfold is_u32; lia).
  rewrite !u32_id by (unfold is_u32; nia).
  assert ((cwnd e <? getMaxCwnd m) && atLeast e b = inBNotM m b e) as ->.
  { unfold inBNotM, inM. pose proof (getMaxCwnd_max m p e Hp).
    destruct (Z.ltb_spec (cwnd e) (getMaxCwnd m)), (Z.eqb_spec (cwnd e) (getMaxCwnd m)); (done || lia). }
  repeat case_match; done.
Qed.

Lemma total_ext f g (m : senders) : (∀ p e, m !! p = Some e → f e = g e) → total f m = total g m.
Proof.
  intros H. unfold total. assert (∀ e, e ∈ (map_to_list m).*2 → f e = g e) as H'.
  { intros e ([k e'] & -> & He)%list_elem_of_fmap. apply (H k). by apply elem_of_map_to_list. }
  induction (map_to_list m).*2 as [|e l IH]; [done|]. cbn. rewrite IH, H'; [done|by left|].
  intros e' ?. apply H'. by right.
Qed.

(** What the third loop does, in the terms of [epsilon_balance]. *)
Section balance.
Context (m : senders) (order : list Z) (Hn : Z.of_nat (size m) <= 255).
Notation b := (best m order).
Notation n := (Z.of_nat (size m)).
Notation B := (number (inBNotM m b) m).
Notation K := (number (inM m) m).

Lemma assigned p e : m !! p = Some e →
  getEpsilon m order !! p = Some (assign m b e) ∧
  epsilon (assign m b e) =
    if B =? 0 then (0, 1) else if inBNotM m b e then (1, n * B) else if inM m e then (-1, n * K) else (0, 1).
Proof.
  intros E. split; [|by apply (assign_epsilon m b p)]. unfold getEpsilon. cbv zeta. by rewrite lookup_fmap, E.
Qed.

Lemma epsilon_sum w : (∀ p e, m !! p = Some e → 0 < cwnd e) →
  (∀ p e, getEpsilon m order !! p = Some e → ((epsilon e).2 | w)) →
  total (λ e, (epsilon e).1 * (w / (epsilon e).2)) (getEpsilon m order) = 0.
Proof.
  intros Hpos Hw. assert (total (λ e, (epsilon e).1 * (w / (epsilon e).2)) (getEpsilon m order) =
    total (λ e, if inBNotM m b e then (if B =? 0 then 0 else w / (n * B))
                else if inM m e then (if B =? 0 then 0 else - (w / (n * K))) else 0) m) as ->.
  { unfold getEpsilon. cbv zeta. rewrite total_fmap. apply total_ext. intros p e E. unfold compose.
    destruct (assigned p e E) as [_ ->].
    destruct (B =? 0), (inBNotM m b e), (inM m e); cbn [fst snd]; ring. }
  rewrite total_classes by (intros e; unfold inBNotM; destruct (inM m e); done).
  destruct (Z.eqb_spec B 0) as [HB|HB]; [lia|]. pose proof (number_le (inBNotM m b) m) as HB1.
  destruct (getMaxCwnd_attained m Hpos) as [Em|(p & e & E & Hmax)].
  { exfalso. assert (n = 0) as E0 by (by rewrite Em, map_size_empty). lia. }
  assert (inM m e = true) as HM by (apply Z.eqb_eq; done).
  pose proof (number_pos _ _ _ _ E HM) as HK.
  destruct (number_exists (inBNotM m b) m HB) as (p2 & e2 & E2 & HB2).
  destruct (assigned p e E) as [A1 A2], (assigned p2 e2 E2) as [A3 A4].
  rewrite (proj2 (Z.eqb_neq _ _) HB) in A2, A4. unfold inBNotM at 1 in A2. rewrite HM in A2. rewrite HB2 in A4.
  pose proof (Hw p _ A1) as [j Hj]. pose proof (Hw p2 _ A3) as [i Hi]. rewrite A2 in Hj. rewrite A4 in Hi.
  cbn [snd negb andb] in Hi, Hj. rewrite Hi at 1. rewrite Hj, !Z.div_mul by nia. nia.
Qed.

Lemma epsilon_sign p e' : getEpsilon m order !! p = Some e' →
  ∃ e, m !! p = Some e ∧ win e'.1 = win e.1 ∧ e'.2 = e.2 ∧
     lossBytes e' = lossBytes e ∧ ((epsilon e').1 > 0 → cwnd e < getMaxCwnd m) ∧
     ((epsilon e').1 < 0 → cwnd e = getMaxCwnd m).
Proof.
  intros E'. assert (∃ e, m !! p = Some e ∧ e' = assign m b e) as (e & E & ->).
  { unfold getEpsilon in E'. cbv zeta in E'. rewrite lookup_fmap in E'. apply fmap_Some in E' as (e & ? & ?). eauto. }
  exists e. split; [done|]. destruct (assigned p e E) as [_ ->]. pose proof (getMaxCwnd_max m p e E).
  assert (win (assign m b e).1 = win e.1 ∧ (assign m b e).2 = e.2 ∧ lossBytes (assign m b e) = lossBytes e) as (-> & -> & ->)
    by (unfold assign, lossBytes; repeat case_match; done).
  do 3 (split; [done|]).
  destruct (B =? 0); cbn [fst]; [lia|]. unfold inBNotM at 1 3, inM at 1 2 4 5.
  destruct (Z.eqb_spec (cwnd e) (getMaxCwnd m)), (atLeast e b); cbn [negb andb fst]; lia.
Qed.
End balance.

(** OLIA moves traffic between paths without adding any: after [getEpsilon], on a
    connection of up to 255 paths with windows of at least one packet and whatever the
    order of the traversal, the epsilons of the paths sum to zero (over every common
    denominator), a path with a positive epsilon has less than the largest window and one
    with a negative epsilon has the largest; the windows, the loss counters and the RTT
    statistics of the paths are unchanged. *)
Theorem epsilon_balance (m : senders) order :
  Z.of_nat (size m) <= 255 → (∀ p e, m !! p = Some e → 0 < cwnd e) →
  let m' := getEpsilon m order in
  (∀ w, (∀ p e, m' !! p = Some e → ((epsilon e).2 | w)) → total (λ e, (epsilon e).1 * (w / (epsilon e).2)) m' = 0) ∧
  (∀ p e', m' !! p = Some e' → ∃ e, m !! p = Some e ∧ win e'.1 = win e.1 ∧ e'.2 = e.2 ∧
     lossBytes e' = lossBytes e ∧ ((epsilon e').1 > 0 → cwnd e < getMaxCwnd m) ∧
     ((epsilon e').1 < 0 → cwnd e = getMaxCwnd m)).
Proof. intros Hn Hpos m'. split; [intros w Hw; by apply epsilon_sum|]. intros p e'. by apply epsilon_sign. Qed.

(** *** The best paths *)

(** The products that [getEpsilon] compares fit [int64]. *)
Definition no_overflow (m : senders) : Prop :=
  ∀ p e, m !! p = Some e → 0 < srtt e ∧ 0 <= lossBytes e < 2 ^ 63 ∧
    ∀ p' e', m !! p' = Some e' → lossBytes e * srtt e' ^ 2 < 2 ^ 63 ∧ srtt e' ^ 2 < 2 ^ 63.

(** [e] has at least as many bytes between losses, per squared RTT, as [e']. *)
Definition better (e e' : OliaSender * rtt_stats.RTTStats) : Prop :=
  lossBytes e' * srtt e ^ 2 <= lossBytes e * srtt e' ^ 2.

#[local] Instance better_dec e e' : Decision (better e e').
Proof. unfold better. apply _. Defined.

Lemma better_trans e1 e2 e3 : 0 < srtt e2 → better e1 e2 → better e2 e3 → better e1 e3.
Proof.
  unfold better. intros H H1 H2. assert (0 < srtt e2 ^ 2) by (apply Z.pow_pos_nonneg; lia).
  apply (Z.mul_le_mono_pos_r _ _ (srtt e2 ^ 2)); [done|].
  assert (0 <= srtt e1 ^ 2) by (rewrite Z.pow_2_r; apply Z.square_nonneg).
  assert (0 <= srtt e3 ^ 2) by (rewrite Z.pow_2_r; apply Z.square_nonneg). nia.
Qed.

Lemma atLeast_better m p e p' e' : no_overflow m → m !! p = Some e → m !! p' = Some e' →
  atLeast e (rtt2 e', lossBytes e') = bool_decide (better e e').
Proof.
  intros Hno E E'. destruct (Hno p e E) as (H1 & H2 & H3), (Hno p' e' E') as (H4 & H5 & H6).
  destruct (H3 p' e' E') as [H7 H8]. destruct (H6 p e E) as [H9 H10].
  unfold atLeast, rtt2. cbn [fst snd]. rewrite !Z.pow_2_r in *.
  assert (∀ z, 0 <= z < 2 ^ 63 → i64 z = z) as Hi by (intros; unfold i64; rewrite Z.mod_small; lia).
  rewrite (Hi (srtt e * srtt e)), (Hi (srtt e' * srtt e')), (Hi (lossBytes e)), (Hi (lossBytes e')) by nia.
  rewrite !Hi by nia. apply eq_true_iff_eq. rewrite Z.leb_le, bool_decide_eq_true.
  unfold better. by rewrite !Z.pow_2_r.
Qed.

Lemma best_spec m order : no_overflow m → (∀ p, p ∈ order ↔ is_Some (m !! p)) → m ≠ ∅ →
  ∃ p e, m !! p = Some e ∧ best m order = (rtt2 e, lossBytes e) ∧
    ∀ p' e', m !! p' = Some e' → better e e'.
Proof.
  intros Hno Hord Hne. unfold best. set (l := omap (m !!.) order).
  assert (∀ e, e ∈ l ↔ ∃ p, m !! p = Some e) as Hl.
  { intros e. unfold l. rewrite list_elem_of_omap. split; [intros (p & _ & ?); eauto|].
    intros [p E]. exists p. split; [apply Hord; eauto|done]. }
  cut (l = [] ∨ ∃ e, e ∈ l ∧ foldl (λ b e, if atLeast e b then (rtt2 e, lossBytes e) else b) (0, 0) l =
    (rtt2 e, lossBytes e) ∧ ∀ e', e' ∈ l → better e e').
  { intros [El|(e & [p E]%Hl & Eb & Hb)].
    - exfalso. apply Hne, map_empty. intros p. apply eq_None_not_Some. intros [e E].
      assert (e ∈ l) as He by (apply Hl; eauto). rewrite El in He. by apply elem_of_nil in He.
    - exists p, e. split; [done|]. split; [done|]. intros p' e' E'. apply Hb, Hl. eauto. }
  assert (∀ e, e ∈ l → ∃ p, m !! p = Some e) as Hin by (intros; by apply Hl). clear Hl. clearbody l. clear Hord Hne.
  induction l as [|e l IH] using rev_ind; [by left|right]. rewrite foldl_snoc.
  destruct (Hin e) as [p Ep]; [apply elem_of_app; right; by left|].
  destruct IH as [->|(eb & Heb & Eb & Hb)].
  { intros e' He'. apply Hin, elem_of_app. by left. }
  - exists e. split; [by left|]. cbn [foldl]. unfold atLeast. cbn [fst snd]. rewrite !Z.mul_0_r.
    split; [done|]. intros e' [->|[]%elem_of_nil]%elem_of_cons. unfold better. lia.
  - destruct (Hin eb) as [pb Epb]; [apply elem_of_app; by left|].
    rewrite Eb, (atLeast_better m p e pb eb) by done.
    destruct (bool_decide_reflect (better e eb)) as [Hbt|Hbt].
    + exists e. split; [apply elem_of_app; right; by left|]. split; [done|].
      intros e' [He'|[->|[]%elem_of_nil]%elem_of_cons]%elem_of_app; [|unfold better; lia].
      apply (better_trans e eb e'); [by apply (Hno pb)|done|by apply Hb].
    + exists eb. split; [apply elem_of_app; by left|]. split; [done|].
      intros e' [He'|[->|[]%elem_of_nil]%elem_of_cons]%elem_of_app; [by apply Hb|]. unfold better in *. lia.
Qed.

(** C37: As long as its products fit 64 bits, [getEpsilon] does what OLIA specifies. On a
    connection of up to 255 paths whose RTTs have been measured, in whatever order the
    map is traversed: the paths that send the most bytes between losses per squared RTT
    and do not have the largest window (the set B without M) get the epsilon
    1 / (n |B - M|), the paths with the largest window (the set M) get -1 / (n |M|), unless
    every best path has the largest window already, and the others get zero. *)
Theorem epsilon_specified (m : senders) order p e :
  Z.of_nat (size m) <= 255 → no_overflow m → (∀ p, p ∈ order ↔ is_Some (m !! p)) → m !! p = Some e →
  let isBest e := bool_decide (map_Forall (λ _ e', better e e') m) in
  let n := Z.of_nat (size m) in
  let B := number (λ e, negb (cwnd e =? getMaxCwnd m) && isBest e) m in
  let M := number (λ e, cwnd e =? getMaxCwnd m) m in
  epsilon <$> getEpsilon m order !! p =
  Some (if B =? 0 then (0, 1)
        else if negb (cwnd e =? getMaxCwnd m) && isBest e then (1, n * B)
        else if cwnd e =? getMaxCwnd m then (-1, n * M)
        else (0, 1)).
Proof.
  intros Hn Hno Hord E isBest n B M.
  assert (m ≠ ∅) as Hne by (intros ->; by rewrite lookup_empty in E).
  destruct (best_spec m order Hno Hord Hne) as (pb & eb & Epb & Eb & Hb).
  assert (∀ p e, m !! p = Some e → inBNotM m (best m order) e = negb (cwnd e =? getMaxCwnd m) && isBest e) as HB.
  { intros q x Ex. unfold inBNotM, inM, isBest. f_equal. rewrite Eb, (atLeast_better m q x pb eb) by done.
    apply bool_decide_ext. split; [|intros H; by apply (H pb)].
    intros H q' x' Ex'. apply (better_trans x eb x'); [by apply (Hno pb)|done|by apply (Hb q')]. }
  assert (number (inBNotM m (best m order)) m = B) as EB.
  { unfold B, number. f_equal. apply filter_ext_in. intros x Hx. rewrite <- list_elem_of_In in Hx.
    apply list_elem_of_fmap in Hx as ([k x'] & -> & Hx). apply (HB k). by apply elem_of_map_to_list. }
  destruct (assigned m order Hn p e E) as [-> A]. cbn [fmap option_fmap option_map]. rewrite A, EB, (HB p e E). done.
Qed.

(** *** A single path *)

Lemma single_rate p o r : 0 < rtt_stats.smoothedRTT r < 2 ^ 40 → 1 <= congestionWindow (win o) <= 2 ^ 13 →
  getRate {[p := (o, r)]} (rtt_stats.smoothedRTT r) = (1024 * congestionWindow (win o) + 1) ^ 2.
Proof.
  intros Hr Hw. unfold getRate, srtt, cwnd, olia.oliaScale, olia.scale. rewrite map_fold_singleton. cbn [fst snd].
  destruct (Z.eqb_spec (rtt_stats.smoothedRTT r) 0); [lia|].
  rewrite Z.shiftl_mul_pow2 by lia. change (2 ^ 10) with 1024.
  rewrite (u64_id (congestionWindow (win o) * 1024)) by (unfold is_u64; lia).
  rewrite (u64_id (rtt_stats.smoothedRTT r)) by (unfold is_u64; lia).
  rewrite (u64_id (congestionWindow (win o) * 1024 * rtt_stats.smoothedRTT r)) by (unfold is_u64; nia).
  rewrite Z.div_mul by lia. rewrite (u64_id (1 + congestionWindow (win o) * 1024)) by (unfold is_u64; lia).
  rewrite u64_id by (unfold is_u64; nia). ring.
Qed.

Lemma single_increase o w : olia.epsilonNum o = 0 → olia.epsilonDen o = 1 → 1 <= w <= 2 ^ 13 →
  -1023 < olia.sndCwndCnt o < 1023 →
  ∃ inc, olia.increase o w ((1024 * w + 1) ^ 2) (olia.oliaScale w olia.scale) = olia.sndCwndCnt o + inc ∧
    0 <= inc ∧ inc * w < 1024.
Proof.
  intros En Ed Hw Hc. unfold olia.increase, olia.oliaScale, olia.scale. rewrite En, Ed.
  rewrite !Z.shiftl_mul_pow2 by lia. change (2 ^ 10) with 1024. rewrite !Z.mul_1_l.
  rewrite (u64_id (w * 1024)), (u64_id w) by (unfold is_u64; lia). cbn [Z.eqb].
  replace ((1024 * w + 1) ^ 2) with ((1024 * w + 1) * (1024 * w + 1)) by ring.
  assert (w * w <= 2 ^ 26) as H2 by nia. assert (w * (w * w) <= 2 ^ 39) as H3 by nia.
  rewrite (u64_id (w * 1024)) by (unfold is_u64; lia).
  rewrite (u64_id (w * 1024 * (w * 1024))) by (unfold is_u64; nia).
  rewrite (u64_id (w * ((1024 * w + 1) * (1024 * w + 1)))) by (unfold is_u64; nia).
  destruct (Z.eqb_spec (w * ((1024 * w + 1) * (1024 * w + 1))) 0); [nia|].
  rewrite (u64_id 0), Z.mul_0_l, (u64_id 0), Z.add_0_l by done.
  rewrite (u64_id (w * 1024 * (w * 1024))) by (unfold is_u64; nia).
  rewrite (u64_id (w * 1024 * (w * 1024) * 1024)) by (unfold is_u64; nia).
  set (den := w * ((1024 * w + 1) * (1024 * w + 1))). assert (0 < den) by (unfold den; nia).
  set (inc := w * 1024 * (w * 1024) * 1024 / den).
  assert (0 <= inc) by (apply Z.div_pos; nia).
  assert (inc * w < 1024).
  { assert (inc * den <= w * 1024 * (w * 1024) * 1024) by (unfold inc; rewrite Z.mul_comm; apply Z.mul_div_le; lia).
    unfold den in *. nia. }
  exists inc. split; [|done]. assert (inc < 1024) by nia.
  unfold i64. rewrite !Z.mod_small; lia.
Qed.

Lemma single_epsilon p o r order : 0 <= congestionWindow (win o) →
  getEpsilon {[p := (o, r)]} order = {[p := (MkOliaSender (win o) (olia.set_epsilon (olia o) 0 1), r)]}.
Proof.
  intros Hw. unfold getEpsilon. cbv zeta. rewrite map_fmap_singleton. f_equal. unfold assign.
  set (m := {[p := (o, r)]} : senders).
  assert (getMaxCwnd m = congestionWindow (win o)) as Em.
  { unfold getMaxCwnd, m. rewrite map_fold_singleton. unfold utils.MaxPacketNumber, cwnd. cbn [fst].
    case_match; rewrite ?Z.ltb_lt, ?Z.ltb_ge in *; lia. }
  assert (count (inBNotM m (best m order)) m = 0) as ->; [|done].
  unfold count, m at 3. rewrite map_fold_singleton. unfold inBNotM, inM. rewrite Em. unfold cwnd. cbn [fst].
  by rewrite Z.eqb_refl.
Qed.

(** A connection with one OLIA path, out of slow start and up to 8192 packets: an
    acknowledgement increases the window by at most one packet and never decreases it;
    but the increase is a multiple of 1/1024 packet, rounded down, of less than 1/window,
    so from 1024 packets on it is zero and the window does not grow any more, although the
    default maximum is 2500. *)
Theorem olia_single_path_stalls M p o r order bif :
  1 <= M <= 2 ^ 13 → win_ok 1 M (win o) → InSlowStart (win o) = false →
  0 < rtt_stats.smoothedRTT r < 2 ^ 40 → -1023 < olia.sndCwndCnt (olia o) < 1023 →
  ∃ o', maybeIncreaseCwnd {[p := (o, r)]} p order bif = {[p := (o', r)]} ∧
    congestionWindow (win o) <= congestionWindow (win o') <= congestionWindow (win o) + 1 ∧
    (1024 <= congestionWindow (win o) → congestionWindow (win o') = congestionWindow (win o) ∧
       olia.sndCwndCnt (olia o') = olia.sndCwndCnt (olia o)).
Proof.
  intros HM Hw Hss Hr Hc. unfold maybeIncreaseCwnd. rewrite lookup_singleton_eq. cbv zeta.
  destruct (isCwndLimited (win o) bif); cbn [negb]; [|exists o; split; [done|lia]].
  destruct (Z.leb_spec (maxTCPCongestionWindow (win o)) (congestionWindow (win o))); [exists o; split; [done|lia]|].
  assert (1 <= congestionWindow (win o) < M) as Hcw by (destruct Hw; lia).
  assert (maxTCPCongestionWindow (win o) = M) as EM by (by destruct Hw).
  rewrite Hss, single_epsilon, lookup_singleton_eq, single_rate by (cbn [win]; lia). cbn [win olia].
  set (w := congestionWindow (win o)) in *. set (k := olia.set_epsilon (olia o) 0 1).
  destruct (single_increase k w) as (inc & Ei & Hi & Hiw); [done|done|lia|done|].
  unfold olia.CongestionWindowAfterAck. rewrite Ei. change (olia.sndCwndCnt k) with (olia.sndCwndCnt (olia o)) in *.
  destruct (Z.leb_spec 1023 (olia.sndCwndCnt (olia o) + inc)) as [H1|H1].
  - eexists. split; [apply insert_singleton_eq|]. cbn [win set_congestionWindow congestionWindow olia].
    rewrite u64_id by (unfold is_u64; lia). unfold utils.MinPacketNumber. rewrite EM.
    split; [case_match; rewrite ?Z.ltb_lt, ?Z.ltb_ge in *; lia|]. intros. assert (inc = 0) by nia. lia.
  - destruct (Z.leb_spec (olia.sndCwndCnt (olia o) + inc) (-1023)); [lia|].
    eexists. split; [apply insert_singleton_eq|]. cbn [win set_congestionWindow congestionWindow olia].
    unfold utils.MinPacketNumber. rewrite EM.
    destruct (Z.ltb_spec M w); [lia|]. split; [lia|]. intros. assert (inc = 0) by nia. cbn. lia.
Qed.

End olia_claims.

(** ** The handler of a path with OLIA *)

Section olia_handler.
Import sentPacketHandler olia_sender.
Context (path : Z) (orders : nat → list Z).

(** The map of senders, with the number of traversals so far. *)
Notation traversed := (nat * senders)%type.

(** The statistics of the path are those that its handler updates. *)
Definition share (m : senders) (r : rtt_stats.RTTStats) : senders := olia_step m (path, ORtt r).
Definition call (c : traversed) (r : rtt_stats.RTTStats) (op : olia_op) : traversed :=
  (c.1, olia_step (share c.2 r) (path, op)).

#[export] Instance olia_SendAlgorithm : SendAlgorithm rtt_stats.RTTStats traversed := {
  OnPacketSent c r now bif pn bytes b := call c r (OSent pn bytes b);
  GetCongestionWindow c r :=
    match c.2 !! path with Some (o, _) => olia_sender.GetCongestionWindow o | None => 0 end;
  MaybeExitSlowStart c r := call c r OExit;
  OnPacketAcked c r pn bytes bif := (S c.1, (call c r (OAcked (orders c.1) pn bytes bif)).2);
  OnPacketLost c r pn bytes bif := call c r (OLost pn bytes bif);
  OnRetransmissionTimeout c r b := call c r (OTimeout b);
  RetransmissionDelay _ r := olia_sender.RetransmissionDelay r;
  AlgSmoothedRTT _ r := olia_sender.SmoothedRTT r;
}.

(** The path has a sender, and all windows are within their limits. *)
Definition within_limits (c : traversed) : Prop :=
  senders_ok protocol.DefaultMaxCongestionWindow c.2 ∧ is_Some (c.2 !! path).

Lemma lookup_epsilon m order p : is_Some (m !! p) → is_Some (getEpsilon m order !! p).
Proof. unfold getEpsilon. cbv zeta. rewrite lookup_fmap. intros [e ->]. by eexists. Qed.

Lemma increase_keeps_path m p order bif : is_Some (m !! p) → is_Some (maybeIncreaseCwnd m p order bif !! p).
Proof.
  intros Hp. pose proof (lookup_epsilon m order p Hp) as [[o' r'] E'].
  unfold maybeIncreaseCwnd. destruct Hp as [[o r] Ep]. rewrite Ep, E'. cbv zeta.
  repeat case_match; rewrite ?lookup_insert_eq; eauto.
Qed.

Lemma step_keeps_path m p op : is_Some (m !! p) → is_Some (olia_step m (p, op) !! p).
Proof.
  intros Hp. unfold olia_step. cbn [fst snd].
  assert (∀ e, is_Some ((<[p := e]> m : senders) !! p)) as Hi by (intros; rewrite lookup_insert_eq; eauto).
  destruct Hp as [[o r] Ep].
  destruct op as [| order pn bytes bif| | | | | | |]; rewrite ?Ep; auto. unfold OnPacketAcked. rewrite Ep. cbv zeta.
  case_match; [apply Hi|].
  match goal with |- context [maybeIncreaseCwnd ?m0 _ _ _] =>
    destruct (increase_keeps_path m0 p order bif) as [[o1 r1] E1]; [apply Hi|] end.
  rewrite E1. case_match; [rewrite lookup_insert_eq|rewrite E1]; eauto.
Qed.

Lemma call_limits c r op : olia_op_ok (path, op) → within_limits c → within_limits (call c r op).
Proof.
  assert (2 <= protocol.DefaultMaxCongestionWindow <= 2 ^ 20) as HM by (unfold protocol.DefaultMaxCongestionWindow; lia).
  intros Hop [H1 H2]. split; cbn [call snd].
  - apply olia_step_ok; [done|done|]. by apply (olia_step_ok _ HM).
  - by apply step_keeps_path, (step_keeps_path _ _ (ORtt r)).
Qed.

#[export] Instance within_limits_preserved : Preserved within_limits.
Proof.
  split; intros; try (by apply call_limits).
Qed.

(** The handler of a path under OLIA, in every state that it reaches from senders
    within their limits: whatever the handler calls, and in whatever order the shared map
    is traversed, the window of the path stays between one and 2500 segments (as do those
    of the other paths); sending is refused, unless a retransmission waits, while more
    than 2500 segments are in flight, and allowed with at most one segment in flight and
    room to track another packet. *)
Theorem olia_handler_limits rtt m evs h :
  senders_ok protocol.DefaultMaxCongestionWindow m → is_Some (m !! path) →
  run (NewSentPacketHandler rtt (0%nat, m) path) evs h →
  senders_ok protocol.DefaultMaxCongestionWindow (congestion h).2 ∧
  (SendingAllowed h = true → retransmissionQueue h = [] →
     bytesInFlight h <= protocol.DefaultMaxCongestionWindow * protocol.DefaultTCPMSS) ∧
  (bytesInFlight h <= protocol.DefaultTCPMSS →
     len (retransmissionQueue h) + len (packetHistory h) < protocol.MaxTrackedSentPackets →
     SendingAllowed h = true).
Proof.
  intros Hm Hp Hr. destruct (run_congestion within_limits _ _ _ Hr (conj Hm Hp)) as [Ho [[o r] Eo]].
  split; [done|].
  assert (protocol.DefaultTCPMSS <= SentPackets.GetCongestionWindow (congestion h) (rttStats h)
    <= protocol.DefaultMaxCongestionWindow * protocol.DefaultTCPMSS) as Hc.
  { assert (SentPackets.GetCongestionWindow (congestion h) (rttStats h) = window.GetCongestionWindow (win o)) as ->.
    { transitivity (match (congestion h).2 !! path with
                    | Some (o, _) => window.GetCongestionWindow (win o) | None => 0 end); [done|by rewrite Eo]. }
    pose proof (Ho path _ Eo) as Hw. unfold entry_ok in Hw.
    cbn [fst] in Hw.
    destruct (win_ok_bytes 1 protocol.DefaultMaxCongestionWindow (win o)) as [-> _]; [lia|done|done|].
    destruct Hw. unfold protocol.DefaultTCPMSS. lia. }
  unfold SendingAllowed. cbv zeta. split.
  - intros Ha Eq. rewrite Eq, andb_true_iff, orb_true_iff in Ha. destruct Ha as [_ [Ha|Ha]]; [|done].
    apply negb_true_iff, Z.ltb_ge in Ha. lia.
  - intros Hb Ht. apply andb_true_iff. split; [apply negb_true_iff, Z.leb_gt; lia|].
    apply orb_true_iff. left. apply negb_true_iff, Z.ltb_ge. lia.
Qed.
End olia_handler.

(** ** Witnesses *)

Module OliaExamples.
Import window olia_sender.

Definition path_with (w bytes : Z) : OliaSender :=
  MkOliaSender (set_slowstartThreshold 1 (set_congestionWindow w (NewWindow 32 2500)))
    (olia.MkOlia 0 0 bytes 0 1 0).
Definition rtt_of (us : Z) : rtt_stats.RTTStats :=
  rtt_stats.UpdateRTT rtt_stats.NewRTTStats (us * time.Microsecond) 0 1.

(** Two paths: the first has the better rate, the second the larger window. *)
Definition two_paths (us bytes : Z) : senders :=
  {[1 := (path_with 10 bytes, rtt_of us); 3 := (path_with 20 1350, rtt_of us)]}.

Lemma olia_windows_bounded_witness :
  let rtts := {[1 := rtt_of 1000; 3 := rtt_of 2000]} in
  let calls := [(1, OSent 1 1350 true); (3, OSent 1 1350 true); (1, OAcked [3; 1] 1 1350 46720);
                (3, OLost 1 1350 1350); (3, OSent 2 1350 true); (3, OAcked [1; 3] 2 1350 46720);
                (1, OTimeout true)] in
  map_Forall (λ _ e, 1 <= cwnd e <= 2500 ∧ window.GetCongestionWindow (win e.1) = cwnd e * protocol.DefaultTCPMSS)
    (foldl olia_step (new_senders 32 2500 rtts) calls) ∧
  cwnd <$> foldl olia_step (new_senders 32 2500 rtts) calls !! 1 = Some 2 ∧
  cwnd <$> foldl olia_step (new_senders 32 2500 rtts) calls !! 3 = Some 27.
Proof.
  split; [|vm_compute; split; reflexivity].
  apply (olia_windows_bounded 2500 32 {[1 := rtt_of 1000; 3 := rtt_of 2000]}); [lia|lia|].
  repeat (apply Forall_cons_2; [exact I|]). apply Forall_nil_2.
Defined.

Lemma epsilon_balance_witness :
  let m := two_paths 1000 20000 in
  total (λ e, (epsilon e).1 * (6 / (epsilon e).2)) (getEpsilon m [1; 3]) = 0 ∧
  epsilon <$> getEpsilon m [1; 3] !! 1 = Some (1, 2) ∧ epsilon <$> getEpsilon m [1; 3] !! 3 = Some (-1, 2).
Proof.
  split; [|vm_compute; split; reflexivity].
  apply (epsilon_balance (two_paths 1000 20000) [1; 3]).
  - vm_compute. congruence.
  - apply (map_Forall_to_list (λ _ e, 0 < cwnd e)). vm_compute. repeat constructor.
  - apply (map_Forall_to_list (λ _ e, ((epsilon e).2 | 6))). 
    apply Forall_cons_2; [exists 3; reflexivity|]. apply Forall_cons_2; [exists 3; reflexivity|]. apply Forall_nil_2.
Defined.

Lemma two_paths_order us bytes p : p ∈ [3; 1] ↔ is_Some (two_paths us bytes !! p).
Proof.
  unfold two_paths. rewrite lookup_insert_is_Some, lookup_singleton_is_Some, !elem_of_cons, elem_of_nil. lia.
Qed.

(** What holds of both paths. *)
Lemma two_paths_all us bytes (P : OliaSender * rtt_stats.RTTStats → Prop) :
  P (path_with 10 bytes, rtt_of us) → P (path_with 20 1350, rtt_of us) →
  ∀ p e, two_paths us bytes !! p = Some e → P e.
Proof.
  intros H1 H3. apply (map_Forall_insert_2 (λ _, P)); [done|]. by apply map_Forall_singleton.
Qed.

Lemma two_paths_no_overflow : no_overflow (two_paths 1000 20000).
Proof.
  assert (∀ b, b = 20000 ∨ b = 1350 → ∀ p' e', two_paths 1000 20000 !! p' = Some e' →
    b * srtt e' ^ 2 < 2 ^ 63 ∧ srtt e' ^ 2 < 2 ^ 63) as H.
  { intros b [->| ->]; apply (two_paths_all 1000 20000); split; reflexivity. }
  unfold no_overflow. apply two_paths_all.
  - split; [reflexivity|]. split; [vm_compute; split; congruence|]. apply H. by left.
  - split; [reflexivity|]. split; [vm_compute; split; congruence|]. apply H. by right.
Qed.

Lemma epsilon_specified_witness :
  no_overflow (two_paths 1000 20000) ∧ epsilon <$> getEpsilon (two_paths 1000 20000) [3; 1] !! 1 = Some (1, 2).
Proof.
  split; [exact two_paths_no_overflow|].
  rewrite (epsilon_specified (two_paths 1000 20000) [3; 1] 1 (path_with 10 20000, rtt_of 1000)).
  - vm_compute. reflexivity.
  - vm_compute. congruence.
  - exact two_paths_no_overflow.
  - exact (two_paths_order 1000 20000).
  - reflexivity.
Defined.

(** One path with a window of 1100 packets and 1000 acknowledged bytes. *)
Lemma olia_single_path_stalls_witness :
  let o := path_with 1100 1000 in
  ∃ o', maybeIncreaseCwnd {[1 := (o, rtt_of 1000)]} 1 [1] 1606000 = {[1 := (o', rtt_of 1000)]} ∧
    congestionWindow (win o') = 1100.
Proof.
  destruct (olia_single_path_stalls 2500 1 (path_with 1100 1000) (rtt_of 1000) [1] 1606000) as (o' & E & _ & H).
  - lia.
  - split; vm_compute; (reflexivity || split; congruence).
  - vm_compute. reflexivity.
  - vm_compute. split; congruence.
  - vm_compute. split; congruence.
  - exists o'. split; [exact E|]. apply H. vm_compute. congruence.
Defined.

Definition all_paths (n : nat) : list Z := [1; 3].
Import sentPacketHandler.
#[local] Instance path1 : SendAlgorithm rtt_stats.RTTStats (nat * senders)%type := olia_SendAlgorithm 1 all_paths.

Definition olia_start : @sentPacketHandler rtt_stats.RTTStats (nat * senders)%type :=
  NewSentPacketHandler (rtt_of 1000) (0%nat, two_paths 1000 20000) 1.
Definition olia_sent : @sentPacketHandler rtt_stats.RTTStats (nat * senders)%type :=
  (SentPacket olia_start 1000 (SentExamples.ping 1)).1.

Lemma run_olia_sent : run olia_start [Tracked 1] olia_sent.
Proof.
  apply (run_step olia_start [] olia_start [Tracked 1]); [constructor|].
  apply (step_sent olia_start 1000 (SentExamples.ping 1) olia_sent); [reflexivity|split; [|reflexivity]|vm_compute; reflexivity].
  vm_compute. congruence.
Qed.

Lemma olia_handler_limits_witness :
  senders_ok protocol.DefaultMaxCongestionWindow (congestion olia_sent).2 ∧ SendingAllowed olia_sent = true.
Proof.
  destruct (olia_handler_limits 1 all_paths (rtt_of 1000) (two_paths 1000 20000) [Tracked 1] olia_sent) as (H1 & _ & H3).
  - unfold senders_ok, map_Forall. apply two_paths_all; (split; vm_compute; (reflexivity || split; congruence)).
  - vm_compute. eauto.
  - exact run_olia_sent.
  - split; [exact H1|]. apply H3; vm_compute; (reflexivity || congruence).
Defined.

(** With round trips of 50 ms and 20000 bytes between losses the products overflow: the
    path with the better rate is not recognised, in either order. *)
Theorem epsilon_overflows :
  let m := two_paths 50000 20000 in
  match m !! 1, m !! 3 with
  | Some e1, Some e3 => better e1 e3 ∧ ~ better e3 e1 ∧ cwnd e1 < cwnd e3
  | _, _ => False
  end ∧
  epsilon <$> getEpsilon m [1; 3] !! 1 = Some (0, 1) ∧ epsilon <$> getEpsilon m [3; 1] !! 1 = Some (0, 1).
Proof. vm_compute. split; [|split; reflexivity]. split; [congruence|]. split; [|reflexivity]. intros H. by apply H. Qed.

End OliaExamples.
