(* ===== verification/FlowControl.v ===== *)
(** * Flow control

    [internal/flowcontrol]: the flow controller of one stream or of the connection,
    and the manager that keeps one for every stream. The connection parameters, the
    RTT and the RTTs that the peer announced are shared with other components; what a
    method reads of them is an argument. *)

From S2P Require Import Prelude Protocol GoFloat.

(** What flow control reads of the [ConnectionParametersManager]. *)
Record ConnectionParameters := MkParameters {
  GetSendStreamFlowControlWindow : Z;
  GetSendConnectionFlowControlWindow : Z;
  GetReceiveStreamFlowControlWindow : Z;
  GetMaxReceiveStreamFlowControlWindow : Z;
  GetReceiveConnectionFlowControlWindow : Z;
  GetMaxReceiveConnectionFlowControlWindow : Z;
}.

(** What an update of a window reads: the clock for [time.Since] and then for
    [time.Now], the smoothed RTT of the session and the RTTs that the peer sent for
    its paths. *)
Record Clock := MkClock {
  sinceNow : Z;
  now : Z;
  smoothedRTT : Z;
  remoteRTTs : gmap Z Z;
}.

Definition maxRemoteRTT (c : Clock) : Z :=
  map_fold (λ _ remoteRTT acc, utils.MaxDuration acc remoteRTT) 0 (remoteRTTs c).

(** ** flow_controller.go *)
Module flowController.
Import protocol.

Definition ErrReceivedSmallerByteOffset : error := NewError "Received a smaller byte offset".

Record flowController := MkController {
  streamID : Z;
  contributesToConnection : bool;
  bytesSent : Z;
  sendWindow : Z;
  bytesRetrans : Z;
  lastWindowUpdateTime : Z;
  bytesRead : Z;
  highestReceived : Z;
  receiveWindow : Z;
  receiveWindowIncrement : Z;
  maxReceiveWindowIncrement : Z;
}.

#[global] Instance flowController_eq_dec : EqDecision flowController.
Proof. solve_decision. Defined.

Definition set_bytesSent (v : Z) (c : flowController) : flowController :=
  MkController (streamID c) (contributesToConnection c) v (sendWindow c) (bytesRetrans c)
    (lastWindowUpdateTime c) (bytesRead c) (highestReceived c) (receiveWindow c)
    (receiveWindowIncrement c) (maxReceiveWindowIncrement c).
Definition set_sendWindow (v : Z) (c : flowController) : flowController :=
  MkController (streamID c) (contributesToConnection c) (bytesSent c) v (bytesRetrans c)
    (lastWindowUpdateTime c) (bytesRead c) (highestReceived c) (receiveWindow c)
    (receiveWindowIncrement c) (maxReceiveWindowIncrement c).
Definition set_bytesRetrans (v : Z) (c : flowController) : flowController :=
  MkController (streamID c) (contributesToConnection c) (bytesSent c) (sendWindow c) v
    (lastWindowUpdateTime c) (bytesRead c) (highestReceived c) (receiveWindow c)
    (receiveWindowIncrement c) (maxReceiveWindowIncrement c).
Definition set_lastWindowUpdateTime (v : Z) (c : flowController) : flowController :=
  MkController (streamID c) (contributesToConnection c) (bytesSent c) (sendWindow c) (bytesRetrans c)
    v (bytesRead c) (highestReceived c) (receiveWindow c)
    (receiveWindowIncrement c) (maxReceiveWindowIncrement c).
Definition set_bytesRead (v : Z) (c : flowController) : flowController :=
  MkController (streamID c) (contributesToConnection c) (bytesSent c) (sendWindow c) (bytesRetrans c)
    (lastWindowUpdateTime c) v (highestReceived c) (receiveWindow c)
    (receiveWindowIncrement c) (maxReceiveWindowIncrement c).
Definition set_highestReceived (v : Z) (c : flowController) : flowController :=
  MkController (streamID c) (contributesToConnection c) (bytesSent c) (sendWindow c) (bytesRetrans c)
    (lastWindowUpdateTime c) (bytesRead c) v (receiveWindow c)
    (receiveWindowIncrement c) (maxReceiveWindowIncrement c).
Definition set_receiveWindow (v : Z) (c : flowController) : flowController :=
  MkController (streamID c) (contributesToConnection c) (bytesSent c) (sendWindow c) (bytesRetrans c)
    (lastWindowUpdateTime c) (bytesRead c) (highestReceived c) v
    (receiveWindowIncrement c) (maxReceiveWindowIncrement c).
Definition set_receiveWindowIncrement (v : Z) (c : flowController) : flowController :=
  MkController (streamID c) (contributesToConnection c) (bytesSent c) (sendWindow c) (bytesRetrans c)
    (lastWindowUpdateTime c) (bytesRead c) (highestReceived c) (receiveWindow c)
    v (maxReceiveWindowIncrement c).

Definition newFlowController (id : Z) (contributes : bool) (cp : ConnectionParameters) : flowController :=
  if id =? 0 then
    MkController id contributes 0 0 0 time.zero 0 0 (GetReceiveConnectionFlowControlWindow cp)
      (GetReceiveConnectionFlowControlWindow cp) (GetMaxReceiveConnectionFlowControlWindow cp)
  else
    MkController id contributes 0 0 0 time.zero 0 0 (GetReceiveStreamFlowControlWindow cp)
      (GetReceiveStreamFlowControlWindow cp) (GetMaxReceiveStreamFlowControlWindow cp).

Definition ContributesToConnection (c : flowController) : bool := contributesToConnection c.

Definition getSendWindow (cp : ConnectionParameters) (c : flowController) : Z :=
  if sendWindow c =? 0 then
    if streamID c =? 0 then GetSendConnectionFlowControlWindow cp else GetSendStreamFlowControlWindow cp
  else sendWindow c.

Definition AddBytesSent (n : Z) (c : flowController) : flowController := set_bytesSent (u64 (bytesSent c + n)) c.
Definition GetBytesSent (c : flowController) : Z := bytesSent c.
Definition AddBytesRetrans (n : Z) (c : flowController) : flowController :=
  set_bytesRetrans (u64 (bytesRetrans c + n)) c.
Definition GetBytesRetrans (c : flowController) : Z := bytesRetrans c.

Definition UpdateSendWindow (newOffset : Z) (c : flowController) : flowController * bool :=
  if sendWindow c <? newOffset then (set_sendWindow newOffset c, true) else (c, false).

Definition SendWindowSize (cp : ConnectionParameters) (c : flowController) : Z :=
  if getSendWindow cp c <? bytesSent c then 0 else u64 (getSendWindow cp c - bytesSent c).

Definition SendWindowOffset (cp : ConnectionParameters) (c : flowController) : Z := getSendWindow cp c.

Definition UpdateHighestReceived (byteOffset : Z) (c : flowController) : flowController * Z * option error :=
  if byteOffset =? highestReceived c then (c, 0, None)
  else if highestReceived c <? byteOffset then
    (set_highestReceived byteOffset c, u64 (byteOffset - highestReceived c), None)
  else (c, 0, Some ErrReceivedSmallerByteOffset).

Definition IncrementHighestReceived (increment : Z) (c : flowController) : flowController :=
  set_highestReceived (u64 (highestReceived c + increment)) c.

Definition AddBytesRead (n time : Z) (c : flowController) : flowController :=
  let c := if bytesRead c =? 0 then set_lastWindowUpdateTime time c else c in
  set_bytesRead (u64 (bytesRead c + n)) c.

Definition maybeAdjustWindowIncrement (clock : Clock) (c : flowController) : flowController :=
  if time.IsZero (lastWindowUpdateTime c) then c
  else if smoothedRTT clock =? 0 then c
  else if i64 (2 * utils.MaxDuration (smoothedRTT clock) (maxRemoteRTT clock)) <=?
          time.Sub (sinceNow clock) (lastWindowUpdateTime c) then c
  else set_receiveWindowIncrement
         (utils.MinByteCount (u64 (2 * receiveWindowIncrement c)) (maxReceiveWindowIncrement c)) c.

(** Whether an update is due, the new increment and the new offset. *)
Definition MaybeUpdateWindow (clock : Clock) (c : flowController) : flowController * (bool * Z * Z) :=
  let diff := u64 (receiveWindow c - bytesRead c) in
  if diff <? receiveWindowIncrement c / 2 then
    let oldWindowIncrement := receiveWindowIncrement c in
    let c := maybeAdjustWindowIncrement clock c in
    let newWindowIncrement :=
      if negb (receiveWindowIncrement c =? oldWindowIncrement) then receiveWindowIncrement c else 0 in
    let c := set_lastWindowUpdateTime (now clock) c in
    let c := set_receiveWindow (u64 (bytesRead c + receiveWindowIncrement c)) c in
    (c, (true, newWindowIncrement, receiveWindow c))
  else (c, (false, receiveWindowIncrement c, receiveWindow c)).

Definition EnsureMinimumWindowIncrement (inc : Z) (c : flowController) : flowController :=
  if receiveWindowIncrement c <? inc then
    set_lastWindowUpdateTime time.zero
      (set_receiveWindowIncrement (utils.MinByteCount inc (maxReceiveWindowIncrement c)) c)
  else c.

Definition CheckFlowControlViolation (c : flowController) : bool := receiveWindow c <? highestReceived c.

End flowController.

(** ** flow_control_manager.go *)
Module flowControlManager.
Import protocol.
Import flowController (flowController).

Definition errMapAccess : error := NewError "Error accessing the flowController map.".
Definition tooMuchData : error := qerr.Error qerr.FlowControlReceivedTooMuchData.

(** Every stream has one controller object, which only the map refers to. *)
Record flowControlManager := MkManager {
  streamFlowController : gmap Z flowController;
  connFlowController : flowController;
}.

Record WindowUpdate := MkWindowUpdate { StreamID : Z; Offset : Z }.

Definition set_stream (id : Z) (c : flowController) (f : flowControlManager) : flowControlManager :=
  MkManager (<[id := c]> (streamFlowController f)) (connFlowController f).
Definition set_conn (c : flowController) (f : flowControlManager) : flowControlManager :=
  MkManager (streamFlowController f) c.

Definition NewFlowControlManager (cp : ConnectionParameters) : flowControlManager :=
  MkManager ∅ (flowController.newFlowController 0 false cp).

Definition NewStream (cp : ConnectionParameters) (id : Z) (contributes : bool) (f : flowControlManager) :
    flowControlManager :=
  match streamFlowController f !! id with
  | Some _ => f
  | None => set_stream id (flowController.newFlowController id contributes cp) f
  end.

Definition RemoveStream (id : Z) (f : flowControlManager) : flowControlManager :=
  MkManager (delete id (streamFlowController f)) (connFlowController f).

Definition getFlowController (id : Z) (f : flowControlManager) : option flowController :=
  streamFlowController f !! id.

(** What ResetStream and UpdateHighestReceived do behind the update of the
    stream: the stream is checked, the increment is passed on to the connection, and
    the connection is checked. *)
Definition checkReceived (id : Z) (c : flowController) (increment : Z) (f : flowControlManager) :
    flowControlManager * option error :=
  let f := set_stream id c f in
  if flowController.CheckFlowControlViolation c then (f, Some tooMuchData)
  else if flowController.ContributesToConnection c then
    let f := set_conn (flowController.IncrementHighestReceived increment (connFlowController f)) f in
    if flowController.CheckFlowControlViolation (connFlowController f) then (f, Some tooMuchData) else (f, None)
  else (f, None).

Definition ResetStream (id byteOffset : Z) (f : flowControlManager) : flowControlManager * option error :=
  match getFlowController id f with
  | None => (f, Some errMapAccess)
  | Some c =>
      let '(c, increment, err) := flowController.UpdateHighestReceived byteOffset c in
      match err with
      | Some _ => (set_stream id c f, Some (qerr.Error qerr.StreamDataAfterTermination))
      | None => checkReceived id c increment f
      end
  end.

Definition UpdateHighestReceived (id byteOffset : Z) (f : flowControlManager) : flowControlManager * option error :=
  match getFlowController id f with
  | None => (f, Some errMapAccess)
  | Some c =>
      let '(c, increment, _) := flowController.UpdateHighestReceived byteOffset c in
      checkReceived id c increment f
  end.

Definition AddBytesRead (id n time : Z) (f : flowControlManager) : flowControlManager * option error :=
  match getFlowController id f with
  | None => (f, Some errMapAccess)
  | Some c =>
      let f := set_stream id (flowController.AddBytesRead n time c) f in
      if flowController.ContributesToConnection c
      then (set_conn (flowController.AddBytesRead n time (connFlowController f)) f, None)
      else (f, None)
  end.

(** [protocol.ByteCount(float64(newIncrement) * ConnectionFlowControlMultiplier)];
    the multiplier 1.5 is 3 * 2^-1. *)
Definition connectionIncrement (newIncrement : Z) : Z :=
  to_uint64 (fmul float64 (of_int float64 newIncrement) (const float64 3 (-1))).

(** The loop over the streams, in the order [ids] of the map iteration. *)
Fixpoint streamUpdates (clock : Z → Clock) (force : bool) (ids : list Z) (f : flowControlManager) :
    flowControlManager * list WindowUpdate :=
  match ids with
  | [] => (f, [])
  | id :: ids' =>
      match streamFlowController f !! id with
      | None => streamUpdates clock force ids' f
      | Some c =>
          let '(c, (necessary, newIncrement, offset)) := flowController.MaybeUpdateWindow (clock id) c in
          let f := set_stream id c f in
          if force || necessary then
            let f := if flowController.ContributesToConnection c && negb (newIncrement =? 0)
                     then set_conn (flowController.EnsureMinimumWindowIncrement
                            (connectionIncrement newIncrement) (connFlowController f)) f
                     else f in
            let '(f, res) := streamUpdates clock force ids' f in
            (f, MkWindowUpdate id offset :: res)
          else streamUpdates clock force ids' f
      end
  end.

(** [ids] is the order in which Go iterates over the map of the streams; [clock id]
    is read for the stream [id]. *)
Definition GetWindowUpdates (clock : Z → Clock) (force : bool) (ids : list Z) (f : flowControlManager) :
    flowControlManager * list WindowUpdate :=
  let '(f, res) := streamUpdates clock force ids f in
  let '(c, (necessary, _, offset)) := flowController.MaybeUpdateWindow (clock 0) (connFlowController f) in
  let f := set_conn c f in
  if force || necessary then (f, res ++ [MkWindowUpdate 0 offset]) else (f, res).

Definition GetReceiveWindow (id : Z) (f : flowControlManager) : Z + error :=
  if id =? 0 then inl (flowController.receiveWindow (connFlowController f))
  else match getFlowController id f with
       | None => inr errMapAccess
       | Some c => inl (flowController.receiveWindow c)
       end.

Definition AddBytesSent (id n : Z) (f : flowControlManager) : flowControlManager * option error :=
  match getFlowController id f with
  | None => (f, Some errMapAccess)
  | Some c =>
      let f := set_stream id (flowController.AddBytesSent n c) f in
      if flowController.ContributesToConnection c
      then (set_conn (flowController.AddBytesSent n (connFlowController f)) f, None)
      else (f, None)
  end.

Definition GetBytesSent (id : Z) (f : flowControlManager) : Z + error :=
  match getFlowController id f with
  | None => inr errMapAccess
  | Some c => inl (flowController.GetBytesSent c)
  end.

Definition AddBytesRetrans (id n : Z) (f : flowControlManager) : flowControlManager * option error :=
  match getFlowController id f with
  | None => (f, Some errMapAccess)
  | Some c =>
      let f := set_stream id (flowController.AddBytesRetrans n c) f in
      if flowController.ContributesToConnection c
      then (set_conn (flowController.AddBytesRetrans n (connFlowController f)) f, None)
      else (f, None)
  end.

Definition GetBytesRetrans (id : Z) (f : flowControlManager) : Z + error :=
  match getFlowController id f with
  | None => inr errMapAccess
  | Some c => inl (flowController.GetBytesRetrans c)
  end.

Definition SendWindowSize (cp : ConnectionParameters) (id : Z) (f : flowControlManager) : Z + error :=
  match getFlowController id f with
  | None => inr errMapAccess
  | Some c =>
      let res := flowController.SendWindowSize cp c in
      inl (if flowController.ContributesToConnection c
           then utils.MinByteCount res (flowController.SendWindowSize cp (connFlowController f))
           else res)
  end.

Definition RemainingConnectionWindowSize (cp : ConnectionParameters) (f : flowControlManager) : Z :=
  flowController.SendWindowSize cp (connFlowController f).

Definition UpdateWindow (id offset : Z) (f : flowControlManager) : flowControlManager * (bool + error) :=
  if id =? 0 then
    let '(c, updated) := flowController.UpdateSendWindow offset (connFlowController f) in
    (set_conn c f, inl updated)
  else
    match getFlowController id f with
    | None => (f, inr errMapAccess)
    | Some c =>
        let '(c, updated) := flowController.UpdateSendWindow offset c in
        (set_stream id c f, inl updated)
    end.

End flowControlManager.

(** ** One controller *)
Section controller.
Import flowController.

(** What was read was received, what was received was allowed, the window reaches at
    most one increment above what was read. *)
Record fc_inv (c : flowController) : Prop := {
  fc_read : 0 <= bytesRead c <= highestReceived c;
  fc_allowed : highestReceived c <= receiveWindow c;
  fc_ahead : receiveWindow c <= bytesRead c + receiveWindowIncrement c;
  fc_increment : 0 <= receiveWindowIncrement c <= maxReceiveWindowIncrement c;
  fc_max : maxReceiveWindowIncrement c < 2 ^ 32;
}.

(** The windows of the configuration. *)
Definition parameters_ok (cp : ConnectionParameters) : Prop :=
  0 <= GetReceiveStreamFlowControlWindow cp <= GetMaxReceiveStreamFlowControlWindow cp ∧
  GetMaxReceiveStreamFlowControlWindow cp < 2 ^ 32 ∧
  0 <= GetReceiveConnectionFlowControlWindow cp <= GetMaxReceiveConnectionFlowControlWindow cp ∧
  GetMaxReceiveConnectionFlowControlWindow cp < 2 ^ 32.

Lemma new_fc_inv id b cp : parameters_ok cp → fc_inv (newFlowController id b cp).
Proof. intros (? & ? & ? & ?). unfold newFlowController. case_match; constructor; cbn; lia. Qed.

Lemma adjust_spec clock c : fc_inv c → let c' := maybeAdjustWindowIncrement clock c in
  receiveWindowIncrement c <= receiveWindowIncrement c' <= maxReceiveWindowIncrement c ∧
  c' = set_receiveWindowIncrement (receiveWindowIncrement c') c.
Proof.
  intros [? ? ? Hi Hm]. unfold maybeAdjustWindowIncrement. cbv zeta.
  do 3 (case_match; [split; [lia|by destruct c]|]). cbn. split; [|done].
  unfold utils.MinByteCount. destruct (Z.ltb_spec (u64 (2 * receiveWindowIncrement c)) (maxReceiveWindowIncrement c)); zlia.
Qed.

(** The window is moved when less than half of the increment is left; it never
    shrinks, and moves to one increment above what was read. *)
Lemma MaybeUpdateWindow_spec clock c : fc_inv c → receiveWindow c < 2 ^ 62 →
  let '(c', (necessary, newIncrement, offset)) := MaybeUpdateWindow clock c in
  fc_inv c' ∧ necessary = (receiveWindow c - bytesRead c <? receiveWindowIncrement c / 2) ∧
  offset = receiveWindow c' ∧ receiveWindow c <= receiveWindow c' ∧
  (necessary = true → receiveWindow c < receiveWindow c' ∧
     receiveWindow c' = bytesRead c + receiveWindowIncrement c') ∧
  receiveWindowIncrement c <= receiveWindowIncrement c' ∧ 0 <= newIncrement < 2 ^ 32 ∧
  bytesRead c' = bytesRead c ∧ highestReceived c' = highestReceived c ∧
  contributesToConnection c' = contributesToConnection c ∧
  maxReceiveWindowIncrement c' = maxReceiveWindowIncrement c.
Proof.
  intros H Hs. destruct (adjust_spec clock c H) as [Hinc Hc]. destruct H as [H1 H2 H3 H4 H5].
  unfold MaybeUpdateWindow. replace (u64 (receiveWindow c - bytesRead c)) with (receiveWindow c - bytesRead c) by zlia.
  destruct (Z.ltb_spec (receiveWindow c - bytesRead c) (receiveWindowIncrement c / 2)) as [Hlt|Hge].
  - set (c1 := maybeAdjustWindowIncrement clock c) in *. set (i := receiveWindowIncrement c1) in *. clearbody i c1. subst c1.
    cbn. assert (u64 (bytesRead c + i) = bytesRead c + i) as -> by zlia.
    assert (receiveWindow c < bytesRead c + i) by lia.
    split; [constructor; cbn; lia|]. repeat (split; [done || lia|]). case_match; repeat split; lia.
  - split; [by constructor|]. repeat (split; [done || lia|]). done.
Qed.

Lemma Ensure_spec inc c : fc_inv c → let c' := EnsureMinimumWindowIncrement inc c in
  fc_inv c' ∧ receiveWindow c' = receiveWindow c ∧ bytesRead c' = bytesRead c ∧
  highestReceived c' = highestReceived c ∧ maxReceiveWindowIncrement c' = maxReceiveWindowIncrement c ∧
  receiveWindowIncrement c <= receiveWindowIncrement c'.
Proof.
  intros [H1 H2 H3 H4 H5]. unfold EnsureMinimumWindowIncrement.
  destruct (Z.ltb_spec (receiveWindowIncrement c) inc); [|split; [by constructor|done]].
  unfold utils.MinByteCount. destruct (Z.ltb_spec inc (maxReceiveWindowIncrement c)); cbn;
    (split; [constructor; cbn; lia|]); repeat (split; [done|]); lia.
Qed.

End controller.

(** ** The manager *)
Section manager.
Import flowController flowControlManager.
Notation cstate := flowController.flowController.

(** The received bytes that were not read yet and count for the connection. *)
Definition unread_of (c : cstate) : Z :=
  if contributesToConnection c then highestReceived c - bytesRead c else 0.
Definition unread (m : gmap Z cstate) : Z := map_fold (λ _ c n, unread_of c + n) 0 m.

Lemma unread_fresh m id c : m !! id = None → unread (<[id := c]> m) = unread_of c + unread m.
Proof. intros Hm. unfold unread. rewrite map_fold_insert_L; [done| |done]. intros. lia. Qed.

Lemma unread_delete m id c : m !! id = Some c → unread m = unread_of c + unread (delete id m).
Proof. intros Hm. unfold unread. rewrite (map_fold_delete_L _ _ id c m); [done| |done]. intros. lia. Qed.

Lemma unread_update m id c c' : m !! id = Some c → unread (<[id := c']> m) = unread m - unread_of c + unread_of c'.
Proof.
  intros Hm. rewrite (unread_delete m id c Hm), <- (insert_delete_eq m id c'), unread_fresh by apply lookup_delete_eq. lia.
Qed.

Lemma unread_of_nonneg c : fc_inv c → 0 <= unread_of c.
Proof. intros [H _ _ _ _]. unfold unread_of. case_match; lia. Qed.

Lemma unread_nonneg m : map_Forall (λ _ c, fc_inv c) m → 0 <= unread m.
Proof.
  induction m as [|id c m Hm IH] using map_ind; [done|]. rewrite unread_fresh by done.
  intros [Hc Hm']%map_Forall_insert; [|done]. pose proof (unread_of_nonneg c Hc). specialize (IH Hm'). lia.
Qed.

(** Every controller satisfies its invariant, and what is unread on the streams
    that count for the connection is unread on the connection. *)
Record fcm_inv (f : flowControlManager) : Prop := {
  fcm_streams : map_Forall (λ _ c, fc_inv c) (streamFlowController f);
  fcm_conn : fc_inv (connFlowController f);
  fcm_unread : unread (streamFlowController f) <=
    highestReceived (connFlowController f) - bytesRead (connFlowController f);
}.

(** A changed stream, and the connection. *)
Lemma fcm_update f id c c' cn : fcm_inv f → streamFlowController f !! id = Some c → fc_inv c' → fc_inv cn →
  unread_of c' - unread_of c <=
    (highestReceived cn - bytesRead cn) -
    (highestReceived (connFlowController f) - bytesRead (connFlowController f)) →
  fcm_inv (set_conn cn (set_stream id c' f)).
Proof.
  intros [H1 H2 H3] Hc Hc' Hcn Hle. constructor; cbn.
  - by apply map_Forall_insert_2.
  - done.
  - rewrite (unread_update _ _ _ _ Hc). lia.
Qed.

Lemma set_conn_same f : set_conn (connFlowController f) f = f.
Proof. by destruct f. Qed.

Lemma fcm_update_stream f id c c' : fcm_inv f → streamFlowController f !! id = Some c → fc_inv c' →
  unread_of c' <= unread_of c → fcm_inv (set_stream id c' f).
Proof.
  intros H Hc Hc' Hle. rewrite <- (set_conn_same (set_stream id c' f)).
  apply (fcm_update f id c c'); [done|done|done|apply H|cbn; lia].
Qed.

(** The first offset of data is received and accepted. *)
Lemma checkReceived_spec f id c c' increment : fcm_inv f → streamFlowController f !! id = Some c →
  receiveWindow (connFlowController f) < 2 ^ 62 → receiveWindow c < 2 ^ 62 →
  c' = set_highestReceived (highestReceived c + increment) c → 0 <= increment →
  increment < 2 ^ 64 →
  let '(f', err) := checkReceived id c' increment f in
  (err = None → fcm_inv f') ∧ (err = None ↔ highestReceived c' <= receiveWindow c ∧
     (contributesToConnection c = true →
      u64 (highestReceived (connFlowController f) + increment) <= receiveWindow (connFlowController f))).
Proof.
  intros H Hc Hs1 Hs2 -> Hi Hi2. pose proof (map_Forall_lookup_1 _ _ _ _ (fcm_streams f H) Hc) as [C1 C2 C3 C4 C5].
  destruct (fcm_conn f H) as [N1 N2 N3 N4 N5]. unfold checkReceived, CheckFlowControlViolation. cbn.
  destruct (Z.ltb_spec (receiveWindow c) (highestReceived c + increment)); [split; [done|split; [done|lia]]|].
  unfold ContributesToConnection. cbn. destruct (contributesToConnection c) eqn:Eb.
  - destruct (Z.ltb_spec (receiveWindow (connFlowController f)) (u64 (highestReceived (connFlowController f) + increment))).
    { split; [done|]. split; [done|]. intros [_ Hu]. specialize (Hu eq_refl). lia. }
    split; [|split; [intros _; split; [lia|done]|done]]. intros _.
    assert (u64 (highestReceived (connFlowController f) + increment) = highestReceived (connFlowController f) + increment) as E by zlia.
    unfold IncrementHighestReceived. rewrite E in *.
    apply (fcm_update f id c); [done|done|constructor; cbn; lia|constructor; cbn; lia|].
    unfold unread_of. cbn. rewrite Eb. lia.
  - split; [|split; [intros _; split; [lia|done]|done]]. intros _.
    apply (fcm_update_stream f id c); [done|done|constructor; cbn; lia|]. unfold unread_of. cbn. by rewrite Eb.
Qed.

(** No window is near the end of the 64-bit offsets. *)
Definition windows_small (f : flowControlManager) : Prop :=
  map_Forall (λ _ c, receiveWindow c < 2 ^ 62) (streamFlowController f) ∧
  receiveWindow (connFlowController f) < 2 ^ 62.

(** The update of a stream, if there is one. *)
Definition update_of (clock : Z → Clock) (force : bool) (m : gmap Z cstate) (id : Z) : option WindowUpdate :=
  match m !! id with
  | None => None
  | Some c => let '(_, (necessary, _, offset)) := MaybeUpdateWindow (clock id) c in
              if force || necessary then Some (MkWindowUpdate id offset) else None
  end.

(** What the loop over the streams does to the connection: the increment may grow. *)
Definition conn_same (cn cn' : cstate) : Prop :=
  fc_inv cn' ∧ receiveWindow cn' = receiveWindow cn ∧ bytesRead cn' = bytesRead cn ∧
  highestReceived cn' = highestReceived cn ∧ maxReceiveWindowIncrement cn' = maxReceiveWindowIncrement cn ∧
  receiveWindowIncrement cn <= receiveWindowIncrement cn'.

Lemma conn_same_trans a b c : conn_same a b → conn_same b c → conn_same a c.
Proof.
  intros (_ & E1 & E2 & E3 & E4 & E5) (H & F1 & F2 & F3 & F4 & F5). split; [done|]. rewrite F1, F2, F3, F4.
  repeat (split; [done|]). lia.
Qed.

(** One iteration of the loop over the streams. *)
Definition updateOne (clock : Z → Clock) (force : bool) (id : Z) (f : flowControlManager) : flowControlManager :=
  (streamUpdates clock force [id] f).1.

Lemma streamUpdates_cons clock force id ids f :
  streamUpdates clock force (id :: ids) f =
    let '(f', res) := streamUpdates clock force ids (updateOne clock force id f) in
    (f', option_list (update_of clock force (streamFlowController f) id) ++ res).
Proof.
  unfold updateOne, update_of. cbn [streamUpdates]. destruct (streamFlowController f !! id) as [c|].
  - destruct (MaybeUpdateWindow (clock id) c) as [c' [[nec ni] off]].
    destruct (force || nec); cbn [fst]; by destruct (streamUpdates clock force ids _).
  - cbn [fst]. by destruct (streamUpdates clock force ids f).
Qed.

Lemma updateOne_spec clock force id f : fcm_inv f →
  (∀ c, streamFlowController f !! id = Some c → receiveWindow c < 2 ^ 62) →
  let f' := updateOne clock force id f in
  fcm_inv f' ∧ conn_same (connFlowController f) (connFlowController f') ∧
  streamFlowController f' = alter (λ c, (MaybeUpdateWindow (clock id) c).1) id (streamFlowController f).
Proof.
  intros H Hsm. unfold updateOne. cbn [streamUpdates]. destruct (streamFlowController f !! id) as [c|] eqn:Ec.
  2:{ cbn. split; [done|]. split; [split; [apply H|done]|]. by rewrite alter_id by (intros ?; congruence). }
  pose proof (map_Forall_lookup_1 _ _ _ _ (fcm_streams f H) Ec) as Hi. specialize (Hsm c eq_refl).
  pose proof (MaybeUpdateWindow_spec (clock id) c Hi Hsm) as Hm.
  assert (∀ c', (MaybeUpdateWindow (clock id) c).1 = c' → <[id:=c']> (streamFlowController f) =
    alter (λ c, (MaybeUpdateWindow (clock id) c).1) id (streamFlowController f)) as Ealt.
  { intros c' <-. apply map_eq. intros i. destruct (decide (i = id)) as [->|Hne].
    - by rewrite lookup_insert_eq, lookup_alter_eq, Ec.
    - by rewrite lookup_insert_ne, lookup_alter_ne by done. }
  destruct (MaybeUpdateWindow (clock id) c) as [c' [[nec ni] off]] eqn:Em.
  specialize (Ealt c' eq_refl). destruct Hm as (Hi' & _ & _ & _ & _ & _ & _ & Er & Eh & Eb & _).
  assert (unread_of c' = unread_of c) as Eu by (unfold unread_of; by rewrite Er, Eh, Eb).
  assert (fcm_inv (set_stream id c' f)) as Hf by (apply (fcm_update_stream f id c); [done|done|done|lia]).
  assert (conn_same (connFlowController f) (connFlowController f)) as Hrefl by (split; [apply H|done]).
  destruct (force || nec); [|by split]. destruct (_ && _); [|by split]. cbn.
  pose proof (Ensure_spec (connectionIncrement ni) _ (fcm_conn f H)) as (E1 & E2 & E3 & E4 & E5).
  split; [|split; [exact (conj E1 (conj E2 (conj E3 (conj E4 E5))))|done]]. apply (fcm_update f id c); [done|done|done|done|]. rewrite E3, E4. lia.
Qed.

Lemma update_of_alter clock force g id m (ids : list Z) : id ∉ ids →
  omap (update_of clock force (alter g id m)) ids = omap (update_of clock force m) ids.
Proof.
  intros Hid. apply list_omap_ext, Forall_Forall2_diag, Forall_forall. intros i Hi.
  unfold update_of. rewrite lookup_alter_ne by (intros ->; done). done.
Qed.

(** The loop updates every stream of [ids], in any order, and reports it. *)
Lemma streamUpdates_spec clock force ids f : NoDup ids → fcm_inv f →
  (∀ id c, id ∈ ids → streamFlowController f !! id = Some c → receiveWindow c < 2 ^ 62) →
  let '(f', res) := streamUpdates clock force ids f in
  fcm_inv f' ∧ conn_same (connFlowController f) (connFlowController f') ∧
  (∀ id, streamFlowController f' !! id =
     if bool_decide (id ∈ ids) then (λ c, (MaybeUpdateWindow (clock id) c).1) <$> streamFlowController f !! id
     else streamFlowController f !! id) ∧
  res = omap (update_of clock force (streamFlowController f)) ids.
Proof.
  revert f. induction ids as [|id ids IH]; intros f Hnd H Hsm.
  { split; [done|]. split; [split; [apply H|done]|]. done. }
  apply NoDup_cons in Hnd as [Hid Hnd]. rewrite streamUpdates_cons.
  destruct (updateOne_spec clock force id f H) as (H1 & Hc1 & E1); [intros c; apply Hsm; set_solver|].
  set (f1 := updateOne clock force id f) in *. specialize (IH f1 Hnd H1).
  destruct (streamUpdates clock force ids f1) as [f' res].
  destruct IH as (G1 & G2 & G3 & G4).
  { intros i c Hi. rewrite E1, lookup_alter_ne by set_solver. apply Hsm. set_solver. }
  split; [done|]. split; [by eapply conn_same_trans|]. split.
  - intros i. rewrite G3, E1. destruct (decide (i = id)) as [->|Hne].
    + rewrite bool_decide_false by done. rewrite bool_decide_true by set_solver. by rewrite lookup_alter_eq.
    + rewrite lookup_alter_ne by done. destruct (decide (i ∈ ids)); [rewrite !bool_decide_true by set_solver|
        rewrite !bool_decide_false by set_solver]; done.
  - rewrite G4, E1, update_of_alter by done. cbn. by destruct (update_of _ _ _ _).
Qed.

(** Data up to [byteOffset] arrives on a stream. *)
Lemma received_accepted f id c byteOffset : fcm_inv f → windows_small f →
  streamFlowController f !! id = Some c → 0 <= byteOffset < 2 ^ 64 →
  let increment := Z.max 0 (byteOffset - highestReceived c) in
  let '(f', err) := UpdateHighestReceived id byteOffset f in
  (err = None → fcm_inv f') ∧
  (err = None ↔ byteOffset <= receiveWindow c ∧ (contributesToConnection c = true →
     highestReceived (connFlowController f) + increment <= receiveWindow (connFlowController f))).
Proof.
  intros H [Hs1 Hs2] Hc Ho increment. pose proof (map_Forall_lookup_1 _ _ _ _ Hs1 Hc) as Hw. cbn in Hw.
  pose proof (map_Forall_lookup_1 _ _ _ _ (fcm_streams f H) Hc) as Hi. destruct (fcm_conn f H) as [N1 N2 _ _ _].
  unfold UpdateHighestReceived, getFlowController. rewrite Hc.
  assert (flowController.UpdateHighestReceived byteOffset c = (set_highestReceived (highestReceived c + increment) c, increment,
    if byteOffset <? highestReceived c then Some ErrReceivedSmallerByteOffset else None)) as ->.
  { destruct Hi as [C1 C2 C3 C4 C5]. unfold flowController.UpdateHighestReceived, increment.
    destruct (Z.eqb_spec byteOffset (highestReceived c)) as [->|].
    - replace (Z.max 0 (highestReceived c - highestReceived c)) with 0 by lia. rewrite Z.ltb_irrefl, Z.add_0_r. by destruct c.
    - destruct (Z.ltb_spec (highestReceived c) byteOffset), (Z.ltb_spec byteOffset (highestReceived c)); try lia.
      + replace (Z.max 0 (byteOffset - highestReceived c)) with (byteOffset - highestReceived c) by lia.
        replace (highestReceived c + (byteOffset - highestReceived c)) with byteOffset by lia.
        replace (u64 (byteOffset - highestReceived c)) with (byteOffset - highestReceived c) by zlia. done.
      + replace (Z.max 0 (byteOffset - highestReceived c)) with 0 by lia. rewrite Z.add_0_r. by destruct c. }
  pose proof (checkReceived_spec f id c _ increment H Hc Hs2 Hw eq_refl) as Hr. destruct Hi as [C1 C2 C3 C4 C5].
  destruct (checkReceived _ _ _ _) as [f' err]. destruct Hr as [Hr1 Hr2]; [lia|lia|]. split; [done|]. rewrite Hr2. cbn.
  unfold increment in *. destruct (contributesToConnection c); split; intros [Ha Hb]; split; try done; try lia.
  - intros _. specialize (Hb eq_refl). zlia.
  - intros _. specialize (Hb eq_refl). zlia.
Qed.

(** A reset is the same, unless it takes back data that was received. *)
Lemma reset_accepted f id c byteOffset : streamFlowController f !! id = Some c →
  ResetStream id byteOffset f =
    if byteOffset <? highestReceived c then (set_stream id c f, Some (qerr.Error qerr.StreamDataAfterTermination))
    else UpdateHighestReceived id byteOffset f.
Proof.
  intros Hc. unfold ResetStream, UpdateHighestReceived, getFlowController. rewrite Hc.
  unfold flowController.UpdateHighestReceived. destruct (Z.eqb_spec byteOffset (highestReceived c)) as [->|].
  - by rewrite Z.ltb_irrefl.
  - destruct (Z.ltb_spec (highestReceived c) byteOffset), (Z.ltb_spec byteOffset (highestReceived c)); try lia; done.
Qed.

Lemma read_spec c n t : fc_inv c → receiveWindow c < 2 ^ 62 → 0 <= n <= highestReceived c - bytesRead c →
  let c' := flowController.AddBytesRead n t c in
  fc_inv c' ∧ bytesRead c' = bytesRead c + n ∧ highestReceived c' = highestReceived c ∧
  contributesToConnection c' = contributesToConnection c.
Proof.
  intros [C1 C2 C3 C4 C5] Hs Hn. unfold flowController.AddBytesRead.
  assert (u64 (bytesRead c + n) = bytesRead c + n) as E by zlia.
  destruct (bytesRead c =? 0); cbn; rewrite E; (split; [constructor; cbn; lia|done]).
Qed.

Lemma AddBytesRead_inv f id c n t : fcm_inv f → windows_small f → streamFlowController f !! id = Some c →
  0 <= n <= highestReceived c - bytesRead c → fcm_inv (AddBytesRead id n t f).1.
Proof.
  intros H [Hs1 Hs2] Hc Hn. pose proof (map_Forall_lookup_1 _ _ _ _ Hs1 Hc) as Hw. cbn in Hw.
  pose proof (map_Forall_lookup_1 _ _ _ _ (fcm_streams f H) Hc) as Hi. cbn in Hi.
  unfold AddBytesRead, getFlowController. rewrite Hc. destruct (read_spec c n t Hi Hw Hn) as (C1 & C2 & C3 & C4).
  unfold ContributesToConnection. destruct (contributesToConnection c) eqn:Eb; cbn [fst].
  - assert (0 <= n <= highestReceived (connFlowController f) - bytesRead (connFlowController f)) as Hle.
    { pose proof (fcm_unread f H) as Hu. rewrite (unread_delete _ _ _ Hc) in Hu. unfold unread_of in Hu. rewrite Eb in Hu.
      pose proof (unread_nonneg _ (map_Forall_delete _ _ id (fcm_streams f H))). lia. }
    destruct (read_spec _ n t (fcm_conn f H) Hs2 Hle) as (N1 & N2 & N3 & _).
    apply (fcm_update f id c); [done|done|done|exact N1|]. change (connFlowController (set_stream _ _ f)) with (connFlowController f).
    rewrite N2, N3. unfold unread_of. rewrite C2, C3, C4, Eb. lia.
  - apply (fcm_update_stream f id c); [done|done|done|]. unfold unread_of. by rewrite C4, Eb.
Qed.

(** Operations that only send leave the receiving half alone. *)
Definition same_receiving (c c' : cstate) : Prop :=
  contributesToConnection c' = contributesToConnection c ∧ bytesRead c' = bytesRead c ∧
  highestReceived c' = highestReceived c ∧ receiveWindow c' = receiveWindow c ∧
  receiveWindowIncrement c' = receiveWindowIncrement c ∧ maxReceiveWindowIncrement c' = maxReceiveWindowIncrement c.

Lemma same_receiving_inv c c' : same_receiving c c' → fc_inv c → fc_inv c'.
Proof. intros (E1 & E2 & E3 & E4 & E5 & E6) [? ? ? ? ?]. constructor; rewrite ?E2, ?E3, ?E4, ?E5, ?E6; done. Qed.

Lemma same_receiving_stream f id c c' : fcm_inv f → streamFlowController f !! id = Some c → same_receiving c c' →
  fcm_inv (set_stream id c' f).
Proof.
  intros H Hc Hr. pose proof (map_Forall_lookup_1 _ _ _ _ (fcm_streams f H) Hc) as Hi.
  apply (fcm_update_stream f id c); [done|done|by eapply same_receiving_inv|].
  destruct Hr as (E1 & E2 & E3 & _). unfold unread_of. by rewrite E1, E2, E3.
Qed.

Lemma same_receiving_conn f cn : fcm_inv f → same_receiving (connFlowController f) cn → fcm_inv (set_conn cn f).
Proof.
  intros [H1 H2 H3] Hr. constructor; cbn; [done|by eapply same_receiving_inv|].
  destruct Hr as (_ & -> & -> & _). done.
Qed.

Lemma UpdateSendWindow_receiving o c : same_receiving c (UpdateSendWindow o c).1.
Proof. unfold UpdateSendWindow. by case_match. Qed.

Lemma NewStream_inv cp id b f : parameters_ok cp → fcm_inv f → fcm_inv (NewStream cp id b f).
Proof.
  intros Hcp [H1 H2 H3]. unfold NewStream. destruct (streamFlowController f !! id) eqn:E; [done|].
  constructor; cbn; [apply map_Forall_insert_2; [by apply new_fc_inv|done]|done|].
  rewrite unread_fresh by done. assert (unread_of (newFlowController id b cp) = 0) as ->; [|lia].
  unfold unread_of, newFlowController. destruct (id =? 0); cbn; by destruct b.
Qed.

Lemma RemoveStream_inv id f : fcm_inv f → fcm_inv (RemoveStream id f).
Proof.
  intros [H1 H2 H3]. constructor; cbn; [by apply map_Forall_delete|done|].
  destruct (streamFlowController f !! id) as [c|] eqn:E; [|by rewrite delete_id].
  rewrite (unread_delete _ _ _ E) in H3. pose proof (unread_of_nonneg c (map_Forall_lookup_1 _ _ _ _ H1 E)). lia.
Qed.

Lemma GetWindowUpdates_inv clock force ids f : NoDup ids → fcm_inv f → windows_small f →
  fcm_inv (GetWindowUpdates clock force ids f).1.
Proof.
  intros Hnd H [Hs1 Hs2]. unfold GetWindowUpdates.
  pose proof (streamUpdates_spec clock force ids f Hnd H) as Hu. destruct (streamUpdates clock force ids f) as [f1 res].
  destruct Hu as (H1 & (_ & Ew & _) & _); [by intros id c _ Hc; apply (map_Forall_lookup_1 _ _ _ _ Hs1 Hc)|].
  pose proof (MaybeUpdateWindow_spec (clock 0) _ (fcm_conn f1 H1)) as Hm.
  destruct (MaybeUpdateWindow (clock 0) (connFlowController f1)) as [cn [[nec ni] off]].
  destruct Hm as (Hi & _ & _ & _ & _ & _ & _ & Er & Eh & _); [lia|].
  assert (fcm_inv (set_conn cn f1)) as Hf.
  { destruct H1 as [G1 G2 G3]. constructor; cbn; [done|done|]. by rewrite Er, Eh. }
  by destruct (force || nec).
Qed.

(** ** Runs of the manager *)

(** One call. A violation closes the connection, so only accepted data is in a run;
    the application reads what has arrived; Go iterates once over every stream. *)
Inductive fstep (f : flowControlManager) : flowControlManager → Prop :=
  | fs_new cp id b : parameters_ok cp → fstep f (NewStream cp id b f)
  | fs_remove id : fstep f (RemoveStream id f)
  | fs_received id off f' : 0 <= off < 2 ^ 64 → UpdateHighestReceived id off f = (f', None) → fstep f f'
  | fs_reset id off f' : 0 <= off < 2 ^ 64 → ResetStream id off f = (f', None) → fstep f f'
  | fs_read id c n t : streamFlowController f !! id = Some c → 0 <= n <= highestReceived c - bytesRead c →
      fstep f (AddBytesRead id n t f).1
  | fs_updates clock force ids : ids ≡ₚ elements (dom (streamFlowController f)) →
      fstep f (GetWindowUpdates clock force ids f).1
  | fs_sent id n : fstep f (AddBytesSent id n f).1
  | fs_retrans id n : fstep f (AddBytesRetrans id n f).1
  | fs_window id off : fstep f (UpdateWindow id off f).1.

Inductive reachable : flowControlManager → Prop :=
  | reachable_new cp : parameters_ok cp → reachable (NewFlowControlManager cp)
  | reachable_step f f' : reachable f → windows_small f → fstep f f' → reachable f'.

Lemma received_inv f id off f' : fcm_inv f → windows_small f → 0 <= off < 2 ^ 64 →
  UpdateHighestReceived id off f = (f', None) → fcm_inv f'.
Proof.
  intros H Hs Ho E. destruct (streamFlowController f !! id) as [c|] eqn:Hc.
  - pose proof (received_accepted f id c off H Hs Hc Ho) as Hr. cbv zeta in Hr. rewrite E in Hr. by apply Hr.
  - unfold UpdateHighestReceived, getFlowController in E. by rewrite Hc in E.
Qed.

Lemma fstep_inv f f' : fcm_inv f → windows_small f → fstep f f' → fcm_inv f'.
Proof.
  intros H Hs Hst. destruct Hst as [cp id b Hcp|id|id off f' Ho E|id off f' Ho E|id c n t Hc Hn|clock force ids Hp|id n|id n|id off].
  - by apply NewStream_inv.
  - by apply RemoveStream_inv.
  - by eapply received_inv.
  - destruct (streamFlowController f !! id) as [c|] eqn:Hc.
    + rewrite (reset_accepted f id c off Hc) in E. destruct (_ <? _); [done|]. by eapply received_inv.
    + unfold ResetStream, getFlowController in E. by rewrite Hc in E.
  - by eapply AddBytesRead_inv.
  - apply GetWindowUpdates_inv; [|done|done]. rewrite Hp. apply NoDup_elements.
  - unfold AddBytesSent, getFlowController. destruct (streamFlowController f !! id) as [c|] eqn:Hc; [|done].
    assert (fcm_inv (set_stream id (flowController.AddBytesSent n c) f)) as H1 by by eapply same_receiving_stream.
    case_match; [|done]. by apply same_receiving_conn.
  - unfold AddBytesRetrans, getFlowController. destruct (streamFlowController f !! id) as [c|] eqn:Hc; [|done].
    assert (fcm_inv (set_stream id (flowController.AddBytesRetrans n c) f)) as H1 by by eapply same_receiving_stream.
    case_match; [|done]. by apply same_receiving_conn.
  - unfold UpdateWindow, getFlowController. destruct (id =? 0).
    + pose proof (UpdateSendWindow_receiving off (connFlowController f)) as Hr.
      destruct (UpdateSendWindow off (connFlowController f)) as [cn b]. by apply same_receiving_conn.
    + destruct (streamFlowController f !! id) as [c|] eqn:Hc; [|done].
      pose proof (UpdateSendWindow_receiving off c) as Hr. destruct (UpdateSendWindow off c) as [c' b].
      by eapply same_receiving_stream.
Qed.

Lemma reachable_inv f : reachable f → fcm_inv f.
Proof.
  induction 1 as [cp Hcp|f f' _ IH Hs Hst]; [|by eapply fstep_inv].
  constructor; [done|exact (new_fc_inv 0 false cp Hcp)|done].
Qed.

(** ** The properties of the manager *)

(** The receiver never accepts more than it advertised and never has to buffer
    more than its configuration allows: in every reachable state, what was read was
    received and what was received lies in the window, for every stream and for the
    connection; the unread data of a stream, and of all streams that count for the
    connection together, is at most the maximal window. *)
Theorem flow_control_invariant f : reachable f →
  fcm_inv f ∧
  (∀ id c, streamFlowController f !! id = Some c →
     0 <= highestReceived c - bytesRead c <= maxReceiveWindowIncrement c) ∧
  0 <= unread (streamFlowController f) <= maxReceiveWindowIncrement (connFlowController f).
Proof.
  intros H%reachable_inv. split; [done|]. destruct H as [H1 H2 H3]. split.
  - intros id c Hc. destruct (map_Forall_lookup_1 _ _ _ _ H1 Hc) as [? ? ? ? ?]. lia.
  - pose proof (unread_nonneg _ H1). destruct H2 as [? ? ? ? ?]. lia.
Qed.

(** Data up to an offset is accepted exactly when the offset lies in the window of
    the stream and, for a stream that counts for the connection, the bytes above the
    highest offset so far fit into the window of the connection; otherwise the error
    is FlowControlReceivedTooMuchData. A RST_STREAM frame is checked in the same way,
    and rejected when its offset is below data that has been received. *)
Theorem received_data_checked f id c byteOffset : fcm_inv f → windows_small f →
  streamFlowController f !! id = Some c → 0 <= byteOffset < 2 ^ 64 →
  let fits := byteOffset <= receiveWindow c ∧ (contributesToConnection c = true →
    highestReceived (connFlowController f) + Z.max 0 (byteOffset - highestReceived c) <=
    receiveWindow (connFlowController f)) in
  (let err := (UpdateHighestReceived id byteOffset f).2 in
   (err = None ↔ fits) ∧ (err = None ∨ err = Some tooMuchData)) ∧
  (let err := (ResetStream id byteOffset f).2 in
   (err = None ↔ fits ∧ highestReceived c <= byteOffset) ∧
   (byteOffset < highestReceived c → err = Some (qerr.Error qerr.StreamDataAfterTermination))).
Proof.
  intros H Hs Hc Ho fits. pose proof (received_accepted f id c byteOffset H Hs Hc Ho) as Hr. cbv zeta in Hr.
  assert ((UpdateHighestReceived id byteOffset f).2 = None ∨ (UpdateHighestReceived id byteOffset f).2 = Some tooMuchData) as Herr.
  { unfold UpdateHighestReceived, getFlowController. rewrite Hc. destruct (flowController.UpdateHighestReceived _ _) as [[c' i] e].
    unfold checkReceived. repeat case_match; auto. }
  rewrite (reset_accepted f id c byteOffset Hc). destruct (UpdateHighestReceived id byteOffset f) as [f' err]. cbn in *.
  destruct Hr as [_ Hr]. split; [by split|]. destruct (Z.ltb_spec byteOffset (highestReceived c)); cbn.
  - split; [split; [done|lia]|done].
  - split; [rewrite Hr; unfold fits; tauto|lia].
Qed.

(** The updates of the streams. *)
Lemma stream_updates clock force ids f : fcm_inv f → windows_small f →
  ids ≡ₚ elements (dom (streamFlowController f)) →
  let '(f', res) := streamUpdates clock force ids f in
  ∀ id c, streamFlowController f !! id = Some c →
    let due := receiveWindow c - bytesRead c <? receiveWindowIncrement c / 2 in
    ∃ c', streamFlowController f' !! id = Some c' ∧ receiveWindow c <= receiveWindow c' ∧
      (due = true → receiveWindow c' = bytesRead c + receiveWindowIncrement c') ∧
      (force || due = true ↔ MkWindowUpdate id (receiveWindow c') ∈ res).
Proof.
  intros H [Hs1 Hs2] Hp. pose proof (streamUpdates_spec clock force ids f) as Hu.
  destruct (streamUpdates clock force ids f) as [f1 res].
  destruct Hu as (_ & _ & El & Er); [rewrite Hp; apply NoDup_elements|done
    |by intros id c _ Hc; apply (map_Forall_lookup_1 _ _ _ _ Hs1 Hc)|].
  intros id c Hc due. assert (id ∈ ids) as Hid by (rewrite Hp; apply elem_of_elements, elem_of_dom; eauto).
  pose proof (MaybeUpdateWindow_spec (clock id) c (map_Forall_lookup_1 _ _ _ _ (fcm_streams f H) Hc)
    (map_Forall_lookup_1 _ _ _ _ Hs1 Hc)) as Hm.
  specialize (El id). rewrite bool_decide_true, Hc in El by done. cbn in El.
  assert (∀ o, MkWindowUpdate id o ∈ res ↔
    update_of clock force (streamFlowController f) id = Some (MkWindowUpdate id o)) as Hres.
  { intros o. rewrite Er, list_elem_of_omap. split; [|eauto]. intros (i & Hi & E). assert (i = id) as ->; [|done].
    unfold update_of in E. repeat case_match; try done. by injection E as -> _. }
  unfold update_of in Hres. rewrite Hc in Hres.
  destruct (MaybeUpdateWindow (clock id) c) as [c' [[nec' ni'] off']]. cbn in El.
  destruct Hm as (_ & -> & -> & Hmle & Hdue & _). fold due in Hdue, Hres. exists c'. split; [done|]. split; [done|].
  split; [intros Hd; by apply Hdue|]. rewrite Hres. by destruct (force || due).
Qed.

(** Window updates, for every order in which the map of the streams is iterated:
    a stream gets an update exactly when it is forced or less than half of its
    increment is left unread; the offset in the update is the new window of the
    stream, which never shrinks and is one increment above what was read if an update
    was due. The update of the connection comes last, with its window, which does not
    shrink either; it is not left out when it is forced or due. *)
Theorem window_updates_correct clock force ids f : fcm_inv f → windows_small f →
  ids ≡ₚ elements (dom (streamFlowController f)) →
  let due := λ c, receiveWindow c - bytesRead c <? receiveWindowIncrement c / 2 in
  let '(f', res) := GetWindowUpdates clock force ids f in
  fcm_inv f' ∧ ∃ streams conn, res = streams ++ conn ∧
  (∀ id c, streamFlowController f !! id = Some c →
     ∃ c', streamFlowController f' !! id = Some c' ∧ receiveWindow c <= receiveWindow c' ∧
       (due c = true → receiveWindow c' = bytesRead c + receiveWindowIncrement c') ∧
       (force || due c = true ↔ MkWindowUpdate id (receiveWindow c') ∈ streams)) ∧
  receiveWindow (connFlowController f) <= receiveWindow (connFlowController f') ∧
  (conn = [] ∨ conn = [MkWindowUpdate 0 (receiveWindow (connFlowController f'))]) ∧
  (force || due (connFlowController f) = true → conn = [MkWindowUpdate 0 (receiveWindow (connFlowController f'))]).
Proof.
  intros H Hs Hp due. pose proof (stream_updates clock force ids f H Hs Hp) as Hst. destruct Hs as [Hs1 Hs2].
  assert (NoDup ids) as Hnd by (rewrite Hp; apply NoDup_elements).
  pose proof (GetWindowUpdates_inv clock force ids f Hnd H (conj Hs1 Hs2)) as Hinv. unfold GetWindowUpdates in *.
  pose proof (streamUpdates_spec clock force ids f Hnd H) as Hu. destruct (streamUpdates clock force ids f) as [f1 res].
  destruct Hu as (H1 & (_ & Ew & Er & _ & _ & Ei) & _);
    [by intros id c _ Hc; apply (map_Forall_lookup_1 _ _ _ _ Hs1 Hc)|].
  pose proof (MaybeUpdateWindow_spec (clock 0) _ (fcm_conn f1 H1)) as Hm.
  destruct (MaybeUpdateWindow (clock 0) (connFlowController f1)) as [cn [[nec ni] off]].
  destruct Hm as (_ & -> & -> & Hle & _); [lia|]. rewrite Ew, Er in *.
  assert (due (connFlowController f) = true → receiveWindow (connFlowController f) - bytesRead (connFlowController f) <?
    receiveWindowIncrement (connFlowController f1) / 2 = true) as Hdue by (unfold due; lia).
  destruct (force || (receiveWindow _ - _ <? _)) eqn:Ef; (split; [exact Hinv|]).
  - exists res, [MkWindowUpdate 0 (receiveWindow cn)]. split; [done|]. split; [done|]. split; [done|]. auto.
  - exists res, []. rewrite app_nil_r. apply orb_false_iff in Ef as [-> Ef]. split; [done|]. split; [done|]. split; [done|].
    split; [by left|]. cbn. intros Hd. apply Hdue in Hd. congruence.
Qed.

End manager.

(** ** A sender and a receiver *)
Section end_to_end.
Import flowController.
Notation cstate := flowController.flowController.

(** The controllers of a stream at both ends, the offsets of all data and of all
    window updates that have been put on the network. Packets may be lost, delayed,
    reordered and duplicated: any of them can arrive at any time. *)
Record link := MkLink {
  sender : cstate;
  receiver : cstate;
  data : list Z;
  updates : list Z;
}.

Context (cp : ConnectionParameters).

Inductive link_step (l : link) : link → Prop :=
  | ls_send n : 0 <= n <= SendWindowSize cp (sender l) →
      let s := AddBytesSent n (sender l) in
      link_step l (MkLink s (receiver l) (bytesSent s :: data l) (updates l))
  | ls_deliver o : o ∈ data l →
      link_step l (MkLink (sender l) (UpdateHighestReceived o (receiver l)).1.1 (data l) (updates l))
  | ls_read n t : 0 <= n <= highestReceived (receiver l) - bytesRead (receiver l) →
      link_step l (MkLink (sender l) (AddBytesRead n t (receiver l)) (data l) (updates l))
  | ls_update clock r' necessary increment o : MaybeUpdateWindow clock (receiver l) = (r', (necessary, increment, o)) →
      link_step l (MkLink (sender l) r' (data l) (o :: updates l))
  | ls_window o : o ∈ updates l →
      link_step l (MkLink (UpdateSendWindow o (sender l)).1 (receiver l) (data l) (updates l)).

Inductive link_reachable (l0 : link) : link → Prop :=
  | lr_refl : link_reachable l0 l0
  | lr_step l l' : link_reachable l0 l → receiveWindow (receiver l) < 2 ^ 62 → link_step l l' → link_reachable l0 l'.

(** The receiver has allowed everything that was sent and every window that the
    sender can learn of. *)
Record link_inv (l : link) : Prop := {
  li_receiver : fc_inv (receiver l);
  li_received : highestReceived (receiver l) <= bytesSent (sender l);
  li_sent : 0 <= bytesSent (sender l) <= receiveWindow (receiver l);
  li_window : 0 <= sendWindow (sender l) ∧ getSendWindow cp (sender l) <= receiveWindow (receiver l);
  li_data : Forall (λ o, o <= bytesSent (sender l)) (data l);
  li_updates : Forall (λ o, o <= receiveWindow (receiver l)) (updates l);
}.

Lemma link_step_inv l l' : link_inv l → receiveWindow (receiver l) < 2 ^ 62 → link_step l l' → link_inv l'.
Proof.
  intros [H1 H2 H3 [H4a H4] H5 H6] Hs Hst.
  destruct Hst as [n Hn s|o Ho|n t Hn|clock r' nec inc o E|o Ho].
  - assert (bytesSent s = bytesSent (sender l) + n ∧ bytesSent s <= receiveWindow (receiver l)) as [Es Hle].
    { revert Hn. unfold s, AddBytesSent, SendWindowSize. cbn.
      destruct (Z.ltb_spec (getSendWindow cp (sender l)) (bytesSent (sender l))) as [Hlt|Hge]; intros Hn.
      - assert (n = 0) as -> by lia. zlia.
      - zlia. }
    constructor; cbn -[s]; try done; [lia|lia|]. constructor; [lia|]. eapply Forall_impl; [exact H5|].
    intros o Ho. cbv beta in Ho |- *. lia.
  - pose proof (proj1 (Forall_forall _ _) H5 o Ho) as Hle. cbn in Hle. unfold UpdateHighestReceived.
    case_match; [by constructor|]. destruct (Z.ltb_spec (highestReceived (receiver l)) o); [|by constructor].
    destruct H1 as [? ? ? ? ?]. constructor; cbn; try done. constructor; cbn; lia.
  - destruct (read_spec (receiver l) n t H1 Hs Hn) as (R1 & R2 & R3 & _). 
    assert (receiveWindow (AddBytesRead n t (receiver l)) = receiveWindow (receiver l)) as Ew.
    { unfold AddBytesRead. by case_match. }
    constructor; cbn [receiver sender data updates]; rewrite ?R3, ?Ew; done.
  - pose proof (MaybeUpdateWindow_spec clock (receiver l) H1 Hs) as Hm. rewrite E in Hm.
    destruct Hm as (R1 & _ & -> & Hle & _ & _ & _ & _ & R3 & _). constructor; cbn; rewrite ?R3; try done; [lia|lia|].
    constructor; [lia|]. eapply Forall_impl; [exact H6|]. cbn. lia.
  - pose proof (proj1 (Forall_forall _ _) H6 o Ho) as Hle. cbn in Hle. unfold UpdateSendWindow.
    destruct (Z.ltb_spec (sendWindow (sender l)) o); [|by constructor]. constructor; cbn; try done.
    unfold getSendWindow. cbn. destruct (Z.eqb_spec o 0); lia.
Qed.

Lemma link_reachable_inv cpr id b b' l : parameters_ok cpr →
  getSendWindow cp (newFlowController id b cp) <= receiveWindow (newFlowController id b' cpr) →
  link_reachable (MkLink (newFlowController id b cp) (newFlowController id b' cpr) [] []) l → link_inv l.
Proof.
  intros Hp Hw. induction 1 as [|l l' _ IH Hs Hst]; [|by eapply link_step_inv].
  pose proof (new_fc_inv id b' cpr Hp) as Hi. destruct Hp as (? & _ & ? & _). unfold newFlowController in *.
  destruct (id =? 0) eqn:E; (constructor; cbn in *; rewrite ?E in *; [exact Hi|lia|lia|lia|by constructor|by constructor]).
Qed.

(** All data on the network lies in the window of the receiver. *)
Definition link_safe (l : link) : Prop :=
  CheckFlowControlViolation (receiver l) = false ∧
  highestReceived (receiver l) <= bytesSent (sender l) ∧
  Forall (λ o, CheckFlowControlViolation (UpdateHighestReceived o (receiver l)).1.1 = false) (data l).

Lemma link_inv_safe l : link_inv l → link_safe l.
Proof.
  intros [[? ? ? ? ?] H2 H3 H4 H5 H6]. unfold link_safe, CheckFlowControlViolation. split; [lia|]. split; [done|].
  eapply Forall_impl; [exact H5|]. cbn. intros o Ho. unfold UpdateHighestReceived. repeat case_match; cbn; lia.
Qed.

(** C12: flow control of a stream is correct end to end. When the controller of the sender starts with a window that
    the controller of the receiver has granted, then however data and window updates are lost, delayed,
    reordered or duplicated, all data that is on the network lies in the window of the
    receiver, so that its arrival is not a violation; and the receiver has not seen
    more than was sent. *)
Theorem no_flow_control_violation cpr id b b' l : parameters_ok cpr →
  getSendWindow cp (newFlowController id b cp) <= receiveWindow (newFlowController id b' cpr) →
  link_reachable (MkLink (newFlowController id b cp) (newFlowController id b' cpr) [] []) l → link_safe l.
Proof. intros Hp Hw Hr. eapply link_inv_safe, link_reachable_inv; done. Qed.

(** The first WINDOW_UPDATE is compared with zero and not with the window that was
    negotiated: an offset below the initial window is reported as an update and takes
    credit away that the sender had. *)
Theorem window_update_can_shrink id b o : 0 < o < getSendWindow cp (newFlowController id b cp) →
  let '(c, updated) := UpdateSendWindow o (newFlowController id b cp) in
  updated = true ∧ getSendWindow cp c = o ∧ getSendWindow cp c < getSendWindow cp (newFlowController id b cp).
Proof.
  intros Ho. unfold UpdateSendWindow.
  assert (sendWindow (newFlowController id b cp) = 0) as -> by (unfold newFlowController; by case_match).
  destruct (Z.ltb_spec 0 o); [|lia]. split; [done|].
  assert (getSendWindow cp (set_sendWindow o (newFlowController id b cp)) = o) as ->; [|lia].
  unfold getSendWindow. cbn. destruct (Z.eqb_spec o 0); [lia|done].
Qed.

End end_to_end.

(** ** Concrete runs *)
Module FlowExamples.
Import flowController flowControlManager.

Definition cp : ConnectionParameters := MkParameters 16384 16384 32768 1048576 49152 1572864.

Lemma cp_ok : parameters_ok cp.
Proof. unfold parameters_ok. cbn. lia. Qed.

Definition f0 : flowControlManager := NewStream cp 5 true (NewFlowControlManager cp).
Definition f1 : flowControlManager := (UpdateHighestReceived 5 20000 f0).1.
Definition f2 : flowControlManager := (flowControlManager.AddBytesRead 5 20000 1000 f1).1.

Lemma small_f0 : windows_small f0.
Proof. split; [|by vm_compute]. by apply map_Forall_insert_2. Qed.
Lemma small_f1 : windows_small f1.
Proof. split; [|by vm_compute]. by apply map_Forall_insert_2, map_Forall_insert_2. Qed.
Lemma small_f2 : windows_small f2.
Proof. split; [|by vm_compute]. by apply map_Forall_insert_2, map_Forall_insert_2, map_Forall_insert_2. Qed.

Lemma reachable_f0 : reachable f0.
Proof.
  apply (reachable_step (NewFlowControlManager cp)); [constructor; exact cp_ok|by split|]. constructor. exact cp_ok.
Qed.

Lemma reachable_f2 : reachable f2.
Proof.
  apply (reachable_step f1); [|exact small_f1|].
  - apply (reachable_step f0); [exact reachable_f0|exact small_f0|].
    apply (fs_received f0 5 20000); [lia|]. by vm_compute.
  - apply (fs_read f1 5 (flowController.UpdateHighestReceived 20000 (newFlowController 5 true cp)).1.1 20000 1000).
    + reflexivity.
    + by vm_compute.
Qed.

Lemma flow_control_invariant_witness : 0 <= unread (streamFlowController f2) <= 1572864.
Proof. destruct (flow_control_invariant f2 reachable_f2) as (_ & _ & H). exact H. Defined.

(** 32768 bytes fit into the window of the stream, 32769 do not. *)
Lemma received_data_checked_witness :
  (UpdateHighestReceived 5 32768 f0).2 = None ∧ (UpdateHighestReceived 5 32769 f0).2 = Some tooMuchData.
Proof.
  pose proof (reachable_inv f0 reachable_f0) as H.
  destruct (received_data_checked f0 5 (newFlowController 5 true cp) 32768 H small_f0 eq_refl) as [[H1 _] _]; [lia|].
  destruct (received_data_checked f0 5 (newFlowController 5 true cp) 32769 H small_f0 eq_refl) as [[H2 [H3|H3]] _]; [lia| |].
  - exfalso. apply H2 in H3 as [H3 _]. cbn in H3. lia.
  - split; [|exact H3]. apply H1. split; [vm_compute; congruence|]. intros _. vm_compute. congruence.
Defined.

Definition clock (id : Z) : Clock := MkClock 5000 5000 100 ∅.

Lemma window_updates_correct_witness :
  (GetWindowUpdates clock false [5] f2).2 = [MkWindowUpdate 5 52768] ∧ fcm_inv (GetWindowUpdates clock false [5] f2).1.
Proof.
  split; [by vm_compute|].
  pose proof (window_updates_correct clock false [5] f2 (reachable_inv f2 reachable_f2) small_f2) as H.
  destruct (GetWindowUpdates clock false [5] f2) as [f' res]. apply H. by vm_compute.
Defined.

Definition l0 : link := MkLink (newFlowController 5 true cp) (newFlowController 5 true cp) [] [].

Lemma no_flow_control_violation_witness :
  CheckFlowControlViolation (flowController.UpdateHighestReceived 16384 (newFlowController 5 true cp)).1.1 = false.
Proof.
  assert (link_reachable cp l0 (MkLink (flowController.AddBytesSent 16384 (newFlowController 5 true cp))
    (newFlowController 5 true cp) [16384] [])) as Hr.
  { apply (lr_step cp l0 l0); [constructor|by vm_compute|]. by apply (ls_send cp l0 16384). }
  destruct (no_flow_control_violation cp cp 5 true true _ cp_ok ltac:(by vm_compute) Hr) as (_ & _ & Hd).
  exact (Forall_inv Hd).
Defined.

Lemma window_update_can_shrink_witness :
  getSendWindow cp (UpdateSendWindow 1 (newFlowController 5 true cp)).1 = 1.
Proof.
  pose proof (window_update_can_shrink cp 5 true 1) as H.
  destruct (UpdateSendWindow 1 (newFlowController 5 true cp)) as [c u]. apply H. cbn. lia.
Defined.

End FlowExamples.
