(* ===== verification/FlowNetwork.v ===== *)
(** * Flow control between two ends

    The flow control managers of both ends of a connection (flow_control_manager.go) with any
    number of streams, put together: one end sends within its windows, the other one
    receives, reads and sends window updates, and the network loses, delays, reorders and
    repeats all of it. The windows of the streams and the one of the connection, which
    the manager counts with increments of the streams, are both respected. *)

From S2P Require Import Prelude Protocol ByteOrder GoFloat FlowControl.

(** ** Sums over maps *)
Section sums.

Definition sum_values (m : gmap Z Z) : Z := map_fold (λ _ v n, v + n) 0 m.

Lemma sum_fresh m i v : m !! i = None → sum_values (<[i := v]> m) = v + sum_values m.
Proof. intros Hm. unfold sum_values. rewrite map_fold_insert_L; [done| |done]. intros. lia. Qed.

Lemma sum_delete m i v : m !! i = Some v → sum_values m = v + sum_values (delete i m).
Proof. intros Hm. unfold sum_values. rewrite (map_fold_delete_L _ _ i v m); [done| |done]. intros. lia. Qed.

Lemma sum_update m i v v' : m !! i = Some v → sum_values (<[i := v']> m) = sum_values m - v + v'.
Proof.
  intros Hm. rewrite (sum_delete m i v Hm), <- (insert_delete_eq m i v'), sum_fresh by apply lookup_delete_eq. lia.
Qed.

Lemma sum_nonneg m : map_Forall (λ _ v, 0 <= v) m → 0 <= sum_values m.
Proof.
  induction m as [|i v m Hm IH] using map_ind; [done|]. rewrite sum_fresh by done.
  intros [Hv Hm']%map_Forall_insert; [|done]. specialize (IH Hm'). lia.
Qed.

Lemma sum_at_least m i v : map_Forall (λ _ v, 0 <= v) m → m !! i = Some v → v <= sum_values m.
Proof.
  intros H Hi. rewrite (sum_delete m i v Hi). pose proof (sum_nonneg _ (map_Forall_delete _ _ i H)). lia.
Qed.

End sums.

Section network.
Import flowController flowControlManager.
Notation cstate := flowController.flowController.

(** The parameters of the sender and of the receiver. *)
Context (cps cpr : ConnectionParameters).

(** ** Runs *)

(** The managers of both ends, the stream frames (stream and end of the data) and the window
    updates that have been put on the network. Any of them can arrive at any time. *)
Record network := MkNetwork {
  nsend : flowControlManager;
  nrecv : flowControlManager;
  ndata : list (Z * Z);
  nupdates : list WindowUpdate;
}.

Inductive network_step (n : network) : network → Prop :=
  | ns_open id b : id ≠ 0 → streamFlowController (nsend n) !! id = None → streamFlowController (nrecv n) !! id = None →
      network_step n (MkNetwork (NewStream cps id b (nsend n)) (NewStream cpr id b (nrecv n)) (ndata n) (nupdates n))
  | ns_send id w k o : SendWindowSize cps id (nsend n) = inl w → 0 <= k <= w →
      GetBytesSent id (AddBytesSent id k (nsend n)).1 = inl o →
      network_step n (MkNetwork (AddBytesSent id k (nsend n)).1 (nrecv n) ((id, o) :: ndata n) (nupdates n))
  | ns_deliver id o : (id, o) ∈ ndata n →
      network_step n (MkNetwork (nsend n) (UpdateHighestReceived id o (nrecv n)).1 (ndata n) (nupdates n))
  | ns_read id c k t : streamFlowController (nrecv n) !! id = Some c → 0 <= k <= highestReceived c - bytesRead c →
      network_step n (MkNetwork (nsend n) (AddBytesRead id k t (nrecv n)).1 (ndata n) (nupdates n))
  | ns_update clock force ids f' res : ids ≡ₚ elements (dom (streamFlowController (nrecv n))) →
      GetWindowUpdates clock force ids (nrecv n) = (f', res) →
      network_step n (MkNetwork (nsend n) f' (ndata n) (res ++ nupdates n))
  | ns_window id o : MkWindowUpdate id o ∈ nupdates n →
      network_step n (MkNetwork (UpdateWindow id o (nsend n)).1 (nrecv n) (ndata n) (nupdates n)).

Inductive network_reachable (n0 : network) : network → Prop :=
  | nr_refl : network_reachable n0 n0
  | nr_step n n' : network_reachable n0 n → windows_small (nrecv n) → network_step n n' → network_reachable n0 n'.

Definition new_network : network := MkNetwork (NewFlowControlManager cps) (NewFlowControlManager cpr) [] [].

(** ** The invariant *)

(** What a controller of the sender and its peer know of each other. *)
Record paired (s r : cstate) : Prop := {
  pa_received : highestReceived r <= bytesSent s;
  pa_sent : 0 <= bytesSent s <= receiveWindow r;
  pa_window : 0 <= sendWindow s ∧ getSendWindow cps s <= receiveWindow r;
}.

(** The bytes of a stream that were sent and have not arrived, as far as they count for the
    connection. *)
Definition ahead (s r : cstate) : Z := if contributesToConnection r then bytesSent s - highestReceived r else 0.

Definition on_the_way (n : network) : gmap Z Z :=
  map_zip_with ahead (streamFlowController (nsend n)) (streamFlowController (nrecv n)).

Record network_inv (n : network) : Prop := {
  ni_receiver : fcm_inv (nrecv n);
  ni_streams id : match streamFlowController (nsend n) !! id, streamFlowController (nrecv n) !! id with
                  | Some s, Some r => paired s r ∧ contributesToConnection s = contributesToConnection r
                  | None, None => True
                  | _, _ => False
                  end;
  ni_zero : streamFlowController (nrecv n) !! 0 = None;
  ni_conn : paired (connFlowController (nsend n)) (connFlowController (nrecv n));
  ni_ahead : sum_values (on_the_way n) = bytesSent (connFlowController (nsend n)) - highestReceived (connFlowController (nrecv n));
  ni_data id o : (id, o) ∈ ndata n → ∃ s, streamFlowController (nsend n) !! id = Some s ∧ 0 <= o <= bytesSent s;
  ni_updates id o : MkWindowUpdate id o ∈ nupdates n →
    if decide (id = 0) then o <= receiveWindow (connFlowController (nrecv n))
    else ∃ r, streamFlowController (nrecv n) !! id = Some r ∧ o <= receiveWindow r;
}.

Lemma inv_pair n id s : network_inv n → streamFlowController (nsend n) !! id = Some s →
  ∃ r, streamFlowController (nrecv n) !! id = Some r ∧ paired s r ∧ contributesToConnection s = contributesToConnection r.
Proof. intros H E. pose proof (ni_streams n H id) as Hs. rewrite E in Hs. case_match; [|done]. eauto. Qed.

Lemma inv_pair' n id r : network_inv n → streamFlowController (nrecv n) !! id = Some r →
  ∃ s, streamFlowController (nsend n) !! id = Some s ∧ paired s r ∧ contributesToConnection s = contributesToConnection r.
Proof. intros H E. pose proof (ni_streams n H id) as Hs. rewrite E in Hs. case_match; [|done]. eauto. Qed.

Lemma ahead_nonneg s r : paired s r → 0 <= ahead s r.
Proof. intros [? _ _]. unfold ahead. case_match; lia. Qed.

Lemma way_nonneg n : network_inv n → map_Forall (λ _ v, 0 <= v) (on_the_way n).
Proof.
  intros H id v. unfold on_the_way. rewrite map_lookup_zip_with. pose proof (ni_streams n H id) as Hs.
  destruct (streamFlowController (nsend n) !! id), (streamFlowController (nrecv n) !! id); cbn; try done.
  intros [= <-]. apply ahead_nonneg, Hs.
Qed.

(** A stream of both ends is changed. *)
Lemma way_update sm rm id s r s' r' : sm !! id = Some s → rm !! id = Some r →
  sum_values (map_zip_with ahead (<[id := s']> sm) (<[id := r']> rm)) =
  sum_values (map_zip_with ahead sm rm) - ahead s r + ahead s' r'.
Proof.
  intros Es Er. rewrite <- map_insert_zip_with. apply sum_update. by rewrite map_lookup_zip_with, Es, Er.
Qed.

(** Changes at both ends that leave what is on the way alone. *)
Lemma way_same (sm sm' rm rm' : gmap Z cstate) :
  (∀ id, bytesSent <$> sm' !! id = bytesSent <$> sm !! id) →
  (∀ id, (λ r, (contributesToConnection r, highestReceived r)) <$> rm' !! id =
         (λ r, (contributesToConnection r, highestReceived r)) <$> rm !! id) →
  map_zip_with ahead sm' rm' = map_zip_with ahead sm rm.
Proof.
  intros Hs Hr. apply map_eq. intros id. rewrite !map_lookup_zip_with. specialize (Hs id). specialize (Hr id).
  destruct (sm !! id) as [x|], (sm' !! id) as [x'|], (rm !! id) as [r|], (rm' !! id) as [r'|]; try done.
  injection Hs as E. injection Hr as E1 E2. cbn. unfold ahead. by rewrite E, E1, E2.
Qed.

(** *** The controllers *)

Lemma paired_send s r k : paired s r → receiveWindow r < 2 ^ 62 → 0 <= k <= flowController.SendWindowSize cps s →
  paired (flowController.AddBytesSent k s) r ∧ bytesSent (flowController.AddBytesSent k s) = bytesSent s + k.
Proof.
  intros [H1 H2 H3] Hs Hk. assert (bytesSent (flowController.AddBytesSent k s) = bytesSent s + k ∧ bytesSent s + k <= receiveWindow r) as [E Hle].
  { revert Hk. unfold flowController.AddBytesSent, flowController.SendWindowSize. cbn.
    destruct (Z.ltb_spec (getSendWindow cps s) (bytesSent s)); intros Hk; zlia. }
  split; [|done]. constructor; [lia|lia|exact H3].
Qed.

Lemma paired_receive s r h : paired s r → h <= bytesSent s → paired s (set_highestReceived h r).
Proof. intros [H1 H2 H3] Hh. by constructor. Qed.

Lemma paired_grow s r r' : paired s r → highestReceived r' = highestReceived r → receiveWindow r <= receiveWindow r' → paired s r'.
Proof. intros [H1 H2 H3] E Hle. constructor; lia. Qed.

Lemma paired_window s r o : paired s r → o <= receiveWindow r → paired (UpdateSendWindow o s).1 r.
Proof.
  intros [H1 H2 H3] Ho. unfold UpdateSendWindow. destruct (Z.ltb_spec (sendWindow s) o); [|by constructor].
  constructor; [done|done|]. unfold getSendWindow. cbn. destruct (Z.eqb_spec o 0); lia.
Qed.

Lemma window_sender o c : bytesSent (UpdateSendWindow o c).1 = bytesSent c ∧
  contributesToConnection (UpdateSendWindow o c).1 = contributesToConnection c.
Proof. unfold UpdateSendWindow. by case_match. Qed.

(** The window that the sender starts with was granted by the receiver. *)
Hypothesis Hok : parameters_ok cpr.
Hypothesis Hgranted : ∀ id b b', getSendWindow cps (newFlowController id b cps) <= receiveWindow (newFlowController id b' cpr).

Lemma paired_new id b b' : paired (newFlowController id b cps) (newFlowController id b' cpr).
Proof.
  pose proof (Hgranted id b b') as Hg. destruct Hok as (? & _ & ? & _).
  unfold newFlowController in *. destruct (id =? 0) eqn:E; (constructor; cbn in *; rewrite ?E in *; lia).
Qed.

Lemma new_network_inv : network_inv new_network.
Proof.
  constructor; cbn [new_network nsend nrecv ndata nupdates].
  - constructor; [done|by apply new_fc_inv|done].
  - done.
  - done.
  - apply paired_new.
  - done.
  - by intros ? ? ?%elem_of_nil.
  - by intros ? ? ?%elem_of_nil.
Qed.

(** *** The managers *)

Lemma step_open n id b : network_inv n → id ≠ 0 → streamFlowController (nsend n) !! id = None → streamFlowController (nrecv n) !! id = None →
  network_inv (MkNetwork (NewStream cps id b (nsend n)) (NewStream cpr id b (nrecv n)) (ndata n) (nupdates n)).
Proof.
  intros [H1 H2 H3 H4 H5 H6 H7] Hid Es Er. pose proof (NewStream_inv cpr id b _ Hok H1) as H1'.
  unfold NewStream in *. rewrite Es, Er in *. constructor; cbn [nsend nrecv ndata nupdates]; [done| | | | | |].
  - intros i. cbn. destruct (decide (i = id)) as [->|Hne].
    + rewrite !lookup_insert_eq. split; [apply paired_new|]. unfold newFlowController. by case_match.
    + rewrite !lookup_insert_ne by done. apply H2.
  - cbn. by rewrite lookup_insert_ne.
  - done.
  - unfold on_the_way in *. cbn. rewrite <- map_insert_zip_with, sum_fresh by (by rewrite map_lookup_zip_with, Es). rewrite H5.
    unfold ahead, newFlowController. repeat case_match; cbn; lia.
  - intros i o Hi. destruct (H6 i o Hi) as (s & E & ?). exists s. cbn. rewrite lookup_insert_ne by congruence. done.
  - intros i o Hi. specialize (H7 i o Hi). destruct (decide (i = 0)); [done|]. destruct H7 as (r & E & ?). exists r. cbn.
    rewrite lookup_insert_ne by congruence. done.
Qed.

Lemma step_send n id w k o : network_inv n → windows_small (nrecv n) → SendWindowSize cps id (nsend n) = inl w → 0 <= k <= w →
  GetBytesSent id (AddBytesSent id k (nsend n)).1 = inl o →
  network_inv (MkNetwork (AddBytesSent id k (nsend n)).1 (nrecv n) ((id, o) :: ndata n) (nupdates n)).
Proof.
  intros H [Hs1 Hs2] Ew Hk Eo. unfold SendWindowSize, GetBytesSent, AddBytesSent, getFlowController in *.
  destruct (streamFlowController (nsend n) !! id) as [s|] eqn:Es; [|done]. destruct (inv_pair n id s H Es) as (r & Er & Hp & Hc).
  pose proof (map_Forall_lookup_1 _ _ _ _ Hs1 Er) as Hw. cbn in Hw. unfold ContributesToConnection, utils.MinByteCount in *.
  destruct H as [H1 H2 H3 H4 H5 H6 H7]. set (s' := flowController.AddBytesSent k s) in *.
  assert (contributesToConnection s' = contributesToConnection s) as Ec by done.
  assert (k <= flowController.SendWindowSize cps s ∧
    (contributesToConnection s = true → k <= flowController.SendWindowSize cps (connFlowController (nsend n)))) as [Hk1 Hk2].
  { injection Ew as <-. destruct (contributesToConnection s); [case_bool; lia|split; [lia|done]]. }
  destruct (paired_send s r k Hp Hw ltac:(lia)) as [Hp' Eb]. fold s' in Hp', Eb. clearbody s'.
  assert (∀ c : cstate, (∀ i, match (<[id := s']> (streamFlowController (nsend n))) !! i, streamFlowController (nrecv n) !! i with
     | Some s, Some r => paired s r ∧ contributesToConnection s = contributesToConnection r | None, None => True | _, _ => False end)) as Hst.
  { intros _ i. destruct (decide (i = id)) as [->|Hne]; [rewrite lookup_insert_eq, Er; split; [done|congruence]|].
    rewrite lookup_insert_ne by done. apply H2. }
  assert (∀ i v, (i, v) ∈ (id, o) :: ndata n → o = bytesSent s' → ∃ s0, (<[id := s']> (streamFlowController (nsend n))) !! i = Some s0 ∧ 0 <= v <= bytesSent s0) as Hd.
  { intros i v Hi ->. destruct (decide (i = id)) as [->|Hne].
    - rewrite lookup_insert_eq. exists s'. split; [done|]. apply elem_of_cons in Hi as [[= ->]|Hi]; [pose proof (pa_sent _ _ Hp'); lia|].
      destruct (H6 id v Hi) as (s0 & E0 & ?). assert (s0 = s) as -> by congruence. lia.
    - rewrite lookup_insert_ne by done. apply elem_of_cons in Hi as [[= -> ->]|Hi]; [done|]. by apply H6. }
  assert (sum_values (map_zip_with ahead (<[id := s']> (streamFlowController (nsend n))) (streamFlowController (nrecv n))) =
    sum_values (on_the_way n) - ahead s r + ahead s' r) as Esum.
  { rewrite <- (insert_id (streamFlowController (nrecv n)) id r Er) at 1. by apply way_update. }
  assert (bytesSent s' = o) as Eo'.
  { destruct (contributesToConnection s); cbn in Eo; rewrite lookup_insert_eq in Eo; by injection Eo. }
  destruct (contributesToConnection s) eqn:Econ; cbn [fst snd].
  - destruct (paired_send _ _ k H4 Hs2 ltac:(specialize (Hk2 eq_refl); lia)) as [H4' Eb'].
    constructor; cbn [nsend nrecv ndata nupdates]; [done|exact (Hst s)|done|exact H4'| |intros; by apply Hd|done].
    unfold on_the_way in *. cbn [streamFlowController connFlowController set_conn set_stream nsend nrecv]. rewrite Esum, H5. unfold ahead. rewrite <- Hc.
    fold (flowController.AddBytesSent k (connFlowController (nsend n))). rewrite Eb, Eb'. lia.
  - constructor; cbn [nsend nrecv ndata nupdates]; [done|exact (Hst s)|done|exact H4| |intros; by apply Hd|done].
    unfold on_the_way in *. cbn [streamFlowController connFlowController set_stream nsend nrecv]. rewrite Esum, H5. unfold ahead. rewrite <- Hc. lia.
Qed.

(** The arrival of data that is on the network: no check fails. *)
Lemma delivered n id o : network_inv n → windows_small (nrecv n) → (id, o) ∈ ndata n →
  ∃ s r, streamFlowController (nsend n) !! id = Some s ∧ streamFlowController (nrecv n) !! id = Some r ∧
    let h := Z.max o (highestReceived r) in let f := set_stream id (set_highestReceived h r) (nrecv n) in
    h <= bytesSent s ∧ fcm_inv (UpdateHighestReceived id o (nrecv n)).1 ∧
    UpdateHighestReceived id o (nrecv n) =
      (if contributesToConnection r
       then set_conn (set_highestReceived (highestReceived (connFlowController (nrecv n)) + (h - highestReceived r)) (connFlowController (nrecv n))) f
       else f, None) ∧
    (contributesToConnection r = true →
       highestReceived (connFlowController (nrecv n)) + (h - highestReceived r) <= bytesSent (connFlowController (nsend n))).
Proof.
  intros H Hw Hd. destruct (ni_data n H id o Hd) as (s & Es & Ho). destruct (inv_pair n id s H Es) as (r & Er & Hp & Hc). exists s, r.
  split; [done|]. split; [done|]. cbv zeta. set (h := Z.max o (highestReceived r)). pose proof Hp as [P1 P2 P3].
  assert (h <= bytesSent s) as Hh by (unfold h; lia). split; [done|].
  pose proof (map_Forall_lookup_1 _ _ _ _ (proj1 Hw) Er) as Hwr. cbn in Hwr.
  pose proof (sum_at_least _ id (ahead s r) (way_nonneg n H)) as Hsum. rewrite (ni_ahead n H) in Hsum.
  specialize (Hsum ltac:(unfold on_the_way; by rewrite map_lookup_zip_with, Es, Er)).
  pose proof (ni_conn n H) as [C1 C2 C3]. pose proof (proj2 Hw) as Hwc.
  assert (contributesToConnection r = true →
    highestReceived (connFlowController (nrecv n)) + (h - highestReceived r) <= bytesSent (connFlowController (nsend n))) as Hconn.
  { intros E. unfold ahead in Hsum. rewrite E in Hsum. lia. }
  pose proof (received_accepted (nrecv n) id r o (ni_receiver n H) Hw Er ltac:(lia)) as Hacc. cbv zeta in Hacc.
  replace (Z.max 0 (o - highestReceived r)) with (h - highestReceived r) in Hacc by (unfold h; lia).
  pose proof (map_Forall_lookup_1 _ _ _ _ (fcm_streams _ (ni_receiver n H)) Er) as [R1 R2 _ _ _].
  pose proof (fcm_conn _ (ni_receiver n H)) as [K1 K2 _ _ _].
  assert (UpdateHighestReceived id o (nrecv n) =
      (if contributesToConnection r
       then set_conn (set_highestReceived (highestReceived (connFlowController (nrecv n)) + (h - highestReceived r)) (connFlowController (nrecv n)))
              (set_stream id (set_highestReceived h r) (nrecv n))
       else set_stream id (set_highestReceived h r) (nrecv n), None)) as Eu.
  { unfold UpdateHighestReceived, getFlowController. rewrite Er.
    assert (∃ e, flowController.UpdateHighestReceived o r = (set_highestReceived h r, h - highestReceived r, e)) as [e ->].
    { unfold flowController.UpdateHighestReceived, h. destruct (Z.eqb_spec o (highestReceived r)) as [->|].
      - exists None. rewrite Z.max_id, Z.sub_diag. by destruct r.
      - destruct (Z.ltb_spec (highestReceived r) o).
        + exists None. rewrite Z.max_l by lia. by rewrite u64_id by (unfold is_u64; lia).
        + eexists. rewrite Z.max_r by lia. rewrite Z.sub_diag. by destruct r. }
    unfold checkReceived, CheckFlowControlViolation, ContributesToConnection, IncrementHighestReceived.
    cbn [receiveWindow highestReceived set_highestReceived contributesToConnection].
    destruct (Z.ltb_spec (receiveWindow r) h); [lia|]. destruct (contributesToConnection r) eqn:E; [|done]. specialize (Hconn eq_refl).
    change (connFlowController (set_stream _ _ (nrecv n))) with (connFlowController (nrecv n)).
    rewrite (u64_id (highestReceived (connFlowController (nrecv n)) + (h - highestReceived r))) by (unfold is_u64, h; lia).
    cbn [connFlowController set_conn receiveWindow highestReceived set_highestReceived].
    case_bool; [lia|done]. }
  rewrite Eu in Hacc |- *. destruct Hacc as [Hi _]. split; [by apply Hi|]. done.
Qed.

Lemma step_deliver n id o : network_inv n → windows_small (nrecv n) → (id, o) ∈ ndata n →
  network_inv (MkNetwork (nsend n) (UpdateHighestReceived id o (nrecv n)).1 (ndata n) (nupdates n)).
Proof.
  intros H Hw Hd. destruct (delivered n id o H Hw Hd) as (s & r & Es & Er & Hh & Hi & Eu & Hc). rewrite Eu in Hi |- *. cbn [fst] in *.
  destruct (inv_pair n id s H Es) as (r' & Er' & Hp & Hcon). assert (r' = r) as -> by congruence. clear Er'.
  set (h := Z.max o (highestReceived r)) in *. destruct H as [H1 H2 H3 H4 H5 H6 H7].
  set (f := if contributesToConnection r then _ else _) in *.
  assert (streamFlowController f = <[id := set_highestReceived h r]> (streamFlowController (nrecv n))) as Ef by (unfold f; by case_match).
  assert (∃ v, connFlowController f = set_highestReceived v (connFlowController (nrecv n)) ∧ v <= bytesSent (connFlowController (nsend n)) ∧
    v = highestReceived (connFlowController (nrecv n)) + (if contributesToConnection r then h - highestReceived r else 0)) as (v & Ev & Hv & Ev').
  { unfold f. destruct (contributesToConnection r); cbn; eexists; (split; [|split; [|reflexivity]]); [done|by apply Hc|
      rewrite Z.add_0_r; by destruct (connFlowController (nrecv n))|rewrite Z.add_0_r; apply H4]. }
  assert (id ≠ 0) as Hid by congruence. clearbody f.
  constructor; cbn [nsend nrecv ndata nupdates]; rewrite ?Ef; [done| | | | |done|].
  - intros i. destruct (decide (i = id)) as [->|Hne]; [|rewrite lookup_insert_ne by done; apply H2].
    rewrite Es, lookup_insert_eq. split; [by apply paired_receive|done].
  - by rewrite lookup_insert_ne.
  - rewrite Ev. by apply paired_receive.
  - unfold on_the_way in *. cbn [nsend nrecv]. rewrite Ef, <- (insert_id (streamFlowController (nsend n)) id s Es) at 1.
    rewrite (way_update _ _ id s r) by done. rewrite H5, Ev, Ev'. unfold ahead. cbn. destruct (contributesToConnection r); lia.
  - intros i v' Hi'. specialize (H7 i v' Hi'). destruct (decide (i = 0)); [by rewrite Ev|]. destruct H7 as (r0 & E0 & Hle).
    destruct (decide (i = id)) as [->|Hne]; [|exists r0; by rewrite lookup_insert_ne].
    exists (set_highestReceived h r). rewrite lookup_insert_eq. split; [done|]. cbn. congruence.
Qed.

(** What reading and updating the windows does to a controller. *)
Record grown (r r' : cstate) : Prop := {
  gr_contributes : contributesToConnection r' = contributesToConnection r;
  gr_highest : highestReceived r' = highestReceived r;
  gr_window : receiveWindow r <= receiveWindow r';
}.

Lemma step_grown n f' us : network_inv n → fcm_inv f' →
  (∀ id, match streamFlowController (nrecv n) !! id, streamFlowController f' !! id with
         | Some r, Some r' => grown r r' | None, None => True | _, _ => False end) →
  highestReceived (connFlowController f') = highestReceived (connFlowController (nrecv n)) →
  receiveWindow (connFlowController (nrecv n)) <= receiveWindow (connFlowController f') →
  (∀ id o, MkWindowUpdate id o ∈ us → if decide (id = 0) then o <= receiveWindow (connFlowController f')
    else ∃ r, streamFlowController f' !! id = Some r ∧ o <= receiveWindow r) →
  network_inv (MkNetwork (nsend n) f' (ndata n) (us ++ nupdates n)).
Proof.
  intros [H1 H2 H3 H4 H5 H6 H7] Hi Hst Eh Hw Hus.
  constructor; cbn [nsend nrecv ndata nupdates]; [done| | | | |done|].
  - intros id. specialize (H2 id). specialize (Hst id).
    destruct (streamFlowController (nsend n) !! id), (streamFlowController (nrecv n) !! id), (streamFlowController f' !! id); try done.
    destruct Hst as [E1 E2 E3], H2 as [H2 E]. split; [by eapply paired_grow|congruence].
  - specialize (Hst 0). rewrite H3 in Hst. by case_match.
  - by eapply paired_grow.
  - unfold on_the_way in *. cbn [nsend nrecv]. rewrite Eh, <- H5. f_equal. apply way_same; [done|]. intros id. specialize (Hst id).
    destruct (streamFlowController (nrecv n) !! id), (streamFlowController f' !! id); try done. destruct Hst as [E1 E2 _]. cbn. by rewrite E1, E2.
  - intros id o [Hin|Hin]%elem_of_app; [by apply Hus|]. specialize (H7 id o Hin). destruct (decide (id = 0)); [lia|].
    destruct H7 as (r & E & ?). specialize (Hst id). rewrite E in Hst. destruct (streamFlowController f' !! id) as [r'|]; [|done].
    exists r'. split; [done|]. destruct Hst as [_ _ ?]. lia.
Qed.

Lemma read_grown k t c : grown c (flowController.AddBytesRead k t c).
Proof. unfold flowController.AddBytesRead. by case_match. Qed.

Lemma step_read n id c k t : network_inv n → windows_small (nrecv n) → streamFlowController (nrecv n) !! id = Some c →
  0 <= k <= highestReceived c - bytesRead c →
  network_inv (MkNetwork (nsend n) (AddBytesRead id k t (nrecv n)).1 (ndata n) (nupdates n)).
Proof.
  intros H Hw Ec Hk. pose proof (AddBytesRead_inv _ id c k t (ni_receiver n H) Hw Ec Hk) as Hi.
  set (f' := (AddBytesRead id k t (nrecv n)).1) in *.
  assert (streamFlowController f' = <[id := flowController.AddBytesRead k t c]> (streamFlowController (nrecv n)) ∧
    (connFlowController f' = connFlowController (nrecv n) ∨ connFlowController f' = flowController.AddBytesRead k t (connFlowController (nrecv n)))) as [Ef Hc].
  { unfold f', AddBytesRead, getFlowController. rewrite Ec. case_match; cbn; auto. }
  clearbody f'. assert (grown (connFlowController (nrecv n)) (connFlowController f')) as [_ G1 G2].
  { destruct Hc as [->| ->]; [by constructor|apply read_grown]. }
  apply (step_grown n f' [] H Hi); [|done|done|by intros ? ? ?%elem_of_nil].
  intros i. rewrite Ef. destruct (decide (i = id)) as [->|Hne].
  - rewrite lookup_insert_eq, Ec. apply read_grown.
  - rewrite lookup_insert_ne by done. case_match; [by constructor|done].
Qed.

Lemma step_update n clock force ids f' res : network_inv n → windows_small (nrecv n) →
  ids ≡ₚ elements (dom (streamFlowController (nrecv n))) → GetWindowUpdates clock force ids (nrecv n) = (f', res) →
  network_inv (MkNetwork (nsend n) f' (ndata n) (res ++ nupdates n)).
Proof.
  intros H Hw Hp E. pose proof (ni_receiver n H) as Hr. destruct Hw as [Hw1 Hw2].
  assert (NoDup ids) as Hnd by (rewrite Hp; apply NoDup_elements).
  pose proof (GetWindowUpdates_inv clock force ids _ Hnd Hr (conj Hw1 Hw2)) as Hinv. rewrite E in Hinv. cbn [fst] in Hinv.
  assert (∀ id c, id ∈ ids → streamFlowController (nrecv n) !! id = Some c → receiveWindow c < 2 ^ 62) as Hsm
    by (intros id c _ Hc; apply (map_Forall_lookup_1 _ _ _ _ Hw1 Hc)).
  pose proof (streamUpdates_spec clock force ids _ Hnd Hr Hsm) as Hu. unfold GetWindowUpdates in E.
  destruct (streamUpdates clock force ids (nrecv n)) as [f1 us]. destruct Hu as (H1 & (_ & Ew & _ & Eh & _) & Hlook & Eus).
  pose proof (MaybeUpdateWindow_spec (clock 0) _ (fcm_conn f1 H1)) as Hm.
  destruct (MaybeUpdateWindow (clock 0) (connFlowController f1)) as [cn [[nec ni] off]].
  destruct Hm as (_ & _ & -> & Hle & _ & _ & _ & _ & Ehc & _); [lia|].
  assert (∀ id c, streamFlowController (nrecv n) !! id = Some c → grown c (MaybeUpdateWindow (clock id) c).1 ∧
    (MaybeUpdateWindow (clock id) c).2.2 = receiveWindow (MaybeUpdateWindow (clock id) c).1) as Hgrow.
  { intros id c Ec. pose proof (MaybeUpdateWindow_spec (clock id) c (map_Forall_lookup_1 _ _ _ _ (fcm_streams _ Hr) Ec)
      (map_Forall_lookup_1 _ _ _ _ Hw1 Ec)) as Hm. destruct (MaybeUpdateWindow (clock id) c) as [c' [[? ?] ?]].
    destruct Hm as (_ & _ & -> & ? & _ & _ & _ & _ & ? & ? & _). by split. }
  assert (∀ id c, streamFlowController (nrecv n) !! id = Some c → streamFlowController f1 !! id = Some (MaybeUpdateWindow (clock id) c).1) as Hlk.
  { intros id c Ec. rewrite Hlook, bool_decide_true, Ec; [done|]. rewrite Hp. apply elem_of_elements, elem_of_dom. by eexists. }
  assert (streamFlowController f' = streamFlowController f1 ∧ connFlowController f' = cn ∧
    (res = us ∨ res = us ++ [MkWindowUpdate 0 (receiveWindow cn)])) as (Ef & Ecn & Hres)
    by (destruct (force || nec); injection E as <- <-; auto).
  apply step_grown; [done|done| |rewrite Ecn; congruence|rewrite Ecn; lia|].
  - intros id. rewrite Ef. destruct (streamFlowController (nrecv n) !! id) as [c|] eqn:Ec.
    + rewrite (Hlk id c Ec). by apply Hgrow.
    + rewrite Hlook, Ec. by destruct (bool_decide _).
  - rewrite Ef, Ecn. assert (∀ id o, MkWindowUpdate id o ∈ us → id ≠ 0 ∧ ∃ r, streamFlowController f1 !! id = Some r ∧ o <= receiveWindow r) as Hin.
    { intros id o Hin. rewrite Eus in Hin. apply list_elem_of_omap in Hin as (i & _ & Hi). unfold update_of in Hi.
      destruct (streamFlowController (nrecv n) !! i) as [c|] eqn:Ec; [|done]. destruct (Hgrow i c Ec) as [_ Eo]. specialize (Hlk i c Ec).
      destruct (MaybeUpdateWindow (clock i) c) as [c' [[? ?] ?]]. cbn in Eo, Hlk. case_match; [|done]. injection Hi as <- <-.
      split; [intros ->; by rewrite (ni_zero n H) in Ec|]. exists c'. split; [done|lia]. }
    intros id o Ho. assert (MkWindowUpdate id o ∈ us ∨ id = 0 ∧ o = receiveWindow cn) as [Hu|[-> ->]].
    { destruct Hres as [->| ->]; [by left|]. apply elem_of_app in Ho as [?|[= -> ->]%list_elem_of_singleton]; auto. }
    + destruct (Hin id o Hu) as [? ?]. by rewrite decide_False.
    + by rewrite decide_True.
Qed.

Lemma step_window n id o : network_inv n → MkWindowUpdate id o ∈ nupdates n →
  network_inv (MkNetwork (UpdateWindow id o (nsend n)).1 (nrecv n) (ndata n) (nupdates n)).
Proof.
  intros H Hin. pose proof H as [H1 H2 H3 H4 H5 H6 H7]. specialize (H7 id o Hin). unfold UpdateWindow, getFlowController.
  destruct (window_sender o (connFlowController (nsend n))) as [Eb _]. destruct (Z.eqb_spec id 0) as [->|Hne].
  - rewrite decide_True in H7 by done. pose proof (paired_window _ _ o H4 H7) as Hp.
    destruct (UpdateSendWindow o (connFlowController (nsend n))) as [c u]. cbn in Hp, Eb |- *.
    constructor; cbn [nsend nrecv ndata nupdates set_conn]; try done; [|apply (ni_updates n H)].
    unfold on_the_way in *. cbn. by rewrite Eb.
  - rewrite decide_False in H7 by done. destruct H7 as (r & Er & Hle). destruct (inv_pair' n id r H Er) as (s & Es & Hp & Hc). rewrite Es.
    pose proof (paired_window _ _ o Hp Hle) as Hp'. destruct (window_sender o s) as [Es1 Es2].
    destruct (UpdateSendWindow o s) as [c u]. cbn in Hp', Es1, Es2 |- *.
    constructor; cbn [nsend nrecv ndata nupdates]; [done| |done|done| | |apply (ni_updates n H)].
    + intros i. cbn. destruct (decide (i = id)) as [->|Hi]; [rewrite lookup_insert_eq, Er; split; [done|congruence]|].
      rewrite lookup_insert_ne by done. apply H2.
    + unfold on_the_way in *. cbn [nsend nrecv streamFlowController connFlowController set_stream]. rewrite <- H5. f_equal.
      apply way_same; [|done]. intros i. destruct (decide (i = id)) as [->|Hi]; [rewrite lookup_insert_eq, Es; cbn; by rewrite Es1|by rewrite lookup_insert_ne].
    + intros i v Hi. destruct (H6 i v Hi) as (s0 & E0 & ?). cbn. destruct (decide (i = id)) as [->|Hne']; [|exists s0; by rewrite lookup_insert_ne].
      exists c. rewrite lookup_insert_eq. split; [done|]. assert (s0 = s) as -> by congruence. lia.
Qed.

Lemma network_step_inv n n' : network_inv n → windows_small (nrecv n) → network_step n n' → network_inv n'.
Proof.
  intros H Hw Hst. destruct Hst as [id b Hid Es Er|id w k o Ew Hk Eo|id o Hd|id c k t Ec Hk|clock force ids f' res Hp E|id o Hin].
  - by apply step_open.
  - by eapply step_send.
  - by apply step_deliver.
  - by eapply step_read.
  - by eapply step_update.
  - by apply step_window.
Qed.

Lemma network_reachable_inv n : network_reachable new_network n → network_inv n.
Proof. induction 1 as [|n n' _ IH Hw Hst]; [apply new_network_inv|by eapply network_step_inv]. Qed.

End network.

(** The receiver accepts all data that is on the network, on its stream and on the connection,
    and it has not seen more than was sent. *)
Definition network_safe (n : network) : Prop :=
  (∀ id o, (id, o) ∈ ndata n → (flowControlManager.UpdateHighestReceived id o (nrecv n)).2 = None) ∧
  flowController.highestReceived (flowControlManager.connFlowController (nrecv n)) <=
  flowController.bytesSent (flowControlManager.connFlowController (nsend n)) ∧
  flowController.bytesSent (flowControlManager.connFlowController (nsend n)) <=
  flowController.receiveWindow (flowControlManager.connFlowController (nrecv n)).

Lemma network_inv_safe cps n : network_inv cps n → windows_small (nrecv n) → network_safe n.
Proof.
  intros H Hw. split; [|destruct (ni_conn _ n H) as [? [_ ?] _]; done]. intros id o Hd.
  by destruct (delivered cps n id o H Hw Hd) as (s & r & _ & _ & _ & _ & -> & _).
Qed.
