(* ===== verification/FrameSorter.v ===== *)
(** * Reassembly of stream data

    [stream_frame_sorter.go]: the frames of a stream arrive in any order, overlap and
    repeat; the sorter keeps them until the data before them has arrived. *)

From S2P Require Import Prelude Protocol ByteOrder AckFrames Frames.

(** ** internal/utils/streamframe_interval.go *)
Record ByteInterval := MkByteInterval { Start : Z; End : Z }.

(** ** stream_frame_sorter.go *)
Module streamFrameSorter.
Import protocol StreamFrame.

Definition errTooManyGapsInReceivedStreamData : error := NewError "Too many gaps in received StreamFrame data".
Definition errDuplicateStreamData : error := NewError "Duplicate Stream Data".
Definition errEmptyStreamData : error := NewError "Stream Data empty".
Definition errNoGap : error := NewError "StreamFrameSorter BUG: no gap found".
Definition errNoEndGap : error := NewError "StreamFrameSorter BUG: no end gap found".

(** [gaps] is the linked list from front to back. *)
Record streamFrameSorter := MkSorter {
  queuedFrames : gmap Z StreamFrame;
  readPosition : Z;
  gaps : list ByteInterval;
}.

Definition newStreamFrameSorter : streamFrameSorter := MkSorter ∅ 0 [MkByteInterval 0 MaxByteCount].

Definition set_data (offset : Z) (data : list Z) (f : StreamFrame) : StreamFrame :=
  MkStreamFrame (StreamID f) (FinBit f) (DataLenPresent f) offset data.

(** [data[k:]] and [data[:k]]. *)
Definition sliceFrom (k : Z) (data : list Z) : outcome (list Z) :=
  if k <=? len data then Ok (drop (Z.to_nat k) data) else Panic.
Definition sliceTo (k : Z) (data : list Z) : outcome (list Z) :=
  if k <=? len data then Ok (take (Z.to_nat k) data) else Panic.

(** The search for the first gap that the frame reaches: the gaps before it, the gap
    itself and the gaps behind it. *)
Inductive found := Duplicate | NoGap | Found (before : list ByteInterval) (gap : ByteInterval) (after : list ByteInterval).

Fixpoint findGap (start end_ : Z) (l : list ByteInterval) : found :=
  match l with
  | [] => NoGap
  | gap :: l' =>
      if end_ <=? Start gap then Duplicate
      else if (Start gap <? end_) && (start <=? End gap) then Found [] gap l'
      else match findGap start end_ l' with
           | Found before g after => Found (gap :: before) g after
           | r => r
           end
  end.

(** The loop over the gaps that the frame covers. [isGap]: [endGap] is still [gap].
    The result is the last [endGap], whether it is [gap] ([AtGap]), another gap of the
    list ([Later]) or a gap that has been removed from the list ([Removed]), the gaps
    behind it and the queued frames. When there is no gap left, what remains of the
    gaps behind [gap] and of the queued frames. *)
Inductive place := AtGap | Later | Removed.

Fixpoint endLoop (end_ : Z) (isGap : bool) (endGap : ByteInterval) (rest : list ByteInterval)
    (queued : gmap Z StreamFrame) :
    (ByteInterval * place * list ByteInterval * gmap Z StreamFrame) + (list ByteInterval * gmap Z StreamFrame) :=
  if End endGap <=? end_ then
    match rest with
    | [] => inr (if isGap then [] else [endGap], queued)
    | nextEndGap :: rest' =>
        if end_ <=? Start nextEndGap then inl (endGap, if isGap then AtGap else Removed, rest, queued)
        else endLoop end_ false nextEndGap rest' (delete (End endGap) queued)
    end
  else inl (endGap, if isGap then AtGap else Later, rest, queued).

(** The gaps in the place of [gap] and [endGap] when the frame takes the bytes from
    [start] to [end_]. *)
Definition shrinkGaps (start end_ : Z) (gap endGap : ByteInterval) (where_ : place) : list ByteInterval :=
  let later := match where_ with Later => [endGap] | _ => [] end in
  if start =? Start gap then
    let first := if End gap <=? end_ then [] else [gap] in
    if end_ <? End endGap then
      match where_ with
      | AtGap => if End gap <=? end_ then [] else [MkByteInterval end_ (End gap)]
      | Later => first ++ [MkByteInterval end_ (End endGap)]
      | Removed => first
      end
    else first ++ later
  else if end_ =? End endGap then MkByteInterval (Start gap) start :: later
  else match where_ with
       | AtGap => [MkByteInterval (Start gap) start; MkByteInterval end_ (End gap)]
       | Later => [MkByteInterval (Start gap) start; MkByteInterval end_ (End endGap)]
       | Removed => [MkByteInterval (Start gap) start]
       end.

(** Push behind the search for the first gap. *)
Definition fillGap (s : streamFrameSorter) (frame : StreamFrame) (start end_ : Z)
    (before : list ByteInterval) (gap : ByteInterval) (after : list ByteInterval) :
    outcome (streamFrameSorter * option error) :=
  frame' ← (if start <? Start gap
            then data ← sliceFrom (u64 (Start gap - start)) (Data frame);
                 Ok (set_data (u64 (Offset frame + u64 (Start gap - start))) data frame)
            else Ok frame);
  let start := if start <? Start gap then u64 (start + u64 (Start gap - start)) else start in
  match endLoop end_ true gap after (queuedFrames s) with
  | inr (rest, queued) => Ok (MkSorter queued (readPosition s) (before ++ gap :: rest), Some errNoEndGap)
  | inl (endGap, where_, rest, queued) =>
      let cutLen := u64 (end_ - End endGap) in
      frame'' ← (if End endGap <? end_
                 then data ← sliceTo (u64 (DataLen frame' - cutLen)) (Data frame');
                      Ok (set_data (Offset frame') data frame')
                 else Ok frame');
      let end_ := if End endGap <? end_ then u64 (end_ - cutLen) else end_ in
      let gaps := before ++ shrinkGaps start end_ gap endGap where_ ++ rest in
      if MaxStreamFrameSorterGaps <? len gaps
      then Ok (MkSorter queued (readPosition s) gaps, Some errTooManyGapsInReceivedStreamData)
      else Ok (MkSorter (<[Offset frame'' := frame'']> queued) (readPosition s) gaps, None)
  end.

Definition Push (s : streamFrameSorter) (frame : StreamFrame) : outcome (streamFrameSorter * option error) :=
  if DataLen frame =? 0 then
    if FinBit frame
    then Ok (MkSorter (<[Offset frame := frame]> (queuedFrames s)) (readPosition s) (gaps s), None)
    else Ok (s, Some errEmptyStreamData)
  else
    let push (frame : StreamFrame) :=
      let start := Offset frame in
      let end_ := u64 (Offset frame + DataLen frame) in
      match findGap start end_ (gaps s) with
      | Duplicate => Ok (s, Some errDuplicateStreamData)
      | NoGap => Ok (s, Some errNoGap)
      | Found before gap after => fillGap s frame start end_ before gap after
      end in
    match queuedFrames s !! Offset frame with
    | Some oldFrame =>
        if DataLen frame <=? DataLen oldFrame then Ok (s, Some errDuplicateStreamData)
        else data ← sliceFrom (DataLen oldFrame) (Data frame);
             push (set_data (u64 (Offset frame + DataLen oldFrame)) data frame)
    | None => push frame
    end.

Definition Head (s : streamFrameSorter) : option StreamFrame := queuedFrames s !! readPosition s.

Definition Pop (s : streamFrameSorter) : streamFrameSorter * option StreamFrame :=
  match Head s with
  | Some frame => (MkSorter (delete (Offset frame) (queuedFrames s)) (u64 (readPosition s + DataLen frame)) (gaps s),
                   Some frame)
  | None => (s, None)
  end.

End streamFrameSorter.

(** ** The theory of the sorter *)
Section sorter.
Import protocol StreamFrame streamFrameSorter.

(** The bytes of the stream, and its length. *)
Context (content : Z → Z) (total : Z).

(** What a correct peer sends: frames of the stream, with the FIN bit at its end. *)
Definition legit (f : StreamFrame) : Prop :=
  0 <= Offset f ∧ Offset f + len (Data f) <= total ∧
  (∀ i, 0 <= i < len (Data f) → Data f !! Z.to_nat i = Some (content (Offset f + i))) ∧
  (FinBit f = true → Offset f + len (Data f) = total) ∧ (Data f = [] → FinBit f = true).

(** The bytes from [a] on are queued up to [b], frame by frame. *)
Inductive tiled (q : gmap Z StreamFrame) : Z → Z → Prop :=
  | tiled_nil a : tiled q a a
  | tiled_cons a f b : q !! a = Some f → 0 < len (Data f) → tiled q (a + len (Data f)) b → tiled q a b.

(** Gaps between [a] and [b], with the data between them tiled. *)
Fixpoint gaps_to (q : gmap Z StreamFrame) (a : Z) (l : list ByteInterval) (b : Z) : Prop :=
  match l with
  | [] => a = b
  | g :: l' => a <= Start g < End g ∧ tiled q a (Start g) ∧ gaps_to q (End g) l' b
  end.

Definition in_gaps (l : list ByteInterval) (p : Z) : Prop := ∃ g, g ∈ l ∧ Start g <= p < End g.

(** A queued frame: its bytes are those of the stream, and in no gap. *)
Definition queued_ok (l : list ByteInterval) (o : Z) (f : StreamFrame) : Prop :=
  Offset f = o ∧ 0 <= o ∧ o + len (Data f) <= total ∧
  (∀ i, 0 <= i < len (Data f) → Data f !! Z.to_nat i = Some (content (o + i))) ∧
  (∀ p, o <= p < o + len (Data f) → ~ in_gaps l p) ∧ (Data f = [] → o = total).

Record sorter_inv (s : streamFrameSorter) : Prop := {
  si_gaps : gaps_to (queuedFrames s) (readPosition s) (gaps s) MaxByteCount;
  si_queued : map_Forall (queued_ok (gaps s)) (queuedFrames s);
  si_read : 0 <= readPosition s <= total;
  si_total : total < MaxByteCount;
}.

Lemma tiled_le q a b : tiled q a b → a <= b.
Proof. induction 1; lia. Qed.

Lemma tiled_trans q a b c : tiled q a b → tiled q b c → tiled q a c.
Proof. induction 1 as [|a f b Hq Hl Ht IH]; [done|]. intros Hc. eapply tiled_cons; eauto. Qed.

Lemma tiled_keep q q' a b : tiled q a b →
  (∀ k f, a <= k < b → q !! k = Some f → 0 < len (Data f) → q' !! k = Some f) → tiled q' a b.
Proof.
  induction 1 as [|a f b Hq Hl Ht IH]; intros Hk; [constructor|]. pose proof (tiled_le _ _ _ Ht).
  eapply tiled_cons; [apply Hk; [lia|done|done]|done|]. apply IH. intros k g ?. apply Hk. lia.
Qed.

Lemma tiled_change q q' a b : tiled q a b → (∀ k, a <= k < b → q' !! k = q !! k) → tiled q' a b.
Proof. intros Ht Hk. apply (tiled_keep q); [done|]. intros k f ? E _. by rewrite Hk. Qed.

Lemma gaps_to_le q a l b : gaps_to q a l b → a <= b.
Proof. revert a. induction l as [|g l IH]; intros a; simpl; [lia|]. intros (? & _ & Hl). apply IH in Hl. lia. Qed.

Lemma gaps_to_app q a l k c : gaps_to q a (l ++ k) c ↔ ∃ b, gaps_to q a l b ∧ gaps_to q b k c.
Proof.
  revert a. induction l as [|g l IH]; intros a; simpl.
  - split; [eauto|]. by intros (b & -> & ?).
  - rewrite IH. split.
    + intros (? & ? & b & ? & ?). eauto 6.
    + intros (b & (? & ? & ?) & ?). eauto 6.
Qed.

Lemma gaps_to_keep q q' a l b : gaps_to q a l b →
  (∀ k f, a <= k < b → q !! k = Some f → 0 < len (Data f) → q' !! k = Some f) → gaps_to q' a l b.
Proof.
  revert a. induction l as [|g l IH]; intros a; simpl; [done|]. intros (Hg & Ht & Hl) Hk.
  pose proof (gaps_to_le _ _ _ _ Hl). split; [done|]. split.
  - apply (tiled_keep q); [done|]. intros k f ?. apply Hk. lia.
  - apply IH; [done|]. intros k f ?. apply Hk. lia.
Qed.

Lemma gaps_to_change q q' a l b : gaps_to q a l b → (∀ k, a <= k < b → q' !! k = q !! k) → gaps_to q' a l b.
Proof. intros Hl Hk. apply (gaps_to_keep q); [done|]. intros k f ? E _. by rewrite Hk. Qed.

Lemma gaps_to_tiled q a b l c : tiled q a b → gaps_to q b l c → l ≠ [] → gaps_to q a l c.
Proof.
  intros Ht Hl Hne. pose proof (tiled_le _ _ _ Ht). destruct l as [|g l]; [done|]. destruct Hl as (? & ? & ?).
  split; [lia|]. split; [by eapply tiled_trans|done].
Qed.

Lemma gaps_to_in q a l b p : gaps_to q a l b → in_gaps l p → a <= p < b.
Proof.
  revert a. induction l as [|g l IH]; intros a; simpl; [intros _ (g & Hg & _); set_solver|].
  intros (Hg & _ & Hl) (x & [->|Hx]%elem_of_cons & Hp); pose proof (gaps_to_le _ _ _ _ Hl); [lia|].
  assert (End g <= p < b); [|lia]. apply (IH _ Hl). by exists x.
Qed.

Lemma in_gaps_app l k p : in_gaps (l ++ k) p ↔ in_gaps l p ∨ in_gaps k p.
Proof. unfold in_gaps. set_solver. Qed.

Lemma in_gaps_cons g l p : in_gaps (g :: l) p ↔ Start g <= p < End g ∨ in_gaps l p.
Proof.
  unfold in_gaps. split.
  - intros (x & [->|Hx]%elem_of_cons & Hp); [by left|right; eauto].
  - intros [?|(x & ? & ?)]; [exists g; set_solver|exists x; set_solver].
Qed.

Lemma in_gaps_nil p : in_gaps [] p ↔ False.
Proof. unfold in_gaps. split; [|done]. intros (g & Hg & _). set_solver. Qed.

(** The search for the first gap. *)
Lemma findGap_spec q a l start end_ : gaps_to q a l MaxByteCount → a < MaxByteCount → 
  start < end_ → start <= MaxByteCount →
  match findGap start end_ l with
  | Duplicate => ∀ p, start <= p < end_ → ~ in_gaps l p
  | NoGap => False
  | Found before gap after =>
      l = before ++ gap :: after ∧ (∀ p, in_gaps before p → p < start) ∧
      Start gap < end_ ∧ start <= End gap
  end.
Proof.
  revert a. induction l as [|g l IH]; intros a Hl Ha Hse Hs; simpl in *; [lia|]. destruct Hl as (Hg & Ht & Hl).
  destruct (Z.leb_spec end_ (Start g)).
  - intros p Hp [?|Hin]%in_gaps_cons; [lia|]. pose proof (gaps_to_in _ _ _ _ _ Hl Hin). lia.
  - destruct (Z.ltb_spec (Start g) end_); [|lia]. cbn [andb]. destruct (Z.leb_spec start (End g)).
    + split; [done|]. split; [by intros p ?%in_gaps_nil|]. lia.
    + assert (End g < MaxByteCount) as Hlt by lia. specialize (IH _ Hl Hlt Hse Hs).
      destruct (findGap start end_ l) as [| |before gap after]; [|done|].
      * intros p Hp [?|Hin]%in_gaps_cons; [lia|]. by apply (IH p).
      * destruct IH as (-> & Hb & ?). split; [done|]. split; [|done]. intros p [?|?]%in_gaps_cons; [lia|auto].
Qed.

(** What the loop over the covered gaps returns, started at [g]. *)
Record end_spec (end_ : Z) (g : ByteInterval) (rest : list ByteInterval) (q : gmap Z StreamFrame)
    (endGap : ByteInterval) (rest' : list ByteInterval) (q' : gmap Z StreamFrame) : Prop := {
  es_rest : gaps_to q' (End endGap) rest' MaxByteCount;
  es_start : Start g <= Start endGap ∧ Start endGap < end_ ∧ Start endGap < End endGap;
  es_kept k : k < End g ∨ End endGap <= k → q' !! k = q !! k;
  es_sub : q' ⊆ q;
  es_behind p : in_gaps rest' p → end_ <= p;
  es_old p : in_gaps (endGap :: rest') p → in_gaps (g :: rest) p;
  es_new p : in_gaps (g :: rest) p → in_gaps (endGap :: rest') p ∨ p < end_;
}.

Lemma end_spec_here q end_ g rest : gaps_to q (End g) rest MaxByteCount → Start g < end_ → Start g < End g →
  (∀ p, in_gaps rest p → end_ <= p) → end_spec end_ g rest q g rest q.
Proof. intros Hl Hs Hg Hb. constructor; [done|lia|done|done|done|done|by left]. Qed.

Lemma end_spec_next q end_ g next rest endGap rest' q' :
  gaps_to q (End g) (next :: rest) MaxByteCount → End g <= end_ → Start g < End g →
  end_spec end_ next rest (delete (End g) q) endGap rest' q' → end_spec end_ g (next :: rest) q endGap rest' q'.
Proof.
  intros (Hn & _ & _) Hle Hg [H1 H2 H3 H4 H5 H6 H7]. constructor.
  - done.
  - lia.
  - intros k Hk. rewrite H3 by lia. apply lookup_delete_ne. lia.
  - etrans; [exact H4|]. apply delete_subseteq.
  - done.
  - intros p Hp. apply in_gaps_cons. right. by apply H6.
  - intros p [?|Hp]%in_gaps_cons; [right; lia|]. by apply H7.
Qed.

Lemma endLoop_later q end_ g rest : gaps_to q (End g) rest MaxByteCount → Start g < end_ < MaxByteCount →
  Start g < End g →
  ∃ endGap where_ rest' q', endLoop end_ false g rest q = inl (endGap, where_, rest', q') ∧
    end_spec end_ g rest q endGap rest' q' ∧
    (where_ = Later ∧ end_ < End endGap ∨ where_ = Removed ∧ End endGap <= end_).
Proof.
  revert q g. induction rest as [|next rest IH]; intros q g Hl Hend Hg; cbn [endLoop].
  - simpl in Hl. destruct (Z.leb_spec (End g) end_); [lia|]. eexists g, _, [], q. split; [done|].
    split; [apply end_spec_here; [done|lia|done|]|by left]. by intros p ?%in_gaps_nil.
  - pose proof Hl as (Hn & Ht & Hl'). destruct (Z.leb_spec (End g) end_) as [Hle|Hlt].
    + destruct (Z.leb_spec end_ (Start next)).
      * eexists g, _, (next :: rest), q. split; [done|]. split; [|by right]. apply end_spec_here; [done|lia|done|].
        intros p [?|Hp]%in_gaps_cons; [lia|]. pose proof (gaps_to_in _ _ _ _ _ Hl' Hp). lia.
      * destruct (IH (delete (End g) q) next) as (e & w & r & q' & E & Hs & Hw); [|lia|lia|].
        { apply (gaps_to_change q); [done|]. intros k Hk. apply lookup_delete_ne. lia. }
        exists e, w, r, q'. split; [done|]. split; [by eapply end_spec_next|done].
    + eexists g, _, (next :: rest), q. split; [done|]. split; [|by left]. apply end_spec_here; [done|lia|done|].
      intros p Hp. pose proof (gaps_to_in _ _ _ _ _ Hl Hp). lia.
Qed.

Lemma endLoop_spec q end_ g rest : gaps_to q (End g) rest MaxByteCount → Start g < end_ < MaxByteCount →
  Start g < End g →
  ∃ endGap where_ rest' q', endLoop end_ true g rest q = inl (endGap, where_, rest', q') ∧
    end_spec end_ g rest q endGap rest' q' ∧
    match where_ with
    | AtGap => endGap = g ∧ q' = q ∧
        (End g <= end_ → ∃ next rest'', rest = next :: rest'' ∧ end_ <= Start next ∧ tiled q (End g) (Start next))
    | Later => End g <= Start endGap ∧ end_ < End endGap
    | Removed => End g <= Start endGap ∧ End endGap <= end_
    end.
Proof.
  intros Hl Hend Hg. destruct rest as [|next rest]; cbn [endLoop].
  - simpl in Hl. destruct (Z.leb_spec (End g) end_); [lia|]. eexists g, _, [], q. split; [done|].
    split; [apply end_spec_here; [done|lia|done|]|]; [by intros p ?%in_gaps_nil|]. split; [done|]. split; [done|lia].
  - pose proof Hl as (Hn & Ht & Hl'). destruct (Z.leb_spec (End g) end_) as [Hle|Hlt].
    + destruct (Z.leb_spec end_ (Start next)).
      * eexists g, _, (next :: rest), q. split; [done|]. split; [|eauto 10]. apply end_spec_here; [done|lia|done|].
        intros p [?|Hp]%in_gaps_cons; [lia|]. pose proof (gaps_to_in _ _ _ _ _ Hl' Hp). lia.
      * destruct (endLoop_later (delete (End g) q) end_ next rest) as (e & w & r & q' & E & Hs & Hw); [|lia|lia|].
        { apply (gaps_to_change q); [done|]. intros k Hk. apply lookup_delete_ne. lia. }
        exists e, w, r, q'. split; [done|]. split; [by eapply end_spec_next|].
        pose proof (es_start _ _ _ _ _ _ _ Hs) as (? & _). destruct Hw as [[-> ?]|[-> ?]]; lia.
    + eexists g, _, (next :: rest), q. split; [done|]. split; [|split; [done|split; [done|lia]]].
      apply end_spec_here; [done|lia|done|]. intros p Hp. pose proof (gaps_to_in _ _ _ _ _ Hl Hp). lia.
Qed.

(** A frame that holds the bytes from [a] to [b]. *)
Definition covers (f : StreamFrame) (a b : Z) : Prop :=
  Offset f = a ∧ len (Data f) = b - a ∧
  ∀ i, 0 <= i < b - a → Data f !! Z.to_nat i = Some (content (a + i)).

Lemma cut_front f a b c : covers f a b → 0 <= a <= c → c <= b → b < 2 ^ 64 →
  ∃ data, sliceFrom (u64 (c - a)) (Data f) = Ok data ∧ covers (set_data (u64 (a + u64 (c - a))) data f) c b.
Proof.
  intros (Ho & Hl & Hd) Ha Hb Hm. replace (u64 (c - a)) with (c - a) by zlia.
  replace (u64 (a + (c - a))) with c by zlia. unfold sliceFrom. destruct (Z.leb_spec (c - a) (len (Data f))); [|lia].
  eexists. split; [done|]. split; [done|]. cbn. split; [unfold len in *; rewrite length_drop; lia|].
  intros i Hi. rewrite lookup_drop. replace (Z.to_nat (c - a) + Z.to_nat i)%nat with (Z.to_nat (c - a + i)) by lia.
  rewrite Hd by lia. f_equal. f_equal. lia.
Qed.

Lemma cut_tail f a b c : covers f a b → 0 <= a <= c → c <= b → b < 2 ^ 64 →
  ∃ data, sliceTo (u64 (DataLen f - u64 (b - c))) (Data f) = Ok data ∧ covers (set_data (Offset f) data f) a c.
Proof.
  intros (Ho & Hl & Hd) Ha Hb Hm. unfold DataLen. replace (u64 (u64 (len (Data f)) - u64 (b - c))) with (c - a) by (rewrite Hl; zlia).
  unfold sliceTo. destruct (Z.leb_spec (c - a) (len (Data f))); [|lia].
  eexists. split; [done|]. split; [done|]. cbn. split; [unfold len in *; rewrite length_take; lia|].
  intros i Hi. rewrite lookup_take_lt by lia. apply Hd. lia.
Qed.

(** The gaps that are left in the place of [gap] and [endGap]. *)
Definition remaining (start end_ : Z) (gap endGap : ByteInterval) : list ByteInterval :=
  (if start =? Start gap then [] else [MkByteInterval (Start gap) start]) ++
  (if end_ <? End endGap then [MkByteInterval end_ (End endGap)] else []).

Lemma shrinkGaps_eq start end_ gap endGap where_ : start < end_ <= End endGap →
  match where_ with
  | AtGap => endGap = gap
  | Later => End gap <= Start endGap ∧ end_ < End endGap ∧ Start endGap < end_
  | Removed => End gap <= Start endGap ∧ end_ = End endGap ∧ Start endGap < end_
  end → shrinkGaps start end_ gap endGap where_ = remaining start end_ gap endGap.
Proof.
  intros He Hw. unfold shrinkGaps, remaining. destruct where_ as [| |]; [subst endGap|destruct Hw as (? & ? & ?)..].
  all: destruct (start =? Start gap); destruct (Z.leb_spec (End gap) end_), (Z.ltb_spec end_ (End gap)); try lia.
  all: repeat match goal with
    | |- context [?a <? ?b] => destruct (Z.ltb_spec a b); try lia
    | |- context [?a =? ?b] => destruct (Z.eqb_spec a b); try lia
    end; done.
Qed.

(** What is left of the gaps: the bytes outside the frame. *)
Lemma remaining_in q q' a end_ gap after endGap rest start p :
  gaps_to q a (gap :: after) MaxByteCount → end_spec end_ gap after q endGap rest q' →
  Start gap <= start <= End gap → start < end_ → endGap = gap ∨ End gap <= Start endGap →
  in_gaps (remaining start (Z.min end_ (End endGap)) gap endGap ++ rest) p ↔
  in_gaps (gap :: after) p ∧ ~ (start <= p < end_).
Proof.
  intros (Hg & _ & Hl) [H1 H2 H3 H4 H5 H6 H7] Hs Hse Hor.
  assert (in_gaps (remaining start (Z.min end_ (End endGap)) gap endGap) p ↔
    Start gap <= p < start ∨ end_ <= p < End endGap) as Hrem.
  { unfold remaining. rewrite in_gaps_app.
    destruct (Z.eqb_spec start (Start gap)), (Z.ltb_spec (Z.min end_ (End endGap)) (End endGap));
      rewrite ?in_gaps_cons, ?in_gaps_nil; cbn [Start End]; lia. }
  rewrite in_gaps_app, Hrem. split.
  - intros [[?|?]|Hp].
    + split; [apply in_gaps_cons; left; lia|lia].
    + split; [apply H6, in_gaps_cons; left; lia|lia].
    + split; [apply H6, in_gaps_cons; by right|]. specialize (H5 p Hp). lia.
  - intros [Hp Hout]. destruct (H7 p Hp) as [[?|?]%in_gaps_cons|Hlt]; [|by right|].
    + left. destruct Hor as [->|?]; lia.
    + apply in_gaps_cons in Hp as [?|Hp]; [left; lia|]. pose proof (gaps_to_in _ _ _ _ _ Hl Hp). lia.
Qed.

(** The frame joins the data on both sides. *)
Lemma remaining_gaps q q' a end_ gap after endGap rest start f :
  gaps_to q a (gap :: after) MaxByteCount → end_spec end_ gap after q endGap rest q' → end_ < MaxByteCount →
  Start gap <= start → endGap = gap ∨ start <= End gap <= Start endGap →
  let e := Z.min end_ (End endGap) in
  start < e → covers f start e →
  gaps_to (<[start := f]> q') a (remaining start e gap endGap ++ rest) MaxByteCount.
Proof.
  intros (Hg & Ht & Hl) [H1 H2 H3 H4 H5 H6 H7] Hm Hs Hor e Hse (Ho & Hlen & _). set (q2 := <[start := f]> q').
  assert (tiled q2 a (Start gap)) as Ht2.
  { apply (tiled_change q); [done|]. intros k Hk. unfold q2. rewrite lookup_insert_ne by lia. apply H3. lia. }
  assert (tiled q2 start e) as Hf.
  { apply (tiled_cons q2 start f); [apply lookup_insert_eq|lia|]. rewrite Hlen.
    replace (start + (e - start)) with e by lia. constructor. }
  assert (gaps_to q2 (End endGap) rest MaxByteCount) as Hr.
  { apply (gaps_to_change q'); [done|]. intros k Hk. unfold q2. apply lookup_insert_ne. lia. }
  assert (∀ b, b <= e → tiled q2 b e → gaps_to q2 b ((if e <? End endGap then [MkByteInterval e (End endGap)] else []) ++ rest)
    MaxByteCount) as Htail.
  { intros b Hb Hbt. destruct (Z.ltb_spec e (End endGap)).
    - split; [cbn; lia|]. by split.
    - assert (e = End endGap) as Ee by lia. simpl. apply (gaps_to_tiled _ _ e); [done|by rewrite Ee|].
      intros ->. simpl in Hr. lia. }
  unfold remaining. destruct (Z.eqb_spec start (Start gap)) as [Es|Es]; cbn [app].
  - apply Htail; [lia|]. rewrite Es in Hf. by eapply tiled_trans.
  - split; [cbn; lia|]. split; [done|]. cbn [End]. apply Htail; [lia|done].
Qed.

(** The result of a successful push: the bytes of the frame are no gap any more. *)
Definition pushed (s s' : streamFrameSorter) (start end_ : Z) : Prop :=
  sorter_inv s' ∧ readPosition s' = readPosition s ∧
  ∀ p, in_gaps (gaps s') p ↔ in_gaps (gaps s) p ∧ ~ (start <= p < end_).

(** The queued frames stay well-formed when gaps are filled and a frame is added. *)
Lemma queued_insert l l' (q q' : gmap Z StreamFrame) start e f : map_Forall (queued_ok l) q → q' ⊆ q →
  (∀ p, in_gaps l' p → in_gaps l p) → covers f start e → 0 <= start < e → e <= total →
  (∀ p, start <= p < e → ~ in_gaps l' p) → map_Forall (queued_ok l') (<[start := f]> q').
Proof.
  intros Hq Hsub Hl (Ho & Hlen & Hd) Hs He Hp. apply map_Forall_insert_2.
  - split; [done|]. split; [lia|]. split; [lia|]. split; [intros i Hi; apply Hd; lia|]. split; [intros p ?; apply Hp; lia|].
    intros E. rewrite E in Hlen. unfold len in Hlen. simpl in Hlen. lia.
  - intros o g Hg. destruct (Hq o g (lookup_weaken _ _ _ _ Hg Hsub)) as (? & ? & ? & ? & Hin & ?).
    repeat (split; [done|]). split; [|done]. intros p Hpo Hpl. apply (Hin p Hpo). auto.
Qed.

(** The frame does not start at the end of the gap, where queued data begins. *)
Lemma not_at_end s before gap after start end_ : sorter_inv s → gaps s = before ++ gap :: after →
  start < end_ → start <= End gap →
  queuedFrames s !! start = None ∨ (~ in_gaps (gaps s) (start - 1)) →
  (∃ next rest, after = next :: rest ∧ end_ <= Start next ∧ tiled (queuedFrames s) (End gap) (Start next)) →
  start < End gap.
Proof.
  intros H Eg Hse Hle Hor (next & rest & -> & Hn & Ht). destruct (Z.eq_dec start (End gap)) as [->|]; [|lia]. exfalso.
  pose proof (si_gaps s H) as Hg. rewrite Eg, gaps_to_app in Hg. destruct Hg as (b & _ & (Hb & _ & _)).
  inversion Ht as [? E|? f ? Hq Hl _ E1 E2]; subst; [lia|]. destruct Hor as [?|Hin]; [congruence|].
  apply Hin. rewrite Eg, in_gaps_app, in_gaps_cons. lia.
Qed.

(** The two cuts of Push. *)
Lemma front_cut f start end_ g : covers f start end_ → 0 <= start < end_ → Start g < end_ → end_ < 2 ^ 64 →
  ∃ f', (if start <? Start g then data ← sliceFrom (u64 (Start g - start)) (Data f);
           Ok (set_data (u64 (Offset f + u64 (Start g - start))) data f) else Ok f) = Ok f' ∧
    covers f' (Z.max start (Start g)) end_ ∧
    (if start <? Start g then u64 (start + u64 (Start g - start)) else start) = Z.max start (Start g).
Proof.
  intros Hc Hs Hg Hm. destruct (Z.ltb_spec start (Start g)).
  - destruct (cut_front f start end_ (Start g) Hc) as (data & E & Hc'); [lia|lia|lia|].
    destruct Hc as (-> & _). rewrite E. eexists. split; [done|].
    replace (Z.max start (Start g)) with (Start g) by lia. split; [done|zlia].
  - replace (Z.max start (Start g)) with start by lia. eauto.
Qed.

Lemma tail_cut f start end_ g : covers f start end_ → 0 <= start < Z.min end_ (End g) → end_ < 2 ^ 64 →
  ∃ f', (if End g <? end_ then data ← sliceTo (u64 (DataLen f - u64 (end_ - End g))) (Data f);
           Ok (set_data (Offset f) data f) else Ok f) = Ok f' ∧
    covers f' start (Z.min end_ (End g)) ∧
    (if End g <? end_ then u64 (end_ - u64 (end_ - End g)) else end_) = Z.min end_ (End g).
Proof.
  intros Hc Hs Hm. destruct (Z.ltb_spec (End g) end_).
  - destruct (cut_tail f start end_ (End g) Hc) as (data & E & Hc'); [lia|lia|lia|]. rewrite E.
    eexists. split; [done|]. replace (Z.min end_ (End g)) with (End g) by lia. split; [done|zlia].
  - replace (Z.min end_ (End g)) with end_ by lia. eauto.
Qed.

(** The new state after the cuts. *)
Lemma fill_pushed s before gap after start end_ endGap rest q' f :
  sorter_inv s → gaps s = before ++ gap :: after → 0 <= start < end_ → end_ <= total →
  (∀ p, in_gaps before p → p < start) → start <= End gap →
  end_spec end_ gap after (queuedFrames s) endGap rest q' →
  let start' := Z.max start (Start gap) in
  let e := Z.min end_ (End endGap) in
  endGap = gap ∨ start' <= End gap <= Start endGap → start' < e → covers f start' e →
  pushed s (MkSorter (<[start' := f]> q') (readPosition s) (before ++ remaining start' e gap endGap ++ rest)) start end_.
Proof.
  intros H Eg Hse Htot Hbefore Hge Hes start' e Hor Hse' Hc. pose proof H as [Hgaps Hq Hread Hmax].
  rewrite Eg, gaps_to_app in Hgaps. destruct Hgaps as (a & Hga & Hgb). pose proof Hgb as (Hg & _ & Hgafter).
  assert (readPosition s <= a) by by eapply gaps_to_le.
  assert (∀ p, in_gaps (before ++ remaining start' e gap endGap ++ rest) p ↔
    in_gaps (gaps s) p ∧ ~ (start <= p < end_)) as Hin.
  { intros p. rewrite Eg, !(in_gaps_app before).
    pose proof (remaining_in _ q' a end_ gap after endGap rest start' p Hgb Hes) as Hr. fold e in Hr.
    rewrite Hr; [|lia|lia|destruct Hor; [by left|right; lia]]. split.
    - intros [Hp|[Hp Hout]]; [specialize (Hbefore p Hp); split; [by left|lia]|].
      pose proof (gaps_to_in _ _ _ _ _ Hgb Hp). split; [by right|]. apply in_gaps_cons in Hp as [?|Hp]; [lia|].
      pose proof (gaps_to_in _ _ _ _ _ Hgafter Hp). lia.
    - intros [[Hp|Hp] Hout]; [by left|right]. split; [done|]. lia. }
  split; [|by split]. constructor; cbn [queuedFrames readPosition gaps]; [| |done|done].
  - apply gaps_to_app. exists a. split.
    + apply (gaps_to_change (queuedFrames s)); [done|]. intros k Hk. rewrite lookup_insert_ne by lia.
      apply (es_kept _ _ _ _ _ _ _ Hes). lia.
    + apply (remaining_gaps (queuedFrames s) q' a end_ gap after endGap rest start' f Hgb Hes); [lia|lia|done|done|done].
  - eapply queued_insert; [exact Hq|apply Hes|intros p Hp; by apply Hin in Hp as []|done|lia|lia|].
    intros p Hp Hp2. apply Hin in Hp2 as [_ Hout]. lia.
Qed.

Lemma fillGap_spec s frame start end_ before gap after :
  sorter_inv s → covers frame start end_ → 0 <= start < end_ → end_ <= total →
  gaps s = before ++ gap :: after → (∀ p, in_gaps before p → p < start) → Start gap < end_ → start <= End gap →
  queuedFrames s !! start = None ∨ (~ in_gaps (gaps s) (start - 1)) →
  ∃ s' err, fillGap s frame start end_ before gap after = Ok (s', err) ∧
    (err = None ∧ pushed s s' start end_ ∨
     err = Some errTooManyGapsInReceivedStreamData ∧ MaxStreamFrameSorterGaps < len (gaps s')).
Proof.
  intros H Hcov Hse Htot Eg Hbefore Hgs Hge Hor. pose proof (si_gaps s H) as Hgaps. pose proof (si_total s H) as Hmax.
  rewrite Eg, gaps_to_app in Hgaps. destruct Hgaps as (a & Hga & Hg & _ & Hgafter). unfold MaxByteCount in Hmax.
  unfold fillGap. destruct (front_cut frame start end_ gap Hcov) as (f1 & -> & Hc1 & ->); [lia|lia|lia|].
  cbn [mbind outcome_bind].
  destruct (endLoop_spec (queuedFrames s) end_ gap after Hgafter) as (endGap & w & rest & q' & -> & Hes & Hw);
    [unfold MaxByteCount; lia|lia|].
  pose proof (es_start _ _ _ _ _ _ _ Hes) as (He1 & He2 & He3).
  set (start' := Z.max start (Start gap)) in *.
  assert (endGap = gap ∨ start' <= End gap <= Start endGap) as Hor2 by (destruct w; [left|right; lia..]; tauto).
  assert (start' < Z.min end_ (End endGap)) as Hse'.
  { destruct w; [destruct Hw as (-> & _ & Hw)|lia..]. destruct (Z_le_dec (End gap) end_) as [Hle|]; [|lia].
    pose proof (not_at_end s before gap after start end_ H Eg ltac:(lia) Hge Hor (Hw Hle)). lia. }
  destruct (tail_cut f1 start' end_ endGap Hc1) as (f2 & -> & Hc2 & ->); [lia|lia|]. cbn [mbind outcome_bind].
  rewrite shrinkGaps_eq; [|lia|destruct w; [tauto|lia..]].
  destruct (Z.ltb_spec MaxStreamFrameSorterGaps (len (before ++ remaining start' (Z.min end_ (End endGap)) gap endGap ++ rest)));
    [eexists _, _; split; [done|by right]|]. eexists _, _. split; [done|]. left. split; [done|].
  pose proof Hc2 as (-> & _). by apply fill_pushed with after.
Qed.

Lemma legit_covers f : legit f → covers f (Offset f) (Offset f + len (Data f)).
Proof. intros (_ & _ & Hd & _). split; [done|]. split; [lia|]. intros i Hi. apply Hd. lia. Qed.

(** What Push does behind the check for a queued frame at the same offset. *)
Lemma push_gap s f start end_ : sorter_inv s → covers f start end_ → 0 <= start < end_ → end_ <= total →
  queuedFrames s !! start = None ∨ (~ in_gaps (gaps s) (start - 1)) →
  ∃ s' err, (let start := Offset f in let end_ := u64 (Offset f + DataLen f) in
             match findGap start end_ (gaps s) with
             | Duplicate => Ok (s, Some errDuplicateStreamData)
             | NoGap => Ok (s, Some errNoGap)
             | Found before gap after => fillGap s f start end_ before gap after
             end) = Ok (s', err) ∧
    (err = None ∧ pushed s s' start end_ ∨
     err = Some errTooManyGapsInReceivedStreamData ∧ MaxStreamFrameSorterGaps < len (gaps s') ∨
     err = Some errDuplicateStreamData ∧ s' = s ∧ ∀ p, start <= p < end_ → ~ in_gaps (gaps s) p).
Proof.
  intros H Hc Hse Htot Hor. pose proof H as [Hg _ Hr Hm]. unfold MaxByteCount in Hm. pose proof Hc as (Ho & Hl & _).
  cbv zeta. unfold DataLen. rewrite Ho, Hl. replace (u64 (start + u64 (end_ - start))) with end_ by zlia.
  pose proof (findGap_spec _ _ _ start end_ Hg) as Hf. unfold MaxByteCount in Hf.
  destruct (findGap start end_ (gaps s)) as [| |before gap after].
  - eexists _, _. split; [done|]. right; right. split; [done|]. split; [done|]. apply Hf; lia.
  - destruct Hf; lia.
  - destruct Hf as (Eg & Hb & H1 & H2); [lia..|].
    destruct (fillGap_spec s f start end_ before gap after H Hc Hse Htot Eg Hb H1 H2 Hor) as (s' & err & E & Herr).
    exists s', err. split; [done|]. tauto.
Qed.

(** An empty frame with the FIN bit is queued at the end of the stream. *)
Lemma push_fin s f : sorter_inv s → legit f → Data f = [] →
  pushed s (MkSorter (<[Offset f := f]> (queuedFrames s)) (readPosition s) (gaps s)) (Offset f) (Offset f + len (Data f)).
Proof.
  intros [Hg Hq Hr Hm] (Ho & Hlen & _ & Hfin & Hempty) Ed. specialize (Hfin (Hempty Ed)).
  rewrite Ed, len_nil in Hlen, Hfin |- *. split; [|split; [done|intros p; cbn; split; [intros ?; split; [done|lia]|by intros []]]].
  constructor; cbn; [| |done|done].
  - apply (gaps_to_keep (queuedFrames s)); [done|]. intros k g Hk Eg Hlg. rewrite lookup_insert_ne; [done|].
    intros <-. destruct (Hq _ _ Eg) as (_ & _ & ? & _). lia.
  - apply map_Forall_insert_2; [|done]. unfold queued_ok. rewrite Ed. change (len (@nil Z)) with 0.
    split; [done|]. split; [done|]. split; [done|]. split; [intros; lia|]. split; [intros; lia|]. lia.
Qed.

(** A push of a correct frame: its bytes are received, or the frame was a duplicate,
    or there are too many gaps. *)
Lemma Push_spec s f : sorter_inv s → legit f →
  ∃ s' err, Push s f = Ok (s', err) ∧
    (err = None ∧ pushed s s' (Offset f) (Offset f + len (Data f)) ∨
     err = Some errTooManyGapsInReceivedStreamData ∧ MaxStreamFrameSorterGaps < len (gaps s') ∨
     err = Some errDuplicateStreamData ∧ s' = s ∧
       ∀ p, Offset f <= p < Offset f + len (Data f) → ~ in_gaps (gaps s) p).
Proof.
  intros H Hleg. pose proof H as [Hg Hq Hr Hm]. pose proof Hm as Hm'. unfold MaxByteCount in Hm'.
  pose proof Hleg as (Ho & Hlen & _ & _ & Hempty). pose proof (legit_covers f Hleg) as Hc.
  pose proof (len_nonneg (Data f)). unfold Push.
  assert (DataLen f = len (Data f)) as Edl by (unfold DataLen; zlia).
  destruct (Z.eqb_spec (DataLen f) 0) as [E0|E0]; rewrite Edl in E0.
  { assert (Data f = []) as Ed by (destruct (Data f); [done|unfold len in E0; simpl in E0; lia]).
    rewrite (Hempty Ed). eexists _, _. split; [done|]. left. split; [done|]. by apply push_fin. }
  destruct (queuedFrames s !! Offset f) as [old|] eqn:Eold.
  2:{ apply (push_gap s f _ _ H Hc); [lia|lia|by left]. }
  destruct (Hq _ _ Eold) as (_ & _ & Hol & _ & Hog & Hoe). pose proof (len_nonneg (Data old)).
  assert (DataLen old = len (Data old)) as Edo by (unfold DataLen; zlia). rewrite Edo.
  destruct (Z.leb_spec (DataLen f) (len (Data old))) as [Hle|Hgt]; rewrite Edl in *.
  { eexists _, _. split; [done|]. right; right. split; [done|]. split; [done|]. intros p Hp. apply Hog. lia. }
  assert (0 < len (Data old)) as Hpos.
  { destruct (Data old) eqn:Ed; [specialize (Hoe eq_refl); lia|rewrite len_cons; pose proof (len_nonneg l); lia]. }
  destruct (cut_front f (Offset f) _ (Offset f + len (Data old)) Hc) as (data & E & Hcut); [lia|lia|lia|].
  replace (u64 (Offset f + len (Data old) - Offset f)) with (len (Data old)) in E, Hcut by zlia. rewrite E.
  cbn [mbind outcome_bind].
  destruct (push_gap s _ _ _ H Hcut) as (s' & err & E' & Herr); [lia|lia|right; apply Hog; lia|].
  exists s', err. split; [done|]. destruct Herr as [[-> (P1 & P2 & P3)]|[?|(? & ? & P)]]; [left|by right; left|right; right].
  - split; [done|]. split; [done|]. split; [done|]. intros p. rewrite P3. split; intros [Hp Hout]; (split; [done|]); [|lia].
    intros Hin. apply Hout. split; [|lia]. destruct (Z_lt_dec p (Offset f + len (Data old))); [|lia].
    by destruct (Hog p ltac:(lia)).
  - split; [done|]. split; [done|]. intros p Hp. destruct (Z_lt_dec p (Offset f + len (Data old))); [apply Hog; lia|apply P; lia].
Qed.

Lemma new_sorter_inv : 0 <= total < MaxByteCount → sorter_inv newStreamFrameSorter.
Proof.
  intros Ht. constructor; cbn; [|done|lia|lia]. split; [unfold MaxByteCount; cbn; lia|]. split; [constructor|done].
Qed.

(** The frame at the read position is the next part of the stream. *)
Lemma Head_spec s f : sorter_inv s → Head s = Some f →
  Offset f = readPosition s ∧ readPosition s + len (Data f) <= total ∧
  (∀ i, 0 <= i < len (Data f) → Data f !! Z.to_nat i = Some (content (readPosition s + i))) ∧
  (Data f = [] → readPosition s = total).
Proof. intros [_ Hq _ _] E. destruct (Hq _ _ E) as (? & ? & ? & ? & _ & ?). done. Qed.

(** There is such a frame as soon as the next byte has been received. *)
Lemma Head_received s : sorter_inv s → ~ in_gaps (gaps s) (readPosition s) →
  ∃ f, Head s = Some f ∧ 0 < len (Data f).
Proof.
  intros [Hg _ Hr Hm] Hin. destruct (gaps s) as [|g l] eqn:Eg; [simpl in Hg; lia|]. destruct Hg as (Hg & Ht & _).
  inversion Ht as [? E|? f ? Hq Hl _ E1 E2]; [|by exists f]. destruct Hin. apply in_gaps_cons. lia.
Qed.

Lemma Head_gap s f : sorter_inv s → Head s = Some f → 0 < len (Data f) → ~ in_gaps (gaps s) (readPosition s).
Proof. intros [_ Hq _ _] E Hl. destruct (Hq _ _ E) as (_ & _ & _ & _ & Hin & _). apply Hin. lia. Qed.

Lemma Pop_inv s s' f : sorter_inv s → Pop s = (s', Some f) →
  sorter_inv s' ∧ readPosition s' = readPosition s + len (Data f) ∧ gaps s' = gaps s.
Proof.
  intros H. unfold Pop. destruct (Head s) as [f'|] eqn:Eh; [|done]. intros [= <- <-].
  destruct (Head_spec s f' H Eh) as (Ho & Hlen & _). pose proof H as [Hg Hq Hr Hm]. unfold MaxByteCount in Hm.
  pose proof (len_nonneg (Data f')) as Hnn. rewrite Ho. unfold DataLen.
  assert (u64 (readPosition s + u64 (len (Data f'))) = readPosition s + len (Data f')) as Er by zlia.
  split; [|by split]. constructor; cbn; [rewrite Er|by apply map_Forall_delete|lia|done].
  destruct (gaps s) as [|g l] eqn:Eg; [simpl in Hg; unfold MaxByteCount in Hg; lia|]. destruct Hg as (Hg1 & Ht & Hg2).
  assert (tiled (queuedFrames s) (readPosition s + len (Data f')) (Start g)) as Ht2.
  { destruct (Z.eq_dec (len (Data f')) 0) as [E0|]; [by rewrite E0, Z.add_0_r|].
    inversion Ht as [? E|? f ? Hf Hl Ht' E1 E2]; subst.
    - destruct (Head_gap s f' H Eh ltac:(lia)). rewrite Eg. apply in_gaps_cons. lia.
    - unfold Head in Eh. rewrite Hf in Eh. by injection Eh as ->. }
  pose proof (tiled_le _ _ _ Ht2). split; [lia|]. split.
  - apply (tiled_keep (queuedFrames s)); [done|]. intros k f Hk Ek Hl. rewrite lookup_delete_ne; [done|]. intros <-.
    unfold Head in Eh. rewrite Ek in Eh. injection Eh as ->. lia.
  - apply (gaps_to_change (queuedFrames s)); [done|]. intros k Hk. apply lookup_delete_ne. lia.
Qed.

(** A push never touches the frame at the read position while it has data: gaps, and
    the frames behind them, begin later. *)
Lemma endLoop_keeps end_ b g rest q rp : (∀ x, x ∈ g :: rest → rp < End x) →
  match endLoop end_ b g rest q with inl (_, _, _, q') | inr (_, q') => q' !! rp = q !! rp end.
Proof.
  revert b g q. induction rest as [|next rest IH]; intros b g q Hx; simpl; [by destruct (End g <=? end_)|].
  destruct (End g <=? end_); [|done]. destruct (end_ <=? Start next); [done|].
  specialize (IH false next (delete (End g) q) ltac:(intros x Hxin; apply Hx; by right)).
  rewrite (lookup_delete_ne q) in IH; [done|]. specialize (Hx g ltac:(by left)). lia.
Qed.

Lemma gaps_to_ends q a l b x : gaps_to q a l b → x ∈ l → a <= Start x ∧ a < End x ∧ Start x < b.
Proof.
  revert a. induction l as [|g l IH]; intros a; simpl; [intros _ Hx; by apply elem_of_nil in Hx|].
  intros (Hg & _ & Hl) [->|Hx]%elem_of_cons; pose proof (gaps_to_le _ _ _ _ Hl); [lia|]. destruct (IH _ Hl Hx). lia.
Qed.

Lemma fillGap_keeps s f before gap after e s' err : sorter_inv s → ~ in_gaps (gaps s) (readPosition s) →
  gaps s = before ++ gap :: after → 0 <= Offset f →
  fillGap s f (Offset f) e before gap after = Ok (s', err) →
  queuedFrames s' !! readPosition s = queuedFrames s !! readPosition s ∧ readPosition s' = readPosition s.
Proof.
  intros [Hg _ Hr Hm] Hin Eg Ho. unfold fillGap. unfold MaxByteCount in Hm.
  assert (∀ x, x ∈ gap :: after → readPosition s < End x) as Hx.
  { intros x Hx. eapply gaps_to_ends in Hg as (_ & ? & _); [done|]. rewrite Eg, elem_of_app. by right. }
  assert (readPosition s < Start gap < MaxByteCount) as Hs.
  { destruct (gaps_to_ends _ _ _ _ gap Hg) as (Hle & Hlt & Hsb); [rewrite Eg, elem_of_app; right; by left|].
    split; [|done]. destruct (Z.eq_dec (Start gap) (readPosition s)) as [E|]; [|lia]. destruct Hin. rewrite Eg.
    apply in_gaps_app. right. apply in_gaps_cons. left. lia. }
  unfold MaxByteCount in Hs. intros E. apply outcome_bind_inv in E as (f1 & E1 & E).
  assert (Offset f1 ≠ readPosition s) as Hf1.
  { destruct (Z.ltb_spec (Offset f) (Start gap)) in E1; [|injection E1 as <-; lia].
    apply outcome_bind_inv in E1 as (d & _ & [= <-]). cbn. zlia. }
  pose proof (endLoop_keeps e true gap after (queuedFrames s) (readPosition s) Hx) as Hk.
  destruct (endLoop e true gap after (queuedFrames s)) as [[[[eg w] rest] q]|[rest q]]; [|by injection E as <- <-].
  apply outcome_bind_inv in E as (f2 & E2 & E).
  assert (Offset f2 = Offset f1) as Hf2.
  { destruct (Z.ltb_spec (End eg) e) in E2; [|by injection E2 as <-]. by apply outcome_bind_inv in E2 as (d & _ & [= <-]). }
  case_match; injection E as <- <-; cbn; [done|]. split; [|done]. rewrite lookup_insert_ne by congruence. done.
Qed.

Lemma push_keeps s f s' err h : sorter_inv s → 0 <= Offset f < u64 (Offset f + DataLen f) →
  u64 (Offset f + DataLen f) <= total →
  match findGap (Offset f) (u64 (Offset f + DataLen f)) (gaps s) with
  | Duplicate => Ok (s, Some errDuplicateStreamData)
  | NoGap => Ok (s, Some errNoGap)
  | Found before gap after => fillGap s f (Offset f) (u64 (Offset f + DataLen f)) before gap after
  end = Ok (s', err) → Head s = Some h → Head s' = Some h.
Proof.
  intros H Ho He E Eh. pose proof H as [Hg _ Hr Hm]. unfold MaxByteCount in Hm.
  destruct (Head_spec s h H Eh) as (_ & _ & _ & Hhe).
  pose proof (findGap_spec _ _ _ (Offset f) (u64 (Offset f + DataLen f)) Hg) as Hf. unfold MaxByteCount in Hf.
  destruct (findGap (Offset f) (u64 (Offset f + DataLen f)) (gaps s)) as [| |before gap after];
    [by injection E as <- _|by injection E as <- _|].
  destruct Hf as (Eg & _ & Hs1 & _); [lia..|]. destruct (gaps_to_ends _ _ _ _ gap Hg) as (Hle & _); [rewrite Eg; set_solver|].
  assert (0 < len (Data h)) as Hpos.
  { pose proof (len_nonneg (Data h)). destruct (Z.eq_dec (len (Data h)) 0) as [E0%len_zero|]; [|lia]. specialize (Hhe E0). lia. }
  destruct (fillGap_keeps s f before gap after _ s' err H ltac:(by eapply Head_gap) Eg ltac:(lia) E) as [Ek Er].
  unfold Head. rewrite Er, Ek. exact Eh.
Qed.

Lemma Push_Head s f s' err h : sorter_inv s → legit f → Push s f = Ok (s', err) →
  Head s = Some h → ∃ h', Head s' = Some h' ∧ Data h' = Data h ∧ Offset h' = Offset h ∧ (0 < len (Data h) → h' = h).
Proof.
  intros H Hl E Eh. pose proof Hl as (Ho & Hlen & _ & Hfin & Hempty). pose proof H as [Hg Hq Hr Hm].
  destruct (Head_spec s h H Eh) as (Hho & Hhl & _ & Hhe). unfold MaxByteCount in Hm. unfold Push in E.
  assert (DataLen f = len (Data f)) as Edl by (unfold DataLen; pose proof (len_nonneg (Data f)); zlia).
  rewrite Edl in E. pose proof (len_nonneg (Data f)). destruct (Z.eqb_spec (len (Data f)) 0) as [E0|E0].
  { pose proof (len_zero _ E0) as Ed. rewrite (Hempty Ed) in E.
    injection E as <- <-. specialize (Hfin (Hempty Ed)). unfold Head. cbn.
    destruct (decide (Offset f = readPosition s)) as [Eo|Hne].
    - rewrite Eo, lookup_insert_eq. exists f. split; [done|]. pose proof (len_nonneg (Data h)).
      assert (Data h = []) as Eh0 by (apply len_zero; lia).
      rewrite Ed, Eh0. split; [done|]. split; [congruence|]. unfold len. cbn. lia.
    - rewrite lookup_insert_ne by done. eauto. }
  exists h. split; [|done]. destruct (queuedFrames s !! Offset f) as [old|] eqn:Eold.
  2:{ apply (push_keeps s f s' err h H); [| |rewrite Edl; exact E|done]; rewrite Edl; zlia. }
  destruct (Hq _ _ Eold) as (_ & _ & Hol & _ & _ & _). pose proof (len_nonneg (Data old)).
  assert (DataLen old = len (Data old)) as Edo by (unfold DataLen; zlia). rewrite Edo in E.
  destruct (Z.leb_spec (len (Data f)) (len (Data old))); [by injection E as <- _|].
  apply outcome_bind_inv in E as (d & Ed & E). unfold sliceFrom in Ed. destruct (Z.leb_spec (len (Data old)) (len (Data f))); [|lia].
  injection Ed as <-. pose proof (len_drop (Z.to_nat (len (Data old))) (Data f)) as Hld.
  refine (push_keeps s _ s' err h H _ _ E Eh); unfold DataLen, set_data; cbn [Offset Data]; rewrite Hld; zlia.
Qed.

(** ** Runs of the sorter *)

(** Frames of a correct peer are pushed in any order, any number of times; frames are
    popped at any time. [fs] are the frames that were pushed, [d] is the data that
    was popped. Any error but a duplicate ends the connection. *)
Inductive run : streamFrameSorter → list StreamFrame → list Z → Prop :=
  | run_new : run newStreamFrameSorter [] []
  | run_push s fs d f s' err : run s fs d → legit f → Push s f = Ok (s', err) →
      err = None ∨ err = Some errDuplicateStreamData → run s' (f :: fs) d
  | run_pop s fs d s' f : run s fs d → Pop s = (s', Some f) → run s' fs (d ++ Data f).

(** The byte [p] is in a frame that was pushed. *)
Definition received (fs : list StreamFrame) (p : Z) : Prop :=
  ∃ f, f ∈ fs ∧ Offset f <= p < Offset f + len (Data f).

Lemma received_cons f fs p : received (f :: fs) p ↔ Offset f <= p < Offset f + len (Data f) ∨ received fs p.
Proof.
  unfold received. split.
  - intros (x & [->|Hx]%elem_of_cons & Hp); [by left|right; eauto].
  - intros [?|(x & ? & ?)]; [exists f; set_solver|exists x; set_solver].
Qed.

Lemma received_dec fs p : received fs p ∨ ~ received fs p.
Proof.
  induction fs as [|f fs IH]; [right; intros (f & Hf & _); by apply elem_of_nil in Hf|]. rewrite received_cons.
  destruct (decide (Offset f <= p < Offset f + len (Data f))); tauto.
Qed.

(** The gaps are what was not received, and the popped data is the beginning of the
    stream. *)
Record refines (s : streamFrameSorter) (fs : list StreamFrame) (d : list Z) : Prop := {
  rf_inv : sorter_inv s;
  rf_gaps p : 0 <= p < MaxByteCount → in_gaps (gaps s) p ↔ ~ received fs p;
  rf_read : len d = readPosition s;
  rf_data i : 0 <= i < len d → d !! Z.to_nat i = Some (content i);
}.

Lemma refines_push s fs d f s' err : refines s fs d → legit f → Push s f = Ok (s', err) →
  err = None ∨ err = Some errDuplicateStreamData → refines s' (f :: fs) d.
Proof.
  intros [H Hg Hr Hd] Hl E Herr. destruct (Push_spec s f H Hl) as (s1 & err1 & E1 & Hcase). rewrite E in E1.
  injection E1 as <- <-. destruct Hcase as [[_ (Hi & Er & Hp)]|[[-> _]|(-> & -> & Hp)]].
  - constructor; [done| |by rewrite Er|done]. intros p Hpr. rewrite Hp, Hg, received_cons by done. tauto.
  - by destruct Herr.
  - constructor; [done| |done|done]. intros p Hpr. rewrite received_cons, Hg by done. split; [|tauto].
    intros Hnr [Hin|?]; [|done]. apply (Hp p Hin). by apply Hg.
Qed.

Lemma refines_pop s fs d s' f : refines s fs d → Pop s = (s', Some f) → refines s' fs (d ++ Data f).
Proof.
  intros [H Hg Hr Hd] E. destruct (Pop_inv s s' f H E) as (Hi & Er & Eg).
  assert (Head s = Some f) as Eh by (unfold Pop in E; destruct (Head s); [by injection E as _ ->|done]).
  destruct (Head_spec s f H Eh) as (_ & _ & Hf & _). pose proof (len_nonneg d).
  constructor; [done|by rewrite Eg|by rewrite len_app, Er, Hr|]. intros i Hil. rewrite len_app in Hil.
  destruct (Z_lt_dec i (len d)) as [Hlt|Hge].
  - rewrite lookup_app_l by (unfold len in *; lia). apply Hd. lia.
  - rewrite lookup_app_r by (unfold len in *; lia). specialize (Hf (i - len d) ltac:(lia)).
    replace (Z.to_nat i - length d)%nat with (Z.to_nat (i - len d)) by (unfold len in *; lia). rewrite Hf. f_equal. f_equal. lia.
Qed.

Lemma run_refines s fs d : 0 <= total < MaxByteCount → run s fs d → refines s fs d.
Proof.
  intros Ht. induction 1 as [|s fs d f s' err _ IH Hl E Herr|s fs d s' f _ IH E].
  - constructor; [by apply new_sorter_inv| |done|]. 
    + intros p Hp. split; [|intros _; exists (MkByteInterval 0 MaxByteCount); split; [by left|done]].
      intros _ (f & Hf & _). by apply elem_of_nil in Hf.
    + intros i Hi. change (len (@nil Z)) with 0 in Hi. lia.
  - by eapply refines_push.
  - by eapply refines_pop.
Qed.

(** ** The properties of the sorter *)

(** C10: the sorter refines the stream. Whatever the order in which the frames of a
    stream arrive, overlap and repeat, the data that was popped is the beginning of
    the stream, without a byte lost, repeated or changed; and as long as the end is
    not reached, there is data to be popped exactly when the next byte of the stream
    has arrived in some frame. *)
Theorem sorter_delivers_in_order s fs d : 0 <= total < MaxByteCount → run s fs d →
  (∀ i, 0 <= i < len d → d !! Z.to_nat i = Some (content i)) ∧ len d = readPosition s ∧ readPosition s <= total ∧
  (readPosition s < total → is_Some (Head s) ↔ received fs (readPosition s)).
Proof.
  intros Ht Hr. destruct (run_refines s fs d Ht Hr) as [H Hg Hl Hd]. split; [done|]. split; [done|].
  pose proof (si_read s H) as Hrp. split; [lia|]. intros Hlt.
  assert (in_gaps (gaps s) (readPosition s) ↔ ~ received fs (readPosition s)) as Hgp by (apply Hg; lia). split.
  - intros [f Ef]. destruct (Head_spec s f H Ef) as (_ & _ & _ & He).
    assert (0 < len (Data f)) as Hlf.
    { destruct (Data f); [specialize (He eq_refl); lia|rewrite len_cons; pose proof (len_nonneg l); lia]. }
    pose proof (Head_gap s f H Ef Hlf) as Hng. rewrite Hgp in Hng. destruct (received_dec fs (readPosition s)); tauto.
  - intros Hrec. destruct (Head_received s H) as (f & Ef & _); [rewrite Hgp; tauto|eauto].
Qed.

(** A frame of the stream is pushed without a panic and without an error that marks
    a bug: it is accepted, or it is a duplicate, all of whose bytes have arrived before,
    or more than the allowed number of gaps would be tracked. *)
Theorem sorter_push_total s fs d f : 0 <= total < MaxByteCount → run s fs d → legit f →
  ∃ s' err, Push s f = Ok (s', err) ∧
    (err = None ∨
     err = Some errDuplicateStreamData ∧ (∀ p, Offset f <= p < Offset f + len (Data f) → received fs p) ∨
     err = Some errTooManyGapsInReceivedStreamData ∧ MaxStreamFrameSorterGaps < len (gaps s')).
Proof.
  intros Ht Hr Hl. destruct (run_refines s fs d Ht Hr) as [H Hg _ _].
  destruct (Push_spec s f H Hl) as (s' & err & E & Hcase). exists s', err. split; [done|].
  destruct Hcase as [[? _]|[?|(? & _ & Hp)]]; [tauto|tauto|]. right; left. split; [done|]. intros p Hin.
  destruct Hl as (? & ? & _). destruct (received_dec fs p) as [|Hnr]; [done|]. destruct (Hp p Hin). apply Hg; [lia|done].
Qed.

End sorter.

(** ** Concrete runs *)
Module SorterExamples.
Import protocol StreamFrame streamFrameSorter.

(** A stream of ten bytes. *)
Definition content (p : Z) : Z := 10 + p.

Definition frame (offset : Z) (n : nat) (fin : bool) : StreamFrame :=
  MkStreamFrame 5 fin true offset ((λ i, content (offset + Z.of_nat i)) <$> seq 0 n).

Lemma legit_frame offset n (fin : bool) : 0 <= offset → offset + Z.of_nat n <= 10 →
  (fin = true → offset + Z.of_nat n = 10) → (n = 0%nat → fin = true) → legit content 10 (frame offset n fin).
Proof.
  intros Ho Hn Hf He. unfold legit. cbn [frame Offset Data FinBit].
  assert (len ((λ i, content (offset + Z.of_nat i)) <$> seq 0 n) = Z.of_nat n) as -> by (unfold len; by rewrite length_fmap, length_seq).
  split; [done|]. split; [done|]. split; [|split; [done|]].
  - intros i Hi. rewrite list_lookup_fmap, lookup_seq_lt by lia. cbn. f_equal. f_equal. lia.
  - intros E. apply He. destruct n; [done|]. by rewrite <- cons_seq in E.
Qed.

(** The second half arrives first, then a frame that overlaps it. *)
Definition s1 : streamFrameSorter :=
  MkSorter {[6 := frame 6 4 true]} 0 [MkByteInterval 0 6; MkByteInterval 10 MaxByteCount].
Definition s2 : streamFrameSorter :=
  MkSorter {[6 := frame 6 4 true; 0 := frame 0 6 false]} 0 [MkByteInterval 10 MaxByteCount].

Lemma run_s2 : run content 10 s2 [frame 0 8 false; frame 6 4 true] [].
Proof.
  apply (run_push content 10 s1 [frame 6 4 true] [] (frame 0 8 false) s2 None).
  - apply (run_push content 10 newStreamFrameSorter [] [] (frame 6 4 true) s1 None).
    + constructor.
    + apply legit_frame; done || lia.
    + vm_compute. reflexivity.
    + by left.
  - apply legit_frame; done || lia.
  - vm_compute. reflexivity.
  - by left.
Qed.

Lemma sorter_delivers_in_order_witness : is_Some (Head s2).
Proof.
  destruct (sorter_delivers_in_order content 10 s2 _ _ ltac:(by vm_compute) run_s2) as (_ & _ & _ & H).
  apply (H eq_refl). exists (frame 0 8 false). split; [left|]. vm_compute. split; congruence.
Defined.

Lemma sorter_push_total_witness : ∃ s' err, Push s2 (frame 3 4 false) = Ok (s', err).
Proof.
  destruct (sorter_push_total content 10 s2 _ _ (frame 3 4 false) ltac:(by vm_compute) run_s2) as (s' & err & E & _).
  - apply legit_frame; done || lia.
  - exists s', err. exact E.
Defined.

(** The FIN bit survives a cut at the end of a frame. After the last four bytes of
    a stream of ten, a frame with the whole stream (both with the FIN bit, as the
    sender may split a frame when it is sent again) is cut to six bytes and still says
    that the stream ends with it: the reader reaches the end four bytes too early. *)
Theorem fin_survives_cut : ∃ s f,
  run content 10 s [frame 0 10 true; frame 6 4 true] [] ∧
  Head s = Some f ∧ FinBit f = true ∧ readPosition s + len (Data f) = 6.
Proof.
  eexists (MkSorter {[6 := frame 6 4 true; 0 := frame 0 6 true]} 0 [MkByteInterval 10 MaxByteCount]), (frame 0 6 true).
  split; [|by vm_compute].
  apply (run_push content 10 s1 [frame 6 4 true] [] (frame 0 10 true) _ None).
  - apply (run_push content 10 newStreamFrameSorter [] [] (frame 6 4 true) s1 None).
    + constructor.
    + apply legit_frame; done || lia.
    + vm_compute. reflexivity.
    + by left.
  - apply legit_frame; done || lia.
  - vm_compute. reflexivity.
  - by left.
Qed.

End SorterExamples.
