(* ===== verification/Stream.v ===== *)
(** * Streams

    [stream.go]: one stream with its receiving half (the frame sorter, Read) and its
    sending half (Write and what the framer takes). A stream is used by several
    goroutines: the session adds frames and takes data, the application reads and
    writes. Each definition is a part of a method that runs without giving up the
    mutex of the stream, or a part between two such parts; Read and Write, which give
    it up and block, are the state machines [reader] and [writer].

    The flow control manager is shared with the session, it is passed along. The
    callbacks [onData] (schedule sending) and [onReset] (queue a RST_STREAM frame) are
    returned. Logging of the read times is left out. *)

From S2P Require Import Prelude Protocol ByteOrder AckFrames Frames GoFloat FlowControl FrameSorter.

(** ** stream.go *)
Module stream.
Import protocol StreamFrame streamFrameSorter.
Import flowControlManager (flowControlManager).

Definition errDeadline : error := NewError "deadline exceeded".
Definition errClosedStream : error := NewError "write on closed stream".
Definition errBug : error := NewError "BUG: readPosInFrame > frame.DataLen in stream.Read".

(** The channels [readChan] and [writeChan] hold at most one signal. [ctxDone]: the
    context of the stream has been cancelled. *)
Record stream := MkStream {
  streamID : Z;
  readPosInFrame : Z;
  writeOffset : Z;
  readOffset : Z;
  err : option error;
  cancelled : bool;
  finishedReading : bool;
  finishedWriting : bool;
  resetLocally : bool;
  resetRemotely : bool;
  frameQueue : streamFrameSorter;
  readChan : bool;
  readDeadline : Z;
  dataForWriting : option (list Z);
  finSent : bool;
  rstSent : bool;
  writeChan : bool;
  writeDeadline : Z;
  ctxDone : bool;
}.

Definition set_readPosInFrame (v : Z) (s : stream) : stream :=
  MkStream (streamID s) v (writeOffset s) (readOffset s) (err s) (cancelled s) (finishedReading s)
    (finishedWriting s) (resetLocally s) (resetRemotely s) (frameQueue s) (readChan s)
    (readDeadline s) (dataForWriting s) (finSent s) (rstSent s) (writeChan s) (writeDeadline s)
    (ctxDone s).
Definition set_writeOffset (v : Z) (s : stream) : stream :=
  MkStream (streamID s) (readPosInFrame s) v (readOffset s) (err s) (cancelled s)
    (finishedReading s) (finishedWriting s) (resetLocally s) (resetRemotely s) (frameQueue s)
    (readChan s) (readDeadline s) (dataForWriting s) (finSent s) (rstSent s) (writeChan s)
    (writeDeadline s) (ctxDone s).
Definition set_readOffset (v : Z) (s : stream) : stream :=
  MkStream (streamID s) (readPosInFrame s) (writeOffset s) v (err s) (cancelled s)
    (finishedReading s) (finishedWriting s) (resetLocally s) (resetRemotely s) (frameQueue s)
    (readChan s) (readDeadline s) (dataForWriting s) (finSent s) (rstSent s) (writeChan s)
    (writeDeadline s) (ctxDone s).
Definition set_err (v : option error) (s : stream) : stream :=
  MkStream (streamID s) (readPosInFrame s) (writeOffset s) (readOffset s) v (cancelled s)
    (finishedReading s) (finishedWriting s) (resetLocally s) (resetRemotely s) (frameQueue s)
    (readChan s) (readDeadline s) (dataForWriting s) (finSent s) (rstSent s) (writeChan s)
    (writeDeadline s) (ctxDone s).
Definition set_cancelled (v : bool) (s : stream) : stream :=
  MkStream (streamID s) (readPosInFrame s) (writeOffset s) (readOffset s) (err s) v
    (finishedReading s) (finishedWriting s) (resetLocally s) (resetRemotely s) (frameQueue s)
    (readChan s) (readDeadline s) (dataForWriting s) (finSent s) (rstSent s) (writeChan s)
    (writeDeadline s) (ctxDone s).
Definition set_finishedReading (v : bool) (s : stream) : stream :=
  MkStream (streamID s) (readPosInFrame s) (writeOffset s) (readOffset s) (err s) (cancelled s) v
    (finishedWriting s) (resetLocally s) (resetRemotely s) (frameQueue s) (readChan s)
    (readDeadline s) (dataForWriting s) (finSent s) (rstSent s) (writeChan s) (writeDeadline s)
    (ctxDone s).
Definition set_finishedWriting (v : bool) (s : stream) : stream :=
  MkStream (streamID s) (readPosInFrame s) (writeOffset s) (readOffset s) (err s) (cancelled s)
    (finishedReading s) v (resetLocally s) (resetRemotely s) (frameQueue s) (readChan s)
    (readDeadline s) (dataForWriting s) (finSent s) (rstSent s) (writeChan s) (writeDeadline s)
    (ctxDone s).
Definition set_resetLocally (v : bool) (s : stream) : stream :=
  MkStream (streamID s) (readPosInFrame s) (writeOffset s) (readOffset s) (err s) (cancelled s)
    (finishedReading s) (finishedWriting s) v (resetRemotely s) (frameQueue s) (readChan s)
    (readDeadline s) (dataForWriting s) (finSent s) (rstSent s) (writeChan s) (writeDeadline s)
    (ctxDone s).
Definition set_resetRemotely (v : bool) (s : stream) : stream :=
  MkStream (streamID s) (readPosInFrame s) (writeOffset s) (readOffset s) (err s) (cancelled s)
    (finishedReading s) (finishedWriting s) (resetLocally s) v (frameQueue s) (readChan s)
    (readDeadline s) (dataForWriting s) (finSent s) (rstSent s) (writeChan s) (writeDeadline s)
    (ctxDone s).
Definition set_frameQueue (v : streamFrameSorter) (s : stream) : stream :=
  MkStream (streamID s) (readPosInFrame s) (writeOffset s) (readOffset s) (err s) (cancelled s)
    (finishedReading s) (finishedWriting s) (resetLocally s) (resetRemotely s) v (readChan s)
    (readDeadline s) (dataForWriting s) (finSent s) (rstSent s) (writeChan s) (writeDeadline s)
    (ctxDone s).
Definition set_readChan (v : bool) (s : stream) : stream :=
  MkStream (streamID s) (readPosInFrame s) (writeOffset s) (readOffset s) (err s) (cancelled s)
    (finishedReading s) (finishedWriting s) (resetLocally s) (resetRemotely s) (frameQueue s) v
    (readDeadline s) (dataForWriting s) (finSent s) (rstSent s) (writeChan s) (writeDeadline s)
    (ctxDone s).
Definition set_readDeadline (v : Z) (s : stream) : stream :=
  MkStream (streamID s) (readPosInFrame s) (writeOffset s) (readOffset s) (err s) (cancelled s)
    (finishedReading s) (finishedWriting s) (resetLocally s) (resetRemotely s) (frameQueue s)
    (readChan s) v (dataForWriting s) (finSent s) (rstSent s) (writeChan s) (writeDeadline s)
    (ctxDone s).
Definition set_dataForWriting (v : option (list Z)) (s : stream) : stream :=
  MkStream (streamID s) (readPosInFrame s) (writeOffset s) (readOffset s) (err s) (cancelled s)
    (finishedReading s) (finishedWriting s) (resetLocally s) (resetRemotely s) (frameQueue s)
    (readChan s) (readDeadline s) v (finSent s) (rstSent s) (writeChan s) (writeDeadline s)
    (ctxDone s).
Definition set_finSent (v : bool) (s : stream) : stream :=
  MkStream (streamID s) (readPosInFrame s) (writeOffset s) (readOffset s) (err s) (cancelled s)
    (finishedReading s) (finishedWriting s) (resetLocally s) (resetRemotely s) (frameQueue s)
    (readChan s) (readDeadline s) (dataForWriting s) v (rstSent s) (writeChan s) (writeDeadline s)
    (ctxDone s).
Definition set_rstSent (v : bool) (s : stream) : stream :=
  MkStream (streamID s) (readPosInFrame s) (writeOffset s) (readOffset s) (err s) (cancelled s)
    (finishedReading s) (finishedWriting s) (resetLocally s) (resetRemotely s) (frameQueue s)
    (readChan s) (readDeadline s) (dataForWriting s) (finSent s) v (writeChan s) (writeDeadline s)
    (ctxDone s).
Definition set_writeChan (v : bool) (s : stream) : stream :=
  MkStream (streamID s) (readPosInFrame s) (writeOffset s) (readOffset s) (err s) (cancelled s)
    (finishedReading s) (finishedWriting s) (resetLocally s) (resetRemotely s) (frameQueue s)
    (readChan s) (readDeadline s) (dataForWriting s) (finSent s) (rstSent s) v (writeDeadline s)
    (ctxDone s).
Definition set_writeDeadline (v : Z) (s : stream) : stream :=
  MkStream (streamID s) (readPosInFrame s) (writeOffset s) (readOffset s) (err s) (cancelled s)
    (finishedReading s) (finishedWriting s) (resetLocally s) (resetRemotely s) (frameQueue s)
    (readChan s) (readDeadline s) (dataForWriting s) (finSent s) (rstSent s) (writeChan s) v
    (ctxDone s).
Definition set_ctxDone (v : bool) (s : stream) : stream :=
  MkStream (streamID s) (readPosInFrame s) (writeOffset s) (readOffset s) (err s) (cancelled s)
    (finishedReading s) (finishedWriting s) (resetLocally s) (resetRemotely s) (frameQueue s)
    (readChan s) (readDeadline s) (dataForWriting s) (finSent s) (rstSent s) (writeChan s)
    (writeDeadline s) v.

(** What a method calls. *)
Inductive callback := OnData | OnReset (id offset : Z).

Definition newStream (id : Z) : stream :=
  MkStream id 0 0 0 None false false false false false newStreamFrameSorter false time.zero None false false
    false time.zero false.

(** *** Read *)

(** Where a call of Read is. [acc] are the bytes that have been copied to the buffer.
    [RFlags]: the error has been read, the flags have not. [RLoop]: at the head of the
    outer loop. [RWait]: waiting for a signal or for the deadline that was set when
    the call began to wait; nothing has been copied then. [RCopy]: the frame at the head of the queue has
    been taken and the mutex released. [RPop]: the frame has been read to its end. *)
Inductive reader :=
  | RStart
  | RFlags (err : option error)
  | RLoop (acc : list Z)
  | RWait (deadline : Z)
  | RCopy (acc : list Z) (frame : StreamFrame)
  | RPop (acc : list Z) (frame : StreamFrame)
  | RDone (acc : list Z) (err : option error)
  | RPanic.

(** The inner loop up to the point where it ends or blocks. When the stream was reset
    without an error the loop ends without one, and the frame is used although the position in
    it was not set, or although there is none, which is a panic. *)
Definition awaitFrame (acc : list Z) (now : Z) (s : stream) : stream * reader :=
  if resetLocally s || cancelled s then
    match err s, Head (frameQueue s) with
    | Some e, _ => (s, RDone acc (Some e))
    | None, Some frame => (s, RCopy acc frame)
    | None, None => (s, RPanic)
    end
  else if negb (time.IsZero (readDeadline s)) && negb (time.Before now (readDeadline s))
  then (s, RDone acc (Some errDeadline))
  else match Head (frameQueue s) with
       | Some frame => (set_readPosInFrame (i64 (u64 (readOffset s - Offset frame))) s, RCopy acc frame)
       | None => (s, RWait (readDeadline s))
       end.

(** The copy of a part of the frame into a buffer of [n] bytes. An error of the flow
    control manager is ignored. *)
Definition copyFrame (n now : Z) (acc : list Z) (frame : StreamFrame) (s : stream) (f : flowControlManager) :
    stream * flowControlManager * reader * list callback :=
  let m := utils.Min (n - len acc) (i64 (DataLen frame) - readPosInFrame s) in
  if i64 (DataLen frame) <? readPosInFrame s then (s, f, RDone acc (Some errBug), [])
  else if readPosInFrame s <? 0 then (s, f, RPanic, [])
  else
    let acc := acc ++ take (Z.to_nat m) (drop (Z.to_nat (readPosInFrame s)) (Data frame)) in
    let s := set_readPosInFrame (readPosInFrame s + m) s in
    let s := set_readOffset (u64 (readOffset s + u64 m)) s in
    let f := if negb (resetRemotely s) then (flowControlManager.AddBytesRead (streamID s) (u64 m) now f).1 else f in
    if i64 (DataLen frame) <=? readPosInFrame s then (s, f, RPop acc frame, [OnData])
    else (s, f, RLoop acc, [OnData]).

(** One step of a call of Read with a buffer of [n] bytes. [timer]: of the two cases
    that a waiting call can be woken by, the deadline is chosen. None: the step is not
    possible, the call has returned or it waits. *)
Definition readStep (n now : Z) (timer : bool) (s : stream) (f : flowControlManager) (r : reader) :
    option (stream * flowControlManager * reader * list callback) :=
  match r with
  | RStart => Some (s, f, RFlags (err s), [])
  | RFlags e =>
      if cancelled s || resetLocally s then Some (s, f, RDone [] e, [])
      else if finishedReading s then Some (s, f, RDone [] (Some EOF), [])
      else Some (s, f, RLoop [], [])
  | RLoop acc =>
      if len acc <? n then
        match Head (frameQueue s), acc with
        | None, _ :: _ => Some (s, f, RDone acc (err s), [])
        | _, _ => let '(s, r) := awaitFrame acc now s in Some (s, f, r, [])
        end
      else Some (s, f, RDone acc None, [])
  | RWait deadline =>
      if timer then
        if negb (time.IsZero deadline) && (deadline <=? now)
        then let '(s, r) := awaitFrame [] now s in Some (s, f, r, [])
        else None
      else if readChan s then
        let '(s, r) := awaitFrame [] now (set_readChan false s) in Some (s, f, r, [])
      else None
  | RCopy acc frame => Some (copyFrame n now acc frame s f)
  | RPop acc frame =>
      let s := set_frameQueue (Pop (frameQueue s)).1 s in
      if FinBit frame then Some (set_finishedReading true s, f, RDone acc (Some EOF), [])
      else Some (s, f, RLoop acc, [])
  | RDone _ _ | RPanic => None
  end.

(** A call of Read that no other goroutine interrupts: its steps up to the point where it returns or
    waits. The clock stands still. *)
Fixpoint readRun (fuel : nat) (n now : Z) (s : stream) (f : flowControlManager) (r : reader) :
    stream * flowControlManager * reader :=
  match fuel with
  | O => (s, f, r)
  | S fuel =>
      match readStep n now false s f r with
      | None => (s, f, r)
      | Some (s, f, r, _) => readRun fuel n now s f r
      end
  end.

Definition Read (n now : Z) (s : stream) (f : flowControlManager) : stream * flowControlManager * reader :=
  readRun (20 * Z.to_nat n + 20) n now s f RStart.

(** *** Write *)

(** Where a call of Write is: waiting until the data has been taken, or returned. *)
Inductive writer := WWait (deadline : Z) | WDone (n : Z) (err : option error).

(** The loop of Write up to the point where it ends or blocks; [n] is the length of
    the data. *)
Definition awaitWritten (n now : Z) (s : stream) : writer :=
  if negb (time.IsZero (writeDeadline s)) && negb (time.Before now (writeDeadline s)) then WDone 0 (Some errDeadline)
  else match dataForWriting s, err s with
       | Some _, None => WWait (writeDeadline s)
       | d, Some e => WDone (n - len (default [] d)) (Some e)
       | None, None => WDone n None
       end.

Definition Write (p : list Z) (now : Z) (s : stream) : stream * writer * list callback :=
  if resetLocally s || bool_decide (is_Some (err s)) then (s, WDone 0 (err s), [])
  else if finishedWriting s then (s, WDone 0 (Some errClosedStream), [])
  else if len p =? 0 then (s, WDone 0 None, [])
  else
    let s := set_dataForWriting (Some p) s in
    (s, awaitWritten (len p) now s, [OnData]).

Definition writeWake (n now : Z) (timer : bool) (s : stream) (w : writer) : option (stream * writer) :=
  match w with
  | WDone _ _ => None
  | WWait deadline =>
      if timer then
        if negb (time.IsZero deadline) && (deadline <=? now) then Some (s, awaitWritten n now s) else None
      else if writeChan s then
        let s := set_writeChan false s in Some (s, awaitWritten n now s)
      else None
  end.

Definition signalRead (s : stream) : stream := set_readChan true s.
Definition signalWrite (s : stream) : stream := set_writeChan true s.

Definition lenOfDataForWriting (s : stream) : Z :=
  match err s with None => u64 (len (default [] (dataForWriting s))) | Some _ => 0 end.

(** None stands for the nil slice. *)
Definition getDataForWriting (maxBytes : Z) (s : stream) : stream * option (list Z) :=
  match err s, dataForWriting s with
  | None, Some data =>
      let '(s, ret) :=
        if maxBytes <? u64 (len data)
        then (set_dataForWriting (Some (drop (Z.to_nat maxBytes) data)) s, take (Z.to_nat maxBytes) data)
        else (signalWrite (set_dataForWriting None s), data) in
      (set_writeOffset (u64 (writeOffset s + u64 (len ret))) s, Some ret)
  | _, _ => (s, None)
  end.

(** *** Closing and errors *)

Definition Close (s : stream) : stream * list callback :=
  (set_ctxDone true (set_finishedWriting true s), [OnData]).

Definition finishedWriteAndSentFin (s : stream) : bool := finishedWriting s && finSent s.

Definition shouldSendReset (s : stream) : bool :=
  if rstSent s then false else (resetLocally s || resetRemotely s) && negb (finishedWriteAndSentFin s).

Definition shouldSendFin (s : stream) : bool :=
  finishedWriting s && negb (finSent s) && bool_decide (err s = None) && bool_decide (dataForWriting s = None).

Definition sentFin (s : stream) : stream := set_finSent true s.

Definition AddStreamFrame (frame : StreamFrame) (s : stream) (f : flowControlManager) :
    outcome (stream * flowControlManager * option error) :=
  let maxOffset := u64 (Offset frame + DataLen frame) in
  let '(f, e) := flowControlManager.UpdateHighestReceived (streamID s) maxOffset f in
  match e with
  | Some _ => Ok (s, f, e)
  | None =>
      '(q, e) ← Push (frameQueue s) frame;
      let s := set_frameQueue q s in
      if bool_decide (e = None ∨ e = Some errDuplicateStreamData) then Ok (signalRead s, f, None)
      else Ok (s, f, e)
  end.

Definition SetReadDeadline (t : Z) (s : stream) : stream :=
  let oldDeadline := readDeadline s in
  let s := set_readDeadline t s in
  if time.Before t oldDeadline then signalRead s else s.

Definition SetWriteDeadline (t : Z) (s : stream) : stream :=
  let oldDeadline := writeDeadline s in
  let s := set_writeDeadline t s in
  if time.Before t oldDeadline then signalWrite s else s.

Definition SetDeadline (t : Z) (s : stream) : stream := SetWriteDeadline t (SetReadDeadline t s).

(** A virtual FIN frame; its error is ignored. *)
Definition CloseRemote (offset : Z) (s : stream) (f : flowControlManager) : outcome (stream * flowControlManager) :=
  '(s, f, _) ← AddStreamFrame (MkStreamFrame 0 true false offset []) s f; Ok (s, f).

Definition Cancel (e : option error) (s : stream) : stream :=
  let s := set_ctxDone true (set_cancelled true s) in
  match err s with
  | None => signalWrite (signalRead (set_err e s))
  | Some _ => s
  end.

(** What Reset and RegisterRemoteError have in common at their end. *)
Definition maybeSendReset (s : stream) : stream * list callback :=
  if shouldSendReset s then (set_rstSent true s, [OnReset (streamID s) (writeOffset s)]) else (s, []).

Definition Reset (e : option error) (s : stream) : stream * list callback :=
  if resetLocally s then (s, [])
  else
    let s := set_ctxDone true (set_resetLocally true s) in
    let s := match err s with None => signalWrite (signalRead (set_err e s)) | Some _ => s end in
    maybeSendReset s.

Definition RegisterRemoteError (e : option error) (s : stream) : stream * list callback :=
  if resetRemotely s then (s, [])
  else
    let s := set_ctxDone true (set_resetRemotely true s) in
    let s := match err s with None => signalWrite (set_err e s) | Some _ => s end in
    maybeSendReset s.

Definition finished (s : stream) : bool :=
  cancelled s || (finishedReading s && finishedWriteAndSentFin s) || (resetRemotely s && rstSent s) ||
  (finishedReading s && rstSent s) || (finishedWriteAndSentFin s && resetRemotely s).

Definition GetBytesSent (s : stream) (f : flowControlManager) : Z + error :=
  flowControlManager.GetBytesSent (streamID s) f.
Definition GetBytesRetrans (s : stream) (f : flowControlManager) : Z + error :=
  flowControlManager.GetBytesRetrans (streamID s) f.

End stream.

(** Operations that change neither the data that was received nor the data to be
    sent. The error may be nil: the HTTP/2 server resets a stream without one. *)
Inductive control (s : stream.stream) : stream.stream → Prop :=
  | control_close : control s (stream.Close s).1
  | control_fin : control s (stream.sentFin s)
  | control_read_deadline t : control s (stream.SetReadDeadline t s)
  | control_write_deadline t : control s (stream.SetWriteDeadline t s)
  | control_cancel e : control s (stream.Cancel e s)
  | control_reset e : control s (stream.Reset e s).1
  | control_remote_error e : control s (stream.RegisterRemoteError e s).1.

(** ** The receiving half *)

Section receiving.
Import protocol StreamFrame streamFrameSorter stream.
Import flowControlManager (flowControlManager).

(** The bytes that the peer sends on the stream, and their number. *)
Context (content : Z → Z) (total : Z).

(** The bytes that a call of Read has copied so far. *)
Definition copied (r : reader) : list Z :=
  match r with RLoop acc | RCopy acc _ | RPop acc _ | RDone acc _ => acc | _ => [] end.

(** What the flow control manager counts as read on a stream. *)
Definition counted (id : Z) (f : flowControlManager) : option Z :=
  flowController.bytesRead <$> flowControlManager.getFlowController id f.

(** The operations of the stream that other goroutines call while a call of Read is
    under way, apart from the arrival of frames. *)
Inductive other (now : Z) (s : stream) : stream → Prop :=
  | other_write p : other now s (Write p now s).1.1
  | other_wake n timer w s' w' : writeWake n now timer s w = Some (s', w') → other now s s'
  | other_take maxBytes : other now s (getDataForWriting maxBytes s).1
  | other_control s' : control s s' → other now s s'.

(** The stream has been reset or cancelled. *)
Definition stopped (s : stream) : bool := resetLocally s || cancelled s.

(** It has been reset or cancelled without an error. *)
Definition silent (s : stream) : bool := stopped s && bool_decide (err s = None).

(** Calls of Read, one after the other, step by step, while frames of the stream
    arrive and other operations are called. [q]: at some point, the stream was
    silently reset or cancelled. [n] is the size of the buffer of the
    current call, [fs] are the frames that have arrived, [d] is what earlier calls
    returned. Other streams use the same flow control manager. *)
Inductive read_run : bool → stream → flowControlManager → Z → reader → list StreamFrame → list Z → Prop :=
  | rr_new id f : counted id f = Some 0 → read_run false (newStream id) f 0 (RDone [] None) [] []
  | rr_call q s f n n' acc e fs d : read_run q s f n (RDone acc e) fs d → 0 <= n' →
      read_run q s f n' RStart fs (d ++ acc)
  | rr_step q s f n r fs d now timer s' f' r' cbs : read_run q s f n r fs d →
      readStep n now timer s f r = Some (s', f', r', cbs) → read_run q s' f' n r' fs d
  | rr_frame q s f n r fs d frame s' f' : read_run q s f n r fs d → legit content total frame →
      AddStreamFrame frame s f = Ok (s', f', None) → read_run q s' f' n r (frame :: fs) d
  | rr_other q s f n r fs d now s' : read_run q s f n r fs d → other now s s' →
      read_run (q || silent s') s' f n r fs d
  | rr_flow q s f n r fs d f' : read_run q s f n r fs d → counted (streamID s) f' = counted (streamID s) f →
      read_run q s f' n r fs d.

(** The frame that a reader holds is still at the head of the queue. *)
Definition held (s : stream) (frame : StreamFrame) : Prop :=
  ∃ h, Head (frameQueue s) = Some h ∧ Data h = Data frame ∧ Offset h = Offset frame ∧
    (0 < len (Data frame) → h = frame).

(** Between two frames, or inside the frame at the head of the queue. *)
Definition resting (s : stream) : Prop :=
  readPosition (frameQueue s) = readOffset s ∨
  ∃ h, Head (frameQueue s) = Some h ∧
    readPosition (frameQueue s) <= readOffset s < readPosition (frameQueue s) + len (Data h).

(** Where the reader is in the stream. *)
Definition placed (s : stream) (n : Z) (r : reader) : Prop :=
  match r with
  | RCopy acc frame =>
      held s frame ∧ readPosInFrame s = readOffset s - Offset frame ∧ 0 <= readPosInFrame s ∧ len acc < n ∧
      (readPosInFrame s < len (Data frame) ∨ readPosInFrame s = len (Data frame) ∧ Data frame = [])
  | RPop acc frame => held s frame ∧ readOffset s = Offset frame + len (Data frame) ∧ len acc <= n
  | RWait _ => 0 < n ∧ resting s
  | RPanic => False
  | _ => len (copied r) <= n ∧ resting s
  end.

Record reading (s : stream) (f : flowControlManager) (n : Z) (r : reader) (fs : list StreamFrame) (d : list Z) : Prop := {
  rd_queue : ∃ dq, refines content total (frameQueue s) fs dq;
  rd_len : len (d ++ copied r) = readOffset s;
  rd_data i : 0 <= i < readOffset s → (d ++ copied r) !! Z.to_nat i = Some (content i);
  rd_placed : placed s n r;
  rd_err : stopped s = true → is_Some (err s);
  rd_counted : resetRemotely s = false → counted (streamID s) f = Some (readOffset s);
  rd_wait dl : r = RWait dl → readChan s = true ∨ Head (frameQueue s) = None;
}.

(** What the other operations leave alone. *)
Record undisturbed (s s' : stream) : Prop := {
  un_id : streamID s' = streamID s;
  un_pos : readPosInFrame s' = readPosInFrame s;
  un_offset : readOffset s' = readOffset s;
  un_queue : frameQueue s' = frameQueue s;
  un_chan : readChan s = true → readChan s' = true;
  un_remote : resetRemotely s' = false → resetRemotely s = false;
  un_stopped : stopped s = true → stopped s' = true;
}.

Lemma undisturbed_refl s : undisturbed s s.
Proof. by constructor. Qed.

Lemma control_undisturbed s s' : control s s' → undisturbed s s'.
Proof.
  assert (∀ s, stopped (set_resetLocally true s) = true) as Hl by done.
  assert (∀ s, stopped (set_cancelled true s) = true) as Hc by (intros; apply orb_true_r).
  intros [| |t|t|e|e|e].
  - by constructor.
  - by constructor.
  - unfold SetReadDeadline. case_match; by constructor.
  - unfold SetWriteDeadline. case_match; by constructor.
  - unfold Cancel. case_match; constructor; try done; intros _; apply Hc.
  - unfold Reset, maybeSendReset. destruct (resetLocally s); [by constructor|]. repeat case_match; constructor; done || (intros _; apply Hl).
  - unfold RegisterRemoteError, maybeSendReset. destruct (resetRemotely s); [by constructor|].
    repeat case_match; constructor; done.
Qed.

Lemma other_undisturbed now s s' : other now s s' → undisturbed s s'.
Proof.
  intros [p|n timer w s1 w' E|mb|s1 Hc].
  - unfold Write. repeat case_match; by constructor.
  - unfold writeWake in E. repeat case_match; simplify_eq/=; by constructor.
  - unfold getDataForWriting. destruct (err s) eqn:Ee; [by constructor|]. destruct (dataForWriting s) as [data|]; [|by constructor].
    by destruct (mb <? u64 (len data)).
  - by apply control_undisturbed.
Qed.

Lemma placed_undisturbed s s' n r : undisturbed s s' → placed s n r → placed s' n r.
Proof. intros [_ Hp Ho Hq _ _ _]. destruct r; unfold placed, held, resting; by rewrite ?Hp, ?Ho, ?Hq. Qed.

Lemma reading_undisturbed s s' f n r fs d : undisturbed s s' → silent s' = false → reading s f n r fs d → reading s' f n r fs d.
Proof.
  intros U Hsil [Hq Hl Hd Hp He Hc Hw]. pose proof (placed_undisturbed _ _ _ _ U Hp). destruct U as [Ei Ep Eo Eq Uc Ur _].
  constructor; rewrite ?Eo, ?Eq, ?Ei; [done..| |auto|].
  { unfold silent in Hsil. intros E. rewrite E in Hsil. destruct (err s'); [done|]. by rewrite bool_decide_true in Hsil. }
  intros dl ->. destruct (Hw dl eq_refl); auto.
Qed.

(** *** Frames *)

Lemma counted_received id id' o f : counted id (flowControlManager.UpdateHighestReceived id' o f).1 = counted id f.
Proof.
  unfold flowControlManager.UpdateHighestReceived, flowControlManager.checkReceived, counted,
    flowControlManager.getFlowController.
  destruct (flowControlManager.streamFlowController f !! id') as [c|] eqn:Ec; [|done].
  destruct (flowController.UpdateHighestReceived o c) as [[c' inc] e] eqn:Eu.
  assert (flowController.bytesRead c' = flowController.bytesRead c) as Hb.
  { unfold flowController.UpdateHighestReceived in Eu. repeat case_match; by simplify_eq/=. }
  assert (flowController.bytesRead <$> <[id' := c']> (flowControlManager.streamFlowController f) !! id =
          flowController.bytesRead <$> flowControlManager.streamFlowController f !! id) as Hm.
  { destruct (decide (id' = id)) as [->|]; [by rewrite lookup_insert_eq, Ec; cbn; rewrite Hb|by rewrite lookup_insert_ne]. }
  repeat case_match; exact Hm.
Qed.

Lemma counted_read id n now f : counted id (flowControlManager.AddBytesRead id n now f).1 =
  (λ b, u64 (b + n)) <$> counted id f.
Proof.
  unfold flowControlManager.AddBytesRead, counted, flowControlManager.getFlowController.
  destruct (flowControlManager.streamFlowController f !! id) as [c|] eqn:Ec; cbn; [|by rewrite Ec].
  assert (flowController.bytesRead (flowController.AddBytesRead n now c) = u64 (flowController.bytesRead c + n)) as Hb.
  { unfold flowController.AddBytesRead. by case_match. }
  case_match; cbn; rewrite lookup_insert_eq; exact (f_equal Some Hb).
Qed.

(** What the arrival of a frame does to the queue. *)
Lemma AddStreamFrame_inv frame s f s' f' : AddStreamFrame frame s f = Ok (s', f', None) →
  ∃ q e, Push (frameQueue s) frame = Ok (q, e) ∧ (e = None ∨ e = Some errDuplicateStreamData) ∧
    s' = signalRead (set_frameQueue q s) ∧
    f' = (flowControlManager.UpdateHighestReceived (streamID s) (u64 (Offset frame + DataLen frame)) f).1.
Proof.
  unfold AddStreamFrame. destruct (flowControlManager.UpdateHighestReceived _ _ f) as [f1 [e|]]; [done|].
  intros E. apply outcome_bind_inv in E as ([q e] & Eq & E). exists q, e.
  case_bool_decide as He; simplify_eq; [done|]. destruct He. by left.
Qed.

Lemma held_pushed s frame fr q e : sorter_inv content total (frameQueue s) → legit content total frame →
  Push (frameQueue s) frame = Ok (q, e) → held s fr → held (signalRead (set_frameQueue q s)) fr.
Proof.
  intros Hi Hl Eq (h & Eh & Ed & Eo & Ehf). destruct (Push_Head content total _ _ _ _ _ Hi Hl Eq Eh) as (h' & Eh' & Ed' & Eo' & Ehh).
  exists h'. split; [done|]. split; [congruence|]. split; [congruence|]. intros Hpos. rewrite Ehh; [auto|by rewrite Ed].
Qed.

Lemma resting_pushed s frame q fs dq e : refines content total (frameQueue s) fs dq → legit content total frame →
  Push (frameQueue s) frame = Ok (q, e) → e = None ∨ e = Some errDuplicateStreamData →
  resting s → resting (signalRead (set_frameQueue q s)).
Proof.
  intros Hq Hl Eq Hcase. pose proof (refines_push content total _ _ _ _ _ _ Hq Hl Eq Hcase) as Hq'.
  pose proof (rf_read _ _ _ _ _ Hq) as Hr. pose proof (rf_read _ _ _ _ _ Hq') as Hr'. unfold resting. cbn.
  rewrite <- Hr', Hr. intros [?|(h & Eh & Hpo)]; [by left|right].
  destruct (Push_Head content total _ _ _ _ _ (rf_inv _ _ _ _ _ Hq) Hl Eq Eh) as (h' & Eh' & Ed' & _ & _).
  exists h'. split; [done|]. by rewrite Ed'.
Qed.

Lemma reading_frame s f n r fs d frame s' f' : legit content total frame →
  AddStreamFrame frame s f = Ok (s', f', None) → reading s f n r fs d → reading s' f' n r (frame :: fs) d.
Proof.
  intros Hl E [[dq Hq] Hlen Hd Hp He Hc Hw]. apply AddStreamFrame_inv in E as (q & e & Eq & Hcase & -> & ->).
  pose proof (refines_push content total _ _ _ _ _ _ Hq Hl Eq Hcase) as Hq'. pose proof (rf_inv _ _ _ _ _ Hq) as Hi.
  constructor; [by exists dq|done|done| |done| |by left].
  - destruct r; cbn in Hp |- *;
      repeat match goal with
        | H : _ ∧ _ |- _ => destruct H
        | H : held _ _ |- _ => eapply held_pushed in H; [|done..]
        | |- _ ∧ _ => split; [done|]
        end; try done; eapply resting_pushed; eauto.
  - intros Hrr. etrans; [apply counted_received|by apply Hc].
Qed.

(** *** Steps of Read *)

(** On a stream that has been reset or cancelled a new call returns at once, with the
    error of the stream and without data. *)
Lemma Read_stopped s f n now : stopped s = true → Read n now s f = (s, f, RDone [] (err s)).
Proof.
  intros E. unfold Read. replace (20 * Z.to_nat n + 20)%nat with (S (S (20 * Z.to_nat n + 18))) by lia.
  cbn [readRun readStep]. unfold stopped in E. rewrite orb_comm, E. by destruct (20 * Z.to_nat n + 18)%nat.
Qed.

Hypothesis Htotal : 0 <= total < 2 ^ 63.

Lemma head_place s fs dq frame : refines content total (frameQueue s) fs dq → resting s → Head (frameQueue s) = Some frame →
  0 <= Offset frame <= readOffset s ∧ Offset frame + len (Data frame) <= total ∧
  (∀ i, 0 <= i < len (Data frame) → Data frame !! Z.to_nat i = Some (content (Offset frame + i))) ∧
  (readOffset s < Offset frame + len (Data frame) ∨ readOffset s = Offset frame).
Proof.
  intros Hq Hr Eh. destruct (Head_spec content total _ _ (rf_inv _ _ _ _ _ Hq) Eh) as (Ho & Hl & Hd & He).
  pose proof (si_read _ _ _ (rf_inv _ _ _ _ _ Hq)). rewrite Ho. split; [|split; [done|split; [done|]]].
  - destruct Hr as [?|(h & Eh' & ?)]; lia.
  - destruct Hr as [?|(h & Eh' & ?)]; [by right|left]. rewrite Eh in Eh'. injection Eh' as <-. lia.
Qed.

Lemma await_reading s f n acc fs d now s' r' : reading s f n (RLoop acc) fs d → len acc < n →
  (Head (frameQueue s) = None → acc = []) → awaitFrame acc now s = (s', r') → reading s' f n r' fs d.
Proof.
  intros H Hn Hacc. pose proof H as [[dq Hq] Hlen Hd [_ Hp] He Hc _]. unfold awaitFrame. fold (stopped s).
  destruct (stopped s) eqn:Ec.
  { destruct (He eq_refl) as [e Ee]. rewrite Ee. intros [= <- <-]. constructor; try done; [by exists dq|]. by split; [cbn; lia|]. }
  destruct (negb (time.IsZero (readDeadline s)) && negb (time.Before now (readDeadline s))).
  { intros [= <- <-]. constructor; try done; [by exists dq|by split; [cbn; lia|]|by rewrite Ec]. }
  destruct (Head (frameQueue s)) as [frame|] eqn:Eh; intros [= <- <-].
  - destruct (head_place s fs dq frame Hq Hp Eh) as (Ho & Hl & _ & Hb). pose proof (len_nonneg (Data frame)).
    assert (i64 (u64 (readOffset s - Offset frame)) = readOffset s - Offset frame) as Ei by zlia.
    constructor; try done; [by exists dq| |by intros E; change (stopped s = true) in E; rewrite Ec in E].
    split; [by exists frame|]. cbn. rewrite Ei. split; [done|]. split; [lia|]. split; [done|].
    destruct Hb; [left; lia|]. destruct (Z.eq_dec (len (Data frame)) 0) as [E0|]; [right|left; lia].
    split; [lia|by apply len_zero].
  - rewrite (Hacc eq_refl) in *. constructor; try done; [by exists dq|by rewrite Ec|by right].
Qed.

Lemma wake_reading s f n dl fs d b : reading s f n (RWait dl) fs d →
  reading (set_readChan b s) f n (RLoop []) fs d ∧ 0 < n.
Proof. intros [Hq Hlen Hd [Hn Hp] He Hc _]. split; [|done]. constructor; try done. split; [unfold len; cbn; lia|done]. Qed.

(** The frame that a reader holds is the next part of the stream. *)
Lemma held_place s fs dq frame : refines content total (frameQueue s) fs dq → held s frame →
  Offset frame = readPosition (frameQueue s) ∧ 0 <= Offset frame ∧ Offset frame + len (Data frame) <= total ∧
  (∀ i, 0 <= i < len (Data frame) → Data frame !! Z.to_nat i = Some (content (Offset frame + i))).
Proof.
  intros Hq (h & Eh & Ed & Eo & _). destruct (Head_spec content total _ _ (rf_inv _ _ _ _ _ Hq) Eh) as (Ho & Hl & Hd & _).
  pose proof (si_read _ _ _ (rf_inv _ _ _ _ _ Hq)). rewrite <- Ed, <- Eo, Ho. repeat split; done || lia.
Qed.

Lemma lookup_append (l k : list Z) o : len l = o →
  (∀ i, 0 <= i < o → l !! Z.to_nat i = Some (content i)) →
  (∀ i, 0 <= i < len k → k !! Z.to_nat i = Some (content (o + i))) →
  ∀ i, 0 <= i < o + len k → (l ++ k) !! Z.to_nat i = Some (content i).
Proof.
  intros <- Hl Hk i Hi. pose proof (len_nonneg l). destruct (Z_lt_dec i (len l)).
  - rewrite lookup_app_l by (unfold len in *; lia). apply Hl. lia.
  - rewrite lookup_app_r by (unfold len in *; lia).
    replace (Z.to_nat i - length l)%nat with (Z.to_nat (i - len l)) by (unfold len in *; lia).
    rewrite Hk by lia. f_equal. f_equal. lia.
Qed.

Lemma copy_reading s f n acc frame fs d now s' f' r' cbs : reading s f n (RCopy acc frame) fs d →
  copyFrame n now acc frame s f = (s', f', r', cbs) → reading s' f' n r' fs d.
Proof.
  intros [[dq Hq] Hlen Hd (Hh & Hpos & Hge & Hn & Hlt) He Hc _].
  destruct (held_place s fs dq frame Hq Hh) as (Ho & Ho0 & Hl & Hdf). pose proof (len_nonneg (Data frame)).
  assert (i64 (DataLen frame) = len (Data frame)) as Edl by (unfold DataLen; zlia).
  unfold copyFrame. rewrite Edl. set (m := utils.Min (n - len acc) (len (Data frame) - readPosInFrame s)).
  assert (0 <= m ∧ m <= len (Data frame) - readPosInFrame s ∧ m <= n - len acc) as Hm.
  { unfold m, utils.Min. destruct (Z.ltb_spec (n - len acc) (len (Data frame) - readPosInFrame s)); lia. }
  clearbody m. destruct (Z.ltb_spec (len (Data frame)) (readPosInFrame s)); [lia|].
  destruct (Z.ltb_spec (readPosInFrame s) 0); [lia|].
  assert (u64 m = m ∧ u64 (readOffset s + m) = readOffset s + m) as [Em Er] by (split; zlia).
  rewrite Em. change (readOffset (set_readPosInFrame (readPosInFrame s + m) s)) with (readOffset s). rewrite Er. cbv zeta.
  set (new := take (Z.to_nat m) (drop (Z.to_nat (readPosInFrame s)) (Data frame))).
  assert (len new = m) as Hnew by (unfold new; rewrite len_take, len_drop; lia).
  assert (∀ i, 0 <= i < len new → new !! Z.to_nat i = Some (content (readOffset s + i))) as Hdn.
  { intros i Hi. unfold new. rewrite lookup_take_lt, lookup_drop by lia.
    replace (Z.to_nat (readPosInFrame s) + Z.to_nat i)%nat with (Z.to_nat (readPosInFrame s + i)) by lia.
    rewrite Hdf by lia. f_equal. f_equal. lia. }
  clearbody new. set (s1 := set_readOffset _ _). change (readPosInFrame s1) with (readPosInFrame s + m). set (f1 := if negb _ then _ else _).
  assert (∀ r1, copied r1 = acc ++ new → placed s1 n r1 → (∀ dl, r1 ≠ RWait dl) → reading s1 f1 n r1 fs d) as Hres.
  { intros r1 Er1 Hp1 Hw. constructor; [by exists dq| | |done|done| |by intros dl ->; destruct (Hw dl)].
    - cbn in Hlen |- *. rewrite Er1, app_assoc, len_app, Hlen, Hnew. done.
    - cbn. rewrite Er1, app_assoc, <- Hnew. intros i Hi. eapply lookup_append; [exact Hlen|done|done|lia].
    - intros Hrr. change (resetRemotely s = false) in Hrr. unfold f1. change (resetRemotely s1) with (resetRemotely s).
      rewrite Hrr. cbn [negb]. etrans; [apply counted_read|]. change (streamID s1) with (streamID s). rewrite (Hc Hrr). cbn. by rewrite Er. }
  destruct (Z.leb_spec (len (Data frame)) (readPosInFrame s + m)); intros [= <- <- <- <-]; apply Hres; try done.
  - split; [done|]. cbn. rewrite len_app. split; lia.
  - split; [cbn; rewrite len_app; lia|]. right. destruct Hh as (h & Eh & Edh & Eoh & _). exists h. split; [done|]. cbn.
    rewrite Edh, <- Ho. lia.
Qed.

Lemma pop_reading s f n acc frame fs d b : reading s f n (RPop acc frame) fs d →
  ∃ q, (Pop (frameQueue s)).1 = q ∧ ∀ r', copied r' = acc → (r' = RLoop acc ∨ ∃ e, r' = RDone acc e) →
    reading (set_finishedReading b (set_frameQueue q s)) f n r' fs d.
Proof.
  intros [[dq Hq] Hlen Hd (Hh & Hpos & Hn) He Hc _]. pose proof Hh as (h & Eh & Edh & Eoh & _).
  destruct (held_place s fs dq frame Hq Hh) as (Ho & _). eexists. split; [done|]. intros r' Ecp Hr'.
  assert (Pop (frameQueue s) = ((Pop (frameQueue s)).1, Some h)) as Ep by (unfold Pop; by rewrite Eh).
  pose proof (refines_pop content total _ _ _ _ _ Hq Ep) as Hq'.
  destruct (Pop_inv content total _ _ _ (rf_inv _ _ _ _ _ Hq) Ep) as (_ & Er & _).
  assert (resting (set_finishedReading b (set_frameQueue (Pop (frameQueue s)).1 s))) as Hrest.
  { left. cbn. rewrite Er, Edh, <- Ho. done. }
  constructor; [by eexists|by rewrite Ecp|by rewrite Ecp| |done|done|].
  - destruct Hr' as [->|[e ->]]; (split; [done|done]).
  - intros dl ->. by destruct Hr' as [?|[? ?]].
Qed.

Lemma step_reading s f n r fs d now timer s' f' r' cbs : reading s f n r fs d → 0 <= n →
  readStep n now timer s f r = Some (s', f', r', cbs) → reading s' f' n r' fs d.
Proof.
  intros H Hn. destruct r as [|e|acc|dl|acc frame|acc frame|acc e|]; simpl; [| | | | | |done|done].
  - intros [= <- <- <- <-]. destruct H as [Hq Hlen Hd [_ Hp] He Hc _]. by constructor.
  - destruct H as [Hq Hlen Hd [_ Hp] He Hc _].
    repeat case_match; intros [= <- <- <- <-]; by constructor.
  - destruct (Z.ltb_spec (len acc) n) as [Hlt|Hge].
    + destruct (Head (frameQueue s)) as [frame|] eqn:Eh.
      * destruct (awaitFrame acc now s) as [s1 r1] eqn:Ea. intros [= <- <- <- <-].
        eapply await_reading; [exact H|done| |exact Ea]. by rewrite Eh.
      * destruct acc as [|x acc].
        { destruct (awaitFrame [] now s) as [s1 r1] eqn:Ea. intros [= <- <- <- <-]. by eapply await_reading. }
        intros [= <- <- <- <-]. destruct H as [Hq Hlen Hd Hp He Hc _]. by constructor.
    + intros [= <- <- <- <-]. destruct H as [Hq Hlen Hd Hp He Hc _]. by constructor.
  - assert (∀ b s1 r1, awaitFrame [] now (set_readChan b s) = (s1, r1) → reading s1 f n r1 fs d) as Hwake.
    { intros b s1 r1 Ea. destruct (wake_reading s f n dl fs d b H) as [H1 Hn1]. eapply await_reading; [exact H1| |done|exact Ea].
      unfold len. cbn. lia. }
    destruct timer.
    + destruct (negb (time.IsZero dl) && (dl <=? now)); [|done].
      destruct (awaitFrame [] now s) as [s1 r1] eqn:Ea. intros [= <- <- <- <-]. apply (Hwake (readChan s)). by destruct s.
    + destruct (readChan s); [|done]. destruct (awaitFrame [] now (set_readChan false s)) as [s1 r1] eqn:Ea.
      intros [= <- <- <- <-]. by apply (Hwake false).
  - intros [= E]. by eapply copy_reading.
  - destruct (FinBit frame); intros [= <- <- <- <-].
    + destruct (pop_reading s f n acc frame fs d true H) as (q & -> & Hr). apply Hr; [done|eauto].
    + destruct (pop_reading s f n acc frame fs d (finishedReading s) H) as (q & -> & Hr).
      specialize (Hr (RLoop acc) eq_refl ltac:(by left)). by destruct s.
Qed.

(** Nothing undoes a reset or a cancellation. *)
Lemma await_stopped acc now s : stopped (awaitFrame acc now s).1 = stopped s.
Proof. unfold awaitFrame. by repeat case_match. Qed.

Lemma step_stopped s f n r now timer s' f' r' cbs : readStep n now timer s f r = Some (s', f', r', cbs) →
  stopped s' = stopped s.
Proof.
  pose proof (λ acc, await_stopped acc now s) as Ha. pose proof (await_stopped [] now (set_readChan false s)) as Hb.
  change (stopped (set_readChan false s)) with (stopped s) in Hb.
  destruct r as [|e|acc|dl|acc frame|acc frame|acc e|]; cbn [readStep]; [by intros [= <-]| | | | | |done|done].
  - repeat case_match; by intros [= <-].
  - specialize (Ha acc). destruct (awaitFrame acc now s). repeat case_match; intros [= <- _ _ _]; done.
  - specialize (Ha []). destruct (awaitFrame [] now s), (awaitFrame [] now (set_readChan false s)).
    repeat case_match; try done; intros [= <- _ _ _]; done.
  - unfold copyFrame. repeat case_match; by intros [= <-].
  - case_match; by intros [= <-].
Qed.

Lemma frame_stopped frame s f s' f' e : AddStreamFrame frame s f = Ok (s', f', e) → stopped s' = stopped s.
Proof.
  unfold AddStreamFrame. destruct (flowControlManager.UpdateHighestReceived _ _ f) as [f1 [e1|]]; [by intros [= <- _ _]|].
  destruct (Push _ frame) as [[q e1]| |]; [|done|done]. cbn. case_bool_decide; by intros [= <- _ _].
Qed.

Lemma silent_stopped s : silent s = true → stopped s = true.
Proof. unfold silent. by intros [? _]%andb_true_iff. Qed.

Lemma read_run_cases q s f n r fs d : read_run q s f n r fs d →
  0 <= n ∧ if q then stopped s = true else reading s f n r fs d.
Proof.
  induction 1 as [id f Hf|q s f n n' acc e fs d _ [_ IH] Hn|q s f n r fs d now timer s' f' r' cbs _ [Hn IH] E
    |q s f n r fs d frame s' f' _ [Hn IH] Hl E|q s f n r fs d now s' _ [Hn IH] Ho|q s f n r fs d f' _ [Hn IH] Ef];
    (split; [done|]).
  - constructor; try done; [|by intros i ?; cbn in *; lia|by split; [done|left]].
    exists []. apply run_refines; [unfold MaxByteCount; lia|constructor].
  - destruct q; [done|]. destruct IH as [Hq Hlen Hd [_ Hp] He Hc _]. cbn in Hlen, Hd.
    constructor; try done; cbn; by rewrite ?app_nil_r.
  - destruct q; [by rewrite (step_stopped _ _ _ _ _ _ _ _ _ _ E)|]. by eapply step_reading.
  - destruct q; [by rewrite (frame_stopped _ _ _ _ _ _ E)|]. by eapply reading_frame.
  - pose proof (other_undisturbed _ _ _ Ho) as U. destruct q; [by apply (un_stopped _ _ U)|]. cbn [orb].
    destruct (silent s') eqn:Es; [by apply silent_stopped|]. by eapply reading_undisturbed.
  - destruct q; [done|]. destruct IH as [Hq Hlen Hd Hp He Hc Hw]. constructor; try done. by rewrite Ef.
Qed.

Lemma read_run_reading s f n r fs d : read_run false s f n r fs d → reading s f n r fs d ∧ 0 <= n.
Proof. intros [? ?]%read_run_cases. done. Qed.

Lemma placed_copied s n r : placed s n r → 0 <= n → len (copied r) <= n.
Proof.
  intros Hp Hn. destruct r as [| | | |acc frame|acc frame| |]; cbn [copied]; rewrite ?len_nil; try done.
  - by destruct Hp.
  - destruct Hp as (_ & _ & _ & ? & _). lia.
  - by destruct Hp as (_ & _ & ?).
  - by destruct Hp.
Qed.

(** The reader is not behind the end of the stream. *)
Lemma reading_end s f n r fs d : reading s f n r fs d → readOffset s <= total.
Proof.
  intros [[dq Hq] _ _ Hp _ _ _]. pose proof (si_read _ _ _ (rf_inv _ _ _ _ _ Hq)).
  assert (resting s → readOffset s <= total) as Hrest.
  { intros [<-|(h & Eh & ?)]; [lia|]. destruct (Head_spec content total _ _ (rf_inv _ _ _ _ _ Hq) Eh) as (_ & ? & _). lia. }
  destruct r as [| | | |? frame|? frame| |]; try (destruct Hp as [_ Hp]; by apply Hrest); [| |done].
  - destruct Hp as (Hh & ? & ? & _ & Hlt). destruct (held_place s fs dq frame Hq Hh) as (_ & _ & ? & _).
    destruct Hlt as [?|[? _]]; lia.
  - destruct Hp as (Hh & ? & _). destruct (held_place s fs dq frame Hq Hh) as (_ & _ & ? & _). lia.
Qed.

(** C11: what is read from a stream is what the peer sent. However the calls of Read are
    interleaved, step by step, with the arrival of frames in any order and with the
    other operations of the stream, as long as the stream is not reset or cancelled
    without an error (Reset(nil), which makes a call of Read that is under way panic or read from a
    wrong position): the bytes copied by all calls together are the
    beginning of the stream; the flow control manager has counted exactly them
    as read, unless the peer reset the stream; a call never copies more than its buffer
    holds, never slices a frame out of range and never panics. After a reset without an
    error, only the call that was under way is affected: every new call of Read returns at
    once, without data. *)
Theorem stream_reads_in_order q s f n r fs d : read_run q s f n r fs d →
  if q then ∀ n' now, Read n' now s f = (s, f, RDone [] (err s))
  else
    (∀ i, 0 <= i < readOffset s → (d ++ copied r) !! Z.to_nat i = Some (content i)) ∧
    len (d ++ copied r) = readOffset s ∧ readOffset s <= total ∧ len (copied r) <= n ∧
    (resetRemotely s = false → counted (streamID s) f = Some (readOffset s)) ∧
    r ≠ RPanic ∧ (∀ acc frame, r = RCopy acc frame → 0 <= readPosInFrame s <= len (Data frame)).
Proof.
  intros H. destruct (read_run_cases q s f n r fs d H) as [Hn Hr]. destruct q; [intros; by apply Read_stopped|].
  pose proof (reading_end _ _ _ _ _ _ Hr).
  destruct Hr as [_ Hlen Hd Hp He Hc _]. split; [done|]. split; [done|]. split; [done|]. split; [by eapply placed_copied|]. split; [done|].
  split; [by intros ->|]. intros acc frame ->. destruct Hp as (_ & ? & ? & _ & [?|[? _]]); lia.
Qed.

(** A call that waits without a signal: nothing can be read. *)
Lemma waiting_empty s f n dl fs d : reading s f n (RWait dl) fs d → readChan s = false →
  Head (frameQueue s) = None ∧ (readOffset s < total → ~ received fs (readOffset s)).
Proof.
  intros [[dq Hq] _ _ [_ Hp] _ _ Hw] Ec. destruct (Hw dl eq_refl) as [?|Eh]; [congruence|]. split; [done|]. intros Hlt Hrec.
  destruct Hp as [Er|(h & Eh' & _)]; [|congruence]. pose proof (si_read _ _ _ (rf_inv _ _ _ _ _ Hq)).
  destruct (Head_received content total _ (rf_inv _ _ _ _ _ Hq)) as (h & Eh' & _); [|congruence].
  rewrite (rf_gaps _ _ _ _ _ Hq) by (unfold MaxByteCount; lia). rewrite Er. tauto.
Qed.

(** No wake-up is lost. A call of Read that waits without a signal in its channel
    waits for data that has not arrived: as long as the end of the stream is not
    reached, the byte that it would read next is in no frame that was received. *)
Theorem reader_waits_for_data s f n dl fs d : read_run false s f n (RWait dl) fs d → readChan s = false →
  Head (frameQueue s) = None ∧ (readOffset s < total → ~ received fs (readOffset s)).
Proof. intros H Ec. destruct (read_run_reading s f n _ fs d H) as [H' _]. by eapply waiting_empty. Qed.

(** *** Termination of Read *)

(** A bound on the steps that are left. An empty frame at the head of the queue costs
    a round without a byte. *)
Definition head_empty (s : stream) : Z :=
  match Head (frameQueue s) with Some h => if len (Data h) =? 0 then 10 else 0 | None => 0 end.

Definition steps_left (n : Z) (s : stream) (r : reader) : Z :=
  match r with
  | RStart => 20 * n + head_empty s + 7
  | RFlags _ => 20 * n + head_empty s + 6
  | RLoop acc => 20 * (n - len acc) + head_empty s + 5
  | RWait _ => if readChan s then 20 * n + head_empty s + 4 else 0
  | RCopy acc _ => 20 * (n - len acc) + head_empty s + 3
  | RPop acc frame => 20 * (n - len acc) + 6 + (if len (Data frame) =? 0 then 0 else 10)
  | RDone _ _ | RPanic => 0
  end.

Lemma head_empty_bounds s : 0 <= head_empty s <= 10.
Proof. unfold head_empty. repeat case_match; lia. Qed.

Lemma await_decreases n s f acc fs d now s' r' : reading s f n (RLoop acc) fs d → len acc < n →
  (Head (frameQueue s) = None → acc = []) →
  awaitFrame acc now s = (s', r') → 
  steps_left n s' r' < 20 * (n - len acc) + head_empty s + 4 + (if readChan s then 1 else 0).
Proof.
  intros H Hn Hacc. pose proof (head_empty_bounds s). pose proof (rd_err _ _ _ _ _ _ H) as He. unfold awaitFrame. fold (stopped s).
  destruct (stopped s) eqn:Ec.
  { destruct (He eq_refl) as [e Ee]. rewrite Ee. intros [= <- <-]. cbn [steps_left]. case_match; lia. }
  destruct (negb (time.IsZero (readDeadline s)) && negb (time.Before now (readDeadline s))).
  { intros [= <- <-]. cbn [steps_left]. case_match; lia. }
  destruct (Head (frameQueue s)) as [frame|] eqn:Eh; intros [= <- <-].
  - cbn [steps_left]. change (head_empty (set_readPosInFrame _ s)) with (head_empty s).
    case_match; lia.
  - rewrite (Hacc eq_refl) in *. rewrite len_nil in *. cbn [steps_left]. destruct (readChan s); lia.
Qed.

Lemma steps_left_nonneg n s r : placed s n r → 0 <= n → 0 <= steps_left n s r.
Proof.
  intros Hp Hn. pose proof (placed_copied s n r Hp Hn) as Hl. pose proof (head_empty_bounds s). clear Hp.
  destruct r as [| | |dl| |acc frame| |]; cbn [steps_left copied] in *; try lia.
  - destruct (readChan s); lia.
  - destruct (len (Data frame) =? 0); lia.
Qed.

Lemma copy_decreases s f n acc frame fs d now s' f' r' cbs : reading s f n (RCopy acc frame) fs d →
  copyFrame n now acc frame s f = (s', f', r', cbs) → steps_left n s' r' < steps_left n s (RCopy acc frame).
Proof.
  intros [[dq Hq] _ _ (Hh & _ & Hge & Hn & Hlt) _ _ _].
  destruct (held_place s fs dq frame Hq Hh) as (_ & Ho0 & Hl & _). pose proof (len_nonneg (Data frame)).
  assert (i64 (DataLen frame) = len (Data frame)) as Edl by (unfold DataLen; zlia).
  unfold copyFrame. rewrite Edl. set (m := utils.Min (n - len acc) (len (Data frame) - readPosInFrame s)).
  assert (0 <= m ∧ m <= len (Data frame) - readPosInFrame s ∧ (readPosInFrame s < len (Data frame) → 0 < m)) as Hm.
  { unfold m, utils.Min. destruct (Z.ltb_spec (n - len acc) (len (Data frame) - readPosInFrame s)); lia. }
  clearbody m. destruct (Z.ltb_spec (len (Data frame)) (readPosInFrame s)); [lia|].
  destruct (Z.ltb_spec (readPosInFrame s) 0); [lia|]. cbv zeta.
  set (new := take (Z.to_nat m) (drop (Z.to_nat (readPosInFrame s)) (Data frame))).
  assert (len new = m) as Hnew by (unfold new; rewrite len_take, len_drop; lia). clearbody new.
  set (s1 := set_readOffset _ _). pose proof (head_empty_bounds s).
  assert (head_empty s1 = head_empty s) as Ehe by done.
  change (readPosInFrame s1) with (readPosInFrame s + m). clearbody s1.
  destruct (Z.leb_spec (len (Data frame)) (readPosInFrame s + m)); intros [= <- <- <- <-]; cbn [steps_left]; rewrite len_app, ?Ehe.
  - destruct Hlt as [?|[? E0]]; [case_match; lia|]. destruct Hh as (h & Eh & Edh & _).
    assert (head_empty s = 10) as -> by (unfold head_empty; by rewrite Eh, Edh, E0). rewrite E0. change (len (@nil Z) =? 0) with true. lia.
  - destruct Hlt as [?|[? _]]; lia.
Qed.

Lemma pop_head_empty s fs dq frame : refines content total (frameQueue s) fs dq → held s frame → Data frame = [] →
  head_empty (set_frameQueue (Pop (frameQueue s)).1 s) = 0.
Proof.
  intros Hq (h & Eh & Edh & _) E0. destruct (Head_spec content total _ _ (rf_inv _ _ _ _ _ Hq) Eh) as (Ho & _).
  pose proof (si_read _ _ _ (rf_inv _ _ _ _ _ Hq)). pose proof (si_total _ _ _ (rf_inv _ _ _ _ _ Hq)) as Hm. unfold MaxByteCount in Hm.
  unfold head_empty, Pop. rewrite Eh. cbn [set_frameQueue frameQueue fst]. unfold Head. cbn [queuedFrames readPosition]. rewrite Ho.
  replace (u64 (readPosition (frameQueue s) + DataLen h)) with (readPosition (frameQueue s)).
  - by rewrite lookup_delete_eq.
  - unfold DataLen. rewrite Edh, E0. change (len (@nil Z)) with 0. zlia.
Qed.

Lemma step_decreases n s f r fs d now s' f' r' cbs : reading s f n r fs d → 0 <= n →
  readStep n now false s f r = Some (s', f', r', cbs) → 0 <= steps_left n s' r' < steps_left n s r.
Proof.
  intros H Hn E. pose proof (step_reading _ _ _ _ _ _ _ _ _ _ _ _ H Hn E) as H'.
  split; [apply steps_left_nonneg; [apply (rd_placed _ _ _ _ _ _ H')|done]|]. clear H'. pose proof (head_empty_bounds s).
  destruct r as [|e|acc|dl|acc frame|acc frame|acc e|]; cbn [readStep] in E; [| | | | | |done|done].
  - injection E as <- <- <- <-. cbn [steps_left]. lia.
  - repeat case_match; injection E as <- <- <- <-; cbn [steps_left]; rewrite ?len_nil; lia.
  - destruct (Z.ltb_spec (len acc) n) as [Hlt|Hge]; [|injection E as <- <- <- <-; cbn [steps_left]; 
      pose proof (placed_copied _ _ _ (rd_placed _ _ _ _ _ _ H) Hn) as Hl; cbn [copied] in Hl; lia].
    assert (∀ s1 r1, awaitFrame acc now s = (s1, r1) → (Head (frameQueue s) = None → acc = []) →
      steps_left n s1 r1 < steps_left n s (RLoop acc)) as Haw.
    { intros s1 r1 Ea Hacc. pose proof (await_decreases n s f acc fs d now s1 r1 H Hlt Hacc Ea). cbn [steps_left].
      destruct (readChan s); lia. }
    destruct (Head (frameQueue s)) as [frame|] eqn:Eh.
    + destruct (awaitFrame acc now s) as [s1 r1] eqn:Ea. injection E as <- <- <- <-. by apply Haw.
    + destruct acc as [|x acc]; [|injection E as <- <- <- <-; cbn [steps_left]; lia].
      destruct (awaitFrame [] now s) as [s1 r1] eqn:Ea. injection E as <- <- <- <-. by apply Haw.
  - destruct (readChan s) eqn:Ec; [|done]. destruct (awaitFrame [] now (set_readChan false s)) as [s1 r1] eqn:Ea.
    injection E as <- <- <- <-. destruct (wake_reading s f n dl fs d false H) as [H1 Hn1].
    assert (len (@nil Z) < n) as Hl by (unfold len; cbn; lia).
    pose proof (await_decreases n _ f [] fs d now s1 r1 H1 Hl (λ _, eq_refl) Ea) as Hd. cbn [steps_left].
    rewrite Ec. change (readChan (set_readChan false s)) with false in Hd.
    change (head_empty (set_readChan false s)) with (head_empty s) in Hd. unfold len in Hd. cbn [length Z.of_nat] in Hd. lia.
  - injection E as E. by eapply copy_decreases.
  - destruct (rd_queue _ _ _ _ _ _ H) as [dq Hq]. destruct (rd_placed _ _ _ _ _ _ H) as (Hh & _ & Hl).
    destruct (FinBit frame); injection E as <- <- <- <-; cbn [steps_left]; [destruct (len (Data frame) =? 0); lia|].
    destruct (Z.eqb_spec (len (Data frame)) 0) as [E0%len_zero|].
    + rewrite (pop_head_empty s fs dq frame Hq Hh E0). lia.
    + pose proof (head_empty_bounds (set_frameQueue (Pop (frameQueue s)).1 s)). lia.
Qed.

Lemma readRun_ends fuel n now s f r fs d s' f' r' : read_run false s f n r fs d →
  steps_left n s r < Z.of_nat fuel → readRun fuel n now s f r = (s', f', r') →
  read_run false s' f' n r' fs d ∧ readStep n now false s' f' r' = None.
Proof.
  revert s f r. induction fuel as [|fuel IH]; intros s f r H Hf; cbn [readRun];
    destruct (read_run_reading _ _ _ _ _ _ H) as [Hr Hn].
  - pose proof (steps_left_nonneg n s r (rd_placed _ _ _ _ _ _ Hr) Hn). lia.
  - destruct (readStep n now false s f r) as [[[[s1 f1] r1] cbs]|] eqn:E; [|by intros [= <- <- <-]].
    destruct (step_decreases _ _ _ _ _ _ _ _ _ _ _ Hr Hn E). intros Er. refine (IH s1 f1 r1 _ _ Er); [by eapply rr_step|lia].
Qed.

(** A call on a stream that was silently reset. *)
Lemma Read_silent s f n now fs d s' f' r' : read_run true s f n RStart fs d → Read n now s f = (s', f', r') →
  read_run true s' f' n r' fs d ∧
    ((∃ acc' e', r' = RDone acc' e' ∧ len acc' <= n) ∨
     ∃ dl, r' = RWait dl ∧ Head (frameQueue s') = None ∧ (readOffset s' < total → ~ received fs (readOffset s'))).
Proof.
  intros H. destruct (read_run_cases _ _ _ _ _ _ _ H) as [Hn Hs]. rewrite Read_stopped by done. intros [= <- <- <-]. split.
  - eapply (rr_step true s f n (RFlags (err s)) fs d now false _ _ _ []).
    + by eapply (rr_step true s f n RStart fs d now false).
    + cbn. unfold stopped in Hs. by rewrite orb_comm, Hs.
  - left. exists [], (err s). split; [done|]. unfold len. cbn. lia.
Qed.

(** C38: Read terminates. A call of Read that is not disturbed ends after at most
    [20 * n + 20] steps: it returns at most [n] bytes, or it waits, and then only
    when there is nothing to read: no frame is queued at the position of the reader, and,
    before the end of the stream, the next byte has not arrived. *)
Theorem Read_terminates q s f n0 acc e fs d n now : read_run q s f n0 (RDone acc e) fs d → 0 <= n →
  ∃ s' f' r', Read n now s f = (s', f', r') ∧ read_run q s' f' n r' fs (d ++ acc) ∧
    ((∃ acc' e', r' = RDone acc' e' ∧ len acc' <= n) ∨
     ∃ dl, r' = RWait dl ∧ Head (frameQueue s') = None ∧ (readOffset s' < total → ~ received fs (readOffset s'))).
Proof.
  intros H Hn. destruct (Read n now s f) as [[s' f'] r'] eqn:E. exists s', f', r'. split; [done|].
  pose proof (rr_call _ _ _ _ n _ _ _ _ H Hn) as H0.
  destruct q; [by apply (Read_silent _ _ _ _ _ _ _ _ _ H0 E)|]. unfold Read in E.
  assert (steps_left n s RStart < Z.of_nat (20 * Z.to_nat n + 20)) as Hf.
  { cbn [steps_left]. pose proof (head_empty_bounds s). lia. }
  destruct (readRun_ends _ _ _ _ _ _ _ _ _ _ _ H0 Hf E) as [H1 Hnone].
  split; [done|]. destruct (read_run_reading _ _ _ _ _ _ H1) as [Hr _]. pose proof (rd_placed _ _ _ _ _ _ Hr) as Hp.
  destruct r' as [|?|acc'|dl|? ?|? frame|acc' e'|]; cbn [readStep] in Hnone; try done.
  - repeat case_match; done.
  - repeat case_match; done.
  - destruct (readChan s') eqn:Ec; [by destruct (awaitFrame _ _ _)|]. right. exists dl. split; [done|]. by eapply waiting_empty.
  - by destruct (FinBit frame).
  - left. exists acc', e'. split; [done|]. by eapply (placed_copied s' n (RDone acc' e')).
Qed.

End receiving.

(** ** The sending half *)

Section sending.
Import protocol StreamFrame streamFrameSorter stream.

(** A call of Write with the data [p] that begins to wait, the parts of the data that
    the framer takes, and control operations, in any order. [taken] are the bytes that
    have been taken since the call began. *)
Inductive write_run (p : list Z) : stream → writer → list Z → Prop :=
  | wr_start s now s' w cbs : resetLocally s = false → err s = None → finishedWriting s = false → p ≠ [] →
      Write p now s = (s', w, cbs) → write_run p s' w []
  | wr_take s w taken maxBytes : write_run p s w taken → 0 <= maxBytes →
      write_run p (getDataForWriting maxBytes s).1 w (taken ++ default [] (getDataForWriting maxBytes s).2)
  | wr_wake s w taken now timer s' w' : write_run p s w taken →
      writeWake (len p) now timer s w = Some (s', w') → write_run p s' w' taken
  | wr_control s w taken s' : write_run p s w taken → control s s' → write_run p s' w taken.

(** What the writer knows of the stream. *)
Record writing (p : list Z) (s : stream) (w : writer) (taken : list Z) : Prop := {
  wi_split : p = taken ++ default [] (dataForWriting s);
  wi_wait dl : w = WWait dl → writeChan s = true ∨ is_Some (dataForWriting s) ∧ err s = None;
  wi_done n : w = WDone n None → n = len p ∧ dataForWriting s = None;
  wi_error n e : w = WDone n (Some e) → n = 0 ∧ e = errDeadline ∨ n = len taken ∧ err s = Some e;
}.

Lemma control_sending s s' : control s s' → dataForWriting s' = dataForWriting s ∧ writeOffset s' = writeOffset s ∧
  (writeChan s = true → writeChan s' = true) ∧ (∀ e, err s = Some e → err s' = Some e) ∧
  (err s = None → err s' = None ∨ writeChan s' = true).
Proof.
  intros [| |t|t|e|e|e].
  - cbn. eauto 10.
  - cbn. eauto 10.
  - unfold SetReadDeadline. case_match; cbn; eauto 10.
  - unfold SetWriteDeadline. case_match; cbn; eauto 10.
  - unfold Cancel. cbn. destruct (err s) eqn:Ee; cbn; rewrite ?Ee; naive_solver.
  - unfold Reset, maybeSendReset. destruct (resetLocally s) eqn:El; [cbn; eauto 10|]. cbn. destruct (err s) eqn:Ee; case_match; cbn; rewrite ?Ee; naive_solver.
  - unfold RegisterRemoteError, maybeSendReset. destruct (resetRemotely s) eqn:El; [cbn; eauto 10|]. cbn.
    destruct (err s) eqn:Ee; case_match; cbn; rewrite ?Ee; naive_solver.
Qed.

Lemma await_writing p s taken now : p = taken ++ default [] (dataForWriting s) → writing p s (awaitWritten (len p) now s) taken.
Proof.
  intros Hs. unfold awaitWritten. destruct (_ && _); [constructor; intros; naive_solver|].
  destruct (dataForWriting s) as [data|] eqn:Ed, (err s) as [e|] eqn:Ee; constructor; intros; simplify_eq/=; rewrite ?Ed; try done; eauto.
  - right. split; [|done]. rewrite len_app. lia.
  - right. split; [|done]. rewrite app_nil_r. unfold len at 2. cbn. lia.
Qed.

Lemma take_writing p s w taken maxBytes : writing p s w taken →
  writing p (getDataForWriting maxBytes s).1 w (taken ++ default [] (getDataForWriting maxBytes s).2).
Proof.
  intros [Hs Hw Hd He]. unfold getDataForWriting. destruct (err s) as [e|] eqn:Ee; [by constructor; cbn; rewrite ?app_nil_r, ?Ee|].
  destruct (dataForWriting s) as [data|] eqn:Ed; [|by constructor; cbn; rewrite ?app_nil_r, ?Ed, ?Ee].
  destruct (maxBytes <? u64 (len data)); constructor; cbn in *.
  - rewrite <- app_assoc, take_drop. done.
  - intros dl E. right. split; [by eexists|done].
  - intros n E. by destruct (Hd n E).
  - intros n e E. destruct (He n e E) as [?|[_ ?]]; [by left|done].
  - by rewrite app_nil_r.
  - by left.
  - intros n E. by destruct (Hd n E).
  - intros n e E. destruct (He n e E) as [?|[_ ?]]; [by left|done].
Qed.

Lemma write_run_writing p s w taken : write_run p s w taken → writing p s w taken.
Proof.
  induction 1 as [s now s' w cbs Hr He Hf Hp E|s w taken mb _ IH Hmb|s w taken now timer s' w' _ IH E|s w taken s' _ IH Hc].
  - unfold Write in E. rewrite Hr, He, Hf in E. cbn in E. destruct (Z.eqb_spec (len p) 0) as [E0%len_zero|]; [done|].
    injection E as <- <- <-. by apply await_writing.
  - by apply take_writing.
  - unfold writeWake in E. destruct w as [dl|]; [|done]. pose proof (wi_split _ _ _ _ IH) as Hs.
    destruct timer; [|destruct (writeChan s); [|done]]; [destruct (_ && _); [|done]|]; injection E as <- <-; by apply await_writing.
  - destruct (control_sending s s' Hc) as (Ed & _ & Hch & Her & Hen). destruct IH as [Hs Hw Hd He].
    constructor; rewrite ?Ed; [done| |done|].
    + intros dl E. destruct (Hw dl E) as [?|[? En]]; [auto|]. destruct (Hen En); auto.
    + intros n e E. destruct (He n e E) as [?|[? ?]]; [by left|right; auto].
Qed.

(** C28: what is written is what is sent. While a call of Write is under way, the bytes
    that the framer has taken and the bytes that wait are together the data of the
    call; when it returns without an error all bytes have been taken, in their order, and the
    result is their number; with the error of the stream, the result is the number of
    bytes that were taken; only with the error of the deadline the result is 0 whatever was
    taken. A call that waits without a signal in its channel waits for bytes that
    have not been taken, on a stream without an error. *)
Theorem write_takes_all p s w taken : write_run p s w taken →
  p = taken ++ default [] (dataForWriting s) ∧
  match w with
  | WDone n None => n = len p ∧ taken = p
  | WDone n (Some e) => n = 0 ∧ e = errDeadline ∨ n = len taken ∧ err s = Some e
  | WWait _ => writeChan s = false → is_Some (dataForWriting s) ∧ err s = None
  end.
Proof.
  intros [Hs Hw Hd He]%write_run_writing. split; [done|]. destruct w as [dl|n [e|]].
  - intros Hc. destruct (Hw dl eq_refl); [congruence|done].
  - by apply He.
  - destruct (Hd n eq_refl) as [? E]. split; [done|]. rewrite E in Hs. cbn in Hs. by rewrite app_nil_r in Hs.
Qed.

End sending.

(** ** Resets and waiting readers *)

Section resets.
Import protocol StreamFrame streamFrameSorter stream.
Import flowControlManager (flowControlManager).

Lemma control_after_error s s' : control s s' → is_Some (err s) → readDeadline s' = readDeadline s →
  readChan s' = readChan s ∧ err s' = err s.
Proof.
  intros Hc [e0 Ee]. destruct Hc as [| |t|t|e|e|e].
  - done.
  - done.
  - unfold SetReadDeadline. case_match eqn:E; cbn; [|done]. intros ->. unfold time.Before in E. lia.
  - unfold SetWriteDeadline. by case_match.
  - unfold Cancel. cbn. by rewrite Ee.
  - unfold Reset, maybeSendReset. destruct (resetLocally s); [done|]. cbn. rewrite Ee. by case_match.
  - unfold RegisterRemoteError, maybeSendReset. destruct (resetRemotely s); [done|]. cbn. rewrite Ee. by case_match.
Qed.

(** A RST_STREAM frame strands a waiting reader. When the peer resets a stream on
    which a call of Read waits without a deadline, the call is not woken, and no
    later operation wakes it: neither a reset or a cancellation of the stream nor
    anything else but a change of the deadline. The stream counts as finished (its RST_STREAM is
    sent), so the session removes it and delivers no more frames to it. *)
Theorem remote_reset_strands_reader e s s' f n now timer : err s = None → readChan s = false →
  rstSent s = false → resetRemotely s = false → finishedWriteAndSentFin s = false →
  rtc (λ s1 s2, control s1 s2 ∧ readDeadline s2 = readDeadline s1) (RegisterRemoteError (Some e) s).1 s' →
  finished (RegisterRemoteError (Some e) s).1 = true ∧ readStep n now timer s' f (RWait time.zero) = None.
Proof.
  intros Ee Ec Er Err Ef Hrtc.
  assert (∃ cbs, RegisterRemoteError (Some e) s =
    (set_rstSent true (signalWrite (set_err (Some e) (set_ctxDone true (set_resetRemotely true s)))), cbs)) as [cbs E].
  { unfold RegisterRemoteError. rewrite Err. cbn [err set_ctxDone set_resetRemotely]. rewrite Ee. unfold maybeSendReset, shouldSendReset.
    unfold finishedWriteAndSentFin in *. cbn. rewrite Er, Ef. cbn. rewrite orb_true_r. cbn. eauto. }
  rewrite E in *. cbn [fst] in *. split.
  - unfold finished. cbn. by rewrite !orb_true_r.
  - assert (readChan s' = false ∧ is_Some (err s')) as [Hc _].
    { remember (set_rstSent _ _) as s0 eqn:E0. assert (readChan s0 = false ∧ is_Some (err s0)) as H0 by (rewrite E0; cbn; eauto).
      clear -Hrtc H0. induction Hrtc as [|s0 s1 s2 [Hc Hd] _ IH]; [done|]. apply IH. destruct H0 as [H1 H2].
      destruct (control_after_error s0 s1 Hc H2 Hd) as [-> ->]. done. }
    cbn. rewrite Hc. by destruct timer.
Qed.

End resets.

(** ** Concrete runs *)
Module StreamExamples.
Import protocol StreamFrame streamFrameSorter stream.
Import SorterExamples (content, frame, legit_frame).
Import FlowExamples (f0).

(** Stream 5, on which the first four of ten bytes have arrived. *)
Definition s4 : stream := set_frameQueue (MkSorter {[0 := frame 0 4 false]} 0 [MkByteInterval 4 MaxByteCount])
  (signalRead (newStream 5)).
Definition f4 : flowControlManager.flowControlManager := (flowControlManager.UpdateHighestReceived 5 4 f0).1.

Lemma run_s4 : read_run content 10 false s4 f4 0 (RDone [] None) [frame 0 4 false] [].
Proof.
  apply (rr_frame content 10 false (newStream 5) f0 0 (RDone [] None) [] [] (frame 0 4 false)).
  - constructor. by vm_compute.
  - apply legit_frame; done || lia.
  - vm_compute. reflexivity.
Qed.

(** Three of them are read, and then the fourth. *)
Definition after3 := Read 3 1000 s4 f4.
Definition after4 := Read 3 1000 after3.1.1 after3.1.2.

Lemma readRun_run fuel q n now s f r fs d : read_run content 10 q s f n r fs d →
  read_run content 10 q (readRun fuel n now s f r).1.1 (readRun fuel n now s f r).1.2 n (readRun fuel n now s f r).2 fs d.
Proof.
  revert s f r. induction fuel as [|fuel IH]; intros s f r H; cbn [readRun]; [done|].
  destruct (readStep n now false s f r) as [[[[s1 f1] r1] cbs]|] eqn:E; [|done]. apply IH. by eapply rr_step.
Qed.

Lemma run_after3 : read_run content 10 false after3.1.1 after3.1.2 3 (RDone [10; 11; 12] None) [frame 0 4 false] [].
Proof.
  assert (after3.2 = RDone [10; 11; 12] None) as <- by by vm_compute. apply readRun_run.
  apply (rr_call content 10 false s4 f4 0 3 [] None [frame 0 4 false] []); [apply run_s4|lia].
Qed.

Lemma stream_reads_in_order_witness : readOffset after3.1.1 = 3 ∧ ([] ++ [10; 11; 12]) !! Z.to_nat 2 = Some (content 2).
Proof.
  destruct (stream_reads_in_order content 10 ltac:(lia) _ _ _ _ _ _ _ run_after3) as (H & _).
  split; [by vm_compute|]. apply (H 2). by vm_compute.
Defined.

Lemma Read_terminates_witness : ∃ s' f' r', Read 3 1000 after3.1.1 after3.1.2 = (s', f', r').
Proof.
  destruct (Read_terminates content 10 ltac:(lia) _ _ _ _ _ _ _ _ 3 1000 run_after3 ltac:(lia)) as (s' & f' & r' & E & _).
  exists s', f', r'. exact E.
Defined.

(** The next call returns the fourth byte, and the call after it waits. *)
Definition after5 := Read 3 1000 after4.1.1 after4.1.2.
Definition after6 := readRun 40 3 1000 (set_readChan false after5.1.1) after5.1.2 after5.2.

Lemma run_after5 : read_run content 10 false after5.1.1 after5.1.2 3 (RWait 0) [frame 0 4 false] [10; 11; 12; 13].
Proof.
  assert (after5.2 = RWait 0) as <- by by vm_compute. apply readRun_run.
  apply (rr_call content 10 false after4.1.1 after4.1.2 3 3 [13] None [frame 0 4 false] [10; 11; 12]); [|lia].
  assert (after4.2 = RDone [13] None) as <- by by vm_compute. apply readRun_run.
  apply (rr_call content 10 false after3.1.1 after3.1.2 3 3 [10; 11; 12] None [frame 0 4 false] []); [apply run_after3|lia].
Qed.

Lemma reader_waits_for_data_witness : readChan after5.1.1 = false ∧ Head (frameQueue after5.1.1) = None.
Proof.
  assert (readChan after5.1.1 = false) as Hc by by vm_compute. split; [exact Hc|].
  destruct (reader_waits_for_data content 10 ltac:(lia) _ _ _ _ _ _ run_after5 Hc) as [H _]. exact H.
Defined.

Lemma write_takes_all_witness : [7; 8; 9] = [7; 8] ++ [9].
Proof.
  destruct (write_takes_all [7; 8; 9] (getDataForWriting 2 (Write [7; 8; 9] 1000 (newStream 5)).1.1).1 (WWait 0) [7; 8]) as [H _].
  - apply (wr_take [7; 8; 9] (Write [7; 8; 9] 1000 (newStream 5)).1.1 (WWait 0) [] 2); [|lia].
    by apply (wr_start [7; 8; 9] (newStream 5) 1000 _ _ [OnData]).
  - exact H.
Defined.

Lemma remote_reset_strands_reader_witness : finished (RegisterRemoteError (Some EOF) after5.1.1).1 = true.
Proof.
  destruct (remote_reset_strands_reader EOF after5.1.1 (Cancel (Some EOF) (RegisterRemoteError (Some EOF) after5.1.1).1) f4 3 2000 false) as [H _].
  1-5: by vm_compute.
  - apply rtc_once. split; [apply control_cancel|by vm_compute].
  - exact H.
Defined.

(** A reset without an error, as the HTTP/2 server calls it, wakes a call of Read that
    waits, which then uses a frame that does not exist. *)
Example reset_without_error_panics :
  let s := (Reset None after5.1.1).1 in
  option_map (λ x, x.1.2) (readStep 3 1000 false s f4 (RWait 0)) = Some RPanic.
Proof. by vm_compute. Qed.

(** A call of Write whose deadline passes returns 0 although a part of its data was
    taken, and the data of the next call replaces the rest. *)
Example write_deadline_loses_data :
  let s0 := SetWriteDeadline 1500 (newStream 5) in
  let '(s1, w1, _) := Write [7; 8; 9] 1000 s0 in
  let '(s2, d2) := getDataForWriting 2 s1 in
  let '(s3, w3) := default (s2, w1) (writeWake 3 2000 true s2 w1) in
  let '(s4, _, _) := Write [1] 2000 s3 in
  w1 = WWait 1500 ∧ d2 = Some [7; 8] ∧ w3 = WDone 0 (Some errDeadline) ∧ dataForWriting s4 = Some [1].
Proof. by vm_compute. Qed.

End StreamExamples.
