(* ===== verification/StreamsMap.v ===== *)
(** * The streams of a session

    [streams_map.go]: which streams are open, opening them from either side,
    accepting, removing and iterating over them; and what [session.go] does to streams:
    making a stream, dispatching STREAM, WINDOW_UPDATE and RST_STREAM frames and
    collecting finished streams.

    The map from identifiers to streams holds pointers; the model updates the stream in
    the map. Methods run under the mutex of the map; a method that waits for a
    condition variable returns None where it would wait, and is called again. Streams in
    the map are never nil, [putStream] would panic before. *)

From S2P Require Import Prelude Protocol ByteOrder AckFrames Frames GoFloat FlowControl FrameSorter Stream.

(** What the map reads of the connection parameters. *)
Record StreamLimits := MkLimits { GetMaxOutgoingStreams : Z; GetMaxIncomingStreams : Z }.

(** ** streams_map.go *)
Module streamsMap.
Import protocol.
Import stream (stream).
Import flowControlManager (flowControlManager).

Definition errMapAccess : error := NewError "streamsMap: Error accessing the streams map".
Definition errExists : error := NewError "a stream with this ID already exists".
Definition errNonExisting : error := NewError "attempted to remove non-existing stream".

Record streamsMap := MkStreamsMap {
  perspective : Perspective;
  streams : gmap Z stream;
  openStreams : list Z;
  roundRobinIndex : Z;
  nextStream : Z;
  highestStreamOpenedByPeer : Z;
  closeErr : option error;
  nextStreamToAccept : Z;
  numOutgoingStreams : Z;
  numIncomingStreams : Z;
}.

Definition set_streams (v : gmap Z stream) (m : streamsMap) : streamsMap :=
  MkStreamsMap (perspective m) v (openStreams m) (roundRobinIndex m) (nextStream m)
    (highestStreamOpenedByPeer m) (closeErr m) (nextStreamToAccept m) (numOutgoingStreams m)
    (numIncomingStreams m).
Definition set_openStreams (v : list Z) (m : streamsMap) : streamsMap :=
  MkStreamsMap (perspective m) (streams m) v (roundRobinIndex m) (nextStream m)
    (highestStreamOpenedByPeer m) (closeErr m) (nextStreamToAccept m) (numOutgoingStreams m)
    (numIncomingStreams m).
Definition set_roundRobinIndex (v : Z) (m : streamsMap) : streamsMap :=
  MkStreamsMap (perspective m) (streams m) (openStreams m) v (nextStream m)
    (highestStreamOpenedByPeer m) (closeErr m) (nextStreamToAccept m) (numOutgoingStreams m)
    (numIncomingStreams m).
Definition set_nextStream (v : Z) (m : streamsMap) : streamsMap :=
  MkStreamsMap (perspective m) (streams m) (openStreams m) (roundRobinIndex m) v
    (highestStreamOpenedByPeer m) (closeErr m) (nextStreamToAccept m) (numOutgoingStreams m)
    (numIncomingStreams m).
Definition set_highestStreamOpenedByPeer (v : Z) (m : streamsMap) : streamsMap :=
  MkStreamsMap (perspective m) (streams m) (openStreams m) (roundRobinIndex m) (nextStream m) v
    (closeErr m) (nextStreamToAccept m) (numOutgoingStreams m) (numIncomingStreams m).
Definition set_closeErr (v : option error) (m : streamsMap) : streamsMap :=
  MkStreamsMap (perspective m) (streams m) (openStreams m) (roundRobinIndex m) (nextStream m)
    (highestStreamOpenedByPeer m) v (nextStreamToAccept m) (numOutgoingStreams m)
    (numIncomingStreams m).
Definition set_nextStreamToAccept (v : Z) (m : streamsMap) : streamsMap :=
  MkStreamsMap (perspective m) (streams m) (openStreams m) (roundRobinIndex m) (nextStream m)
    (highestStreamOpenedByPeer m) (closeErr m) v (numOutgoingStreams m) (numIncomingStreams m).
Definition set_numOutgoingStreams (v : Z) (m : streamsMap) : streamsMap :=
  MkStreamsMap (perspective m) (streams m) (openStreams m) (roundRobinIndex m) (nextStream m)
    (highestStreamOpenedByPeer m) (closeErr m) (nextStreamToAccept m) v (numIncomingStreams m).
Definition set_numIncomingStreams (v : Z) (m : streamsMap) : streamsMap :=
  MkStreamsMap (perspective m) (streams m) (openStreams m) (roundRobinIndex m) (nextStream m)
    (highestStreamOpenedByPeer m) (closeErr m) (nextStreamToAccept m) (numOutgoingStreams m) v.

Definition newStreamsMap (pers : Perspective) : streamsMap :=
  match pers with
  | PerspectiveClient => MkStreamsMap pers ∅ [] 0 1 0 None 2 0 0
  | PerspectiveServer => MkStreamsMap pers ∅ [] 0 2 0 None 1 0 0
  end.

(** session.newStream, which the map is given to make a stream: streams 1 and 3 do not
    contribute to the flow control of the connection. *)
Definition newStream (cp : ConnectionParameters) (id : Z) (f : flowControlManager) : stream * flowControlManager :=
  if (id =? 1) || (id =? 3) then (stream.newStream id, flowControlManager.NewStream cp id false f)
  else (stream.newStream id, flowControlManager.NewStream cp id true f).

Definition putStream (s : stream) (m : streamsMap) : streamsMap * option error :=
  let id := stream.streamID s in
  match streams m !! id with
  | Some _ => (m, Some errExists)
  | None => (set_openStreams (openStreams m ++ [id]) (set_streams (<[id := s]> (streams m)) m), None)
  end.

(** *** Opening *)

Section opening.
Context (cp : ConnectionParameters) (lim : StreamLimits).

Definition openRemoteStream (id : Z) (m : streamsMap) (f : flowControlManager) :
    streamsMap * flowControlManager * option error :=
  if GetMaxIncomingStreams lim <=? numIncomingStreams m then (m, f, Some (qerr.Error qerr.TooManyOpenStreams))
  else if u32 (id + MaxNewStreamIDDelta) <? highestStreamOpenedByPeer m
  then (m, f, Some (qerr.Error qerr.InvalidStreamID))
  else
    let m := if decide (perspective m = PerspectiveServer)
             then set_numIncomingStreams (u32 (numIncomingStreams m + 1)) m
             else set_numOutgoingStreams (u32 (numOutgoingStreams m + 1)) m in
    let m := if highestStreamOpenedByPeer m <? id then set_highestStreamOpenedByPeer id m else m in
    let '(s, f) := newStream cp id f in
    ((putStream s m).1, f, None).

(** The loop that opens the streams from [sid] to [id]. *)
Fixpoint openLoop (fuel : nat) (sid id : Z) (m : streamsMap) (f : flowControlManager) :
    streamsMap * flowControlManager * option error :=
  match fuel with
  | O => (m, f, None)
  | S fuel =>
      if sid <=? id then
        let '(m, f, e) := openRemoteStream sid m f in
        match e with
        | Some _ => (m, f, e)
        | None => openLoop fuel (u32 (sid + 2)) id m f
        end
      else (m, f, None)
  end.

(** The checks on a stream that is not open: [Some] is the result of the call, None
    says that the stream is to be opened. *)
Definition notOpen (id : Z) (m : streamsMap) : option (option stream + error) :=
  match perspective m with
  | PerspectiveServer =>
      if id mod 2 =? 0 then
        if id <=? nextStream m then Some (inl None) else Some (inr (qerr.Error qerr.InvalidStreamID))
      else if id <=? highestStreamOpenedByPeer m then Some (inl None) else None
  | PerspectiveClient =>
      if id mod 2 =? 1 then
        if id <=? nextStream m then Some (inl None) else Some (inr (qerr.Error qerr.InvalidStreamID))
      else if id <=? highestStreamOpenedByPeer m then Some (inl None) else None
  end.

(** The identifier of the next stream that the peer opens. *)
Definition nextRemote (m : streamsMap) : Z :=
  let sid := u32 (highestStreamOpenedByPeer m + 2) in
  if (sid =? 2) && bool_decide (perspective m = PerspectiveServer) then 1 else sid.

(** [inl None] is the nil stream: the stream is closed. The fuel is one more than the number
    of streams between the first one and [id]. *)
Definition GetOrOpenStream (id : Z) (m : streamsMap) (f : flowControlManager) :
    streamsMap * flowControlManager * (option stream + error) :=
  match streams m !! id with
  | Some s => (m, f, inl (Some s))
  | None =>
      match notOpen id m with
      | Some r => (m, f, r)
      | None =>
          let sid := nextRemote m in
          let '(m, f, e) := openLoop (Z.to_nat ((id - sid) / 2 + 2)) sid id m f in
          match e with
          | Some e => (m, f, inr e)
          | None => (m, f, inl (streams m !! id))
          end
      end
  end.

Definition openStreamImpl (m : streamsMap) (f : flowControlManager) :
    streamsMap * flowControlManager * (stream + error) :=
  let id := nextStream m in
  if GetMaxOutgoingStreams lim <=? numOutgoingStreams m then (m, f, inr (qerr.Error qerr.TooManyOpenStreams))
  else
    let m := if decide (perspective m = PerspectiveServer)
             then set_numOutgoingStreams (u32 (numOutgoingStreams m + 1)) m
             else set_numIncomingStreams (u32 (numIncomingStreams m + 1)) m in
    let m := set_nextStream (u32 (nextStream m + 2)) m in
    let '(s, f) := newStream cp id f in
    ((putStream s m).1, f, inl s).

Definition OpenStream (m : streamsMap) (f : flowControlManager) : streamsMap * flowControlManager * (stream + error) :=
  match closeErr m with
  | Some e => (m, f, inr e)
  | None => openStreamImpl m f
  end.

(** One round of the loop; None: the call waits. *)
Definition OpenStreamSync (m : streamsMap) (f : flowControlManager) :
    streamsMap * flowControlManager * option (stream + error) :=
  match closeErr m with
  | Some e => (m, f, Some (inr e))
  | None =>
      let '(m, f, r) := openStreamImpl m f in
      match r with
      | inl s => (m, f, Some (inl s))
      | inr e => if decide (e = qerr.Error qerr.TooManyOpenStreams) then (m, f, None) else (m, f, Some (inr e))
      end
  end.

End opening.

(** One round of the loop; None: the call waits. *)
Definition AcceptStream (m : streamsMap) : streamsMap * option (stream + error) :=
  match closeErr m with
  | Some e => (m, Some (inr e))
  | None =>
      match streams m !! nextStreamToAccept m with
      | Some s => (set_nextStreamToAccept (u32 (nextStreamToAccept m + 2)) m, Some (inl s))
      | None => (m, None)
      end
  end.

(** *** Iterating *)

(** A function that is called on a stream can change the stream and other parts of the
    program: the state is the map and a rest of type [X]. It returns whether to
    continue and an error. *)
Section iterating.
Context {X : Type} (fn : stream → streamsMap * X → (streamsMap * X) * (bool * option error)).

Definition iterateFunc (streamID : Z) (x : streamsMap * X) : (streamsMap * X) * (bool * option error) :=
  match streams x.1 !! streamID with
  | None => (x, (true, Some errMapAccess))
  | Some str => fn str x
  end.

(** The loop over a copy of the identifiers. *)
Fixpoint iterateLoop (ids : list Z) (x : streamsMap * X) : (streamsMap * X) * option error :=
  match ids with
  | [] => (x, None)
  | streamID :: ids =>
      let '(x, (cont, e)) := iterateFunc streamID x in
      match e with
      | Some _ => (x, e)
      | None => if cont then iterateLoop ids x else (x, None)
      end
  end.

Definition Iterate (x : streamsMap * X) : (streamsMap * X) * option error := iterateLoop (openStreams x.1) x.

(** The crypto and the header stream first: None says that the iteration goes on. *)
Fixpoint priorityLoop (ids : list Z) (x : streamsMap * X) : (streamsMap * X) * option (option error) :=
  match ids with
  | [] => (x, None)
  | i :: ids =>
      let '(x, (cont, e)) := iterateFunc i x in
      if bool_decide (e ≠ None ∧ e ≠ Some errMapAccess) then (x, Some e)
      else if cont then priorityLoop ids x else (x, Some None)
  end.

(** The loop over the open streams, [n] rounds from the counter [i] on. *)
Fixpoint roundRobinLoop (n : nat) (i startIndex numStreams : Z) (x : streamsMap * X) :
    outcome ((streamsMap * X) * option error) :=
  match n with
  | O => Ok (x, None)
  | S n =>
      match openStreams x.1 !! Z.to_nat (u32 (i + startIndex) mod numStreams) with
      | None => Panic
      | Some streamID =>
          if (streamID =? 1) || (streamID =? 3) then roundRobinLoop n (u32 (i + 1)) startIndex numStreams x
          else
            let '(x, (cont, e)) := iterateFunc streamID x in
            match e with
            | Some _ => Ok (x, e)
            | None =>
                let x := (set_roundRobinIndex (u32 (roundRobinIndex x.1 + 1) mod numStreams) x.1, x.2) in
                if cont then roundRobinLoop n (u32 (i + 1)) startIndex numStreams x else Ok (x, None)
            end
      end
  end.

Definition RoundRobinIterate (x : streamsMap * X) : outcome ((streamsMap * X) * option error) :=
  let numStreams := u32 (Z.of_nat (size (streams x.1))) in
  let startIndex := roundRobinIndex x.1 in
  let '(x, stop) := priorityLoop [1; 3] x in
  match stop with
  | Some e => Ok (x, e)
  | None => roundRobinLoop (Z.to_nat numStreams) 0 startIndex numStreams x
  end.

End iterating.

(** *** Removing and closing *)

(** The position of [id] in a list, and the list without it. *)
Fixpoint removeID (id : Z) (l : list Z) : option (Z * list Z) :=
  match l with
  | [] => None
  | s :: l =>
      if s =? id then Some (0, l)
      else match removeID id l with Some (i, l) => Some (i + 1, s :: l) | None => None end
  end.

Definition RemoveStream (id : Z) (m : streamsMap) : streamsMap * option error :=
  match streams m !! id with
  | None => (m, Some errNonExisting)
  | Some _ =>
      let m := if id mod 2 =? 0 then set_numOutgoingStreams (u32 (numOutgoingStreams m - 1)) m
               else set_numIncomingStreams (u32 (numIncomingStreams m - 1)) m in
      let m := match removeID id (openStreams m) with
               | None => m
               | Some (i, l) =>
                   let m := set_openStreams l m in
                   if u32 i <? roundRobinIndex m then set_roundRobinIndex (u32 (roundRobinIndex m - 1)) m else m
               end in
      (set_streams (delete id (streams m)) m, None)
  end.

Fixpoint cancelLoop (e : option error) (ids : list Z) (m : streamsMap) : outcome streamsMap :=
  match ids with
  | [] => Ok m
  | id :: ids =>
      match streams m !! id with
      | None => Panic
      | Some s => cancelLoop e ids (set_streams (<[id := stream.Cancel e s]> (streams m)) m)
      end
  end.

Definition CloseWithError (e : option error) (m : streamsMap) : outcome streamsMap :=
  let m := set_closeErr e m in
  cancelLoop e (openStreams m) m.

End streamsMap.

(** ** session.go: the operations on streams *)
Module session_streams.
Import protocol streamsMap.
Import stream (stream).
Import flowControlManager (flowControlManager).

Definition errRstStreamOnInvalidStream : error := NewError "RST_STREAM received for unknown stream".
Definition errWindowUpdateOnClosedStream : error := NewError "WINDOW_UPDATE received for an already closed stream".

Definition setStream (s : stream) (m : streamsMap) : streamsMap :=
  set_streams (<[stream.streamID s := s]> (streams m)) m.

Section handlers.
Context (cp : ConnectionParameters) (lim : StreamLimits).

Definition handleStreamFrame (frame : StreamFrame.StreamFrame) (m : streamsMap) (f : flowControlManager) :
    outcome (streamsMap * flowControlManager * option error) :=
  let '(m, f, r) := GetOrOpenStream cp lim (StreamFrame.StreamID frame) m f in
  match r with
  | inr e => Ok (m, f, Some e)
  | inl None => Ok (m, f, None)
  | inl (Some str) =>
      '(str, f, e) ← stream.AddStreamFrame frame str f;
      Ok (setStream str m, f, e)
  end.

Definition handleWindowUpdateFrame (streamID byteOffset : Z) (m : streamsMap) (f : flowControlManager) :
    streamsMap * flowControlManager * option error :=
  let update (m : streamsMap) (f : flowControlManager) :=
    let '(f, r) := flowControlManager.UpdateWindow streamID byteOffset f in
    (m, f, match r with inl _ => None | inr e => Some e end) in
  if negb (streamID =? 0) then
    let '(m, f, r) := GetOrOpenStream cp lim streamID m f in
    match r with
    | inr e => (m, f, Some e)
    | inl None => (m, f, Some errWindowUpdateOnClosedStream)
    | inl (Some _) => update m f
    end
  else update m f.

(** The RST_STREAM frame that the stream queues in turn is returned. *)
Definition handleRstStreamFrame (streamID byteOffset : Z) (rstErr : error) (m : streamsMap) (f : flowControlManager) :
    streamsMap * flowControlManager * list stream.callback * option error :=
  let '(m, f, r) := GetOrOpenStream cp lim streamID m f in
  match r with
  | inr e => (m, f, [], Some e)
  | inl None => (m, f, [], Some errRstStreamOnInvalidStream)
  | inl (Some str) =>
      let '(str, cbs) := stream.RegisterRemoteError (Some rstErr) str in
      let '(f, e) := flowControlManager.ResetStream streamID byteOffset f in
      (setStream str m, f, cbs, e)
  end.

End handlers.

Definition collectStream (str : stream) (x : streamsMap * flowControlManager) :
    (streamsMap * flowControlManager) * (bool * option error) :=
  let id := stream.streamID str in
  if stream.finished str then
    let '(m, e) := RemoveStream id x.1 in
    match e with
    | Some _ => ((m, x.2), (false, e))
    | None => ((m, flowControlManager.RemoveStream id x.2), (true, None))
    end
  else (x, (true, None)).

(** The error of the iteration is ignored. *)
Definition garbageCollectStreams (m : streamsMap) (f : flowControlManager) : streamsMap * flowControlManager :=
  (Iterate collectStream (m, f)).1.

End session_streams.

(** ** The invariant of the map *)

Section invariant.
Import protocol streamsMap session_streams.
Import stream (stream).
Import flowControlManager (flowControlManager).

(** Streams of the client are odd, streams of the server are even. *)
Definition own (m : streamsMap) (id : Z) : Prop :=
  match perspective m with PerspectiveServer => id mod 2 = 0 | PerspectiveClient => id mod 2 = 1 end.

#[global] Instance own_dec m id : Decision (own m id).
Proof. unfold own. destruct (perspective m); apply _. Defined.

Definition evens (l : list Z) : Z := len (filter (λ id, id mod 2 = 0) l).
Definition odds (l : list Z) : Z := len (filter (λ id, id mod 2 = 1) l).

Record sm_inv (m : streamsMap) : Prop := {
  sm_nodup : NoDup (openStreams m);
  sm_dom id : id ∈ openStreams m ↔ is_Some (streams m !! id);
  sm_ids id s : streams m !! id = Some s → stream.streamID s = id;
  sm_index : 0 <= roundRobinIndex m <= len (openStreams m);
  sm_own id : id ∈ openStreams m → own m id → 0 < id < nextStream m;
  sm_remote id : id ∈ openStreams m → ~ own m id → 0 < id <= highestStreamOpenedByPeer m;
  sm_next : own m (nextStream m) ∧ 0 < nextStream m < 2 ^ 32;
  sm_highest : 0 <= highestStreamOpenedByPeer m < 2 ^ 32 - 2 ∧
    (highestStreamOpenedByPeer m = 0 ∨ ~ own m (highestStreamOpenedByPeer m));
  sm_outgoing : numOutgoingStreams m = evens (openStreams m);
  sm_incoming : numIncomingStreams m = odds (openStreams m);
}.

Lemma evens_app l k : evens (l ++ k) = evens l + evens k.
Proof. unfold evens. by rewrite filter_app, len_app. Qed.
Lemma odds_app l k : odds (l ++ k) = odds l + odds k.
Proof. unfold odds. by rewrite filter_app, len_app. Qed.

Lemma evens_cons id l : evens (id :: l) = (if decide (id mod 2 = 0) then 1 else 0) + evens l.
Proof. unfold evens. rewrite filter_cons. by case_decide; rewrite ?len_cons. Qed.
Lemma odds_cons id l : odds (id :: l) = (if decide (id mod 2 = 1) then 1 else 0) + odds l.
Proof. unfold odds. rewrite filter_cons. by case_decide; rewrite ?len_cons. Qed.
Lemma evens_nil : evens [] = 0.
Proof. done. Qed.
Lemma odds_nil : odds [] = 0.
Proof. done. Qed.

Lemma evens_odds l : evens l + odds l = len l.
Proof.
  induction l as [|id l IH]; [done|]. rewrite evens_cons, odds_cons, len_cons. pose proof (Z.mod_pos_bound id 2).
  repeat case_decide; lia.
Qed.

Lemma evens_nonneg l : 0 <= evens l.
Proof. apply len_nonneg. Qed.
Lemma odds_nonneg l : 0 <= odds l.
Proof. apply len_nonneg. Qed.

(** There are fewer open streams than identifiers. *)
Lemma open_few m : sm_inv m → len (openStreams m) < 2 ^ 32 - 1.
Proof.
  intros H. assert (openStreams m ⊆+ seqZ 1 (2 ^ 32 - 2)) as Hsub.
  { apply NoDup_submseteq; [apply (sm_nodup m H)|]. intros id Hid. apply elem_of_seqZ.
    pose proof (sm_next m H) as [_ Hn]. pose proof (sm_highest m H) as [Hh _].
    destruct (decide (own m id)) as [Ho|Ho]; [pose proof (sm_own m H id Hid Ho)|pose proof (sm_remote m H id Hid Ho)]; lia. }
  apply submseteq_length in Hsub. rewrite length_seqZ in Hsub. unfold len. lia.
Qed.

Lemma new_inv pers : sm_inv (newStreamsMap pers).
Proof.
  destruct pers; (constructor; cbn; [apply NoDup_nil_2|
    intros id; split; [by intros ?%elem_of_nil|by intros []]|done|unfold len; cbn; lia|
    by intros ? ?%elem_of_nil|by intros ? ?%elem_of_nil|by split; [done|lia]|split; [lia|by left]|done|done]).
Qed.

(** *** Opening a stream *)

(** The map behind the opening of a stream by the peer, and by this side. *)
Definition opened_remote (id : Z) (m : streamsMap) : streamsMap :=
  MkStreamsMap (perspective m) (<[id := stream.newStream id]> (streams m)) (openStreams m ++ [id]) (roundRobinIndex m)
    (nextStream m) id (closeErr m) (nextStreamToAccept m)
    (numOutgoingStreams m + if decide (id mod 2 = 0) then 1 else 0)
    (numIncomingStreams m + if decide (id mod 2 = 1) then 1 else 0).

Definition opened_own (m : streamsMap) : streamsMap :=
  MkStreamsMap (perspective m) (<[nextStream m := stream.newStream (nextStream m)]> (streams m))
    (openStreams m ++ [nextStream m]) (roundRobinIndex m) (nextStream m + 2) (highestStreamOpenedByPeer m)
    (closeErr m) (nextStreamToAccept m)
    (numOutgoingStreams m + if decide (nextStream m mod 2 = 0) then 1 else 0)
    (numIncomingStreams m + if decide (nextStream m mod 2 = 1) then 1 else 0).

Lemma fresh_remote m id : sm_inv m → highestStreamOpenedByPeer m < id → ~ own m id → streams m !! id = None.
Proof.
  intros H Hid Ho. apply eq_None_not_Some. rewrite <- (sm_dom m H). intros Hin. pose proof (sm_remote m H id Hin Ho). lia.
Qed.

Lemma fresh_own m : sm_inv m → streams m !! nextStream m = None.
Proof.
  intros H. apply eq_None_not_Some. rewrite <- (sm_dom m H). intros Hin. destruct (sm_next m H) as [Ho _].
  pose proof (sm_own m H _ Hin Ho). lia.
Qed.

(** A new stream at the end of the list keeps what the invariant says of the lists. *)
Lemma append_inv m id s (ids : list Z) (st : gmap Z stream) : sm_inv m → ids = openStreams m ++ [id] →
  st = <[id := s]> (streams m) → streams m !! id = None → stream.streamID s = id →
  NoDup ids ∧ (∀ x, x ∈ ids ↔ is_Some (st !! x)) ∧ (∀ x y, st !! x = Some y → stream.streamID y = x) ∧
  0 <= roundRobinIndex m <= len ids.
Proof.
  intros H -> -> Hn Hid. pose proof (sm_dom m H) as Hd. split; [|split; [|split]].
  - apply NoDup_app. split; [apply (sm_nodup m H)|]. split; [|apply NoDup_singleton].
    intros x Hx ->%list_elem_of_singleton. apply Hd in Hx as [? ?]. congruence.
  - intros x. rewrite elem_of_app, list_elem_of_singleton, Hd, lookup_insert_is_Some'. split; intros [?|?]; auto.
  - intros x y. rewrite lookup_insert_Some. intros [[<- <-]|[_ ?]]; [done|by apply (sm_ids m H)].
  - rewrite len_app. pose proof (sm_index m H). unfold len at 2. cbn. lia.
Qed.

Lemma opened_remote_inv m id : sm_inv m → highestStreamOpenedByPeer m < id < 2 ^ 32 - 2 → ~ own m id →
  sm_inv (opened_remote id m).
Proof.
  intros H Hid Ho. pose proof (sm_highest m H) as [Hh _].
  destruct (append_inv m id (stream.newStream id) _ _ H eq_refl eq_refl (fresh_remote m id H ltac:(lia) Ho) eq_refl) as (H1 & H2 & H3 & H4).
  constructor; cbn; [done|done|done|done| | |apply (sm_next m H)|split; [lia|by right]|..].
  - intros x [Hx| ->%list_elem_of_singleton]%elem_of_app Hox; [|by destruct Ho]. by apply (sm_own m H).
  - intros x [Hx| ->%list_elem_of_singleton]%elem_of_app Hox; [|lia]. pose proof (sm_remote m H x Hx Hox). lia.
  - rewrite evens_app, evens_cons, evens_nil, (sm_outgoing m H). case_decide; lia.
  - rewrite odds_app, odds_cons, odds_nil, (sm_incoming m H). case_decide; lia.
Qed.

Lemma opened_own_inv m : sm_inv m → nextStream m < 2 ^ 32 - 2 → sm_inv (opened_own m).
Proof.
  intros H Hn. destruct (sm_next m H) as [Ho Hr].
  destruct (append_inv m _ (stream.newStream (nextStream m)) _ _ H eq_refl eq_refl (fresh_own m H) eq_refl) as (H1 & H2 & H3 & H4).
  constructor; cbn; [done|done|done|done| | | |apply (sm_highest m H)|..].
  - intros x [Hx| ->%list_elem_of_singleton]%elem_of_app Hox; [|lia]. pose proof (sm_own m H x Hx Hox). lia.
  - intros x [Hx| ->%list_elem_of_singleton]%elem_of_app Hox; [|by destruct Hox]. by apply (sm_remote m H).
  - split; [|lia]. unfold own in *. cbn. destruct (perspective m); lia.
  - rewrite evens_app, evens_cons, evens_nil, (sm_outgoing m H). case_decide; lia.
  - rewrite odds_app, odds_cons, odds_nil, (sm_incoming m H). case_decide; lia.
Qed.

Context (cp : ConnectionParameters) (lim : StreamLimits).

Lemma openRemoteStream_spec m f id : sm_inv m → highestStreamOpenedByPeer m < id < 2 ^ 32 - 400 → ~ own m id →
  openRemoteStream cp lim id m f =
    if GetMaxIncomingStreams lim <=? numIncomingStreams m then (m, f, Some (qerr.Error qerr.TooManyOpenStreams))
    else (opened_remote id m, (newStream cp id f).2, None).
Proof.
  intros H Hid Ho. pose proof (sm_highest m H) as [Hh _]. pose proof (open_few m H) as Hf.
  pose proof (evens_odds (openStreams m)). pose proof (evens_nonneg (openStreams m)). pose proof (odds_nonneg (openStreams m)).
  pose proof (sm_outgoing m H). pose proof (sm_incoming m H). pose proof (fresh_remote m id H ltac:(lia) Ho) as Hn.
  unfold openRemoteStream. destruct (GetMaxIncomingStreams lim <=? numIncomingStreams m); [done|].
  unfold MaxNewStreamIDDelta. rewrite (u32_id (id + 400)) by (unfold is_u32; lia).
  destruct (Z.ltb_spec (id + 400) (highestStreamOpenedByPeer m)); [lia|].
  rewrite !u32_id by (unfold is_u32; lia). unfold opened_remote, own in *.
  assert ((newStream cp id f).1 = stream.newStream id) as Es by (unfold newStream; by destruct ((id =? 1) || (id =? 3))).
  destruct (newStream cp id f) as [st f']. cbn in Es |- *. subst st.
  assert (∀ m1, highestStreamOpenedByPeer m1 = highestStreamOpenedByPeer m →
    (if highestStreamOpenedByPeer m1 <? id then set_highestStreamOpenedByPeer id m1 else m1) = set_highestStreamOpenedByPeer id m1) as Eh.
  { intros m1 ->. destruct (Z.ltb_spec (highestStreamOpenedByPeer m) id); [done|lia]. }
  f_equal. f_equal. pose proof (Z.mod_pos_bound id 2).
  destruct (perspective m) eqn:Ep; [rewrite decide_True by done|rewrite decide_False by done]; rewrite Eh by done;
    unfold putStream; cbn; rewrite Hn; cbn;
    destruct (decide (id mod 2 = 0)), (decide (id mod 2 = 1)); try lia; rewrite ?Z.add_0_r, <- Ep; done.
Qed.

Lemma openStreamImpl_spec m f : sm_inv m → nextStream m < 2 ^ 32 - 2 →
  openStreamImpl cp lim m f =
    if GetMaxOutgoingStreams lim <=? numOutgoingStreams m then (m, f, inr (qerr.Error qerr.TooManyOpenStreams))
    else (opened_own m, (newStream cp (nextStream m) f).2, inl (stream.newStream (nextStream m))).
Proof.
  intros H Hid. pose proof (sm_next m H) as [Ho Hh]. pose proof (open_few m H) as Hf.
  pose proof (evens_odds (openStreams m)). pose proof (evens_nonneg (openStreams m)). pose proof (odds_nonneg (openStreams m)).
  pose proof (sm_outgoing m H). pose proof (sm_incoming m H). pose proof (fresh_own m H) as Hn.
  unfold openStreamImpl. destruct (GetMaxOutgoingStreams lim <=? numOutgoingStreams m); [done|].
  assert ((newStream cp (nextStream m) f).1 = stream.newStream (nextStream m)) as Es
    by (unfold newStream; by destruct ((nextStream m =? 1) || (nextStream m =? 3))).
  destruct (newStream cp (nextStream m) f) as [st f']. cbn in Es |- *. subst st.
  f_equal. f_equal. pose proof (Z.mod_pos_bound (nextStream m) 2). unfold opened_own, own in *.
  destruct (perspective m) eqn:Ep; [rewrite decide_True by done|rewrite decide_False by done];
    unfold putStream; cbn; rewrite Hn, !u32_id by (unfold is_u32; lia); cbn;
    destruct (decide (nextStream m mod 2 = 0)), (decide (nextStream m mod 2 = 1)); try lia; rewrite ?Z.add_0_r, <- Ep; done.
Qed.

(** The identifiers [sid], [sid + 2], ... ([n] of them). *)
Definition every_second (sid : Z) (n : nat) : list Z := (λ k, sid + 2 * Z.of_nat k) <$> seq 0 n.

Lemma every_second_S sid n : every_second sid (S n) = sid :: every_second (sid + 2) n.
Proof.
  unfold every_second. rewrite <- cons_seq. cbn. f_equal; [lia|]. rewrite <- fmap_S_seq, <- list_fmap_compose.
  apply list_fmap_ext. intros i k _. cbn. lia.
Qed.

Lemma elem_of_every_second x sid n : x ∈ every_second sid n ↔ sid <= x < sid + 2 * Z.of_nat n ∧ (x - sid) mod 2 = 0.
Proof.
  unfold every_second. rewrite list_elem_of_fmap. split.
  - intros (k & -> & Hk%elem_of_seq). split; [lia|]. replace (sid + 2 * Z.of_nat k - sid) with (Z.of_nat k * 2) by lia. apply Z.mod_mul. lia.
  - intros [Hx Hm]. exists (Z.to_nat ((x - sid) / 2)). split; [|apply elem_of_seq]; lia.
Qed.

Lemma NoDup_every_second sid n : NoDup (every_second sid n).
Proof. apply NoDup_fmap_2; [|apply NoDup_seq]. intros a b ?. lia. Qed.

(** The streams [ids] have been opened by the peer, one after the other. *)
Definition opened_all (ids : list Z) (m : streamsMap) : streamsMap := foldl (λ m id, opened_remote id m) m ids.
Definition created_all (ids : list Z) (f : flowControlManager) : flowControlManager :=
  foldl (λ f id, (newStream cp id f).2) f ids.

Lemma opened_all_fields ids m :
  perspective (opened_all ids m) = perspective m ∧ openStreams (opened_all ids m) = openStreams m ++ ids ∧
  nextStream (opened_all ids m) = nextStream m ∧ nextStreamToAccept (opened_all ids m) = nextStreamToAccept m ∧
  closeErr (opened_all ids m) = closeErr m ∧ roundRobinIndex (opened_all ids m) = roundRobinIndex m ∧
  (∀ x, streams (opened_all ids m) !! x = if decide (x ∈ ids) then Some (stream.newStream x) else streams m !! x).
Proof.
  revert m. induction ids as [|id ids IH]; intros m.
  - cbn. by rewrite app_nil_r.
  - change (opened_all (id :: ids) m) with (opened_all ids (opened_remote id m)). destruct (IH (opened_remote id m)) as (-> & -> & -> & -> & -> & -> & Hs). cbn. rewrite <- app_assoc. repeat (split; [done|]).
    intros x. rewrite Hs. destruct (decide (x ∈ ids)); [rewrite decide_True; [done|by right]|]. cbn.
    destruct (decide (id = x)) as [->|Hne]; [rewrite lookup_insert_eq, decide_True; [done|by left]|].
    rewrite lookup_insert_ne, decide_False; [done| |done]. by intros [?|?]%elem_of_cons.
Qed.

Lemma openLoop_spec fuel sid id m f : sm_inv m → highestStreamOpenedByPeer m < sid → ~ own m sid →
  id < 2 ^ 32 - 400 → (id - sid) mod 2 = 0 → sid <= id + 2 → (id - sid) / 2 + 1 < Z.of_nat fuel →
  ∃ k e, let m' := opened_all (every_second sid k) m in
    openLoop cp lim fuel sid id m f = (m', created_all (every_second sid k) f, e) ∧ sm_inv m' ∧
    (0 < Z.of_nat k → numIncomingStreams m' <= GetMaxIncomingStreams lim ∧ highestStreamOpenedByPeer m' = sid + 2 * Z.of_nat k - 2) ∧
    (e = None ∧ Z.of_nat k = (id - sid) / 2 + 1 ∨
     e = Some (qerr.Error qerr.TooManyOpenStreams) ∧ Z.of_nat k < (id - sid) / 2 + 1 ∧
     GetMaxIncomingStreams lim <= numIncomingStreams m').
Proof.
  revert sid m f. induction fuel as [|fuel IH]; intros sid m f H Hh Ho Hid Hpar Hle Hf; [lia|]. cbn [openLoop].
  destruct (Z.leb_spec sid id) as [Hsi|Hsi].
  2:{ exists 0%nat, None. cbn. split; [done|]. split; [done|]. split; [lia|]. left. split; [done|]. lia. }
  pose proof (sm_highest m H) as [Hh0 _].
  rewrite (openRemoteStream_spec m f sid H ltac:(lia) Ho).
  destruct (Z.leb_spec (GetMaxIncomingStreams lim) (numIncomingStreams m)) as [Hmax|Hmax].
  { exists 0%nat. eexists. cbn. split; [done|]. split; [done|]. split; [lia|]. right. split; [done|]. lia. }
  pose proof (opened_remote_inv m sid H ltac:(lia) Ho) as H1.
  rewrite u32_id by (unfold is_u32; lia).
  destruct (IH (sid + 2) (opened_remote sid m) (newStream cp sid f).2 H1) as (k & e & E & Hi & Hk & He); [cbn; lia| |lia|..].
  { unfold own in *. cbn. destruct (perspective m); lia. }
  1-3: lia.
  exists (S k), e. rewrite every_second_S. split; [exact E|]. split; [exact Hi|]. split.
  - intros _. change (opened_all (sid :: every_second (sid + 2) k) m) with (opened_all (every_second (sid + 2) k) (opened_remote sid m)).
    destruct k as [|k]; [cbn; case_decide; lia|]. destruct Hk as [? ->]; lia.
  - destruct He as [[-> ?]|(-> & ? & ?)]; [left|right]; (split; [done|]); [lia|]. split; [lia|done].
Qed.

Lemma nextRemote_spec m : sm_inv m → highestStreamOpenedByPeer m < nextRemote m <= highestStreamOpenedByPeer m + 2 ∧
  ~ own m (nextRemote m) ∧ (∀ x, highestStreamOpenedByPeer m < x → ~ own m x → nextRemote m <= x ∧ (x - nextRemote m) mod 2 = 0).
Proof.
  intros H. pose proof (sm_highest m H) as [Hh Hp]. unfold nextRemote. rewrite u32_id by (unfold is_u32; lia).
  unfold own in *. destruct (perspective m).
  - rewrite bool_decide_eq_true_2, andb_true_r by done. case_bool; [split; [lia|]; split; [lia|]; lia|].
    split; [lia|]. split; [lia|]. lia.
  - rewrite bool_decide_eq_false_2, andb_false_r by done. split; [lia|]. split; lia.
Qed.

(** A stream that is closed, or that only the peer could have opened. *)
Definition used (m : streamsMap) (id : Z) : Prop :=
  if decide (own m id) then id < nextStream m else id <= highestStreamOpenedByPeer m.

Lemma notOpen_spec m id : notOpen id m =
  if decide (own m id) then
    if id <=? nextStream m then Some (inl None) else Some (inr (qerr.Error qerr.InvalidStreamID))
  else if id <=? highestStreamOpenedByPeer m then Some (inl None) else None.
Proof.
  destruct (decide (own m id)) as [Ho|Ho]; unfold notOpen, own in *; destruct (perspective m); repeat case_bool; done || lia.
Qed.

(** What a call that opens streams does. *)
Lemma GetOrOpen_opens m f id : sm_inv m → 0 < id < 2 ^ 32 - 400 → streams m !! id = None → ~ own m id →
  highestStreamOpenedByPeer m < id →
  ∃ k r, let m' := opened_all (every_second (nextRemote m) k) m in
    GetOrOpenStream cp lim id m f = (m', created_all (every_second (nextRemote m) k) f, r) ∧ sm_inv m' ∧
    (0 < Z.of_nat k → numIncomingStreams m' <= GetMaxIncomingStreams lim ∧
       highestStreamOpenedByPeer m' = nextRemote m + 2 * Z.of_nat k - 2) ∧
    (r = inl (Some (stream.newStream id)) ∧ Z.of_nat k = (id - nextRemote m) / 2 + 1 ∨
     r = inr (qerr.Error qerr.TooManyOpenStreams) ∧ Z.of_nat k < (id - nextRemote m) / 2 + 1 ∧
     GetMaxIncomingStreams lim <= numIncomingStreams m').
Proof.
  intros H Hid Hn Ho Hh. destruct (nextRemote_spec m H) as (Hr & Hro & Hx). destruct (Hx id Hh Ho) as [Hle Hpar].
  assert (0 <= (id - nextRemote m) / 2) as Hd by (apply Z.div_pos; lia).
  destruct (openLoop_spec (Z.to_nat ((id - nextRemote m) / 2 + 2)) (nextRemote m) id m f H) as (k & e & E & Hi & Hk & He); [lia|done|lia|done|lia| |].
  { rewrite Z2Nat.id; lia. }
  unfold GetOrOpenStream. rewrite Hn, notOpen_spec, decide_False by done.
  destruct (Z.leb_spec id (highestStreamOpenedByPeer m)); [lia|]. rewrite E. cbv zeta in *.
  destruct He as [[-> Hkn]|(-> & Hkn & Hmax)].
  - eexists k, _. split; [done|]. split; [done|]. split; [done|]. left. split; [|done]. f_equal.
    destruct (opened_all_fields (every_second (nextRemote m) k) m) as (_ & _ & _ & _ & _ & _ & ->).
    rewrite decide_True; [done|]. apply elem_of_every_second. split; [lia|done].
  - eexists k, _. split; [done|]. split; [done|]. split; [done|]. by right.
Qed.

(** Opening a stream by its identifier. A stream that is open is returned; for a
    stream that has been closed the result is nil; a stream that only this side may open is
    rejected; otherwise every stream of the peer up to the identifier that is not open
    yet is opened, in order, and the last of them is returned, unless the limit is
    reached: then the streams before it have been opened. Every other stream is untouched,
    and the flow control manager learns exactly the streams that were opened. *)
Theorem GetOrOpenStream_correct m f id : sm_inv m → 0 < id < 2 ^ 32 - 400 →
  match streams m !! id with
  | Some s => GetOrOpenStream cp lim id m f = (m, f, inl (Some s))
  | None =>
      if decide (own m id) then
        GetOrOpenStream cp lim id m f = (m, f, if id <=? nextStream m then inl None else inr (qerr.Error qerr.InvalidStreamID))
      else if decide (id <= highestStreamOpenedByPeer m) then GetOrOpenStream cp lim id m f = (m, f, inl None)
      else ∃ m' ids r, GetOrOpenStream cp lim id m f = (m', created_all ids f, r) ∧
        openStreams m' = openStreams m ++ ids ∧ (∀ x, x ∈ ids → highestStreamOpenedByPeer m < x <= id ∧ ~ own m x) ∧
        (∀ x, streams m' !! x = if decide (x ∈ ids) then Some (stream.newStream x) else streams m !! x) ∧
        (r = inl (Some (stream.newStream id)) ∧ (∀ x, highestStreamOpenedByPeer m < x <= id → ~ own m x → x ∈ ids) ∨
         r = inr (qerr.Error qerr.TooManyOpenStreams) ∧ id ∉ ids ∧ GetMaxIncomingStreams lim <= numIncomingStreams m')
  end.
Proof.
  intros H Hid. destruct (streams m !! id) as [s|] eqn:Es; [by unfold GetOrOpenStream; rewrite Es|].
  destruct (decide (own m id)) as [Ho|Ho].
  { unfold GetOrOpenStream. rewrite Es, notOpen_spec, decide_True by done. by destruct (id <=? nextStream m). }
  destruct (decide (id <= highestStreamOpenedByPeer m)) as [Hle|Hgt].
  { unfold GetOrOpenStream. rewrite Es, notOpen_spec, decide_False by done. destruct (Z.leb_spec id (highestStreamOpenedByPeer m)); [done|lia]. }
  destruct (GetOrOpen_opens m f id H Hid Es Ho ltac:(lia)) as (k & r & E & Hi & _ & Hr).
  destruct (nextRemote_spec m H) as (Hn & Hno & Hx). destruct (Hx id ltac:(lia) Ho) as [Hle Hpar].
  assert (Z.of_nat k <= (id - nextRemote m) / 2 + 1) as Hk by (destruct Hr as [[_ ->]|(_ & ? & _)]; lia).
  destruct (opened_all_fields (every_second (nextRemote m) k) m) as (_ & Eo & _ & _ & _ & _ & Est).
  eexists _, (every_second (nextRemote m) k), r. split; [exact E|]. split; [exact Eo|]. split; [|split; [exact Est|]].
  - intros x [Hx1 Hx2]%elem_of_every_second. split; [lia|]. unfold own in *. destruct (perspective m); lia.
  - destruct Hr as [[-> Ek]|(-> & Ek & Hmax)]; [left|right]; (split; [done|]).
    + intros x Hxr Hxo. destruct (Hx x ltac:(lia) Hxo). apply elem_of_every_second. split; [lia|done].
    + split; [|done]. intros [? _]%elem_of_every_second. lia.
Qed.

(** *** Removing a stream *)

Lemma removeID_spec id l : id ∈ l → ∃ pre post, removeID id l = Some (len pre, pre ++ post) ∧ l = pre ++ id :: post ∧ id ∉ pre.
Proof.
  induction l as [|x l IH]; [by intros ?%elem_of_nil|]. intros Hin. cbn. destruct (Z.eqb_spec x id) as [->|Hne].
  - exists [], l. split; [done|]. split; [done|]. apply not_elem_of_nil.
  - apply elem_of_cons in Hin as [?|Hin]; [done|]. destruct (IH Hin) as (pre & post & -> & -> & Hpre).
    exists (x :: pre), post. rewrite len_cons. split; [by rewrite Z.add_comm|]. split; [done|]. set_solver.
Qed.

(** The map without the stream [id], which is in the list between [pre] and [post]. *)
Definition removed (id : Z) (pre post : list Z) (m : streamsMap) : streamsMap :=
  MkStreamsMap (perspective m) (delete id (streams m)) (pre ++ post)
    (if len pre <? roundRobinIndex m then roundRobinIndex m - 1 else roundRobinIndex m)
    (nextStream m) (highestStreamOpenedByPeer m) (closeErr m) (nextStreamToAccept m)
    (numOutgoingStreams m - if decide (id mod 2 = 0) then 1 else 0)
    (numIncomingStreams m - if decide (id mod 2 = 1) then 1 else 0).

Lemma removed_inv m id pre post : sm_inv m → openStreams m = pre ++ id :: post → sm_inv (removed id pre post m).
Proof.
  intros H E. pose proof (sm_nodup m H) as Hnd. rewrite E in Hnd. apply NoDup_app in Hnd as (N1 & N2 & N3).
  apply NoDup_cons in N3 as [N3 N4].
  assert (∀ x, x ∈ pre ++ post ↔ x ∈ openStreams m ∧ x ≠ id) as Hel.
  { intros x. rewrite E, !elem_of_app, elem_of_cons. split; [|naive_solver]. intros [Hx|Hx].
    - split; [by left|]. intros ->. apply (N2 id Hx). by left.
    - split; [by right; right|]. by intros ->. }
  constructor; cbn.
  - apply NoDup_app. split; [done|]. split; [|done]. intros x Hx ?. apply (N2 x Hx). by right.
  - intros x. rewrite Hel, (sm_dom m H), lookup_delete_is_Some. naive_solver.
  - intros x y [_ Hy]%lookup_delete_Some. by apply (sm_ids m H).
  - pose proof (sm_index m H) as Hi. rewrite E in Hi. rewrite len_app, len_cons in Hi. rewrite len_app.
    pose proof (len_nonneg pre). pose proof (len_nonneg post). destruct (Z.ltb_spec (len pre) (roundRobinIndex m)); lia.
  - intros x [Hx _]%Hel. apply (sm_own m H x Hx).
  - intros x [Hx _]%Hel. apply (sm_remote m H x Hx).
  - apply (sm_next m H).
  - apply (sm_highest m H).
  - rewrite (sm_outgoing m H), E, !evens_app, evens_cons. case_decide; lia.
  - rewrite (sm_incoming m H), E, !odds_app, odds_cons. case_decide; lia.
Qed.

Lemma RemoveStream_spec m id : sm_inv m →
  match streams m !! id with
  | None => RemoveStream id m = (m, Some errNonExisting)
  | Some _ => ∃ pre post, openStreams m = pre ++ id :: post ∧ RemoveStream id m = (removed id pre post m, None)
  end.
Proof.
  intros H. destruct (streams m !! id) as [s|] eqn:Es; [|by unfold RemoveStream; rewrite Es].
  assert (id ∈ openStreams m) as Hin by (apply (sm_dom m H); eauto).
  destruct (removeID_spec id _ Hin) as (pre & post & Er & El & _). exists pre, post. split; [done|].
  pose proof (open_few m H) as Hf. pose proof (evens_odds (openStreams m)). pose proof (evens_nonneg (openStreams m)).
  pose proof (odds_nonneg (openStreams m)). pose proof (sm_outgoing m H). pose proof (sm_incoming m H).
  pose proof (sm_index m H) as Hi. pose proof (len_nonneg pre). pose proof (len_nonneg post).
  assert (len pre < 2 ^ 32 - 1) as Hpl by (rewrite El, len_app, len_cons in Hf; lia).
  assert (evens (openStreams m) = evens pre + (if decide (id mod 2 = 0) then 1 else 0) + evens post) as He
    by (rewrite El, evens_app, evens_cons; lia).
  assert (odds (openStreams m) = odds pre + (if decide (id mod 2 = 1) then 1 else 0) + odds post) as Hod
    by (rewrite El, odds_app, odds_cons; lia).
  pose proof (evens_nonneg pre). pose proof (evens_nonneg post). pose proof (odds_nonneg pre). pose proof (odds_nonneg post).
  pose proof (Z.mod_pos_bound id 2). unfold RemoveStream, removed. rewrite Es.
  destruct (Z.eqb_spec (id mod 2) 0), (decide (id mod 2 = 0)), (decide (id mod 2 = 1)); try lia;
    cbn; rewrite Er, (u32_id (len pre)), ?Z.sub_0_r by (unfold is_u32; lia); cbn;
    destruct (Z.ltb_spec (len pre) (roundRobinIndex m)); cbn; rewrite !u32_id by (unfold is_u32; lia); done.
Qed.

Lemma RemoveStream_keeps_inv m id : sm_inv m → sm_inv (RemoveStream id m).1.
Proof.
  intros H. pose proof (RemoveStream_spec m id H) as Hs. destruct (streams m !! id); [|by rewrite Hs].
  destruct Hs as (pre & post & El & ->). by apply removed_inv.
Qed.

(** *** Changes to the streams themselves *)

(** [m'] has the streams of [m], which may have changed. *)
Record keeps (m m' : streamsMap) : Prop := {
  ke_perspective : perspective m' = perspective m;
  ke_open : openStreams m' = openStreams m;
  ke_next : nextStream m' = nextStream m;
  ke_highest : highestStreamOpenedByPeer m' = highestStreamOpenedByPeer m;
  ke_accept : nextStreamToAccept m' = nextStreamToAccept m;
  ke_out : numOutgoingStreams m' = numOutgoingStreams m;
  ke_in : numIncomingStreams m' = numIncomingStreams m;
  ke_dom id : is_Some (streams m' !! id) ↔ is_Some (streams m !! id);
  ke_ids id s : streams m' !! id = Some s → stream.streamID s = id;
}.

Lemma keeps_refl m : sm_inv m → keeps m m.
Proof. intros H. constructor; try done. apply (sm_ids m H). Qed.

Lemma keeps_trans m1 m2 m3 : keeps m1 m2 → keeps m2 m3 → keeps m1 m3.
Proof. intros [] []. constructor; try congruence; [|done]. intros id. rewrite ke_dom1. done. Qed.

Lemma keeps_inv m m' : sm_inv m → keeps m m' → 0 <= roundRobinIndex m' <= len (openStreams m) → sm_inv m'.
Proof.
  intros H [E1 E2 E3 E4 E5 E6 E7 Hd Hi] Hr.
  assert (∀ id, own m' id ↔ own m id) as Ho by (intros id; unfold own; by rewrite E1).
  constructor; rewrite ?E2, ?E3, ?E4, ?E6, ?E7; [apply (sm_nodup m H)| |done|done| | | | |apply (sm_outgoing m H)|apply (sm_incoming m H)].
  - intros id. rewrite (sm_dom m H). by rewrite Hd.
  - intros id. rewrite Ho. apply (sm_own m H).
  - intros id. rewrite Ho. apply (sm_remote m H).
  - rewrite Ho. apply (sm_next m H).
  - rewrite Ho. apply (sm_highest m H).
Qed.

Lemma setStream_keeps m s s0 : sm_inv m → streams m !! stream.streamID s = Some s0 → keeps m (setStream s m).
Proof.
  intros H Hs. constructor; try done; cbn.
  - intros id. rewrite lookup_insert_is_Some'. split; [intros [<-|?]; eauto|auto].
  - intros id x. rewrite lookup_insert_Some. intros [[<- <-]|[_ ?]]; [done|by apply (sm_ids m H)].
Qed.

Lemma set_index_keeps m v : sm_inv m → keeps m (set_roundRobinIndex v m).
Proof. intros H. constructor; try done. apply (sm_ids m H). Qed.

(** *** Iterating in turn *)

Section round_robin.
Context {X : Type} (fn : stream → streamsMap * X → (streamsMap * X) * (bool * option error)).

(** A function that only changes the streams, and does not fail. *)
Definition gentle : Prop := ∀ s m x, sm_inv m → streams m !! stream.streamID s = Some s →
  let '((m', x'), (cont, e)) := fn s (m, x) in keeps m m' ∧ roundRobinIndex m' = roundRobinIndex m ∧ e = None.

(** The loop over the streams as a loop over a list: every stream but 1 and 3. *)
Fixpoint visit (n : Z) (ids : list Z) (x : streamsMap * X) : (streamsMap * X) * option error :=
  match ids with
  | [] => (x, None)
  | id :: ids =>
      if decide (id = 1 ∨ id = 3) then visit n ids x
      else
        let '(x, (cont, e)) := iterateFunc fn id x in
        match e with
        | Some _ => (x, e)
        | None =>
            let x := (set_roundRobinIndex ((roundRobinIndex x.1 + 1) mod n) x.1, x.2) in
            if cont then visit n ids x else (x, None)
        end
  end.

Hypothesis Hfn : gentle.

Lemma iterateFunc_keeps m x id m' x' cont e : sm_inv m → iterateFunc fn id (m, x) = ((m', x'), (cont, e)) →
  keeps m m' ∧ roundRobinIndex m' = roundRobinIndex m ∧
  (is_Some (streams m !! id) ∧ e = None ∨ streams m !! id = None ∧ e = Some errMapAccess ∧ cont = true).
Proof.
  intros H. unfold iterateFunc. cbn [fst]. destruct (streams m !! id) as [s|] eqn:Es.
  - pose proof (sm_ids m H id s Es) as Hid. intros E. specialize (Hfn s m x H). rewrite Hid, Es, E in Hfn.
    destruct (Hfn eq_refl) as (? & ? & ?). split; [done|]. split; [done|]. left. eauto.
  - intros [= <- <- <- <-]. split; [by apply keeps_refl|]. split; [done|]. by right.
Qed.

Lemma priorityLoop_keeps ids m x m' x' stop : sm_inv m → priorityLoop fn ids (m, x) = ((m', x'), stop) →
  keeps m m' ∧ roundRobinIndex m' = roundRobinIndex m ∧ (stop = None ∨ stop = Some None).
Proof.
  revert m x. induction ids as [|id ids IH]; intros m x H; cbn [priorityLoop].
  - intros [= <- <- <-]. split; [by apply keeps_refl|]. split; [done|by left].
  - destruct (iterateFunc fn id (m, x)) as [[m1 x1] [cont e]] eqn:Ei.
    destruct (iterateFunc_keeps _ _ _ _ _ _ _ H Ei) as (Hk & Hr & He).
    rewrite bool_decide_eq_false_2 by (destruct He as [[_ ->]|(_ & -> & _)]; tauto).
    destruct cont; [|intros [= <- <- <-]; split; [done|]; split; [done|by right]].
    intros E. assert (sm_inv m1) as H1 by (apply (keeps_inv m); [done|done|rewrite Hr; apply (sm_index m H)]).
    destruct (IH m1 x1 H1 E) as (Hk' & Hr' & ?). split; [by eapply keeps_trans|]. split; [congruence|done].
Qed.

Lemma size_streams m : sm_inv m → Z.of_nat (size (streams m)) = len (openStreams m).
Proof.
  intros H. rewrite <- size_dom. unfold len. f_equal.
  assert (dom (streams m) = list_to_set (C := gset Z) (openStreams m)) as ->.
  { apply set_eq. intros id. rewrite elem_of_dom, elem_of_list_to_set. by rewrite (sm_dom m H). }
  apply size_list_to_set, (sm_nodup m H).
Qed.

Lemma roundRobinLoop_visit l start ids i m x : sm_inv m → openStreams m = l → len l < 2 ^ 31 → 0 <= start <= len l →
  0 <= i → ids = drop (Z.to_nat i) (rotate (Z.to_nat start) l) → i + len ids = len l →
  roundRobinLoop fn (length ids) i start (len l) (m, x) = Ok (visit (len l) ids (m, x)).
Proof.
  intros H El Hl Hs. revert i m x H El. induction ids as [|id ids IH]; intros i m x H El Hi Eids Hlen; [done|].
  cbn [length roundRobinLoop visit fst]. rewrite len_cons in Hlen. pose proof (len_nonneg ids).
  assert (openStreams m !! Z.to_nat (u32 (i + start) mod len l) = Some id) as ->.
  { rewrite El, u32_id by (unfold is_u32; lia).
    assert (rotate (Z.to_nat start) l !! Z.to_nat i = Some id) as Er.
    { rewrite <- (Nat.add_0_r (Z.to_nat i)), <- lookup_drop, <- Eids. done. }
    rewrite lookup_rotate_r in Er by (unfold len in *; lia). unfold rotate_nat_add in Er.
    replace (Z.of_nat (Z.to_nat start) + Z.of_nat (Z.to_nat i)) with (i + start) in Er by lia. done. }
  assert (ids = drop (Z.to_nat (i + 1)) (rotate (Z.to_nat start) l)) as Eids'.
  { replace (Z.to_nat (i + 1)) with (Z.to_nat i + 1)%nat by lia. rewrite <- drop_drop, <- Eids. done. }
  rewrite (u32_id (i + 1)) by (unfold is_u32; lia).
  destruct (decide (id = 1 ∨ id = 3)) as [Hp|Hp].
  { replace ((id =? 1) || (id =? 3)) with true by (destruct Hp as [-> | ->]; done). apply IH; done || lia. }
  replace ((id =? 1) || (id =? 3)) with false by (symmetry; apply orb_false_iff; split; apply Z.eqb_neq; tauto).
  destruct (iterateFunc fn id (m, x)) as [[m1 x1] [cont e]] eqn:Ei.
  destruct (iterateFunc_keeps _ _ _ _ _ _ _ H Ei) as (Hk & Hr & He). pose proof (sm_index m H) as Hri.
  destruct e as [e|]; [done|]. cbn [fst snd]. rewrite El in Hri. rewrite (u32_id (roundRobinIndex m1 + 1)) by (unfold is_u32; lia).
  destruct cont; [|done]. apply IH; try done; [| |lia|lia].
  - assert (sm_inv m1) as H1 by (apply (keeps_inv m); [done|done|by rewrite Hr, El]).
    apply (keeps_inv m1); [done|by apply set_index_keeps|]. cbn. rewrite (ke_open _ _ Hk), El.
    pose proof (Z.mod_pos_bound (roundRobinIndex m1 + 1) (len l)). lia.
  - cbn. by rewrite (ke_open _ _ Hk).
Qed.

Lemma RoundRobin_rotation m x : sm_inv m → len (openStreams m) < 2 ^ 31 →
  RoundRobinIterate fn (m, x) =
    let '(x, stop) := priorityLoop fn [1; 3] (m, x) in
    match stop with
    | Some e => Ok (x, e)
    | None => Ok (visit (len (openStreams m)) (rotate (Z.to_nat (roundRobinIndex m)) (openStreams m)) x)
    end.
Proof.
  intros H Hl. unfold RoundRobinIterate. cbn [fst]. rewrite (size_streams m H). pose proof (len_nonneg (openStreams m)).
  rewrite u32_id by (unfold is_u32; lia). destruct (priorityLoop fn [1; 3] (m, x)) as [[m1 x1] stop] eqn:Ep.
  destruct (priorityLoop_keeps _ _ _ _ _ _ H Ep) as (Hk & Hr & _). destruct stop as [e|]; [done|].
  assert (Z.to_nat (len (openStreams m)) = length (rotate (Z.to_nat (roundRobinIndex m)) (openStreams m))) as ->
    by (rewrite length_rotate; unfold len; lia).
  pose proof (sm_index m H). apply roundRobinLoop_visit; try done.
  - apply (keeps_inv m); [done|done|by rewrite Hr].
  - apply (ke_open _ _ Hk).
  - unfold len. rewrite length_rotate. lia.
Qed.

End round_robin.

(** The same function, which also records the streams that it is called on. *)
Definition logged {X} (fn : stream → streamsMap * X → (streamsMap * X) * (bool * option error))
    (s : stream) (x : streamsMap * (X * list Z)) : (streamsMap * (X * list Z)) * (bool * option error) :=
  let '((m, x'), r) := fn s (x.1, x.2.1) in ((m, (x', x.2.2 ++ [stream.streamID s])), r).

Section visits.
Context {X : Type} (fn : stream → streamsMap * X → (streamsMap * X) * (bool * option error)).
Hypothesis Hfn : gentle fn.

Lemma gentle_logged : gentle (logged fn).
Proof.
  intros s m [x log] H Hs. specialize (Hfn s m x H Hs). unfold logged. cbn.
  by destruct (fn s (m, x)) as [[m' x'] [cont e]].
Qed.

Definition priority (id : Z) : Prop := id = 1 ∨ id = 3.

(** One call on an open stream. *)
Lemma logged_call m x log id : sm_inv m → is_Some (streams m !! id) →
  ∃ m' x' cont, iterateFunc (logged fn) id (m, (x, log)) = ((m', (x', log ++ [id])), (cont, None)) ∧
    keeps m m' ∧ roundRobinIndex m' = roundRobinIndex m ∧
    ∃ s, streams m !! id = Some s ∧ cont = (fn s (m, x)).2.1.
Proof.
  intros H [s Es]. pose proof (sm_ids m H id s Es) as Hid. unfold iterateFunc, logged. cbn. rewrite Es.
  specialize (Hfn s m x H). rewrite Hid in Hfn. specialize (Hfn Es).
  destruct (fn s (m, x)) as [[m' x'] [cont e]] eqn:Ef. destruct Hfn as (? & ? & ->). rewrite Hid.
  exists m', x', cont. split; [done|]. split; [done|]. split; [done|]. exists s. split; [done|]. by rewrite Ef.
Qed.

Lemma keeps_index_inv m m' : sm_inv m → keeps m m' → roundRobinIndex m' = roundRobinIndex m → sm_inv m'.
Proof. intros H Hk Hr. apply (keeps_inv m); [done|done|]. rewrite Hr. apply (sm_index m H). Qed.

(** A step of the index. *)
Lemma advance_inv m n : sm_inv m → n = len (openStreams m) → 0 < n →
  sm_inv (set_roundRobinIndex ((roundRobinIndex m + 1) mod n) m).
Proof.
  intros H -> Hn. apply (keeps_inv m); [done|by apply set_index_keeps|]. cbn.
  pose proof (Z.mod_pos_bound (roundRobinIndex m + 1) (len (openStreams m))). lia.
Qed.

Lemma set_index_keeps' m m' v : keeps m m' → keeps m (set_roundRobinIndex v m').
Proof. intros []. by constructor. Qed.

(** *** A function that always continues *)

Definition continues : Prop := ∀ s m x, sm_inv m → (fn s (m, x)).2.1 = true.

Lemma priority_all ids m x log : (∀ s m x, sm_inv m → stream.streamID s ∈ ids → (fn s (m, x)).2.1 = true) → sm_inv m →
  ∃ m' x', priorityLoop (logged fn) ids (m, (x, log)) =
      ((m', (x', log ++ filter (λ id, is_Some (streams m !! id)) ids)), None) ∧ 
    keeps m m' ∧ roundRobinIndex m' = roundRobinIndex m.
Proof.
  revert m x log. induction ids as [|id ids IH]; intros m x log Hc H; cbn [priorityLoop].
  - exists m, x. rewrite filter_nil, app_nil_r. split; [done|]. split; [by apply keeps_refl|done].
  - rewrite filter_cons. destruct (decide (is_Some (streams m !! id))) as [Hs|Hs].
    + destruct (logged_call m x log id H Hs) as (m1 & x1 & cont & -> & Hk & Hr & s & Es & ->).
      rewrite (Hc s m x H) by (rewrite (sm_ids m H id s Es); by left). rewrite bool_decide_eq_false_2 by tauto. pose proof (keeps_index_inv m m1 H Hk Hr) as H1.
      destruct (IH m1 x1 (log ++ [id])) as (m2 & x2 & -> & Hk2 & Hr2); [by intros; apply Hc; [|right]|done|]. exists m2, x2. split.
      * f_equal. f_equal. f_equal. rewrite <- app_assoc. cbn. do 2 f_equal. apply list_filter_iff. intros a. apply (ke_dom _ _ Hk).
      * split; [by eapply keeps_trans|congruence].
    + apply eq_None_not_Some in Hs. unfold iterateFunc at 1. cbn [fst]. rewrite Hs.
      rewrite bool_decide_eq_false_2 by tauto. apply IH; [by intros; apply Hc; [|right]|done].
Qed.

Lemma visit_all n ids m x log : continues → sm_inv m → n = len (openStreams m) → 0 < n →
  (∀ id, id ∈ ids → is_Some (streams m !! id)) →
  ∃ m' x', visit (logged fn) n ids (m, (x, log)) = ((m', (x', log ++ filter (λ id, ~ priority id) ids)), None) ∧ keeps m m'.
Proof.
  intros Hc. revert m x log. induction ids as [|id ids IH]; intros m x log H En Hn Hids; cbn [visit].
  - exists m, x. rewrite filter_nil, app_nil_r. split; [done|by apply keeps_refl].
  - rewrite filter_cons. destruct (decide (id = 1 ∨ id = 3)) as [Hp|Hp].
    + rewrite decide_False by (unfold priority; tauto). apply IH; try done. intros a Ha. apply Hids. by right.
    + rewrite decide_True by done.
      destruct (logged_call m x log id H (Hids id ltac:(by left))) as (m1 & x1 & cont & -> & Hk & Hr & s & Es & ->). rewrite (Hc s m x H).
      pose proof (keeps_index_inv m m1 H Hk Hr) as H1. cbn [fst snd]. 
      destruct (IH (set_roundRobinIndex ((roundRobinIndex m1 + 1) mod n) m1) x1 (log ++ [id])) as (m2 & x2 & -> & Hk2).
      * apply advance_inv; [done| |done]. by rewrite (ke_open _ _ Hk).
      * cbn. by rewrite (ke_open _ _ Hk).
      * done.
      * intros a Ha. cbn. apply (ke_dom _ _ Hk). apply Hids. by right.
      * exists m2, x2. split; [by rewrite <- app_assoc|]. eapply keeps_trans; [by apply set_index_keeps'|done].
Qed.

(** The round robin is complete. A function that never stops the iteration is called
    exactly once on every open stream: first on the crypto and the header stream when they
    are open, then on the others, in the order of the list from the current index
    on and around. The iteration itself opens and closes no stream. *)
Theorem round_robin_visits_all m x : continues → sm_inv m → len (openStreams m) < 2 ^ 31 →
  ∃ m' x' log, RoundRobinIterate (logged fn) (m, (x, [])) = Ok ((m', (x', log)), None) ∧ keeps m m' ∧
    log = filter (λ id, is_Some (streams m !! id)) [1; 3] ++
          filter (λ id, ~ priority id) (rotate (Z.to_nat (roundRobinIndex m)) (openStreams m)) ∧
    log ≡ₚ openStreams m.
Proof.
  intros Hc H Hl. rewrite (RoundRobin_rotation (logged fn) gentle_logged m (x, []) H Hl).
  destruct (priority_all [1; 3] m x [] ltac:(auto) H) as (m1 & x1 & -> & Hk & Hr).
  pose proof (keeps_index_inv m m1 H Hk Hr) as H1. set (l := openStreams m) in *.
  set (rot := rotate (Z.to_nat (roundRobinIndex m)) l). cbn [app].
  assert (∃ m' x', visit (logged fn) (len l) rot (m1, (x1, filter (λ id, is_Some (streams m !! id)) [1; 3])) =
    ((m', (x', filter (λ id, is_Some (streams m !! id)) [1; 3] ++ filter (λ id, ~ priority id) rot)), None) ∧ keeps m1 m') as (m' & x' & -> & Hk').
  { assert (0 <= len l) as Hnn by apply len_nonneg. destruct (Z.eq_dec (len l) 0) as [El%len_zero|].
    - assert (rot = []) as -> by (unfold rot, rotate; by rewrite El, drop_nil, take_nil). exists m1, x1. cbn [visit]. rewrite filter_nil, app_nil_r.
      split; [done|by apply keeps_refl].
    - apply visit_all; [done|done|by rewrite (ke_open _ _ Hk)|lia|].
      intros id Hid%elem_of_rotate. by apply (ke_dom _ _ Hk), (sm_dom m H). }
  eexists m', x', _. split; [done|]. split; [by eapply keeps_trans|]. split; [done|].
  assert (rot ≡ₚ l) as Hrot by (unfold rot, rotate; by rewrite Permutation_app_comm, take_drop).
  transitivity (filter priority l ++ filter (λ id, ~ priority id) l).
  - apply Permutation_app; [|by rewrite Hrot]. apply NoDup_Permutation.
    + apply NoDup_filter. repeat constructor; set_solver.
    + apply NoDup_filter, (sm_nodup m H).
    + intros id. rewrite !list_elem_of_filter, <- (sm_dom m H). unfold priority. set_solver.
  - apply filter_app_complement.
Qed.

(** *** A function that stops behind every stream *)

(** It continues behind the crypto and the header stream, and stops behind every other
    one, as when the packet is full. *)
Definition stops : Prop := ∀ s m x, sm_inv m → (fn s (m, x)).2.1 = bool_decide (priority (stream.streamID s)).

Lemma visit_stop n ids m x log id0 : stops → sm_inv m → n = len (openStreams m) → 0 < n →
  (∀ id, id ∈ ids → is_Some (streams m !! id)) → id0 ∈ ids → ~ priority id0 →
  ∃ m' x' id, visit (logged fn) n ids (m, (x, log)) = ((m', (x', log ++ [id])), None) ∧ keeps m m' ∧
    roundRobinIndex m' = (roundRobinIndex m + 1) mod n ∧ (head ids = Some id0 → id = id0).
Proof.
  intros Hst H En Hn Hids Hin Hp0. induction ids as [|id ids IH]; [by apply elem_of_nil in Hin|]. cbn [visit].
  destruct (decide (id = 1 ∨ id = 3)) as [Hp|Hp].
  - apply elem_of_cons in Hin as [->|Hin]; [done|].
    destruct IH as (m' & x' & id1 & E & Hk & Hr & _); [intros a Ha; apply Hids; by right|done|].
    exists m', x', id1. split; [done|]. split; [done|]. split; [done|]. intros [= ->]. done.
  - destruct (logged_call m x log id H (Hids id ltac:(by left))) as (m1 & x1 & cont & -> & Hk & Hr & s & Es & ->).
    rewrite (Hst s m x H), (sm_ids m H id s Es), bool_decide_eq_false_2 by done. cbn [fst snd].
    eexists _, x1, id. split; [done|]. split; [by apply set_index_keeps'|]. split; [cbn; by rewrite Hr|]. by intros [= ->].
Qed.

Definition ordinary (m : streamsMap) (id : Z) : Prop := id ∈ openStreams m ∧ ~ priority id.

(** One iteration: one ordinary stream is served, the one at the index if it is one. *)
Lemma round_stop m x log id0 : stops → sm_inv m → len (openStreams m) < 2 ^ 31 → ordinary m id0 →
  ∃ m' x' log', RoundRobinIterate (logged fn) (m, (x, log)) = Ok ((m', (x', log ++ log')), None) ∧ keeps m m' ∧
    roundRobinIndex m' = (roundRobinIndex m + 1) mod len (openStreams m) ∧
    (openStreams m !! Z.to_nat (roundRobinIndex m mod len (openStreams m)) = Some id0 → id0 ∈ log').
Proof.
  intros Hst H Hl [Hin Hp]. rewrite (RoundRobin_rotation (logged fn) gentle_logged m (x, log) H Hl).
  destruct (priority_all [1; 3] m x log) as (m1 & x1 & -> & Hk & Hr); [|done|].
  { intros s m' x' H' Hs. rewrite (Hst s m' x' H'). apply bool_decide_eq_true_2. unfold priority. set_solver. }
  pose proof (keeps_index_inv m m1 H Hk Hr) as H1. pose proof (len_nonneg (openStreams m)).
  assert (0 < len (openStreams m)) as Hn.
  { destruct (Z.eq_dec (len (openStreams m)) 0) as [E%len_zero|]; [|lia]. rewrite E in Hin. by apply elem_of_nil in Hin. }
  destruct (visit_stop (len (openStreams m)) (rotate (Z.to_nat (roundRobinIndex m)) (openStreams m)) m1 x1
    (log ++ filter (λ id, is_Some (streams m !! id)) [1; 3]) id0) as (m' & x' & id & -> & Hk' & Hr' & Hhd); try done.
  { by rewrite (ke_open _ _ Hk). }
  { intros a Ha%elem_of_rotate. by apply (ke_dom _ _ Hk), (sm_dom m H). }
  { by apply elem_of_rotate. }
  eexists m', x', (filter _ [1; 3] ++ [id]). split; [by rewrite app_assoc|]. split; [by eapply keeps_trans|].
  split; [by rewrite Hr', Hr|]. intros E. rewrite elem_of_app. right. rewrite Hhd; [by left|].
  rewrite head_lookup, lookup_rotate_r by (unfold len in *; lia). rewrite <- E. f_equal. unfold rotate_nat_add.
  f_equal. f_equal. pose proof (sm_index m H). lia.
Qed.

(** [k] iterations, one after the other. *)
Fixpoint rounds (k : nat) (x : streamsMap * (X * list Z)) : outcome (streamsMap * (X * list Z)) :=
  match k with
  | O => Ok x
  | S k => '(x, _) ← RoundRobinIterate (logged fn) x; rounds k x
  end.

Lemma ordinary_keeps m m' id : keeps m m' → ordinary m id → ordinary m' id.
Proof. intros Hk. unfold ordinary. by rewrite (ke_open _ _ Hk). Qed.

Lemma rounds_serve k m x log id0 j : stops → sm_inv m → len (openStreams m) < 2 ^ 31 → ordinary m id0 →
  0 <= j < len (openStreams m) → openStreams m !! Z.to_nat j = Some id0 →
  ∃ m' x' log', rounds k (m, (x, log)) = Ok (m', (x', log ++ log')) ∧
    ((j - roundRobinIndex m) mod len (openStreams m) < Z.of_nat k → id0 ∈ log').
Proof.
  intros Hst. revert m x log. induction k as [|k IH]; intros m x log H Hl Ho Hj Ej.
  - exists m, x, []. rewrite app_nil_r. split; [done|]. pose proof (Z.mod_pos_bound (j - roundRobinIndex m) (len (openStreams m))). lia.
  - destruct (round_stop m x log id0 Hst H Hl Ho) as (m1 & x1 & log1 & E & Hk & Hr & Hs). cbn [rounds]. rewrite E. cbn [mbind outcome_bind].
    pose proof (sm_index m H) as Hi. assert (0 < len (openStreams m)) as Hn by lia.
    pose proof (Z.mod_pos_bound (roundRobinIndex m + 1) (len (openStreams m)) Hn).
    assert (sm_inv m1) as H1 by (apply (keeps_inv m); [done|done|rewrite Hr; lia]).
    destruct (IH m1 x1 (log ++ log1) H1) as (m2 & x2 & log2 & E2 & Hin); rewrite ?(ke_open _ _ Hk); try done.
    { by eapply ordinary_keeps. }
    exists m2, x2, (log1 ++ log2). split; [by rewrite app_assoc|]. rewrite elem_of_app. intros Hd.
    destruct (Z.eq_dec ((j - roundRobinIndex m) mod len (openStreams m)) 0) as [E0|Hne].
    + left. apply Hs. rewrite <- Ej. f_equal. f_equal. 
      apply Z.cong_iff_0 in E0. by rewrite <- E0, Z.mod_small by lia.
    + right. apply Hin. rewrite (ke_open _ _ Hk), Hr, Zminus_mod_idemp_r.
      replace (j - (roundRobinIndex m + 1)) with (j - roundRobinIndex m - 1) by lia.
      rewrite <- Zminus_mod_idemp_l, Z.mod_small; lia.
Qed.

(** No stream starves. When every iteration serves only one stream besides the crypto and the header
    stream, because it fills the packet, then every open stream is served at least once
    in as many iterations as there are open streams. *)
Theorem no_starvation m x id : stops → sm_inv m → len (openStreams m) < 2 ^ 31 → id ∈ openStreams m → ~ priority id →
  ∃ m' x' log, rounds (length (openStreams m)) (m, (x, [])) = Ok (m', (x', log)) ∧ id ∈ log.
Proof.
  intros Hst H Hl Hin Hp. apply list_elem_of_lookup_1 in Hin as Hj. destruct Hj as [j Hj]. pose proof (lookup_lt_Some _ _ _ Hj) as Hlt.
  destruct (rounds_serve (length (openStreams m)) m x [] id (Z.of_nat j) Hst H Hl) as (m' & x' & log & E & Hlog);
    [done|unfold len; lia|by rewrite Nat2Z.id|].
  exists m', x', log. split; [exact E|]. apply Hlog. pose proof (Z.mod_pos_bound (Z.of_nat j - roundRobinIndex m) (len (openStreams m))).
  unfold len in *. lia.
Qed.

End visits.

(** *** Closing and collecting *)

Lemma cancelLoop_keeps e ids m : sm_inv m → (∀ id, id ∈ ids → is_Some (streams m !! id)) →
  ∃ m', cancelLoop e ids m = Ok m' ∧ keeps m m' ∧ roundRobinIndex m' = roundRobinIndex m ∧ closeErr m' = closeErr m ∧
    (∀ id s, id ∈ ids → streams m' !! id = Some s → stream.cancelled s = true) ∧
    (∀ id s s', streams m !! id = Some s → streams m' !! id = Some s' → stream.cancelled s = true → stream.cancelled s' = true).
Proof.
  revert m. induction ids as [|id ids IH]; intros m H Hids; cbn [cancelLoop].
  - exists m. split; [done|]. split; [by apply keeps_refl|]. split; [done|]. split; [done|]. split; [by intros ? ? ?%elem_of_nil|].
    intros a s s' E1 E2. rewrite E1 in E2. by injection E2 as ->.
  - destruct (Hids id ltac:(by left)) as [s Es]. rewrite Es.
    assert (stream.streamID (stream.Cancel e s) = id) as Hc.
    { rewrite <- (sm_ids m H id s Es). unfold stream.Cancel. by case_match. }
    assert (stream.cancelled (stream.Cancel e s) = true) as Hcc by (unfold stream.Cancel; by case_match).
    pose proof (setStream_keeps m (stream.Cancel e s) s H ltac:(by rewrite Hc)) as Hk. unfold setStream in Hk. rewrite Hc in Hk.
    set (m1 := set_streams _ m) in *.
    assert (sm_inv m1) as H1 by (apply (keeps_inv m); [done|done|apply (sm_index m H)]).
    destruct (IH m1 H1) as (m' & E & Hk' & Hr & He & Hin & Hold).
    { intros a Ha. apply (ke_dom _ _ Hk), Hids. by right. }
    exists m'. split; [done|]. split; [by eapply keeps_trans|]. split; [done|]. split; [done|].
    assert (∀ s', streams m' !! id = Some s' → stream.cancelled s' = true) as Hid.
    { intros s' Es'. apply (Hold id (stream.Cancel e s) s'); [|done|done]. cbn. apply lookup_insert_eq. }
    split.
    + intros a s' [->|Ha]%elem_of_cons Es'; [by apply Hid|by eapply Hin].
    + intros a s1 s' E1 E2 Hcan. destruct (decide (id = a)) as [->|Hne]; [by apply Hid|]. apply (Hold a s1 s'); try done.
      cbn. by rewrite lookup_insert_ne.
Qed.

(** A stream can be removed while the iteration goes on over the list as it was. *)
Lemma collect_inv ids m f : sm_inv m → NoDup ids → (∀ id, id ∈ ids → is_Some (streams m !! id)) →
  ∃ m' f', iterateLoop collectStream ids (m, f) = ((m', f'), None) ∧ sm_inv m' ∧
    nextStream m' = nextStream m ∧ highestStreamOpenedByPeer m' = highestStreamOpenedByPeer m ∧ perspective m' = perspective m ∧
    nextStreamToAccept m' = nextStreamToAccept m ∧ closeErr m' = closeErr m ∧
    (∀ id, streams m' !! id = if decide (id ∈ ids ∧ option_map stream.finished (streams m !! id) = Some true) then None else streams m !! id) ∧
    (∀ id, flowControlManager.streamFlowController f' !! id =
       if decide (id ∈ ids ∧ option_map stream.finished (streams m !! id) = Some true) then None
       else flowControlManager.streamFlowController f !! id) ∧
    flowControlManager.connFlowController f' = flowControlManager.connFlowController f.
Proof.
  revert m f. induction ids as [|id ids IH]; intros m f H Hnd Hids; cbn [iterateLoop].
  - exists m, f. split_and!; try done; intros id; (rewrite decide_False; [done|by intros [?%elem_of_nil _]]).
  - apply NoDup_cons in Hnd as [Hni Hnd]. destruct (Hids id ltac:(by left)) as [s Es]. unfold iterateFunc. cbn [fst]. rewrite Es.
    unfold collectStream. rewrite (sm_ids m H id s Es). destruct (stream.finished s) eqn:Ef.
    + cbn [fst]. pose proof (RemoveStream_spec m id H) as Hs. rewrite Es in Hs. destruct Hs as (pre & post & El & ->). cbn [snd].
      destruct (IH (removed id pre post m) (flowControlManager.RemoveStream id f) (removed_inv m id pre post H El) Hnd)
        as (m' & f' & E & Hi & E1 & E2 & E3 & E4 & E5 & Hst & Hfl & Hco).
      { intros a Ha. cbn. apply lookup_delete_is_Some. split; [by intros ->|]. apply Hids. by right. }
      exists m', f'. split_and!; try done; intros a.
      * rewrite Hst. cbn. destruct (decide (a = id)) as [->|Hne].
        { rewrite lookup_delete_eq, (decide_True (P := id ∈ id :: ids ∧ _)) by (rewrite Es; cbn; rewrite Ef; split; [by left|done]). by case_decide. }
        rewrite lookup_delete_ne by done. apply decide_ext. rewrite elem_of_cons. naive_solver.
      * rewrite Hfl. cbn. destruct (decide (a = id)) as [->|Hne].
        { rewrite !lookup_delete_eq, (decide_True (P := id ∈ id :: ids ∧ _)) by (rewrite Es; cbn; rewrite Ef; split; [by left|done]). by case_decide. }
        rewrite !lookup_delete_ne by done. apply decide_ext. rewrite elem_of_cons. naive_solver.
    + cbn [snd]. destruct (IH m f H Hnd) as (m' & f' & E & Hi & E1 & E2 & E3 & E4 & E5 & Hst & Hfl & Hco).
      { intros a Ha. apply Hids. by right. }
      exists m', f'. split_and!; try done; intros a; [rewrite Hst|rewrite Hfl];
        apply decide_ext; rewrite elem_of_cons; (split; [naive_solver|]); intros [[->|?] Ha]; [|done| |done];
        rewrite Es in Ha; cbn in Ha; congruence.
Qed.

(** *** Runs of the session on its streams *)

(** What the session and the application do to the map. The last identifiers of the
    32-bit space are not used; an operation on a stream is any change of that stream,
    an iteration in turn calls any function that changes streams only. *)
Inductive sm_step (m : streamsMap) : streamsMap → Prop :=
  | step_get f id : 0 < id < 2 ^ 32 - 400 → sm_step m (GetOrOpenStream cp lim id m f).1.1
  | step_open f : nextStream m < 2 ^ 32 - 2 → sm_step m (OpenStream cp lim m f).1.1
  | step_open_sync f : nextStream m < 2 ^ 32 - 2 → sm_step m (OpenStreamSync cp lim m f).1.1
  | step_accept : sm_step m (AcceptStream m).1
  | step_stream s s0 : streams m !! stream.streamID s = Some s0 → sm_step m (setStream s m)
  | step_round_robin X (fn : stream → streamsMap * X → (streamsMap * X) * (bool * option error)) x m' x' e : gentle fn →
      len (openStreams m) < 2 ^ 31 → RoundRobinIterate fn (m, x) = Ok ((m', x'), e) → sm_step m m'
  | step_remove id : sm_step m (RemoveStream id m).1
  | step_collect f : sm_step m (garbageCollectStreams m f).1
  | step_close e m' : CloseWithError e m = Ok m' → sm_step m m'.

Inductive sm_reachable (pers : Perspective) : streamsMap → Prop :=
  | reach_new : sm_reachable pers (newStreamsMap pers)
  | reach_step m m' : sm_reachable pers m → sm_step m m' → sm_reachable pers m'.

(** What a step does to identifiers: those that were used stay used, and a stream that is
    opened was not used before. *)
Record grows (m m' : streamsMap) : Prop := {
  gr_perspective : perspective m' = perspective m;
  gr_next : nextStream m <= nextStream m';
  gr_highest : highestStreamOpenedByPeer m <= highestStreamOpenedByPeer m';
  gr_fresh id : is_Some (streams m' !! id) → streams m !! id = None → ~ used m id;
  gr_limit : numIncomingStreams m <= GetMaxIncomingStreams lim → perspective m = PerspectiveServer →
    numIncomingStreams m' <= GetMaxIncomingStreams lim;
}.

Lemma used_iff m m' id : perspective m' = perspective m → nextStream m' = nextStream m →
  highestStreamOpenedByPeer m' = highestStreamOpenedByPeer m → used m' id ↔ used m id.
Proof.
  intros E1 E2 E3. assert (own m' id ↔ own m id) as Ho by (unfold own; by rewrite E1).
  unfold used. rewrite E2, E3. destruct (decide (own m' id)), (decide (own m id)); tauto.
Qed.

Lemma keeps_grows m m' : keeps m m' → grows m m'.
Proof.
  intros [E1 E2 E3 E4 E5 E6 E7 Hd Hi]. constructor; [done|lia|lia| |by rewrite E7].
  intros id Hs%Hd Hn. rewrite Hn in Hs. by destruct Hs.
Qed.

Lemma grows_removed m m' : perspective m' = perspective m → nextStream m' = nextStream m →
  highestStreamOpenedByPeer m' = highestStreamOpenedByPeer m → numIncomingStreams m' <= numIncomingStreams m →
  (∀ id, is_Some (streams m' !! id) → is_Some (streams m !! id)) → grows m m'.
Proof. intros E1 E2 E3 E4 Hs. constructor; [done|lia|lia| |lia]. intros id H%Hs Hn. rewrite Hn in H. by destruct H. Qed.

Lemma opened_own_grows m : sm_inv m → grows m (opened_own m).
Proof.
  intros H. destruct (sm_next m H) as [Ho ?]. constructor; cbn; [done|lia|lia| |].
  - intros id. rewrite lookup_insert_is_Some'. intros [<-|[? ?]] Hn; [|congruence]. unfold used. rewrite decide_True by done. lia.
  - intros Hle Hp. unfold own in Ho. rewrite Hp in Ho. rewrite decide_False by lia. lia.
Qed.

Lemma GetOrOpen_grows m f id : sm_inv m → 0 < id < 2 ^ 32 - 400 →
  sm_inv (GetOrOpenStream cp lim id m f).1.1 ∧ grows m (GetOrOpenStream cp lim id m f).1.1.
Proof.
  intros H Hid. assert (GetOrOpenStream cp lim id m f = (m, f, (GetOrOpenStream cp lim id m f).2) ∨
    streams m !! id = None ∧ ~ own m id ∧ highestStreamOpenedByPeer m < id) as [->|(Hn & Ho & Hh)].
  { unfold GetOrOpenStream. destruct (streams m !! id); [by left|]. rewrite notOpen_spec.
    destruct (decide (own m id)); [left; by destruct (id <=? nextStream m)|].
    destruct (Z.leb_spec id (highestStreamOpenedByPeer m)); [by left|by right]. }
  { split; [done|]. apply keeps_grows. by apply keeps_refl. }
  destruct (GetOrOpen_opens m f id H Hid Hn Ho Hh) as (k & r & -> & Hi & Hk & _). split; [done|]. cbn [fst].
  destruct (opened_all_fields (every_second (nextRemote m) k) m) as (Ep & _ & En & _ & _ & _ & Es).
  destruct (nextRemote_spec m H) as (Hr & Hro & _). constructor; [done|lia| | |].
  - destruct k as [|k]; [cbn; lia|]. destruct Hk as [_ ->]; lia.
  - intros a. rewrite Es. case_decide as Ha; [|intros [? ?] ?; congruence].
    intros _ _. apply elem_of_every_second in Ha as [Ha1 Ha2]. unfold used.
    rewrite decide_False by (unfold own in *; destruct (perspective m); lia). lia.
  - intros Hle _. destruct k as [|k]; [done|]. apply Hk. lia.
Qed.

Lemma open_grows m f : sm_inv m → nextStream m < 2 ^ 32 - 2 →
  sm_inv (openStreamImpl cp lim m f).1.1 ∧ grows m (openStreamImpl cp lim m f).1.1.
Proof.
  intros H Hn. rewrite (openStreamImpl_spec m f H Hn). case_match; cbn [fst].
  - split; [done|]. apply keeps_grows. by apply keeps_refl.
  - split; [by apply opened_own_inv|by apply opened_own_grows].
Qed.

(** A property that the calls and the moves of the index keep. *)
Section round_robin_invariant.
Context {X : Type} (fn : stream → streamsMap * X → (streamsMap * X) * (bool * option error)) (P : streamsMap → X → Prop).
Hypothesis Hg : gentle fn.
Hypothesis Hcall : ∀ s m x m' x' r, sm_inv m → streams m !! stream.streamID s = Some s → P m x →
  fn s (m, x) = ((m', x'), r) → P m' x'.
Hypothesis Hindex : ∀ v m x, P m x → P (set_roundRobinIndex v m) x.

Lemma iterateFunc_invariant id m x m' x' r : sm_inv m → P m x → iterateFunc fn id (m, x) = ((m', x'), r) → P m' x'.
Proof.
  intros H HP. unfold iterateFunc. cbn [fst]. destruct (streams m !! id) as [s|] eqn:Es; [|by intros [= <- <- _]].
  pose proof (sm_ids m H id s Es) as Hid. apply Hcall; [done| |done]. by rewrite Hid.
Qed.

Lemma priorityLoop_invariant ids m x m' x' stop : sm_inv m → P m x → priorityLoop fn ids (m, x) = ((m', x'), stop) → P m' x'.
Proof.
  revert m x. induction ids as [|id ids IH]; intros m x H HP; cbn [priorityLoop]; [by intros [= <- <- <-]|].
  destruct (iterateFunc fn id (m, x)) as [[m1 x1] [cont e]] eqn:Ei. pose proof (iterateFunc_invariant _ _ _ _ _ _ H HP Ei) as HP1.
  destruct (iterateFunc_keeps fn Hg _ _ _ _ _ _ _ H Ei) as (Hk & Hr & _).
  case_bool_decide; [by intros [= <- <- <-]|]. destruct cont; [|by intros [= <- <- <-]].
  apply IH; [|done]. by apply (keeps_index_inv m).
Qed.

Lemma visit_invariant n ids m x m' x' e : sm_inv m → n = len (openStreams m) → (ids = [] ∨ 0 < n) → P m x →
  visit fn n ids (m, x) = ((m', x'), e) → sm_inv m' ∧ keeps m m' ∧ P m' x'.
Proof.
  revert m x. induction ids as [|id ids IH]; intros m1 x1 H1 En Hn HP; cbn [visit].
  - intros [= <- <- <-]. split; [done|]. split; [by apply keeps_refl|done].
  - destruct Hn as [?|Hn]; [done|]. case_decide; [by apply IH; auto|].
    destruct (iterateFunc fn id (m1, x1)) as [[m2 x2] [cont e2]] eqn:Ei. pose proof (iterateFunc_invariant _ _ _ _ _ _ H1 HP Ei) as HP2.
    destruct (iterateFunc_keeps fn Hg _ _ _ _ _ _ _ H1 Ei) as (Hk & Hr & _). pose proof (keeps_index_inv m1 m2 H1 Hk Hr) as H2.
    destruct e2; [by intros [= <- <- <-]|]. cbn [fst snd].
    assert (sm_inv (set_roundRobinIndex ((roundRobinIndex m2 + 1) mod n) m2)) as H3.
    { apply advance_inv; [done| |done]. by rewrite (ke_open _ _ Hk). }
    assert (keeps m1 (set_roundRobinIndex ((roundRobinIndex m2 + 1) mod n) m2)) as Hk3 by by apply set_index_keeps'.
    destruct cont; [|intros [= <- <- <-]; split; [done|]; split; [done|by apply Hindex]]. intros E.
    destruct (IH _ _ H3 ltac:(cbn; by rewrite (ke_open _ _ Hk)) ltac:(by right) (Hindex _ _ _ HP2) E) as (? & ? & ?).
    split; [done|]. split; [by eapply keeps_trans|done].
Qed.

Lemma RoundRobin_invariant m x : sm_inv m → len (openStreams m) < 2 ^ 31 → P m x →
  ∃ m' x' e, RoundRobinIterate fn (m, x) = Ok ((m', x'), e) ∧ sm_inv m' ∧ keeps m m' ∧ P m' x'.
Proof.
  intros H Hl HP. rewrite (RoundRobin_rotation fn Hg m x H Hl).
  destruct (priorityLoop fn [1; 3] (m, x)) as [[m1 x1] stop] eqn:Ep. pose proof (priorityLoop_invariant _ _ _ _ _ _ H HP Ep) as HP1.
  destruct (priorityLoop_keeps fn Hg _ _ _ _ _ _ H Ep) as (Hk & Hr & _).
  pose proof (keeps_index_inv m m1 H Hk Hr) as H1. destruct stop as [e'|]; [by eexists _, _, _|].
  destruct (visit fn _ _ (m1, x1)) as [[m' x'] e] eqn:E. exists m', x', e. split; [done|].
  eapply visit_invariant in E as (? & ? & ?); [split; [done|]; split; [by eapply keeps_trans|done]|done|by rewrite (ke_open _ _ Hk)| |done].
  pose proof (len_nonneg (openStreams m)). destruct (Z.eq_dec (len (openStreams m)) 0) as [E0%len_zero|]; [left|right; lia].
  unfold rotate. by rewrite E0, drop_nil, take_nil.
Qed.

End round_robin_invariant.

Lemma RoundRobin_grows X (fn : stream → streamsMap * X → (streamsMap * X) * (bool * option error)) m x m' x' e : gentle fn → sm_inv m →
  len (openStreams m) < 2 ^ 31 → RoundRobinIterate fn (m, x) = Ok ((m', x'), e) → sm_inv m' ∧ keeps m m'.
Proof.
  intros Hg H Hl E. destruct (RoundRobin_invariant fn (λ _ _, True) Hg ltac:(done) ltac:(done) m x H Hl I) as (? & ? & ? & E' & ? & ? & _).
  rewrite E in E'. injection E' as <- <- <-. done.
Qed.

(** Every step keeps the invariant and only moves identifiers up; it moves the next
    stream to accept only when that stream is open. *)
Lemma step_sound m m' : sm_inv m → sm_step m m' →
  sm_inv m' ∧ grows m m' ∧
  (streams m !! nextStreamToAccept m = None → nextStreamToAccept m' = nextStreamToAccept m).
Proof.
  intros H Hs. pose proof (keeps_grows m m (keeps_refl m H)) as Hg0. pose proof (sm_index m H) as Hix.
  destruct Hs as [f id Hid|f Hn|f Hn| |s s0 Es|X fn x m' x' e Hfn Hl E|id|f|e m' E].
  - destruct (GetOrOpen_grows m f id H Hid) as [Hi Hgr]. split; [done|]. split; [done|]. intros _.
    unfold GetOrOpenStream. destruct (streams m !! id) eqn:Es; [done|]. rewrite notOpen_spec.
    destruct (decide (own m id)) as [Ho|Ho]; [by destruct (id <=? nextStream m)|].
    destruct (Z.leb_spec id (highestStreamOpenedByPeer m)) as [|Hh]; [done|].
    destruct (GetOrOpen_opens m f id H Hid Es Ho Hh) as (k & r & E & _). unfold GetOrOpenStream in E. rewrite Es, notOpen_spec, decide_False in E by done.
    destruct (Z.leb_spec id (highestStreamOpenedByPeer m)); [lia|]. rewrite E. cbn [fst]. apply opened_all_fields.
  - unfold OpenStream. destruct (closeErr m); [done|]. destruct (open_grows m f H Hn). split; [done|]. split; [done|]. intros _.
    rewrite (openStreamImpl_spec m f H Hn). by case_match.
  - unfold OpenStreamSync. destruct (closeErr m); [done|]. destruct (open_grows m f H Hn) as [Hi Hgr]. revert Hi Hgr.
    rewrite (openStreamImpl_spec m f H Hn). destruct (GetMaxOutgoingStreams lim <=? numOutgoingStreams m); [|done]. by rewrite decide_True.
  - unfold AcceptStream. destruct (closeErr m); [done|]. destruct (streams m !! nextStreamToAccept m) eqn:Ea; [|done].
    split; [|split; [|done]].
    + destruct H. by constructor.
    + apply grows_removed; done.
  - pose proof (setStream_keeps m s s0 H Es) as Hk. split; [by apply (keeps_inv m)|]. split; [by apply keeps_grows|done].
  - destruct (RoundRobin_grows X fn m x m' x' e Hfn H Hl E) as [? Hk]. split; [done|]. split; [by apply keeps_grows|].
    intros _. apply (ke_accept _ _ Hk).
  - pose proof (RemoveStream_keeps_inv m id H) as Hi. split; [done|]. pose proof (RemoveStream_spec m id H) as Hs.
    destruct (streams m !! id) eqn:Es; [|by rewrite Hs]. destruct Hs as (pre & post & _ & ->). split; [|done].
    apply grows_removed; try done; cbn; [case_decide; lia|]. intros a. rewrite lookup_delete_is_Some. tauto.
  - unfold garbageCollectStreams, Iterate. change (openStreams (m, f).1) with (openStreams m). destruct (collect_inv (openStreams m) m f H (sm_nodup m H)) as
      (m' & f' & -> & Hi & E1 & E2 & E3 & E4 & _ & Est & _); [intros id; by apply (sm_dom m H)|]. cbn [fst].
    split; [done|]. split; [|done]. constructor; [done|lia|lia| |].
    + intros id. rewrite Est. case_decide; [by intros []|]. intros [? ?] ?. congruence.
    + intros Hle _. rewrite (sm_incoming m' Hi). rewrite (sm_incoming m H) in Hle. etransitivity; [|exact Hle].
      unfold odds, len. apply inj_le, submseteq_length, NoDup_submseteq; [apply NoDup_filter, (sm_nodup m' Hi)|].
      intros id. rewrite !list_elem_of_filter, (sm_dom m' Hi), (sm_dom m H), Est. case_decide; [by intros [_ []]|done].
  - unfold CloseWithError in E. assert (sm_inv (set_closeErr e m)) as H1 by (destruct H; by constructor).
    destruct (cancelLoop_keeps e (openStreams m) _ H1) as (m1 & E1 & Hk & Hr & _); [intros id; by apply (sm_dom m H)|].
    cbn in E. rewrite E1 in E. injection E as <-. pose proof (keeps_index_inv _ _ H1 Hk Hr). split; [done|]. split; [|intros _; apply (ke_accept _ _ Hk)].
    destruct (keeps_grows _ _ Hk) as [G1 G2 G3 G4 G5]. by constructor.
Qed.

Lemma reachable_sound pers m : 0 <= GetMaxIncomingStreams lim → sm_reachable pers m →
  sm_inv m ∧ perspective m = pers ∧ (pers = PerspectiveServer → numIncomingStreams m <= GetMaxIncomingStreams lim).
Proof.
  intros Hlim. induction 1 as [|m m' _ (H & Hp & IH) Hs].
  - split; [apply new_inv|]. by destruct pers.
  - destruct (step_sound m m' H Hs) as (Hi & Hg & _). split; [done|]. split; [by rewrite (gr_perspective _ _ Hg)|].
    intros E. apply (gr_limit _ _ Hg); [by apply IH|congruence].
Qed.

(** C27: the map of the streams is consistent, after every sequence of operations (with
    identifiers below 2^32 - 400 in frames of the peer): the list for the
    iteration has each open stream once and no other; a stream is stored under its
    own identifier; the two counters are the numbers of open even and odd streams;
    the index of the iteration lies in the list; open streams of this side are below the
    next identifier, those of the peer at most the highest that it opened. On the
    server, the number of open streams of the client never exceeds the limit. *)
Theorem streams_map_invariant pers m : 0 <= GetMaxIncomingStreams lim → sm_reachable pers m →
  NoDup (openStreams m) ∧
  (∀ id, id ∈ openStreams m ↔ ∃ s, streams m !! id = Some s ∧ stream.streamID s = id) ∧
  numOutgoingStreams m = len (filter (λ id, id mod 2 = 0) (openStreams m)) ∧
  numIncomingStreams m = len (filter (λ id, id mod 2 = 1) (openStreams m)) ∧
  0 <= roundRobinIndex m <= len (openStreams m) ∧
  (∀ id, id ∈ openStreams m → used m id) ∧
  (pers = PerspectiveServer → len (filter (λ id, id mod 2 = 1) (openStreams m)) <= GetMaxIncomingStreams lim).
Proof.
  intros Hlim Hr. destruct (reachable_sound pers m Hlim Hr) as (H & _ & Hle).
  pose proof (sm_outgoing m H). pose proof (sm_incoming m H) as Hin. split; [apply (sm_nodup m H)|]. split.
  - intros id. rewrite (sm_dom m H). split; [|intros (s & ? & _); eauto]. intros [s Es]. exists s. split; [done|]. by apply (sm_ids m H).
  - split; [done|]. split; [done|]. split; [apply (sm_index m H)|]. split; [|intros E; specialize (Hle E); unfold odds in Hin; lia].
    intros id Hid. unfold used. destruct (decide (own m id)) as [Ho|Ho]; [apply (sm_own m H id Hid Ho)|apply (sm_remote m H id Hid Ho)].
Qed.

Lemma steps_sound m m' : sm_inv m → rtc sm_step m m' → sm_inv m' ∧ ∀ id, used m id → streams m !! id = None →
  used m' id ∧ streams m' !! id = None.
Proof.
  intros H Hs. induction Hs as [m|m m1 m' Hs _ IH]; [done|]. destruct (step_sound m m1 H Hs) as (H1 & Hg & _).
  destruct (IH H1) as [Hi IH']. split; [done|]. intros id Hu Hn.
  assert (used m1 id) as Hu1.
  { unfold used in *. assert (own m1 id ↔ own m id) as Ho by (unfold own; by rewrite (gr_perspective _ _ Hg)).
    pose proof (gr_next _ _ Hg). pose proof (gr_highest _ _ Hg). destruct (decide (own m1 id)), (decide (own m id)); tauto || lia. }
  apply IH'; [done|]. destruct (streams m1 !! id) as [s|] eqn:Es; [|done]. destruct (gr_fresh _ _ Hg id); [eauto|done|done].
Qed.

(** A stream is opened at most once. An identifier that was opened, or passed over by
    opening a higher one, and that is not open any more, is never open again,
    whatever frames arrive for it; every later lookup says that it is closed and changes nothing. *)
Theorem closed_stays_closed pers m m' f id : 0 <= GetMaxIncomingStreams lim → sm_reachable pers m → rtc sm_step m m' →
  used m id → streams m !! id = None → 0 < id < 2 ^ 32 - 400 →
  streams m' !! id = None ∧ GetOrOpenStream cp lim id m' f = (m', f, inl None).
Proof.
  intros Hlim Hr Hs Hu Hn Hid. destruct (reachable_sound pers m Hlim Hr) as (H & _).
  destruct (steps_sound m m' H Hs) as [Hi Hk]. destruct (Hk id Hu Hn) as [Hu' Hn']. split; [done|].
  unfold GetOrOpenStream. rewrite Hn', notOpen_spec. unfold used in Hu'. destruct (decide (own m' id)).
  - destruct (Z.leb_spec id (nextStream m')); [done|lia].
  - destruct (Z.leb_spec id (highestStreamOpenedByPeer m')); [done|lia].
Qed.

(** A stream that is closed before it is accepted blocks AcceptStream for ever. When the
    next stream to accept has been opened by the peer and collected in the meantime (as
    after a RST_STREAM frame), then as long as the session is not closed every later call
    of AcceptStream waits, however many streams the peer opens. *)
Theorem accept_stalls pers m m' : 0 <= GetMaxIncomingStreams lim → sm_reachable pers m →
  used m (nextStreamToAccept m) → streams m !! nextStreamToAccept m = None →
  rtc (λ a b, sm_step a b ∧ closeErr b = None) m m' → closeErr m = None → AcceptStream m' = (m', None).
Proof.
  intros Hlim Hr Hu Hn Hs Hc. destruct (reachable_sound pers m Hlim Hr) as (H & _). clear Hr.
  induction Hs as [m|m m1 m' [Hs Hc1] _ IH]; [unfold AcceptStream; by rewrite Hc, Hn|].
  destruct (step_sound m m1 H Hs) as (H1 & _ & Ha). specialize (Ha Hn).
  destruct (steps_sound m m1 H (rtc_once _ _ Hs)) as [_ Hk]. destruct (Hk _ Hu Hn).
  apply IH; rewrite ?Ha; done.
Qed.

(** The limit on streams does not bind a client. On a client the streams that the
    server opens are not counted in the number that is compared with the limit: when
    fewer streams than the limit were opened by the client itself, a single frame with a high
    identifier makes the client open every even stream up to it, however many there are. *)
Theorem client_opens_without_limit m f id : sm_inv m → perspective m = PerspectiveClient → 0 < id < 2 ^ 32 - 400 →
  id mod 2 = 0 → highestStreamOpenedByPeer m < id → numIncomingStreams m < GetMaxIncomingStreams lim →
  ∃ m', (GetOrOpenStream cp lim id m f).1.1 = m' ∧ (GetOrOpenStream cp lim id m f).2 = inl (Some (stream.newStream id)) ∧
    len (openStreams m') = len (openStreams m) + (id - highestStreamOpenedByPeer m) / 2 ∧
    numIncomingStreams m' = numIncomingStreams m.
Proof.
  intros H Hp Hid Heven Hh Hmax. assert (~ own m id) as Ho by (unfold own; rewrite Hp; lia).
  pose proof (fresh_remote m id H Hh Ho) as Hn.
  destruct (GetOrOpen_opens m f id H Hid Hn Ho Hh) as (k & r & -> & Hi & _ & Hr). cbn [fst snd]. eexists. split; [done|].
  destruct (opened_all_fields (every_second (nextRemote m) k) m) as (Ep & El & _).
  destruct (nextRemote_spec m H) as (Hnr & Hno & _). destruct (sm_highest m H) as [Hhr Hhp].
  unfold own in Hno, Hhp. rewrite Hp in Hno, Hhp.
  assert (numIncomingStreams (opened_all (every_second (nextRemote m) k) m) = numIncomingStreams m) as Ein.
  { rewrite (sm_incoming _ Hi), (sm_incoming m H), El, odds_app.
    assert (odds (every_second (nextRemote m) k) = 0) as ->; [|lia]. unfold odds.
    assert (filter (λ id, id mod 2 = 1) (every_second (nextRemote m) k) = []) as ->; [|done].
    apply elem_of_nil_inv. intros x [Hx1 [Hx2 Hx3]%elem_of_every_second]%list_elem_of_filter. lia. }
  destruct Hr as [[-> Hk]|(_ & _ & Hle)]; [|lia]. split; [done|]. split; [|done]. rewrite El, len_app.
  unfold every_second, len at 2. rewrite length_fmap, length_seq. lia.
Qed.

End invariant.

(** ** Concrete runs *)
Module StreamsMapExamples.
Import protocol streamsMap session_streams.
Import stream (stream).
Import FlowExamples (cp).

Definition f0 : flowControlManager.flowControlManager := flowControlManager.NewFlowControlManager cp.
Definition lim : StreamLimits := MkLimits 100 110.

(** A server on which the client has opened the streams 1 to 7. *)
Definition server := (GetOrOpenStream cp lim 7 (newStreamsMap PerspectiveServer) f0).1.1.
Definition client := (OpenStream cp lim (newStreamsMap PerspectiveClient) f0).1.1.

Lemma reach_server : sm_reachable cp lim PerspectiveServer server.
Proof. eapply reach_step; [apply reach_new|]. apply step_get. lia. Qed.

Lemma inv_server : sm_inv server.
Proof. by apply (reachable_sound cp lim PerspectiveServer); [|apply reach_server]. Qed.

Lemma inv_client : sm_inv client.
Proof.
  apply (reachable_sound cp lim PerspectiveClient); [done|]. eapply reach_step; [apply reach_new|]. by apply step_open.
Qed.

Lemma GetOrOpenStream_correct_witness : GetOrOpenStream cp lim 5 server f0 = (server, f0, inl (streams server !! 5)).
Proof.
  pose proof (GetOrOpenStream_correct cp lim server f0 5 inv_server ltac:(lia)) as H.
  destruct (streams server !! 5) as [s|] eqn:E; [exact H|]. by vm_compute in E.
Defined.

Lemma streams_map_invariant_witness : NoDup (openStreams server).
Proof. apply (streams_map_invariant cp lim PerspectiveServer server); [done|apply reach_server]. Defined.

(** Stream 5 has been removed. *)
Definition without5 := (RemoveStream 5 server).1.

Lemma reach_without5 : sm_reachable cp lim PerspectiveServer without5.
Proof. eapply reach_step; [apply reach_server|]. apply step_remove. Qed.

Lemma closed_stays_closed_witness : GetOrOpenStream cp lim 5 without5 f0 = (without5, f0, inl None).
Proof.
  apply (closed_stays_closed cp lim PerspectiveServer without5 without5 f0 5).
  - done.
  - apply reach_without5.
  - reflexivity.
  - by vm_compute.
  - by vm_compute.
  - lia.
Defined.

(** Streams 1 and 3 have been accepted, stream 5 is next and has been removed. *)
Definition stalled := (AcceptStream (AcceptStream without5).1).1.

Lemma accept_stalls_witness : (AcceptStream stalled).2 = None.
Proof.
  rewrite (accept_stalls cp lim PerspectiveServer stalled stalled).
  - reflexivity.
  - done.
  - do 2 (eapply reach_step; [|apply step_accept]). apply reach_without5.
  - by vm_compute.
  - by vm_compute.
  - reflexivity.
  - by vm_compute.
Defined.

Lemma client_opens_without_limit_witness : len (openStreams (GetOrOpenStream cp lim 1000000 client f0).1.1) = 500001.
Proof.
  destruct (client_opens_without_limit cp lim client f0 1000000 inv_client eq_refl ltac:(lia) eq_refl) as (m' & -> & _ & E & _).
  - by vm_compute.
  - by vm_compute.
  - rewrite E. by vm_compute.
Defined.

Definition pass (s : stream) (x : streamsMap * unit) : (streamsMap * unit) * (bool * option error) := (x, (true, None)).
Definition serve (s : stream) (x : streamsMap * unit) : (streamsMap * unit) * (bool * option error) :=
  (x, (bool_decide (priority (stream.streamID s)), None)).

Lemma gentle_pass : gentle pass.
Proof. intros s m x H Hs. cbn. split; [by apply keeps_refl|done]. Qed.
Lemma gentle_serve : gentle serve.
Proof. intros s m x H Hs. cbn. split; [by apply keeps_refl|done]. Qed.

Lemma round_robin_visits_all_witness : ∃ m' x', RoundRobinIterate (logged pass) (server, ((), [])) = Ok ((m', (x', [1; 3; 5; 7])), None).
Proof.
  destruct (round_robin_visits_all pass gentle_pass server ()) as (m' & x' & log & E & _ & El & _).
  - done.
  - apply inv_server.
  - by vm_compute.
  - exists m', x'. rewrite E, El. do 5 f_equal.
Defined.

Lemma no_starvation_witness : ∃ m' x' log, rounds serve 4 (server, ((), [])) = Ok (m', (x', log)) ∧ 7 ∈ log.
Proof.
  apply (no_starvation serve gentle_serve server () 7).
  - done.
  - apply inv_server.
  - by vm_compute.
  - apply list_elem_of_In. vm_compute. tauto.
  - unfold priority. lia.
Defined.

(** The turns are not fair: the index moves by one per iteration although the iteration
    skips the streams 1 and 3, so of the streams 5 and 7 the first gets three of four turns. *)
Example round_robin_unfair : option_map (λ x, x.2.2) (match rounds serve 4 (server, ((), [])) with Ok x => Some x | _ => None end) =
  Some [1; 3; 5; 1; 3; 5; 1; 3; 5; 1; 3; 7].
Proof. by vm_compute. Qed.

(** A client's next stream counts as closed before it is opened. *)
Example next_stream_called_closed : (GetOrOpenStream cp lim 3 client f0).2 = inl None ∧ nextStream client = 3.
Proof. by vm_compute. Qed.

End StreamsMapExamples.
