(* ===== verification/ConnectionParameters.v ===== *)
(** * ConnectionParameters: what the two ends negotiate

    internal/handshake/connection_parameters_manager.go. The manager of one end is a record;
    [SetFromMap] takes over what the peer has sent in its hello message and may stop with an
    error after a part of it, so that it returns the state in any case. The windows, limits
    and timeouts that it gives to flow control, to the map of streams and to the session are
    the parameters of those components. The theorems show what the two ends agree on, that
    flow control is then correct in both directions, and what a peer can do at most. *)
From S2P Require Import Prelude Protocol ByteOrder AckFrames Frames PublicHeader HandshakeMessages GoFloat FlowControl FlowNetwork Stream StreamsMap.

Module connectionParameters.
Import protocol handshake.

Definition InitialStreamFlowControlWindow : Z := Z.shiftl 1 14.
Definition InitialConnectionFlowControlWindow : Z := Z.shiftl 1 14.
Definition ReceiveStreamFlowControlWindow : Z := Z.shiftl 1 10 * 32.
Definition ReceiveConnectionFlowControlWindow : Z := Z.shiftl 1 10 * 48.
Definition MaxStreamsPerConnection : Z := 100.
Definition MaxIncomingDynamicStreamsPerConnection : Z := 100.
Definition MaxStreamsMinimumIncrement : Z := 10.
(** 1.1 in double precision. *)
Definition MaxStreamsMultiplier : float := const float64 4953959590107546 (-52).

Record connectionParametersManager := MkManager {
  perspective : Perspective;
  version : Z;
  flowControlNegotiated : bool;
  truncateConnectionID : bool;
  maxStreamsPerConnection : Z;
  maxIncomingDynamicStreamsPerConnection : Z;
  idleConnectionStateLifetime : Z;
  sendStreamFlowControlWindow : Z;
  sendConnectionFlowControlWindow : Z;
  receiveStreamFlowControlWindow : Z;
  receiveConnectionFlowControlWindow : Z;
  maxReceiveStreamFlowControlWindow : Z;
  maxReceiveConnectionFlowControlWindow : Z;
}.

Definition set_flowControlNegotiated v h := MkManager (perspective h) (version h) v (truncateConnectionID h)
  (maxStreamsPerConnection h) (maxIncomingDynamicStreamsPerConnection h) (idleConnectionStateLifetime h)
  (sendStreamFlowControlWindow h) (sendConnectionFlowControlWindow h) (receiveStreamFlowControlWindow h)
  (receiveConnectionFlowControlWindow h) (maxReceiveStreamFlowControlWindow h) (maxReceiveConnectionFlowControlWindow h).
Definition set_truncateConnectionID v h := MkManager (perspective h) (version h) (flowControlNegotiated h) v
  (maxStreamsPerConnection h) (maxIncomingDynamicStreamsPerConnection h) (idleConnectionStateLifetime h)
  (sendStreamFlowControlWindow h) (sendConnectionFlowControlWindow h) (receiveStreamFlowControlWindow h)
  (receiveConnectionFlowControlWindow h) (maxReceiveStreamFlowControlWindow h) (maxReceiveConnectionFlowControlWindow h).
Definition set_maxStreamsPerConnection v h := MkManager (perspective h) (version h) (flowControlNegotiated h) (truncateConnectionID h)
  v (maxIncomingDynamicStreamsPerConnection h) (idleConnectionStateLifetime h)
  (sendStreamFlowControlWindow h) (sendConnectionFlowControlWindow h) (receiveStreamFlowControlWindow h)
  (receiveConnectionFlowControlWindow h) (maxReceiveStreamFlowControlWindow h) (maxReceiveConnectionFlowControlWindow h).
Definition set_maxIncomingDynamicStreamsPerConnection v h := MkManager (perspective h) (version h) (flowControlNegotiated h) (truncateConnectionID h)
  (maxStreamsPerConnection h) v (idleConnectionStateLifetime h)
  (sendStreamFlowControlWindow h) (sendConnectionFlowControlWindow h) (receiveStreamFlowControlWindow h)
  (receiveConnectionFlowControlWindow h) (maxReceiveStreamFlowControlWindow h) (maxReceiveConnectionFlowControlWindow h).
Definition set_idleConnectionStateLifetime v h := MkManager (perspective h) (version h) (flowControlNegotiated h) (truncateConnectionID h)
  (maxStreamsPerConnection h) (maxIncomingDynamicStreamsPerConnection h) v
  (sendStreamFlowControlWindow h) (sendConnectionFlowControlWindow h) (receiveStreamFlowControlWindow h)
  (receiveConnectionFlowControlWindow h) (maxReceiveStreamFlowControlWindow h) (maxReceiveConnectionFlowControlWindow h).
Definition set_sendStreamFlowControlWindow v h := MkManager (perspective h) (version h) (flowControlNegotiated h) (truncateConnectionID h)
  (maxStreamsPerConnection h) (maxIncomingDynamicStreamsPerConnection h) (idleConnectionStateLifetime h)
  v (sendConnectionFlowControlWindow h) (receiveStreamFlowControlWindow h)
  (receiveConnectionFlowControlWindow h) (maxReceiveStreamFlowControlWindow h) (maxReceiveConnectionFlowControlWindow h).
Definition set_sendConnectionFlowControlWindow v h := MkManager (perspective h) (version h) (flowControlNegotiated h) (truncateConnectionID h)
  (maxStreamsPerConnection h) (maxIncomingDynamicStreamsPerConnection h) (idleConnectionStateLifetime h)
  (sendStreamFlowControlWindow h) v (receiveStreamFlowControlWindow h)
  (receiveConnectionFlowControlWindow h) (maxReceiveStreamFlowControlWindow h) (maxReceiveConnectionFlowControlWindow h).

Definition ErrMalformedTag : error := qerr.Error qerr.InvalidCryptoMessageParameter.
Definition ErrFlowControlRenegotiationNotSupported : error := qerr.Error qerr.InvalidCryptoMessageParameter.

(** Both branches on the perspective set the same limits. *)
Definition NewConnectionParamatersManager (pers : Perspective) (v maxReceiveStream maxReceiveConnection idleTimeout : Z)
    : connectionParametersManager :=
  MkManager pers v false false MaxStreamsPerConnection MaxStreamsPerConnection idleTimeout
    InitialStreamFlowControlWindow InitialConnectionFlowControlWindow
    ReceiveStreamFlowControlWindow ReceiveConnectionFlowControlWindow maxReceiveStream maxReceiveConnection.

Definition negotiateMaxStreamsPerConnection (clientValue : Z) : Z := Z.min clientValue MaxStreamsPerConnection.
Definition negotiateMaxIncomingDynamicStreamsPerConnection (clientValue : Z) : Z := Z.min clientValue MaxIncomingDynamicStreamsPerConnection.
Definition negotiateIdleConnectionStateLifetime (clientValue : Z) (h : connectionParametersManager) : Z :=
  Z.min clientValue (idleConnectionStateLifetime h).

(** The state that is left, and the error. *)
Definition result : Type := connectionParametersManager * option error.

Definition andThen (r : result) (k : connectionParametersManager → result) : result :=
  match r with (h, None) => k h | (h, Some e) => (h, Some e) end.

(** The body of a branch: the value is a 32-bit number. *)
Definition readValue (value : list Z) (f : Z → connectionParametersManager → connectionParametersManager) (h : connectionParametersManager) : result :=
  match ReadUint32 LittleEndian value with Ok (clientValue, _) => (f clientValue h, None) | _ => (h, Some ErrMalformedTag) end.

Definition param (params : gmap Z (list Z)) (t : Z) (f : Z → connectionParametersManager → connectionParametersManager)
    (h : connectionParametersManager) : result :=
  match params !! t with Some value => readValue value f h | None => (h, None) end.

Definition windowParam (params : gmap Z (list Z)) (t : Z) (f : Z → connectionParametersManager → connectionParametersManager)
    (h : connectionParametersManager) : result :=
  match params !! t with
  | Some value => if flowControlNegotiated h then (h, Some ErrFlowControlRenegotiationNotSupported) else readValue value f h
  | None => (h, None)
  end.

Definition SetFromMap (params : gmap Z (list Z)) (h : connectionParametersManager) : result :=
  andThen (match perspective h with
           | PerspectiveServer => param params TagTCID (λ v, set_truncateConnectionID (v =? 0)) h
           | PerspectiveClient => (h, None)
           end) (λ h,
  andThen (param params TagMSPC (λ v, set_maxStreamsPerConnection (negotiateMaxStreamsPerConnection v)) h) (λ h,
  andThen (param params TagMIDS (λ v, set_maxIncomingDynamicStreamsPerConnection (negotiateMaxIncomingDynamicStreamsPerConnection v)) h) (λ h,
  andThen (param params TagICSL (λ v h, set_idleConnectionStateLifetime (negotiateIdleConnectionStateLifetime (i64 (v * time.Second)) h) h) h) (λ h,
  andThen (windowParam params TagSFCW set_sendStreamFlowControlWindow h) (λ h,
  andThen (windowParam params TagCFCW set_sendConnectionFlowControlWindow h) (λ h,
  (if bool_decide (is_Some (params !! TagCFCW)) || bool_decide (is_Some (params !! TagSFCW))
   then set_flowControlNegotiated true h else h, None))))))).

Definition le32 (v : Z) : list Z := match WriteUint32 LittleEndian v with Ok bs => bs | _ => [] end.

Definition GetHelloMap (h : connectionParametersManager) : gmap Z (list Z) :=
  {[ TagICSL := le32 (u32 (Z.quot (idleConnectionStateLifetime h) time.Second));
     TagMSPC := le32 (maxStreamsPerConnection h);
     TagMIDS := le32 MaxIncomingDynamicStreamsPerConnection;
     TagCFCW := le32 (u32 (receiveConnectionFlowControlWindow h));
     TagSFCW := le32 (u32 (receiveStreamFlowControlWindow h)) ]}.

(** What flow control and the map of streams read. *)
Definition parameters (h : connectionParametersManager) : ConnectionParameters :=
  MkParameters (sendStreamFlowControlWindow h) (sendConnectionFlowControlWindow h) (receiveStreamFlowControlWindow h)
    (maxReceiveStreamFlowControlWindow h) (receiveConnectionFlowControlWindow h) (maxReceiveConnectionFlowControlWindow h).

Definition GetMaxOutgoingStreams (h : connectionParametersManager) : Z := maxIncomingDynamicStreamsPerConnection h.
Definition GetMaxIncomingStreams (h : connectionParametersManager) : Z :=
  let maxStreams := MaxIncomingDynamicStreamsPerConnection in
  Z.max (u32 (u32 maxStreams + MaxStreamsMinimumIncrement)) (u32 (to_int64 (fmul float64 (of_int float64 maxStreams) MaxStreamsMultiplier))).
Definition limits (h : connectionParametersManager) : StreamLimits := MkLimits (GetMaxOutgoingStreams h) (GetMaxIncomingStreams h).

Definition GetIdleConnectionStateLifetime (h : connectionParametersManager) : Z := idleConnectionStateLifetime h.
Definition TruncateConnectionID (h : connectionParametersManager) : bool :=
  match perspective h with PerspectiveClient => false | PerspectiveServer => truncateConnectionID h end.

End connectionParameters.

(** ** What the two ends agree on *)
Section negotiation.
Import protocol handshake connectionParameters.
Implicit Types (h peer : connectionParametersManager) (m : gmap Z (list Z)).

Lemma readValue_le32 v f h : is_u32 v → readValue (le32 v) f h = (f v h, None).
Proof.
  intros Hv. unfold readValue, le32. rewrite WriteUint32_enc. pose proof (ReadUint32_enc LittleEndian v [] Hv (Forall_nil_2 _)) as E.
  rewrite app_nil_r in E. by rewrite E.
Qed.

(** The whole seconds of a duration. *)
Definition seconds (d : Z) : Z := Z.quot d time.Second.

(** A manager whose values fit into a hello message. *)
Definition manager_ok h : Prop :=
  is_u32 (maxStreamsPerConnection h) ∧ is_u32 (receiveStreamFlowControlWindow h) ∧ is_u32 (receiveConnectionFlowControlWindow h) ∧
  0 <= idleConnectionStateLifetime h < 2 ^ 32 * time.Second.

(** The state after the hello message of the peer. *)
Definition received peer (trunc : bool) h : connectionParametersManager :=
  MkManager (perspective h) (version h) true trunc (Z.min (maxStreamsPerConnection peer) MaxStreamsPerConnection)
    MaxIncomingDynamicStreamsPerConnection
    (Z.min (seconds (idleConnectionStateLifetime peer) * time.Second) (idleConnectionStateLifetime h))
    (receiveStreamFlowControlWindow peer) (receiveConnectionFlowControlWindow peer)
    (receiveStreamFlowControlWindow h) (receiveConnectionFlowControlWindow h)
    (maxReceiveStreamFlowControlWindow h) (maxReceiveConnectionFlowControlWindow h).

(** A hello message carries the map of its sender among other entries; the request to
    truncate connection IDs, if there is one, is a 32-bit number. *)
Definition hello_of peer m : Prop :=
  GetHelloMap peer ⊆ m ∧ (∀ v, m !! TagTCID = Some v → ∃ x r, v = le32 x ++ r ∧ is_u32 x ∧ Forall is_byte r).

Lemma seconds_range d : 0 <= d < 2 ^ 32 * time.Second → is_u32 (seconds d) ∧ i64 (seconds d * time.Second) = seconds d * time.Second.
Proof.
  intros Hd. unfold seconds, time.Second in *. rewrite Z.quot_div_nonneg by lia. change (2 ^ 32) with 4294967296 in *.
  assert (0 <= d / 1000000000 < 4294967296) as H by (split; [apply Z.div_pos; lia|apply Z.div_lt_upper_bound; lia]).
  split; [exact H|]. set (x := d / 1000000000) in *. clearbody x. zlia.
Qed.

Lemma SetFromMap_hello peer m h : manager_ok peer → hello_of peer m → flowControlNegotiated h = false →
  ∃ trunc, SetFromMap m h = (received peer trunc h, None).
Proof.
  intros (H1 & H2 & H3 & H4) [Hm Ht] Hn. destruct (seconds_range _ H4) as [Hs1 Hs2].
  assert (∀ t v, GetHelloMap peer !! t = Some v → m !! t = Some v) as Hw by (intros t v Hv; by eapply lookup_weaken).
  pose proof (Hw TagMSPC _ eq_refl) as E1. pose proof (Hw TagMIDS _ eq_refl) as E2. pose proof (Hw TagICSL _ eq_refl) as E3.
  pose proof (Hw TagSFCW _ eq_refl) as E4. pose proof (Hw TagCFCW _ eq_refl) as E5.
  assert (∃ trunc, match perspective h with
           | PerspectiveServer => param m TagTCID (λ v, set_truncateConnectionID (v =? 0)) h
           | PerspectiveClient => (h, None) end = (set_truncateConnectionID trunc h, None)) as [trunc E0].
  { destruct (perspective h); [|exists (truncateConnectionID h); by destruct h]. unfold param. destruct (m !! TagTCID) as [v|] eqn:E.
    - destruct (Ht v eq_refl) as (x & r & -> & Hx & Hr). exists (x =? 0). unfold readValue, le32. rewrite WriteUint32_enc, ReadUint32_enc by done. done.
    - exists (truncateConnectionID h). by destruct h. }
  exists trunc. unfold SetFromMap. rewrite E0. cbn [andThen].
  unfold param at 1. rewrite E1, readValue_le32 by done. cbn [andThen].
  unfold param at 1. rewrite E2, readValue_le32 by (by vm_compute). cbn [andThen].
  unfold param at 1. rewrite E3. fold (seconds (idleConnectionStateLifetime peer)). rewrite (u32_id (seconds _)) by done. rewrite readValue_le32 by done. rewrite Hs2. cbn [andThen].
  unfold windowParam at 1. rewrite E4. cbn [flowControlNegotiated set_idleConnectionStateLifetime set_maxIncomingDynamicStreamsPerConnection set_maxStreamsPerConnection set_truncateConnectionID].
  rewrite Hn, u32_id, readValue_le32 by done. cbn [andThen].
  unfold windowParam at 1. rewrite E5. cbn [flowControlNegotiated set_sendStreamFlowControlWindow set_idleConnectionStateLifetime set_maxIncomingDynamicStreamsPerConnection set_maxStreamsPerConnection set_truncateConnectionID].
  rewrite Hn, u32_id, readValue_le32 by done. cbn [andThen].
  rewrite bool_decide_eq_true_2 by eauto. done.
Qed.

Lemma new_manager_ok pers v ms mc idle : 0 <= idle < 2 ^ 32 * time.Second → manager_ok (NewConnectionParamatersManager pers v ms mc idle).
Proof. intros Hi. split_and!; try apply Hi; by vm_compute. Qed.

Lemma received_ok peer trunc h : manager_ok peer → manager_ok h → manager_ok (received peer trunc h).
Proof.
  intros (H1 & H2 & H3 & H4) (H5 & H6 & H7 & H8). destruct (seconds_range _ H4) as [[Hs _] _]. unfold manager_ok. cbn -[Z.pow].
  unfold is_u32, MaxStreamsPerConnection in *. change (2 ^ 32) with 4294967296 in *. unfold time.Second in *. split_and!; lia.
Qed.

(** Client and server after a handshake, in which the client sends [chlo] and the server [shlo]. *)
Definition client0 vc mrs mrc idle := NewConnectionParamatersManager PerspectiveClient vc mrs mrc idle.
Definition server0 vs mrs mrc idle := NewConnectionParamatersManager PerspectiveServer vs mrs mrc idle.

Record handshaken (c0 s0 c1 s1 : connectionParametersManager) : Prop := {
  hs_server : ∃ trunc, s1 = received c0 trunc s0;
  hs_client : ∃ trunc, c1 = received s1 trunc c0;
}.

Lemma handshake_done vc mrs mrc idle vs mrs' mrc' idle' chlo shlo :
  0 <= idle < 2 ^ 32 * time.Second → 0 <= idle' < 2 ^ 32 * time.Second →
  let c0 := client0 vc mrs mrc idle in let s0 := server0 vs mrs' mrc' idle' in
  hello_of c0 chlo → hello_of (SetFromMap chlo s0).1 shlo →
  let s := SetFromMap chlo s0 in let c := SetFromMap shlo c0 in
  s.2 = None ∧ c.2 = None ∧ handshaken c0 s0 c.1 s.1.
Proof.
  intros Hi Hi' c0 s0 Hc Hs s c. assert (manager_ok c0) as Oc by by apply new_manager_ok. assert (manager_ok s0) as Os by by apply new_manager_ok.
  destruct (SetFromMap_hello c0 chlo s0 Oc Hc eq_refl) as [t1 E1]. unfold s. rewrite E1 in Hs |- *. cbn [fst snd] in Hs |- *.
  destruct (SetFromMap_hello _ shlo c0 (received_ok _ t1 _ Oc Os) Hs eq_refl) as [t2 E2]. unfold c. rewrite E2. split_and!; [done|done|].
  split; eauto.
Qed.

(** The handshake makes the two ends agree. For every hello message of the client and of
    the server that carries its parameters, both ends accept what they receive. Each end may
    then send as much on a stream and on the connection as the other one accepts, no end may
    open more streams than the other one accepts, and the idle timeout of the client is that
    of the server in whole seconds, which is at most what each end was configured with. *)
Theorem negotiation_agrees vc mrs mrc idle vs mrs' mrc' idle' chlo shlo :
  0 <= idle < 2 ^ 32 * time.Second → 0 <= idle' < 2 ^ 32 * time.Second →
  let c0 := client0 vc mrs mrc idle in let s0 := server0 vs mrs' mrc' idle' in
  hello_of c0 chlo → hello_of (SetFromMap chlo s0).1 shlo →
  ∃ s c, SetFromMap chlo s0 = (s, None) ∧ SetFromMap shlo c0 = (c, None) ∧
    sendStreamFlowControlWindow c = receiveStreamFlowControlWindow s ∧
    sendConnectionFlowControlWindow c = receiveConnectionFlowControlWindow s ∧
    sendStreamFlowControlWindow s = receiveStreamFlowControlWindow c ∧
    sendConnectionFlowControlWindow s = receiveConnectionFlowControlWindow c ∧
    GetMaxOutgoingStreams c <= GetMaxIncomingStreams s ∧ GetMaxOutgoingStreams s <= GetMaxIncomingStreams c ∧
    GetIdleConnectionStateLifetime c = seconds (GetIdleConnectionStateLifetime s) * time.Second ∧
    GetIdleConnectionStateLifetime s <= Z.min idle idle'.
Proof.
  intros Hi Hi' c0 s0 Hc Hs. destruct (handshake_done _ _ _ _ _ _ _ _ _ _ Hi Hi' Hc Hs) as (E1 & E2 & [[t1 Es] [t2 Ec]]).
  fold c0 s0 in E1, E2, Es, Ec. destruct (SetFromMap chlo s0) as [s e1], (SetFromMap shlo c0) as [c e2]. cbn in E1, E2, Es, Ec. subst e1 e2.
  exists s, c. split; [done|]. split; [done|]. rewrite Ec, Es. cbn [received sendStreamFlowControlWindow sendConnectionFlowControlWindow receiveStreamFlowControlWindow receiveConnectionFlowControlWindow]. split_and!; try done.
  - unfold GetIdleConnectionStateLifetime. cbn -[Z.quot Z.mul Z.min]. unfold seconds, time.Second in *. rewrite !Z.quot_div_nonneg by lia.
    lia.
  - unfold GetIdleConnectionStateLifetime. cbn -[Z.quot Z.mul Z.min]. unfold seconds, time.Second in *. rewrite Z.quot_div_nonneg by lia. lia.
Qed.

(** The windows of a manager that has been configured with sensible maxima. *)
Lemma received_parameters_ok peer trunc pers v ms mc idle :
  ReceiveStreamFlowControlWindow <= ms < 2 ^ 32 → ReceiveConnectionFlowControlWindow <= mc < 2 ^ 32 →
  parameters_ok (parameters (received peer trunc (NewConnectionParamatersManager pers v ms mc idle))).
Proof.
  intros H1 H2. change ReceiveStreamFlowControlWindow with 32768 in *. change ReceiveConnectionFlowControlWindow with 49152 in *.
  unfold parameters_ok, parameters, received.
  cbn [GetReceiveStreamFlowControlWindow GetMaxReceiveStreamFlowControlWindow GetReceiveConnectionFlowControlWindow GetMaxReceiveConnectionFlowControlWindow
    receiveStreamFlowControlWindow maxReceiveStreamFlowControlWindow receiveConnectionFlowControlWindow maxReceiveConnectionFlowControlWindow NewConnectionParamatersManager].
  change ReceiveStreamFlowControlWindow with 32768. change ReceiveConnectionFlowControlWindow with 49152. lia.
Qed.

Lemma windows_match id b b' c s : sendStreamFlowControlWindow c = receiveStreamFlowControlWindow s →
  sendConnectionFlowControlWindow c = receiveConnectionFlowControlWindow s →
  flowController.getSendWindow (parameters c) (flowController.newFlowController id b (parameters c)) <=
  flowController.receiveWindow (flowController.newFlowController id b' (parameters s)).
Proof.
  intros H1 H2. unfold flowController.getSendWindow, flowController.newFlowController. destruct (id =? 0) eqn:E; cbn; rewrite E; lia.
Qed.

(** C19: flow control fits the handshake. After a handshake between ends with sensible
    maxima (at least the initial windows, below 2^32) the flow control managers of both ends work together: any number of streams is opened at both ends
    and stays open, each end sends on its streams within the windows of the stream and of the connection, reads what
    arrives and sends window updates, and data and window updates are
    lost, delayed, reordered or duplicated. All data that is on the network lies in the window of its stream
    and, where the stream counts for it, in the window of the connection of the other end: when it arrives it is
    accepted. This holds as long as no receive window has reached 2^62. *)
Theorem negotiated_windows_safe vc mrs mrc idle vs mrs' mrc' idle' chlo shlo n n' :
  0 <= idle < 2 ^ 32 * time.Second → 0 <= idle' < 2 ^ 32 * time.Second →
  ReceiveStreamFlowControlWindow <= mrs < 2 ^ 32 → ReceiveConnectionFlowControlWindow <= mrc < 2 ^ 32 →
  ReceiveStreamFlowControlWindow <= mrs' < 2 ^ 32 → ReceiveConnectionFlowControlWindow <= mrc' < 2 ^ 32 →
  let c0 := client0 vc mrs mrc idle in let s0 := server0 vs mrs' mrc' idle' in
  hello_of c0 chlo → hello_of (SetFromMap chlo s0).1 shlo →
  let cpc := parameters (SetFromMap shlo c0).1 in let cps := parameters (SetFromMap chlo s0).1 in
  (network_reachable cpc cps (new_network cpc cps) n → windows_small (nrecv n) → network_safe n) ∧
  (network_reachable cps cpc (new_network cps cpc) n' → windows_small (nrecv n') → network_safe n').
Proof.
  intros Hi Hi' H1 H2 H3 H4 c0 s0 Hc Hs cpc cps.
  destruct (handshake_done _ _ _ _ _ _ _ _ _ _ Hi Hi' Hc Hs) as (_ & _ & [[t1 Es] [t2 Ec]]). fold c0 s0 in Es, Ec.
  assert (parameters_ok cpc) as Oc by (unfold cpc; rewrite Ec; by apply received_parameters_ok).
  assert (parameters_ok cps) as Os by (unfold cps; rewrite Es; by apply received_parameters_ok).
  split; intros Hr; eapply network_inv_safe; (eapply network_reachable_inv; [| |exact Hr]); [done| |done|].
  - intros id b b'. apply windows_match; by rewrite Ec.
  - intros id b b'. apply windows_match; by rewrite Ec, Es.
Qed.

(** *** What a peer can do *)

Lemma ReadUint32_range r v r' : ReadUint32 LittleEndian r = Ok (v, r') → is_u32 v.
Proof. destruct r as [|a [|b' [|c [|d r]]]]; try done. cbn -[u32 Z.shiftl]. intros [= <- _]. apply u32_range. Qed.

(** How a manager may change: what does not depend on the peer stays, and what it can set is
    bounded. *)
Record bounded h h' : Prop := {
  bo_role : perspective h' = perspective h ∧ version h' = version h;
  bo_receive : receiveStreamFlowControlWindow h' = receiveStreamFlowControlWindow h ∧
    receiveConnectionFlowControlWindow h' = receiveConnectionFlowControlWindow h ∧
    maxReceiveStreamFlowControlWindow h' = maxReceiveStreamFlowControlWindow h ∧
    maxReceiveConnectionFlowControlWindow h' = maxReceiveConnectionFlowControlWindow h;
  bo_limits : (maxStreamsPerConnection h <= 100 → maxStreamsPerConnection h' <= 100) ∧ (GetMaxOutgoingStreams h <= 100 → GetMaxOutgoingStreams h' <= 100);
  bo_idle : 0 <= idleConnectionStateLifetime h → 0 <= idleConnectionStateLifetime h' <= idleConnectionStateLifetime h;
  bo_windows : flowControlNegotiated h = true → flowControlNegotiated h' = true ∧
    sendStreamFlowControlWindow h' = sendStreamFlowControlWindow h ∧ sendConnectionFlowControlWindow h' = sendConnectionFlowControlWindow h;
}.

Lemma bounded_refl h : bounded h h.
Proof. split; intros; split_and!; try done; lia. Qed.
Lemma bounded_trans h1 h2 h3 : bounded h1 h2 → bounded h2 h3 → bounded h1 h3.
Proof.
  intros [[A1 A2] (B1 & B2 & B3 & B4) [C1 C2] D1 E1] [[A3 A4] (B5 & B6 & B7 & B8) [C3 C4] D2 E2].
  split; [split; congruence|split_and!; congruence|split; auto|lia|].
  intros H. destruct (E1 H) as (F1 & F2 & F3). destruct (E2 F1) as (F4 & F5 & F6). split_and!; congruence.
Qed.

Lemma andThen_bounded h r k : bounded h r.1 → (∀ h', bounded h h' → bounded h (k h').1) → bounded h (andThen r k).1.
Proof. intros H1 H2. destruct r as [h' [e|]]; [done|]. by apply H2. Qed.

Lemma readValue_bounded h0 value f h : bounded h0 h → (∀ v, is_u32 v → bounded h (f v h)) → bounded h0 (readValue value f h).1.
Proof.
  intros H Hf. unfold readValue. destruct (ReadUint32 LittleEndian value) as [[v r]| |] eqn:E; try done.
  cbn. eapply bounded_trans; [exact H|]. by eapply Hf, ReadUint32_range.
Qed.

Lemma param_bounded h0 m t f h : bounded h0 h → (∀ v, is_u32 v → bounded h (f v h)) → bounded h0 (param m t f h).1.
Proof. intros H Hf. unfold param. case_match; [by apply readValue_bounded|done]. Qed.

Lemma windowParam_bounded h0 m t f h : bounded h0 h → (∀ v, flowControlNegotiated h = false → bounded h (f v h)) → bounded h0 (windowParam m t f h).1.
Proof. intros H Hf. unfold windowParam. case_match; [|done]. case_match; [done|]. apply readValue_bounded; auto. Qed.

Lemma SetFromMap_bounded m h : bounded h (SetFromMap m h).1.
Proof.
  unfold SetFromMap. apply andThen_bounded.
  { case_match; [|apply bounded_refl]. apply param_bounded; [apply bounded_refl|]. intros v _. split; cbn; intros; split_and!; try done; lia. }
  intros h1 B1. apply andThen_bounded.
  { apply param_bounded; [done|]. intros v Hv. split; cbn; intros; split_and!; try done; unfold negotiateMaxStreamsPerConnection, MaxStreamsPerConnection; try lia. }
  intros h2 B2. apply andThen_bounded.
  { apply param_bounded; [done|]. intros v Hv. split; cbn; intros; split_and!; try done;
      unfold GetMaxOutgoingStreams, negotiateMaxIncomingDynamicStreamsPerConnection, MaxIncomingDynamicStreamsPerConnection; cbn; try lia. }
  intros h3 B3. apply andThen_bounded.
  { apply param_bounded; [done|]. intros v [Hv1 Hv2]. change (2 ^ 32) with 4294967296 in Hv2.
    assert (i64 (v * time.Second) = v * time.Second) as Ei by (unfold time.Second; zlia).
    split; cbn; intros; split_and!; try done; unfold negotiateIdleConnectionStateLifetime; rewrite Ei; unfold time.Second; lia. }
  intros h4 B4. apply andThen_bounded.
  { apply windowParam_bounded; [done|]. intros v Hn. split; cbn; intros; split_and!; try done; try lia; congruence. }
  intros h5 B5. apply andThen_bounded.
  { apply windowParam_bounded; [done|]. intros v Hn. split; cbn; intros; split_and!; try done; try lia; congruence. }
  intros h6 B6. cbn. case_match; [|done]. eapply bounded_trans; [exact B6|]. split; cbn; intros; split_and!; try done; lia.
Qed.

Lemma param_negotiated m t f h : (∀ v, flowControlNegotiated (f v h) = flowControlNegotiated h) →
  flowControlNegotiated (param m t f h).1 = flowControlNegotiated h.
Proof. intros Hf. unfold param, readValue. repeat case_match; cbn; done. Qed.

Lemma andThen_fails r k : (is_Some (k r.1).2) → is_Some (andThen r k).2.
Proof. destruct r as [h [e|]]; [eauto|done]. Qed.

Lemma renegotiation_refused m h : flowControlNegotiated h = true → is_Some (m !! TagSFCW) ∨ is_Some (m !! TagCFCW) → is_Some (SetFromMap m h).2.
Proof.
  intros Hn Hm. unfold SetFromMap. apply andThen_fails. set (h1 := fst _).
  assert (flowControlNegotiated h1 = true) as H1 by (unfold h1; destruct (perspective h); [rewrite param_negotiated|]; done). clearbody h1.
  do 3 (apply andThen_fails; set (h2 := fst _) at 1; assert (flowControlNegotiated h2 = true) as H2 by (unfold h2; by rewrite param_negotiated);
    clearbody h2; clear H1 h1; rename h2 into h1, H2 into H1).
  unfold windowParam at 1. destruct (m !! TagSFCW) as [v|]; [rewrite H1; cbn; eauto|]. cbn [andThen].
  destruct Hm as [[? [=]]|[v Hv]]. unfold windowParam. rewrite Hv, H1. cbn. eauto.
Qed.

(** A peer can only ask for less. Whatever a peer sends as its parameters, also when an
    error stops the negotiation half way: the own windows for receiving stay the same, the
    limits on streams stay below 100, the idle timeout does not grow; and once the windows
    for sending were negotiated, a message that has one of them again is refused and changes
    neither. *)
Theorem negotiation_bounded m h :
  maxStreamsPerConnection h <= 100 → GetMaxOutgoingStreams h <= 100 → 0 <= idleConnectionStateLifetime h →
  let '(h', err) := SetFromMap m h in
  receiveStreamFlowControlWindow h' = receiveStreamFlowControlWindow h ∧
  receiveConnectionFlowControlWindow h' = receiveConnectionFlowControlWindow h ∧
  maxStreamsPerConnection h' <= 100 ∧ GetMaxOutgoingStreams h' <= 100 ∧
  0 <= GetIdleConnectionStateLifetime h' <= GetIdleConnectionStateLifetime h ∧
  (flowControlNegotiated h = true → sendStreamFlowControlWindow h' = sendStreamFlowControlWindow h ∧
    sendConnectionFlowControlWindow h' = sendConnectionFlowControlWindow h ∧
    (is_Some (m !! TagSFCW) ∨ is_Some (m !! TagCFCW) → is_Some err)).
Proof.
  intros H1 H2 H3. pose proof (SetFromMap_bounded m h) as [_ (R1 & R2 & R3 & R4) [L1 L2] I1 W1].
  pose proof (renegotiation_refused m h) as He. destruct (SetFromMap m h) as [h' err]. cbn in *.
  split; [done|]. split; [done|]. split; [auto|]. split; [auto|]. split; [auto|].
  intros Hn. destruct (W1 Hn) as (_ & -> & ->). auto.
Qed.
End negotiation.

(** ** Examples *)
Module ParametersExamples.
Import protocol handshake connectionParameters.

Definition c0 : connectionParametersManager := client0 512 16777216 25165824 (30 * time.Second).
Definition s0 : connectionParametersManager := server0 512 1048576 1572864 (45 * time.Second / 2).
Definition chlo : gmap Z (list Z) := <[TagTCID := [0; 0; 0; 0]]> (GetHelloMap c0).
Definition s1 : connectionParametersManager := (SetFromMap chlo s0).1.
Definition shlo : gmap Z (list Z) := GetHelloMap s1.

Lemma chlo_hello : hello_of c0 chlo.
Proof.
  split; [by apply insert_subseteq|]. intros v Hv. exists 0, []. vm_compute in Hv. injection Hv as <-. split_and!; [done|by vm_compute|constructor].
Qed.
Lemma shlo_hello : hello_of s1 shlo.
Proof. split; [reflexivity|]. intros v Hv. vm_compute in Hv. discriminate. Qed.

Lemma negotiation_agrees_witness : ∃ s c, SetFromMap chlo s0 = (s, None) ∧ SetFromMap shlo c0 = (c, None) ∧
  sendStreamFlowControlWindow c = receiveStreamFlowControlWindow s ∧
  GetIdleConnectionStateLifetime c = seconds (GetIdleConnectionStateLifetime s) * time.Second.
Proof.
  destruct (negotiation_agrees 512 16777216 25165824 (30 * time.Second) 512 1048576 1572864 (45 * time.Second / 2) chlo shlo)
    as (s & c & E1 & E2 & W & _ & _ & _ & _ & _ & I & _).
  - split; by vm_compute.
  - split; by vm_compute.
  - exact chlo_hello.
  - exact shlo_hello.
  - exact (ex_intro _ s (ex_intro _ c (conj E1 (conj E2 (conj W I))))).
Defined.

(** The client opens the stream 5 and sends 100 bytes, which arrive twice; the server reads 60 of them. The server sends
    nothing. *)
Definition cpc : ConnectionParameters := parameters (SetFromMap shlo c0).1.
Definition cps : ConnectionParameters := parameters s1.
Definition sending5 : flowControlManager.flowControlManager :=
  (flowControlManager.AddBytesSent 5 100 (flowControlManager.NewStream cpc 5 true (flowControlManager.NewFlowControlManager cpc))).1.
Definition opened5 : flowControlManager.flowControlManager := flowControlManager.NewStream cps 5 true (flowControlManager.NewFlowControlManager cps).
Definition received5 : flowControlManager.flowControlManager := (flowControlManager.UpdateHighestReceived 5 100 opened5).1.
Definition read5 : flowControlManager.flowControlManager := (flowControlManager.AddBytesRead 5 60 1000 received5).1.

Lemma run_read5 : network_reachable cpc cps (new_network cpc cps) (MkNetwork sending5 read5 [(5, 100)] []).
Proof.
  assert (∀ f, f = opened5 ∨ f = received5 ∨ f = flowControlManager.NewFlowControlManager cps → windows_small f) as Hsmall.
  { intros f [->|[->| ->]]; (split; [|by vm_compute]); [by apply map_Forall_insert_2|by apply map_Forall_insert_2, map_Forall_insert_2|done]. }
  set (sender := flowControlManager.NewStream cpc 5 true (flowControlManager.NewFlowControlManager cpc)).
  apply (nr_step cpc cps _ (MkNetwork sending5 received5 [(5, 100)] [])); [|apply (Hsmall received5); auto|by eapply ns_read; [by vm_compute|by vm_compute]].
  apply (nr_step cpc cps _ (MkNetwork sending5 opened5 [(5, 100)] [])); [|apply (Hsmall opened5); auto|apply ns_deliver; by left].
  apply (nr_step cpc cps _ (MkNetwork sender opened5 [] [])); [|apply (Hsmall opened5); auto|apply (ns_send cpc cps (MkNetwork sender opened5 [] []) 5 32768 100 100); [by vm_compute|lia|by vm_compute]].
  apply (nr_step cpc cps _ (new_network cpc cps)); [apply nr_refl|apply (Hsmall (flowControlManager.NewFlowControlManager cps)); auto|by apply ns_open].
Qed.

Lemma negotiated_windows_safe_witness : (flowControlManager.UpdateHighestReceived 5 100 read5).2 = None ∧ network_safe (new_network cps cpc).
Proof.
  destruct (negotiated_windows_safe 512 16777216 25165824 (30 * time.Second) 512 1048576 1572864 (45 * time.Second / 2) chlo shlo
    (MkNetwork sending5 read5 [(5, 100)] []) (new_network cps cpc)) as [H1 H2];
    [split; by vm_compute|split; by vm_compute|split; by vm_compute|split; by vm_compute|split; by vm_compute|split; by vm_compute|exact chlo_hello|exact shlo_hello|].
  split.
  - destruct H1 as [H1 _]; [exact run_read5|split; [by repeat apply map_Forall_insert_2|by vm_compute]|]. apply H1. left.
  - apply H2; [apply nr_refl|]. by split.
Defined.

Lemma negotiation_bounded_witness :
  let '(h', err) := SetFromMap {[ TagSFCW := [255; 255; 255; 255] ]} s1 in
  sendStreamFlowControlWindow h' = sendStreamFlowControlWindow s1 ∧ err = Some ErrFlowControlRenegotiationNotSupported.
Proof.
  pose proof (negotiation_bounded {[ TagSFCW := [255; 255; 255; 255] ]} s1) as H.
  destruct (SetFromMap {[ TagSFCW := [255; 255; 255; 255] ]} s1) as [h' err] eqn:E.
  destruct H as (_ & _ & _ & _ & _ & H); [by vm_compute|by vm_compute|by vm_compute|].
  split; [apply H; by vm_compute|]. vm_compute in E. injection E as _ <-. reflexivity.
Defined.

(** A timeout below a second is sent as zero, and the peer takes it over: it then closes the
    connection at the next check. *)
Theorem sub_second_timeout_is_zero :
  let h := client0 512 16777216 25165824 (500 * time.Millisecond) in
  GetIdleConnectionStateLifetime (SetFromMap (GetHelloMap h) s0).1 = 0.
Proof. vm_compute. reflexivity. Qed.

End ParametersExamples.
