(* ===== verification/StreamFramer.v ===== *)
(** * The stream framer

    [stream_framer.go]: the queues of frames that wait to be sent, and the choice of the
    stream frames for the next packet, first those that were lost, then new data of the
    streams in turn, within the windows of flow control. The streams map and the flow
    control manager belong to the session, they are passed along. A stream does not change
    between the steps of one call; Write and Close run before or behind it. *)

From S2P Require Import Prelude Protocol ByteOrder AckFrames Frames GoFloat FlowControl FrameSorter Stream StreamsMap.

(** ** stream_framer.go *)
Module streamFramer.
Import protocol StreamFrame.
Import stream (stream).
Import streamsMap (streamsMap).
Import session_streams (setStream).
Import flowControlManager (flowControlManager).
Import BlockedFrame (BlockedFrame).

Record streamFramer := MkFramer {
  retransmissionQueue : list StreamFrame;
  blockedFrameQueue : list BlockedFrame;
  addAddressFrameQueue : list AddAddressFrame.AddAddressFrame;
  closePathFrameQueue : list ClosePathFrame.ClosePathFrame;
  pathsFrame : option PathsFrame.PathsFrame;
}.

Definition set_retransmissionQueue (v : list StreamFrame) (q : streamFramer) : streamFramer :=
  MkFramer v (blockedFrameQueue q) (addAddressFrameQueue q) (closePathFrameQueue q) (pathsFrame q).
Definition set_blockedFrameQueue (v : list BlockedFrame) (q : streamFramer) : streamFramer :=
  MkFramer (retransmissionQueue q) v (addAddressFrameQueue q) (closePathFrameQueue q) (pathsFrame q).
Definition set_addAddressFrameQueue (v : list AddAddressFrame.AddAddressFrame) (q : streamFramer) : streamFramer :=
  MkFramer (retransmissionQueue q) (blockedFrameQueue q) v (closePathFrameQueue q) (pathsFrame q).
Definition set_closePathFrameQueue (v : list ClosePathFrame.ClosePathFrame) (q : streamFramer) : streamFramer :=
  MkFramer (retransmissionQueue q) (blockedFrameQueue q) (addAddressFrameQueue q) v (pathsFrame q).
Definition set_pathsFrame (v : option PathsFrame.PathsFrame) (q : streamFramer) : streamFramer :=
  MkFramer (retransmissionQueue q) (blockedFrameQueue q) (addAddressFrameQueue q) (closePathFrameQueue q) v.

Definition newStreamFramer : streamFramer := MkFramer [] [] [] [] None.

(** *** The queues *)

Definition AddFrameForRetransmission (frame : StreamFrame) (q : streamFramer) : streamFramer :=
  set_retransmissionQueue (retransmissionQueue q ++ [frame]) q.

Definition PopBlockedFrame (q : streamFramer) : streamFramer * option BlockedFrame :=
  match blockedFrameQueue q with
  | [] => (q, None)
  | frame :: rest => (set_blockedFrameQueue rest q, Some frame)
  end.

Definition AddAddressForTransmission (ipVersion : Z) (addr : net.UDPAddr) (q : streamFramer) : streamFramer :=
  set_addAddressFrameQueue (addAddressFrameQueue q ++ [AddAddressFrame.MkAddAddressFrame ipVersion addr]) q.

Definition PopAddAddressFrame (q : streamFramer) : streamFramer * option AddAddressFrame.AddAddressFrame :=
  match addAddressFrameQueue q with
  | [] => (q, None)
  | frame :: rest => (set_addAddressFrameQueue rest q, Some frame)
  end.

(** The paths of the session in the order of the map iteration, each with its
    identifier, whether it has potentially failed and its smoothed RTT. *)
Definition AddPathsFrameForTransmission (paths : list (Z * bool * Z)) (q : streamFramer) : streamFramer :=
  let pathIDs := (λ p : Z * bool * Z, p.1.1) <$> paths in
  let remoteRTTs := (λ p : Z * bool * Z, if p.1.2 then 3600 * time.Second else p.2) <$> paths in
  set_pathsFrame (Some (PathsFrame.MkPathsFrame 255 (u8 (len pathIDs)) pathIDs remoteRTTs)) q.

Definition PopPathsFrame (q : streamFramer) : streamFramer * option PathsFrame.PathsFrame :=
  (set_pathsFrame None q, pathsFrame q).

Definition AddClosePathFrameForTransmission (frame : ClosePathFrame.ClosePathFrame) (q : streamFramer) : streamFramer :=
  set_closePathFrameQueue (closePathFrameQueue q ++ [frame]) q.

Definition PopClosePathFrame (q : streamFramer) : streamFramer * option ClosePathFrame.ClosePathFrame :=
  match closePathFrameQueue q with
  | [] => (q, None)
  | frame :: rest => (set_closePathFrameQueue rest q, Some frame)
  end.

Definition HasFramesForRetransmission (q : streamFramer) : bool := 0 <? len (retransmissionQueue q).

(** [frame.MinLength(protocol.VersionWhatever)], whose error is ignored. *)
Definition headerLen (frame : StreamFrame) : Z :=
  match MinLength frame VersionWhatever with Ok n => n | _ => 0 end.

(** *** The crypto stream *)

(** GetOrOpenStream can open the stream. When it returns the nil stream, its method
    panics. *)
Definition HasCryptoStreamFrame (cp : ConnectionParameters) (lim : StreamLimits) (m : streamsMap) (f : flowControlManager) :
    outcome (streamsMap * flowControlManager * bool) :=
  match streamsMap.GetOrOpenStream cp lim 1 m f with
  | (m, f, inl (Some cs)) => Ok (m, f, 0 <? stream.lenOfDataForWriting cs)
  | _ => Panic
  end.

Definition PopCryptoStreamFrame (cp : ConnectionParameters) (lim : StreamLimits) (maxLen : Z)
    (m : streamsMap) (f : flowControlManager) : outcome (streamsMap * flowControlManager * option StreamFrame) :=
  '(m, f, has) ← HasCryptoStreamFrame cp lim m f;
  if negb has then Ok (m, f, None)
  else
    match streamsMap.GetOrOpenStream cp lim 1 m f with
    | (m, f, inl (Some cs)) =>
        let frame := MkStreamFrame 1 false false (stream.writeOffset cs) [] in
        let '(cs, data) := stream.getDataForWriting (u64 (maxLen - headerLen frame)) cs in
        Ok (setStream cs m, f, Some (MkStreamFrame 1 false false (Offset frame) (default [] data)))
    | _ => Panic
    end.

(** *** Frames that are sent again *)

Definition set_DataLenPresent (b : bool) (frame : StreamFrame) : StreamFrame :=
  MkStreamFrame (StreamID frame) (FinBit frame) b (Offset frame) (Data frame).

(** The frame that is split off, and what is left of the frame. *)
Definition maybeSplitOffFrame (frame : StreamFrame) (n : Z) : option (StreamFrame * StreamFrame) :=
  if DataLen frame <=? n then None
  else Some (MkStreamFrame (StreamID frame) false (DataLenPresent frame) (Offset frame) (take (Z.to_nat n) (Data frame)),
             MkStreamFrame (StreamID frame) (FinBit frame) (DataLenPresent frame) (u64 (Offset frame + n))
               (drop (Z.to_nat n) (Data frame))).

(** The loop over the queue: what is left of the queue, the flow control manager, the
    frames and their length, from a length [currentLen] on. *)
Fixpoint retransmissionLoop (maxLen currentLen : Z) (queue : list StreamFrame) (f : flowControlManager) :
    list StreamFrame * flowControlManager * list StreamFrame * Z :=
  match queue with
  | [] => ([], f, [], currentLen)
  | frame :: rest =>
      let frame := set_DataLenPresent true frame in
      let frameHeaderLen := headerLen frame in
      if maxLen <=? u64 (currentLen + frameHeaderLen) then (frame :: rest, f, [], currentLen)
      else
        let currentLen := u64 (currentLen + frameHeaderLen) in
        match maybeSplitOffFrame frame (u64 (maxLen - currentLen)) with
        | Some (splitFrame, frame) =>
            (frame :: rest, (flowControlManager.AddBytesRetrans (StreamID splitFrame) (DataLen splitFrame) f).1,
             [splitFrame], u64 (currentLen + DataLen splitFrame))
        | None =>
            let f := (flowControlManager.AddBytesRetrans (StreamID frame) (DataLen frame) f).1 in
            let '(queue, f, res, currentLen) := retransmissionLoop maxLen (u64 (currentLen + DataLen frame)) rest f in
            (queue, f, frame :: res, currentLen)
        end
  end.

Definition maybePopFramesForRetransmission (maxLen : Z) (q : streamFramer) (f : flowControlManager) :
    streamFramer * flowControlManager * list StreamFrame * Z :=
  let '(queue, f, res, currentLen) := retransmissionLoop maxLen 0 (retransmissionQueue q) f in
  (set_retransmissionQueue queue q, f, res, currentLen).

(** *** New data *)

(** What the closure in maybePopNormalFrames changes besides the streams. *)
Record popState := MkPop {
  flow : flowControlManager;
  blocked : list BlockedFrame;
  res : list StreamFrame;
  currentLen : Z;
}.

(** The closure [fn]. The frame object that it keeps between calls is only changed in the
    identifier and the offset before it is put into the result. *)
Definition popFrame (cp : ConnectionParameters) (maxBytes : Z) (s : stream) (x : streamsMap * popState) :
    (streamsMap * popState) * (bool * option error) :=
  let '(m, p) := x in
  if stream.streamID s =? 1 then (x, (true, None))
  else
    let frameHeaderBytes := headerLen (MkStreamFrame (stream.streamID s) false true (stream.writeOffset s) []) in
    if maxBytes <? u64 (currentLen p + frameHeaderBytes) then (x, (false, None))
    else
      let maxLen := u64 (u64 (maxBytes - currentLen p) - frameHeaderBytes) in
      let lenStreamData := stream.lenOfDataForWriting s in
      let sendWindowSize :=
        if negb (lenStreamData =? 0)
        then match flowControlManager.SendWindowSize cp (stream.streamID s) (flow p) with inl n => n | inr _ => 0 end
        else 0 in
      let maxLen := if negb (lenStreamData =? 0) then utils.MinByteCount maxLen sendWindowSize else maxLen in
      if maxLen =? 0 then (x, (true, None))
      else
        let '(s', data) := if negb (lenStreamData =? 0) then stream.getDataForWriting maxLen s else (s, None) in
        let shouldSendFin := stream.shouldSendFin s' in
        if bool_decide (data = None) && negb shouldSendFin then ((setStream s' m, p), (true, None))
        else
          let s'' := if shouldSendFin then stream.sentFin s' else s' in
          let frame := MkStreamFrame (stream.streamID s) shouldSendFin true (stream.writeOffset s) (default [] data) in
          let flow := (flowControlManager.AddBytesSent (stream.streamID s) (u64 (len (Data frame))) (flow p)).1 in
          let blocked :=
            if flowControlManager.RemainingConnectionWindowSize cp flow =? 0
            then blocked p ++ [BlockedFrame.MkBlockedFrame 0]
            else if negb (FinBit frame) && (u64 (sendWindowSize - DataLen frame) =? 0)
            then blocked p ++ [BlockedFrame.MkBlockedFrame (stream.streamID s)]
            else blocked p in
          let currentLen := u64 (currentLen p + u64 (frameHeaderBytes + DataLen frame)) in
          let p := MkPop flow blocked (res p ++ [frame]) currentLen in
          ((setStream s'' m, p), (negb (currentLen =? maxBytes), None)).

(** The error of RoundRobinIterate is ignored. *)
Definition maybePopNormalFrames (cp : ConnectionParameters) (maxBytes : Z) (q : streamFramer) (m : streamsMap) (f : flowControlManager) :
    outcome (streamFramer * streamsMap * flowControlManager * list StreamFrame) :=
  '((m, p), _) ← streamsMap.RoundRobinIterate (popFrame cp maxBytes) (m, MkPop f (blockedFrameQueue q) [] 0);
  Ok (set_blockedFrameQueue (blocked p) q, m, flow p, res p).

Definition PopStreamFrames (cp : ConnectionParameters) (maxLen : Z) (q : streamFramer) (m : streamsMap) (f : flowControlManager) :
    outcome (streamFramer * streamsMap * flowControlManager * list StreamFrame) :=
  let '(q, f, fs, currentLen) := maybePopFramesForRetransmission maxLen q f in
  '(q, m, f, fs') ← maybePopNormalFrames cp (u64 (maxLen - currentLen)) q m f;
  Ok (q, m, f, fs ++ fs').

End streamFramer.

(** ** The frames of one packet *)
Section framing.
Import protocol StreamFrame streamFramer.
Import stream (stream).
Import streamsMap (streamsMap).
Import session_streams (setStream).
Import flowControlManager (flowControlManager).

(** What a frame takes in a packet. *)
Definition frameLen (fr : StreamFrame) : Z := headerLen fr + len (Data fr).
Fixpoint totalLen (fs : list StreamFrame) : Z := match fs with [] => 0 | fr :: fs => frameLen fr + totalLen fs end.

(** A frame that the peer accepts: it has data or the FIN bit. *)
Definition meaningful (fr : StreamFrame) : Prop := Data fr ≠ [] ∨ FinBit fr = true.

(** Lengths and offsets of real slices and streams, far from the end of their types. *)
Definition frame_small (fr : StreamFrame) : Prop := 0 <= Offset fr ∧ Offset fr + len (Data fr) < 2 ^ 62.
Definition stream_small (s : stream) : Prop :=
  0 <= stream.writeOffset s ∧ stream.writeOffset s + len (default [] (stream.dataForWriting s)) < 2 ^ 62.
Definition streams_small (m : streamsMap) : Prop := map_Forall (λ _ s, stream_small s) (streamsMap.streams m).

Lemma headerLen_eq fr : 1 <= calculateStreamIDLength fr <= 4 ∧ 0 <= getOffsetLength fr <= 8 ∧
  headerLen fr = 1 + calculateStreamIDLength fr + getOffsetLength fr + if DataLenPresent fr then 2 else 0.
Proof.
  assert (1 <= calculateStreamIDLength fr <= 4) as H1 by (unfold calculateStreamIDLength; repeat case_match; lia).
  assert (0 <= getOffsetLength fr <= 8) as H2 by (unfold getOffsetLength; repeat case_match; lia).
  split; [done|]. split; [done|]. unfold headerLen, MinLength. revert H1 H2. generalize (calculateStreamIDLength fr), (getOffsetLength fr).
  intros x y H1 H2. rewrite (u64_id (1 + x)), (u64_id (1 + x + y)), (u64_id (1 + x + y + 2)) by (unfold is_u64; lia). case_match; lia.
Qed.

Lemma headerLen_bounds fr : 2 <= headerLen fr <= 15.
Proof. destruct (headerLen_eq fr) as (? & ? & ->). case_match; lia. Qed.

Lemma headerLen_ext fr fr' : StreamID fr = StreamID fr' → Offset fr = Offset fr' → DataLenPresent fr = DataLenPresent fr' →
  headerLen fr = headerLen fr'.
Proof. unfold headerLen, MinLength, calculateStreamIDLength, getOffsetLength. by intros -> -> ->. Qed.

Lemma totalLen_app fs fs' : totalLen (fs ++ fs') = totalLen fs + totalLen fs'.
Proof. induction fs as [|fr fs IH]; [done|]. cbn. rewrite IH. lia. Qed.

Lemma totalLen_nonneg fs : 0 <= totalLen fs.
Proof.
  induction fs as [|fr fs IH]; [done|]. cbn. pose proof (headerLen_bounds fr). pose proof (len_nonneg (Data fr)). unfold frameLen. lia.
Qed.

(** The length field is two bytes. *)
Lemma headerLen_DataLenPresent fr : DataLenPresent fr = true → headerLen (set_DataLenPresent false fr) = headerLen fr - 2.
Proof.
  intros E. destruct (headerLen_eq fr) as (_ & _ & ->), (headerLen_eq (set_DataLenPresent false fr)) as (_ & _ & ->). rewrite E.
  change (calculateStreamIDLength (set_DataLenPresent false fr)) with (calculateStreamIDLength fr).
  change (getOffsetLength (set_DataLenPresent false fr)) with (getOffsetLength fr). cbn [DataLenPresent set_DataLenPresent]. lia.
Qed.

Lemma MinByteCount_min a b : utils.MinByteCount a b = a `min` b.
Proof. unfold utils.MinByteCount. case_bool; lia. Qed.

Lemma setStream_id m s : streamsMap.streams m !! stream.streamID s = Some s → setStream s m = m.
Proof. intros E. destruct m. unfold setStream, streamsMap.set_streams. cbn in *. by rewrite insert_id. Qed.

(** *** What the framer takes from a stream *)

Lemma lenOfData_spec s : stream_small s → stream.lenOfDataForWriting s ≠ 0 →
  ∃ d, stream.err s = None ∧ stream.dataForWriting s = Some d ∧ 0 < len d < 2 ^ 62 ∧ stream.lenOfDataForWriting s = len d.
Proof.
  unfold stream_small, stream.lenOfDataForWriting. intros [H0 H1] Hn. destruct (stream.err s); [done|].
  destruct (stream.dataForWriting s) as [d|]; [|done]. cbn in *. exists d. pose proof (len_nonneg d).
  rewrite u64_id in * by (unfold is_u64; lia). split; [done|]. split; [done|]. lia.
Qed.

(** The stream behind a call of getDataForWriting that returned [data]: only the
    beginning of what waits has gone. *)
Record took (s s' : stream) (data : list Z) : Prop := {
  tk_id : stream.streamID s' = stream.streamID s;
  tk_err : stream.err s' = stream.err s;
  tk_waiting : default [] (stream.dataForWriting s) = data ++ default [] (stream.dataForWriting s');
  tk_empty : stream.dataForWriting s' ≠ Some [];
  tk_offset : stream.writeOffset s' = stream.writeOffset s + len data;
  tk_finished : stream.finishedWriting s' = stream.finishedWriting s;
  tk_finSent : stream.finSent s' = stream.finSent s;
}.

Lemma take_spec s n : stream_small s → 0 < n < 2 ^ 63 → stream.lenOfDataForWriting s ≠ 0 →
  ∃ s' data, stream.getDataForWriting n s = (s', Some data) ∧ data ≠ [] ∧ len data <= n ∧ took s s' data.
Proof.
  intros Hs Hn Hl. destruct (lenOfData_spec s Hs Hl) as (d & Ee & Ed & Hd & _). unfold stream.getDataForWriting. rewrite Ee, Ed.
  destruct Hs as [H0 H1]. rewrite Ed in H1. cbn in H1. rewrite (u64_id (len d)) by (unfold is_u64; lia).
  destruct (Z.ltb_spec n (len d)) as [Hlt|Hge].
  - eexists _, _. split; [done|]. assert (len (take (Z.to_nat n) d) = n) as En by (rewrite len_take; lia).
    split; [intros E; rewrite E in En; unfold len in En; cbn in En; lia|]. split; [lia|].
    constructor; try done; cbn; rewrite ?Ed.
    + cbn. by rewrite take_drop.
    + intros [= E]. pose proof (len_drop (Z.to_nat n) d) as Eq. rewrite E in Eq. unfold len at 1 in Eq. cbn in Eq. lia.
    + rewrite (u64_id (len _)), u64_id by (unfold is_u64; lia). lia.
  - eexists _, _. split; [done|]. split; [intros ->; unfold len in Hd; cbn in Hd; lia|]. split; [lia|].
    constructor; try done; cbn; rewrite ?Ed; [by rewrite app_nil_r|].
    rewrite (u64_id (len _)), u64_id by (unfold is_u64; lia). lia.
Qed.

Lemma take_id n s : stream.streamID (stream.getDataForWriting n s).1 = stream.streamID s.
Proof. unfold stream.getDataForWriting. destruct (stream.err s), (stream.dataForWriting s) as [d|]; try done. by destruct (_ <? _). Qed.

(** *** One call of the closure *)

Context (cp : ConnectionParameters).

Definition header (s : stream) : Z := headerLen (MkStreamFrame (stream.streamID s) false true (stream.writeOffset s) []).

(** The frame that the closure makes from [data], and the stream behind it. *)
Definition popped (s s' : stream) (data : list Z) : StreamFrame :=
  MkStreamFrame (stream.streamID s) (stream.shouldSendFin s') true (stream.writeOffset s) data.
Definition finned (s' : stream) : stream := if stream.shouldSendFin s' then stream.sentFin s' else s'.

(** What the closure allows itself to take: nothing, or data within the window. *)
Definition allowed (s s' : stream) (data : list Z) (window : Z) (f : flowControlManager) : Prop :=
  data = [] ∧ s' = s ∧ window = 0 ∧ stream.shouldSendFin s' = true ∨
  data ≠ [] ∧ len data <= window ∧ flowControlManager.SendWindowSize cp (stream.streamID s) f = inl window.

Definition block (s : stream) (fr : StreamFrame) (window : Z) (f : flowControlManager) : list BlockedFrame.BlockedFrame :=
  if flowControlManager.RemainingConnectionWindowSize cp f =? 0 then [BlockedFrame.MkBlockedFrame 0]
  else if negb (FinBit fr) && (window =? len (Data fr)) then [BlockedFrame.MkBlockedFrame (stream.streamID s)] else [].

Definition charge (fr : StreamFrame) (f : flowControlManager) : flowControlManager :=
  (flowControlManager.AddBytesSent (StreamID fr) (len (Data fr)) f).1.

Lemma window_u64 f id w : flowControlManager.SendWindowSize cp id f = inl w → is_u64 w.
Proof.
  assert (∀ c, is_u64 (flowController.SendWindowSize cp c)) as Hc.
  { intros c. unfold flowController.SendWindowSize. case_match; [unfold is_u64; lia|apply u64_range]. }
  unfold flowControlManager.SendWindowSize. destruct (flowControlManager.getFlowController id f) as [c|]; [|done]. intros [= <-].
  rewrite MinByteCount_min. pose proof (Hc c). pose proof (Hc (flowControlManager.connFlowController f)). unfold is_u64 in *. case_match; lia.
Qed.

(** The end of the closure, behind the choice of the data. *)
Lemma emit_eq s s' data w p hdr : 0 <= len data <= w → is_u64 w → w < 2 ^ 64 → 0 <= currentLen p → 0 <= hdr → len data < 2 ^ 62 →
  currentLen p + (hdr + len data) < 2 ^ 63 → hdr = headerLen (popped s s' data) →
  let fr := popped s s' data in let f := (flowControlManager.AddBytesSent (stream.streamID s) (u64 (len data)) (flow p)).1 in
  MkPop f (if flowControlManager.RemainingConnectionWindowSize cp f =? 0 then blocked p ++ [BlockedFrame.MkBlockedFrame 0]
           else if negb (stream.shouldSendFin s') && (u64 (w - DataLen fr) =? 0)
           then blocked p ++ [BlockedFrame.MkBlockedFrame (stream.streamID s)] else blocked p)
    (res p ++ [fr]) (u64 (currentLen p + u64 (hdr + DataLen fr))) =
  MkPop (charge fr (flow p)) (blocked p ++ block s fr w (charge fr (flow p))) (res p ++ [fr]) (currentLen p + frameLen fr).
Proof.
  intros Hd Hw Hw' Hc Hh Hl Hsum Eh fr f. assert (DataLen fr = len data) as Ed by (unfold DataLen; apply u64_id; unfold is_u64; cbn; lia).
  assert (f = charge fr (flow p)) as -> by (unfold f, charge; cbn; by rewrite u64_id by (unfold is_u64; lia)).
  rewrite Ed, (u64_id (w - _)), (u64_id (hdr + _)), u64_id by (unfold is_u64; lia). unfold frameLen. fold fr in Eh. rewrite <- Eh.
  f_equal. unfold block. cbn [FinBit Data fr popped].
  assert ((w - len data =? 0) = (w =? len data)) as -> by (apply eq_true_iff_eq; rewrite !Z.eqb_eq; lia).
  case_match; [done|]. case_match; [done|by rewrite app_nil_r].
Qed.

(** A stream from which a frame could be made. *)
Definition sendable (f : flowControlManager) (s : stream) : Prop :=
  stream.lenOfDataForWriting s ≠ 0 ∧ (∃ w, flowControlManager.SendWindowSize cp (stream.streamID s) f = inl w ∧ w ≠ 0) ∨
  stream.lenOfDataForWriting s = 0 ∧ stream.shouldSendFin s = true.

(** Why the closure made no frame: the crypto stream, no room, or nothing to send. *)
Definition passed (maxBytes : Z) (s : stream) (p : popState) (r : bool * option error) : Prop :=
  stream.streamID s = 1 ∧ r = (true, None) ∨ maxBytes <= currentLen p + header s ∨ ~ sendable (flow p) s ∧ r = (true, None).

Lemma popFrame_cases maxBytes s m p m' p' r : streamsMap.streams m !! stream.streamID s = Some s → stream_small s →
  0 <= currentLen p <= maxBytes → maxBytes < 2 ^ 62 → popFrame cp maxBytes s (m, p) = ((m', p'), r) →
  m' = m ∧ p' = p ∧ passed maxBytes s p r ∨
  ∃ s' data w, stream.streamID s ≠ 1 ∧ took s s' data ∧ allowed s s' data w (flow p) ∧ is_u64 w ∧
    let fr := popped s s' data in
    currentLen p + frameLen fr <= maxBytes ∧ m' = setStream (finned s') m ∧
    p' = MkPop (charge fr (flow p)) (blocked p ++ block s fr w (charge fr (flow p))) (res p ++ [fr]) (currentLen p + frameLen fr).
Proof.
  intros Hm Hs Hc Hb. unfold popFrame. destruct (Z.eqb_spec (stream.streamID s) 1) as [|Hid]; [intros [= <- <- <-]; left; split; [done|]; split; [done|by left]|].
  fold (header s). pose proof (headerLen_bounds (MkStreamFrame (stream.streamID s) false true (stream.writeOffset s) [])) as Hh.
  fold (header s) in Hh. rewrite (u64_id (currentLen p + header s)) by (unfold is_u64; lia).
  destruct (Z.ltb_spec maxBytes (currentLen p + header s)); [intros [= <- <- <-]; left; split; [done|]; split; [done|]; right; left; lia|].
  rewrite (u64_id (maxBytes - currentLen p)), (u64_id (_ - header s)) by (unfold is_u64; lia).
  assert (∀ s' data, headerLen (popped s s' data) = header s) as Eh by (intros; by apply headerLen_ext).
  assert (∀ s' data, frameLen (popped s s' data) = header s + len data) as Efl by (intros; unfold frameLen; by rewrite Eh).
  set (room := maxBytes - currentLen p - header s) in *. assert (0 <= room < 2 ^ 62) as Hroom by (unfold room; lia).
  destruct (Z.eqb_spec (stream.lenOfDataForWriting s) 0) as [El|El]; cbn [negb].
  - destruct (Z.eqb_spec room 0); [intros [= <- <- <-]; left; split; [done|]; split; [done|]; right; left; unfold room in *; lia|]. rewrite bool_decide_eq_true_2 by done. cbn [andb].
    destruct (stream.shouldSendFin s) eqn:Ef; cbn [negb]; [|rewrite (setStream_id m s Hm); intros [= <- <- <-]; left; split; [done|]; split; [done|]; right; right; split; [|done];
      intros [[? _]|[_ ?]]; congruence].
    intros [= <- <- _]. right. exists s, [], 0. split; [done|].
    split. { constructor; try done; [|unfold len; cbn; lia]. unfold stream.shouldSendFin in Ef. intros E. rewrite E in Ef. rewrite !andb_false_r in Ef. done. }
    split; [left; done|]. split; [unfold is_u64; lia|]. cbv zeta. split; [rewrite Efl, len_nil; unfold room in *; lia|]. split; [unfold finned; by rewrite Ef|].
    rewrite <- (emit_eq s s [] 0 p (header s)); rewrite ?len_nil; try done; try (unfold is_u64; lia).
    unfold popped. by rewrite Ef.
  - destruct (flowControlManager.SendWindowSize cp (stream.streamID s) (flow p)) as [w|e] eqn:Ew.
    2:{ rewrite MinByteCount_min, Z.min_r by lia. intros [= <- <- <-]. left. split; [done|]. split; [done|]. right. right. split; [|done].
        intros [[_ (w & E & _)]|[? _]]; [by rewrite Ew in E|done]. }
    pose proof (window_u64 _ _ _ Ew) as Hw. rewrite MinByteCount_min. destruct (Z.eqb_spec (room `min` w) 0) as [E0|].
    { intros [= <- <- <-]. left. split; [done|]. split; [done|]. right. destruct (Z.eq_dec room 0); [left; unfold room in *; lia|right].
      split; [|done]. intros [[_ (w' & E & ?)]|[? _]]; [|done]. rewrite Ew in E. injection E as <-. unfold is_u64 in Hw. lia. }
    destruct (take_spec s (room `min` w) Hs) as (s' & data & E & Hne & Hlen & Ht); [unfold is_u64 in Hw; lia|done|].
    rewrite E. rewrite bool_decide_eq_false_2 by done. cbn [andb]. intros [= <- <- _]. right. exists s', data, w.
    split; [done|]. split; [done|]. split; [right; split; [done|]; split; [lia|done]|]. split; [done|].
    cbv zeta. split; [rewrite Efl; unfold room in *; lia|]. split; [done|].
    pose proof (len_nonneg data). cbn [default FinBit].
    rewrite <- (emit_eq s s' data w p (header s)); try done; unfold is_u64 in *; lia.
Qed.

Lemma gentle_popFrame maxBytes : gentle (popFrame cp maxBytes).
Proof.
  intros s m p H Hm. unfold popFrame.
  assert (∀ s', stream.streamID s' = stream.streamID s → keeps m (setStream s' m) ∧
    streamsMap.roundRobinIndex (setStream s' m) = streamsMap.roundRobinIndex m) as Hk.
  { intros s' E. split; [|done]. eapply setStream_keeps; [done|]. by rewrite E. }
  pose proof (keeps_refl m H). destruct (_ =? 1); [done|]. destruct (_ <? _); [done|]. destruct (_ =? 0); [done|].
  assert (∀ n, stream.streamID (if negb (stream.lenOfDataForWriting s =? 0) then stream.getDataForWriting n s else (s, None)).1 =
    stream.streamID s) as Hid by (intros n; case_match; [apply take_id|done]).
  match goal with |- context [if ?b then stream.getDataForWriting ?n s else (s, None)] =>
    specialize (Hid n); destruct (if b then stream.getDataForWriting n s else (s, None)) as [s' data] end. cbn [fst] in Hid.
  destruct (_ && _); [by destruct (Hk s' Hid)|].
  assert (stream.streamID (if stream.shouldSendFin s' then stream.sentFin s' else s') = stream.streamID s) as Hid' by (by case_match).
  by destruct (Hk _ Hid').
Qed.

(** *** Windows *)

Definition controller_ok (c : flowController.flowController) : Prop :=
  0 <= flowController.bytesSent c <= flowController.getSendWindow cp c ∧ flowController.getSendWindow cp c < 2 ^ 64.

(** Nothing was sent beyond a window. *)
Record within (f : flowControlManager) : Prop := {
  wi_streams : map_Forall (λ _ c, controller_ok c) (flowControlManager.streamFlowController f);
  wi_conn : controller_ok (flowControlManager.connFlowController f);
}.

(** The bytes that were counted as sent on a stream, and the bytes of it in frames. *)
Definition sentOn (id : Z) (f : flowControlManager) : option Z :=
  flowController.bytesSent <$> flowControlManager.getFlowController id f.
Fixpoint bytesOf (id : Z) (fs : list StreamFrame) : Z :=
  match fs with [] => 0 | fr :: fs => (if StreamID fr =? id then len (Data fr) else 0) + bytesOf id fs end.

(** What a BLOCKED frame says: the connection, or a stream, has no window left. *)
Definition exhausted (f : flowControlManager) (b : BlockedFrame.BlockedFrame) : Prop :=
  BlockedFrame.StreamID b = 0 ∧ flowControlManager.RemainingConnectionWindowSize cp f = 0 ∨
  ∃ c, flowControlManager.getFlowController (BlockedFrame.StreamID b) f = Some c ∧ flowController.SendWindowSize cp c = 0.

Lemma bytesOf_app id fs fs' : bytesOf id (fs ++ fs') = bytesOf id fs + bytesOf id fs'.
Proof. induction fs as [|fr fs IH]; [done|]. cbn. rewrite IH. lia. Qed.

Lemma window_size c : controller_ok c →
  flowController.SendWindowSize cp c = flowController.getSendWindow cp c - flowController.bytesSent c.
Proof. intros [? ?]. unfold flowController.SendWindowSize. case_bool; [lia|]. apply u64_id. unfold is_u64. lia. Qed.

Lemma sent_ok c n : controller_ok c → 0 <= n <= flowController.SendWindowSize cp c →
  controller_ok (flowController.AddBytesSent n c) ∧
  flowController.bytesSent (flowController.AddBytesSent n c) = flowController.bytesSent c + n ∧
  flowController.SendWindowSize cp (flowController.AddBytesSent n c) = flowController.SendWindowSize cp c - n.
Proof.
  intros Hc Hn. pose proof Hc as [Hb Hw]. rewrite (window_size c Hc) in *.
  assert (flowController.getSendWindow cp (flowController.AddBytesSent n c) = flowController.getSendWindow cp c) as Ew by done.
  assert (flowController.bytesSent (flowController.AddBytesSent n c) = flowController.bytesSent c + n) as Eb
    by (cbn; apply u64_id; unfold is_u64; lia).
  assert (controller_ok (flowController.AddBytesSent n c)) as Hc' by (split; rewrite ?Ew, ?Eb; lia).
  split; [done|]. split; [done|]. rewrite (window_size _ Hc'), Ew, Eb. lia.
Qed.

Lemma retrans_within id n f : within f → within (flowControlManager.AddBytesRetrans id n f).1 ∧
  (∀ id', sentOn id' (flowControlManager.AddBytesRetrans id n f).1 = sentOn id' f) ∧
  ∀ b, exhausted f b → exhausted (flowControlManager.AddBytesRetrans id n f).1 b.
Proof.
  intros [Hs Hc]. unfold flowControlManager.AddBytesRetrans, sentOn, exhausted, flowControlManager.getFlowController.
  destruct (flowControlManager.streamFlowController f !! id) as [c|] eqn:E; [|done]. pose proof (Hs _ _ E) as Hc1. cbn in Hc1.
  assert (map_Forall (λ _ c, controller_ok c) (<[id := flowController.AddBytesRetrans n c]> (flowControlManager.streamFlowController f))) as Hs'
    by by apply map_Forall_insert_2.
  destruct (flowController.ContributesToConnection c); cbn; (split; [by constructor|]); (split;
    [intros id'; destruct (decide (id = id')) as [<-|]; [by rewrite lookup_insert_eq, E|by rewrite lookup_insert_ne]|]);
    (intros b [?|(c' & Ec & ?)]; [by left|right]; destruct (decide (id = BlockedFrame.StreamID b)) as [Eid|];
     [rewrite <- Eid in *; rewrite lookup_insert_eq; eexists; split; [done|]; rewrite E in Ec; by injection Ec as <-|rewrite lookup_insert_ne by done; eauto]).
Qed.

(** [n] more bytes on the stream [id], within the windows. *)
Lemma charged_within id n f c : within f → flowControlManager.getFlowController id f = Some c → 0 <= n →
  n <= flowController.SendWindowSize cp c →
  (flowController.ContributesToConnection c = true → n <= flowControlManager.RemainingConnectionWindowSize cp f) →
  let f' := (flowControlManager.AddBytesSent id n f).1 in
  within f' ∧ flowControlManager.getFlowController id f' = Some (flowController.AddBytesSent n c) ∧
  (∀ id', id' ≠ id → flowControlManager.getFlowController id' f' = flowControlManager.getFlowController id' f) ∧
  flowControlManager.RemainingConnectionWindowSize cp f' =
    flowControlManager.RemainingConnectionWindowSize cp f - (if flowController.ContributesToConnection c then n else 0).
Proof.
  intros [Hs Hc] E Hn Hw Hcw. unfold flowControlManager.AddBytesSent. rewrite E. pose proof (Hs _ _ E) as Hc1. cbn in Hc1.
  destruct (sent_ok c n Hc1) as (Hok & _); [lia|].
  assert (map_Forall (λ _ c, controller_ok c) (<[id := flowController.AddBytesSent n c]> (flowControlManager.streamFlowController f))) as Hs'
    by by apply map_Forall_insert_2.
  unfold flowControlManager.RemainingConnectionWindowSize in *. destruct (flowController.ContributesToConnection c).
  - destruct (sent_ok _ n Hc) as (Hok' & _ & Ew); [split; [lia|]; by apply Hcw|]. cbv zeta. split; [by constructor|].
    split; [apply lookup_insert_eq|]. split; [|done]. intros id' Hne. by apply lookup_insert_ne.
  - cbv zeta. split; [by constructor|]. split; [apply lookup_insert_eq|]. split; [|cbn; lia].
    intros id' Hne. by apply lookup_insert_ne.
Qed.

Lemma remaining_nonneg f : within f → 0 <= flowControlManager.RemainingConnectionWindowSize cp f.
Proof. intros [_ Hc]. unfold flowControlManager.RemainingConnectionWindowSize. rewrite (window_size _ Hc). destruct Hc. lia. Qed.

(** What [allowed] says of the windows, when the stream has a controller. *)
Lemma allowed_windows s s' data w f c : within f → allowed s s' data w f →
  flowControlManager.getFlowController (stream.streamID s) f = Some c →
  len data <= flowController.SendWindowSize cp c ∧
  (flowController.ContributesToConnection c = true → len data <= flowControlManager.RemainingConnectionWindowSize cp f) ∧
  (data ≠ [] → w = if flowController.ContributesToConnection c
     then flowController.SendWindowSize cp c `min` flowControlManager.RemainingConnectionWindowSize cp f
     else flowController.SendWindowSize cp c).
Proof.
  intros Hf Ha E. pose proof (remaining_nonneg f Hf). pose proof Hf as [Hs _].
  pose proof (Hs _ _ E) as Hc. cbn in Hc. rewrite (window_size c Hc). destruct Hc as [Hc1 Hc2].
  destruct Ha as [(-> & _ & _ & _)|(Hne & Hlen & Ew)]; [rewrite len_nil; split; [lia|done]|].
  unfold flowControlManager.SendWindowSize in Ew. rewrite E, (window_size c (conj Hc1 Hc2)), MinByteCount_min in Ew. injection Ew as <-.
  unfold flowControlManager.RemainingConnectionWindowSize in *. destruct (flowController.ContributesToConnection c); (split; [lia|]); (split; [lia|done]).
Qed.

Lemma add_zero (o : option Z) k : k = 0 → (λ n, n + k) <$> o = o.
Proof. intros ->. destruct o; cbn; f_equal. lia. Qed.

Lemma charge_spec s s' data w f : within f → allowed s s' data w f → let fr := popped s s' data in
  within (charge fr f) ∧ (∀ id, sentOn id (charge fr f) = (λ n, n + bytesOf id [fr]) <$> sentOn id f) ∧
  (∀ b, exhausted f b → exhausted (charge fr f) b) ∧ Forall (exhausted (charge fr f)) (block s fr w (charge fr f)).
Proof.
  intros Hf Ha fr. pose proof (len_nonneg data) as Hl.
  destruct (flowControlManager.getFlowController (stream.streamID s) f) as [c|] eqn:E.
  2:{ assert (data = []) as ->.
      { destruct Ha as [(-> & _)|(_ & _ & Ew)]; [done|]. unfold flowControlManager.SendWindowSize in Ew. by rewrite E in Ew. }
      assert (charge fr f = f) as -> by (unfold charge, flowControlManager.AddBytesSent; change (StreamID fr) with (stream.streamID s); by rewrite E). split; [done|]. split; [|split; [done|]].
      - intros id. rewrite add_zero; [done|]. cbn. by case_match.
      - unfold block. destruct (Z.eqb_spec (flowControlManager.RemainingConnectionWindowSize cp f) 0); [constructor; [by left|done]|].
        destruct Ha as [(_ & -> & _ & Ef)|[? _]]; [|done]. cbn. rewrite Ef. constructor. }
  destruct (allowed_windows _ _ _ _ _ _ Hf Ha E) as (Hw & Hcw & Ew).
  destruct (charged_within (stream.streamID s) (len data) f c Hf E Hl Hw Hcw) as (Hf' & E' & Hne & Er).
  change ((flowControlManager.AddBytesSent (stream.streamID s) (len data) f).1) with (charge fr f) in *.
  destruct (sent_ok c (len data) (wi_streams _ Hf _ _ E)) as (Hok & Eb & Es); [lia|].
  split; [done|]. split; [|split].
  - intros id. unfold sentOn. cbn. destruct (Z.eqb_spec (stream.streamID s) id) as [<-|Hn].
    + rewrite E', E. cbn [fmap option_fmap option_map]. rewrite Eb. f_equal. lia.
    + rewrite (Hne id) by done. by rewrite add_zero.
  - pose proof (remaining_nonneg _ Hf'). intros b [[? Hz]|(c' & Ec & Hz)]; [left; split; [done|]; case_match; lia|right].
    destruct (decide (BlockedFrame.StreamID b = stream.streamID s)) as [Eid|Hn].
    + rewrite Eid in *. eexists. split; [exact E'|]. rewrite Ec in E. injection E as <-. lia.
    + rewrite (Hne _ Hn). eauto.
  - unfold block. destruct (Z.eqb_spec (flowControlManager.RemainingConnectionWindowSize cp (charge fr f)) 0); [constructor; [by left|done]|].
    destruct (negb (FinBit fr) && _) eqn:Eb'; [|constructor]. apply andb_true_iff in Eb' as [Ef Ez%Z.eqb_eq]. apply negb_true_iff in Ef.
    constructor; [|done]. right. eexists. split; [exact E'|]. cbn in Ef, Ez. rewrite Es.
    destruct Ha as [(_ & _ & _ & ?)|[Hd _]]; [congruence|]. specialize (Ew Hd).
    destruct (flowController.ContributesToConnection c); lia.
Qed.

(** *** The queue of lost frames *)

(** What a frame carries: the bytes of a stream with their positions, and its end. *)
Inductive piece := PByte (id pos b : Z) | PFin (id pos : Z).
Definition pieces (fr : StreamFrame) : list piece :=
  imap (λ i b, PByte (StreamID fr) (Offset fr + Z.of_nat i) b) (Data fr) ++
  if FinBit fr then [PFin (StreamID fr) (Offset fr + len (Data fr))] else [].
Definition allPieces (fs : list StreamFrame) : list piece := fs ≫= pieces.

Lemma allPieces_cons fr fs : allPieces (fr :: fs) = pieces fr ++ allPieces fs.
Proof. done. Qed.

Lemma split_spec fr n a b : frame_small fr → meaningful fr → 0 < n → maybeSplitOffFrame fr n = Some (a, b) →
  pieces a ++ pieces b = pieces fr ∧ len (Data a) = n ∧ StreamID a = StreamID fr ∧ Offset a = Offset fr ∧
  DataLenPresent a = DataLenPresent fr ∧ frame_small a ∧ frame_small b ∧ meaningful a ∧ meaningful b.
Proof.
  intros [H0 H1] Hm Hn. unfold maybeSplitOffFrame, DataLen. pose proof (len_nonneg (Data fr)).
  rewrite (u64_id (len _)) by (unfold is_u64; lia). destruct (Z.leb_spec (len (Data fr)) n) as [|Hlt]; [done|]. intros [= <- <-].
  assert (len (take (Z.to_nat n) (Data fr)) = n) as El by (rewrite len_take; lia).
  assert (len (drop (Z.to_nat n) (Data fr)) = len (Data fr) - n) as El' by (rewrite len_drop; lia).
  assert (u64 (Offset fr + n) = Offset fr + n) as Eo by (apply u64_id; unfold is_u64; lia).
  split; [|split; [done|]; split; [done|]; split; [done|]; split; [done|]].
  - unfold pieces. cbn [FinBit StreamID Offset Data]. rewrite app_nil_r, Eo, El', app_assoc. f_equal.
    + rewrite <- (take_drop (Z.to_nat n) (Data fr)) at 3. rewrite imap_app. f_equal. apply imap_ext. intros i x _. cbn.
      f_equal. rewrite length_take. unfold len in *. lia.
    + case_match; [|done]. do 2 f_equal. lia.
  - unfold frame_small, meaningful. cbn [FinBit Offset Data]. rewrite Eo, El, El'. split; [lia|]. split; [lia|]. split.
    + left. intros E. rewrite E in El. unfold len in El. cbn in El. lia.
    + left. intros E. rewrite E in El'. unfold len in El' at 1. cbn in El'. lia.
Qed.

(** A frame as it is put into a packet. *)
Definition well_framed (fr : StreamFrame) : Prop := meaningful fr ∧ frame_small fr ∧ DataLenPresent fr = true.

(** The loop takes frames from the front of the queue, and at most the beginning of one
    more: nothing is lost, repeated or reordered. *)
Lemma retransmission_spec maxLen cur queue f queue' f' fs cur' : Forall frame_small queue → Forall meaningful queue →
  0 <= cur <= maxLen → maxLen < 2 ^ 62 → retransmissionLoop maxLen cur queue f = (queue', f', fs, cur') →
  allPieces fs ++ allPieces queue' = allPieces queue ∧ cur' = cur + totalLen fs ∧ cur' <= maxLen ∧
  Forall frame_small queue' ∧ Forall meaningful queue' ∧
  Forall well_framed fs ∧
  (within f → within f' ∧ (∀ id, sentOn id f' = sentOn id f) ∧ ∀ b, exhausted f b → exhausted f' b).
Proof.
  revert cur f queue' f' fs cur'. induction queue as [|fr queue IH]; intros cur f queue' f' fs cur' Hs Hm Hc Hb; cbn [retransmissionLoop].
  { intros [= <- <- <- <-]. cbn. split; [done|]. split; [lia|]. split; [lia|]. done. }
  apply Forall_cons in Hs as [Hs1 Hs], Hm as [Hm1 Hm]. set (fr1 := set_DataLenPresent true fr).
  assert (frame_small fr1 ∧ meaningful fr1 ∧ pieces fr1 = pieces fr) as (Hs2 & Hm2 & Ep) by (split; [done|]; split; [done|]; done).
  pose proof (headerLen_bounds fr1) as Hh. pose proof (len_nonneg (Data fr1)) as Hl. destruct Hs2 as [Ho Hol].
  rewrite (u64_id (cur + headerLen fr1)) by (unfold is_u64; lia). destruct (Z.leb_spec maxLen (cur + headerLen fr1)) as [|Hlt].
  { intros [= <- <- <- <-]. rewrite !allPieces_cons, Ep. split; [done|]. cbn [totalLen]. split; [lia|]. split; [lia|].
    split; [by constructor|]. split; [by constructor|]. done. }
  rewrite (u64_id (maxLen - _)) by (unfold is_u64; lia).
  destruct (maybeSplitOffFrame fr1 _) as [[a b]|] eqn:E.
  - intros [= <- <- <- <-].
    destruct (split_spec fr1 (maxLen - (cur + headerLen fr1)) a b (conj Ho Hol) Hm2 ltac:(lia) E) as (Epp & Ela & Eid & Eo & Ed & Hsa & Hsb & Hma & Hmb).
    assert (headerLen a = headerLen fr1) as Eh by (by apply headerLen_ext).
    assert (DataLen a = len (Data a)) as EDl by (unfold DataLen; apply u64_id; unfold is_u64; lia).
    rewrite !allPieces_cons. split; [cbn [allPieces]; rewrite <- Ep, <- Epp; by rewrite app_nil_r, app_assoc|].
    rewrite EDl, u64_id by (unfold is_u64; lia). cbn [totalLen]. unfold frameLen. rewrite Eh. split; [lia|]. split; [lia|].
    split; [by constructor|]. split; [by constructor|]. split; [constructor; [done|constructor]|]. apply retrans_within.
  - unfold maybeSplitOffFrame in E. assert (DataLen fr1 = len (Data fr1)) as EDl by (unfold DataLen; apply u64_id; unfold is_u64; lia).
    rewrite EDl in *. destruct (Z.leb_spec (len (Data fr1)) (maxLen - (cur + headerLen fr1))); [|done].
    rewrite (u64_id (_ + len _)) by (unfold is_u64; lia).
    destruct (retransmissionLoop maxLen _ queue _) as [[[queue2 f2] fs2] cur2] eqn:El. intros [= <- <- <- <-].
    destruct (IH (cur + headerLen fr1 + len (Data fr1)) _ _ _ _ _ Hs Hm ltac:(lia) Hb El) as (Epp & Ecur & Hle & Hs3 & Hm3 & Hf3 & Hw).
    rewrite !allPieces_cons, <- Epp, Ep. split; [by rewrite app_assoc|]. cbn [totalLen]. unfold frameLen. split; [lia|]. split; [lia|].
    split; [done|]. split; [done|]. split; [by constructor|]. intros Hf.
    destruct (retrans_within (StreamID fr1) (len (Data fr1)) f Hf) as (Hf1 & Es & Hex).
    destruct (Hw Hf1) as (? & Es2 & Hex2). split; [done|]. split; [intros id; by rewrite Es2|auto].
Qed.

(** *** The whole call *)

(** What the flow control manager and the BLOCKED frames say behind the frames of [p]. *)
Record charged (f0 : flowControlManager) (bl0 : list BlockedFrame.BlockedFrame) (f : flowControlManager)
    (bl : list BlockedFrame.BlockedFrame) (fs : list StreamFrame) : Prop := {
  ch_within : within f;
  ch_sent id : sentOn id f = (λ n, n + bytesOf id fs) <$> sentOn id f0;
  ch_blocked : ∃ new, bl = bl0 ++ new ∧ Forall (exhausted f) new;
}.

Record filling (maxBytes : Z) (f0 : flowControlManager) (bl0 : list BlockedFrame.BlockedFrame) (m : streamsMap) (p : popState) : Prop := {
  fi_len : currentLen p = totalLen (res p);
  fi_max : currentLen p <= maxBytes;
  fi_small : streams_small m;
  fi_frames : Forall well_framed (res p);
  fi_charged : within f0 → charged f0 bl0 (flow p) (blocked p) (res p);
}.

Lemma finned_small s s' data : stream_small s → took s s' data → stream_small (finned s').
Proof.
  intros [H1 H2] [_ _ Ew _ Eo _ _]. rewrite Ew, len_app in H2. pose proof (len_nonneg data).
  unfold stream_small, finned. case_match; cbn; rewrite Eo; lia.
Qed.

Lemma finned_id s' : stream.streamID (finned s') = stream.streamID s'.
Proof. unfold finned. by case_match. Qed.

Lemma setStream_small m s : streams_small m → stream_small s → streams_small (setStream s m).
Proof. intros Hm Hs. by apply map_Forall_insert_2. Qed.

Lemma charged_call f0 bl0 f bl fs s s' data w : charged f0 bl0 f bl fs → allowed s s' data w f → let fr := popped s s' data in
  charged f0 bl0 (charge fr f) (bl ++ block s fr w (charge fr f)) (fs ++ [fr]).
Proof.
  intros [Hw Hs (new & -> & Hb)] Ha fr. destruct (charge_spec s s' data w f Hw Ha) as (Hw' & Hs' & Hex & Hbl). constructor.
  - done.
  - intros id. rewrite Hs', Hs, bytesOf_app, <- option_fmap_compose. apply option_fmap_ext. intros n. unfold compose. by rewrite Z.add_assoc.
  - eexists. split; [by rewrite <- app_assoc|]. apply Forall_app. split; [|done]. eapply Forall_impl; [exact Hb|]. apply Hex.
Qed.

Lemma filling_call maxBytes f0 bl0 s m p m' p' r : maxBytes < 2 ^ 62 → sm_inv m → streamsMap.streams m !! stream.streamID s = Some s →
  filling maxBytes f0 bl0 m p → popFrame cp maxBytes s (m, p) = ((m', p'), r) → filling maxBytes f0 bl0 m' p'.
Proof.
  intros Hb H Hm [El Hmax Hs Hf Hc] E. pose proof (totalLen_nonneg (res p)). pose proof (Hs _ _ Hm) as Hsm. cbn in Hsm.
  destruct (popFrame_cases maxBytes s m p m' p' r Hm Hsm ltac:(lia) Hb E) as [(-> & -> & _)|(s' & data & w & _ & Ht & Ha & _ & Hle & -> & ->)]; [done|].
  constructor; cbn [currentLen res flow blocked].
  - rewrite totalLen_app. cbn [totalLen]. lia.
  - done.
  - apply setStream_small; [done|]. by eapply finned_small.
  - apply Forall_app. split; [done|]. constructor; [|done]. split; [destruct Ha as [(_ & _ & _ & ?)|[? _]]; [by right|by left]|]. split; [|done].
    destruct Hsm as [? Hlen]. rewrite (tk_waiting _ _ _ Ht), len_app in Hlen. split; cbn; [done|]. pose proof (len_nonneg (default [] (stream.dataForWriting s'))). lia.
  - intros Hw. apply charged_call; auto.
Qed.

Lemma charged_start f bl : within f → charged f bl f bl [].
Proof. intros Hf. constructor; [done| |by exists []; rewrite app_nil_r]. intros id. by rewrite add_zero. Qed.

Lemma normal_frames maxBytes q m f : 0 <= maxBytes < 2 ^ 62 → sm_inv m → len (streamsMap.openStreams m) < 2 ^ 31 → streams_small m →
  ∃ q' m' f' fs, maybePopNormalFrames cp maxBytes q m f = Ok (q', m', f', fs) ∧ totalLen fs <= maxBytes ∧
    Forall well_framed fs ∧ retransmissionQueue q' = retransmissionQueue q ∧ sm_inv m' ∧ keeps m m' ∧ streams_small m' ∧
    (within f → charged f (blockedFrameQueue q) f' (blockedFrameQueue q') fs).
Proof.
  intros Hb H Hl Hs. unfold maybePopNormalFrames.
  destruct (RoundRobin_invariant (popFrame cp maxBytes) (filling maxBytes f (blockedFrameQueue q)) (gentle_popFrame maxBytes)) with (m := m)
    (x := MkPop f (blockedFrameQueue q) [] 0) as (m' & p' & e & -> & Hi & Hk & [El Hm Hs' Hf Hc]).
  - intros s1 m1 x m2 x' r ? ? ? ?. eapply filling_call; [apply Hb|done..].
  - intros v m1 x [? ? ? ? ?]. by constructor.
  - done.
  - done.
  - constructor; try done; [cbn; lia|apply charged_start].
  - eexists _, _, _, _. split; [done|]. split; [lia|]. done.
Qed.

(** What the framer needs: the invariant of the map, and lengths of real slices. *)
Record framer_ok (q : streamFramer) (m : streamsMap) : Prop := {
  fo_map : sm_inv m;
  fo_open : len (streamsMap.openStreams m) < 2 ^ 31;
  fo_streams : streams_small m;
  fo_queue : Forall frame_small (retransmissionQueue q);
  fo_meaningful : Forall meaningful (retransmissionQueue q);
}.

Lemma setStream_ok q m s s0 : framer_ok q m → streamsMap.streams m !! stream.streamID s = Some s0 → stream_small s → framer_ok q (setStream s m).
Proof.
  intros [H Ho Hs Hq Hm] E Hsm. pose proof (setStream_keeps m s s0 H E) as Hk. constructor; try done.
  - apply (keeps_index_inv m); [done|done|done].
  - by apply setStream_small.
Qed.

(** PopStreamFrames, both parts. *)
Lemma PopStreamFrames_spec maxLen q m f : framer_ok q m → 0 <= maxLen < 2 ^ 62 →
  ∃ q' m' f' old new, PopStreamFrames cp maxLen q m f = Ok (q', m', f', old ++ new) ∧
    totalLen (old ++ new) <= maxLen ∧ Forall well_framed (old ++ new) ∧
    allPieces old ++ allPieces (retransmissionQueue q') = allPieces (retransmissionQueue q) ∧
    framer_ok q' m' ∧ (within f → charged f (blockedFrameQueue q) f' (blockedFrameQueue q') new).
Proof.
  intros [Hi Ho Hs Hq Hm] Hb. unfold PopStreamFrames, maybePopFramesForRetransmission.
  destruct (retransmissionLoop maxLen 0 (retransmissionQueue q) f) as [[[queue f1] old] cur] eqn:E.
  destruct (retransmission_spec maxLen 0 _ _ _ _ _ _ Hq Hm ltac:(lia) ltac:(lia) E) as (Ep & Ec & Hle & Hq' & Hm' & Hold & Hflow).
  pose proof (totalLen_nonneg old). rewrite (u64_id (maxLen - cur)) by (unfold is_u64; lia).
  destruct (normal_frames (maxLen - cur) (set_retransmissionQueue queue q) m f1)
    as (q' & m' & f' & new & -> & Hnew & Hwf & Eq & Hi' & Hk & Hs' & Hc); [lia|done..|].
  exists q', m', f', old, new. split; [done|]. rewrite totalLen_app. split; [lia|].
  split; [by apply Forall_app|].
  rewrite Eq. split; [done|]. split; [constructor; rewrite ?Eq, ?(ke_open _ _ Hk); done|].
  intros Hf. destruct (Hflow Hf) as (Hf1 & Es & _). destruct (Hc Hf1) as [? Hs2 ?]. constructor; [done| |done].
  intros id. by rewrite Hs2, Es.
Qed.

(** C24: the stream frames for a packet fit into it. PopStreamFrames always returns; what it
    returns is not longer than it was asked for, every frame has data or the FIN bit
    and its length field. The frames from the retransmission queue carry exactly the
    beginning of what was queued, byte for byte and in order, also where a frame was split, and the
    rest stays in the queue. *)
Theorem popped_frames_fit maxLen q m f : framer_ok q m → 0 <= maxLen < 2 ^ 62 →
  ∃ q' m' f' old new, PopStreamFrames cp maxLen q m f = Ok (q', m', f', old ++ new) ∧
    totalLen (old ++ new) <= maxLen ∧ Forall well_framed (old ++ new) ∧
    allPieces old ++ allPieces (retransmissionQueue q') = allPieces (retransmissionQueue q) ∧
    framer_ok q' m'.
Proof.
  intros Hq Hb. destruct (PopStreamFrames_spec maxLen q m f Hq Hb) as (q' & m' & f' & old & new & ? & ? & ? & ? & ? & _).
  by exists q', m', f', old, new.
Qed.

(** The framer obeys flow control. When nothing was sent beyond the windows that the
    peer granted to the streams and to the connection, the same holds behind a call of
    PopStreamFrames: new data is only taken within both windows and is counted
    exactly, data that is sent again is not counted. Every BLOCKED frame that the call
    queues names the connection or a stream whose window is used up. *)
Theorem framer_obeys_windows maxLen q m f q' m' f' fs : framer_ok q m → 0 <= maxLen < 2 ^ 62 → within f →
  PopStreamFrames cp maxLen q m f = Ok (q', m', f', fs) →
  within f' ∧
  (∃ old new, fs = old ++ new ∧ (∀ id, sentOn id f' = (λ n, n + bytesOf id new) <$> sentOn id f) ∧
     allPieces old ++ allPieces (retransmissionQueue q') = allPieces (retransmissionQueue q)) ∧
  ∃ bl, blockedFrameQueue q' = blockedFrameQueue q ++ bl ∧ Forall (exhausted f') bl.
Proof.
  intros Hq Hb Hf E. destruct (PopStreamFrames_spec maxLen q m f Hq Hb) as (? & ? & ? & old & new & E' & _ & _ & Ep & _ & Hc).
  rewrite E in E'. injection E' as <- <- <- ->. destruct (Hc Hf) as [? ? ?]. split; [done|]. split; [|done]. by exists old, new.
Qed.

(** *** Properties of all frames *)

(** A property [Q] of frames, which splitting keeps, and a property [R] of streams that
    gives it for the frames made from them. *)
Section all_frames.
Context (Q : StreamFrame → Prop) (R : stream → Prop).
Hypothesis HQ_flag : ∀ fr b, Q fr → Q (set_DataLenPresent b fr).
Hypothesis HQ_split : ∀ fr n a b, Q fr → 0 < n → maybeSplitOffFrame fr n = Some (a, b) → Q a ∧ Q b.

Lemma retransmission_forall maxLen cur queue f queue' f' fs cur' : Forall frame_small queue → 0 <= cur <= maxLen → maxLen < 2 ^ 62 →
  Forall Q queue → retransmissionLoop maxLen cur queue f = (queue', f', fs, cur') → Forall Q queue' ∧ Forall Q fs.
Proof.
  revert cur f queue' f' fs cur'. induction queue as [|fr queue IH]; intros cur f queue' f' fs cur' Hs Hc Hb Hq; cbn [retransmissionLoop];
    [by intros [= <- <- <- <-]|].
  apply Forall_cons in Hs as [[Ho Hs1] Hs], Hq as [Hq1 Hq]. set (fr1 := set_DataLenPresent true fr).
  assert (Q fr1) as Hq2 by by apply HQ_flag.
  pose proof (headerLen_bounds fr1) as Hh. pose proof (len_nonneg (Data fr1)) as Hl. change (Data fr) with (Data fr1) in Hs1.
  change (Offset fr) with (Offset fr1) in Ho, Hs1. rewrite (u64_id (cur + headerLen fr1)) by (unfold is_u64; lia).
  destruct (Z.leb_spec maxLen (cur + headerLen fr1)); [intros [= <- <- <- <-]; split; [by constructor|constructor]|].
  rewrite (u64_id (maxLen - _)) by (unfold is_u64; lia).
  destruct (maybeSplitOffFrame fr1 _) as [[a b]|] eqn:E.
  - intros [= <- <- <- <-]. destruct (HQ_split fr1 (maxLen - (cur + headerLen fr1)) a b Hq2 ltac:(lia) E). split; by constructor.
  - unfold maybeSplitOffFrame in E. assert (DataLen fr1 = len (Data fr1)) as EDl by (unfold DataLen; apply u64_id; unfold is_u64; lia).
    rewrite EDl in *. destruct (Z.leb_spec (len (Data fr1)) (maxLen - (cur + headerLen fr1))); [|done].
    rewrite (u64_id (_ + len _)) by (unfold is_u64; lia).
    destruct (retransmissionLoop maxLen _ queue _) as [[[queue2 f2] fs2] cur2] eqn:El. intros [= <- <- <- <-].
    destruct (IH (cur + headerLen fr1 + len (Data fr1)) _ _ _ _ _ Hs ltac:(lia) Hb Hq El) as [? ?]. split; [done|by constructor].
Qed.

Hypothesis HR : ∀ s s' data, R s → took s s' data → Q (popped s s' data) ∧ R (finned s').

Lemma PopStreamFrames_forall maxLen q m f q' m' f' fs : framer_ok q m → 0 <= maxLen < 2 ^ 62 →
  Forall Q (retransmissionQueue q) → map_Forall (λ _ s, R s) (streamsMap.streams m) → PopStreamFrames cp maxLen q m f = Ok (q', m', f', fs) →
  Forall Q fs ∧ Forall Q (retransmissionQueue q') ∧ map_Forall (λ _ s, R s) (streamsMap.streams m').
Proof.
  intros [Hi Ho Hsm Hq Hm] Hb HQ HRm. unfold PopStreamFrames, maybePopFramesForRetransmission, maybePopNormalFrames.
  destruct (retransmissionLoop maxLen 0 (retransmissionQueue q) f) as [[[queue f1] old] cur] eqn:E.
  destruct (retransmission_spec maxLen 0 _ _ _ _ _ _ Hq Hm ltac:(lia) ltac:(lia) E) as (_ & Ec & Hle & _).
  destruct (retransmission_forall maxLen 0 _ _ _ _ _ _ Hq ltac:(lia) ltac:(lia) HQ E) as [Hqueue Hold].
  pose proof (totalLen_nonneg old). rewrite (u64_id (maxLen - cur)) by (unfold is_u64; lia). set (q1 := set_retransmissionQueue queue q).
  destruct (RoundRobin_invariant (popFrame cp (maxLen - cur)) (λ m p, filling (maxLen - cur) f1 (blockedFrameQueue q1) m p ∧
    map_Forall (λ _ s, R s) (streamsMap.streams m) ∧ Forall Q (res p)) (gentle_popFrame (maxLen - cur)))
    with (m := m) (x := MkPop f1 (blockedFrameQueue q1) [] 0) as (m1 & p1 & e & -> & _ & _ & _ & Hs1 & Hr1).
  - intros s m1 p m2 p' r H1 Es (Hf & HR1 & Hr) Ec'. split; [by eapply filling_call; [lia|..]|]. pose proof Hf as [El Hle' Hsm1 _ _].
    pose proof (totalLen_nonneg (res p)). pose proof (Hsm1 _ _ Es) as Hs1. cbn in Hs1.
    destruct (popFrame_cases (maxLen - cur) s m1 p m2 p' r Es Hs1 ltac:(lia) ltac:(lia) Ec') as [(-> & -> & _)|(s' & data & w & _ & Ht & _ & _ & _ & -> & ->)]; [done|].
    destruct (HR s s' data (HR1 _ _ Es) Ht) as [HQ1 HR2]. split; [by apply map_Forall_insert_2|]. cbn. apply Forall_app. split; [done|by constructor].
  - intros v m1 x (Hf & ? & ?). split; [destruct Hf; by constructor|done].
  - done.
  - done.
  - split; [constructor; try done; [cbn; lia|apply charged_start]|done].
  - cbn. intros [= <- <- <- <-]. split; [by apply Forall_app|done].
Qed.

End all_frames.

(** *** Nothing is held back *)

Section work.
Context (maxBytes : Z) (f0 : flowControlManager) (bl0 : list BlockedFrame.BlockedFrame).
Hypothesis Hmax : 16 <= maxBytes < 2 ^ 62.

Lemma nonempty_call s m p m' p' r : sm_inv m → streamsMap.streams m !! stream.streamID s = Some s →
  filling maxBytes f0 bl0 m p ∧ res p ≠ [] → popFrame cp maxBytes s (m, p) = ((m', p'), r) → filling maxBytes f0 bl0 m' p' ∧ res p' ≠ [].
Proof.
  intros H Hm [Hf Hr] E. split; [by eapply filling_call; [apply Hmax|..]|]. pose proof Hf as [El Hle Hs _ _].
  pose proof (totalLen_nonneg (res p)). pose proof (Hs _ _ Hm) as Hsm. cbn in Hsm.
  destruct (popFrame_cases maxBytes s m p m' p' r Hm Hsm ltac:(lia) ltac:(lia) E) as [(-> & -> & _)|(s' & data & w & _ & _ & _ & _ & _ & _ & ->)]; [done|].
  cbn. by destruct (res p).
Qed.

(** On an empty packet, a call makes a frame or the stream has nothing to send. *)
Lemma empty_call id m p m' p' cont e : sm_inv m → filling maxBytes f0 bl0 m p → res p = [] →
  streamsMap.iterateFunc (popFrame cp maxBytes) id (m, p) = ((m', p'), (cont, e)) →
  (filling maxBytes f0 bl0 m' p' ∧ res p' ≠ []) ∨
  m' = m ∧ p' = p ∧ cont = true ∧ ∀ s, streamsMap.streams m !! id = Some s → id ≠ 1 → ~ sendable (flow p) s.
Proof.
  intros H Hf Hr. unfold streamsMap.iterateFunc. cbn [fst]. destruct (streamsMap.streams m !! id) as [s|] eqn:Es.
  2:{ intros [= <- <- <- <-]. right. split; [done|]. split; [done|]. split; [done|]. intros s ?. done. }
  pose proof (sm_ids m H id s Es) as Hid. intros E. pose proof Hf as [El Hle Hs _ _]. rewrite Hr in El. cbn in El.
  pose proof (Hs _ _ Es) as Hsm. cbn in Hsm. rewrite <- Hid in Es.
  pose proof (headerLen_bounds (MkStreamFrame (stream.streamID s) false true (stream.writeOffset s) [])) as Hh. fold (header s) in Hh.
  destruct (popFrame_cases maxBytes s m p m' p' _ Es Hsm ltac:(lia) ltac:(lia) E) as [(-> & -> & Hp)|(s' & data & w & _ & _ & _ & _ & _ & _ & Ep)].
  - right. destruct Hp as [[? [= -> ->]]|[?|[Hns [= -> ->]]]]; [| lia|]; (split; [done|]; split; [done|]; split; [done|]; intros s1 [= <-] ?); [congruence|done].
  - left. split; [by eapply filling_call; [apply Hmax|..]|]. rewrite Ep. cbn. by destruct (res p).
Qed.

Lemma filling_index v m p : filling maxBytes f0 bl0 m p → filling maxBytes f0 bl0 (streamsMap.set_roundRobinIndex v m) p.
Proof. intros [? ? ? ? ?]. by constructor. Qed.

Lemma visit_idle n ids m p m' p' e : sm_inv m → n = len (streamsMap.openStreams m) → 0 < n →
  filling maxBytes f0 bl0 m p → res p = [] → visit (popFrame cp maxBytes) n ids (m, p) = ((m', p'), e) → res p' = [] →
  (∀ id, id ∈ ids → is_Some (streamsMap.streams m !! id)) →
  ∀ id s, id ∈ ids → id ≠ 1 → id ≠ 3 → streamsMap.streams m !! id = Some s → ~ sendable (flow p) s.
Proof.
  revert m. induction ids as [|id ids IH]; intros m H En Hn Hf Hr; cbn [visit]; [by intros _ _ _ ? ? ?%elem_of_nil|].
  case_decide as Hid.
  { intros E Hr' Hd id0 s [->|?]%elem_of_cons ? ?; [tauto|]. eapply IH; try done. intros id1 ?. apply Hd. by right. }
  destruct (streamsMap.iterateFunc (popFrame cp maxBytes) id (m, p)) as [[m1 p1] [cont e1]] eqn:Ei. intros E Hr' Hd.
  destruct (iterateFunc_keeps _ (gentle_popFrame maxBytes) _ _ _ _ _ _ _ H Ei) as (Hk & Hi & He).
  assert (e1 = None) as -> by (destruct He as [[_ ?]|[Hno _]]; [done|]; destruct (Hd id ltac:(by left)); congruence).
  set (m2 := streamsMap.set_roundRobinIndex ((streamsMap.roundRobinIndex m1 + 1) `mod` n) m1) in *. cbn [fst snd] in E. fold m2 in E.
  assert (sm_inv m2) as H2 by (apply advance_inv; [by apply (keeps_index_inv m)|by rewrite (ke_open _ _ Hk)|done]).
  destruct (empty_call id m p m1 p1 cont None H Hf Hr Ei) as [[Hf1 Hne]|(-> & -> & -> & Hidle)].
  - exfalso. destruct cont; [|by injection E as <- <- <-].
    eapply (visit_invariant (popFrame cp maxBytes) (λ m p, filling maxBytes f0 bl0 m p ∧ res p ≠ []) (gentle_popFrame maxBytes)) in E as (_ & _ & _ & ?).
    + done.
    + intros. by eapply nonempty_call.
    + intros v m3 p3 [? ?]. split; [by apply filling_index|done].
    + done.
    + cbn. by rewrite (ke_open _ _ Hk).
    + by right.
    + split; [by apply filling_index|done].
  - intros id0 s [->|Hin]%elem_of_cons H1 H3 Es; [by apply Hidle|].
    refine (IH m2 H2 En Hn _ Hr E Hr' _ id0 s Hin H1 H3 Es); [by apply filling_index|]. intros id1 ?. apply Hd. by right.
Qed.

Lemma priority_idle ids m p m' p' stop : sm_inv m → filling maxBytes f0 bl0 m p → res p = [] →
  streamsMap.priorityLoop (popFrame cp maxBytes) ids (m, p) = ((m', p'), stop) →
  filling maxBytes f0 bl0 m' p' ∧ res p' ≠ [] ∨
  stop = None ∧ m' = m ∧ p' = p ∧ ∀ id s, id ∈ ids → id ≠ 1 → streamsMap.streams m !! id = Some s → ~ sendable (flow p) s.
Proof.
  intros H Hf Hr. induction ids as [|id ids IH]; cbn [streamsMap.priorityLoop].
  { intros [= <- <- <-]. right. split; [done|]. split; [done|]. split; [done|]. by intros id s ?%elem_of_nil. }
  destruct (streamsMap.iterateFunc (popFrame cp maxBytes) id (m, p)) as [[m1 p1] [cont e1]] eqn:Ei.
  destruct (iterateFunc_keeps _ (gentle_popFrame maxBytes) _ _ _ _ _ _ _ H Ei) as (Hk & Hi & He).
  rewrite bool_decide_eq_false_2 by (destruct He as [[_ ->]|(_ & -> & _)]; tauto).
  destruct (empty_call id m p m1 p1 cont e1 H Hf Hr Ei) as [Hne|(-> & -> & -> & Hidle)].
  - destruct cont; [|intros [= <- <- <-]; by left]. intros E. left.
    refine (priorityLoop_invariant (popFrame cp maxBytes) (λ m p, filling maxBytes f0 bl0 m p ∧ res p ≠ []) (gentle_popFrame maxBytes) _ _ _ _ _ _ _ _ Hne E).
    + intros. by eapply nonempty_call.
    + by apply (keeps_index_inv m).
  - intros E. destruct (IH E) as [?|(-> & -> & -> & Hids)]; [by left|right]. split; [done|]. split; [done|]. split; [done|].
    intros id0 s [->|?]%elem_of_cons ? ?; [by apply Hidle|by eapply Hids].
Qed.

End work.

Lemma elem_of_rotate (x : Z) n l : x ∈ rotate n l ↔ x ∈ l.
Proof. unfold rotate. rewrite elem_of_app, Logic.or_comm, <- elem_of_app, take_drop. done. Qed.

Lemma retransmission_nonempty maxLen queue f queue' f' cur : 16 <= maxLen < 2 ^ 62 →
  retransmissionLoop maxLen 0 queue f = (queue', f', [], cur) → queue = [] ∧ queue' = [] ∧ f' = f ∧ cur = 0.
Proof.
  intros Hb. destruct queue as [|fr queue]; cbn [retransmissionLoop]; [by intros [= <- <- <-]|].
  pose proof (headerLen_bounds (set_DataLenPresent true fr)). rewrite (u64_id (0 + _)) by (unfold is_u64; lia).
  destruct (Z.leb_spec maxLen (0 + headerLen (set_DataLenPresent true fr))); [lia|].
  destruct (maybeSplitOffFrame _ _) as [[a b]|]; [done|]. by destruct (retransmissionLoop _ _ queue _) as [[[? ?] ?] ?].
Qed.

(** C40: the framer holds nothing back. When there is room for a frame and PopStreamFrames
    returns none, then no lost frame is queued, and no stream but the crypto stream has data
    and a window to send it, or a FIN bit to send. *)
Theorem nothing_held_back maxLen q m f q' m' f' : framer_ok q m → 16 <= maxLen < 2 ^ 62 →
  PopStreamFrames cp maxLen q m f = Ok (q', m', f', []) →
  retransmissionQueue q = [] ∧ ∀ id s, streamsMap.streams m !! id = Some s → id ≠ 1 → ~ sendable f s.
Proof.
  intros [Hi Ho Hs _ _] Hb. unfold PopStreamFrames, maybePopFramesForRetransmission, maybePopNormalFrames.
  destruct (retransmissionLoop maxLen 0 (retransmissionQueue q) f) as [[[queue f1] old] cur] eqn:E. cbv beta iota.
  destruct (streamsMap.RoundRobinIterate _ _) as [[[m1 p1] e]| |] eqn:Er; [|done|done]. cbn [mbind outcome_bind]. intros [= <- <- <- [-> Hr]%app_nil].
  destruct (retransmission_nonempty _ _ _ _ _ _ Hb E) as (Eq & -> & -> & ->). split; [done|].
  rewrite Z.sub_0_r, u64_id in Er by (unfold is_u64; lia). change (blockedFrameQueue (set_retransmissionQueue [] q)) with (blockedFrameQueue q) in Er.
  rewrite (RoundRobin_rotation _ (gentle_popFrame maxLen) m _ Hi Ho) in Er. set (p0 := MkPop f (blockedFrameQueue q) [] 0) in *.
  assert (filling maxLen f (blockedFrameQueue q) m p0) as Hf0 by (constructor; try done; [cbn; lia|apply charged_start]).
  destruct (streamsMap.priorityLoop (popFrame cp maxLen) [1; 3] (m, p0)) as [[m2 p2] stop] eqn:Ep.
  destruct (priority_idle _ _ _ Hb _ _ _ _ _ _ Hi Hf0 eq_refl Ep) as [[Hf2 Hne]|(-> & -> & -> & Hprio)].
  - exfalso. destruct (priorityLoop_keeps _ (gentle_popFrame maxLen) _ _ _ _ _ _ Hi Ep) as (Hk & Hri & _).
    destruct stop as [e'|]; [by injection Er as <- <- <-|]. injection Er as Er.
    eapply (visit_invariant (popFrame cp maxLen) (λ m p, filling maxLen f (blockedFrameQueue q) m p ∧ res p ≠ []) (gentle_popFrame maxLen)) in Er as (_ & _ & _ & ?).
    + done.
    + intros. by eapply nonempty_call.
    + intros v m3 p3 [? ?]. split; [by apply filling_index|done].
    + by apply (keeps_index_inv m).
    + by rewrite (ke_open _ _ Hk).
    + pose proof (len_nonneg (streamsMap.openStreams m)). destruct (Z.eq_dec (len (streamsMap.openStreams m)) 0) as [E0%len_zero|]; [left|right; lia].
      unfold rotate. by rewrite E0, drop_nil, take_nil.
    + done.
  - intros id s Es Hid. destruct (decide (id = 3)) as [->|H3]; [by apply (Hprio 3 s); [set_solver|..]|]. injection Er as Er.
    assert (id ∈ streamsMap.openStreams m) as Hin by (apply (sm_dom m Hi); eauto).
    refine (visit_idle maxLen f (blockedFrameQueue q) Hb _ _ m p0 m1 p1 e Hi eq_refl _ Hf0 eq_refl Er Hr _ id s _ Hid H3 Es).
    + destruct (streamsMap.openStreams m); [by apply elem_of_nil in Hin|]. rewrite len_cons. pose proof (len_nonneg l). lia.
    + intros id' ?%elem_of_rotate. by apply (sm_dom m Hi).
    + by apply elem_of_rotate.
Qed.

End framing.

(** ** Examples *)
Module FramerExamples.
Import protocol StreamFrame streamFramer.
Import FlowExamples (cp).
Import StreamsMapExamples (server, lim, f0, inv_server).

(** A server whose client has opened the streams 1 to 7, four bytes wait on the stream 5. *)
Definition flow1 := (streamsMap.GetOrOpenStream cp lim 7 (streamsMap.newStreamsMap PerspectiveServer) f0).1.2.
Definition s5 : stream.stream := (stream.Close (stream.Write [1; 2; 3; 4] 1000 (stream.newStream 5)).1.1).1.
Definition map1 := session_streams.setStream s5 server.

(** A property of every entry of a concrete map. *)
Ltac every_entry :=
  apply map_Forall_to_list;
  match goal with |- Forall _ ?l =>
    let l' := eval vm_compute in l in replace l with l' by (by vm_compute)
  end;
  repeat (apply List.Forall_cons; [cbn [uncurry fst snd]|]); [..|apply List.Forall_nil].

Lemma small_server : streams_small server.
Proof. every_entry; split; by vm_compute. Qed.

Lemma ok_server q : Forall frame_small (retransmissionQueue q) → Forall meaningful (retransmissionQueue q) → framer_ok q server.
Proof. intros H1 H2. constructor; [apply inv_server|by vm_compute|apply small_server|done|done]. Qed.

Lemma within_flow1 : within cp flow1.
Proof. constructor; [|split; [split|]; by vm_compute]. every_entry; (split; [split|]; by vm_compute). Qed.

Definition lost : StreamFrame := MkStreamFrame 7 true false 10 [20; 21; 22; 23; 24; 25].
Definition framer1 : streamFramer := AddFrameForRetransmission lost newStreamFramer.

Lemma ok1 : framer_ok framer1 map1.
Proof.
  eapply setStream_ok; [|by vm_compute|split; by vm_compute].
  apply ok_server; (constructor; [|constructor]); [split; by vm_compute|by left].
Qed.

(** A lost frame of six bytes is split to fit into nine bytes, and then nothing is left. *)
Lemma popped_frames_fit_witness : ∃ q' m' f' old new,
  PopStreamFrames cp 9 framer1 map1 flow1 = Ok (q', m', f', old ++ new) ∧ totalLen (old ++ new) <= 9.
Proof.
  destruct (popped_frames_fit cp 9 framer1 map1 flow1 ok1 ltac:(lia)) as (q' & m' & f' & old & new & E & H & _).
  by exists q', m', f', old, new.
Defined.

Definition popped1 := PopStreamFrames cp 1000 framer1 map1 flow1.

Lemma framer_obeys_windows_witness : ∃ q' m' f' fs, popped1 = Ok (q', m', f', fs) ∧ len fs = 2 ∧ within cp f'.
Proof.
  destruct popped1 as [[[[q' m'] f'] fs]| |] eqn:E; [|by vm_compute in E|by vm_compute in E]. exists q', m', f', fs. split; [done|].
  split; [|apply (framer_obeys_windows cp 1000 framer1 map1 flow1 q' m' f' fs ok1 ltac:(lia) within_flow1 E)].
  vm_compute in E. by injection E as <- <- <- <-.
Defined.

(** All data and the FIN bit have been sent. *)
Definition s5' : stream.stream := stream.sentFin (stream.getDataForWriting 4 s5).1.
Definition map2 := session_streams.setStream s5' server.

Lemma nothing_held_back_witness : ~ sendable cp flow1 s5'.
Proof.
  assert (framer_ok newStreamFramer map2) as Hok.
  { eapply setStream_ok; [by apply ok_server; constructor|by vm_compute|split; by vm_compute]. }
  destruct (PopStreamFrames cp 100 newStreamFramer map2 flow1) as [[[[q' m'] f'] fs]| |] eqn:E; [|by vm_compute in E|by vm_compute in E].
  assert (fs = []) as -> by (vm_compute in E; by injection E as <- <- <- <-).
  apply (nothing_held_back cp 100 newStreamFramer map2 flow1 q' m' f' Hok ltac:(lia) E) with (id := 5); [by vm_compute|done].
Defined.

End FramerExamples.
