(* ===== verification/Transfer.v ===== *)
(** * A stream from one end to the other

    The parts of the sender (Write in stream.go, the streams map, the framer) and of the
    receiver (the frame sorter and Read) put together: bytes that are written to a
    stream are framed, the frames are lost, delayed, repeated and reordered by the network,
    are sent again, whole or split, and are read at the other end. *)

From S2P Require Import Prelude Protocol ByteOrder AckFrames Frames GoFloat FlowControl FrameSorter Stream StreamsMap StreamFramer.

Section transfer.
Import protocol StreamFrame streamFramer.
Import stream (stream).
Import streamsMap (streamsMap).
Import session_streams (setStream).
Import flowControlManager (flowControlManager).

(** The stream, and the parameters of the sender. *)
Context (cp : ConnectionParameters) (id : Z).

(** ** Runs *)

(** The sender: its framer, its streams, its flow control, what has been given to Write on the stream
    [id] and was not replaced before it was sent, and every stream frame that it ever put into
    a packet. *)
Record sender := MkSender {
  se_framer : streamFramer;
  se_map : streamsMap;
  se_flow : flowControlManager;
  se_written : list Z;
  se_net : list StreamFrame;
}.

(** Operations that leave the sending half of a stream alone. *)
Record leaves_sending (s s' : stream) : Prop := {
  ls_id : stream.streamID s' = stream.streamID s;
  ls_data : stream.dataForWriting s' = stream.dataForWriting s;
  ls_offset : stream.writeOffset s' = stream.writeOffset s;
  ls_finished : stream.finishedWriting s = true → stream.finishedWriting s' = true;
}.

(** A write begins at any time. When the one before it has hit its deadline and has left
    data, the new data replaces the rest that was not taken yet. A lost frame is queued again; the packer may have removed its length field. Everything else that
    happens to the stream leaves its sending half alone; other streams and the windows
    of flow control change in any way, and the stream may be removed from the map. *)
Inductive send_step : sender → sender → Prop :=
  | st_write q m f wr net s p now s' w cbs : streamsMap.streams m !! id = Some s →
      stream.Write p now s = (s', w, cbs) → framer_ok q (setStream s' m) →
      send_step (MkSender q m f wr net) (MkSender q (setStream s' m) f
        (take (Z.to_nat (stream.writeOffset s)) wr ++ default [] (stream.dataForWriting s')) net)
  | st_other q m f wr net s s' : streamsMap.streams m !! id = Some s → leaves_sending s s' → framer_ok q (setStream s' m) →
      send_step (MkSender q m f wr net) (MkSender q (setStream s' m) f wr net)
  | st_map q m f wr net m' f' : framer_ok q m' →
      (streamsMap.streams m' !! id = streamsMap.streams m !! id ∨ streamsMap.streams m' !! id = None) →
      send_step (MkSender q m f wr net) (MkSender q m' f' wr net)
  | st_pop q m f wr net maxLen q' m' f' fs : 0 <= maxLen < 2 ^ 62 → PopStreamFrames cp maxLen q m f = Ok (q', m', f', fs) →
      send_step (MkSender q m f wr net) (MkSender q' m' f' wr (fs ++ net))
  | st_lost q m f wr net fr b : fr ∈ net →
      send_step (MkSender q m f wr net) (MkSender (AddFrameForRetransmission (set_DataLenPresent b fr) q) m f wr net).

(** The receiver: the stream, the flow control, whether the stream was reset or cancelled
    without an error, the size of the buffer of the current
    call of Read, where it is, the frames that have arrived, and what earlier calls
    returned. *)
Record receiver := MkReceiver {
  re_stream : stream;
  re_flow : flowControlManager;
  re_silent : bool;
  re_buffer : Z;
  re_reader : stream.reader;
  re_frames : list StreamFrame;
  re_data : list Z;
}.

Inductive receive_step (net : list StreamFrame) : receiver → receiver → Prop :=
  | rt_call s f q n n' acc e fs d : 0 <= n' →
      receive_step net (MkReceiver s f q n (stream.RDone acc e) fs d) (MkReceiver s f q n' stream.RStart fs (d ++ acc))
  | rt_step s f q n r fs d now timer s' f' r' cbs : stream.readStep n now timer s f r = Some (s', f', r', cbs) →
      receive_step net (MkReceiver s f q n r fs d) (MkReceiver s' f' q n r' fs d)
  | rt_frame s f q n r fs d fr b s' f' : fr ∈ net → StreamID fr = id →
      stream.AddStreamFrame (set_DataLenPresent b fr) s f = Ok (s', f', None) →
      receive_step net (MkReceiver s f q n r fs d) (MkReceiver s' f' q n r (set_DataLenPresent b fr :: fs) d)
  | rt_other s f q n r fs d now s' : other now s s' →
      receive_step net (MkReceiver s f q n r fs d) (MkReceiver s' f (q || silent s') n r fs d)
  | rt_flow s f q n r fs d f' : counted (stream.streamID s) f' = counted (stream.streamID s) f →
      receive_step net (MkReceiver s f q n r fs d) (MkReceiver s f' q n r fs d).

(** Both ends, from the moment when the sender has opened the stream. *)
Inductive run : sender → receiver → Prop :=
  | run_open q m f s net rf : framer_ok q m → streamsMap.streams m !! id = Some s →
      stream.writeOffset s = 0 → stream.dataForWriting s = None →
      Forall (λ fr, StreamID fr ≠ id) (retransmissionQueue q) → Forall (λ fr, StreamID fr ≠ id ∧ well_framed fr) net →
      counted id rf = Some 0 →
      run (MkSender q m f [] net) (MkReceiver (stream.newStream id) rf false 0 (stream.RDone [] None) [] [])
  | run_send se re se' : run se re → send_step se se' → run se' re
  | run_receive se re re' : run se re → receive_step (se_net se) re re' → run se re'.

(** The operations of a stream other than Write and the framer's leave its sending half
    alone. *)
Lemma control_leaves s s' : control s s' → leaves_sending s s'.
Proof.
  intros [| |t|t|e|e|e].
  - by constructor.
  - by constructor.
  - unfold stream.SetReadDeadline. case_match; by constructor.
  - unfold stream.SetWriteDeadline. case_match; by constructor.
  - unfold stream.Cancel. case_match; by constructor.
  - unfold stream.Reset, stream.maybeSendReset. destruct (stream.resetLocally s); [by constructor|]. repeat case_match; by constructor.
  - unfold stream.RegisterRemoteError, stream.maybeSendReset. destruct (stream.resetRemotely s); [by constructor|]. repeat case_match; by constructor.
Qed.

Lemma wake_leaves n now timer s w s' w' : stream.writeWake n now timer s w = Some (s', w') → leaves_sending s s'.
Proof. unfold stream.writeWake. repeat case_match; intros; simplify_eq; by constructor. Qed.

Lemma arrival_leaves fr s f s' f' e : stream.AddStreamFrame fr s f = Ok (s', f', e) → leaves_sending s s'.
Proof.
  unfold stream.AddStreamFrame. destruct (flowControlManager.UpdateHighestReceived _ _ f) as [f1 [e1|]]; [intros [= <- <- <-]; by constructor|].
  destruct (streamFrameSorter.Push _ fr) as [[q e1]| |]; [|done|done]. cbn. case_bool_decide; intros [= <- <- <-]; by constructor.
Qed.

Lemma await_leaves acc now s s' r : stream.awaitFrame acc now s = (s', r) → leaves_sending s s'.
Proof. unfold stream.awaitFrame. repeat case_match; intros; simplify_eq; by constructor. Qed.

Lemma read_leaves n now timer s f r s' f' r' cbs : stream.readStep n now timer s f r = Some (s', f', r', cbs) → leaves_sending s s'.
Proof.
  assert (∀ b s1, leaves_sending (stream.set_readChan b s) s1 → leaves_sending s s1) as Hb by (intros b s1 [? ? ? ?]; by constructor).
  destruct r; cbn [stream.readStep]; [intros [= <- <- <- <-]; by constructor| | | |..|done|done].
  - repeat case_match; intros [= <- <- <- <-]; by constructor.
  - destruct (stream.awaitFrame acc now s) as [s1 r1] eqn:E. apply await_leaves in E.
    destruct (_ <? _); [|intros [= <- <- <- <-]; by constructor]. repeat case_match; intros [= <- <- <- <-]; done || by constructor.
  - destruct (stream.awaitFrame [] now s) as [s1 r1] eqn:E. apply await_leaves in E.
    destruct (stream.awaitFrame [] now (stream.set_readChan false s)) as [s2 r2] eqn:E2. apply await_leaves, Hb in E2.
    repeat case_match; intros; simplify_eq; done.
  - unfold stream.copyFrame. repeat case_match; intros [= <- <- <- <-]; by constructor.
  - case_match; intros [= <- <- <- <-]; by constructor.
Qed.

(** ** Frames that say what was written *)

Definition ended (fs : list StreamFrame) : Prop := ∃ fr, fr ∈ fs ∧ StreamID fr = id ∧ FinBit fr = true.

(** The data of the frame is at its place in [wr]; the FIN bit, which has been sent
    ([fin]), is at the end. *)
Record genuine (wr : list Z) (fin : Prop) (fr : StreamFrame) : Prop := {
  ge_offset : 0 <= Offset fr;
  ge_data : Data fr `prefix_of` drop (Z.to_nat (Offset fr)) wr;
  ge_end : Offset fr + len (Data fr) <= len wr;
  ge_fin : FinBit fr = true → fin ∧ Offset fr + len (Data fr) = len wr;
  ge_meaningful : meaningful fr;
}.

Definition mine (wr : list Z) (fin : Prop) (fr : StreamFrame) : Prop := StreamID fr = id → genuine wr fin fr.

Lemma prefix_drop n (l k : list Z) : l `prefix_of` k → drop n l `prefix_of` drop n k.
Proof. intros [x ->]. destruct (decide (n ≤ length l)%nat).
  - rewrite drop_app_le by done. by eexists.
  - rewrite drop_ge by lia. apply prefix_nil.
Qed.

Lemma genuine_mono wr wr' (fin fin' : Prop) fr : wr `prefix_of` wr' → (fin → wr' = wr) → (fin → fin') →
  genuine wr fin fr → genuine wr' fin' fr.
Proof.
  intros Hp He Hf [Ho Hd Hl Hfin Hm]. constructor; try done.
  - etrans; [exact Hd|]. by apply prefix_drop.
  - apply prefix_length in Hp. unfold len in *. lia.
  - intros E. destruct (Hfin E) as [? ?]. rewrite He by done. auto.
Qed.

Lemma mine_mono wr (fin fin' : Prop) fs : (fin → fin') → Forall (mine wr fin) fs → Forall (mine wr fin') fs.
Proof. intros Hf H. eapply Forall_impl; [exact H|]. intros fr Hm E. by refine (genuine_mono wr wr fin fin' fr _ _ Hf (Hm E)). Qed.

Lemma genuine_legit wr fin L fr : genuine wr fin fr → wr `prefix_of` L → (fin → L = wr) →
  legit (λ i, default 0 (L !! Z.to_nat i)) (len L) fr.
Proof.
  intros [Ho Hd Hl Hfin Hm] Hp He. pose proof (prefix_length _ _ Hp) as Hlen. unfold legit. split; [done|]. split; [unfold len in *; lia|].
  split; [|split].
  - intros i Hi. destruct (lookup_lt_is_Some_2 (Data fr) (Z.to_nat i)) as [x Ex]; [unfold len in Hi; lia|]. rewrite Ex. f_equal.
    assert (L !! (Z.to_nat (Offset fr) + Z.to_nat i)%nat = Some x) as El.
    { rewrite <- lookup_drop. eapply prefix_lookup_Some; [exact Ex|]. etrans; [exact Hd|]. by apply prefix_drop. }
    replace (Z.to_nat (Offset fr + i)) with (Z.to_nat (Offset fr) + Z.to_nat i)%nat by lia. by rewrite El.
  - intros E. destruct (Hfin E) as [? Ee]. by rewrite He.
  - intros E. by destruct Hm.
Qed.

Lemma genuine_split wr fin fr n a b : genuine wr fin fr → len wr < 2 ^ 62 → 0 < n → maybeSplitOffFrame fr n = Some (a, b) →
  genuine wr fin a ∧ genuine wr fin b.
Proof.
  intros [Ho Hd Hl Hfin Hm] Hw Hn. unfold maybeSplitOffFrame, DataLen. pose proof (len_nonneg (Data fr)).
  rewrite (u64_id (len _)) by (unfold is_u64; lia). destruct (Z.leb_spec (len (Data fr)) n) as [|Hlt]; [done|]. intros [= <- <-].
  assert (len (take (Z.to_nat n) (Data fr)) = n) as El by (rewrite len_take; lia).
  assert (len (drop (Z.to_nat n) (Data fr)) = len (Data fr) - n) as El' by (rewrite len_drop; lia).
  assert (u64 (Offset fr + n) = Offset fr + n) as Eo by (apply u64_id; unfold is_u64; lia).
  split; constructor; cbn [Offset Data FinBit]; rewrite ?Eo, ?El, ?El'; try done; try lia.
  - etrans; [|exact Hd]. apply prefix_take.
  - left. cbn. intros E. rewrite E in El. unfold len in El. cbn in El. lia.
  - replace (Z.to_nat (Offset fr + n)) with (Z.to_nat (Offset fr) + Z.to_nat n)%nat by lia. rewrite <- drop_drop. by apply prefix_drop.
  - intros E. destruct (Hfin E). split; [done|lia].
  - left. cbn. intros E. rewrite E in El'. unfold len in El' at 1. cbn in El'. lia.
Qed.

Lemma mine_flag wr fin fr b : mine wr fin fr → mine wr fin (set_DataLenPresent b fr).
Proof. intros Hm E. destruct (Hm E). by constructor. Qed.

Lemma mine_split wr fin : len wr < 2 ^ 62 → ∀ fr n a b, mine wr fin fr → 0 < n → maybeSplitOffFrame fr n = Some (a, b) →
  mine wr fin a ∧ mine wr fin b.
Proof.
  intros Hw fr n a b Hm Hn E. assert (StreamID a = StreamID fr ∧ StreamID b = StreamID fr) as [Ea Eb].
  { unfold maybeSplitOffFrame in E. case_match; [done|]. by injection E as <- <-. }
  split; intros Eid; eapply genuine_split in E as [? ?]; try done; apply Hm; congruence.
Qed.

(** ** The sender *)

(** [tk] are the bytes of the stream that have been taken from it; the rest waits in it. *)
Record stream_sends (tk wr : list Z) (fin : Prop) (s : stream) : Prop := {
  ss_offset : stream.writeOffset s = len tk;
  ss_waiting : wr = tk ++ default [] (stream.dataForWriting s);
  ss_fin : fin → stream.finishedWriting s = true ∧ stream.dataForWriting s = None;
}.

Record sending (tk wr : list Z) (fin : Prop) (m : streamsMap) : Prop := {
  sg_prefix : tk `prefix_of` wr;
  sg_fin : fin → tk = wr;
  sg_stream s : streamsMap.streams m !! id = Some s → stream_sends tk wr fin s;
}.

Lemma sending_fin tk wr (fin fin' : Prop) m : (fin' → fin) → sending tk wr fin m → sending tk wr fin' m.
Proof. intros Hf [Hp He Hs]. constructor; [done|auto|]. intros s Es. destruct (Hs s Es). constructor; auto. Qed.

(** The frame that the framer makes from the stream. *)
Lemma popped_genuine tk wr fin s s' data : stream_sends tk wr fin s → took s s' data → (data = [] → stream.shouldSendFin s' = true) →
  let fr := popped s s' data in let fin' := fin ∨ FinBit fr = true in
  genuine (tk ++ data) fin' fr ∧ stream_sends (tk ++ data) wr fin' (finned s') ∧ (fin' → tk ++ data = wr) ∧ (fin → tk ++ data = tk).
Proof.
  intros [Ho Hw Hf] [_ _ Ewait Hne Eoff Efin _] Hd fr fin'. rewrite Ewait in Hw. pose proof (len_nonneg data). pose proof (len_nonneg tk).
  assert (stream.shouldSendFin s' = true → stream.finishedWriting s' = true ∧ stream.dataForWriting s' = None) as Hfin.
  { unfold stream.shouldSendFin. rewrite !andb_true_iff, !bool_decide_eq_true. tauto. }
  assert (fin → data = [] ∧ stream.dataForWriting s' = None) as Hold.
  { intros Hx. destruct (Hf Hx) as [_ En]. rewrite En in Ewait. cbn in Ewait. symmetry in Ewait. apply app_nil in Ewait as [-> E0].
    split; [done|]. destruct (stream.dataForWriting s') as [l|]; [|done]. cbn in E0. by subst. }
  assert (fin' → tk ++ data = wr) as Hend.
  { intros Hx. assert (stream.dataForWriting s' = None) as En by (destruct Hx; [by apply Hold|by apply Hfin]).
    rewrite Hw, En. cbn. by rewrite !app_nil_r. }
  split; [|split; [|split; [exact Hend|intros Hx; destruct (Hold Hx) as [-> _]; by rewrite app_nil_r]]].
  - constructor; cbn [Offset Data FinBit fr popped]; rewrite ?len_app; [lia| |lia| |].
    + rewrite Ho. unfold len. by rewrite Nat2Z.id, drop_app_length.
    + intros E. split; [by right|lia].
    + destruct data; [right; by apply Hd|by left].
  - assert (stream.writeOffset (finned s') = stream.writeOffset s' ∧ stream.dataForWriting (finned s') = stream.dataForWriting s' ∧
      stream.finishedWriting (finned s') = stream.finishedWriting s') as (E1 & E2 & E3) by (unfold finned; by case_match).
    constructor; rewrite ?E1, ?E2, ?E3, ?Eoff, ?len_app; [lia|by rewrite <- app_assoc|].
    intros [Hx|Hnew]; [|by apply Hfin]. destruct (Hf Hx) as [E _]. rewrite Efin, E. split; [done|]. by apply Hold.
Qed.

(** What the pops keep: some more bytes [tk'] have been taken, and the frames carry them. *)
Definition taking (tk wr : list Z) (fin : Prop) (m : streamsMap) (fs : list StreamFrame) : Prop :=
  ∃ tk', tk `prefix_of` tk' ∧ sending tk' wr (fin ∨ ended fs) m ∧ Forall (mine tk' (fin ∨ ended fs)) fs.

Lemma ended_snoc fs fr : ended (fs ++ [fr]) ↔ ended fs ∨ (StreamID fr = id ∧ FinBit fr = true).
Proof. unfold ended. setoid_rewrite elem_of_app. setoid_rewrite list_elem_of_singleton. naive_solver. Qed.

Lemma taking_other tk wr fin m fs s fr : taking tk wr fin m fs → stream.streamID s ≠ id → StreamID fr ≠ id →
  taking tk wr fin (setStream s m) (fs ++ [fr]).
Proof.
  intros (tk' & Hp & Hs & Hm) Hne Hfr. exists tk'. assert (fin ∨ ended (fs ++ [fr]) ↔ fin ∨ ended fs) as Hf by (rewrite ended_snoc; tauto).
  split; [done|]. split.
  - eapply sending_fin; [apply Hf|]. destruct Hs as [? ? Hs]. constructor; [done|done|]. intros s1. cbn.
    rewrite lookup_insert_ne by done. apply Hs.
  - apply Forall_app. split; [eapply mine_mono; [|done]; tauto|]. constructor; [|done]. by intros ?.
Qed.

Lemma taking_mine tk wr fin m fs s s' data : taking tk wr fin m fs → stream.streamID s = id → streamsMap.streams m !! id = Some s →
  took s s' data → (data = [] → stream.shouldSendFin s' = true) →
  taking tk wr fin (setStream (finned s') m) (fs ++ [popped s s' data]).
Proof.
  intros (tk' & Hp & [Hpre Hend Hs] & Hm) Eid Es Ht Hd. pose proof (popped_genuine _ _ _ _ _ _ (Hs s Es) Ht Hd) as Hg.
  set (fr := popped s s' data) in *. cbv zeta in Hg. set (fin1 := (fin ∨ ended fs) ∨ FinBit fr = true) in Hg.
  destruct Hg as (Hg & Hs' & He' & Hsame). assert (StreamID fr = id) as Efr by done.
  assert (fin ∨ ended (fs ++ [fr]) ↔ fin1) as Hf by (unfold fin1; rewrite ended_snoc; tauto).
  assert (tk' `prefix_of` tk' ++ data) as Hp' by by eexists.
  exists (tk' ++ data). split; [by etrans|]. split.
  - eapply sending_fin; [apply Hf|]. constructor; [|done|].
    + destruct Hs' as [_ Hw _]. rewrite Hw. by eexists.
    + intros s1. cbn. rewrite finned_id, (tk_id _ _ _ Ht), Eid, lookup_insert_eq. by intros [= <-].
  - apply Forall_app. split.
    + eapply Forall_impl; [exact Hm|]. intros fr1 H1 E1. eapply genuine_mono; [exact Hp'|exact Hsame|rewrite Hf; unfold fin1; tauto|by apply H1].
    + constructor; [|done]. intros _. by refine (genuine_mono (tk' ++ data) _ fin1 _ fr _ _ (proj2 Hf) Hg).
Qed.

(** One call of the closure, and then all of them. *)
Lemma pop_sends tk wr (fin : Prop) maxBytes f0 bl0 s m p m' p' r : maxBytes < 2 ^ 62 → sm_inv m → streamsMap.streams m !! stream.streamID s = Some s →
  filling cp maxBytes f0 bl0 m p ∧ taking tk wr fin m (res p) →
  popFrame cp maxBytes s (m, p) = ((m', p'), r) →
  filling cp maxBytes f0 bl0 m' p' ∧ taking tk wr fin m' (res p').
Proof.
  intros Hb H Hm (Hf & Hs) E. split; [by eapply filling_call|]. pose proof Hf as [El Hle Hsm _ _].
  pose proof (totalLen_nonneg (res p)). specialize (Hsm _ _ Hm) as Hs1. cbn in Hs1.
  destruct (popFrame_cases cp maxBytes s m p m' p' r Hm Hs1 ltac:(lia) Hb E) as [(-> & -> & _)|(s' & data & w & _ & Ht & Ha & _ & _ & -> & ->)]; [done|].
  cbn [res]. assert (data = [] → stream.shouldSendFin s' = true) as Hd by (by destruct Ha as [(_ & _ & _ & ?)|[? _]]).
  destruct (decide (stream.streamID s = id)) as [Eid|Hne].
  - rewrite Eid in Hm. by apply taking_mine.
  - apply taking_other; [done| |done]. by rewrite finned_id, (tk_id _ _ _ Ht).
Qed.

Lemma PopStreamFrames_sends tk wr (fin : Prop) maxLen q m f q' m' f' fs : framer_ok q m → 0 <= maxLen < 2 ^ 62 → len wr < 2 ^ 62 →
  sending tk wr fin m → Forall (mine tk fin) (retransmissionQueue q) → PopStreamFrames cp maxLen q m f = Ok (q', m', f', fs) →
  ∃ tk', tk `prefix_of` tk' ∧ (fin → tk' = tk) ∧ sending tk' wr (fin ∨ ended fs) m' ∧
    Forall (mine tk' (fin ∨ ended fs)) (retransmissionQueue q') ∧ Forall (mine tk' (fin ∨ ended fs)) fs.
Proof.
  intros [Hi Ho Hsm Hq Hm] Hb Hw Hs Hmine. unfold PopStreamFrames, maybePopFramesForRetransmission, maybePopNormalFrames.
  assert (len tk < 2 ^ 62) as Hw'. { pose proof (prefix_length _ _ (sg_prefix _ _ _ _ Hs)). unfold len in *. lia. }
  destruct (retransmissionLoop maxLen 0 (retransmissionQueue q) f) as [[[queue f1] old] cur] eqn:E.
  destruct (retransmission_spec cp maxLen 0 _ _ _ _ _ _ Hq Hm ltac:(lia) ltac:(lia) E) as (_ & Ec & Hle & _).
  destruct (retransmission_forall (mine tk fin) (mine_flag tk fin) (mine_split tk fin Hw') maxLen 0 _ _ _ _ _ _ Hq ltac:(lia) ltac:(lia) Hmine E) as [Hqueue Hold].
  pose proof (totalLen_nonneg old). rewrite (u64_id (maxLen - cur)) by (unfold is_u64; lia). set (q1 := set_retransmissionQueue queue q).
  destruct (RoundRobin_invariant (popFrame cp (maxLen - cur)) (λ m p, filling cp (maxLen - cur) f1 (blockedFrameQueue q1) m p ∧
    taking tk wr fin m (res p)) (gentle_popFrame cp (maxLen - cur)))
    with (m := m) (x := MkPop f1 (blockedFrameQueue q1) [] 0) as (m1 & p1 & e & -> & _ & _ & _ & Ht).
  - intros s m1 x m2 x' r ? ? ? ?. eapply pop_sends; [|done..]. lia.
  - intros v m1 x (? & (tk' & ? & [? ? ?] & ?)). split; [by apply filling_index|by exists tk'].
  - done.
  - done.
  - split; [constructor; try done; [cbn; lia|apply charged_start]|]. exists tk. split; [done|]. split; [|constructor].
    eapply sending_fin; [|exact Hs]. cbn. intros [?|(fr & ?%elem_of_nil & _)]; done.
  - cbn. intros [= <- <- <- <-]. destruct Ht as (tk' & Hp' & Hs1 & Hr1).
    assert (ended (old ++ res p1) → fin ∨ ended (res p1)) as Hback.
    { intros (fr & [Hin|Hin]%elem_of_app & Ei & Ef); [left|right; by exists fr].
      rewrite Forall_forall in Hold. by destruct (ge_fin _ _ _ (Hold fr Hin Ei) Ef). }
    assert (ended (res p1) → ended (old ++ res p1)) as Hfwd.
    { intros (fr & Hin & ?). exists fr. split; [|done]. apply elem_of_app. by right. }
    assert (fin → tk' = tk) as Hsame.
    { intros Hx. rewrite (sg_fin _ _ _ _ Hs1) by by left. symmetry. by apply (sg_fin _ _ _ _ Hs). }
    assert (∀ fs, Forall (mine tk fin) fs → Forall (mine tk' (fin ∨ ended (old ++ res p1))) fs) as Hmono.
    { intros fs H1. eapply Forall_impl; [exact H1|]. intros fr Hm1 Ei. eapply genuine_mono; [exact Hp'|exact Hsame|by left|by apply Hm1]. }
    exists tk'. split; [done|]. split; [done|]. split; [eapply sending_fin; [|exact Hs1]; tauto|]. split; [by apply Hmono|].
    apply Forall_app. split; [by apply Hmono|]. eapply mine_mono; [|done]. tauto.
Qed.

(** ** Both ends *)

Definition contentOf (l : list Z) (i : Z) : Z := default 0 (l !! Z.to_nat i).

Record sender_ok (tk : list Z) (se : sender) : Prop := {
  so_framer : framer_ok (se_framer se) (se_map se);
  so_len : len (se_written se) < 2 ^ 62;
  so_sending : sending tk (se_written se) (ended (se_net se)) (se_map se);
  so_queue : Forall (mine tk (ended (se_net se))) (retransmissionQueue (se_framer se));
  so_net : Forall (mine tk (ended (se_net se))) (se_net se);
  so_well : Forall (λ fr, meaningful fr ∧ frame_small fr) (se_net se);
}.

(** A stream that the sender may still turn out to send. *)
Record possible (tk : list Z) (se : sender) (l : list Z) : Prop := {
  po_prefix : tk `prefix_of` l;
  po_len : len l < 2 ^ 62;
  po_ended : ended (se_net se) → l = tk;
}.

Definition reads (l : list Z) (re : receiver) : Prop :=
  read_run (contentOf l) (len l) (re_silent re) (re_stream re) (re_flow re) (re_buffer re) (re_reader re) (re_frames re) (re_data re).

Lemma ended_app fs net : ended (fs ++ net) ↔ ended net ∨ ended fs.
Proof. unfold ended. setoid_rewrite elem_of_app. naive_solver. Qed.

Lemma write_spec tk wr fin s p now s' w cbs : stream_sends tk wr fin s → stream.Write p now s = (s', w, cbs) →
  let wr' := take (Z.to_nat (stream.writeOffset s)) wr ++ default [] (stream.dataForWriting s') in
  stream.streamID s' = stream.streamID s ∧ stream_sends tk wr' fin s' ∧
  len wr' = stream.writeOffset s' + len (default [] (stream.dataForWriting s')).
Proof.
  intros [Ho Hw Hf]. rewrite Hw, Ho. unfold len at 1. rewrite Nat2Z.id, take_app_length.
  unfold stream.Write. assert (s' = s → let wr' := tk ++ default [] (stream.dataForWriting s') in
    stream.streamID s' = stream.streamID s ∧ stream_sends tk wr' fin s' ∧
    len wr' = stream.writeOffset s' + len (default [] (stream.dataForWriting s'))) as Hs.
  { intros ->. split; [done|]. split; [by constructor|]. cbv zeta. rewrite len_app. lia. }
  destruct (_ || _); [intros [= <- _ _]; by apply Hs|]. destruct (stream.finishedWriting s) eqn:Efw; [intros [= <- _ _]; by apply Hs|].
  destruct (_ =? 0); [intros [= <- _ _]; by apply Hs|]. clear Hs. intros [= <- _ _]. cbn.
  split; [done|]. split; [|rewrite len_app; lia].
  constructor; cbn; [done|done|]. intros Hfin. destruct (Hf Hfin). congruence.
Qed.

Lemma stream_id_of q m s : framer_ok q m → streamsMap.streams m !! id = Some s → stream.streamID s = id.
Proof. intros Hq. apply (sm_ids _ (fo_map _ _ Hq)). Qed.

Lemma send_step_ok tk se se' : sender_ok tk se → send_step se se' →
  ∃ tk', sender_ok tk' se' ∧ ∀ l, possible tk' se' l → possible tk se l.
Proof.
  intros [Hq Hl Hs Hmq Hmn Hw] Hst.
  destruct Hst as [q m f wr net s p now s' w cbs Es E Hq'|q m f wr net s s' Es Hls Hq'|q m f wr net m' f' Hq' Hm'
    |q m f wr net maxLen q' m' f' fs Hb E|q m f wr net fr b Hin]; cbn [se_framer se_map se_flow se_written se_net] in *.
  - exists tk. split; [|intros l [? ? ?]; by constructor].
    pose proof (stream_id_of _ _ _ Hq Es) as Eid. destruct (write_spec _ _ _ _ _ _ _ _ _ (sg_stream _ _ _ _ Hs s Es) E) as (Eid' & Hs' & Hlen).
    set (wr' := take (Z.to_nat (stream.writeOffset s)) wr ++ default [] (stream.dataForWriting s')) in *. constructor; cbn; auto.
    + pose proof (fo_streams _ _ Hq' id s') as [? ?]; [cbn; by rewrite Eid', Eid, lookup_insert_eq|]. by rewrite Hlen.
    + destruct Hs' as [H1 H2 H3]. constructor.
      * rewrite H2. by eexists.
      * intros Hx. rewrite H2. destruct (H3 Hx) as [_ ->]. cbn. by rewrite app_nil_r.
      * intros s1. cbn. rewrite Eid', Eid, lookup_insert_eq. by intros [= <-].
  - exists tk. split; [|intros l [? ? ?]; by constructor]. pose proof (stream_id_of _ _ _ Hq Es) as Eid. destruct Hls as [Ei Edw Eo Hfi].
    constructor; cbn; auto. destruct Hs as [? ? Hs]. constructor; [done|done|].
    intros s1. cbn. rewrite Ei, Eid, lookup_insert_eq. intros [= <-]. destruct (Hs s Es) as [? ? Hfin].
    constructor; rewrite ?Eo, ?Edw; [done|done|]. intros Hx. destruct (Hfin Hx). auto.
  - exists tk. split; [|intros l [? ? ?]; by constructor]. constructor; cbn; auto. destruct Hs as [? ? Hs]. constructor; [done|done|].
    intros s Es. destruct Hm' as [Em|Em]; [|congruence]. apply Hs. congruence.
  - destruct (PopStreamFrames_spec cp maxLen q m f Hq Hb) as (? & ? & ? & old & new & E' & _ & Hwf & _ & Hq' & _).
    rewrite E in E'. injection E' as <- <- <- ->.
    destruct (PopStreamFrames_sends tk wr (ended net) maxLen _ _ _ _ _ _ _ Hq Hb Hl Hs Hmq E) as (tk' & Hp' & Hsame & Hs' & Hmq' & Hfs).
    set (fs := old ++ new) in *. assert (ended net ∨ ended fs → ended (fs ++ net)) as Hfin by apply ended_app.
    exists tk'. split.
    + constructor; cbn; try done.
      * eapply sending_fin; [|exact Hs']. apply ended_app.
      * by eapply mine_mono.
      * apply Forall_app. split; [by eapply mine_mono|]. eapply Forall_impl; [exact Hmn|]. intros fr Hm1 Ei.
        eapply genuine_mono; [exact Hp'|exact Hsame|intros ?; apply Hfin; by left|by apply Hm1].
      * apply Forall_app. split; [|done]. eapply Forall_impl; [exact Hwf|]. by intros fr (? & ? & ?).
    + intros l [Hp Hll He]. constructor; [by etrans|done|]. intros Hx. rewrite <- (Hsame Hx). apply He. apply ended_app. by left.
  - exists tk. split; [|intros l [? ? ?]; by constructor]. rewrite Forall_forall in Hw. destruct (Hw fr Hin) as [Hm1 Hsm1].
    rewrite <- Forall_forall in Hw. constructor; cbn; try done.
    + destruct Hq as [? ? ? Hq1 Hq2]. constructor; try done; cbn; apply Forall_app; (split; [done|]); (constructor; [done|constructor]).
    + apply Forall_app. split; [done|]. constructor; [|done]. rewrite Forall_forall in Hmn. intros Ei. destruct (Hmn fr Hin Ei). by constructor.
Qed.

Lemma receive_step_reads tk se re re' : sender_ok tk se → receive_step (se_net se) re re' →
  (∀ l, possible tk se l → reads l re) → ∀ l, possible tk se l → reads l re'.
Proof.
  intros Hse Hst Hre l Hl. specialize (Hre l Hl). unfold reads in *.
  destruct Hst as [s f q n n' acc e fs d Hn|s f q n r fs d now timer s' f' r' cbs E|s f q n r fs d fr b s' f' Hin Hid E|s f q n r fs d now s' Ho|s f q n r fs d f' Hf]; cbn in *.
  - by eapply rr_call.
  - by eapply rr_step.
  - eapply rr_frame; [done| |done]. pose proof (so_net tk se Hse) as Hn. rewrite Forall_forall in Hn.
    destruct (Hn fr Hin Hid) as [? ? ? ? ?]. eapply (genuine_legit tk (ended (se_net se))); [by constructor|apply Hl..].
  - by eapply rr_other.
  - by eapply rr_flow.
Qed.

Lemma run_ok se re : run se re → ∃ tk, sender_ok tk se ∧ ∀ l, possible tk se l → reads l re.
Proof.
  induction 1 as [q m f s net rf Hq Es Eo Ed Hn Hnet Hc|se re se' _ (tk & IHs & IHr) Hst|se re re' _ (tk & IHs & IHr) Hst].
  - assert (~ ended net) as Hne by (intros (fr & Hin & Ei & _); rewrite Forall_forall in Hnet; by destruct (Hnet fr Hin)).
    exists []. split.
    + constructor; cbn; try done.
      * constructor; [done|done|]. intros s1 E. rewrite Es in E. injection E as <-. constructor; rewrite ?Eo, ?Ed; done.
      * eapply Forall_impl; [exact Hn|]. by intros fr ? ?.
      * eapply Forall_impl; [exact Hnet|]. by intros fr [? _] ?.
      * eapply Forall_impl; [exact Hnet|]. by intros fr [_ (? & ? & _)].
    + intros l _. by apply rr_new.
  - destruct (send_step_ok tk se se' IHs Hst) as (tk' & ? & Hp). exists tk'. split; [done|]. intros l Hl. by apply IHr, Hp.
  - exists tk. split; [done|]. by apply (receive_step_reads tk se re).
Qed.

Lemma prefix_contents (l w : list Z) : len l <= len w → (∀ i, 0 <= i < len l → l !! Z.to_nat i = Some (contentOf w i)) → l `prefix_of` w.
Proof.
  intros Hl Hc. exists (drop (length l) w). rewrite <- (take_drop (length l) w) at 1. f_equal. apply list_eq. intros i.
  destruct (decide (i < length l)%nat) as [Hi|Hi].
  - rewrite lookup_take_lt by done. specialize (Hc (Z.of_nat i)). rewrite Nat2Z.id in Hc. rewrite Hc by (unfold len; lia).
    unfold contentOf. rewrite Nat2Z.id. destruct (lookup_lt_is_Some_2 w i) as [x ->]; [unfold len in Hl; lia|done].
  - rewrite (lookup_ge_None_2 l), lookup_take_ge by lia. done.
Qed.

(** C1: streams are reliable from end to end. Whatever the application writes, however
    the framer cuts it into frames, whatever the network loses, delays, repeats or
    reorders, and however lost frames are sent again, whole or split: the bytes that all
    calls of Read at the other end have returned, and those that the current call has copied,
    are the beginning of what was written, and Read never panics. What counts as written
    is the data of all calls of Write in their order, except that the data of a
    call that hit its deadline is cut, by the next call of Write, to what had been taken until then;
    and the receiver's stream must not be reset or cancelled without an error (Reset(nil)),
    which makes the call of Read that is under way panic or misread. In that case new
    calls of Read return at once, without data. *)
Theorem stream_transfer se re : run se re →
  if re_silent re
  then ∀ n now, stream.Read n now (re_stream re) (re_flow re) =
         (re_stream re, re_flow re, stream.RDone [] (stream.err (re_stream re)))
  else
    re_data re ++ copied (re_reader re) `prefix_of` se_written se ∧
    stream.readOffset (re_stream re) = len (re_data re ++ copied (re_reader re)) ∧ re_reader re ≠ stream.RPanic.
Proof.
  intros (tk & Hse & Hre)%run_ok. pose proof (len_nonneg (se_written se)). pose proof (so_len tk se Hse).
  assert (possible tk se (se_written se)) as Hp.
  { destruct (so_sending tk se Hse) as [Hp He _]. constructor; [done|done|]. intros Hx. by rewrite He. }
  destruct (read_run_cases _ (len (se_written se)) ltac:(lia) _ _ _ _ _ _ _ (Hre _ Hp)) as [Hn Hr].
  destruct (re_silent re); [intros; by apply Read_stopped|].
  pose proof (reading_end _ (len (se_written se)) ltac:(lia) _ _ _ _ _ _ Hr) as Hend. destruct Hr as [_ Hlen Hd Hpl _ _ _]. rewrite <- Hlen in Hend, Hd.
  split; [by apply prefix_contents|]. split; [done|]. by intros E; rewrite E in Hpl.
Qed.

End transfer.

(** ** Examples *)
Module TransferExamples.
Import protocol StreamFrame streamFramer stream.
Import FlowExamples (cp).
Import StreamsMapExamples (server).
Import FramerExamples (flow1, ok_server).
Import session_streams (setStream).

(** Four bytes are written to the stream 5, which is then closed. *)
Definition written5 : stream := (Write [1; 2; 3; 4] 1000 (newStream 5)).1.1.
Definition closed5 : stream := (Close written5).1.
Definition map1 := setStream written5 server.
Definition map2 := setStream closed5 map1.

(** The result of PopStreamFrames. *)
Definition pop (maxLen : Z) (q : streamFramer) (m : streamsMap.streamsMap) (f : flowControlManager.flowControlManager) :=
  match PopStreamFrames cp maxLen q m f with Ok x => x | _ => (q, m, f, []) end.

Definition pop1 := pop 100 newStreamFramer map2 flow1.
Definition frame1 := MkStreamFrame 5 true true 0 [1; 2; 3; 4].
(** The frame is sent again, in two parts. *)
Definition framer2 := AddFrameForRetransmission frame1 pop1.1.1.1.
Definition pop2 := pop 6 framer2 pop1.1.1.2 pop1.1.2.
Definition pop3 := pop 100 pop2.1.1.1 pop2.1.1.2 pop2.1.2.

Definition sent1 : sender := MkSender pop1.1.1.1 pop1.1.1.2 pop1.1.2 [1; 2; 3; 4] [frame1].
Definition sent3 : sender := MkSender pop3.1.1.1 pop3.1.1.2 pop3.1.2 [1; 2; 3; 4] (pop3.2 ++ pop2.2 ++ [frame1]).
Definition fresh : receiver := MkReceiver (newStream 5) flow1 false 0 (RDone [] None) [] [].

Lemma step_pop maxLen q m f wr net : 0 <= maxLen < 2 ^ 62 → is_ok (PopStreamFrames cp maxLen q m f) = true →
  send_step cp 5 (MkSender q m f wr net)
    (MkSender (pop maxLen q m f).1.1.1 (pop maxLen q m f).1.1.2 (pop maxLen q m f).1.2 wr ((pop maxLen q m f).2 ++ net)).
Proof.
  intros Hm. unfold pop. destruct (PopStreamFrames cp maxLen q m f) as [[[[q' m'] f'] fs]| |] eqn:E; [|done|done].
  intros _. by apply (st_pop cp 5 q m f wr net maxLen q' m' f' fs).
Qed.

Lemma run1 : run cp 5 sent1 fresh.
Proof.
  assert (framer_ok newStreamFramer map1) as H1.
  { eapply setStream_ok; [by apply ok_server; constructor|by vm_compute|split; by vm_compute]. }
  assert (framer_ok newStreamFramer map2) as H2 by (eapply setStream_ok; [exact H1|by vm_compute|split; by vm_compute]).
  eapply run_send; [|assert (sent1 = MkSender pop1.1.1.1 pop1.1.1.2 pop1.1.2 [1; 2; 3; 4] (pop1.2 ++ [])) as -> by (by vm_compute);
    apply step_pop; [lia|by vm_compute]].
  eapply run_send; [|apply (st_other cp 5 newStreamFramer map1 flow1 [1; 2; 3; 4] [] written5 closed5); [by vm_compute|by constructor|exact H2]].
  eapply run_send; [|eapply (st_write cp 5 newStreamFramer server flow1 [] [] (newStream 5) [1; 2; 3; 4] 1000 written5); [by vm_compute|by vm_compute|exact H1]].
  apply (run_open cp 5 newStreamFramer server flow1 (newStream 5) [] flow1); [by apply ok_server; constructor|by vm_compute|done|done|constructor|constructor|by vm_compute].
Qed.

Lemma run3 : run cp 5 sent3 fresh.
Proof.
  eapply run_send; [|apply step_pop; [lia|by vm_compute]].
  eapply run_send; [|apply step_pop; [lia|by vm_compute]].
  eapply run_send; [apply run1|]. apply (st_lost cp 5 _ _ _ _ [frame1] frame1 true). by left.
Qed.

(** Steps of a call of Read that nothing interrupts. *)
Lemma run_read fuel n now se s f q r fs d : run cp 5 se (MkReceiver s f q n r fs d) →
  run cp 5 se (MkReceiver (readRun fuel n now s f r).1.1 (readRun fuel n now s f r).1.2 q n (readRun fuel n now s f r).2 fs d).
Proof.
  revert s f r. induction fuel as [|fuel IH]; intros s f r H; cbn [readRun]; [done|].
  destruct (readStep n now false s f r) as [[[[s1 f1] r1] cbs]|] eqn:E; [|done]. apply IH.
  eapply run_receive; [exact H|]. by eapply rt_step.
Qed.

(** The stream behind the arrival of a frame. *)
Definition arrive (fr : StreamFrame) (x : stream * flowControlManager.flowControlManager) : stream * flowControlManager.flowControlManager :=
  match AddStreamFrame fr x.1 x.2 with Ok (s, f, _) => (s, f) | _ => x end.

Lemma run_arrive fr se x q n r fs d : run cp 5 se (MkReceiver x.1 x.2 q n r fs d) → fr ∈ se_net se → StreamID fr = 5 → DataLenPresent fr = true →
  match AddStreamFrame fr x.1 x.2 with Ok (_, _, None) => true | _ => false end = true →
  run cp 5 se (MkReceiver (arrive fr x).1 (arrive fr x).2 q n r (fr :: fs) d).
Proof.
  intros H Hin Hid Hd He. unfold arrive. destruct (AddStreamFrame fr x.1 x.2) as [[[s f] [e|]]| |] eqn:E; try done.
  assert (set_DataLenPresent true fr = fr) as Efr by (destruct fr; cbn in Hd; by subst).
  eapply run_receive; [exact H|]. pose proof (rt_frame 5 (se_net se) x.1 x.2 q n r fs d fr true s f Hin Hid) as Hrt.
  rewrite Efr in Hrt. by apply Hrt.
Qed.

(** The whole frame arrives, three bytes are read. *)
Definition whole := arrive frame1 (newStream 5, flow1).
Definition read3 := Read 3 1000 whole.1 whole.2.

Lemma stream_transfer_witness : [1; 2; 3] `prefix_of` [1; 2; 3; 4].
Proof.
  destruct (stream_transfer cp 5 sent1 (MkReceiver read3.1.1 read3.1.2 false 3 (RDone [1; 2; 3] None) [frame1] [])) as [H _]; [|exact H].
  assert (read3.2 = RDone [1; 2; 3] None) as <- by by vm_compute. apply run_read.
  eapply run_receive; [|apply (rt_call 5 _ whole.1 whole.2 false 0 3 [] None [frame1] []); lia].
  apply (run_arrive frame1 sent1 (newStream 5, flow1)); [apply run1|by left|done|done|by vm_compute].
Defined.

(** Two of the four bytes are taken; then the call of Write hits its deadline, and the data of
    the next call replaces the other two. *)
Definition cut := pop 6 newStreamFramer map1 flow1.
Definition cut5 : stream := default (newStream 5) (streamsMap.streams cut.1.1.2 !! 5).
Definition over5 : stream := (Write [9] 3000 cut5).1.1.
Definition overwritten : sender := MkSender cut.1.1.1 (setStream over5 cut.1.1.2) cut.1.2 [1; 2; 9] cut.2.

Lemma run_overwritten : run cp 5 overwritten fresh.
Proof.
  assert (framer_ok newStreamFramer map1) as H1.
  { eapply setStream_ok; [by apply ok_server; constructor|by vm_compute|split; by vm_compute]. }
  assert (framer_ok cut.1.1.1 cut.1.1.2) as H2.
  { destruct (PopStreamFrames_spec cp 6 newStreamFramer map1 flow1 H1 ltac:(lia)) as (q & m & f & old & new & E & _ & _ & _ & Hq & _).
    unfold cut, pop. by rewrite E. }
  assert (overwritten = MkSender cut.1.1.1 (setStream over5 cut.1.1.2) cut.1.2
    (take (Z.to_nat (writeOffset cut5)) [1; 2; 3; 4] ++ default [] (dataForWriting over5)) (cut.2 ++ [])) as -> by (by vm_compute).
  eapply run_send; [|eapply (st_write cp 5 cut.1.1.1 cut.1.1.2 cut.1.2 [1; 2; 3; 4] (cut.2 ++ []) cut5 [9] 3000 over5);
    [by vm_compute|by vm_compute|]].
  2: { eapply setStream_ok; [exact H2|by vm_compute|split; by vm_compute]. }
  eapply run_send; [|apply step_pop; [lia|by vm_compute]].
  eapply run_send; [|eapply (st_write cp 5 newStreamFramer server flow1 [] [] (newStream 5) [1; 2; 3; 4] 1000 written5); [by vm_compute|by vm_compute|exact H1]].
  apply (run_open cp 5 newStreamFramer server flow1 (newStream 5) [] flow1); [by apply ok_server; constructor|by vm_compute|done|done|constructor|constructor|by vm_compute].
Qed.

(** The second part of the frame that was sent again arrives before the delayed original:
    the original is cut to its first two bytes and keeps the FIN bit. *)
Definition rest := MkStreamFrame 5 true true 2 [3; 4].
Definition both := arrive frame1 (arrive rest (newStream 5, flow1)).
Definition read10 := Read 10 1000 both.1 both.2.

(** The end of a stream is not reliable. A run of both ends in which the sender has written four
    bytes and closed the stream, and all of them have arrived; Read returns two bytes and
    the end of the stream, and the next call returns the end of the stream as well. *)
Theorem stream_truncated : ∃ se re, run cp 5 se re ∧ se_written se = [1; 2; 3; 4] ∧
  re_reader re = RDone [1; 2] (Some EOF) ∧ re_data re = [] ∧ finishedReading (re_stream re) = true ∧
  (Read 10 1000 (re_stream re) (re_flow re)).2 = RDone [] (Some EOF).
Proof.
  exists sent3, (MkReceiver read10.1.1 read10.1.2 false 10 (RDone [1; 2] (Some EOF)) [frame1; rest] []).
  split; [|by vm_compute]. assert (read10.2 = RDone [1; 2] (Some EOF)) as <- by by vm_compute. apply run_read.
  eapply run_receive; [|apply (rt_call 5 _ both.1 both.2 false 0 10 [] None [frame1; rest] []); lia].
  assert (se_net sent3 = [rest; MkStreamFrame 5 false true 0 [1; 2]; frame1]) as En by by vm_compute.
  apply (run_arrive frame1 sent3 (arrive rest (newStream 5, flow1)) false 0 (RDone [] None) [rest] []); [|rewrite En; right; right; left|done|done|by vm_compute].
  apply (run_arrive rest sent3 (newStream 5, flow1)); [apply run3|rewrite En; left|done|done|by vm_compute].
Qed.

End TransferExamples.
