(* ===== verification/PacketPacker.v ===== *)
(** * The packet packer

    [packet_number_generator.go] and [packet_packer.go]: how the frames that wait are put into
    packets, and the packets are numbered, written and sealed. The handshake, with the
    AEADs, is a parameter. The packer works on the stream framer, the streams, the flow
    control and the path: [world] holds all of them. *)

From S2P Require Import Prelude Protocol ByteOrder AckFrames Frames PublicHeader GoFloat SentPackets FlowControl FrameSorter.
From S2P Require Import Stream StreamsMap StreamFramer.

(** ** packet_number_generator.go *)
Module packetNumberGenerator.

Record packetNumberGenerator := MkGenerator {
  averagePeriod : Z;
  next : Z;
  nextToSkip : Z;
}.

Definition newPacketNumberGenerator (averagePeriod : Z) : packetNumberGenerator := MkGenerator averagePeriod 1 0.

Definition Peek (p : packetNumberGenerator) : Z := next p.

(** The two bytes of [rand.Read], None when it fails. *)
Definition getRandomNumber (rand : option (Z * Z)) : option Z :=
  match rand with Some (b0, b1) => Some (u16 (u16 (Z.shiftl b0 8) + b1)) | None => None end.

Definition generateNewSkip (rand : option (Z * Z)) (p : packetNumberGenerator) : packetNumberGenerator :=
  match getRandomNumber rand with
  | None => p
  | Some num =>
      let skip := u64 (num * u64 (averagePeriod p - 1)) / (65535 / 2) in
      MkGenerator (averagePeriod p) (next p) (u64 (u64 (next p + 2) + skip))
  end.

(** The error of generateNewSkip is ignored. *)
Definition Pop (rand : option (Z * Z)) (p : packetNumberGenerator) : packetNumberGenerator * Z :=
  let res := next p in
  let p := MkGenerator (averagePeriod p) (u64 (next p + 1)) (nextToSkip p) in
  if next p =? nextToSkip p
  then (generateNewSkip rand (MkGenerator (averagePeriod p) (u64 (next p + 1)) (nextToSkip p)), res)
  else (p, res).

End packetNumberGenerator.

(** ** The handshake as the packer sees it *)

(** [handshake.Sealer]: [Seal src packetNumber associatedData]. *)
Record Sealer := MkSealer {
  Overhead : Z;
  Seal : list Z → Z → list Z → list Z;
}.

(** What the packer uses of the [handshake.CryptoSetup]. *)
Record CryptoSetup := MkCryptoSetup {
  GetSealer : protocol.EncryptionLevel * Sealer;
  GetSealerWithEncryptionLevel : protocol.EncryptionLevel → Sealer + error;
  GetSealerForCryptoStream : protocol.EncryptionLevel * Sealer;
  DiversificationNonce : list Z;
}.

(** ** packet_packer.go *)
Module packetPacker.
Import protocol.
Import StopWaitingFrame (StopWaitingFrame).
Import AckFrame (AckFrame).
Import PublicHeader (PublicHeader).
Import streamsMap (streamsMap).
Import flowControlManager (flowControlManager).
Import streamFramer (streamFramer).
Import packetNumberGenerator (packetNumberGenerator).

Definition NonForwardSecurePacketSizeReduction : Z := 50.

Definition errNoAckFrame : error := NewError "packet packer BUG: no ack frame queued".
Definition errForwardSecure : error :=
  NewError "PacketPacker BUG: forward-secure encrypted handshake packets don't need special treatment".
Definition errNoStopWaiting : error :=
  NewError "PacketPacker BUG: Handshake retransmissions must contain a StopWaitingFrame".
Definition errPayloadTooLarge : error := NewError "Packet Packer BUG: packet payload too large".
Definition errPacketTooLarge : error := NewError "PacketPacker BUG: packet too large".
Definition errNumberMismatch : error := NewError "packetPacker BUG: Peeked and Popped packet numbers do not match".

Record packedPacket := MkPacked {
  number : Z;
  raw : list Z;
  frames : list Frame;
  encryptionLevel : EncryptionLevel;
}.

(** A nil entry of the maps of a path is an absent one. *)
Record packetPacker := MkPacker {
  connectionID : Z;
  perspective : Perspective;
  version : Z;
  controlFrames : list Frame;
  stopWaiting : gmap Z StopWaitingFrame;
  ackFrame : gmap Z AckFrame;
}.

Definition set_controlFrames (v : list Frame) (p : packetPacker) : packetPacker :=
  MkPacker (connectionID p) (perspective p) (version p) v (stopWaiting p) (ackFrame p).
Definition set_stopWaiting (v : gmap Z StopWaitingFrame) (p : packetPacker) : packetPacker :=
  MkPacker (connectionID p) (perspective p) (version p) (controlFrames p) v (ackFrame p).
Definition set_ackFrame (v : gmap Z AckFrame) (p : packetPacker) : packetPacker :=
  MkPacker (connectionID p) (perspective p) (version p) (controlFrames p) (stopWaiting p) v.

Definition newPacketPacker (connectionID : Z) (perspective : Perspective) (version : Z) : packetPacker :=
  MkPacker connectionID perspective version [] ∅ ∅.

(** What the packer uses of a path: [handshakeComplete] is the flag of its session, false
    when it has none. *)
Record packerPath := MkPath {
  pathID : Z;
  generator : packetNumberGenerator;
  leastUnacked : Z;
  handshakeComplete : bool;
}.

(** path.go *)
Definition SetLeastUnacked (v : Z) (pth : packerPath) : packerPath :=
  MkPath (pathID pth) (generator pth) v (handshakeComplete pth).
Definition set_generator (v : packetNumberGenerator) (pth : packerPath) : packerPath :=
  MkPath (pathID pth) v (leastUnacked pth) (handshakeComplete pth).

Record world := MkWorld {
  packer : packetPacker;
  framer : streamFramer;
  streams : streamsMap;
  flow : flowControlManager;
  pth : packerPath;
}.

Definition set_packer (v : packetPacker) (w : world) : world := MkWorld v (framer w) (streams w) (flow w) (pth w).
Definition set_pth (v : packerPath) (w : world) : world := MkWorld (packer w) (framer w) (streams w) (flow w) v.

(** What a method returns: a value or an error, in any case with the new state; a nil
    packet is None. *)
Notation result A := (outcome (world * (A + error))).

Definition QueueControlFrame (frame : Frame) (w : world) : world :=
  let p := packer w in
  match frame with
  | FStopWaiting f => set_packer (set_stopWaiting (<[pathID (pth w) := f]> (stopWaiting p)) p) w
  | FAck f => set_packer (set_ackFrame (<[pathID (pth w) := f]> (ackFrame p)) p) w
  | f => set_packer (set_controlFrames (controlFrames p ++ [f]) p) w
  end.

Definition canSendData (p : packetPacker) (encLevel : EncryptionLevel) : bool :=
  match perspective p with
  | PerspectiveClient => encryption_rank EncryptionSecure <=? encryption_rank encLevel
  | PerspectiveServer => bool_decide (encLevel = EncryptionForwardSecure)
  end.

(** The loop over the control frames, from the last one on: [cs] is the list in reverse.
    What is left of it, the frames, the length of the payload, and an error. *)
Fixpoint controlLoop (version maxFrameSize payloadLength : Z) (cs : list Frame) :
    outcome (list Frame * list Frame * Z * option error) :=
  match cs with
  | [] => Ok ([], [], payloadLength, None)
  | frame :: cs' =>
      match frame.MinLength frame version with
      | Ok minLength =>
          if maxFrameSize <? u64 (payloadLength + minLength) then Ok (cs, [], payloadLength, None)
          else
            '(rest, fs, n, e) ← controlLoop version maxFrameSize (u64 (payloadLength + minLength)) cs';
            Ok (rest, frame :: fs, n, e)
      | Err e => Ok (cs, [], payloadLength, Some e)
      | Panic => Panic
      end
  end.

(** The loop over the BLOCKED frames of the framer. *)
Fixpoint blockedLoop (fuel : nat) (q : streamFramer) (cs : list Frame) : streamFramer * list Frame :=
  match fuel with
  | O => (q, cs)
  | S fuel =>
      match streamFramer.PopBlockedFrame q with
      | (q, None) => (q, cs)
      | (q, Some b) => blockedLoop fuel q (cs ++ [FBlocked b])
      end
  end.

(** [fs[len(fs)-1].DataLenPresent = false] *)
Definition clearLast (fs : list StreamFrame.StreamFrame) : list StreamFrame.StreamFrame :=
  match last fs with
  | Some f => take (length fs - 1) fs ++ [streamFramer.set_DataLenPresent false f]
  | None => fs
  end.

Section packing.
Context (cp : ConnectionParameters) (lim : StreamLimits) (cryptoSetup : CryptoSetup) (truncateConnectionID : bool).

Definition getPublicHeader (encLevel : EncryptionLevel) (w : world) : PublicHeader :=
  let p := packer w in
  let pnum := packetNumberGenerator.Peek (generator (pth w)) in
  let packetNumberLen := GetPacketNumberLengthForPublicHeader pnum (leastUnacked (pth w)) in
  let nonce := if bool_decide (perspective p = PerspectiveServer) && bool_decide (encLevel = EncryptionSecure)
               then DiversificationNonce cryptoSetup else [] in
  let versionFlag := bool_decide (perspective p = PerspectiveClient) && bool_decide (encLevel ≠ EncryptionForwardSecure) in
  let versionNumber := if versionFlag then version p else 0 in
  let multipath := handshakeComplete (pth w) && (VersionMP <=? version p) in
  PublicHeader.MkPublicHeader [] (connectionID p) (if multipath then pathID (pth w) else 0) versionFlag false
    (if multipath then false else truncateConnectionID) multipath packetNumberLen pnum versionNumber [] nonce.

(** Write sets the delay of an ACK frame, which the packet keeps. *)
Definition written (version now : Z) (frame : Frame) : Frame :=
  match frame with FAck f => FAck (AckFrame.Write f version now).1 | f => f end.

(** [now] is the clock when an ACK frame is written, [rand] what rand.Read gives. *)
Definition writeAndSealPacket (publicHeader : PublicHeader) (payloadFrames : list Frame) (sealer : Sealer)
    (now : Z) (rand : option (Z * Z)) (w : world) : result (list Z) :=
  let p := packer w in
  match PublicHeader.Write publicHeader (version p) (perspective p) with
  | Panic => Panic
  | Err e => Ok (w, inr e)
  | Ok header =>
      match writeFrames (version p) now payloadFrames with
      | Panic => Panic
      | Err e => Ok (w, inr e)
      | Ok payload =>
          if MaxPacketSize <? u64 (len header + len payload + Overhead sealer) then Ok (w, inr errPacketTooLarge)
          else
            let raw := header ++ Seal sealer payload (PublicHeader.PacketNumber publicHeader) header in
            let '(g, num) := packetNumberGenerator.Pop rand (generator (pth w)) in
            let w := set_pth (set_generator g (pth w)) w in
            if negb (num =? PublicHeader.PacketNumber publicHeader) then Ok (w, inr errNumberMismatch)
            else Ok (w, inl raw)
      end
  end.

(** The packet that is returned together with the error of writeAndSealPacket. *)
Definition packed (ph : PublicHeader) (frames : list Frame) (encLevel : EncryptionLevel) (now : Z)
    (r : result (list Z)) : result (option packedPacket) :=
  '(w, r) ← r;
  match r with
  | inr e => Ok (w, inr e)
  | inl raw => Ok (w, inl (Some (MkPacked (PublicHeader.PacketNumber ph) raw (written (version (packer w)) now <$> frames) encLevel)))
  end.

Definition PackConnectionClose (ccf : ConnectionCloseFrame.ConnectionCloseFrame) (now : Z) (rand : option (Z * Z)) (w : world) :
    result (option packedPacket) :=
  let frames := [FConnectionClose ccf] in
  let '(encLevel, sealer) := GetSealer cryptoSetup in
  let ph := getPublicHeader encLevel w in
  packed ph frames encLevel now (writeAndSealPacket ph frames sealer now rand w).

(** The number of the packet in the STOP_WAITING frame of the path. *)
Definition numberStopWaiting (ph : PublicHeader) (w : world) : world :=
  let p := packer w in
  match stopWaiting p !! pathID (pth w) with
  | None => w
  | Some f =>
      let f := StopWaitingFrame.MkStopWaitingFrame (StopWaitingFrame.LeastUnacked f)
                 (PublicHeader.PacketNumberLen ph) (PublicHeader.PacketNumber ph) in
      set_packer (set_stopWaiting (<[pathID (pth w) := f]> (stopWaiting p)) p) w
  end.

Definition dropStopWaiting (w : world) : world :=
  set_packer (set_stopWaiting (delete (pathID (pth w)) (stopWaiting (packer w))) (packer w)) w.
Definition dropAckFrame (w : world) : world :=
  set_packer (set_ackFrame (delete (pathID (pth w)) (ackFrame (packer w))) (packer w)) w.

Definition PackAckPacket (now : Z) (rand : option (Z * Z)) (w : world) : result (option packedPacket) :=
  match ackFrame (packer w) !! pathID (pth w) with
  | None => Ok (w, inr errNoAckFrame)
  | Some ack =>
      let '(encLevel, sealer) := GetSealer cryptoSetup in
      let ph := getPublicHeader encLevel w in
      let w := numberStopWaiting ph w in
      let frames := FAck ack :: match stopWaiting (packer w) !! pathID (pth w) with Some f => [FStopWaiting f] | None => [] end in
      let w := dropAckFrame (dropStopWaiting w) in
      packed ph frames encLevel now (writeAndSealPacket ph frames sealer now rand w)
  end.

Definition PackHandshakeRetransmission (packet : Packet) (now : Z) (rand : option (Z * Z)) (w : world) :
    result (option packedPacket) :=
  let level := EncLevel packet in
  if bool_decide (level = EncryptionForwardSecure) then Ok (w, inr errForwardSecure)
  else
    match GetSealerWithEncryptionLevel cryptoSetup level with
    | inr e => Ok (w, inr e)
    | inl sealer =>
        let ph := getPublicHeader level w in
        let w' := numberStopWaiting ph w in
        match stopWaiting (packer w') !! pathID (pth w') with
        | None => Ok (w, inr errNoStopWaiting)
        | Some f =>
            let frames := FStopWaiting f :: Frames packet in
            packed ph frames level now (writeAndSealPacket ph frames sealer now rand (dropStopWaiting w'))
        end
    end.

(** The STOP_WAITING and the ACK frame of the path, and their length. *)
Definition fixedFrames (w : world) : outcome (list Frame * Z) :=
  let p := packer w in
  '(fs, n) ← (match stopWaiting p !! pathID (pth w) with
              | None => Ok ([], 0)
              | Some f => l ← StopWaitingFrame.MinLength f (version p); Ok ([FStopWaiting f], u64 (0 + l))
              end : outcome (list Frame * Z));
  match ackFrame p !! pathID (pth w) with
  | None => Ok (fs, n)
  | Some f => l ← AckFrame.MinLength f (version p); Ok (fs ++ [FAck f], u64 (n + l))
  end.

Definition composeNextPacket (maxFrameSize : Z) (canSendStreamFrames : bool) (w : world) : result (list Frame) :=
  match fixedFrames w with
  | Panic => Panic
  | Err e => Ok (w, inr e)
  | Ok (payloadFrames, payloadLength) =>
      let p := packer w in
      '(rest, fs, payloadLength, e) ← controlLoop (version p) maxFrameSize payloadLength (reverse (controlFrames p));
      let w := set_packer (set_controlFrames (reverse rest) p) w in
      match e with
      | Some e => Ok (w, inr e)
      | None =>
          let payloadFrames := payloadFrames ++ fs in
          if maxFrameSize <? payloadLength then Ok (w, inr errPayloadTooLarge)
          else if negb canSendStreamFrames then Ok (w, inl payloadFrames)
          else
            let maxFrameSize := u64 (maxFrameSize + 2) in
            '(q, m, f, fs) ← streamFramer.PopStreamFrames cp (u64 (maxFrameSize - payloadLength)) (framer w) (streams w) (flow w);
            let fs := clearLast fs in
            let '(q, cs) := blockedLoop (S (length (streamFramer.blockedFrameQueue q))) q (controlFrames (packer w)) in
            Ok (MkWorld (set_controlFrames cs (packer w)) q m f (pth w), inl (payloadFrames ++ (FStream <$> fs)))
      end
  end.

Definition packCryptoPacket (now : Z) (rand : option (Z * Z)) (w : world) : result (option packedPacket) :=
  let '(encLevel, sealer) := GetSealerForCryptoStream cryptoSetup in
  let ph := getPublicHeader encLevel w in
  match PublicHeader.GetLength ph (perspective (packer w)) with
  | Panic => Panic
  | Err e => Ok (w, inr e)
  | Ok publicHeaderLength =>
      let maxLen := u64 (u64 (u64 (MaxPacketSize - Overhead sealer) - NonForwardSecurePacketSizeReduction) - publicHeaderLength) in
      '(m, f, frame) ← streamFramer.PopCryptoStreamFrame cp lim maxLen (streams w) (flow w);
      let w := MkWorld (packer w) (framer w) m f (pth w) in
      match frame with
      | None => Panic
      | Some frame =>
          let frames := [FStream frame] in
          packed ph frames encLevel now (writeAndSealPacket ph frames sealer now rand w)
      end
  end.

(** The first control frame, when it is a PING frame. *)
Definition popPing (w : world) : option (world * Frame) :=
  match controlFrames (packer w) with
  | FPing f :: cs => Some (set_packer (set_controlFrames cs (packer w)) w, FPing f)
  | _ => None
  end.

(** What PackPacket does with the frames of the payload. *)
Definition finishPacket (ph : PublicHeader) (encLevel : EncryptionLevel) (sealer : Sealer) (now : Z) (rand : option (Z * Z))
    (payloadFrames : list Frame) (w : world) : result (option packedPacket) :=
  if len payloadFrames =? 0 then Ok (w, inl None)
  else if (len payloadFrames =? 1) && bool_decide (is_Some (stopWaiting (packer w) !! pathID (pth w))) then Ok (w, inl None)
  else packed ph payloadFrames encLevel now
         (writeAndSealPacket ph payloadFrames sealer now rand (dropAckFrame (dropStopWaiting w))).

Definition PackPacket (now : Z) (rand : option (Z * Z)) (w : world) : result (option packedPacket) :=
  '(m, f, has) ← streamFramer.HasCryptoStreamFrame cp lim (streams w) (flow w);
  let w := MkWorld (packer w) (framer w) m f (pth w) in
  if (has : bool) then packCryptoPacket now rand w
  else
    let '(encLevel, sealer) := GetSealer cryptoSetup in
    let ph := getPublicHeader encLevel w in
    match PublicHeader.GetLength ph (perspective (packer w)) with
    | Panic => Panic
    | Err e => Ok (w, inr e)
    | Ok publicHeaderLength =>
        let w := numberStopWaiting ph w in
        match popPing w with
        | Some (w, ping) => finishPacket ph encLevel sealer now rand [ping] w
        | None =>
            let maxSize := u64 (u64 (MaxPacketSize - Overhead sealer) - publicHeaderLength) in
            '(w, r) ← composeNextPacket maxSize (canSendData (packer w) encLevel) w;
            match r with
            | inr e => Ok (w, inr e)
            | inl payloadFrames => finishPacket ph encLevel sealer now rand payloadFrames w
            end
        end
    end.

(** [leastUnacked] is what the sent packet handler of the path says. *)
Definition PackPing (pf : PingFrame.PingFrame) (leastUnacked now : Z) (rand : option (Z * Z)) (w : world) :
    result (option packedPacket) :=
  let w := set_pth (SetLeastUnacked leastUnacked (pth w)) w in
  let w := set_packer (set_controlFrames (FPing pf :: controlFrames (packer w)) (packer w)) w in
  PackPacket now rand w.

End packing.

End packetPacker.

(** ** Packet numbers *)
Section numbers.
Import packetNumberGenerator.

(** The numbers of consecutive calls of Pop, with what rand.Read gives in each. *)
Fixpoint numbers (rands : list (option (Z * Z))) (g : packetNumberGenerator) : list Z :=
  match rands with
  | [] => []
  | rand :: rands => let '(g, n) := Pop rand g in n :: numbers rands g
  end.

Lemma Pop_spec rand g : 0 <= next g < 2 ^ 62 → (Pop rand g).2 = Peek g ∧
  next (Pop rand g).1 = next g + (if next g + 1 =? nextToSkip g then 2 else 1) ∧
  averagePeriod (Pop rand g).1 = averagePeriod g ∧
  (nextToSkip (Pop rand g).1 = nextToSkip g ∨
   next g + 1 = nextToSkip g ∧ is_u64 (nextToSkip (Pop rand g).1) ∧
   (1 <= averagePeriod g <= 2 ^ 32 → next g + 4 <= nextToSkip (Pop rand g).1)).
Proof.
  intros Hn. unfold Pop. cbn [next nextToSkip averagePeriod]. rewrite (u64_id (next g + 1)) by (unfold is_u64; lia).
  destruct (Z.eqb_spec (next g + 1) (nextToSkip g)) as [E|E]; cbn; [|auto].
  unfold generateNewSkip. cbn. rewrite (u64_id (next g + 1 + 1)) by (unfold is_u64; lia).
  unfold getRandomNumber. destruct rand as [[b0 b1]|]; cbn; (split; [done|]); (split; [lia|]); (split; [done|]); [|by left].
  right. split; [done|]. split; [apply u64_range|]. intros Ha.
  rewrite (u64_id (next g + 1 + 1 + 2)), (u64_id (averagePeriod g - 1)) by (unfold is_u64; lia).
  set (num := u16 (u16 (b0 ≪ 8) + b1)). assert (0 <= num < 65536) as Hnum by (unfold num, u16; apply Z.mod_pos_bound; lia). clearbody num.
  rewrite (u64_id (num * (averagePeriod g - 1))) by (unfold is_u64; nia).
  change (65535 / 2) with 32767. assert (0 <= num * (averagePeriod g - 1) / 32767 < 2 ^ 62).
  { split; [apply Z.div_pos; nia|]. apply Z.div_lt_upper_bound; nia. }
  rewrite u64_id by (unfold is_u64; lia). lia.
Qed.

(** Packet numbers grow, and at most one number in a row is left out. *)
Lemma numbers_grow rands g i a b : 0 <= next g → next g + 2 * len rands < 2 ^ 62 →
  numbers rands g !! i = Some a → numbers rands g !! S i = Some b → a < b <= a + 2.
Proof.
  revert g i. induction rands as [|rand rands IH]; intros g i H0 Hl; [done|]. cbn [numbers].
  destruct (Pop rand g) as [g' n] eqn:E. rewrite len_cons in Hl. pose proof (len_nonneg rands).
  destruct (Pop_spec rand g ltac:(lia)) as (En & Enext & _). rewrite E in En, Enext. cbn in En, Enext.
  destruct i as [|i]; cbn [lookup list_lookup].
  - destruct rands as [|rand' rands]; [done|]. cbn [numbers]. destruct (Pop rand' g') as [g'' n'] eqn:E'. cbn.
    pose proof (Pop_spec rand' g' ltac:(case_match; lia)) as (En' & _). rewrite E' in En'. cbn in En'. unfold Peek in *.
    intros [= <-] [= <-]. case_match; lia.
  - apply IH; case_match; lia.
Qed.

(** No packet number is ever skipped. A new generator, with any random numbers, gives the
    numbers 1, 2, 3, ... in order: a first number to skip is never chosen, so the
    protection against peers that acknowledge packets they have not received is
    not in effect. *)
Theorem no_number_is_skipped averagePeriod rands i n : len rands < 2 ^ 61 →
  numbers rands (newPacketNumberGenerator averagePeriod) !! i = Some n → n = Z.of_nat i + 1.
Proof.
  intros Hl. assert (∀ rands g i n, 0 < next g → nextToSkip g = 0 → next g + len rands < 2 ^ 62 →
    numbers rands g !! i = Some n → n = next g + Z.of_nat i) as Hgen.
  { clear. induction rands as [|rand rands IH]; intros g i n H0 Hs Hl; [done|]. cbn [numbers]. rewrite len_cons in Hl. pose proof (len_nonneg rands).
    destruct (Pop rand g) as [g' n'] eqn:E. destruct (Pop_spec rand g ltac:(lia)) as (En & Enext & _ & Hskip).
    rewrite E in En, Enext, Hskip. cbn in En, Enext, Hskip. unfold Peek in En. destruct (Z.eqb_spec (next g + 1) (nextToSkip g)); [lia|].
    destruct i as [|i]; cbn; [intros [= <-]; lia|]. intros Ei. apply IH in Ei; [lia|lia| |lia]. destruct Hskip as [->|[? _]]; lia. }
  intros E. apply Hgen in E; cbn in *; lia.
Qed.

Lemma no_number_is_skipped_witness : numbers [Some (1, 2); None; Some (0, 0)] (newPacketNumberGenerator 500) !! 2%nat = Some 3 ∧ 3 = Z.of_nat 2 + 1.
Proof.
  assert (numbers [Some (1, 2); None; Some (0, 0)] (newPacketNumberGenerator 500) !! 2%nat = Some 3) as E by by vm_compute.
  split; [exact E|]. apply (no_number_is_skipped 500 [Some (1, 2); None; Some (0, 0)] 2 3); [by vm_compute|exact E].
Defined.

End numbers.

(** ** Packets on the wire *)
Section packets.
Import protocol packetPacker.
Import PublicHeader (PublicHeader).
Import StreamFrame (StreamFrame).

Context (cp : ConnectionParameters) (lim : StreamLimits) (cryptoSetup : CryptoSetup) (truncate : bool).

(** What the AEAD does to the length. *)
Definition seals (s : Sealer) : Prop := 0 <= Overhead s <= 64 ∧ ∀ p n h, len (Seal s p n h) = len p + Overhead s.

(** The bytes that a frame takes, and the frames of a payload. *)
Definition wireLen (version : Z) (f : Frame) : Z :=
  match frame.MinLength f version with Ok n => n + frame_data_len f | _ => 0 end.
Fixpoint wireLens (version : Z) (fs : list Frame) : Z :=
  match fs with [] => 0 | f :: fs => wireLen version f + wireLens version fs end.

Lemma wireLens_app version fs fs' : wireLens version (fs ++ fs') = wireLens version fs + wireLens version fs'.
Proof. induction fs as [|f fs IH]; cbn; lia. Qed.

Lemma payload_length version now pn pnLen level fs bs : valid_payload pn pnLen level fs → writeFrames version now fs = Ok bs →
  len bs = wireLens version fs.
Proof.
  revert bs. induction fs as [|f fs IH]; intros bs Hv; cbn [writeFrames wireLens]; [by intros [= <-]|]. destruct Hv as (Hf & _ & Hv).
  destruct (frame_reads version now pn pnLen level f Hf) as (fb & tb & fb' & n & -> & _ & _ & _ & Hn & Hl & _).
  destruct (writeFrames version now fs) as [bs'| |]; [|done|done]. intros [= <-]. rewrite len_app, (IH bs' Hv eq_refl).
  unfold wireLen. rewrite Hn. lia.
Qed.

Lemma pn_len_valid pn least : valid_pn_len (GetPacketNumberLengthForPublicHeader pn least).
Proof. unfold GetPacketNumberLengthForPublicHeader, valid_pn_len. repeat case_match; auto. Qed.

(** What makes a header valid. *)
Record header_ok (w : world) : Prop := {
  ho_connection : is_u64 (connectionID (packer w)) ∧ connectionID (packer w) ≠ 0;
  ho_version : 0 <= version (packer w) < 1000;
  ho_truncate : truncate = true → perspective (packer w) = PerspectiveServer;
  ho_nonce : DiversificationNonce cryptoSetup = [] ∨
    length (DiversificationNonce cryptoSetup) = 32%nat ∧ Forall is_byte (DiversificationNonce cryptoSetup);
  ho_path : is_u8 (pathID (pth w));
  ho_number : 0 < packetNumberGenerator.Peek (generator (pth w)) < 2 ^ 48;
}.

Lemma header_valid encLevel w : header_ok w →
  valid_header (getPublicHeader cryptoSetup truncate encLevel w) (version (packer w)) (perspective (packer w)) ∧
  0 <= header_len (getPublicHeader cryptoSetup truncate encLevel w) <= 52.
Proof.
  intros [Hc Hv Ht Hn Hp Hpn]. unfold getPublicHeader, valid_header, header_len. cbn.
  pose proof (pn_len_valid (packetNumberGenerator.Peek (generator (pth w))) (leastUnacked (pth w))) as Hpl.
  set (pl := GetPacketNumberLengthForPublicHeader _ _) in *. clearbody pl.
  assert (1 <= pl <= 6) as Hpl' by (unfold valid_pn_len in Hpl; lia).
  split.
  - split; [apply Hc|]. split; [intros _; apply Hc|]. split; [case_match; [done|apply Ht]|]. split; [done|].
    split; [rewrite andb_true_iff, !bool_decide_eq_true; tauto|]. split; [intros ->; done|].
    split; [unfold VersionUnknown; lia|]. split; [done|]. split; [unfold is_u64; lia|]. split; [case_match; [done|unfold is_u8; lia]|].
    destruct (bool_decide (perspective (packer w) = PerspectiveServer)) eqn:Es; cbn [andb]; [|by left].
    apply bool_decide_eq_true in Es. case_match; [|by left]. destruct Hn as [->|[? ?]]; [by left|by right].
  - assert (0 <= len (DiversificationNonce cryptoSetup) <= 32) as Hl by (destruct Hn as [->|[Hl _]]; unfold len; [cbn|rewrite Hl]; lia).
    repeat case_match; try change (len (@nil Z)) with 0; lia.
Qed.

(** A packet that arrives: it is not larger than allowed, the peer reads its header,
    and the unpacker of the peer, once it has opened the packet, gets the frames. *)
Definition arrives (ph : PublicHeader) (sealer : Sealer) (level : EncryptionLevel) (now : Z) (p : packetPacker) (pkt : packedPacket) : Prop :=
  number pkt = PublicHeader.PacketNumber ph ∧ encryptionLevel pkt = level ∧ len (raw pkt) <= MaxPacketSize ∧
  ∃ header payload, raw pkt = header ++ Seal sealer payload (number pkt) header ∧ Forall is_byte header ∧
    (∀ r, Forall is_byte r → PublicHeader.ParsePublicHeader (perspective p) (version p) (header ++ r) = Ok (header_image ph, r)) ∧
    ∀ Open data, Open data (number pkt) header = Some (payload, level) →
      packetUnpacker.Unpack Open (version p) header (number pkt) (PublicHeader.PacketNumberLen ph) data =
        Some (Ok (level, frame_image now <$> frames pkt)).

Lemma image_written v now f : frame_image now (written v now f) = frame_image now f.
Proof. by destruct f. Qed.

Lemma images_written v now (fs : list Frame) : frame_image now <$> (written v now <$> fs) = frame_image now <$> fs.
Proof. rewrite <- list_fmap_compose. apply list_fmap_ext. intros i f _. apply image_written. Qed.

Lemma unpack_payload v now pn pnLen level fs : valid_payload pn pnLen level fs → fs ≠ [] →
  ∃ bs, writeFrames v now fs = Ok bs ∧ len bs = wireLens v fs ∧ ∀ Open header data, Open data pn header = Some (bs, level) →
    packetUnpacker.Unpack Open v header pn pnLen data = Some (Ok (level, frame_image now <$> fs)).
Proof.
  intros Hv Hne. destruct (payload_reads v now pn pnLen level fs Hv) as (bs & Hw & _ & Hbs & Hread).
  exists bs. split; [done|]. split; [by eapply payload_length|]. intros Open header data HO. unfold packetUnpacker.Unpack. rewrite HO.
  destruct (Z.eqb_spec (len bs) 0) as [E%len_zero|E]; [by destruct Hbs|]. by rewrite Hread.
Qed.

(** Only the packet number of the path changes. *)
Definition numbered (rand : option (Z * Z)) (w : world) : world :=
  set_pth (set_generator (packetNumberGenerator.Pop rand (generator (pth w))).1 (pth w)) w.

Lemma seal_spec ph fs sealer level now rand w : seals sealer → valid_header ph (version (packer w)) (perspective (packer w)) →
  PublicHeader.PacketNumber ph = packetNumberGenerator.Peek (generator (pth w)) →
  valid_payload (PublicHeader.PacketNumber ph) (PublicHeader.PacketNumberLen ph) level fs → fs ≠ [] →
  0 <= wireLens (version (packer w)) fs → 0 <= header_len ph →
  header_len ph + wireLens (version (packer w)) fs + Overhead sealer <= MaxPacketSize →
  ∃ pkt, packed ph fs level now (writeAndSealPacket ph fs sealer now rand w) = Ok (numbered rand w, inl (Some pkt)) ∧
    arrives ph sealer level now (packer w) pkt ∧ frames pkt = written (version (packer w)) now <$> fs.
Proof.
  intros [Ho Hseal] Hh Hn Hv Hne Hw0 Hh0 Hsize. unfold writeAndSealPacket.
  destruct (header_reads ph _ _ Hh) as [(hd & -> & Hhl & Hhb & Hparse) _].
  destruct (unpack_payload (version (packer w)) now _ _ _ fs Hv Hne) as (bs & -> & Hbl & Hun).
  rewrite Hhl, Hbl, u64_id by (unfold is_u64, MaxPacketSize in *; lia).
  destruct (Z.ltb_spec MaxPacketSize (header_len ph + wireLens (version (packer w)) fs + Overhead sealer)); [lia|].
  destruct (packetNumberGenerator.Pop rand (generator (pth w))) as [g num] eqn:Ep.
  assert (num = packetNumberGenerator.Peek (generator (pth w))) as -> by (unfold packetNumberGenerator.Pop in Ep; case_match; by injection Ep).
  rewrite Hn, Z.eqb_refl. cbn [negb]. eexists. split; [unfold numbered; by rewrite Ep|]. split; [|done].
  split; [done|]. split; [done|]. cbn [raw number frames]. split; [rewrite len_app, Hseal; lia|].
  exists hd, bs. rewrite Hn. split; [done|]. split; [done|]. split; [intros r Hr; by apply Hparse|].
  intros Open data HO. rewrite images_written. rewrite Hn in Hun. by apply Hun.
Qed.

(** *** The payload *)

Lemma ack_blocks_small la lo ranges : valid_acks la lo ranges → 0 <= ackRanges.numWritableNackRanges ranges <= 255 ∧
  1 <= ackRanges.getMissingSequenceNumberDeltaLen la lo ranges <= 6.
Proof.
  intros Hv. split; [|unfold ackRanges.getMissingSequenceNumberDeltaLen; repeat case_match; unfold PacketNumberLen1, PacketNumberLen2, PacketNumberLen4, PacketNumberLen6; lia].
  destruct ranges as [|r0 rs]; [cbn; lia|]. destruct Hv as (Hla & H0 & HL & _ & Hb & _).
  destruct (numWritable_val r0 rs) as (_ & _ & ?); [lia|done|lia].
Qed.

Lemma stream_MinLength f version : StreamFrame.MinLength f version = Ok (streamFramer.headerLen f).
Proof. done. Qed.

(** MinLength of a valid frame is defined and small. *)
Lemma min_length_small version pn pnLen level f : valid_frame pn pnLen level f →
  ∃ n, frame.MinLength f version = Ok n ∧ 0 < n <= 4096.
Proof.
  assert (∀ z, 1 <= GetPacketNumberLength z <= 6) as Hpn
    by (intros z; unfold GetPacketNumberLength; repeat case_match; unfold PacketNumberLen1, PacketNumberLen2, PacketNumberLen4, PacketNumberLen6; lia).
  destruct f as [f|f|f|f|f|f|f|f|f|f|f|f]; cbn [valid_frame frame.MinLength].
  - intros _. rewrite stream_MinLength. pose proof (headerLen_bounds f). eexists. split; [done|lia].
  - intros [(_ & Hv & _) _]. destruct (ack_blocks_small _ _ _ Hv) as [Hn Hd]. specialize (Hpn (AckFrame.LargestAcked f)). unfold AckFrame.MinLength.
    eexists. split; [done|]. set (num := ackRanges.numWritableNackRanges _) in *. set (dl := ackRanges.getMissingSequenceNumberDeltaLen _ _ _) in *.
    set (pl := GetPacketNumberLength _) in *. clearbody num dl pl. assert (0 <= (1 + dl) * num <= 1785) by nia.
    rewrite (u64_id (1 + 2 + 1 + pl)), (u64_id ((1 + dl) * num)), (u64_id (1 + 2 + 1 + pl + (1 + dl) * num)), (u64_id (1 + 2 + 1 + pl + dl)) by (unfold is_u64; lia).
    destruct (ackRanges.HasMissingRanges _); rewrite !(u64_id (_ + (1 + 2) * 0)) by (unfold is_u64; lia);
      (destruct (negb _); [rewrite u64_id by (unfold is_u64; lia)|]); lia.
  - eexists. split; [done|lia].
  - intros (_ & _ & ?). eexists. split; [done|]. pose proof (len_nonneg (ConnectionCloseFrame.ReasonPhrase f)). unfold MaxPacketSize in *.
    rewrite u64_id by (unfold is_u64; lia). lia.
  - intros (_ & _ & _ & ?). eexists. split; [done|]. pose proof (len_nonneg (GoawayFrame.ReasonPhrase f)). unfold MaxPacketSize in *.
    rewrite u64_id by (unfold is_u64; lia). lia.
  - eexists. split; [done|lia].
  - eexists. split; [done|lia].
  - intros (_ & E & Hl & _). unfold StopWaitingFrame.MinLength. rewrite E. unfold PacketNumberLenInvalid.
    destruct Hl as [->|[->|[->| ->]]]; eexists; (split; [done|]); vm_compute; split; congruence.
  - eexists. split; [done|lia].
  - intros (_ & _ & [[E _]|[E _]]); unfold AddAddressFrame.MinLength; rewrite E; cbn; eexists; (split; [done|lia]).
  - intros [(_ & Hv & _) _]. destruct (ack_blocks_small _ _ _ Hv) as [Hn Hd]. specialize (Hpn (ClosePathFrame.LargestAcked f)). unfold ClosePathFrame.MinLength.
    eexists. split; [done|]. set (num := ackRanges.numWritableNackRanges _) in *. set (dl := ackRanges.getMissingSequenceNumberDeltaLen _ _ _) in *.
    set (pl := GetPacketNumberLength _) in *. clearbody num dl pl. assert (0 <= (1 + dl) * num <= 1785) by nia.
    rewrite (u64_id (1 + 1 + 1 + pl)), (u64_id ((1 + dl) * num)), (u64_id (1 + 1 + 1 + pl + (1 + dl) * num)), (u64_id (1 + 1 + 1 + pl + dl)) by (unfold is_u64; lia).
    destruct (ackRanges.HasMissingRanges _); lia.
  - intros [(? & ? & _ & ? & ?) ?]. eexists. split; [done|]. pose proof (len_nonneg (PathsFrame.PathIDs f)). zlia.
Qed.

(** Frames that do not depend on what follows them. *)
Definition plain (f : Frame) : Prop := match f with FStream _ => False | _ => True end.

Section valid.
Context (v pn pnLen : Z) (level : EncryptionLevel).
Notation valid f := (valid_frame pn pnLen level f).

Lemma valid_payload_app fs fs' : Forall (λ f, valid f ∧ plain f) fs → valid_payload pn pnLen level fs' → valid_payload pn pnLen level (fs ++ fs').
Proof.
  intros H Hv. induction H as [|f fs [Hf Hp] _ IH]; [done|]. cbn. split; [done|]. split; [|done]. intros _ r. by destruct f.
Qed.

Lemma wireLen_plain f : valid f → plain f → ∃ n, frame.MinLength f v = Ok n ∧ wireLen v f = n ∧ 0 < n <= 4096.
Proof.
  intros Hv Hp. destruct (min_length_small v pn pnLen level f Hv) as (n & E & Hn). exists n. split; [done|]. split; [|done].
  unfold wireLen. rewrite E. destruct f; cbn; done || lia.
Qed.

(** The control frames, as many as fit. *)
Lemma controlLoop_spec maxSize n0 cs : 0 <= n0 <= 2 ^ 32 → maxSize <= 2 ^ 32 → Forall (λ f, valid f ∧ plain f) cs →
  ∃ rest fs, controlLoop v maxSize n0 cs = Ok (rest, fs, n0 + wireLens v fs, None) ∧ cs = fs ++ rest ∧
    (n0 <= maxSize → n0 + wireLens v fs <= maxSize) ∧ 0 <= wireLens v fs.
Proof.
  revert n0. induction cs as [|f cs IH]; intros n0 Hn Hm Hc; cbn [controlLoop].
  { exists [], []. cbn [wireLens]. rewrite Z.add_0_r. split; [done|]. split; [done|]. split; [done|lia]. }
  apply Forall_cons in Hc as [[Hv Hp] Hc]. destruct (wireLen_plain f Hv Hp) as (n & -> & Ew & Hn').
  rewrite u64_id by (unfold is_u64; lia). destruct (Z.ltb_spec maxSize (n0 + n)).
  { exists (f :: cs), []. cbn [wireLens]. rewrite Z.add_0_r. split; [done|]. split; [done|]. split; [done|lia]. }
  destruct (IH (n0 + n) ltac:(lia) Hm Hc) as (rest & fs & -> & -> & Hle & H0). exists rest, (f :: fs). cbn [wireLens mbind outcome_bind].
  rewrite Ew. split; [do 3 f_equal; lia|]. split; [done|]. split; [intros _; specialize (Hle ltac:(lia)); lia|lia].
Qed.

(** The STREAM frames: the last one loses its length field. *)
Lemma clearLast_snoc fs x : clearLast (fs ++ [x]) = fs ++ [streamFramer.set_DataLenPresent false x].
Proof.
  unfold clearLast. rewrite last_snoc, length_app. cbn [length]. replace (length fs + 1 - 1)%nat with (length fs) by lia.
  by rewrite take_app_length.
Qed.

Lemma stream_wireLens fs : wireLens v (FStream <$> fs) = totalLen fs.
Proof. induction fs as [|fr fs IH]; [done|]. cbn [wireLens totalLen fmap list_fmap]. by rewrite <- IH. Qed.

Definition wire_frame (fr : StreamFrame) : Prop := is_u32 (StreamFrame.StreamID fr) ∧ Forall is_byte (StreamFrame.Data fr).

Lemma totalLen_elem fr fs : fr ∈ fs → frameLen fr <= totalLen fs.
Proof.
  induction fs as [|fr' fs IH]; [by intros ?%elem_of_nil|]. intros [->|Hin]%elem_of_cons; cbn [totalLen].
  - pose proof (totalLen_nonneg fs). lia.
  - specialize (IH Hin). pose proof (headerLen_bounds fr'). pose proof (len_nonneg (StreamFrame.Data fr')). unfold frameLen at 2. lia.
Qed.

Lemma totalLen_pos fs : fs ≠ [] → 2 <= totalLen fs.
Proof.
  destruct fs as [|fr fs]; [done|]. intros _. cbn [totalLen]. pose proof (totalLen_nonneg fs). pose proof (headerLen_bounds fr).
  pose proof (len_nonneg (StreamFrame.Data fr)). unfold frameLen. lia.
Qed.

Lemma stream_frame_valid fr b : well_framed fr → wire_frame fr → len (StreamFrame.Data fr) <= MaxPacketSize →
  encryption_rank EncryptionUnencrypted < encryption_rank level →
  valid (FStream (streamFramer.set_DataLenPresent b fr)).
Proof.
  intros (Hm & [Ho Hs] & _) [Hid Hb] Hl Hlev. cbn [valid_frame]. split; [|by right]. unfold valid_stream_frame. cbn.
  pose proof (len_nonneg (StreamFrame.Data fr)).
  split; [done|]. split; [unfold is_u64; lia|]. split; [done|]. split; [lia|]. split; [|unfold MaxPacketSize in *; case_match; lia].
  intros E. by destruct Hm.
Qed.

Lemma stream_payload fs : Forall well_framed fs → Forall wire_frame fs → totalLen fs <= MaxPacketSize + 2 →
  encryption_rank EncryptionUnencrypted < encryption_rank level →
  valid_payload pn pnLen level (FStream <$> clearLast fs) ∧
  wireLens v (FStream <$> clearLast fs) = totalLen fs - (if bool_decide (fs = []) then 0 else 2).
Proof.
  intros Hwf Hwi Ht Hlev. destruct fs as [|x fs _] using rev_ind; [done|]. rewrite clearLast_snoc, bool_decide_eq_false_2 by (by destruct fs).
  assert (∀ fr, fr ∈ fs ++ [x] → len (StreamFrame.Data fr) <= MaxPacketSize) as Hlen.
  { intros fr Hin%totalLen_elem. pose proof (headerLen_bounds fr). unfold frameLen in Hin. lia. }
  apply Forall_app in Hwf as [Hwf Hx], Hwi as [Hwi Hx']. apply Forall_cons in Hx as [Hx _], Hx' as [Hx' _]. split.
  - clear Ht. rewrite fmap_app. cbn [fmap list_fmap]. induction fs as [|fr fs IH].
    + cbn [app valid_payload]. split; [|split; [by intros ?|done]]. apply stream_frame_valid; try done. apply Hlen. by left.
    + apply Forall_cons in Hwf as [Hfr Hwf], Hwi as [Hwi1 Hwi]. cbn [app valid_payload fmap list_fmap]. split; [|split].
      * assert (streamFramer.set_DataLenPresent true fr = fr) as <- by (destruct fr, Hfr as (_ & _ & E); cbn in E; by subst).
        apply stream_frame_valid; try done. apply Hlen. by left.
      * intros _ r. cbn. unfold stream_rest. destruct Hfr as (_ & _ & ->). done.
      * apply IH; [done|done|]. intros fr' Hin. apply Hlen. by right.
  - rewrite stream_wireLens, !totalLen_app. cbn [totalLen]. unfold frameLen. rewrite headerLen_DataLenPresent by apply Hx. cbn. lia.
Qed.

End valid.

Lemma blockedLoop_spec n q cs : (length (streamFramer.blockedFrameQueue q) < n)%nat →
  blockedLoop n q cs = (streamFramer.set_blockedFrameQueue [] q, cs ++ (FBlocked <$> streamFramer.blockedFrameQueue q)).
Proof.
  revert q cs. induction n as [|n IH]; intros q cs Hn; [lia|]. cbn [blockedLoop]. unfold streamFramer.PopBlockedFrame.
  destruct (streamFramer.blockedFrameQueue q) as [|b bl] eqn:E.
  - cbn. rewrite app_nil_r. f_equal. destruct q. cbn in E. by subst.
  - rewrite IH by (cbn in *; lia). cbn. rewrite <- app_assoc. done.
Qed.

(** *** Composing *)

Definition wire_stream (s : stream.stream) : Prop :=
  is_u32 (stream.streamID s) ∧ Forall is_byte (default [] (stream.dataForWriting s)).

(** The STOP_WAITING and the ACK frame that wait on the path. *)
Definition fixedList (w : world) : list Frame :=
  match stopWaiting (packer w) !! pathID (pth w) with Some f => [FStopWaiting f] | None => [] end ++
  match ackFrame (packer w) !! pathID (pth w) with Some f => [FAck f] | None => [] end.

Record framing_ok (w : world) : Prop := {
  fk_framer : framer_ok (framer w) (streams w);
  fk_queue : Forall wire_frame (streamFramer.retransmissionQueue (framer w));
  fk_streams : map_Forall (λ _ s, wire_stream s) (streamsMap.streams (streams w));
}.

Lemma wire_split fr n a b : wire_frame fr → 0 < n → streamFramer.maybeSplitOffFrame fr n = Some (a, b) → wire_frame a ∧ wire_frame b.
Proof.
  intros [Hid Hb] _. unfold streamFramer.maybeSplitOffFrame. case_match; [done|]. intros [= <- <-].
  split; (split; [done|]); cbn; [by apply Forall_take|by apply Forall_drop].
Qed.

Lemma wire_take s s' data : wire_stream s → took s s' data → wire_frame (popped s s' data) ∧ wire_stream (finned s').
Proof.
  intros [Hid Hb] [Ei _ Ew _ _ _ _]. rewrite Ew in Hb. apply Forall_app in Hb as [Hd Hr]. split; [by split|].
  unfold wire_stream. rewrite finned_id, Ei. split; [done|]. unfold finned. by case_match.
Qed.

Lemma fixedFrames_spec pn pnLen level w : Forall (λ f, valid_frame pn pnLen level f ∧ plain f) (fixedList w) →
  fixedFrames w = Ok (fixedList w, wireLens (version (packer w)) (fixedList w)) ∧ 0 <= wireLens (version (packer w)) (fixedList w) <= 8192.
Proof.
  unfold fixedFrames, fixedList. set (v := version (packer w)). intros Hf. apply Forall_app in Hf as [Hf1 Hf2].
  destruct (stopWaiting (packer w) !! pathID (pth w)) as [f|], (ackFrame (packer w) !! pathID (pth w)) as [g|]; cbn [app].
  - apply Forall_cons in Hf1 as [[Hf1 _] _], Hf2 as [[Hf2 _] _].
    destruct (wireLen_plain v _ _ _ _ Hf1 I) as (n & E1 & W1 & Hn), (wireLen_plain v _ _ _ _ Hf2 I) as (k & E2 & W2 & Hk). cbn [frame.MinLength] in E1, E2.
    rewrite E1. cbn [mbind outcome_bind]. rewrite E2. cbn [mbind outcome_bind wireLens app]. rewrite W1, W2, (u64_id (0 + n)), u64_id by (unfold is_u64; lia).
    split; [do 2 f_equal; lia|lia].
  - apply Forall_cons in Hf1 as [[Hf1 _] _]. destruct (wireLen_plain v _ _ _ _ Hf1 I) as (n & E1 & W1 & Hn). cbn [frame.MinLength] in E1.
    rewrite E1. cbn [mbind outcome_bind wireLens]. rewrite W1, (u64_id (0 + n)) by (unfold is_u64; lia). split; [do 2 f_equal; lia|lia].
  - apply Forall_cons in Hf2 as [[Hf2 _] _]. destruct (wireLen_plain v _ _ _ _ Hf2 I) as (k & E2 & W2 & Hk). cbn [frame.MinLength] in E2.
    cbn [mbind outcome_bind]. rewrite E2. cbn [mbind outcome_bind wireLens app]. rewrite W2, u64_id by (unfold is_u64; lia). split; [do 2 f_equal; lia|lia].
  - cbn. split; [done|lia].
Qed.

Lemma composeNextPacket_spec pn pnLen level maxSize can w : Forall (λ f, valid_frame pn pnLen level f ∧ plain f) (fixedList w) →
  Forall (λ f, valid_frame pn pnLen level f ∧ plain f) (controlFrames (packer w)) → framing_ok w →
  wireLens (version (packer w)) (fixedList w) <= maxSize → maxSize <= MaxPacketSize →
  (can = true → encryption_rank EncryptionUnencrypted < encryption_rank level) →
  ∃ w' taken rest sf bl, composeNextPacket cp maxSize can w = Ok (w', inl (fixedList w ++ taken ++ (FStream <$> sf))) ∧
    controlFrames (packer w) = reverse rest ++ reverse taken ∧
    packer w' = set_controlFrames (reverse rest ++ (FBlocked <$> bl)) (packer w) ∧ pth w' = pth w ∧
    valid_payload pn pnLen level (fixedList w ++ taken ++ (FStream <$> sf)) ∧
    0 <= wireLens (version (packer w)) (fixedList w ++ taken ++ (FStream <$> sf)) <= maxSize ∧
    framing_ok w' ∧ (sf ≠ [] → can = true).
Proof.
  intros Hfix Hctl [Hfr Hq Hst] Hle Hmax Hlev. unfold composeNextPacket. set (v := version (packer w)) in *.
  destruct (fixedFrames_spec _ _ _ _ Hfix) as [-> H0]. fold v in H0 |- *. cbv beta iota zeta.
  destruct (controlLoop_spec v pn pnLen level maxSize (wireLens v (fixedList w)) (reverse (controlFrames (packer w))))
    as (rest & taken & -> & Erev & Hle' & Ht0); [lia|unfold MaxPacketSize in *; lia|by apply Forall_reverse|].
  specialize (Hle' Hle). assert (controlFrames (packer w) = reverse rest ++ reverse taken) as Ectl.
  { rewrite <- (reverse_involutive (controlFrames (packer w))), Erev. by rewrite reverse_app. }
  assert (Forall (λ f, valid_frame pn pnLen level f ∧ plain f) taken) as Htk.
  { assert (Forall (λ f, valid_frame pn pnLen level f ∧ plain f) (reverse (controlFrames (packer w)))) as H by by apply Forall_reverse.
    rewrite Erev in H. by apply Forall_app in H as [? _]. }
  cbn [mbind outcome_bind]. destruct (Z.ltb_spec maxSize (wireLens v (fixedList w) + wireLens v taken)); [lia|].
  destruct can; cbn [negb].
  - specialize (Hlev eq_refl). unfold MaxPacketSize in Hmax. rewrite (u64_id (maxSize + 2)), (u64_id (_ - _)) by (unfold is_u64; lia).
    set (room := maxSize + 2 - (wireLens v (fixedList w) + wireLens v taken)). assert (2 <= room <= 1352) as Hroom by (unfold room; lia).
    destruct (PopStreamFrames_spec cp room (framer w) (streams w) (flow w) Hfr ltac:(lia)) as (q' & m' & f' & old & new & E & Htot & Hwf & _ & Hok & _).
    cbn [set_packer framer streams flow]. rewrite E. cbn [mbind outcome_bind].
    destruct (PopStreamFrames_forall cp wire_frame wire_stream (λ fr b H, H) wire_split wire_take room _ _ _ _ _ _ _ Hfr ltac:(lia) Hq Hst E) as (Hwi & Hq' & Hst').
    rewrite blockedLoop_spec by lia. cbn [packer set_packer pth]. rewrite <- app_assoc.
    destruct (stream_payload v pn pnLen level (old ++ new) Hwf Hwi ltac:(unfold MaxPacketSize; lia) Hlev) as [Hvp Hsl].
    eexists _, taken, rest, (clearLast (old ++ new)), _. split; [done|]. split; [done|]. split; [done|]. split; [done|].
    split; [by apply valid_payload_app; [|apply valid_payload_app]|].
    rewrite !wireLens_app, Hsl. pose proof (totalLen_pos (old ++ new)).
    split; [case_bool_decide as Eb; [rewrite Eb; cbn [totalLen]; lia|unfold room in *; specialize (H1 Eb); lia]|].
    split; [|done]. split; [destruct Hok; by constructor|done|done].
  - eexists _, taken, rest, [], []. cbn [fmap list_fmap]. rewrite !app_nil_r. split; [done|]. split; [done|]. split; [done|]. split; [done|].
    split; [rewrite <- (app_nil_r taken); by apply valid_payload_app; [|apply valid_payload_app]|]. rewrite wireLens_app. split; [lia|]. split; [|done].
    by constructor.
Qed.

(** *** Packing *)

(** What waits to be sent is valid: the control frames, the ACK and the STOP_WAITING frame of the
    path, and the data of the streams. *)
Record packer_ok (w : world) : Prop := {
  pk_header : header_ok w;
  pk_framing : framing_ok w;
  pk_control : Forall (λ f, (∀ pn pnLen level, valid_frame pn pnLen level f) ∧ plain f) (controlFrames (packer w));
  pk_ack f : ackFrame (packer w) !! pathID (pth w) = Some f → valid_ack_frame f ∧ first_gap_fits (AckFrame.AckRanges f);
  pk_stop f : stopWaiting (packer w) !! pathID (pth w) = Some f →
    1 <= StopWaitingFrame.LeastUnacked f ∧
    0 <= leastUnacked (pth w) <= StopWaitingFrame.LeastUnacked f ∧
    StopWaitingFrame.LeastUnacked f <= packetNumberGenerator.Peek (generator (pth w));
}.

Lemma stop_waiting_fits pn least lu : 0 <= least <= lu → lu <= pn < 2 ^ 48 →
  pn - lu < 2 ^ (8 * GetPacketNumberLengthForPublicHeader pn least).
Proof.
  intros Hl Hp. unfold GetPacketNumberLengthForPublicHeader, PacketNumberLen2, PacketNumberLen4, PacketNumberLen6.
  rewrite u64_id by (unfold is_u64; lia). change (2 ≪ (2 * 8 - 2)) with 32768. change (2 ≪ (4 * 8 - 2)) with 2147483648.
  repeat case_match; repeat case_bool; lia.
Qed.

Lemma numbered_same ph w : pth (numberStopWaiting ph w) = pth w ∧ framer (numberStopWaiting ph w) = framer w ∧
  streams (numberStopWaiting ph w) = streams w ∧ flow (numberStopWaiting ph w) = flow w ∧
  packer (numberStopWaiting ph w) = set_stopWaiting (stopWaiting (packer (numberStopWaiting ph w))) (packer w).
Proof. unfold numberStopWaiting. case_match; [done|]. by destruct w as [[] ? ? ? ?]. Qed.

Lemma numbered_fixed level w : packer_ok w → let ph := getPublicHeader cryptoSetup truncate level w in
  Forall (λ f, valid_frame (PublicHeader.PacketNumber ph) (PublicHeader.PacketNumberLen ph) level f ∧ plain f) (fixedList (numberStopWaiting ph w)).
Proof.
  intros [Hh _ _ Hack Hstop] ph. unfold fixedList. destruct (numbered_same ph w) as (-> & _ & _ & _ & Ep). apply Forall_app. split.
  - unfold numberStopWaiting. destruct (stopWaiting (packer w) !! pathID (pth w)) as [f|] eqn:E; [|rewrite E; constructor].
    cbn [packer set_packer set_stopWaiting stopWaiting]. rewrite lookup_insert_eq. constructor; [|constructor]. split; [|done].
    destruct (Hstop f eq_refl) as [H1 H2]. pose proof (ho_number w Hh) as Hpn. cbn [valid_frame]. unfold valid_stop_waiting. cbn.
    split; [done|]. split; [done|]. split; [apply pn_len_valid|]. split; [lia|]. split; [lia|]. apply stop_waiting_fits; lia.
  - rewrite Ep. cbn. destruct (ackFrame (packer w) !! pathID (pth w)) as [f|]; [|constructor]. constructor; [|constructor]. split; [|done]. by apply Hack.
Qed.

(** The end of PackPacket. *)
Lemma finish_spec ph level sealer now rand fs w : seals sealer → valid_header ph (version (packer w)) (perspective (packer w)) →
  PublicHeader.PacketNumber ph = packetNumberGenerator.Peek (generator (pth w)) →
  valid_payload (PublicHeader.PacketNumber ph) (PublicHeader.PacketNumberLen ph) level fs →
  0 <= wireLens (version (packer w)) fs → 0 <= header_len ph →
  header_len ph + wireLens (version (packer w)) fs + Overhead sealer <= MaxPacketSize →
  (fs = [] ∨ len fs = 1 ∧ is_Some (stopWaiting (packer w) !! pathID (pth w))) ∧
    finishPacket ph level sealer now rand fs w = Ok (w, inl None) ∨
  ∃ pkt, finishPacket ph level sealer now rand fs w = Ok (numbered rand (dropAckFrame (dropStopWaiting w)), inl (Some pkt)) ∧
    arrives ph sealer level now (packer w) pkt ∧ frames pkt = written (version (packer w)) now <$> fs.
Proof.
  intros Hs Hh Hn Hv H0 Hh0 Hle. unfold finishPacket. destruct (Z.eqb_spec (len fs) 0) as [E%len_zero|E]; [left; split; [by left|done]|].
  destruct ((len fs =? 1) && _) eqn:E1.
  { apply andb_true_iff in E1 as [E1%Z.eqb_eq E2%bool_decide_eq_true]. left. split; [by right|done]. }
  right. destruct (seal_spec ph fs sealer level now rand (dropAckFrame (dropStopWaiting w))) as (pkt & E' & Ha & Hf); try done.
  - by intros ->.
  - by exists pkt.
Qed.

Lemma GetOrOpen_present m f cs : streamsMap.streams m !! 1 = Some cs → streamsMap.GetOrOpenStream cp lim 1 m f = (m, f, inl (Some cs)).
Proof. intros E. unfold streamsMap.GetOrOpenStream. by rewrite E. Qed.

(** A frame of the crypto stream. *)
Lemma crypto_frame maxLen w cs : framing_ok w → streamsMap.streams (streams w) !! 1 = Some cs → stream.lenOfDataForWriting cs ≠ 0 →
  100 <= maxLen <= MaxPacketSize → ∃ m' fr, streamFramer.PopCryptoStreamFrame cp lim maxLen (streams w) (flow w) = Ok (m', flow w, Some fr) ∧
    StreamFrame.StreamID fr = 1 ∧ (∀ pn pnLen level, valid_payload pn pnLen level [FStream fr]) ∧
    (∀ v, wireLens v [FStream fr] = frameLen fr) ∧ 0 <= frameLen fr <= maxLen.
Proof.
  unfold MaxPacketSize. intros [Hfr _ Hst] E Hl Hm. pose proof (Hst _ _ E) as [_ Hb]. cbn in Hb. pose proof (fo_streams _ _ Hfr _ _ E) as Hsm. cbn in Hsm.
  unfold streamFramer.PopCryptoStreamFrame, streamFramer.HasCryptoStreamFrame. rewrite (GetOrOpen_present _ _ _ E). cbn [mbind outcome_bind].
  assert (0 <= stream.lenOfDataForWriting cs) as Hl0 by (unfold stream.lenOfDataForWriting; case_match; [lia|apply u64_range]).
  destruct (Z.ltb_spec 0 (stream.lenOfDataForWriting cs)); [|lia]. cbn [negb]. rewrite (GetOrOpen_present _ _ _ E).
  set (f0 := StreamFrame.MkStreamFrame 1 false false (stream.writeOffset cs) []). pose proof (headerLen_bounds f0) as Hh.
  rewrite u64_id by (unfold is_u64; lia).
  destruct (take_spec cs (maxLen - streamFramer.headerLen f0) Hsm ltac:(lia) Hl) as (s' & data & -> & Hne & Hle & Ht). cbn [default].
  set (fr := StreamFrame.MkStreamFrame 1 false false (stream.writeOffset cs) data). eexists _, fr. split; [done|]. split; [done|].
  destruct Hsm as [H0 H1]. rewrite (tk_waiting _ _ _ Ht) in Hb, H1. apply Forall_app in Hb as [Hb _]. rewrite len_app in H1.
  pose proof (len_nonneg data). pose proof (len_nonneg (default [] (stream.dataForWriting s'))).
  assert (frameLen fr = streamFramer.headerLen f0 + len data) as Ef by (unfold frameLen; f_equal; by apply headerLen_ext).
  split; [|split; [intros v; cbn [wireLens]; rewrite Z.add_0_r; done|lia]].
  intros pn pnLen level. cbn [valid_payload valid_frame]. split; [|by split]. split; [|by left]. unfold valid_stream_frame. cbn.
  split; [unfold is_u32; lia|]. split; [unfold is_u64; lia|]. split; [done|]. split; [lia|]. split; [done|lia].
Qed.

Lemma canSend_level p level : canSendData p level = true → encryption_rank EncryptionUnencrypted < encryption_rank level.
Proof. unfold canSendData. destruct (perspective p), level; try done; cbn; lia. Qed.

(** The encryption level and the sealer of the next packet. *)
Definition chosen (cs : stream.stream) : EncryptionLevel * Sealer :=
  if 0 <? stream.lenOfDataForWriting cs then GetSealerForCryptoStream cryptoSetup else GetSealer cryptoSetup.

(** Only data of the crypto stream is in packets at a level that does not allow data. *)
Definition data_protected (p : packetPacker) (pkt : packedPacket) : Prop :=
  ∀ fr, FStream fr ∈ frames pkt → StreamFrame.StreamID fr ≠ 1 → canSendData p (encryptionLevel pkt) = true.

Lemma written_stream v now (fs : list Frame) fr : FStream fr ∈ written v now <$> fs → FStream fr ∈ fs.
Proof. intros (f & E & Hin)%list_elem_of_fmap. destruct f; try done. by injection E as ->. Qed.

Lemma PackPacket_crypto now rand w cs : packer_ok w → streamsMap.streams (streams w) !! 1 = Some cs → stream.lenOfDataForWriting cs ≠ 0 →
  seals (GetSealerForCryptoStream cryptoSetup).2 →
  let level := (GetSealerForCryptoStream cryptoSetup).1 in
  ∃ w' pkt, packCryptoPacket cp lim cryptoSetup truncate now rand w = Ok (w', inl (Some pkt)) ∧ packer w' = packer w ∧
    arrives (getPublicHeader cryptoSetup truncate level w) (GetSealerForCryptoStream cryptoSetup).2 level now (packer w) pkt ∧ data_protected (packer w) pkt.
Proof.
  intros [Hh Hf _ _ _] E Hl Hs. unfold packCryptoPacket. destruct (GetSealerForCryptoStream cryptoSetup) as [level sealer]. cbn [fst snd] in *.
  set (ph := getPublicHeader cryptoSetup truncate level w). destruct (header_valid level w Hh) as [Hv Hhl]. fold ph in Hv, Hhl.
  destruct (header_reads ph _ _ Hv) as [_ ->]. pose proof Hs as [Ho _]. unfold NonForwardSecurePacketSizeReduction, MaxPacketSize.
  rewrite (u64_id (1350 - _)), (u64_id (_ - 50)), (u64_id (_ - header_len ph)) by (unfold is_u64; lia).
  destruct (crypto_frame (1350 - Overhead sealer - 50 - header_len ph) w cs Hf E Hl) as (m' & fr & -> & Hid & Hvp & Hwl & Hfl);
    [unfold MaxPacketSize; lia|]. cbn [mbind outcome_bind]. set (w1 := MkWorld (packer w) (framer w) m' (flow w) (pth w)).
  destruct (seal_spec ph [FStream fr] sealer level now rand w1) as (pkt & Ep & Ha & Hfr); try done.
  - rewrite Hwl. lia.
  - lia.
  - rewrite Hwl. unfold MaxPacketSize. lia.
  - exists (numbered rand w1), pkt. split; [done|]. split; [done|]. split; [done|]. intros fr' Hin Hne. rewrite Hfr in Hin.
    apply written_stream, list_elem_of_singleton in Hin. injection Hin as ->. done.
Qed.

(** PackPacket without data of the crypto stream and without a PING frame at the front. *)
Definition packs (now : Z) (ph : PublicHeader) (sealer : Sealer) (level : EncryptionLevel) (w w' : world) (r : option packedPacket) : Prop :=
  ∃ taken rest sf bl, controlFrames (packer w) = reverse rest ++ reverse taken ∧
    controlFrames (packer w') = reverse rest ++ (FBlocked <$> bl) ∧ (sf ≠ [] → canSendData (packer w) level = true) ∧
    match r with
    | None => taken = [] ∧ sf = [] ∧ ackFrame (packer w) !! pathID (pth w) = None ∧
        stopWaiting (packer w') = stopWaiting (packer (numberStopWaiting ph w)) ∧ ackFrame (packer w') = ackFrame (packer w)
    | Some pkt => arrives ph sealer level now (packer w) pkt ∧
        frames pkt = written (version (packer w)) now <$> (fixedList (numberStopWaiting ph w) ++ taken ++ (FStream <$> sf))
    end.

Lemma PackPacket_packs now rand w level sealer ph : packer_ok w → seals sealer → ph = getPublicHeader cryptoSetup truncate level w →
  header_len ph + wireLens (version (packer w)) (fixedList (numberStopWaiting ph w)) + Overhead sealer <= MaxPacketSize →
  ∃ w' r, ('(w, r) ← composeNextPacket cp (u64 (u64 (MaxPacketSize - Overhead sealer) - header_len ph)) (canSendData (packer w) level) (numberStopWaiting ph w);
     match r with inr e => Ok (w, inr e) | inl fs => finishPacket ph level sealer now rand fs w end) = Ok (w', inl r) ∧
    packs now ph sealer level w w' r.
Proof.
  intros Hok Hs Eph Hfit. pose proof Hok as [Hh [Hf1 Hf2 Hf3] Hctl _ _]. destruct (header_valid level w Hh) as [Hv Hhl]. pose proof Hs as [Ho _].
  pose proof (numbered_fixed level w Hok) as Hfix. cbv zeta in Hfix. rewrite <- Eph in Hv, Hhl, Hfix.
  destruct (numbered_same ph w) as (E1 & E2 & E3 & E4 & E5). set (w1 := numberStopWaiting ph w) in *.
  assert (version (packer w1) = version (packer w) ∧ perspective (packer w1) = perspective (packer w) ∧ controlFrames (packer w1) = controlFrames (packer w) ∧
    ackFrame (packer w1) = ackFrame (packer w)) as (Ev & Ep & Ec & Ea) by (rewrite E5; done).
  unfold MaxPacketSize in Hfit |- *. destruct (fixedFrames_spec _ _ _ _ Hfix) as [_ H0]. rewrite Ev in H0.
  rewrite (u64_id (1350 - _)), (u64_id (_ - header_len ph)) by (unfold is_u64; lia).
  destruct (composeNextPacket_spec (PublicHeader.PacketNumber ph) (PublicHeader.PacketNumberLen ph) level (1350 - Overhead sealer - header_len ph)
    (canSendData (packer w) level) w1) as (w2 & taken & rest & sf & bl & -> & Ectl & Epk & Epth & Hvp & Hwl & _ & Hsf); try done.
  { rewrite Ec. eapply Forall_impl; [exact Hctl|]. intros f [? ?]. split; [done|done]. }
  { constructor; rewrite ?E2, ?E3; done. }
  { rewrite Ev. lia. }
  { unfold MaxPacketSize. lia. }
  { apply canSend_level. }
  cbn [mbind outcome_bind]. rewrite Ec in Ectl.
  assert (version (packer w2) = version (packer w) ∧ perspective (packer w2) = perspective (packer w) ∧ stopWaiting (packer w2) = stopWaiting (packer w1) ∧
    ackFrame (packer w2) = ackFrame (packer w)) as (Ev2 & Ep2 & Es2 & Ea2) by (rewrite Epk; cbn; by rewrite Ev, Ep).
  rewrite Ev in Hwl. destruct (finish_spec ph level sealer now rand (fixedList w1 ++ taken ++ (FStream <$> sf)) w2) as [[Hnone ->]|(pkt & -> & Harr & Hfr)];
    rewrite ?Ev2, ?Ep2, ?Epth, ?E1; try done; [rewrite Eph; done|lia|lia|unfold MaxPacketSize; lia| |].
  - exists w2, None. split; [done|]. exists taken, rest, sf, bl. split; [done|]. split; [by rewrite Epk|]. split; [done|].
    rewrite Es2, Ea2, Epth, E1 in *. unfold fixedList in Hnone. rewrite Ea, E1 in Hnone.
    destruct (stopWaiting (packer w1) !! pathID (pth w)) as [fs|], (ackFrame (packer w) !! pathID (pth w)) as [fa|]; cbn [app] in Hnone.
    + destruct Hnone as [?|[Hl _]]; [done|]. rewrite !len_cons in Hl. pose proof (len_nonneg (taken ++ (FStream <$> sf))). lia.
    + destruct Hnone as [?|[Hl _]]; [done|]. rewrite len_cons in Hl. assert (taken ++ (FStream <$> sf) = []) as [-> Hn]%app_nil by (apply len_zero; lia).
      apply fmap_nil_inv in Hn. done.
    + destruct Hnone as [?|[_ [? ?]]]; done.
    + destruct Hnone as [[-> Hn%fmap_nil_inv]%app_nil|[_ [? ?]]]; done.
  - exists (numbered rand (dropAckFrame (dropStopWaiting w2))), (Some pkt). split; [done|]. exists taken, rest, sf, bl. split; [done|]. split; [cbn; by rewrite Epk|].
    split; [done|]. split; [|by rewrite Ev2 in Hfr]. unfold arrives in *. by rewrite Ev2, Ep2 in Harr.
Qed.

Lemma packs_protected now ph sealer level w w' pkt : Forall plain (fixedList (numberStopWaiting ph w)) → Forall plain (controlFrames (packer w)) →
  packs now ph sealer level w w' (Some pkt) → data_protected (packer w) pkt.
Proof.
  intros Hf Hc (taken & rest & sf & bl & Ec & _ & Hsf & (_ & El & _) & Hfr) fr Hin _. rewrite El. rewrite Hfr in Hin.
  apply written_stream in Hin. rewrite Ec in Hc. apply Forall_app in Hc as [_ Hc%Forall_reverse]. rewrite reverse_involutive in Hc. rewrite Forall_forall in Hf. rewrite Forall_forall in Hc.
  apply elem_of_app in Hin as [Hin|[Hin|Hin]%elem_of_app]; [by specialize (Hf _ Hin)|by specialize (Hc _ Hin)|].
  apply Hsf. by destruct sf; [apply elem_of_nil in Hin|].
Qed.

(** PackPacket in its three cases. *)
Lemma PackPacket_cases now rand w cs : streamsMap.streams (streams w) !! 1 = Some cs →
  let level := (GetSealer cryptoSetup).1 in let sealer := (GetSealer cryptoSetup).2 in
  let ph := getPublicHeader cryptoSetup truncate level w in header_ok w →
  PackPacket cp lim cryptoSetup truncate now rand w =
  if 0 <? stream.lenOfDataForWriting cs then packCryptoPacket cp lim cryptoSetup truncate now rand w
  else match popPing (numberStopWaiting ph w) with
       | Some (w, ping) => finishPacket ph level sealer now rand [ping] w
       | None =>
           '(w, r) ← composeNextPacket cp (u64 (u64 (MaxPacketSize - Overhead sealer) - header_len ph)) (canSendData (packer w) level) (numberStopWaiting ph w);
           match r with inr e => Ok (w, inr e) | inl fs => finishPacket ph level sealer now rand fs w end
       end.
Proof.
  intros E level sealer ph Hh. unfold PackPacket, streamFramer.HasCryptoStreamFrame. rewrite (GetOrOpen_present _ _ _ E). cbn [mbind outcome_bind].
  assert (MkWorld (packer w) (framer w) (streams w) (flow w) (pth w) = w) as -> by by destruct w.
  destruct (0 <? _); [done|]. unfold level, sealer in *. destruct (GetSealer cryptoSetup) as [l s] eqn:Es. cbn [fst snd] in *.
  destruct (header_valid l w Hh) as [Hv _]. destruct (header_reads _ _ _ Hv) as [_ HG]. fold ph in HG |- *. rewrite HG.
  destruct (popPing (numberStopWaiting ph w)) as [[? ?]|]; [done|].
  destruct (numbered_same ph w) as (_ & _ & _ & _ & E5).
  assert (canSendData (packer (numberStopWaiting ph w)) l = canSendData (packer w) l) as -> by (rewrite E5; done). done.
Qed.

(** When the STOP_WAITING and the ACK frame of the path do not fit into a packet, nothing is taken. *)
Lemma PackPacket_too_large w level sealer ph : packer_ok w → seals sealer → ph = getPublicHeader cryptoSetup truncate level w →
  MaxPacketSize < header_len ph + wireLens (version (packer w)) (fixedList (numberStopWaiting ph w)) + Overhead sealer →
  composeNextPacket cp (u64 (u64 (MaxPacketSize - Overhead sealer) - header_len ph)) (canSendData (packer w) level) (numberStopWaiting ph w) =
    Ok (numberStopWaiting ph w, inr errPayloadTooLarge).
Proof.
  intros Hok Hs Eph Hbig. pose proof Hok as [Hh _ Hctl _ _]. destruct (header_valid level w Hh) as [_ Hhl]. pose proof Hs as [Ho _].
  pose proof (numbered_fixed level w Hok) as Hfix. cbv zeta in Hfix. rewrite <- Eph in Hhl, Hfix.
  destruct (numbered_same ph w) as (E1 & E2 & E3 & E4 & E5). set (w1 := numberStopWaiting ph w) in *.
  assert (version (packer w1) = version (packer w) ∧ controlFrames (packer w1) = controlFrames (packer w)) as (Ev & Ec) by (rewrite E5; done).
  unfold MaxPacketSize in Hbig |- *. rewrite (u64_id (1350 - _)), (u64_id (_ - header_len ph)) by (unfold is_u64; lia).
  unfold composeNextPacket. destruct (fixedFrames_spec _ _ _ _ Hfix) as [-> H0]. rewrite Ev in H0 |- *. cbv beta iota zeta.
  set (n := wireLens (version (packer w)) (fixedList w1)) in *. clearbody n.
  assert (controlLoop (version (packer w)) (1350 - Overhead sealer - header_len ph) n (reverse (controlFrames (packer w1))) =
    Ok (reverse (controlFrames (packer w1)), [], n, None)) as ->.
  { rewrite Ec. assert (Forall (λ f, (∀ pn pnLen level, valid_frame pn pnLen level f) ∧ plain f) (reverse (controlFrames (packer w)))) as Hr
      by by apply Forall_reverse. destruct Hr as [|f l [Hf Hp] _]; [done|]. cbn [controlLoop].
    destruct (wireLen_plain (version (packer w)) 0 2 level f (Hf _ _ _) Hp) as (k & -> & _ & Hk).
    rewrite u64_id by (unfold is_u64; lia). by destruct (Z.ltb_spec (1350 - Overhead sealer - header_len ph) (n + k)); [|lia]. }
  cbn [mbind outcome_bind]. destruct (Z.ltb_spec (1350 - Overhead sealer - header_len ph) n); [|lia]. rewrite reverse_involutive.
  do 3 f_equal. destruct w1 as [[] ? ? ? ?]. done.
Qed.

(** The packet holds data of the crypto stream or a PING frame only, or the STOP_WAITING and the ACK frame of the
    path leave room. *)
Definition fits (cs : stream.stream) (sealer : Sealer) (ph : PublicHeader) (w : world) : bool :=
  (0 <? stream.lenOfDataForWriting cs) || bool_decide (is_Some (popPing w)) ||
  (header_len ph + wireLens (version (packer w)) (fixedList (numberStopWaiting ph w)) + Overhead sealer <=? MaxPacketSize).

(** C16: what is packed arrives. On a packer whose queued frames, path and header data are well-formed
    (what the peer's parser accepts, packet numbers below 2^48, a nonce of 32 bytes) and with a sealer that adds its overhead, of at
    most 64 bytes, PackPacket does not panic. If the STOP_WAITING and the ACK frame of the path fit into a
    packet next to the header, or are not sent with it (data of the crypto stream, or a PING
    frame), it does not fail either: a packet that it
    returns is not larger than MaxPacketSize, although the STREAM frames are sized with two
    bytes more than there are; the peer reads its header, and when the peer's AEAD opens
    what the sealer made, its unpacker returns exactly the frames of the packet. Data of
    other streams than the crypto stream is only sent encrypted: forward-secure by a server, at
    least secure by a client. If they do not fit, which a comment in the code rules out, it returns an error and takes
    no frame from its queues. *)
Theorem packed_packets_arrive now rand w cs : packer_ok w → streamsMap.streams (streams w) !! 1 = Some cs →
  let level := (chosen cs).1 in let sealer := (chosen cs).2 in let ph := getPublicHeader cryptoSetup truncate level w in
  seals sealer →
  if fits cs sealer ph w then
    ∃ w' r, PackPacket cp lim cryptoSetup truncate now rand w = Ok (w', inl r) ∧
      ∀ pkt, r = Some pkt → arrives ph sealer level now (packer w) pkt ∧ data_protected (packer w) pkt
  else PackPacket cp lim cryptoSetup truncate now rand w = Ok (numberStopWaiting ph w, inr errPayloadTooLarge).
Proof.
  intros Hok E. pose proof Hok as [Hh _ Hctl _ _]. destruct (Z.ltb_spec 0 (stream.lenOfDataForWriting cs)) as [Hl|Hl].
  { assert (chosen cs = GetSealerForCryptoStream cryptoSetup) as -> by (unfold chosen; case_bool; [done|lia]). intros level sealer ph Hs.
    unfold fits. destruct (Z.ltb_spec 0 (stream.lenOfDataForWriting cs)); [cbn [orb]|lia].
    rewrite (PackPacket_cases now rand w cs E Hh). destruct (Z.ltb_spec 0 (stream.lenOfDataForWriting cs)); [|lia].
    destruct (PackPacket_crypto now rand w cs Hok E ltac:(lia) Hs) as (w' & pkt & Ep & _ & Ha & Hd). exists w', (Some pkt). split; [done|]. by intros ? [= <-]. }
  assert (chosen cs = GetSealer cryptoSetup) as -> by (unfold chosen; case_bool; [lia|done]). intros level sealer ph Hs. unfold fits.
  rewrite (PackPacket_cases now rand w cs E Hh). destruct (Z.ltb_spec 0 (stream.lenOfDataForWriting cs)); [lia|]. cbn [orb].
  destruct (header_valid level w Hh) as [Hv Hhl]. fold ph in Hv, Hhl. pose proof (numbered_fixed level w Hok) as Hfix. cbv zeta in Hfix. fold ph in Hfix.
  assert (Forall plain (controlFrames (packer w))) as Hpl by (eapply Forall_impl; [exact Hctl|]; by intros f [_ ?]).
  assert (Forall plain (fixedList (numberStopWaiting ph w))) as Hplf by (eapply Forall_impl; [exact Hfix|]; by intros f [_ ?]).
  unfold popPing. destruct (numbered_same ph w) as (E1 & _ & _ & _ & E5).
  assert (controlFrames (packer (numberStopWaiting ph w)) = controlFrames (packer w)) as Ec by (rewrite E5; done). fold level sealer ph. rewrite Ec.
  set (small := header_len ph + wireLens (version (packer w)) (fixedList (numberStopWaiting ph w)) + Overhead sealer <=? MaxPacketSize).
  assert (if small then ∃ w' r, ('(w, r) ← composeNextPacket cp (u64 (u64 (MaxPacketSize - Overhead sealer) - header_len ph)) (canSendData (packer w) level) (numberStopWaiting ph w);
     match r with inr e => Ok (w, inr e) | inl fs => finishPacket ph level sealer now rand fs w end) = Ok (w', inl r) ∧
     ∀ pkt, r = Some pkt → arrives ph sealer level now (packer w) pkt ∧ data_protected (packer w) pkt
     else ('(w, r) ← composeNextPacket cp (u64 (u64 (MaxPacketSize - Overhead sealer) - header_len ph)) (canSendData (packer w) level) (numberStopWaiting ph w);
     match r with inr e => Ok (w, inr e) | inl fs => finishPacket ph level sealer now rand fs w end) =
       Ok (numberStopWaiting ph w, inr errPayloadTooLarge)) as Hnormal.
  { unfold small. destruct (Z.leb_spec (header_len ph + wireLens (version (packer w)) (fixedList (numberStopWaiting ph w)) + Overhead sealer) MaxPacketSize) as [Hfit|Hbig];
      [|by rewrite (PackPacket_too_large w level sealer ph Hok Hs eq_refl Hbig)].
    destruct (PackPacket_packs now rand w level sealer ph Hok Hs eq_refl Hfit) as (w' & r & Ep & Hp). exists w', r. split; [exact Ep|].
    intros pkt ->. split; [by destruct Hp as (? & ? & ? & ? & _ & _ & _ & ? & _)|by eapply packs_protected]. }
  destruct (controlFrames (packer w)) as [|[| | | | | | | |fp| | |] cs'];
    try (rewrite bool_decide_eq_false_2 by (by intros [? ?]); exact Hnormal). clear Hnormal. rewrite bool_decide_eq_true_2 by by eexists. cbn [orb].
  set (w1 := set_packer (set_controlFrames cs' (packer (numberStopWaiting ph w))) (numberStopWaiting ph w)).
  assert (version (packer w1) = version (packer w) ∧ perspective (packer w1) = perspective (packer w) ∧ pth w1 = pth w) as (Ev & Ep & Et)
    by (unfold w1; cbn; rewrite E5, E1; done).
  destruct Hs as [Ho Hseal]. destruct (finish_spec ph level sealer now rand [FPing fp] w1) as [[_ ->]|(pkt & -> & Ha & Hf)];
    rewrite ?Ev, ?Ep, ?Et; try done; [lia|change (wireLens (version (packer w)) [FPing fp]) with 1; unfold MaxPacketSize; lia|by exists w1, None|].
  eexists _, (Some pkt). split; [done|]. intros ? [= <-]. split; [unfold arrives in *; by rewrite Ev, Ep in Ha|].
  intros fr Hin. rewrite Hf in Hin. by apply written_stream, list_elem_of_singleton in Hin.
Qed.

(** No control frame is lost, duplicated or overtaken for ever. When there is neither data of the crypto stream nor a
    PING frame at the front of the queue, PackPacket takes control frames from the end of the queue, the
    others stay where they are, with the new BLOCKED frames behind them. With a
    packet, the packet holds exactly the STOP_WAITING and the ACK frame of the path, what was taken and STREAM
    frames; without one, nothing was taken and no ACK frame was waiting. *)
Theorem control_frames_conserved now rand w cs : packer_ok w → streamsMap.streams (streams w) !! 1 = Some cs →
  stream.lenOfDataForWriting cs = 0 → popPing w = None →
  let level := (GetSealer cryptoSetup).1 in let sealer := (GetSealer cryptoSetup).2 in let ph := getPublicHeader cryptoSetup truncate level w in
  seals sealer →
  header_len ph + wireLens (version (packer w)) (fixedList (numberStopWaiting ph w)) + Overhead sealer <= MaxPacketSize →
  ∃ w' r, PackPacket cp lim cryptoSetup truncate now rand w = Ok (w', inl r) ∧ packs now ph sealer level w w' r.
Proof.
  intros Hok E Hl Hp level sealer ph Hs Hfit. rewrite (PackPacket_cases now rand w cs E (pk_header w Hok)), Hl. cbn [Z.ltb Z.compare]. fold level sealer ph.
  destruct (numbered_same ph w) as (_ & _ & _ & _ & E5).
  assert (popPing (numberStopWaiting ph w) = None) as ->.
  { unfold popPing in *. rewrite E5. cbn. by destruct (controlFrames (packer w)) as [|[] ?]. }
  by apply PackPacket_packs.
Qed.

(** A PING frame throws away what it is queued with. With a PING frame at the front of the queue of
    control frames and no data of the crypto stream, PackPacket sends the PING frame alone: an ACK
    frame that waits for the path is dropped without having been sent. When a STOP_WAITING frame waits as
    well, no packet is sent and it is the PING frame that is lost. *)
Theorem ping_discards now rand w cs ping rest : packer_ok w → streamsMap.streams (streams w) !! 1 = Some cs →
  stream.lenOfDataForWriting cs = 0 → controlFrames (packer w) = FPing ping :: rest → seals (GetSealer cryptoSetup).2 →
  match stopWaiting (packer w) !! pathID (pth w) with
  | None => ∃ w' pkt, PackPacket cp lim cryptoSetup truncate now rand w = Ok (w', inl (Some pkt)) ∧ frames pkt = [FPing ping] ∧
      ackFrame (packer w') !! pathID (pth w) = None ∧ controlFrames (packer w') = rest
  | Some _ => ∃ w', PackPacket cp lim cryptoSetup truncate now rand w = Ok (w', inl None) ∧ controlFrames (packer w') = rest ∧
      ackFrame (packer w') = ackFrame (packer w)
  end.
Proof.
  intros Hok E Hl Ec Hs. pose proof (pk_header w Hok) as Hh. rewrite (PackPacket_cases now rand w cs E Hh), Hl. cbn [Z.ltb Z.compare].
  set (level := (GetSealer cryptoSetup).1). set (ph := getPublicHeader cryptoSetup truncate level w). destruct (header_valid level w Hh) as [Hv Hhl]. fold ph in Hv, Hhl.
  destruct (numbered_same ph w) as (E1 & _ & _ & _ & E5). unfold popPing. assert (controlFrames (packer (numberStopWaiting ph w)) = FPing ping :: rest) as -> by (rewrite E5; done).
  set (w1 := set_packer (set_controlFrames rest (packer (numberStopWaiting ph w))) (numberStopWaiting ph w)).
  assert (version (packer w1) = version (packer w) ∧ perspective (packer w1) = perspective (packer w) ∧ pth w1 = pth w ∧ ackFrame (packer w1) = ackFrame (packer w))
    as (Ev & Ep & Et & Ea) by (unfold w1; cbn; rewrite E5, E1; done).
  assert (is_Some (stopWaiting (packer w1) !! pathID (pth w)) ↔ is_Some (stopWaiting (packer w) !! pathID (pth w))) as Hstop.
  { unfold w1, numberStopWaiting. cbn. destruct (stopWaiting (packer w) !! pathID (pth w)) as [f|] eqn:Es; cbn; [|by rewrite Es]. by rewrite lookup_insert_eq. }
  destruct Hs as [Ho Hseal]. destruct (finish_spec ph level (GetSealer cryptoSetup).2 now rand [FPing ping] w1) as [[Hn ->]|(pkt & Ef & Ha & Hf)];
    rewrite ?Ev, ?Ep, ?Et; try done; [lia|change (wireLens (version (packer w)) [FPing ping]) with 1; unfold MaxPacketSize; lia| |].
  - destruct Hn as [?|[_ Hn]]; [done|]. rewrite Et in Hn. apply Hstop in Hn as [f ->]. by exists w1.
  - destruct (stopWaiting (packer w) !! pathID (pth w)) as [f|] eqn:Es.
    + exfalso. unfold finishPacket in Ef. change (len [FPing ping] =? 0) with false in Ef. change (len [FPing ping] =? 1) with true in Ef.
      rewrite (bool_decide_eq_true_2 (is_Some (stopWaiting (packer w1) !! pathID (pth w1)))) in Ef by (rewrite Et; apply Hstop; by eexists). done.
    + rewrite Ef. eexists _, pkt. split; [done|]. rewrite Hf. split; [done|]. split; [|done]. cbn. rewrite E1. apply lookup_delete_eq.
Qed.

End packets.

(** ** Examples *)
Module PackerExamples.
Import protocol packetPacker.
Import FlowExamples (cp).
Import StreamsMapExamples (lim).
Import FramerExamples (map1, framer1, flow1, ok1).

(** An AEAD that adds twelve bytes. *)
Definition sealer : Sealer := MkSealer 12 (λ p _ _, p ++ replicate 12 0).
Definition setup : CryptoSetup :=
  MkCryptoSetup (EncryptionForwardSecure, sealer) (λ _, inl sealer) (EncryptionSecure, sealer) [].

Lemma sealer_seals : seals sealer.
Proof. split; [cbn; lia|]. intros p n h. cbn [Seal sealer]. by rewrite len_app. Qed.

Definition ack : AckFrame.AckFrame := AckFrame.MkAckFrame 1 5 1 [] 0 0.
Definition path1 : packerPath := MkPath 1 (packetNumberGenerator.newPacketNumberGenerator 500) 1 true.

(** A packer with the control frames [cs] and an ACK frame; on the streams, a lost frame and
    new data wait. *)
Definition world1 (cs : list Frame) (stop : gmap Z StopWaitingFrame.StopWaitingFrame) : world :=
  MkWorld (MkPacker 77 PerspectiveServer 512 cs stop {[1 := ack]}) framer1 map1 flow1 path1.

Lemma ok_world1 cs stop : Forall (λ f, (∀ pn pnLen level, valid_frame pn pnLen level f) ∧ plain f) cs →
  (stop = ∅ ∨ stop = {[1 := StopWaitingFrame.MkStopWaitingFrame 1 0 0]}) → packer_ok setup false (world1 cs stop).
Proof.
  intros Hc Hs. constructor; [constructor; cbn; unfold is_u64, is_u8; try lia; by left| |done| |].
  - constructor; [apply ok1| |].
    + constructor; [|constructor]. split; [by vm_compute|]. repeat constructor; by vm_compute.
    + FramerExamples.every_entry; (split; [split; by vm_compute|]); cbn; repeat constructor; by vm_compute.
  - intros f. cbn. rewrite lookup_singleton_eq. intros [= <-]. split; [|done]. split; [split; by vm_compute|]. cbn. split; [|lia]. unfold valid_acks. lia.
  - intros f. cbn. destruct Hs as [->| ->]; [by rewrite lookup_empty|]. rewrite lookup_singleton_eq. intros [= <-]. vm_compute. repeat split; congruence.
Qed.

Definition window : Frame := FWindowUpdate (WindowUpdateFrame.MkWindowUpdateFrame 5 1000).
Definition ping : Frame := FPing PingFrame.MkPingFrame.
Definition w1 : world := world1 [window] ∅.

Lemma ok_w1 : packer_ok setup false w1.
Proof.
  apply ok_world1; [|by left]. constructor; [|constructor]. split; [|done]. intros pn pnLen level. cbn. unfold is_u32, is_u64. lia.
Qed.

Definition cs1 : stream.stream := stream.newStream 1.

Lemma packed_packets_arrive_witness : ∃ w' r, PackPacket cp lim setup false 5000 None w1 = Ok (w', inl r).
Proof.
  destruct (packed_packets_arrive cp lim setup false 5000 None w1 cs1 ok_w1) as (w' & r & E & _);
    [by vm_compute|apply sealer_seals|]. exists w', r. exact E.
Defined.

Lemma control_frames_conserved_witness : ∃ w' r, PackPacket cp lim setup false 5000 None w1 = Ok (w', inl r) ∧
  match r with Some pkt => length (frames pkt) = 4%nat | None => False end.
Proof.
  destruct (control_frames_conserved cp lim setup false 5000 None w1 cs1 ok_w1) as (w' & r & E & _);
    [by vm_compute|by vm_compute|by vm_compute|apply sealer_seals|by vm_compute|].
  exists w', r. split; [exact E|]. vm_compute in E. by injection E as <- <-.
Defined.

(** An ACK frame of 200 ranges of more than 2^32 packets is longer than a packet. *)
Definition long_ack : AckFrame.AckFrame :=
  AckFrame.MkAckFrame 1 (2 ^ 44) 1
    ((λ i : nat, MkAckRange (if decide (i = 199)%nat then 1 else 2 ^ 44 - 2 ^ 33 * Z.of_nat i - 2 ^ 33 + 2) (2 ^ 44 - 2 ^ 33 * Z.of_nat i)) <$> seq 0 200) 0 0.

Example long_ack_fails :
  let w := set_packer (MkPacker 77 PerspectiveServer 512 [window] ∅ {[1 := long_ack]}) w1 in
  match PackPacket cp lim setup false 5000 None w with
  | Ok (w', inr e) => e = errPayloadTooLarge ∧ controlFrames (packer w') = [window]
  | _ => False
  end.
Proof. vm_compute. split; reflexivity. Qed.

Definition w2 : world := world1 [ping; window] ∅.

Lemma ping_discards_witness : ∃ w' pkt, PackPacket cp lim setup false 5000 None w2 = Ok (w', inl (Some pkt)) ∧ frames pkt = [ping] ∧
  ackFrame (packer w') !! 1 = None.
Proof.
  assert (packer_ok setup false w2) as Hok.
  { apply ok_world1; [|by left]. constructor; [done|]. constructor; [|constructor]. split; [|done]. intros pn pnLen level. cbn. unfold is_u32, is_u64. lia. }
  pose proof (ping_discards cp lim setup false 5000 None w2 cs1 PingFrame.MkPingFrame [window] Hok) as H.
  destruct H as (w' & pkt & E & Hf & Ha & _); [by vm_compute|by vm_compute|by vm_compute|apply sealer_seals|].
  by exists w', pkt.
Defined.

End PackerExamples.
