(* ===== verification/Crypto.v ===== *)
(** * Crypto: packet protection and key derivation

    internal/crypto: the null AEADs of the handshake (null_aead.go, null_aead_fnv64a.go,
    null_aead_fnv128a.go), AES-GCM with 12-byte and with 16-byte tags (aesgcm12_aead.go,
    aesgcm_aead.go), the derivation of keys (key_derivation_quic_crypto.go), Curve25519
    (curve_25519.go) and source address tokens (source_address_token.go). The cryptographic
    algorithms themselves are parameters, a record of functions with their documented
    behaviour as a class; what the repository adds to them (nonces, tags, the split of the
    key material, lengths) is modelled. *)
From S2P Require Import Prelude Protocol ByteOrder AckFrames Frames PublicHeader HandshakeMessages Stream StreamsMap StreamFramer PacketPacker.

(** ** What is not part of the repository *)

(** AES-GCM ([key], [nonce], data, associated data), HKDF-SHA256 (secret, salt, info and the
    number of bytes that are read), the FNV-1a hash of 128 bits (high and low half), and
    Curve25519. *)
Record Primitives := MkPrimitives {
  gcmSeal : list Z → list Z → list Z → list Z → list Z;
  gcmOpen : list Z → list Z → list Z → list Z → option (list Z);
  hkdf : list Z → list Z → list Z → nat → list Z;
  fnv128a : list Z → Z * Z;
  scalarBaseMult : list Z → list Z;
  scalarMult : list Z → list Z → list Z;
}.

(** [gcmOverhead] is the length of the tag. *)
Class PrimitivesOk (P : Primitives) (gcmOverhead : Z) := {
  gcm_overhead : 0 <= gcmOverhead <= 16;
  gcm_open_seal k n p a : gcmOpen P k n (gcmSeal P k n p a) a = Some p;
  gcm_seal_len k n p a : len (gcmSeal P k n p a) = len p + gcmOverhead;
  gcm_seal_bytes k n p a : Forall is_byte p → Forall is_byte (gcmSeal P k n p a);
  hkdf_length secret salt info n : length (hkdf P secret salt info n) = n;
  fnv128a_range d : is_u64 (fnv128a P d).1 ∧ is_u64 (fnv128a P d).2;
  scalarBaseMult_length k : length (scalarBaseMult P k) = 32%nat;
  scalarBaseMult_bytes k : Forall is_byte (scalarBaseMult P k);
  scalarMult_length k p : length (scalarMult P k p) = 32%nat;
  scalarMult_comm a b : scalarMult P a (scalarBaseMult P b) = scalarMult P b (scalarBaseMult P a);
}.

(** An [AEAD]; the error of [Open] is only compared with nil. *)
Record AEAD := MkAEAD {
  Open : list Z → Z → list Z → option (list Z);
  aead_Seal : list Z → Z → list Z → list Z;
  aead_Overhead : Z;
}.

(** Every AEAD is a sealer. *)
Definition sealer (a : AEAD) : Sealer := MkSealer (aead_Overhead a) (aead_Seal a).

Module crypto.
Import protocol binary.

Definition le64 (v : Z) : list Z := match WriteUint64 LittleEndian v with Ok bs => bs | _ => [] end.
Definition le32 (v : Z) : list Z := match WriteUint32 LittleEndian v with Ok bs => bs | _ => [] end.
Definition be64 (v : Z) : list Z := match WriteUint64 BigEndian v with Ok bs => bs | _ => [] end.

(** [hash/fnv]: New64a. *)
Definition fnv64Offset : Z := 14695981039346656037.
Definition fnv64Prime : Z := 1099511628211.
Definition fnv64a (data : list Z) : Z := foldl (λ h b, u64 (Z.lxor h b * fnv64Prime)) fnv64Offset data.

(** cert_compression.go: HashCert. *)
Definition HashCert (cert : list Z) : Z := fnv64a cert.

(** *** null_aead_fnv64a.go *)
Definition fnv64aOpen (src : list Z) (packetNumber : Z) (associatedData : list Z) : option (list Z) :=
  if len src <? 8 then None
  else
    let data := take (length src - 8) src in
    let hash := fnv64a (associatedData ++ data) in
    if bool_decide (be64 hash = drop (length src - 8) src) then Some data else None.
Definition fnv64aSeal (src : list Z) (packetNumber : Z) (associatedData : list Z) : list Z :=
  src ++ be64 (fnv64a (associatedData ++ src)).
Definition nullAEADFNV64a : AEAD := MkAEAD fnv64aOpen fnv64aSeal 8.

Section primitives.
Context (P : Primitives).

(** *** null_aead_fnv128a.go *)

Definition strClient : list Z := [67; 108; 105; 101; 110; 116].
Definition strServer : list Z := [83; 101; 114; 118; 101; 114].

(** What the peer of [p] appends to the data, and what [p] appends. *)
Definition otherName (p : Perspective) : list Z := match p with PerspectiveServer => strClient | PerspectiveClient => strServer end.
Definition ownName (p : Perspective) : list Z := match p with PerspectiveServer => strServer | PerspectiveClient => strClient end.

Definition fnv128aOpen (p : Perspective) (src : list Z) (packetNumber : Z) (associatedData : list Z) : option (list Z) :=
  if len src <? 12 then None
  else
    let '(testHigh, testLow) := fnv128a P (associatedData ++ drop 12 src ++ otherName p) in
    match Uint64 src, Uint32 (drop 8 src) with
    | Ok low, Ok high =>
        if negb (u32 (Z.land testHigh 4294967295) =? high) || negb (testLow =? low) then None else Some (drop 12 src)
    | _, _ => None
    end.
Definition fnv128aSeal (p : Perspective) (src : list Z) (packetNumber : Z) (associatedData : list Z) : list Z :=
  let '(high, low) := fnv128a P (associatedData ++ src ++ ownName p) in
  le64 low ++ le32 (u32 high) ++ src.
Definition nullAEADFNV128a (p : Perspective) : AEAD := MkAEAD (fnv128aOpen p) (fnv128aSeal p) 12.

(** null_aead.go *)
Definition NewNullAEAD (usesTLS : bool) (p : Perspective) : AEAD := if usesTLS then nullAEADFNV64a else nullAEADFNV128a p.

(** *** AES-GCM *)
Context (gcmOverhead : Z).

Definition errKeyLength : error := NewError "AES-GCM: expected 16-byte keys and 4-byte IVs".

(** aesgcm12_aead.go: four bytes of the IV and the packet number. *)
Definition makeNonce12 (iv : list Z) (packetNumber : Z) : list Z :=
  copyAt 0 (take 4 iv) (replicate 4 0) ++ le64 packetNumber.

Definition aeadAESGCM12 (otherKey myKey otherIV myIV : list Z) : AEAD :=
  MkAEAD (λ src packetNumber associatedData, gcmOpen P otherKey (makeNonce12 otherIV packetNumber) src associatedData)
    (λ src packetNumber associatedData, gcmSeal P myKey (makeNonce12 myIV packetNumber) src associatedData) gcmOverhead.

Definition NewAEADAESGCM12 (otherKey myKey otherIV myIV : list Z) : outcome AEAD :=
  if negb (len myKey =? 16) || negb (len otherKey =? 16) || negb (len myIV =? 4) || negb (len otherIV =? 4)
  then Err errKeyLength else Ok (aeadAESGCM12 otherKey myKey otherIV myIV).

(** aesgcm_aead.go: the packet number in the last eight bytes is combined with the IV. *)
Definition ivLen : nat := 12.
Definition makeNonce (iv : list Z) (packetNumber : Z) : list Z :=
  zip_with Z.lxor (replicate (ivLen - 8) 0 ++ be64 packetNumber) iv.
Definition errIVLength : error := NewError "AES-GCM: expected 12 byte IVs".

Definition NewAEADAESGCM (otherKey myKey otherIV myIV : list Z) : outcome AEAD :=
  if negb (len otherIV =? Z.of_nat ivLen) || negb (len myIV =? Z.of_nat ivLen) then Err errIVLength
  else Ok (MkAEAD (λ src packetNumber associatedData, gcmOpen P otherKey (makeNonce otherIV packetNumber) src associatedData)
             (λ src packetNumber associatedData, gcmSeal P myKey (makeNonce myIV packetNumber) src associatedData) gcmOverhead).

(** *** key_derivation_quic_crypto.go *)

(** "QUIC key expansion" and "QUIC forward secure key expansion", with a zero byte. *)
Definition bytesOf (s : string) : list Z := (λ a, Z.of_nat (Ascii.nat_of_ascii a)) <$> String.list_ascii_of_string s.
Definition expansionLabel (forwardSecure : bool) : list Z :=
  bytesOf (if forwardSecure then "QUIC forward secure key expansion" else "QUIC key expansion") ++ [0].

(** Both slices are overwritten with the output of HKDF. *)
Definition diversify (key iv divNonce : list Z) : list Z * list Z :=
  let s := hkdf P (key ++ iv) divNonce (bytesOf "QUIC key diversification") (length key + length iv) in
  (take (length key) s, drop (length key) s).

Definition deriveKeys (forwardSecure : bool) (sharedSecret nonces : list Z) (connID : Z) (chlo scfg cert divNonce : list Z)
    (keyLen : nat) (swap : bool) : list Z * list Z * list Z * list Z :=
  let info := expansionLabel forwardSecure ++ le64 connID ++ chlo ++ scfg ++ cert in
  let s := hkdf P sharedSecret nonces info (2 * keyLen + 2 * 4) in
  let key1 := take keyLen s in
  let key2 := take keyLen (drop keyLen s) in
  let iv1 := take 4 (drop (2 * keyLen) s) in
  let iv2 := drop (2 * keyLen + 4) s in
  let '(key2, iv2) := if forwardSecure then (key2, iv2) else diversify key2 iv2 divNonce in
  if swap then (key2, key1, iv2, iv1) else (key1, key2, iv1, iv2).

Definition DeriveQuicCryptoAESKeys (forwardSecure : bool) (sharedSecret nonces : list Z) (connID : Z)
    (chlo scfg cert divNonce : list Z) (pers : Perspective) : outcome AEAD :=
  let swap := bool_decide (pers = PerspectiveClient) in
  let '(otherKey, myKey, otherIV, myIV) := deriveKeys forwardSecure sharedSecret nonces connID chlo scfg cert divNonce 16 swap in
  NewAEADAESGCM12 otherKey myKey otherIV myIV.

(** *** curve_25519.go *)
Record curve25519KEX := MkKEX { secret : list Z; public : list Z }.
Definition errCurveLength : error := NewError "Curve25519: expected public key of 32 byte".

(** [random] are the bytes that were drawn. *)
Definition NewCurve25519KEX (random : list Z) : curve25519KEX :=
  let s := alter (λ b, Z.land b 248) 0%nat random in
  let s := alter (λ b, Z.lor (Z.land b 127) 64) 31%nat s in
  MkKEX s (scalarBaseMult P s).
Definition PublicKey (c : curve25519KEX) : list Z := public c.
Definition CalculateSharedKey (c : curve25519KEX) (otherPublic : list Z) : outcome (list Z) :=
  if negb (len otherPublic =? 32) then Err errCurveLength else Ok (scalarMult P (secret c) otherPublic).

(** *** source_address_token.go; [key] was derived when the source was made. *)
Definition stkNonceSize : nat := 16.
Definition errSTKTooShort : error := NewError "STK too short".
Definition errSTKAuth : error := NewError "cipher: message authentication failed".
Definition stkNewToken (key nonce data : list Z) : list Z := nonce ++ gcmSeal P key nonce data [].
Definition stkDecodeToken (key p : list Z) : outcome (list Z) :=
  if len p <? Z.of_nat stkNonceSize then Err errSTKTooShort
  else match gcmOpen P key (take stkNonceSize p) (drop stkNonceSize p) [] with Some d => Ok d | None => Err errSTKAuth end.

End primitives.

End crypto.

(** ** Both ends fit together *)
Section fit.
Import protocol binary crypto.
Context (P : Primitives) (ov : Z) {HP : PrimitivesOk P ov}.

Definition otherEnd (p : Perspective) : Perspective :=
  match p with PerspectiveServer => PerspectiveClient | PerspectiveClient => PerspectiveServer end.

(** [b] opens what [a] seals, and [a] adds exactly its overhead. *)
Definition opens (a b : AEAD) : Prop :=
  ∀ src packetNumber ad, Forall is_byte src →
    Open b (aead_Seal a src packetNumber ad) packetNumber ad = Some src ∧
    len (aead_Seal a src packetNumber ad) = len src + aead_Overhead a.

Lemma fnv64a_range d : is_u64 (fnv64a d).
Proof.
  unfold fnv64a. destruct d as [|x l _] using rev_ind; [by split; vm_compute|]. rewrite foldl_snoc. apply u64_range.
Qed.

Lemma le64_enc v : le64 v = enc (bo := LittleEndian) 8 v.
Proof. unfold le64. by rewrite WriteUint64_enc. Qed.
Lemma le32_enc v : le32 v = enc (bo := LittleEndian) 4 v.
Proof. unfold le32. by rewrite WriteUint32_enc. Qed.
Lemma be64_enc v : be64 v = enc (bo := BigEndian) 8 v.
Proof. unfold be64. by rewrite WriteUint64_enc. Qed.

Lemma Uint64_app v r : is_u64 v → Uint64 (le64 v ++ r) = Ok v.
Proof.
  intros Hv. pose proof (Uint64_enc v Hv) as H. rewrite <- le64_enc in H. unfold le64 in *. by cbn in *.
Qed.

Lemma fnv64a_opens : opens nullAEADFNV64a nullAEADFNV64a.
Proof.
  intros src pn ad _. cbn. unfold fnv64aOpen, fnv64aSeal. rewrite be64_enc. split; [|by rewrite len_app, enc_len].
  rewrite len_app, enc_len, length_app, enc_length. pose proof (len_nonneg src). rewrite (proj2 (Z.ltb_ge _ _)) by lia.
  replace (length src + 8 - 8)%nat with (length src) by lia. rewrite take_app_length, drop_app_length, be64_enc, bool_decide_eq_true_2 by done. done.
Qed.

Lemma fnv128a_opens p : opens (nullAEADFNV128a P p) (nullAEADFNV128a P (otherEnd p)).
Proof.
  intros src pn ad Hb. cbn. unfold fnv128aOpen, fnv128aSeal.
  assert (otherName (otherEnd p) = ownName p) as -> by by destruct p.
  pose proof (fnv128a_range (ad ++ src ++ ownName p)) as [Hh Hl]. destruct (fnv128a P (ad ++ src ++ ownName p)) as [high low] eqn:E. cbn in Hh, Hl.
  assert (length (le64 low ++ le32 (u32 high)) = 12%nat) as H12 by (by rewrite length_app, le64_enc, le32_enc, !enc_length).
  split; [|rewrite !len_app, le64_enc, le32_enc, !enc_len; lia].
  rewrite !len_app, le64_enc, le32_enc, !enc_len, <- le64_enc, <- le32_enc. pose proof (len_nonneg src). rewrite (proj2 (Z.ltb_ge _ _)) by lia.
  rewrite (assoc_L (++) (le64 low)), drop_app_length' by done. rewrite E. rewrite <- (assoc_L (++) (le64 low)), Uint64_app by done.
  rewrite drop_app_length' by (by rewrite le64_enc, enc_length). rewrite le32_enc, Uint32_le by (try done; apply u32_range).
  replace (u32 (Z.land high 4294967295)) with (u32 high).
  2: { change 4294967295 with (Z.ones 32). rewrite Z.land_ones by lia. unfold u32. change (2 ^ 32) with 4294967296. by rewrite Z.mod_mod. }
  by rewrite !Z.eqb_refl.
Qed.

(** Packets before the handshake are understood. What an end seals with the null AEAD of
    its perspective is opened by the other end, for both kinds of the null AEAD, and the
    overhead is what is announced to the packer, as the packer assumes of a sealer. *)
Theorem null_aead_roundtrip usesTLS p :
  opens (NewNullAEAD P usesTLS p) (NewNullAEAD P usesTLS (otherEnd p)) ∧
  0 <= Overhead (sealer (NewNullAEAD P usesTLS p)) <= 64.
Proof. destruct usesTLS; cbn; [split; [apply fnv64a_opens|lia]|split; [apply fnv128a_opens|lia]]. Qed.

(** *** AES-GCM *)

Lemma aeadAESGCM12_opens k1 k2 iv1 iv2 : opens (aeadAESGCM12 P ov k1 k2 iv1 iv2) (aeadAESGCM12 P ov k2 k1 iv2 iv1).
Proof. intros src pn ad _. cbn. split; [apply gcm_open_seal|apply gcm_seal_len]. Qed.

Lemma diversify_length key iv n : let '(k, i) := diversify P key iv n in length k = length key ∧ length i = length iv.
Proof. unfold diversify. rewrite length_take, length_drop, hkdf_length. lia. Qed.

(** The keys of the two ends are the same, with the roles exchanged, and have the lengths
    that AES-GCM wants. *)
Lemma deriveKeys_swap fs secret nonces connID chlo scfg cert div :
  ∃ k1 k2 iv1 iv2, length k1 = 16%nat ∧ length k2 = 16%nat ∧ length iv1 = 4%nat ∧ length iv2 = 4%nat ∧
    deriveKeys P fs secret nonces connID chlo scfg cert div 16 false = (k1, k2, iv1, iv2) ∧
    deriveKeys P fs secret nonces connID chlo scfg cert div 16 true = (k2, k1, iv2, iv1).
Proof.
  unfold deriveKeys. set (s := hkdf P _ _ _ _). assert (length s = 40%nat) as Hs by (unfold s; by rewrite hkdf_length). clearbody s.
  set (key2 := take 16 (drop 16 s)). set (iv2 := drop (2 * 16 + 4) s).
  assert (length key2 = 16%nat ∧ length iv2 = 4%nat) as [H1 H2] by (unfold key2, iv2; rewrite length_take, !length_drop, Hs; lia).
  pose proof (diversify_length key2 iv2 div) as Hd. destruct (diversify P key2 iv2 div) as [k i]. rewrite H1, H2 in Hd. destruct Hd.
  destruct fs; eexists _, _, _, _; split_and!; try reflexivity; try done; rewrite length_take, ?length_drop, Hs; lia.
Qed.

Lemma keys_match fs secret nonces connID chlo scfg cert div :
  let derive := DeriveQuicCryptoAESKeys P ov fs secret nonces connID chlo scfg cert div in
  ∃ c s, derive PerspectiveClient = Ok c ∧ derive PerspectiveServer = Ok s ∧ opens c s ∧ opens s c ∧ aead_Overhead c = ov ∧ aead_Overhead s = ov.
Proof.
  intros derive. destruct (deriveKeys_swap fs secret nonces connID chlo scfg cert div) as (k1 & k2 & iv1 & iv2 & H1 & H2 & H3 & H4 & E1 & E2).
  exists (aeadAESGCM12 P ov k2 k1 iv2 iv1), (aeadAESGCM12 P ov k1 k2 iv1 iv2). unfold derive, DeriveQuicCryptoAESKeys, NewAEADAESGCM12.
  cbn [bool_decide]. rewrite (bool_decide_eq_true_2 (PerspectiveClient = PerspectiveClient)), (bool_decide_eq_false_2 (PerspectiveServer = PerspectiveClient)) by done.
  rewrite E1, E2. unfold len. rewrite H1, H2, H3, H4. cbn. split_and!; try done; apply aeadAESGCM12_opens.
Qed.

(** Derived keys fit together. When client and server derive keys from the same inputs,
    no error occurs, and each end opens what the other one seals, with the diversification of
    the keys of the server as well as with forward secrecy. *)
Theorem derived_keys_match fs secret nonces connID chlo scfg cert div :
  let derive := DeriveQuicCryptoAESKeys P ov fs secret nonces connID chlo scfg cert div in
  ∃ c s, derive PerspectiveClient = Ok c ∧ derive PerspectiveServer = Ok s ∧ opens c s ∧ opens s c ∧ aead_Overhead c = ov ∧ aead_Overhead s = ov.
Proof. apply keys_match. Qed.

(** *** Nonces *)

Lemma enc_inj (bo : ByteOrder) {Hbo : ByteOrderOk bo} v w : is_u64 v → is_u64 w → enc (bo := bo) 8 v = enc (bo := bo) 8 w → v = w.
Proof.
  intros Hv Hw E. pose proof (ReadUint64_enc bo v [] Hv (Forall_nil_2 _)) as H1. pose proof (ReadUint64_enc bo w [] Hw (Forall_nil_2 _)) as H2.
  rewrite E, H2 in H1. by injection H1.
Qed.

Lemma zip_lxor_inj a b iv : length a = length iv → length b = length iv → zip_with Z.lxor a iv = zip_with Z.lxor b iv → a = b.
Proof.
  revert a b. induction iv as [|x iv IH]; intros [|y a] [|z b]; try done. cbn. intros [= Ha] [= Hb] [= E1 E2]. f_equal; [|by apply IH].
  apply (f_equal (λ w, Z.lxor w x)) in E1. by rewrite !Z.lxor_assoc, Z.lxor_nilpotent, !Z.lxor_0_r in E1.
Qed.

(** Packets with different numbers have different nonces. Under one initialization
    vector, the nonces of two packets are the same only if the packet numbers are, for both
    AES-GCM constructions, and every nonce has 12 bytes. Nothing else enters a nonce, so
    this needs packet numbers that are unique under a key. *)
Theorem nonces_distinct iv n m : is_u64 n → is_u64 m →
  length (makeNonce12 iv n) = 12%nat ∧ (makeNonce12 iv n = makeNonce12 iv m → n = m) ∧
  (length iv = ivLen → length (makeNonce iv n) = 12%nat ∧ (makeNonce iv n = makeNonce iv m → n = m)).
Proof.
  intros Hn Hm. unfold makeNonce12, makeNonce. rewrite !le64_enc, !be64_enc.
  assert (∀ l : list Z, length (copyAt 0 (take 4 l) (replicate 4 0)) = 4%nat) as Hc.
  { intros l. unfold copyAt. rewrite !length_app, !length_take, length_drop, length_replicate. lia. }
  split; [rewrite length_app, Hc, enc_length; lia|]. split.
  - intros [_ E]%app_inj_1; [|by rewrite !Hc]. by apply (enc_inj LittleEndian).
  - intros Hi. unfold ivLen in *. split; [rewrite length_zip_with, length_app, length_replicate, enc_length; lia|].
    intros E. apply zip_lxor_inj in E; [|rewrite length_app, enc_length, length_replicate; lia..].
    apply app_inj_1 in E as [_ E]; [|done]. by apply (enc_inj BigEndian).
Qed.

(** *** Key exchange and tokens *)

Lemma shared_keys_agree r1 r2 : let a := NewCurve25519KEX P r1 in let b := NewCurve25519KEX P r2 in
  CalculateSharedKey P a (PublicKey b) = CalculateSharedKey P b (PublicKey a) ∧ is_ok (CalculateSharedKey P a (PublicKey b)) = true.
Proof.
  intros a b. unfold CalculateSharedKey, PublicKey, len. cbn [public NewCurve25519KEX a b]. rewrite !scalarBaseMult_length. cbn.
  rewrite scalarMult_comm. done.
Qed.

Lemma stk_roundtrip key nonce data : length nonce = stkNonceSize → stkDecodeToken P key (stkNewToken P key nonce data) = Ok data.
Proof.
  intros Hn. unfold stkDecodeToken, stkNewToken. rewrite len_app. unfold len at 1. rewrite Hn. pose proof (len_nonneg (gcmSeal P key nonce data [])).
  rewrite (proj2 (Z.ltb_ge _ _)) by lia. rewrite take_app_length', drop_app_length' by done. by rewrite gcm_open_seal.
Qed.

End fit.

(** ** An instance of the primitives

    Not secure, but with the documented behaviour: the tag is a hash of the key, the nonce,
    the associated data and the data. *)
Module CryptoExamples.
Import protocol binary crypto.

(** A hash that is cheap to compute. *)
Definition checksum (bs : list Z) : Z := foldl (λ h b, Z.land (31 * h + b + 7) 65535) 1 bs.

Definition tag (k n p a : list Z) : list Z := le64 (checksum (k ++ n ++ a ++ p)) ++ [0; 0; 0; 0].
Definition toySeal (k n p a : list Z) : list Z := p ++ tag k n p a.
Definition toyOpen (k n c a : list Z) : option (list Z) :=
  let p := take (length c - 12) c in if bool_decide (drop (length c - 12) c = tag k n p a) then Some p else None.
Definition toyHkdf (secret salt info : list Z) (n : nat) : list Z :=
  let h := checksum (secret ++ salt ++ info) in (λ i, u8 (checksum (le64 h ++ [Z.of_nat i]))) <$> seq 0 n.
Definition toy : Primitives :=
  MkPrimitives toySeal toyOpen toyHkdf (λ d, (checksum d, checksum (1 :: d)))
    (λ k, replicate 32 (u8 (foldr Z.add 0 k))) (λ k p, replicate 32 (u8 (u8 (foldr Z.add 0 k) + default 0 (p !! 0%nat)))).

Lemma checksum_range bs : 0 <= checksum bs < 2 ^ 64.
Proof.
  unfold checksum. assert (∀ h, 0 <= h < 2 ^ 64 → 0 <= foldl (λ h b, Z.land (31 * h + b + 7) 65535) h bs < 2 ^ 64) as H; [|apply H; lia].
  induction bs as [|b bs IH]; intros h Hh; [done|]. apply IH. change 65535 with (Z.ones 16). rewrite Z.land_ones by lia. lia.
Qed.

Lemma tag_length k n p a : length (tag k n p a) = 12%nat.
Proof. unfold tag. by rewrite length_app, le64_enc, enc_length. Qed.

#[global] Instance toy_ok : PrimitivesOk toy 12.
Proof.
  split.
  - lia.
  - intros k n p a. cbn. unfold toyOpen, toySeal. rewrite length_app, tag_length.
    replace (length p + 12 - 12)%nat with (length p) by lia. rewrite take_app_length, drop_app_length, bool_decide_eq_true_2; done.
  - intros k n p a. cbn. unfold toySeal, len. rewrite length_app, tag_length. lia.
  - intros k n p a Hp. cbn. unfold toySeal, tag. apply Forall_app. split; [done|]. rewrite le64_enc. apply enc_app_bytes.
    repeat (constructor; [split; lia|]). constructor.
  - intros. cbn. unfold toyHkdf. cbv zeta. by rewrite length_fmap, length_seq.
  - intros d. split; [apply checksum_range|apply (checksum_range (1 :: d))].
  - intros k. apply length_replicate.
  - intros k. apply Forall_replicate, u8_range.
  - intros k p. apply length_replicate.
  - intros a b. cbn. by rewrite Z.add_comm.
Qed.

Lemma null_aead_roundtrip_witness :
  Open (NewNullAEAD toy false PerspectiveServer) (aead_Seal (NewNullAEAD toy false PerspectiveClient) [1; 2] 7 [3]) 7 [3] = Some [1; 2].
Proof.
  destruct (null_aead_roundtrip toy 12 false PerspectiveClient) as [H _].
  apply (H [1; 2] 7 [3]). repeat (constructor; [split; lia|]). constructor.
Defined.

Lemma derived_keys_match_witness : ∃ c s,
  DeriveQuicCryptoAESKeys toy 12 false [1] [2] 77 [3] [4] [5] [6] PerspectiveClient = Ok c ∧
  DeriveQuicCryptoAESKeys toy 12 false [1] [2] 77 [3] [4] [5] [6] PerspectiveServer = Ok s ∧ opens c s ∧ opens s c.
Proof.
  destruct (derived_keys_match toy 12 false [1] [2] 77 [3] [4] [5] [6]) as (c & s & E1 & E2 & O1 & O2 & _).
  exact (ex_intro _ c (ex_intro _ s (conj E1 (conj E2 (conj O1 O2))))).
Defined.

Lemma nonces_distinct_witness : length (makeNonce12 [1; 2; 3; 4] 5) = 12%nat ∧ makeNonce12 [1; 2; 3; 4] 5 ≠ makeNonce12 [1; 2; 3; 4] 6.
Proof.
  destruct (nonces_distinct [1; 2; 3; 4] 5 6) as (H1 & H2 & _); [split; by vm_compute|split; by vm_compute|].
  split; [exact H1|]. intros E. specialize (H2 E). discriminate.
Defined.

End CryptoExamples.
