(* ===== verification/Certificates.v ===== *)
(** * Certificates: the chain of a server, its compression and its proof

    internal/crypto/cert_compression.go with cert_dict.go, cert_sets.go and cert_cache.go, the
    chain of the server (cert_chain.go), the proof (server_proof.go) and what the manager of
    the client does with a chain (cert_manager.go). compress/zlib, X.509, SHA-256, RSA and
    ECDSA, the cache and the sets of common certificates of the package
    quic-go-certificates are parameters; a certificate is the list of its bytes. *)
From S2P Require Import Prelude Protocol ByteOrder AckFrames Frames PublicHeader HandshakeMessages Stream StreamsMap StreamFramer PacketPacker Crypto.

(** A reader of decompressed data delivers it in pieces; the error that comes with the last
    byte of a piece, if there is one. *)
Definition reader : Type := list (list Z * option error).
Definition EOF : error := NewError "EOF".
Definition read (n : nat) (r : reader) : list Z * option error * reader :=
  match r with
  | [] => ([], Some EOF, [])
  | (piece, err) :: rest =>
      if (n <? length piece)%nat then (take n piece, None, (drop n piece, err) :: rest) else (piece, err, rest)
  end.

(** compress/zlib: a dictionary and the data. *)
Record Zlib := MkZlib {
  deflate : list Z → list Z → list Z;
  inflate : list Z → list Z → outcome reader;
}.

(** The pieces of a reader are the data, and only the last one comes with an error. *)
Fixpoint delivers (r : reader) (data : list Z) : Prop :=
  match r with
  | [] => data = []
  | (piece, err) :: r' => ∃ rest, data = piece ++ rest ∧ delivers r' rest ∧ (r' ≠ [] → err = None)
  end.

(** What is documented of compress/zlib: the reader delivers the data that was compressed, in any
    pieces. *)
Class ZlibOk (Z' : Zlib) := {
  inflate_deflate dict data : ∃ r, inflate Z' dict (deflate Z' dict data) = Ok r ∧ delivers r data;
  deflate_bytes dict data : Forall is_byte data → Forall is_byte (deflate Z' dict data);
  inflate_returns dict data : inflate Z' dict data ≠ Panic;
}.

(** Calls of Read with buffers of these sizes fill them. *)
Fixpoint reads_full (r : reader) (sizes : list nat) : Prop :=
  match sizes with
  | [] => True
  | n :: sizes => let '(data, _, r') := read n r in length data = n ∧ reads_full r' sizes
  end.

(** No Read of the reader is short as long as there is data. Neither io.Reader nor compress/zlib promise this;
    the code relies on it. *)
Definition full_reads (Z' : Zlib) : Prop :=
  ∀ dict data r sizes, inflate Z' dict (deflate Z' dict data) = Ok r → sum_list sizes = length data → reads_full r sizes.

(** crypto/x509, crypto/sha256, crypto/rsa, crypto/ecdsa and encoding/asn1, with the private
    key that belongs to a certificate. *)
Record X509 := MkX509 {
  parseCertificate : list Z → option error;
  verifyLeaf : list Z → list (list Z) → list Z → option error;
  sha256 : list Z → list Z;
  signHash : list Z → list Z → outcome (list Z);
  isRSA : list Z → bool;
  verifyPSS : list Z → list Z → list Z → bool;
  unmarshalSignature : list Z → option (Z * Z * list Z);
  verifyECDSA : list Z → list Z → Z → Z → bool;
}.

(** What is used of a tls.Config. *)
Record Config := MkConfig {
  getCertificate : option (list Z → outcome (option (list (list Z))));
  certificatesOf : list (list (list Z));
  nameToCertificate : option (gmap (list Z) (list (list Z)));
  insecureSkipVerify : bool;
}.

(** What the two ends of a handshake use: the chain of the server for a name, the proof and
    the compressed chain; what the client makes of compressed certificates, and whether it
    accepts a chain and a proof. [certificates] below is made of the code. *)
Record Certificates := MkCertificates {
  getCertForSNI : list Z → outcome (list (list Z));
  signServerProof : list (list Z) → list Z → list Z → outcome (list Z);
  getCompressedCert : list (list Z) → list Z → list Z → outcome (list Z);
  parseChain : list Z → outcome (list (list Z));
  verifyChain : list Z → list (list Z) → option error;
  verifyServerProof : list Z → list Z → list Z → list Z → bool;
  getCommonCertificateHashes : list Z;
}.

Module certificates.
Import protocol binary crypto.

(** ** cert_compression.go, cert_sets.go and cert_dict.go *)

Inductive entry := entryCompressed | entryCached (h : Z) | entryCommon (h : Z) (i : Z).
Definition entryType (e : entry) : Z := match e with entryCompressed => 1 | entryCached _ => 2 | entryCommon _ _ => 3 end.
Definition isCompressed (e : entry) : bool := match e with entryCompressed => true | _ => false end.

Definition certDictZlib : list Z := [
  4; 2; 48; 0; 48; 29; 6; 3; 85; 29; 37; 4; 22; 48; 20; 6; 8; 43; 6; 1; 5; 5; 7; 3; 1; 6; 8; 43; 6; 1; 5; 5; 7; 3; 2;
  48; 95; 6; 9; 96; 134; 72; 1; 134; 248; 66; 4; 1; 6; 6; 11; 96; 134; 72; 1; 134; 253; 109; 1; 7; 23; 1; 48; 51; 32;
  69; 120; 116; 101; 110; 100; 101; 100; 32; 86; 97; 108; 105; 100; 97; 116; 105; 111; 110; 32; 83; 32; 76; 105; 109;
  105; 116; 101; 100; 49; 52; 32; 83; 83; 76; 32; 67; 65; 48; 30; 23; 13; 49; 50; 32; 83; 101; 99; 117; 114; 101; 32;
  83; 101; 114; 118; 101; 114; 32; 67; 65; 48; 45; 97; 105; 97; 46; 118; 101; 114; 105; 115; 105; 103; 110; 46; 99;
  111; 109; 47; 69; 45; 99; 114; 108; 46; 118; 101; 114; 105; 115; 105; 103; 110; 46; 99; 111; 109; 47; 69; 46; 99;
  101; 114; 48; 13; 6; 9; 42; 134; 72; 134; 247; 13; 1; 1; 5; 5; 0; 3; 130; 1; 1; 0; 74; 46; 99; 111; 109; 47; 114;
  101; 115; 111; 117; 114; 99; 101; 115; 47; 99; 112; 115; 32; 40; 99; 41; 48; 48; 9; 6; 3; 85; 29; 19; 4; 2; 48; 0;
  48; 29; 48; 13; 6; 9; 42; 134; 72; 134; 247; 13; 1; 1; 5; 5; 0; 3; 130; 1; 1; 0; 123; 48; 29; 6; 3; 85; 29; 14; 48;
  130; 1; 34; 48; 13; 6; 9; 42; 134; 72; 134; 247; 13; 1; 1; 1; 5; 0; 3; 130; 1; 15; 0; 48; 130; 1; 10; 2; 130; 1; 1;
  0; 210; 111; 100; 111; 99; 97; 46; 99; 111; 109; 47; 67; 46; 99; 114; 108; 48; 29; 6; 3; 85; 29; 14; 4; 22; 4; 20;
  180; 46; 103; 108; 111; 98; 97; 108; 115; 105; 103; 110; 46; 99; 111; 109; 47; 114; 48; 11; 6; 3; 85; 29; 15; 4; 4;
  3; 2; 1; 48; 13; 6; 9; 42; 134; 72; 134; 247; 13; 1; 1; 5; 5; 0; 48; 129; 202; 49; 11; 48; 9; 6; 3; 85; 4; 6; 19;
  2; 85; 83; 49; 16; 48; 14; 6; 3; 85; 4; 8; 19; 7; 65; 114; 105; 122; 111; 110; 97; 49; 19; 48; 17; 6; 3; 85; 4; 7;
  19; 10; 83; 99; 111; 116; 116; 115; 100; 97; 108; 101; 49; 26; 48; 24; 6; 3; 85; 4; 10; 19; 17; 71; 111; 68; 97;
  100; 100; 121; 46; 99; 111; 109; 44; 32; 73; 110; 99; 46; 49; 51; 48; 49; 6; 3; 85; 4; 11; 19; 42; 104; 116; 116;
  112; 58; 47; 47; 99; 101; 114; 116; 105; 102; 105; 99; 97; 116; 101; 115; 46; 103; 111; 100; 97; 100; 100; 121; 46;
  99; 111; 109; 47; 114; 101; 112; 111; 115; 105; 116; 111; 114; 121; 49; 48; 48; 46; 6; 3; 85; 4; 3; 19; 39; 71;
  111; 32; 68; 97; 100; 100; 121; 32; 83; 101; 99; 117; 114; 101; 32; 67; 101; 114; 116; 105; 102; 105; 99; 97; 116;
  105; 111; 110; 32; 65; 117; 116; 104; 111; 114; 105; 116; 121; 49; 17; 48; 15; 6; 3; 85; 4; 5; 19; 8; 48; 55; 57;
  54; 57; 50; 56; 55; 48; 30; 23; 13; 49; 49; 48; 14; 6; 3; 85; 29; 15; 1; 1; 255; 4; 4; 3; 2; 5; 160; 48; 12; 6; 3;
  85; 29; 19; 1; 1; 255; 4; 2; 48; 0; 48; 29; 48; 15; 6; 3; 85; 29; 19; 1; 1; 255; 4; 5; 48; 3; 1; 1; 0; 48; 29; 6;
  3; 85; 29; 37; 4; 22; 48; 20; 6; 8; 43; 6; 1; 5; 5; 7; 3; 1; 6; 8; 43; 6; 1; 5; 5; 7; 3; 2; 48; 14; 6; 3; 85; 29;
  15; 1; 1; 255; 4; 4; 3; 2; 5; 160; 48; 51; 6; 3; 85; 29; 31; 4; 44; 48; 42; 48; 40; 160; 38; 160; 36; 134; 34; 104;
  116; 116; 112; 58; 47; 47; 99; 114; 108; 46; 103; 111; 100; 97; 100; 100; 121; 46; 99; 111; 109; 47; 103; 100; 115;
  49; 45; 50; 48; 42; 48; 40; 6; 8; 43; 6; 1; 5; 5; 7; 2; 1; 22; 28; 104; 116; 116; 112; 115; 58; 47; 47; 119; 119;
  119; 46; 118; 101; 114; 105; 115; 105; 103; 110; 46; 99; 111; 109; 47; 99; 112; 115; 48; 52; 48; 48; 48; 48; 48;
  48; 90; 23; 13; 49; 51; 48; 53; 48; 57; 6; 8; 43; 6; 1; 5; 5; 7; 48; 2; 134; 45; 104; 116; 116; 112; 58; 47; 47;
  115; 48; 57; 48; 55; 6; 8; 43; 6; 1; 5; 5; 7; 2; 48; 68; 6; 3; 85; 29; 32; 4; 61; 48; 59; 48; 57; 6; 11; 96; 134;
  72; 1; 134; 248; 69; 1; 7; 23; 6; 49; 11; 48; 9; 6; 3; 85; 4; 6; 19; 2; 71; 66; 49; 27; 83; 49; 23; 48; 21; 6; 3;
  85; 4; 10; 19; 14; 86; 101; 114; 105; 83; 105; 103; 110; 44; 32; 73; 110; 99; 46; 49; 31; 48; 29; 6; 3; 85; 4; 11;
  19; 22; 86; 101; 114; 105; 83; 105; 103; 110; 32; 84; 114; 117; 115; 116; 32; 78; 101; 116; 119; 111; 114; 107; 49;
  59; 48; 57; 6; 3; 85; 4; 11; 19; 50; 84; 101; 114; 109; 115; 32; 111; 102; 32; 117; 115; 101; 32; 97; 116; 32; 104;
  116; 116; 112; 115; 58; 47; 47; 119; 119; 119; 46; 118; 101; 114; 105; 115; 105; 103; 110; 46; 99; 111; 109; 47;
  114; 112; 97; 32; 40; 99; 41; 48; 49; 16; 48; 14; 6; 3; 85; 4; 7; 19; 7; 83; 49; 19; 48; 17; 6; 3; 85; 4; 11; 19;
  10; 71; 49; 19; 48; 17; 6; 11; 43; 6; 1; 4; 1; 130; 55; 60; 2; 1; 3; 19; 2; 85; 49; 22; 48; 20; 6; 3; 85; 4; 3; 20;
  49; 25; 48; 23; 6; 3; 85; 4; 3; 19; 49; 29; 48; 27; 6; 3; 85; 4; 15; 19; 20; 80; 114; 105; 118; 97; 116; 101; 32;
  79; 114; 103; 97; 110; 105; 122; 97; 116; 105; 111; 110; 49; 18; 49; 33; 48; 31; 6; 3; 85; 4; 11; 19; 24; 68; 111;
  109; 97; 105; 110; 32; 67; 111; 110; 116; 114; 111; 108; 32; 86; 97; 108; 105; 100; 97; 116; 101; 100; 49; 20; 49;
  49; 48; 47; 6; 3; 85; 4; 11; 19; 40; 83; 101; 101; 32; 119; 119; 119; 46; 114; 58; 47; 47; 115; 101; 99; 117; 114;
  101; 46; 103; 71; 108; 111; 98; 97; 108; 83; 105; 103; 110; 49; 83; 101; 114; 118; 101; 114; 67; 65; 46; 99; 114;
  108; 86; 101; 114; 105; 83; 105; 103; 110; 32; 67; 108; 97; 115; 115; 32; 51; 32; 69; 99; 114; 108; 46; 103; 101;
  111; 116; 114; 117; 115; 116; 46; 99; 111; 109; 47; 99; 114; 108; 115; 47; 115; 100; 49; 26; 48; 24; 6; 3; 85; 4;
  10; 104; 116; 116; 112; 58; 47; 47; 69; 86; 73; 110; 116; 108; 45; 99; 99; 114; 116; 46; 103; 119; 119; 119; 46;
  103; 105; 99; 101; 114; 116; 46; 99; 111; 109; 47; 49; 111; 99; 115; 112; 46; 118; 101; 114; 105; 115; 105; 103;
  110; 46; 99; 111; 109; 48; 57; 114; 97; 112; 105; 100; 115; 115; 108; 46; 99; 111; 115; 46; 103; 111; 100; 97; 100;
  100; 121; 46; 99; 111; 109; 47; 114; 101; 112; 111; 115; 105; 116; 111; 114; 121; 47; 48; 129; 128; 6; 8; 43; 6; 1;
  5; 5; 7; 1; 1; 4; 116; 48; 114; 48; 36; 6; 8; 43; 6; 1; 5; 5; 7; 48; 1; 134; 24; 104; 116; 116; 112; 58; 47; 47;
  111; 99; 115; 112; 46; 103; 111; 100; 97; 100; 100; 121; 46; 99; 111; 109; 47; 48; 74; 6; 8; 43; 6; 1; 5; 5; 7; 48;
  2; 134; 62; 104; 116; 116; 112; 58; 47; 47; 99; 101; 114; 116; 105; 102; 105; 99; 97; 116; 101; 115; 46; 103; 111;
  100; 97; 100; 100; 121; 46; 99; 111; 109; 47; 114; 101; 112; 111; 115; 105; 116; 111; 114; 121; 47; 103; 100; 95;
  105; 110; 116; 101; 114; 109; 101; 100; 105; 97; 116; 101; 46; 99; 114; 116; 48; 31; 6; 3; 85; 29; 35; 4; 24; 48;
  22; 128; 20; 253; 172; 97; 50; 147; 108; 69; 214; 226; 238; 133; 95; 154; 186; 231; 118; 153; 104; 204; 231; 48;
  39; 134; 41; 104; 116; 116; 112; 58; 47; 47; 99; 134; 48; 104; 116; 116; 112; 58; 47; 47; 115].

Section compression.
Context (Z' : Zlib) (certSets : gmap Z (list (list Z))).

(** The position of a certificate in a set, from [i] on. *)
Fixpoint findCertInSet (i : nat) (set : list (list Z)) (cert : list Z) : option nat :=
  match set with
  | [] => None
  | c :: set => if bool_decide (c = cert) then Some i else findCertInSet (S i) set cert
  end.

Fixpoint findCommon (setHashes : list Z) (cert : list Z) : option entry :=
  match setHashes with
  | [] => None
  | setHash :: setHashes =>
      match certSets !! setHash with
      | None => findCommon setHashes cert
      | Some set =>
          match findCertInSet 0 set cert with
          | Some pos => Some (entryCommon setHash (u32 (Z.of_nat pos)))
          | None => findCommon setHashes cert
          end
      end
  end.

Definition buildEntry (cachedHashes setHashes : list Z) (cert : list Z) : entry :=
  let h := HashCert cert in
  if bool_decide (h ∈ cachedHashes) then entryCached h
  else match findCommon setHashes cert with Some e => e | None => entryCompressed end.
Definition buildEntries (chain : list (list Z)) (cachedHashes setHashes : list Z) : list entry := buildEntry cachedHashes setHashes <$> chain.

(** The certificates that are not compressed, the last one first, and the fixed dictionary. *)
Definition buildZlibDictForEntries (entries : list entry) (chain : list (list Z)) : list Z :=
  concat (rev (snd <$> List.filter (λ ec, negb (isCompressed ec.1)) (zip entries chain))) ++ certDictZlib.

Definition errHashes : error := NewError "expected a multiple of 8 bytes for CCS / CCRT hashes".
Fixpoint splitLoop (n : nat) (hashes : list Z) : outcome (list Z) :=
  match n with
  | O => Ok []
  | S n => b ← slice 0 8 hashes; h ← Uint64 b; rest ← splitLoop n (drop 8 hashes); Ok (h :: rest)
  end.
Definition splitHashes (hashes : list Z) : outcome (list Z) :=
  if negb (len hashes mod 8 =? 0) then Err errHashes else splitLoop (length hashes / 8) hashes.

Definition writeEntry (e : entry) : list Z :=
  entryType e :: match e with
                 | entryCompressed => []
                 | entryCached h => le64 h
                 | entryCommon h i => le64 h ++ le32 i
                 end.

(** The certificates that are compressed, each behind its length. *)
Definition compressed (entries : list entry) (chain : list (list Z)) : list (list Z) := snd <$> List.filter (λ ec, isCompressed ec.1) (zip entries chain).
Definition totalUncompressedLen (entries : list entry) (chain : list (list Z)) : Z := foldr (λ c n, 4 + len c + n) 0 (compressed entries chain).
Definition plain (certs : list (list Z)) : list Z := concat ((λ c, le32 (u32 (len c)) ++ c) <$> certs).

Definition compressChain (chain : list (list Z)) (pCommonSetHashes pCachedHashes : list Z) : outcome (list Z) :=
  cachedHashes ← splitHashes pCachedHashes;
  setHashes ← splitHashes pCommonSetHashes;
  let entries := buildEntries chain cachedHashes setHashes in
  let res := concat (writeEntry <$> entries) ++ [0] in
  let total := totalUncompressedLen entries chain in
  Ok (if 0 <? total then
        res ++ le32 (u32 total) ++ deflate Z' (buildZlibDictForEntries entries chain) (plain (compressed entries chain))
      else res).

Definition errCached : error := NewError "unexpected cached certificate".
Definition errUnknownSet : error := NewError "unknown certSet".
Definition errNotInSet : error := NewError "certificate not found in certSet".
Definition errUnknownType : error := NewError "unknown entryType".
Definition errNoElement : error := NewError "CertCompression BUG: no element to save uncompressed certificate".

(** The list of entries with what is known of the chain. An entry takes a byte at least, so
    the length of the data bounds their number; at the end of the data the list ends too. *)
Fixpoint readEntries (fuel : nat) (r : list Z) : outcome (list (entry * list Z) * list Z) :=
  match fuel, r with
  | _, [] => Ok ([], [])
  | O, _ => Panic
  | S fuel, entryTypeByte :: r =>
      if entryTypeByte =? 0 then Ok ([], r)
      else if entryTypeByte =? 2 then Err errCached
      else if entryTypeByte =? 3 then
        '(h, r) ← ReadUint64 LittleEndian r;
        '(i, r) ← ReadUint32 LittleEndian r;
        match certSets !! h with
        | None => Err errUnknownSet
        | Some certSet =>
            if u32 (len certSet) <=? i then Err errNotInSet
            else match certSet !! Z.to_nat i with
                 | None => Panic
                 | Some cert => '(rest, r) ← readEntries fuel r; Ok ((entryCommon h i, cert) :: rest, r)
                 end
        end
      else if entryTypeByte =? 1 then
        '(rest, r) ← readEntries fuel r; Ok ((entryCompressed, []) :: rest, r)
      else Err errUnknownType
  end.

(** A buffer of [n] bytes that [data] was read into. *)
Definition buffer (n : nat) (data : list Z) : list Z := data ++ replicate (n - length data) 0.

(** The index of the next compressed entry from [certIndex] on; [i] is that of the first one. *)
Fixpoint nextCompressed (entries : list entry) (certIndex i : nat) : option nat :=
  match entries with
  | [] => None
  | e :: entries => if (certIndex <=? i)%nat && isCompressed e then Some i else nextCompressed entries certIndex (S i)
  end.

(** An error of a read that has filled its buffer does not matter. *)
Definition shortRead (err : option error) (full : bool) : option error := if full then None else err.

(** Every iteration uses up an entry, so one more than there are is enough fuel. *)
Fixpoint inflateLoop (fuel : nat) (gz : reader) (uncompressedLength totalLength : Z) (certIndex : nat) (entries : list entry) (chain : list (list Z)) : outcome (list (list Z)) :=
  if negb (totalLength <? uncompressedLength) then Ok chain
  else match fuel with
  | O => Panic
  | S fuel =>
      let '(lenBytes, err, gz) := read 4 gz in
      match err with
      | Some e => Err e
      | None =>
          certLen ← Uint32 (buffer 4 lenBytes);
          let '(data, err, gz) := read (Z.to_nat certLen) gz in
          match shortRead err (len data =? certLen) with
          | Some e => Err e
          | None =>
              match nextCompressed entries certIndex 0 with
              | None => Err errNoElement
              | Some i => inflateLoop fuel gz uncompressedLength (u32 (totalLength + u32 (4 + certLen))) (S i) entries (<[i := buffer (Z.to_nat certLen) data]> chain)
              end
          end
      end
  end.

Definition decompressChain (data : list Z) : outcome (list (list Z)) :=
  '(known, r) ← readEntries (length data) data;
  let entries := known.*1 in
  let chain := known.*2 in
  if existsb isCompressed entries then
    '(uncompressedLength, r) ← ReadUint32 LittleEndian r;
    gz ← inflate Z' (buildZlibDictForEntries entries chain) r;
    inflateLoop (S (length entries)) gz uncompressedLength 0 0 entries chain
  else Ok chain.

(** The hashes of the sets, in the order in which the map is visited. *)
Definition getCommonCertificateHashes (order : list Z) : list Z := order ≫= le64.

(** ** cert_cache.go: the key of the cache, and what is added to it *)
Definition cacheKey (chain : list (list Z)) (pCommonSetHashes pCachedHashes : list Z) : Z := fnv64a (concat chain ++ pCommonSetHashes ++ pCachedHashes).
Definition getCompressedCert (cache : Z → option (list Z)) (chain : list (list Z)) (pCommonSetHashes pCachedHashes : list Z) : outcome (list Z * option (Z * list Z)) :=
  let hash := cacheKey chain pCommonSetHashes pCachedHashes in
  match cache hash with
  | Some result => Ok (result, None)
  | None => result ← compressChain chain pCommonSetHashes pCachedHashes; Ok (result, Some (hash, result))
  end.
End compression.

(** ** cert_chain.go *)

(** Names are ASCII. *)
Definition toLower (name : list Z) : list Z := (λ b, if (65 <=? b) && (b <=? 90) then b + 32 else b) <$> name.
Definition dot : Z := 46.
Fixpoint dropDots (name : list Z) : list Z := match name with b :: name' => if b =? dot then dropDots name' else name | [] => [] end.
Definition trimDots (name : list Z) : list Z := rev (dropDots (rev name)).
Fixpoint split (name : list Z) : list (list Z) :=
  match name with
  | [] => [[]]
  | b :: name => if b =? dot then [] :: split name
                 else match split name with label :: labels => (b :: label) :: labels | [] => [[b]] end
  end.
Fixpoint join (labels : list (list Z)) : list Z :=
  match labels with [] => [] | [label] => label | label :: labels => label ++ dot :: join labels end.

Definition errNoMatchingCertificate : error := NewError "no matching certificate found".

(** Labels are replaced from the left, one after the other. *)
Fixpoint wildcardLoop (m : gmap (list Z) (list (list Z))) (replaced labels : list (list Z)) : option (list (list Z)) :=
  match labels with
  | [] => None
  | _ :: labels =>
      let replaced := replaced ++ [[42]] in
      match m !! join (replaced ++ labels) with Some cert => Some cert | None => wildcardLoop m replaced labels end
  end.

Section server.
Context (X : X509) (Z' : Zlib) (certSets : gmap Z (list (list Z))).

Definition maybeGetConfigForClient (getConfigForClient : option (list Z → outcome Config)) (c : Config) (sni : list Z) : outcome Config :=
  match getConfigForClient with None => Ok c | Some f => f sni end.

Definition selectCertificate (c : Config) (sni : list Z) : outcome (list (list Z)) :=
  match certificatesOf c with
  | [] => Err errNoMatchingCertificate
  | first :: rest =>
      match rest, nameToCertificate c with
      | _ :: _, Some m =>
          let name := trimDots (toLower sni) in
          match m !! name with
          | Some cert => Ok cert
          | None => match wildcardLoop m [] (split name) with Some cert => Ok cert | None => Ok first end
          end
      | _, _ => Ok first
      end
  end.

Definition getCertForSNI (getConfigForClient : option (list Z → outcome Config)) (c : Config) (sni : list Z) : outcome (list (list Z)) :=
  c ← maybeGetConfigForClient getConfigForClient c sni;
  match getCertificate c with
  | Some f => cert ← f sni; match cert with Some cert => Ok cert | None => selectCertificate c sni end
  | None => selectCertificate c sni
  end.

(** ** server_proof.go *)
Definition proofLabel : list Z := bytesOf "QUIC CHLO and server config signature" ++ [0].
Definition proofHash (chlo serverConfigData : list Z) : list Z := sha256 X (proofLabel ++ [32; 0; 0; 0] ++ sha256 X chlo ++ serverConfigData).

(** A signature with the key of the first certificate. *)
Definition signServerProof (chain : list (list Z)) (chlo serverConfigData : list Z) : outcome (list Z) :=
  signHash X (default [] (head chain)) (proofHash chlo serverConfigData).

Definition verifyServerProof (proof cert chlo serverConfigData : list Z) : bool :=
  let hash := proofHash chlo serverConfigData in
  if isRSA X cert then verifyPSS X cert hash proof
  else match unmarshalSignature X proof with
       | Some (r, s, []) => verifyECDSA X cert hash r s
       | _ => false
       end.

(** ** cert_manager.go *)
Definition errCertificateData : error := qerr.Error qerr.InvalidCryptoMessageParameter.
Fixpoint parseAll (chain : list (list Z)) : outcome (list (list Z)) :=
  match chain with
  | [] => Ok []
  | data :: chain =>
      match parseCertificate X data with
      | Some e => Err e
      | None => rest ← parseAll chain; Ok (data :: rest)
      end
  end.
Definition parseChain (data : list Z) : outcome (list (list Z)) :=
  match decompressChain Z' certSets data with
  | Ok byteChain => parseAll byteChain
  | Err _ => Err errCertificateData
  | Panic => Panic
  end.

Definition errNoCertificateChain : error := NewError "CertManager BUG: No certicifate chain loaded".
Definition verifyChain (insecureSkipVerify : bool) (hostname : list Z) (chain : list (list Z)) : option error :=
  match chain with
  | [] => Some errNoCertificateChain
  | leafCert :: intermediates => if insecureSkipVerify then None else verifyLeaf X leafCert intermediates hostname
  end.

(** Both ends with their configurations, [cache] as the cache of the server is now. *)
Definition certificates (getConfigForClient : option (list Z → outcome Config)) (serverConfig clientConfig : Config) (cache : Z → option (list Z)) (order : list Z) : Certificates :=
  MkCertificates (getCertForSNI getConfigForClient serverConfig) signServerProof
    (λ chain ccs ccrt, '(result, _) ← getCompressedCert Z' certSets cache chain ccs ccrt; Ok result)
    parseChain (verifyChain (insecureSkipVerify clientConfig)) verifyServerProof (getCommonCertificateHashes order).
End server.
End certificates.

(** ** What is compressed comes back *)
Section roundtrip.
Import protocol binary crypto certificates.
Context (Z' : Zlib) {HZ : ZlibOk Z'} (certSets : gmap Z (list (list Z))).

(** The sets have hashes as keys and are not longer than an index allows. *)
Definition sets_ok : Prop := map_Forall (λ h set, is_u64 h ∧ len set < 2 ^ 32) certSets.

(** An entry that stands for a certificate without what the client would have to remember. *)
Definition stands (ec : entry * list Z) : Prop :=
  match ec.1 with
  | entryCompressed => True
  | entryCached _ => False
  | entryCommon h i => is_u64 h ∧ is_u32 i ∧ ∃ set, certSets !! h = Some set ∧ len set < 2 ^ 32 ∧ set !! Z.to_nat i = Some ec.2
  end.
(** What an entry says before the data is decompressed. *)
Definition known (ec : entry * list Z) : entry * list Z := (ec.1, if isCompressed ec.1 then [] else ec.2).

Lemma findCertInSet_spec set cert i p : findCertInSet i set cert = Some p → (i <= p)%nat ∧ set !! (p - i)%nat = Some cert.
Proof.
  revert i. induction set as [|c set IH]; intros i H; [done|]. cbn in H. case_bool_decide as E.
  - injection H as <-. split; [done|]. by rewrite Nat.sub_diag, E.
  - destruct (IH _ H) as [H1 H2]. split; [lia|]. replace (p - i)%nat with (S (p - S i)) by lia. done.
Qed.

Lemma findCommon_stands hashes cert e : sets_ok → findCommon certSets hashes cert = Some e → stands (e, cert).
Proof.
  intros Hs. induction hashes as [|h hashes IH]; [done|]. cbn. destruct (certSets !! h) as [set|] eqn:Eh; [|done].
  destruct (findCertInSet 0 set cert) as [p|] eqn:Ep; [|done]. intros [= <-]. destruct (findCertInSet_spec _ _ _ _ Ep) as [_ Hp]. rewrite Nat.sub_0_r in Hp.
  destruct (map_Forall_lookup_1 _ _ _ _ Hs Eh) as [Hh Hl]. pose proof (lookup_lt_Some _ _ _ Hp) as Hlt. unfold len in *.
  assert (is_u32 (Z.of_nat p)) as Hu by (unfold is_u32; lia). rewrite (u32_id _ Hu). split; [exact Hh|]. split; [exact Hu|]. exists set. rewrite Nat2Z.id. done.
Qed.

Lemma buildEntry_stands setHashes cert : sets_ok → stands (buildEntry certSets [] setHashes cert, cert).
Proof.
  intros Hs. unfold buildEntry. rewrite bool_decide_eq_false_2 by apply not_elem_of_nil.
  destruct (findCommon certSets setHashes cert) as [e|] eqn:E; [by eapply findCommon_stands|done].
Qed.

Lemma writeEntry_bytes e rest : Forall is_byte rest → Forall is_byte (writeEntry e ++ rest).
Proof.
  intros Hr. assert (is_byte (entryType e)) as He by (destruct e; split; cbn; lia). unfold writeEntry. cbn [app]. constructor; [exact He|].
  destruct e; rewrite ?le64_enc, ?le32_enc, <- ?(assoc_L (++)); cbn [app]; repeat apply enc_app_bytes; exact Hr.
Qed.

Lemma entries_bytes es rest : Forall is_byte rest → Forall is_byte (concat (writeEntry <$> es) ++ rest).
Proof. intros Hr. induction es as [|e es IH]; [done|]. cbn. rewrite <- (assoc_L (++)). by apply writeEntry_bytes. Qed.

Lemma readEntries_written ecs rest fuel : Forall stands ecs → Forall is_byte rest → (length ecs < fuel)%nat →
  readEntries certSets fuel (concat (writeEntry <$> ecs.*1) ++ 0 :: rest) = Ok (known <$> ecs, rest).
Proof.
  intros Hs Hr. revert fuel. induction Hs as [|[e c] ecs He _ IH]; intros fuel Hf; (destruct fuel as [|fuel]; [cbn in Hf; lia|]); [done|].
  assert (Forall is_byte (concat (writeEntry <$> ecs.*1) ++ 0 :: rest)) as Hb by (apply entries_bytes; constructor; [split; lia|done]).
  cbn [fmap list_fmap concat fst length] in *. rewrite <- (assoc_L (++)). destruct e as [|h|h i]; cbn in He; [|done|].
  - cbn [writeEntry entryType app readEntries]. change (1 =? 0) with false. change (1 =? 2) with false. change (1 =? 3) with false. change (1 =? 1) with true. cbv iota.
    rewrite IH by lia. done.
  - destruct He as (Hh & Hi & set & Es & El & Ei). cbn [writeEntry entryType app readEntries]. change (3 =? 0) with false. change (3 =? 2) with false. change (3 =? 3) with true. cbv iota.
    rewrite le64_enc, le32_enc, <- (assoc_L (++)). rewrite ReadUint64_enc by (try done; by apply enc_app_bytes). cbn [mbind outcome_bind].
    rewrite ReadUint32_enc by done. cbn [mbind outcome_bind]. rewrite Es. pose proof (lookup_lt_Some _ _ _ Ei) as Hlt. unfold is_u32, len in *.
    rewrite u32_id by (unfold is_u32; lia). rewrite (proj2 (Z.leb_gt _ _)) by lia. rewrite Ei, IH by lia. done.
Qed.

(** *** The dictionary *)
Lemma dict_known ecs : buildZlibDictForEntries (known <$> ecs).*1 (known <$> ecs).*2 = buildZlibDictForEntries ecs.*1 ecs.*2.
Proof.
  unfold buildZlibDictForEntries. do 3 f_equal. induction ecs as [|[e c] ecs IH]; [done|]. destruct e; cbn; [exact IH|f_equal; exact IH..].
Qed.

(** *** The loop *)
Notation comp ecs := (compressed ecs.*1 ecs.*2).

Lemma comp_cons e c ecs : comp ((e, c) :: ecs) = (if isCompressed e then [c] else []) ++ comp ecs.
Proof. unfold compressed. destruct e; done. Qed.

Lemma nextCompressed_here es es' i : nextCompressed (es ++ entryCompressed :: es') (i + length es) i = Some (i + length es)%nat.
Proof.
  revert i. induction es as [|e es IH]; intros i; cbn.
  - rewrite Nat.add_0_r, Nat.leb_refl. done.
  - rewrite (proj2 (Nat.leb_gt _ _)) by lia. cbn. specialize (IH (S i)). replace (S i + length es)%nat with (i + S (length es))%nat in IH by lia. exact IH.
Qed.
Lemma nextCompressed_skip es k i e : (i <= k)%nat → es !! (k - i)%nat = Some e → isCompressed e = false → nextCompressed es k i = nextCompressed es (S k) i.
Proof.
  revert i. induction es as [|e' es IH]; intros i Hi He Hc; [done|]. cbn [nextCompressed]. destruct (Nat.eq_dec i k) as [->|Hne].
  - rewrite Nat.sub_diag in He. injection He as ->. rewrite Hc, !andb_false_r. clear IH.
    assert (∀ l j, (k < j)%nat → nextCompressed l k j = nextCompressed l (S k) j) as H.
    { induction l as [|x l IH]; intros j Hj; [done|]. cbn [nextCompressed]. rewrite !(proj2 (Nat.leb_le _ _)) by lia. cbn [andb]. destruct (isCompressed x); [done|]. apply IH. lia. }
    apply H. lia.
  - rewrite !(proj2 (Nat.leb_gt _ _)) by lia. cbn [andb]. apply IH; [lia| |done]. replace (k - i)%nat with (S (k - S i)) in He by lia. exact He.
Qed.
Lemma inflateLoop_skip fuel gz w t k es ch e : es !! k = Some e → isCompressed e = false → inflateLoop fuel gz w t k es ch = inflateLoop fuel gz w t (S k) es ch.
Proof.
  intros He Hc. destruct fuel; cbn [inflateLoop]; [done|]. by rewrite (nextCompressed_skip es k 0 e) by (rewrite ?Nat.sub_0_r; done || lia).
Qed.

Definition total (certs : list (list Z)) : Z := foldr (λ c n, 4 + len c + n) 0 certs.
Lemma total_nonneg certs : 0 <= total certs.
Proof. induction certs as [|c certs IH]; cbn; [lia|]. pose proof (len_nonneg c). unfold total in IH. lia. Qed.

(** A read that fills its buffer. *)
Lemma read_full n r data sizes : (0 < n <= length data)%nat → delivers r data → reads_full r (n :: sizes) →
  ∃ err r', read n r = (take n data, err, r') ∧ delivers r' (drop n data) ∧ reads_full r' sizes ∧ ((n < length data)%nat → err = None).
Proof.
  intros Hn Hd Hf. destruct r as [|[piece err] r]; [cbn in Hd; subst; cbn in Hn; lia|]. destruct Hd as (rest & -> & Hd & He).
  cbn [reads_full read] in *. destruct (Nat.ltb_spec n (length piece)).
  - destruct Hf as [_ Hf]. eexists None, _. rewrite take_app_le, drop_app_le by lia. split; [done|]. split; [|done].
    exists rest. done.
  - destruct Hf as [Hl Hf]. exists err, r. rewrite take_app_length', drop_app_length' by done. split; [done|]. split; [done|]. split; [done|].
    rewrite length_app. intros Hlt. apply He. intros ->. cbn in Hd. subst rest. cbn in Hlt. lia.
Qed.

Definition sizes (certs : list (list Z)) : list nat := certs ≫= λ c, [4%nat; length c].

Lemma sizes_total certs : Z.of_nat (sum_list (sizes certs)) = total certs.
Proof.
  induction certs as [|c certs IH]; [done|]. change (sizes (c :: certs)) with (4%nat :: length c :: sizes certs).
  change (total (c :: certs)) with (4 + len c + total certs). rewrite <- IH. cbn [sum_list sum_list_with]. unfold len, id. lia.
Qed.

Lemma read_length c certs gz : c ≠ [] → delivers gz (plain (c :: certs)) → reads_full gz (sizes (c :: certs)) →
  ∃ gz', read 4 gz = (le32 (u32 (len c)), None, gz') ∧ delivers gz' (c ++ plain certs) ∧ reads_full gz' (length c :: sizes certs).
Proof.
  intros Hc Hd Hf. change (plain (c :: certs)) with ((le32 (u32 (len c)) ++ c) ++ plain certs) in Hd. rewrite <- (assoc_L (++)) in Hd.
  assert (length (le32 (u32 (len c))) = 4%nat) as H4 by (by rewrite le32_enc, enc_length).
  assert (1 <= length c)%nat as H1 by (destruct c; [done|cbn; lia]).
  destruct (read_full 4 gz (le32 (u32 (len c)) ++ c ++ plain certs) (length c :: sizes certs) ltac:(rewrite length_app, H4; lia) Hd Hf) as (err & gz' & E & Hd' & Hf' & He).
  exists gz'. rewrite take_app_length', drop_app_length' in * by done. rewrite E, He; [done|]. rewrite !length_app, H4. lia.
Qed.
Lemma read_cert c certs gz : c ≠ [] → delivers gz (c ++ plain certs) → reads_full gz (length c :: sizes certs) →
  ∃ err gz', read (length c) gz = (c, err, gz') ∧ delivers gz' (plain certs) ∧ reads_full gz' (sizes certs).
Proof.
  intros Hc Hd Hf. assert (1 <= length c)%nat as H1 by (destruct c; [done|cbn; lia]).
  destruct (read_full (length c) gz (c ++ plain certs) (sizes certs) ltac:(rewrite length_app; lia) Hd Hf) as (err & gz' & E & Hd' & Hf' & _).
  exists err, gz'. rewrite take_app_length, drop_app_length in *. done.
Qed.
Lemma buffer_full n data : length data = n → buffer n data = data.
Proof. intros <-. unfold buffer. by rewrite Nat.sub_diag, app_nil_r. Qed.

Lemma inflateLoop_plain pre suf fuel w gz : w < 2 ^ 32 → Forall (λ c, c ≠ []) (comp suf) → total (comp suf) <= w → (length suf < fuel)%nat →
  delivers gz (plain (comp suf)) → reads_full gz (sizes (comp suf)) →
  inflateLoop fuel gz w (w - total (comp suf)) (length pre) (pre.*1 ++ suf.*1) (pre.*2 ++ (known <$> suf).*2) = Ok (pre.*2 ++ suf.*2).
Proof.
  intros Hw. revert pre fuel gz. induction suf as [|[e c] suf IH]; intros pre fuel gz Hne Ht Hf Hdel Hful.
  - cbn [compressed fmap list_fmap zip total foldr filter]. unfold comp. cbn. rewrite Z.sub_0_r. destruct fuel; cbn; rewrite Z.ltb_irrefl; done.
  - specialize (IH (pre ++ [(e, c)])). rewrite !fmap_app in IH. cbn [fmap list_fmap fst snd] in IH. rewrite <- !(assoc_L (++)) in IH. cbn [app] in IH. rewrite length_app in IH. cbn [length] in IH.
    rewrite Nat.add_1_r in IH. rewrite comp_cons in *. cbn [fmap list_fmap fst snd known length] in *.
    destruct e as [|h|h i]; cbn [isCompressed app] in *.
    2, 3: rewrite <- (IH fuel gz) by (done || lia); eapply inflateLoop_skip; [by rewrite lookup_app_r, length_fmap, Nat.sub_diag by (by rewrite length_fmap)|done].
    apply Forall_cons in Hne as [Hc Hne]. cbn [total foldr] in *. fold (total (comp suf)) in *. pose proof (total_nonneg (comp suf)) as Hn. pose proof (len_nonneg c) as Hlc.
    destruct fuel as [|fuel]; [lia|]. cbn [inflateLoop]. rewrite (proj2 (Z.ltb_lt _ _)) by lia. cbn [negb].
    destruct (read_length c (comp suf) gz Hc Hdel Hful) as (gz1 & -> & Hdel1 & Hful1).
    assert (is_u32 (len c)) as Hu by (unfold is_u32; lia). rewrite (u32_id _ Hu).
    rewrite buffer_full by (by rewrite le32_enc, enc_length). rewrite le32_enc, Uint32_enc4 by done. cbn [mbind outcome_bind].
    replace (Z.to_nat (len c)) with (length c) by (unfold len; lia). destruct (read_cert c (comp suf) gz1 Hc Hdel1 Hful1) as (err' & gz2 & -> & Hdel2 & Hful2). rewrite Z.eqb_refl. cbn [shortRead].
    pose proof (nextCompressed_here pre.*1 suf.*1 0) as Hnext. rewrite length_fmap in Hnext. cbn [Nat.add] in Hnext. rewrite Hnext.
    rewrite buffer_full by done. rewrite insert_app_r_alt by (by rewrite length_fmap). rewrite length_fmap, Nat.sub_diag. cbn [insert list_insert].
    rewrite (u32_id (4 + len c)) by (unfold is_u32; lia). rewrite u32_id by (unfold is_u32; lia).
    rewrite <- (IH fuel gz2) by (done || lia). f_equal. lia.
Qed.

(** *** Both directions *)
Lemma splitLoop_ok n hashes : Forall is_byte hashes → (8 * n <= length hashes)%nat → is_ok (splitLoop n hashes) = true.
Proof.
  revert hashes. induction n as [|n IH]; intros hashes Hb Hl; [done|]. cbn [splitLoop]. unfold slice. rewrite decide_True by lia. cbn [mbind outcome_bind].
  destruct (Uint64_val (take (8 - 0) (drop 0 hashes))) as [v ->]; [by apply Forall_take, Forall_drop|rewrite length_take, length_drop; lia|]. cbn [mbind outcome_bind].
  specialize (IH (drop 8 hashes)). destruct (splitLoop n (drop 8 hashes)); cbn in *; try done; apply IH; [by apply Forall_drop|rewrite length_drop; lia|by apply Forall_drop|rewrite length_drop; lia].
Qed.
Lemma splitHashes_ok hashes : Forall is_byte hashes → len hashes mod 8 = 0 → ∃ hs, splitHashes hashes = Ok hs.
Proof.
  intros Hb Hm. unfold splitHashes. rewrite Hm. cbn [Z.eqb negb].
  pose proof (splitLoop_ok (length hashes / 8) hashes Hb) as H. pose proof (Nat.Div0.mul_div_le (length hashes) 8) as Hd.
  destruct (splitLoop (length hashes / 8) hashes) as [hs| |]; [by exists hs|specialize (H Hd)..]; done.
Qed.

Lemma plain_len certs : len (plain certs) = total certs.
Proof.
  induction certs as [|c certs IH]; [done|]. change (plain (c :: certs)) with ((le32 (u32 (len c)) ++ c) ++ plain certs). cbn [total foldr]. fold (total certs).
  rewrite !len_app, IH. unfold len at 1. rewrite le32_enc, enc_length. lia.
Qed.
Lemma plain_bytes certs : Forall (Forall is_byte) certs → Forall is_byte (plain certs).
Proof.
  induction 1 as [|c certs Hc _ IH]; [constructor|]. change (plain (c :: certs)) with ((le32 (u32 (len c)) ++ c) ++ plain certs).
  rewrite <- (assoc_L (++)), le32_enc. apply enc_app_bytes, Forall_app. done.
Qed.
Lemma comp_total ecs : total (comp ecs) <= total ecs.*2.
Proof.
  induction ecs as [|[e c] ecs IH]; [done|]. rewrite comp_cons. pose proof (len_nonneg c).
  change (total ((e, c) :: ecs).*2) with (4 + len c + total ecs.*2). destruct e; cbn [app isCompressed]; [|lia..].
  change (total (c :: comp ecs)) with (4 + len c + total (comp ecs)). lia.
Qed.

Lemma written_length (ecs : list (entry * list Z)) : (length ecs <= length (concat (writeEntry <$> ecs.*1)))%nat.
Proof. induction ecs as [|[e c] ecs IH]; [done|]. cbn [fmap list_fmap concat length fst]. rewrite length_app. cbn. lia. Qed.

Lemma no_compressed (ecs : list (entry * list Z)) : 0 <? total (comp ecs) = existsb isCompressed ecs.*1.
Proof.
  induction ecs as [|[e c] ecs IH]; [done|]. rewrite comp_cons. destruct e; cbn [isCompressed app total foldr existsb fmap list_fmap fst orb]; try exact IH.
  apply Z.ltb_lt. pose proof (len_nonneg c). pose proof (total_nonneg (comp ecs)) as H0. unfold total in H0. lia.
Qed.

Lemma compress_decompress chain common : sets_ok → Forall is_byte common → len common mod 8 = 0 →
  Forall (λ c, c ≠ [] ∧ Forall is_byte c) chain → total chain < 2 ^ 32 → full_reads Z' →
  ∃ bs, compressChain Z' certSets chain common [] = Ok bs ∧ decompressChain Z' certSets bs = Ok chain.
Proof.
  intros Hs Hb Hm Hne Hw Hfull. destruct (splitHashes_ok common Hb Hm) as [hs Ehs]. unfold compressChain. change (splitHashes []) with (Ok (A := list Z) []). rewrite Ehs. cbn [mbind outcome_bind].
  set (ecs := (λ c, (buildEntry certSets [] hs c, c)) <$> chain).
  assert (ecs.*2 = chain) as E2 by (unfold ecs; rewrite <- list_fmap_compose; apply list_fmap_id).
  assert (buildEntries certSets chain [] hs = ecs.*1) as -> by (unfold ecs; by rewrite <- list_fmap_compose).
  assert (Forall stands ecs) as Hst by (apply Forall_fmap, Forall_true; intros c; by apply buildEntry_stands).
  rewrite <- E2 in Hne, Hw |- *. clearbody ecs. clear E2 chain. rewrite <- (assoc_L (++)). fold (total (comp ecs)) in *. change (totalUncompressedLen ecs.*1 ecs.*2) with (total (comp ecs)).
  pose proof (comp_total ecs). pose proof (total_nonneg (comp ecs)).
  assert (Forall (λ c, c ≠ [] ∧ Forall is_byte c) (comp ecs)) as Hcne0.
  { clear -Hne. induction ecs as [|[e c] ecs IH]; [done|]. cbn in Hne. apply Forall_cons in Hne as [Hc Hne]. rewrite comp_cons. destruct e; cbn; auto. }
  apply Forall_and in Hcne0 as [Hcne Hcb]. assert (Forall is_byte (deflate Z' (buildZlibDictForEntries ecs.*1 ecs.*2) (plain (comp ecs)))) as Hdb by (by apply deflate_bytes, plain_bytes).
  eexists. split; [reflexivity|]. unfold decompressChain. destruct (0 <? total (comp ecs)) eqn:Et.
  - assert (is_u32 (total (comp ecs))) as Hu by (unfold is_u32; lia). rewrite (u32_id _ Hu). cbn [app].
    rewrite readEntries_written; [|done|rewrite le32_enc; by apply enc_app_bytes|rewrite !length_app; pose proof (written_length ecs); cbn; lia].
    cbn [mbind outcome_bind]. assert ((known <$> ecs).*1 = ecs.*1) as E1 by (rewrite <- list_fmap_compose; by apply list_fmap_ext; intros ? []).
    pose proof (no_compressed ecs) as Hex. rewrite Et in Hex. rewrite dict_known, E1, <- Hex. rewrite le32_enc, ReadUint32_enc by done. cbn [mbind outcome_bind].
    destruct (inflate_deflate (buildZlibDictForEntries ecs.*1 ecs.*2) (plain (comp ecs))) as (gz & Ei & Hdel).
    assert (reads_full gz (sizes (comp ecs))) as Hful.
    { eapply Hfull; [exact Ei|]. pose proof (sizes_total (comp ecs)) as Hsz. rewrite <- plain_len in Hsz. unfold len in Hsz. lia. }
    rewrite Ei. cbn [mbind outcome_bind]. pose proof (inflateLoop_plain [] ecs (S (length ecs.*1)) (total (comp ecs)) gz) as Hloop.
    cbn [fmap list_fmap app length] in Hloop. rewrite Z.sub_diag in Hloop. rewrite <- Hloop; [done|lia|done|lia|rewrite length_fmap; lia|done|done].
  - rewrite readEntries_written; [|done|constructor|rewrite length_app; pose proof (written_length ecs); cbn; lia].
    cbn [mbind outcome_bind]. assert ((known <$> ecs).*1 = ecs.*1) as E1 by (rewrite <- list_fmap_compose; by apply list_fmap_ext; intros ? []).
    pose proof (no_compressed ecs) as Hex. rewrite Et in Hex. rewrite E1, <- Hex. f_equal. clear -Hex.
    induction ecs as [|[e c] ecs IH]; [done|]. cbn in Hex |- *. destruct e; cbn in *; [done|f_equal; by apply IH..].
Qed.

(** What the client makes of it: the chain, if every certificate can be parsed. *)
Lemma parse_compressed X chain common cache : sets_ok → Forall is_byte common → len common mod 8 = 0 →
  Forall (λ c, c ≠ [] ∧ Forall is_byte c) chain → total chain < 2 ^ 32 → full_reads Z' →
  Forall (λ c, parseCertificate X c = None) chain → cache (cacheKey chain common []) = None →
  ∃ bs, getCompressedCert Z' certSets cache chain common [] = Ok (bs, Some (cacheKey chain common [], bs)) ∧ parseChain X Z' certSets bs = Ok chain.
Proof.
  intros Hs Hb Hm Hne Hw Hfull Hp Hc. destruct (compress_decompress chain common Hs Hb Hm Hne Hw Hfull) as (bs & E1 & E2). exists bs.
  unfold getCompressedCert, parseChain. rewrite Hc, E1, E2. split; [done|]. clear -Hp. induction Hp as [|c chain Hc _ IH]; cbn; [done|]. by rewrite Hc, IH.
Qed.

End roundtrip.

(** ** Whatever arrives *)
Section safety.
Import protocol binary crypto certificates.
Context (Z' : Zlib) {HZ : ZlibOk Z'} (certSets : gmap Z (list (list Z))).

Lemma readEntries_safe fuel r : Forall is_byte r → (length r <= fuel)%nat →
  match readEntries certSets fuel r with Ok (_, r') => Forall is_byte r' | Err _ => True | Panic => False end.
Proof.
  revert r. induction fuel as [|fuel IH]; intros [|b r] Hb Hl; cbn [readEntries length] in *; [done|lia|done|].
  apply Forall_cons in Hb as [_ Hb]. destruct (b =? 0); [done|]. destruct (b =? 2); [done|]. destruct (b =? 3).
  - pose proof (parses_ReadUint64 LittleEndian r Hb) as H1. destruct (ReadUint64 LittleEndian r) as [[h r1]| |]; [|done|done]. destruct H1 as (_ & pre & -> ). cbn [mbind outcome_bind].
    rewrite length_app in Hl. apply Forall_app in Hb as [_ Hb]. pose proof (parses_ReadUint32 LittleEndian r1 Hb) as H2.
    destruct (ReadUint32 LittleEndian r1) as [[i r2]| |]; [|done|done]. destruct H2 as (Hi & pre' & ->). cbn [mbind outcome_bind].
    rewrite length_app in Hl. apply Forall_app in Hb as [_ Hb]. destruct (certSets !! h) as [set|]; [|done].
    destruct (Z.leb_spec (u32 (len set)) i) as [|Hlt]; [done|].
    assert (u32 (len set) <= len set) as Hle by (unfold u32; apply Z.mod_le; [apply len_nonneg|lia]).
    destruct (set !! Z.to_nat i) as [cert|] eqn:E; [|apply lookup_ge_None in E; unfold len, is_u32 in *; lia].
    specialize (IH r2 Hb ltac:(lia)). destruct (readEntries certSets fuel r2) as [[rest r3]| |]; done.
  - destruct (b =? 1); [|done]. specialize (IH r Hb ltac:(lia)). destruct (readEntries certSets fuel r) as [[rest r3]| |]; done.
Qed.

Lemma read_at_most n r : (length (read n r).1.1 <= n)%nat.
Proof. destruct r as [|[piece err] r]; [cbn; lia|]. cbn [read]. destruct (Nat.ltb_spec n (length piece)); cbn [fst]; [rewrite length_take; lia|lia]. Qed.
Lemma buffer_length n data : (length data <= n)%nat → length (buffer n data) = n.
Proof. intros H. unfold buffer. rewrite length_app, length_replicate. lia. Qed.

Lemma nextCompressed_range es k j i : nextCompressed es k j = Some i → (k <= i < j + length es)%nat.
Proof.
  revert j. induction es as [|e es IH]; intros j; cbn; [done|]. destruct ((k <=? j)%nat && isCompressed e) eqn:E.
  - intros [= <-]. apply andb_prop in E as [E _]. apply Nat.leb_le in E. lia.
  - intros H. specialize (IH _ H). lia.
Qed.

Lemma inflateLoop_safe fuel gz w t k es ch : (length es - k < fuel)%nat → inflateLoop fuel gz w t k es ch ≠ Panic.
Proof.
  revert gz t k ch. induction fuel as [|fuel IH]; intros gz t k ch Hf; [lia|]. cbn [inflateLoop]. destruct (t <? w); [|done]. cbn [negb].
  pose proof (read_at_most 4 gz) as Hr. destruct (read 4 gz) as [[lb err] gz1]. cbn in Hr. destruct err; [done|].
  pose proof (buffer_length 4 lb Hr) as Hl. destruct (buffer 4 lb) as [|b0 [|b1 [|b2 [|b3 l]]]]; try discriminate Hl. destruct (Uint32 (b0 :: b1 :: b2 :: b3 :: l)) as [certLen| |] eqn:Eu; [|done|discriminate Eu].
  cbn [mbind outcome_bind]. destruct (read (Z.to_nat certLen) gz1) as [[data err] gz2]. destruct (shortRead err (len data =? certLen)); [done|].
  destruct (nextCompressed es k 0) as [i|] eqn:En; [|done]. apply nextCompressed_range in En. apply IH. lia.
Qed.

(** Decompressing ends. Whatever bytes arrive as compressed certificates, and however the
    decompression delivers its data, the client comes to an end: it has a chain or an error,
    and it does not run out of entries or index out of a set of common certificates. *)
Theorem decompress_ends data : Forall is_byte data → decompressChain Z' certSets data ≠ Panic.
Proof.
  intros Hb. unfold decompressChain. pose proof (readEntries_safe (length data) data Hb (Nat.le_refl _)) as Hr.
  destruct (readEntries certSets (length data) data) as [[kn r]| |]; [|done|done]. cbn [mbind outcome_bind]. destruct (existsb isCompressed kn.*1); [|done].
  pose proof (parses_ReadUint32 LittleEndian r Hr) as H2. destruct (ReadUint32 LittleEndian r) as [[w r1]| |]; [|done|done]. cbn [mbind outcome_bind].
  pose proof (inflate_returns (buildZlibDictForEntries kn.*1 kn.*2) r1) as Hi. destruct (inflate Z' (buildZlibDictForEntries kn.*1 kn.*2) r1); [|done|done].
  apply inflateLoop_safe. lia.
Qed.
End safety.

(** ** Examples *)
Module CertificatesExamples.
Import protocol binary crypto certificates.

(** Data that is not compressed, delivered at once or in two pieces. *)
Definition stored : Zlib := MkZlib (λ _ data, data) (λ _ data, Ok [(data, Some EOF)]).
Definition pieces : Zlib := MkZlib (λ _ data, data) (λ _ data, Ok [(take 6 data, None); (drop 6 data, Some EOF)]).

#[global] Instance stored_ok : ZlibOk stored.
Proof.
  split; [|done|done]. intros dict data. exists [(data, Some EOF)]. split; [done|]. exists []. split; [by rewrite app_nil_r|done].
Qed.

(** Short reads are within what is documented. *)
#[global] Instance pieces_ok : ZlibOk pieces.
Proof.
  split; [|done|done]. intros dict data. eexists. split; [reflexivity|]. exists (drop 6 data). split; [by rewrite take_drop|].
  split; [|done]. exists []. split; [by rewrite app_nil_r|done].
Qed.


Definition common : list Z := [48; 7; 7].
Definition sets : gmap Z (list (list Z)) := {[ 99 := [[48; 1]; common] ]}.
Definition chain : list (list Z) := [[48; 3; 1; 2; 3]; common; [48; 4; 5]].



Lemma decompress_ends_witness : decompressChain stored sets [3; 99; 0; 0; 0; 0; 0; 0; 0; 2; 0; 0; 0; 0] = Err errNotInSet.
Proof.
  pose proof (decompress_ends stored sets [3; 99; 0; 0; 0; 0; 0; 0; 0; 2; 0; 0; 0; 0] (are_bytes [3; 99; 0; 0; 0; 0; 0; 0; 0; 2; 0; 0; 0; 0] eq_refl)) as H.
  destruct (decompressChain stored sets [3; 99; 0; 0; 0; 0; 0; 0; 0; 2; 0; 0; 0; 0]) as [c|e|] eqn:E.
  - vm_compute in E. discriminate.
  - rewrite <- E. vm_compute. reflexivity.
  - destruct (H eq_refl).
Defined.

(** A read that delivers less than the buffer holds is not noticed: the certificate ends with
    zeros. *)
Example short_read_corrupts : (compressChain pieces ∅ [[1; 2; 3; 4]] [] [] ≫= decompressChain pieces ∅) = Ok [[1; 2; 0; 0]].
Proof. vm_compute. reflexivity. Qed.

(** The key of the cache does not tell the two lists of hashes apart: after a client that has
    cached the certificate, one that names the same hash as a set gets an entry that it cannot
    resolve. *)
Definition remembered (o : outcome (list Z * option (Z * list Z))) (k : Z) : option (list Z) :=
  match o with Ok (_, Some (k', result)) => if k =? k' then Some result else None | _ => None end.
Example cache_mixes_requests :
  let hash := le64 (HashCert [1; 2; 3]) in
  let cache := remembered (getCompressedCert stored sets (λ _, None) [[1; 2; 3]] [] hash) in
  ('(result, _) ← getCompressedCert stored sets cache [[1; 2; 3]] hash []; decompressChain stored sets result) = Err errCached.
Proof. vm_compute. reflexivity. Qed.

End CertificatesExamples.
