(* ===== verification/ServerConfig.v ===== *)
(** * ServerConfig: the server configuration, as the server makes it and the client reads it

    internal/handshake/server_config.go, internal/handshake/server_config_client.go, the
    ephemeral key cache (internal/handshake/ephermal_cache.go) and the source address tokens
    of internal/handshake/cookie_generator.go with the check of server.go. Random bytes and
    readings of the clock are arguments. *)
From S2P Require Import Prelude Protocol ByteOrder AckFrames Frames PublicHeader HandshakeMessages Stream StreamsMap StreamFramer PacketPacker Crypto.

Module serverConfig.
Import protocol binary handshake crypto.

Definition C255 : list Z := [67; 50; 53; 53].
Definition AESG : list Z := [65; 69; 83; 71].

Section config.
Context (P : Primitives).

(** ** server_config.go; the certificates are a parameter of the crypto setup. *)
Record ServerConfig := MkServerConfig { kex : curve25519KEX; ID : list Z; obit : list Z }.

(** [r] are the bytes that are drawn for the identifier and for the orbit. *)
Definition NewServerConfig (k : curve25519KEX) (r : list Z * list Z) : ServerConfig := MkServerConfig k r.1 r.2.

Definition configData (s : ServerConfig) : gmap Z (list Z) :=
  {[ TagSCID := ID s; TagKEXS := C255; TagAEAD := AESG; TagPUBS := [32; 0; 0] ++ PublicKey (kex s);
     TagOBIT := obit s; TagEXPY := replicate 8 255 ]}.
Definition Get (s : ServerConfig) : outcome (list Z) := Write (MkHandshakeMessage TagSCFG (configData s)) [].

(** ** server_config_client.go *)
Record serverConfigClient := MkServerConfigClient {
  cRaw : list Z;
  cID : list Z;
  cObit : list Z;
  expiry : Z;
  cKex : curve25519KEX;
  sharedSecret : list Z;
}.

Definition errMessageNotServerConfig : error := NewError "ServerConfig must have TagSCFG".
Definition notFound : error := qerr.Error qerr.CryptoMessageParameterNotFound.
Definition invalidLength : error := qerr.Error qerr.CryptoInvalidValueLength.
Definition noSupport : error := qerr.Error qerr.CryptoNoSupport.

Definition lookupTag (m : gmap Z (list Z)) (t : Z) : outcome (list Z) :=
  match m !! t with Some v => Ok v | None => Err notFound end.

(** The index of the first group of four bytes that is [name]. *)
Fixpoint findAt (n : nat) (i : nat) (name l : list Z) : outcome (option nat) :=
  match n with
  | O => Ok None
  | S n =>
      g ← slice (4 * i) (4 * i + 4) l;
      if bool_decide (g = name) then Ok (Some i) else findAt n (S i) name l
  end.
Definition find4 (name l : list Z) : outcome (option nat) := findAt (length l / 4) 0 name l.

(** The public values, each behind three bytes with its length. An iteration takes four
    bytes at least, so the length of the value bounds their number. *)
Fixpoint pubsLoop (fuel : nat) (i : nat) (pubs : list Z) : outcome (list (Z * list Z)) :=
  match fuel with
  | O => Ok []
  | S fuel =>
      if Z.of_nat i <? len pubs - 3 then
        match pubs !! i, pubs !! S i, pubs !! S (S i) with
        | Some b0, Some b1, Some b2 =>
            last_len ← Uint32 [b0; b1; b2; 0];
            if last_len =? 0 then Err invalidLength
            else if len pubs <? Z.of_nat i + 3 + last_len then Err invalidLength
            else
              v ← slice (i + 3) (i + 3 + Z.to_nat last_len) pubs;
              rest ← pubsLoop fuel (i + Z.to_nat last_len + 3) pubs;
              Ok ((last_len, v) :: rest)
        | _, _, _ => Panic
        end
      else Ok []
  end.

Definition maxExpiry : Z := 4611686018427387903.

(** [random] are the bytes for the key of the client. *)
Definition parseValues (random : list Z) (raw : list Z) (tagMap : gmap Z (list Z)) : outcome serverConfigClient :=
  scfgID ← lookupTag tagMap TagSCID;
  if negb (len scfgID =? 16) then Err invalidLength else
  kexs ← lookupTag tagMap TagKEXS;
  if negb (len kexs mod 4 =? 0) then Err invalidLength else
  c255Foundat ← find4 C255 kexs;
  match c255Foundat with
  | None => Err noSupport
  | Some c255Foundat =>
      aead ← lookupTag tagMap TagAEAD;
      if negb (len aead mod 4 =? 0) then Err invalidLength else
      aesgFound ← find4 AESG aead;
      if bool_decide (aesgFound = None) then Err noSupport else
      pubs ← lookupTag tagMap TagPUBS;
      pubs_kexs ← pubsLoop (length pubs) 0 pubs;
      match pubs_kexs !! c255Foundat with
      | None => Err notFound
      | Some (length, value) =>
          if negb (length =? 32) then Err invalidLength else
          let k := NewCurve25519KEX P random in
          secret ← CalculateSharedKey P k value;
          ob ← lookupTag tagMap TagOBIT;
          if negb (len ob =? 8) then Err invalidLength else
          expy ← lookupTag tagMap TagEXPY;
          if negb (len expy =? 8) then Err invalidLength else
          e ← Uint64 expy;
          Ok (MkServerConfigClient raw scfgID ob (Z.min e maxExpiry * time.Second) k secret)
      end
  end.

Definition parseServerConfig (random data : list Z) : outcome serverConfigClient :=
  '(message, _) ← ParseHandshakeMessage data;
  if negb (Tag message =? TagSCFG) then Err errMessageNotServerConfig
  else parseValues random data (Data message).

Definition IsExpired (s : serverConfigClient) (now : Z) : bool := time.Before (expiry s) now.

(** ** ephermal_cache.go

    The key and when it was made; the readings of the clock are those of the two calls of
    [time.Since] and of [time.Now]. [fresh] is the new key, or nothing when it cannot be
    made. *)
Definition EphermalKeyLifetime : Z := 60 * time.Second.
Definition kexCache : Type := option (curve25519KEX * Z).

Definition getEphermalKEX (c : kexCache) (t1 t2 t3 : Z) (fresh : option curve25519KEX) : kexCache * option curve25519KEX :=
  match c with
  | Some (k, t) =>
      if time.Sub t1 t <? EphermalKeyLifetime then (c, Some k)
      else if EphermalKeyLifetime <? time.Sub t2 t then
        match fresh with Some k' => (Some (k', t3), Some k') | None => (c, Some k) end
      else (c, Some k)
  | None => match fresh with Some k' => (Some (k', t3), Some k') | None => (None, None) end
  end.

(** ** cookie_generator.go

    [encoding/asn1] and the text of an IP address are parameters. *)
Inductive Addr := UDP (ip : list Z) | OtherAddr (name : string).

Record Cookie := MkCookie { RemoteAddr : string; SentTime : Z }.

Context (Marshal : list Z * Z → list Z) (Unmarshal : list Z → option (list Z * Z * list Z)) (ipString : list Z → string).

Definition stringOf (bs : list Z) : string := String.string_of_list_ascii ((λ b, Ascii.ascii_of_nat (Z.to_nat b)) <$> bs).

Definition encodeRemoteAddr (a : Addr) : list Z := match a with UDP ip => 0 :: ip | OtherAddr s => 1 :: bytesOf s end.
Definition decodeRemoteAddr (data : list Z) : string :=
  match data with
  | [] => ""
  | prefix :: rest => if prefix =? 0 then ipString rest else stringOf rest
  end.

Definition errAsn1 : error := NewError "asn1: structure error".
Definition errRest : error := NewError "rest when unpacking token".

(** [key] is the key of the source of tokens, [now] the time in seconds. *)
Definition NewToken (key nonce : list Z) (now : Z) (raddr : Addr) : list Z :=
  stkNewToken P key nonce (Marshal (encodeRemoteAddr raddr, Z.div now time.Second)).

Definition DecodeToken (key encrypted : list Z) : outcome (option Cookie) :=
  if len encrypted =? 0 then Ok None
  else
    data ← stkDecodeToken P key encrypted;
    match Unmarshal data with
    | None => Err errAsn1
    | Some (d, timestamp, rest) =>
        if negb (len rest =? 0) then Err errRest
        else Ok (Some (MkCookie (decodeRemoteAddr d) (timestamp * time.Second)))
    end.

(** server.go: defaultAcceptCookie. *)
Definition CookieExpiryTime : Z := 24 * 3600 * time.Second.
Definition sourceAddr (a : Addr) : string := match a with UDP ip => ipString ip | OtherAddr s => s end.
Definition defaultAcceptCookie (now : Z) (clientAddr : Addr) (cookie : option Cookie) : bool :=
  match cookie with
  | None => false
  | Some c => if time.After now (time.Add (SentTime c) CookieExpiryTime) then false
              else bool_decide (sourceAddr clientAddr = RemoteAddr c)
  end.

End config.

End serverConfig.

(** ** The client understands the server *)
Section scfg.
Import protocol binary handshake crypto serverConfig.
Context (P : Primitives) (ov : Z) {HP : PrimitivesOk P ov}.
Implicit Types (s : ServerConfig).

Lemma tag_lookup (h : HandshakeMessage) t v : Data h !! t = Some v → lookupTag (Data h) t = Ok v.
Proof. unfold lookupTag. by intros ->. Qed.

(** A configuration that NewServerConfig makes. *)
Definition config_ok s : Prop :=
  length (ID s) = 16%nat ∧ Forall is_byte (ID s) ∧ length (obit s) = 8%nat ∧ Forall is_byte (obit s) ∧ ∃ r, kex s = NewCurve25519KEX P r.

Lemma config_message_ok s : config_ok s → message_ok (MkHandshakeMessage TagSCFG (configData s)).
Proof.
  intros (H1 & H2 & H3 & H4 & r & Hk). split; [by apply Z_u32|]. split; [by vm_compute|]. cbn [Data]. unfold configData.
  assert (∀ v, Forall is_byte v → (length v <= 100)%nat → len v <= CryptoParameterMaxLength ∧ Forall is_byte v) as Hv.
  { intros v Hb Hl. unfold CryptoParameterMaxLength, len. split; [lia|done]. }
  repeat apply map_Forall_insert_2; try apply map_Forall_singleton; (split; [by apply Z_u32|]); apply Hv; try done; try (cbn; lia);
    try (by apply are_bytes).
  - apply Forall_app. split; [by apply are_bytes|]. rewrite Hk. cbn. apply scalarBaseMult_bytes.
  - rewrite length_app, Hk. cbn [PublicKey public NewCurve25519KEX]. rewrite scalarBaseMult_length. cbn. lia.
Qed.

Lemma pubs_single k : length k = 32%nat → pubsLoop (length ([32; 0; 0] ++ k)) 0 ([32; 0; 0] ++ k) = Ok [(32, k)].
Proof.
  intros Hk. remember ([32; 0; 0] ++ k) as l eqn:El. assert (length l = 35%nat) as Hl by (rewrite El, length_app, Hk; done).
  assert (len l = 35) as Hz by (unfold len; by rewrite Hl). assert (l !! 0%nat = Some 32 ∧ l !! 1%nat = Some 0 ∧ l !! 2%nat = Some 0) as (L0 & L1 & L2) by (by rewrite El).
  assert (slice (0 + 3) (0 + 3 + Z.to_nat 32) l = Ok k) as Hs.
  { unfold slice. rewrite decide_True by (rewrite Hl; cbn; lia). rewrite El, drop_app_length' by done. f_equal. apply take_ge. rewrite Hk. cbn. lia. }
  assert (∀ f, pubsLoop (S f) 0 l = pubsLoop f 35 l ≫= λ rest, Ok ((32, k) :: rest)) as Hfirst.
  { intros f. cbn [pubsLoop]. rewrite L0, L1, L2, Hz. change (Z.of_nat 0 <? 35 - 3) with true. cbv iota.
    change (Uint32 [32; 0; 0; 0]) with (Ok (A := Z) 32). cbn [mbind outcome_bind]. change (32 =? 0) with false. change (35 <? Z.of_nat 0 + 3 + 32) with false. cbv iota.
    rewrite Hs. done. }
  rewrite Hl, Hfirst. assert (pubsLoop 34 35 l = Ok []) as ->; [|done]. cbn [pubsLoop]. by rewrite Hz.
Qed.

Lemma config_parsed s random now : config_ok s → now <= maxExpiry * time.Second →
  ∃ raw c, Get s = Ok raw ∧ parseServerConfig P random raw = Ok c ∧
    cRaw c = raw ∧ cID c = ID s ∧ cObit c = obit s ∧ IsExpired c now = false ∧
    cKex c = NewCurve25519KEX P random ∧ CalculateSharedKey P (kex s) (PublicKey (cKex c)) = Ok (sharedSecret c).
Proof.
  intros Hok Hnow. pose proof (config_message_ok s Hok) as Hm. destruct Hok as (H1 & H2 & H3 & H4 & r & Hk).
  set (msg := MkHandshakeMessage TagSCFG (configData s)) in *. pose proof (ParseHandshakeMessage_image msg [] Hm (Forall_nil_2 _)) as Hp. rewrite app_nil_r in Hp.
  exists (image msg). unfold Get. fold msg. rewrite Write_format by done. unfold parseServerConfig. rewrite Hp. cbn [mbind outcome_bind].
  change (Tag msg =? TagSCFG) with true. cbn [negb]. unfold parseValues.
  rewrite (tag_lookup msg TagSCID (ID s) eq_refl). cbn [mbind outcome_bind]. unfold len at 1. rewrite H1. change (Z.of_nat 16 =? 16) with true. cbn [negb].
  rewrite (tag_lookup msg TagKEXS C255 eq_refl). cbn [mbind outcome_bind]. change (len C255 mod 4 =? 0) with true. cbn [negb].
  change (find4 C255 C255) with (Ok (A := option nat) (Some 0%nat)). cbn [mbind outcome_bind].
  rewrite (tag_lookup msg TagAEAD AESG eq_refl). cbn [mbind outcome_bind]. change (len AESG mod 4 =? 0) with true. cbn [negb].
  change (find4 AESG AESG) with (Ok (A := option nat) (Some 0%nat)). cbn [mbind outcome_bind]. rewrite bool_decide_eq_false_2 by done.
  rewrite (tag_lookup msg TagPUBS ([32; 0; 0] ++ PublicKey (kex s)) eq_refl). cbn [mbind outcome_bind].
  assert (length (PublicKey (kex s)) = 32%nat) as Hpk by (rewrite Hk; apply scalarBaseMult_length).
  rewrite (pubs_single _ Hpk). cbn [mbind outcome_bind lookup list_lookup].
  change (32 =? 32) with true. cbn [negb].
  pose proof (shared_keys_agree P ov random r) as [Ea Eo]. cbv zeta in Ea, Eo. rewrite <- Hk in Ea, Eo.
  destruct (CalculateSharedKey P (NewCurve25519KEX P random) (PublicKey (kex s))) as [secret| |]; try done. cbn [mbind outcome_bind].
  rewrite (tag_lookup msg TagOBIT (obit s) eq_refl). cbn [mbind outcome_bind]. unfold len at 1. rewrite H3. change (Z.of_nat 8 =? 8) with true. cbn [negb].
  rewrite (tag_lookup msg TagEXPY (replicate 8 255) eq_refl). cbn [mbind outcome_bind]. change (len (replicate 8 255) =? 8) with true. cbn [negb].
  change (Uint64 (replicate 8 255)) with (Ok (A := Z) 18446744073709551615). cbn [mbind outcome_bind].
  eexists. split; [done|]. split; [done|]. cbn [cRaw cID cObit cKex sharedSecret]. split_and!; try done.
  unfold IsExpired, time.Before. cbn [expiry]. apply Z.ltb_ge. change (Z.min 18446744073709551615 maxExpiry) with maxExpiry. done.
Qed.

(** A client understands the configuration of a server. What the server writes is
    parsed by every client, whatever key it draws: the client has the identifier and the
    orbit of the server, keeps the bytes as they were sent, does not take the configuration
    for expired, and its shared secret is the one that the server computes from the public
    key of the client. *)
Theorem server_config_roundtrip s random now : config_ok s → now <= maxExpiry * time.Second →
  ∃ raw c, Get s = Ok raw ∧ parseServerConfig P random raw = Ok c ∧
    cRaw c = raw ∧ cID c = ID s ∧ cObit c = obit s ∧ IsExpired c now = false ∧
    cKex c = NewCurve25519KEX P random ∧ CalculateSharedKey P (kex s) (PublicKey (cKex c)) = Ok (sharedSecret c).
Proof. apply config_parsed. Qed.

(** *** Whatever arrives *)

Definition no_panic {A} (o : outcome A) : Prop := o ≠ Panic.

Lemma no_panic_bind {A B} (o : outcome A) (k : A → outcome B) : no_panic o → (∀ a, o = Ok a → no_panic (k a)) → no_panic (o ≫= k).
Proof. intros Ho Hk. destruct o; cbn; [by apply Hk|done|done]. Qed.
Lemma no_panic_if {A} (b : bool) (x y : outcome A) : (b = true → no_panic x) → (b = false → no_panic y) → no_panic (if b then x else y).
Proof. destruct b; auto. Qed.

Lemma findAt_safe n i name l : (4 * (i + n) <= length l)%nat → no_panic (findAt n i name l).
Proof.
  revert i. induction n as [|n IH]; intros i Hl; [done|]. cbn [findAt]. unfold slice. rewrite decide_True by lia. cbn [mbind outcome_bind].
  case_match; [done|]. apply IH. lia.
Qed.
Lemma find4_safe name l : no_panic (find4 name l).
Proof. apply findAt_safe. pose proof (Nat.div_mod_eq (length l) 4). lia. Qed.

Lemma pubsLoop_safe fuel i pubs : Forall is_byte pubs → no_panic (pubsLoop fuel i pubs).
Proof.
  intros Hb. revert i. induction fuel as [|fuel IH]; intros i; [done|]. cbn [pubsLoop]. apply no_panic_if; [|done]. intros Hi%Z.ltb_lt. unfold len in Hi.
  destruct (lookup_lt_is_Some_2 pubs i) as [b0 E0]; [lia|]. destruct (lookup_lt_is_Some_2 pubs (S i)) as [b1 E1]; [lia|].
  destruct (lookup_lt_is_Some_2 pubs (S (S i))) as [b2 E2]; [lia|]. rewrite E0, E1, E2.
  pose proof (Forall_lookup_1 _ _ _ _ Hb E0) as B0. pose proof (Forall_lookup_1 _ _ _ _ Hb E1) as B1. pose proof (Forall_lookup_1 _ _ _ _ Hb E2) as B2.
  destruct (Uint32_4 [b0; b1; b2; 0]) as (v & Ev & Hv); [repeat (constructor; [done|]); repeat constructor|done|]. rewrite Ev. cbn [mbind outcome_bind].
  apply no_panic_if; [done|]. intros _. apply no_panic_if; [done|]. intros Hl%Z.ltb_ge. unfold len in Hl. unfold is_u32 in Hv.
  unfold slice. rewrite decide_True by lia. cbn [mbind outcome_bind]. apply no_panic_bind; [apply IH|done].
Qed.

Lemma lookupTag_safe m t : no_panic (lookupTag m t).
Proof. unfold lookupTag. by destruct (m !! t). Qed.

Lemma lookupTag_bytes (h : HandshakeMessage) t v : message_ok h → lookupTag (Data h) t = Ok v → Forall is_byte v.
Proof. intros (_ & _ & Hm). unfold lookupTag. destruct (Data h !! t) eqn:E; [|done]. intros [= <-]. by destruct (Hm _ _ E) as (_ & _ & ?). Qed.

Lemma CalculateSharedKey_safe k v : no_panic (CalculateSharedKey P k v).
Proof. unfold CalculateSharedKey. by case_match. Qed.

Lemma parseValues_safe random raw h : message_ok h → no_panic (parseValues P random raw (Data h)).
Proof.
  intros Hm. unfold parseValues.
  apply no_panic_bind; [apply lookupTag_safe|]. intros scid _. apply no_panic_if; [done|]. intros _.
  apply no_panic_bind; [apply lookupTag_safe|]. intros kexs _. apply no_panic_if; [done|]. intros _.
  apply no_panic_bind; [apply find4_safe|]. intros [i|] _; [|done].
  apply no_panic_bind; [apply lookupTag_safe|]. intros aead _. apply no_panic_if; [done|]. intros _.
  apply no_panic_bind; [apply find4_safe|]. intros found _. apply no_panic_if; [done|]. intros _.
  apply no_panic_bind; [apply lookupTag_safe|]. intros pubs Hp. apply no_panic_bind; [by eapply pubsLoop_safe, lookupTag_bytes|]. intros l _.
  destruct (l !! i) as [[n v]|]; [|done]. apply no_panic_if; [done|]. intros _.
  apply no_panic_bind; [apply CalculateSharedKey_safe|]. intros secret _.
  apply no_panic_bind; [apply lookupTag_safe|]. intros ob _. apply no_panic_if; [done|]. intros _.
  apply no_panic_bind; [apply lookupTag_safe|]. intros expy He. apply no_panic_if; [done|]. intros Hl%negb_false_iff%Z.eqb_eq.
  apply lookupTag_bytes in He; [|done]. destruct (Uint64_val expy He) as [x ->]; [unfold len in Hl; lia|done].
Qed.

Lemma outcome_if_inv {A} (b : bool) (e : error) (x : outcome A) a : (if b then Err e else x) = Ok a → b = false ∧ x = Ok a.
Proof. by destruct b. Qed.

(** C36: no server configuration makes a client panic. Whatever bytes arrive as a server
    configuration (they are not authenticated), parsing them returns; a configuration that is
    accepted has an identifier of 16 bytes and an orbit of eight bytes, which the client
    nonce needs. *)
Theorem parse_server_config_safe random data : Forall is_byte data →
  match parseServerConfig P random data with
  | Ok c => cRaw c = data ∧ len (cID c) = 16 ∧ len (cObit c) = 8
  | Err _ => True
  | Panic => False
  end.
Proof.
  intros Hb. unfold parseServerConfig. pose proof (parses_ParseHandshakeMessage data Hb) as Hp.
  destruct (ParseHandshakeMessage data) as [[h r]| |]; [|done|done]. destruct Hp as [Hm _]. cbn [mbind outcome_bind].
  destruct (negb (Tag h =? TagSCFG)); [done|].
  pose proof (parseValues_safe random data h Hm) as Hs. destruct (parseValues P random data (Data h)) as [c| |] eqn:E; [|done|by destruct Hs]. clear Hs.
  unfold parseValues in E.
  apply outcome_bind_inv in E as (scid & _ & E). apply outcome_if_inv in E as [H1 E].
  apply outcome_bind_inv in E as (kexs & _ & E). apply outcome_if_inv in E as [_ E].
  apply outcome_bind_inv in E as ([i|] & _ & E); [|done].
  apply outcome_bind_inv in E as (aead & _ & E). apply outcome_if_inv in E as [_ E].
  apply outcome_bind_inv in E as (found & _ & E). apply outcome_if_inv in E as [_ E].
  apply outcome_bind_inv in E as (pubs & _ & E). apply outcome_bind_inv in E as (l & _ & E).
  destruct (l !! i) as [[n v]|]; [|done]. apply outcome_if_inv in E as [_ E].
  apply outcome_bind_inv in E as (secret & _ & E). apply outcome_bind_inv in E as (ob & _ & E). apply outcome_if_inv in E as [H2 E].
  apply outcome_bind_inv in E as (expy & _ & E). apply outcome_if_inv in E as [_ E]. apply outcome_bind_inv in E as (x & _ & E).
  injection E as <-. cbn. split_and!; [done|lia|lia].
Qed.

(** *** Tokens and ephemeral keys *)

Context (Marshal : list Z * Z → list Z) (Unmarshal : list Z → option (list Z * Z * list Z)) (ipString : list Z → string).

(** A token proves its address for a day. A token that the server has given to an address
    is accepted from every address with the same text, and from no other one, up to 24 hours
    after the second in which it was made; without a token nothing is accepted. *)
Theorem token_accepted key nonce sent now raddr ip : length nonce = stkNonceSize →
  (∀ d t, Unmarshal (Marshal (d, t)) = Some (d, t, [])) → raddr = UDP ip →
  DecodeToken P Unmarshal ipString key [] = Ok None ∧ (∀ a, defaultAcceptCookie ipString now a None = false) ∧
  ∃ cookie, DecodeToken P Unmarshal ipString key (NewToken P Marshal key nonce sent raddr) = Ok (Some cookie) ∧
    ∀ a, defaultAcceptCookie ipString now a (Some cookie) = true ↔
      now <= sent / time.Second * time.Second + CookieExpiryTime ∧ sourceAddr ipString a = ipString ip.
Proof.
  intros Hn Hm ->. split; [done|]. split; [done|]. exists (MkCookie (ipString ip) (sent / time.Second * time.Second)). split.
  - unfold DecodeToken, NewToken. rewrite (stk_roundtrip P ov) by done.
    assert (len (stkNewToken P key nonce (Marshal (encodeRemoteAddr (UDP ip), sent / time.Second))) =? 0 = false) as ->.
    { unfold stkNewToken. rewrite len_app. unfold len at 1. rewrite Hn. pose proof (len_nonneg (gcmSeal P key nonce (Marshal (encodeRemoteAddr (UDP ip), sent / time.Second)) [])).
      apply Z.eqb_neq. unfold stkNonceSize. lia. }
    cbn [mbind outcome_bind]. rewrite Hm. done.
  - intros a. unfold defaultAcceptCookie, time.After, time.Add. cbn [SentTime RemoteAddr]. case_bool; [split; [done|lia]|].
    rewrite bool_decide_eq_true. split; [intros; split; [lia|done]|by intros []].
Qed.

(** Ephemeral keys are renewed. The key that getEphermalKEX returns was made at most a
    minute before the last reading of the clock, or it was just made, as long as new keys can
    be made; the cache always has the key that is returned. *)
Theorem ephemeral_key_fresh c t1 t2 t3 k' : t1 <= t2 →
  match c with Some (_, t) => t <= t1 < t + 2 ^ 62 ∧ t2 < t + 2 ^ 62 | None => True end →
  let '(c', k) := getEphermalKEX c t1 t2 t3 (Some k') in
  ∃ key t, c' = Some (key, t) ∧ k = Some key ∧ ((c = Some (key, t) ∧ t1 - t <= EphermalKeyLifetime) ∨ (key = k' ∧ t = t3)).
Proof.
  intros Ht Hc. unfold getEphermalKEX. destruct c as [[k t]|]; [|eauto 10].
  assert (time.Sub t1 t = t1 - t ∧ time.Sub t2 t = t2 - t) as [-> ->] by (unfold time.Sub; lia). unfold EphermalKeyLifetime, time.Second in *.
  repeat case_bool; try (exists k, t; split_and!; [done|done|left; split; [done|lia]]).
  exists k', t3. auto.
Qed.

End scfg.

(** ** Examples *)
Module ServerConfigExamples.
Import protocol handshake crypto serverConfig CryptoExamples.

Definition config : ServerConfig := NewServerConfig (NewCurve25519KEX toy (replicate 32 7)) (replicate 16 1, replicate 8 2).

Lemma config_is_ok : config_ok toy config.
Proof. split_and!; try done; try (apply Forall_replicate; split; lia). by exists (replicate 32 7). Qed.

Lemma server_config_roundtrip_witness : ∃ raw c, Get config = Ok raw ∧ parseServerConfig toy (replicate 32 9) raw = Ok c ∧ cID c = ID config.
Proof.
  destruct (server_config_roundtrip toy 12 config (replicate 32 9) 0) as (raw & c & E1 & E2 & _ & E3 & _).
  - exact config_is_ok.
  - by vm_compute.
  - exact (ex_intro _ raw (ex_intro _ c (conj E1 (conj E2 E3)))).
Defined.

Lemma parse_server_config_safe_witness : ∃ e, parseServerConfig toy (replicate 32 9) [83; 67; 70; 71; 0; 0; 0; 0] = Err e.
Proof.
  pose proof (parse_server_config_safe toy (replicate 32 9) [83; 67; 70; 71; 0; 0; 0; 0] (are_bytes [83; 67; 70; 71; 0; 0; 0; 0] eq_refl)) as H.
  destruct (parseServerConfig toy (replicate 32 9) [83; 67; 70; 71; 0; 0; 0; 0]) as [c|e|] eqn:E.
  - vm_compute in E. discriminate.
  - exact (ex_intro _ e eq_refl).
  - destruct H.
Defined.

End ServerConfigExamples.
