(* ===== verification/CryptoSetup.v ===== *)
(** * CryptoSetup: the QUIC crypto handshake of the server and of the client

    internal/handshake/crypto_setup_server.go, internal/handshake/crypto_setup_client.go and
    the certificate manager of the client (internal/crypto/cert_manager.go). Each end is a
    record; its operations are computations that change it and return, fail or panic.
    Messages are handled one at a time by the goroutine of HandleCryptoStream, so a handler
    is one step; what it writes to the crypto stream and to the channel aeadChanged is kept
    in the record. Random bytes and readings of the clock are arguments; X.509, the
    compression of certificates and signatures are a record of functions, which
    Certificates.v makes. *)
From S2P Require Import Prelude Protocol ByteOrder AckFrames Frames PublicHeader HandshakeMessages GoFloat FlowControl Stream StreamsMap ConnectionParameters StreamFramer PacketPacker Crypto Certificates ServerConfig.

(** ** Computations with a state *)
Definition St (S A : Type) : Type := S → S * outcome A.

#[global] Instance St_ret {S} : MRet (St S) := λ A a s, (s, Ok a).
#[global] Instance St_bind {S} : MBind (St S) := λ A B k m s,
  match m s with
  | (s, Ok a) => k a s
  | (s, Err e) => (s, Err e)
  | (s, Panic) => (s, Panic)
  end.

Section computations.
Context {S : Type}.
Definition gets : St S S := λ s, (s, Ok s).
Definition update (f : S → S) : St S unit := λ s, (f s, Ok tt).
Definition failWith {A} (e : error) : St S A := λ s, (s, Err e).
Definition run {A} (o : outcome A) : St S A := λ s, (s, o).
Definition check (b : bool) (e : error) : St S unit := if b then mret tt else failWith e.
End computations.

(** What is drawn for one step: for a token, for the nonces of the server and of the client,
    for keys, and the time. *)
Record draws := MkDraws {
  tokenNonce : list Z;
  newServerNonce : list Z;
  newDiversificationNonce : list Z;
  ephermal : crypto.curve25519KEX;
  keyBytes : list Z;
  nonceBytes : list Z;
  now : Z;
}.

Module cryptoSetup.
Import protocol binary handshake crypto serverConfig connectionParameters.

Definition ErrHOLExperiment : error := qerr.Error qerr.InvalidCryptoMessageParameter.
Definition ErrNSTPExperiment : error := qerr.Error qerr.InvalidCryptoMessageParameter.
Definition invalidParameter : error := qerr.Error qerr.InvalidCryptoMessageParameter.
Definition versionMismatch : error := qerr.Error qerr.VersionNegotiationMismatch.
Definition ClientHelloMinimumSize : Z := 1024.
Definition MaxClientHellos : Z := 3.

(** What an attempt to open a packet does. *)
Inductive opened := Opened (data : list Z) (level : EncryptionLevel) | Refused | Waits (data : list Z).

Section setup.
Context (P : Primitives) (gcmOverhead : Z) (certs : Certificates).
Context (Marshal : list Z * Z → list Z) (Unmarshal : list Z → option (list Z * Z * list Z)) (ipString : list Z → string).

Notation derive := (DeriveQuicCryptoAESKeys P gcmOverhead).
Notation nullAEAD pers version := (NewNullAEAD P (UsesTLS version) pers).

(** The first certificate of a chain. *)
Definition leaf (chain : list (list Z)) : outcome (list Z) := match chain with c :: _ => Ok c | [] => Panic end.
Definition GetLeafCertFor (sni : list Z) : outcome (list Z) := getCertForSNI certs sni ≫= leaf.

(** ** crypto_setup_server.go *)
Record server := MkServer {
  sConnID : Z;
  sRemoteAddr : Addr;
  scfg : ServerConfig;
  stkKey : list Z;
  sDiversificationNonce : list Z;
  sVersion : Z;
  supportedVersions : list Z;
  acceptSTKCallback : Addr → option Cookie → bool;
  sSecureAEAD : option AEAD;
  sForwardSecureAEAD : option AEAD;
  receivedForwardSecurePacket : bool;
  sReceivedSecurePacket : bool;
  sentSHLO : bool;
  sSignals : list EncryptionLevel;
  sClosed : bool;
  sWritten : list (list Z);
  sParameters : connectionParametersManager;
}.

Definition set_sDiversificationNonce v h := MkServer (sConnID h) (sRemoteAddr h) (scfg h) (stkKey h) v (sVersion h) (supportedVersions h) (acceptSTKCallback h)
  (sSecureAEAD h) (sForwardSecureAEAD h) (receivedForwardSecurePacket h) (sReceivedSecurePacket h) (sentSHLO h) (sSignals h) (sClosed h) (sWritten h) (sParameters h).
Definition set_sSecureAEAD v h := MkServer (sConnID h) (sRemoteAddr h) (scfg h) (stkKey h) (sDiversificationNonce h) (sVersion h) (supportedVersions h) (acceptSTKCallback h)
  v (sForwardSecureAEAD h) (receivedForwardSecurePacket h) (sReceivedSecurePacket h) (sentSHLO h) (sSignals h) (sClosed h) (sWritten h) (sParameters h).
Definition set_sForwardSecureAEAD v h := MkServer (sConnID h) (sRemoteAddr h) (scfg h) (stkKey h) (sDiversificationNonce h) (sVersion h) (supportedVersions h) (acceptSTKCallback h)
  (sSecureAEAD h) v (receivedForwardSecurePacket h) (sReceivedSecurePacket h) (sentSHLO h) (sSignals h) (sClosed h) (sWritten h) (sParameters h).
Definition set_receivedForwardSecurePacket v h := MkServer (sConnID h) (sRemoteAddr h) (scfg h) (stkKey h) (sDiversificationNonce h) (sVersion h) (supportedVersions h) (acceptSTKCallback h)
  (sSecureAEAD h) (sForwardSecureAEAD h) v (sReceivedSecurePacket h) (sentSHLO h) (sSignals h) (sClosed h) (sWritten h) (sParameters h).
Definition set_sReceivedSecurePacket v h := MkServer (sConnID h) (sRemoteAddr h) (scfg h) (stkKey h) (sDiversificationNonce h) (sVersion h) (supportedVersions h) (acceptSTKCallback h)
  (sSecureAEAD h) (sForwardSecureAEAD h) (receivedForwardSecurePacket h) v (sentSHLO h) (sSignals h) (sClosed h) (sWritten h) (sParameters h).
Definition set_sentSHLO v h := MkServer (sConnID h) (sRemoteAddr h) (scfg h) (stkKey h) (sDiversificationNonce h) (sVersion h) (supportedVersions h) (acceptSTKCallback h)
  (sSecureAEAD h) (sForwardSecureAEAD h) (receivedForwardSecurePacket h) (sReceivedSecurePacket h) v (sSignals h) (sClosed h) (sWritten h) (sParameters h).
Definition set_sSignals v h := MkServer (sConnID h) (sRemoteAddr h) (scfg h) (stkKey h) (sDiversificationNonce h) (sVersion h) (supportedVersions h) (acceptSTKCallback h)
  (sSecureAEAD h) (sForwardSecureAEAD h) (receivedForwardSecurePacket h) (sReceivedSecurePacket h) (sentSHLO h) v (sClosed h) (sWritten h) (sParameters h).
Definition set_sClosed v h := MkServer (sConnID h) (sRemoteAddr h) (scfg h) (stkKey h) (sDiversificationNonce h) (sVersion h) (supportedVersions h) (acceptSTKCallback h)
  (sSecureAEAD h) (sForwardSecureAEAD h) (receivedForwardSecurePacket h) (sReceivedSecurePacket h) (sentSHLO h) (sSignals h) v (sWritten h) (sParameters h).
Definition set_sWritten v h := MkServer (sConnID h) (sRemoteAddr h) (scfg h) (stkKey h) (sDiversificationNonce h) (sVersion h) (supportedVersions h) (acceptSTKCallback h)
  (sSecureAEAD h) (sForwardSecureAEAD h) (receivedForwardSecurePacket h) (sReceivedSecurePacket h) (sentSHLO h) (sSignals h) (sClosed h) v (sParameters h).
Definition set_sParameters v h := MkServer (sConnID h) (sRemoteAddr h) (scfg h) (stkKey h) (sDiversificationNonce h) (sVersion h) (supportedVersions h) (acceptSTKCallback h)
  (sSecureAEAD h) (sForwardSecureAEAD h) (receivedForwardSecurePacket h) (sReceivedSecurePacket h) (sentSHLO h) (sSignals h) (sClosed h) (sWritten h) v.

Definition NewCryptoSetup (connID : Z) (remoteAddr : Addr) (version : Z) (cfg : ServerConfig) (params : connectionParametersManager)
    (versions : list Z) (acceptSTK : Addr → option Cookie → bool) (key : list Z) : server :=
  MkServer connID remoteAddr cfg key [] version versions acceptSTK None None false false false [] false [] params.

Definition acceptSTK (token : list Z) (h : server) : outcome bool :=
  match DecodeToken P Unmarshal ipString (stkKey h) token with
  | Ok stk => Ok (acceptSTKCallback h (sRemoteAddr h) stk)
  | Err _ => Ok false
  | Panic => Panic
  end.

Definition tagOr (cryptoData : gmap Z (list Z)) (t : Z) : list Z := default [] (cryptoData !! t).

Definition isInchoateCHLO (cryptoData : gmap Z (list Z)) (cert : list Z) (h : server) : outcome bool :=
  if bool_decide (cryptoData !! TagPUBS = None) then Ok true
  else if negb (bool_decide (cryptoData !! TagSCID = Some (ID (scfg h)))) then Ok true
  else match cryptoData !! TagXLCT with
       | None => Ok true
       | Some xlctTag =>
           if negb (len xlctTag =? 8) then Ok true
           else
             xlct ← Uint64 xlctTag;
             if negb (HashCert cert =? xlct) then Ok true
             else b ← acceptSTK (tagOr cryptoData TagSTK) h; Ok (negb b)
       end.

Definition writeMessage (tag : Z) (m : gmap Z (list Z)) : outcome (list Z) := handshake.Write (MkHandshakeMessage tag m) [].

Definition handleInchoateCHLO (d : draws) (sni chlo : list Z) (cryptoData : gmap Z (list Z)) : St server (list Z) :=
  check (negb (len chlo <? ClientHelloMinimumSize)) invalidLength;;
  h ← gets;
  let token := NewToken P Marshal (stkKey h) (tokenNonce d) (now d) (sRemoteAddr h) in
  raw ← run (Get (scfg h));
  let replyMap := {[ TagSCFG := raw; TagSTK := token; TagSVID := bytesOf "quic-go" ]} in
  accepted ← run (acceptSTK (tagOr cryptoData TagSTK) h);
  if accepted : bool then
    chain ← run (getCertForSNI certs sni);
    proof ← run (signServerProof certs chain chlo raw);
    certCompressed ← run (getCompressedCert certs chain (tagOr cryptoData TagCCS) (tagOr cryptoData TagCCRT));
    run (writeMessage TagREJ (<[TagCERT := certCompressed]> (<[TagPROF := proof]> replyMap)))
  else run (writeMessage TagREJ replyMap).

Definition validateClientNonce (nonce : list Z) (h : server) : outcome unit :=
  if negb (len nonce =? 32) then Err invalidParameter
  else
    o ← slice 4 12 nonce;
    if negb (bool_decide (o = obit (scfg h))) then Err invalidParameter else Ok tt.

Definition verTags (versions : list Z) : list Z := versions ≫= λ v, crypto.le32 (VersionNumberToTag v).

(** Sending on a closed channel panics. *)
Definition signal (l : EncryptionLevel) : St server unit :=
  h ← gets;
  if sClosed h then run Panic else update (set_sSignals (sSignals h ++ [l])).

Definition handleCHLO (d : draws) (sni data : list Z) (cryptoData : gmap Z (list Z)) : St server (list Z) :=
  h ← gets;
  sharedSecret ← run (CalculateSharedKey P (kex (scfg h)) (tagOr cryptoData TagPUBS));
  certUncompressed ← run (GetLeafCertFor sni);
  let serverNonce := newServerNonce d in
  update (set_sDiversificationNonce (newDiversificationNonce d));;
  let clientNonce := tagOr cryptoData TagNONC in
  run (validateClientNonce clientNonce h);;
  check (bool_decide (tagOr cryptoData TagAEAD = AESG)) noSupport;;
  check (bool_decide (tagOr cryptoData TagKEXS = C255)) noSupport;;
  raw ← run (Get (scfg h));
  secure ← run (derive false sharedSecret clientNonce (sConnID h) data raw certUncompressed (newDiversificationNonce d) PerspectiveServer);
  update (set_sSecureAEAD (Some secure));;
  signal EncryptionSecure;;
  let fsNonce := clientNonce ++ serverNonce in
  ephermalSharedSecret ← run (CalculateSharedKey P (ephermal d) (tagOr cryptoData TagPUBS));
  fs ← run (derive true ephermalSharedSecret fsNonce (sConnID h) data raw certUncompressed [] PerspectiveServer);
  update (set_sForwardSecureAEAD (Some fs));;
  let '(params, err) := SetFromMap cryptoData (sParameters h) in
  update (set_sParameters params);;
  match err with
  | Some e => failWith e
  | None =>
      let replyMap := <[TagVER := verTags (supportedVersions h)]> (<[TagSNO := serverNonce]>
                        (<[TagPUBS := PublicKey (ephermal d)]> (GetHelloMap params))) in
      run (writeMessage TagSHLO replyMap)
  end.

Definition writeReply (reply : list Z) : St server unit := update (λ h, set_sWritten (sWritten h ++ [reply]) h).

Definition handleMessage (d : draws) (chloData : list Z) (cryptoData : gmap Z (list Z)) : St server bool :=
  check (bool_decide (cryptoData !! TagFHL2 = None)) ErrHOLExperiment;;
  check (bool_decide (cryptoData !! TagNSTP = None)) ErrNSTPExperiment;;
  let sni := tagOr cryptoData TagSNI in
  check (negb (bool_decide (sni = []))) notFound;;
  match cryptoData !! TagVER with
  | None => failWith invalidParameter
  | Some verSlice =>
      check (len verSlice =? 4) invalidParameter;;
      verTag ← run (Uint32 verSlice);
      let ver := VersionTagToNumber verTag in
      h ← gets;
      check (negb (negb (ver =? sVersion h) && IsSupportedVersion (supportedVersions h) ver)) versionMismatch;;
      certUncompressed ← run (GetLeafCertFor sni);
      inchoate ← run (isInchoateCHLO cryptoData certUncompressed h);
      if negb inchoate then
        reply ← handleCHLO d sni chloData cryptoData;
        writeReply reply;;
        signal EncryptionForwardSecure;;
        update (set_sentSHLO true);;
        mret true
      else
        reply ← handleInchoateCHLO d sni chloData cryptoData;
        writeReply reply;;
        mret false
  end.

(** An iteration of HandleCryptoStream on what the crypto stream delivers: whether the
    handshake is done, and the rest. *)
Definition serverIteration (d : draws) (input : list Z) : St server (bool * list Z) :=
  match ParseHandshakeMessage input with
  | Ok (message, rest) =>
      check (Tag message =? TagCHLO) (qerr.Error qerr.InvalidCryptoMessageType);;
      done ← handleMessage d (take (length input - length rest) input) (Data message);
      mret (done, rest)
  | Err _ => failWith (qerr.Error qerr.HandshakeFailed)
  | Panic => run Panic
  end.

(** The first forward-secure packet waits until the SHLO has been sent; the goroutine that
    opens it goes on from here. *)
Definition finishOpen (data : list Z) (h : server) : server * opened :=
  if sentSHLO h then (set_sClosed true h, Opened data EncryptionForwardSecure) else (h, Waits data).

Definition serverOpen (src : list Z) (packetNumber : Z) (associatedData : list Z) (h : server) : server * opened :=
  let null := match Open (nullAEAD PerspectiveServer (sVersion h)) src packetNumber associatedData with
              | Some res => Opened res EncryptionUnencrypted | None => Refused end in
  let secure h :=
    match sSecureAEAD h with
    | Some a =>
        match Open a src packetNumber associatedData with
        | Some res => (set_sReceivedSecurePacket true h, Opened res EncryptionSecure)
        | None => if sReceivedSecurePacket h then (h, Refused) else (h, null)
        end
    | None => (h, null)
    end in
  match sForwardSecureAEAD h with
  | Some a =>
      match Open a src packetNumber associatedData with
      | Some res =>
          if receivedForwardSecurePacket h then (h, Opened res EncryptionForwardSecure)
          else
            finishOpen res (set_receivedForwardSecurePacket true h)
      | None => if receivedForwardSecurePacket h then (h, Refused) else secure h
      end
  | None => secure h
  end.

Definition errNoSecure : error := NewError "CryptoSetup: no secureAEAD".
Definition errNoForwardSecure : error := NewError "CryptoSetup: no forwardSecureAEAD".
Definition errNoLevel : error := NewError "CryptoSetup: no encryption level specified".

Definition sealerWithLevel (null : AEAD) (secure fs : option AEAD) (l : EncryptionLevel) : Sealer + error :=
  match l with
  | EncryptionUnencrypted => inl (sealer null)
  | EncryptionSecure => match secure with Some a => inl (sealer a) | None => inr errNoSecure end
  | EncryptionForwardSecure => match fs with Some a => inl (sealer a) | None => inr errNoForwardSecure end
  | _ => inr errNoLevel
  end.

(** What the packer of the server sees. *)
Definition serverSetup (h : server) : CryptoSetup :=
  let null := nullAEAD PerspectiveServer (sVersion h) in
  MkCryptoSetup
    (match sForwardSecureAEAD h with Some a => (EncryptionForwardSecure, sealer a) | None => (EncryptionUnencrypted, sealer null) end)
    (sealerWithLevel null (sSecureAEAD h) (sForwardSecureAEAD h))
    (match sSecureAEAD h with Some a => (EncryptionSecure, sealer a) | None => (EncryptionUnencrypted, sealer null) end)
    (sDiversificationNonce h).

(** ** crypto_setup_client.go *)
Record client := MkClient {
  hostname : list Z;
  cConnID : Z;
  cVersion : Z;
  negotiatedVersions : list Z;
  serverConfigOf : option serverConfigClient;
  stk : list Z;
  sno : list Z;
  nonc : list Z;
  proof : list Z;
  chloForSignature : list Z;
  lastSentCHLO : list Z;
  chain : list (list Z);
  certData : list Z;
  scfgData : list Z;
  diversificationNonce : list Z;
  clientHelloCounter : Z;
  serverVerified : bool;
  cReceivedSecurePacket : bool;
  cSecureAEAD : option AEAD;
  cForwardSecureAEAD : option AEAD;
  cSignals : list EncryptionLevel;
  cClosed : bool;
  requestTruncation : bool;
  cacheHandshakeParam : bool;
  cParameters : connectionParametersManager;
  cWritten : list (list Z);
}.

Definition set_serverConfigOf (v : option serverConfigClient) (h : client) : client := MkClient (hostname h) (cConnID h) (cVersion h)
  (negotiatedVersions h) v (stk h) (sno h) (nonc h) (proof h) (chloForSignature h) (lastSentCHLO h) (chain h) (certData h) (scfgData h)
  (diversificationNonce h) (clientHelloCounter h) (serverVerified h) (cReceivedSecurePacket h) (cSecureAEAD h) (cForwardSecureAEAD h) (cSignals h)
  (cClosed h) (requestTruncation h) (cacheHandshakeParam h) (cParameters h) (cWritten h).
Definition set_stk (v : list Z) (h : client) : client := MkClient (hostname h) (cConnID h) (cVersion h) (negotiatedVersions h) (serverConfigOf h) v
  (sno h) (nonc h) (proof h) (chloForSignature h) (lastSentCHLO h) (chain h) (certData h) (scfgData h) (diversificationNonce h) (clientHelloCounter h)
  (serverVerified h) (cReceivedSecurePacket h) (cSecureAEAD h) (cForwardSecureAEAD h) (cSignals h) (cClosed h) (requestTruncation h)
  (cacheHandshakeParam h) (cParameters h) (cWritten h).
Definition set_sno (v : list Z) (h : client) : client := MkClient (hostname h) (cConnID h) (cVersion h) (negotiatedVersions h) (serverConfigOf h)
  (stk h) v (nonc h) (proof h) (chloForSignature h) (lastSentCHLO h) (chain h) (certData h) (scfgData h) (diversificationNonce h)
  (clientHelloCounter h) (serverVerified h) (cReceivedSecurePacket h) (cSecureAEAD h) (cForwardSecureAEAD h) (cSignals h) (cClosed h)
  (requestTruncation h) (cacheHandshakeParam h) (cParameters h) (cWritten h).
Definition set_nonc (v : list Z) (h : client) : client := MkClient (hostname h) (cConnID h) (cVersion h) (negotiatedVersions h) (serverConfigOf h)
  (stk h) (sno h) v (proof h) (chloForSignature h) (lastSentCHLO h) (chain h) (certData h) (scfgData h) (diversificationNonce h) (clientHelloCounter h)
  (serverVerified h) (cReceivedSecurePacket h) (cSecureAEAD h) (cForwardSecureAEAD h) (cSignals h) (cClosed h) (requestTruncation h)
  (cacheHandshakeParam h) (cParameters h) (cWritten h).
Definition set_proof (v : list Z) (h : client) : client := MkClient (hostname h) (cConnID h) (cVersion h) (negotiatedVersions h) (serverConfigOf h)
  (stk h) (sno h) (nonc h) v (chloForSignature h) (lastSentCHLO h) (chain h) (certData h) (scfgData h) (diversificationNonce h) (clientHelloCounter h)
  (serverVerified h) (cReceivedSecurePacket h) (cSecureAEAD h) (cForwardSecureAEAD h) (cSignals h) (cClosed h) (requestTruncation h)
  (cacheHandshakeParam h) (cParameters h) (cWritten h).
Definition set_chloForSignature (v : list Z) (h : client) : client := MkClient (hostname h) (cConnID h) (cVersion h) (negotiatedVersions h)
  (serverConfigOf h) (stk h) (sno h) (nonc h) (proof h) v (lastSentCHLO h) (chain h) (certData h) (scfgData h) (diversificationNonce h)
  (clientHelloCounter h) (serverVerified h) (cReceivedSecurePacket h) (cSecureAEAD h) (cForwardSecureAEAD h) (cSignals h) (cClosed h)
  (requestTruncation h) (cacheHandshakeParam h) (cParameters h) (cWritten h).
Definition set_lastSentCHLO (v : list Z) (h : client) : client := MkClient (hostname h) (cConnID h) (cVersion h) (negotiatedVersions h)
  (serverConfigOf h) (stk h) (sno h) (nonc h) (proof h) (chloForSignature h) v (chain h) (certData h) (scfgData h) (diversificationNonce h)
  (clientHelloCounter h) (serverVerified h) (cReceivedSecurePacket h) (cSecureAEAD h) (cForwardSecureAEAD h) (cSignals h) (cClosed h)
  (requestTruncation h) (cacheHandshakeParam h) (cParameters h) (cWritten h).
Definition set_chain (v : list (list Z)) (h : client) : client := MkClient (hostname h) (cConnID h) (cVersion h) (negotiatedVersions h)
  (serverConfigOf h) (stk h) (sno h) (nonc h) (proof h) (chloForSignature h) (lastSentCHLO h) v (certData h) (scfgData h) (diversificationNonce h)
  (clientHelloCounter h) (serverVerified h) (cReceivedSecurePacket h) (cSecureAEAD h) (cForwardSecureAEAD h) (cSignals h) (cClosed h)
  (requestTruncation h) (cacheHandshakeParam h) (cParameters h) (cWritten h).
Definition set_certData (v : list Z) (h : client) : client := MkClient (hostname h) (cConnID h) (cVersion h) (negotiatedVersions h) (serverConfigOf h)
  (stk h) (sno h) (nonc h) (proof h) (chloForSignature h) (lastSentCHLO h) (chain h) v (scfgData h) (diversificationNonce h) (clientHelloCounter h)
  (serverVerified h) (cReceivedSecurePacket h) (cSecureAEAD h) (cForwardSecureAEAD h) (cSignals h) (cClosed h) (requestTruncation h)
  (cacheHandshakeParam h) (cParameters h) (cWritten h).
Definition set_scfgData (v : list Z) (h : client) : client := MkClient (hostname h) (cConnID h) (cVersion h) (negotiatedVersions h) (serverConfigOf h)
  (stk h) (sno h) (nonc h) (proof h) (chloForSignature h) (lastSentCHLO h) (chain h) (certData h) v (diversificationNonce h) (clientHelloCounter h)
  (serverVerified h) (cReceivedSecurePacket h) (cSecureAEAD h) (cForwardSecureAEAD h) (cSignals h) (cClosed h) (requestTruncation h)
  (cacheHandshakeParam h) (cParameters h) (cWritten h).
Definition set_diversificationNonce (v : list Z) (h : client) : client := MkClient (hostname h) (cConnID h) (cVersion h) (negotiatedVersions h)
  (serverConfigOf h) (stk h) (sno h) (nonc h) (proof h) (chloForSignature h) (lastSentCHLO h) (chain h) (certData h) (scfgData h) v
  (clientHelloCounter h) (serverVerified h) (cReceivedSecurePacket h) (cSecureAEAD h) (cForwardSecureAEAD h) (cSignals h) (cClosed h)
  (requestTruncation h) (cacheHandshakeParam h) (cParameters h) (cWritten h).
Definition set_clientHelloCounter (v : Z) (h : client) : client := MkClient (hostname h) (cConnID h) (cVersion h) (negotiatedVersions h)
  (serverConfigOf h) (stk h) (sno h) (nonc h) (proof h) (chloForSignature h) (lastSentCHLO h) (chain h) (certData h) (scfgData h)
  (diversificationNonce h) v (serverVerified h) (cReceivedSecurePacket h) (cSecureAEAD h) (cForwardSecureAEAD h) (cSignals h) (cClosed h)
  (requestTruncation h) (cacheHandshakeParam h) (cParameters h) (cWritten h).
Definition set_serverVerified (v : bool) (h : client) : client := MkClient (hostname h) (cConnID h) (cVersion h) (negotiatedVersions h)
  (serverConfigOf h) (stk h) (sno h) (nonc h) (proof h) (chloForSignature h) (lastSentCHLO h) (chain h) (certData h) (scfgData h)
  (diversificationNonce h) (clientHelloCounter h) v (cReceivedSecurePacket h) (cSecureAEAD h) (cForwardSecureAEAD h) (cSignals h) (cClosed h)
  (requestTruncation h) (cacheHandshakeParam h) (cParameters h) (cWritten h).
Definition set_cReceivedSecurePacket (v : bool) (h : client) : client := MkClient (hostname h) (cConnID h) (cVersion h) (negotiatedVersions h)
  (serverConfigOf h) (stk h) (sno h) (nonc h) (proof h) (chloForSignature h) (lastSentCHLO h) (chain h) (certData h) (scfgData h)
  (diversificationNonce h) (clientHelloCounter h) (serverVerified h) v (cSecureAEAD h) (cForwardSecureAEAD h) (cSignals h) (cClosed h)
  (requestTruncation h) (cacheHandshakeParam h) (cParameters h) (cWritten h).
Definition set_cSecureAEAD (v : option AEAD) (h : client) : client := MkClient (hostname h) (cConnID h) (cVersion h) (negotiatedVersions h)
  (serverConfigOf h) (stk h) (sno h) (nonc h) (proof h) (chloForSignature h) (lastSentCHLO h) (chain h) (certData h) (scfgData h)
  (diversificationNonce h) (clientHelloCounter h) (serverVerified h) (cReceivedSecurePacket h) v (cForwardSecureAEAD h) (cSignals h) (cClosed h)
  (requestTruncation h) (cacheHandshakeParam h) (cParameters h) (cWritten h).
Definition set_cForwardSecureAEAD (v : option AEAD) (h : client) : client := MkClient (hostname h) (cConnID h) (cVersion h) (negotiatedVersions h)
  (serverConfigOf h) (stk h) (sno h) (nonc h) (proof h) (chloForSignature h) (lastSentCHLO h) (chain h) (certData h) (scfgData h)
  (diversificationNonce h) (clientHelloCounter h) (serverVerified h) (cReceivedSecurePacket h) (cSecureAEAD h) v (cSignals h) (cClosed h)
  (requestTruncation h) (cacheHandshakeParam h) (cParameters h) (cWritten h).
Definition set_cSignals (v : list EncryptionLevel) (h : client) : client := MkClient (hostname h) (cConnID h) (cVersion h) (negotiatedVersions h)
  (serverConfigOf h) (stk h) (sno h) (nonc h) (proof h) (chloForSignature h) (lastSentCHLO h) (chain h) (certData h) (scfgData h)
  (diversificationNonce h) (clientHelloCounter h) (serverVerified h) (cReceivedSecurePacket h) (cSecureAEAD h) (cForwardSecureAEAD h) v (cClosed h)
  (requestTruncation h) (cacheHandshakeParam h) (cParameters h) (cWritten h).
Definition set_cClosed (v : bool) (h : client) : client := MkClient (hostname h) (cConnID h) (cVersion h) (negotiatedVersions h) (serverConfigOf h)
  (stk h) (sno h) (nonc h) (proof h) (chloForSignature h) (lastSentCHLO h) (chain h) (certData h) (scfgData h) (diversificationNonce h)
  (clientHelloCounter h) (serverVerified h) (cReceivedSecurePacket h) (cSecureAEAD h) (cForwardSecureAEAD h) (cSignals h) v (requestTruncation h)
  (cacheHandshakeParam h) (cParameters h) (cWritten h).
Definition set_cParameters (v : connectionParametersManager) (h : client) : client := MkClient (hostname h) (cConnID h) (cVersion h)
  (negotiatedVersions h) (serverConfigOf h) (stk h) (sno h) (nonc h) (proof h) (chloForSignature h) (lastSentCHLO h) (chain h) (certData h)
  (scfgData h) (diversificationNonce h) (clientHelloCounter h) (serverVerified h) (cReceivedSecurePacket h) (cSecureAEAD h) (cForwardSecureAEAD h)
  (cSignals h) (cClosed h) (requestTruncation h) (cacheHandshakeParam h) v (cWritten h).
Definition set_cWritten (v : list (list Z)) (h : client) : client := MkClient (hostname h) (cConnID h) (cVersion h) (negotiatedVersions h)
  (serverConfigOf h) (stk h) (sno h) (nonc h) (proof h) (chloForSignature h) (lastSentCHLO h) (chain h) (certData h) (scfgData h)
  (diversificationNonce h) (clientHelloCounter h) (serverVerified h) (cReceivedSecurePacket h) (cSecureAEAD h) (cForwardSecureAEAD h) (cSignals h)
  (cClosed h) (requestTruncation h) (cacheHandshakeParam h) (cParameters h) v.

Definition NewCryptoSetupClient (host : list Z) (connID version : Z) (params : connectionParametersManager) (truncation cache : bool) (negotiated : list Z) : client :=
  MkClient host connID version negotiated None [] [] [] [] [] [] [] [] [] [] 0 false false None None [] false truncation cache params [].

(** *** The certificate manager *)

(** SetData: an error leaves the chain as it was. *)
Definition SetData (data : list Z) : St client unit :=
  c ← run (parseChain certs data);
  update (set_chain c).
Definition GetLeafCert (h : client) : option (list Z) := head (chain h).

(** The name that is verified is a constant of the source. *)
Definition verifiedName : list Z := bytesOf "quic.clemente.io".

Definition errNoCertificateChain : error := NewError "CertManager BUG: No certicifate chain loaded".
Definition Verify (name : list Z) (h : client) : option error :=
  match chain h with [] => Some errNoCertificateChain | _ => verifyChain certs name (chain h) end.
Definition VerifyServerProof (pr chlo cfg : list Z) (h : client) : bool :=
  match chain h with [] => false | c :: _ => verifyServerProof certs pr c chlo cfg end.

(** *** Messages of the server *)

Definition errNoObitForClientNonce : error := NewError "CryptoSetup BUG: No OBIT for client nonce available".
Definition errClientNonceAlreadyExists : error := NewError "CryptoSetup BUG: A client nonce was already generated".
Definition errConflictingDiversificationNonces : error := NewError "Received two different diversification nonces".

Definition be32 (v : Z) : list Z := match WriteUint32 BigEndian v with Ok bs => bs | _ => [] end.

(** The time, the orbit of the server and 20 random bytes. *)
Definition generateClientNonce (d : draws) : St client unit :=
  h ← gets;
  check (len (nonc h) =? 0) errClientNonceAlreadyExists;;
  match serverConfigOf h with
  | None => run Panic
  | Some cfg =>
      check (len (cObit cfg) =? 8) errNoObitForClientNonce;;
      update (set_nonc (be32 (u32 (now d / time.Second)) ++ cObit cfg ++ nonceBytes d))
  end.

Definition maybeSet (cryptoData : gmap Z (list Z)) (t : Z) (f : list Z → client → client) : St client unit :=
  match cryptoData !! t with Some v => update (f v) | None => mret tt end.

Definition handleSCFG (d : draws) (cryptoData : gmap Z (list Z)) : St client unit :=
  match cryptoData !! TagSCFG with
  | None => mret tt
  | Some raw =>
      match parseServerConfig P (keyBytes d) raw with
      | Ok cfg =>
          update (set_serverConfigOf (Some cfg));;
          check (negb (IsExpired cfg (now d))) (qerr.Error qerr.CryptoServerConfigExpired);;
          update (set_scfgData raw);;
          h ← gets;
          if len (nonc h) =? 0 then generateClientNonce d else mret tt
      | Err e => update (set_serverConfigOf None);; failWith e
      | Panic => run Panic
      end
  end.

Definition handleCERT (cryptoData : gmap Z (list Z)) : St client unit :=
  match cryptoData !! TagCERT with
  | None => mret tt
  | Some crt =>
      match parseChain certs crt with
      | Ok c =>
          update (set_chain c);;
          update (set_certData crt);;
          h ← gets;
          check (bool_decide (Verify verifiedName h = None)) (qerr.Error qerr.ProofInvalid)
      | Err _ => failWith invalidParameter
      | Panic => run Panic
      end
  end.

Definition verifyServer : St client unit :=
  h ← gets;
  match serverConfigOf h with
  | Some cfg =>
      if negb (len (proof h) =? 0) && bool_decide (is_Some (GetLeafCert h)) then
        check (VerifyServerProof (proof h) (chloForSignature h) (cRaw cfg) h) (qerr.Error qerr.ProofInvalid);;
        update (set_serverVerified true)
      else mret tt
  | None => mret tt
  end.

Definition handleREJMessage (d : draws) (cryptoData : gmap Z (list Z)) : St client unit :=
  maybeSet cryptoData TagSTK set_stk;;
  maybeSet cryptoData TagSNO set_sno;;
  handleSCFG d cryptoData;;
  maybeSet cryptoData TagPROF (λ v h, set_chloForSignature (lastSentCHLO h) (set_proof v h));;
  handleCERT cryptoData;;
  verifyServer.

Fixpoint versionsLoop (negotiated : list Z) (b : list Z) : bool :=
  match negotiated with
  | [] => true
  | negotiatedVersion :: negotiated =>
      match ReadUint32 LittleEndian b with
      | Ok (verTag, b) =>
          let ver := VersionTagToNumber verTag in
          let ver := if negb (IsSupportedVersion protocol.SupportedVersions ver) then VersionUnsupported else ver in
          if negb (ver =? negotiatedVersion) then false else versionsLoop negotiated b
      | _ => false
      end
  end.
Definition validateVersionList (h : client) (verTags : list Z) : bool :=
  if len (negotiatedVersions h) =? 0 then true
  else if negb (len verTags mod 4 =? 0) || negb (len verTags / 4 =? len (negotiatedVersions h)) then false
  else versionsLoop (negotiatedVersions h) verTags.

Definition clientSignal (l : EncryptionLevel) : St client unit :=
  h ← gets;
  if cClosed h then run Panic else update (set_cSignals (cSignals h ++ [l])).

Definition handleSHLOMessage (cryptoData : gmap Z (list Z)) : St client unit :=
  h ← gets;
  check (cReceivedSecurePacket h) (qerr.Error qerr.CryptoEncryptionLevelIncorrect);;
  maybeSet cryptoData TagSNO set_sno;;
  match cryptoData !! TagPUBS with
  | None => failWith notFound
  | Some serverPubs =>
      match cryptoData !! TagVER with
      | None => failWith invalidParameter
      | Some verTag =>
          check (validateVersionList h verTag) versionMismatch;;
          h ← gets;
          let nonce := nonc h ++ sno h in
          match serverConfigOf h with
          | None => run Panic
          | Some cfg =>
              ephermalSharedSecret ← run (CalculateSharedKey P (cKex cfg) serverPubs);
              let leafCert := default [] (GetLeafCert h) in
              fs ← run (derive true ephermalSharedSecret nonce (cConnID h) (lastSentCHLO h) (cRaw cfg) leafCert [] PerspectiveClient);
              update (set_cForwardSecureAEAD (Some fs));;
              let '(params, err) := SetFromMap cryptoData (cParameters h) in
              update (set_cParameters params);;
              check (bool_decide (err = None)) invalidParameter;;
              clientSignal EncryptionForwardSecure;;
              update (set_cClosed true)
          end
      end
  end.

(** *** Client hellos *)

Definition insertIf (b : bool) (t : Z) (v : list Z) (m : gmap Z (list Z)) : gmap Z (list Z) := if b then <[t := v]> m else m.

Definition getTags (h : client) : gmap Z (list Z) :=
  let tags := GetHelloMap (cParameters h) in
  let tags := <[TagPDMD := bytesOf "X509"]> (<[TagSNI := hostname h]> tags) in
  let ccs := getCommonCertificateHashes certs in
  let tags := insertIf (0 <? len ccs) TagCCS ccs tags in
  let tags := <[TagVER := crypto.le32 (VersionNumberToTag (cVersion h))]> tags in
  let tags := insertIf (requestTruncation h) TagTCID [0; 0; 0; 0] tags in
  let tags := insertIf (0 <? len (stk h)) TagSTK (stk h) tags in
  let tags := insertIf (0 <? len (sno h)) TagSNO (sno h) tags in
  match serverConfigOf h with
  | None => tags
  | Some cfg =>
      let tags := <[TagSCID := cID cfg]> tags in
      match GetLeafCert h with
      | None => tags
      | Some leafCert =>
          <[TagPUBS := PublicKey (cKex cfg)]> (<[TagAEAD := AESG]> (<[TagKEXS := C255]>
            (<[TagXLCT := le64 (HashCert leafCert)]> (<[TagNONC := nonc h]> tags))))
      end
  end.

Definition tagsSize (tags : gmap Z (list Z)) : Z := map_fold (λ _ v n, n + (8 + len v)) 0 tags.
Definition addPadding (tags : gmap Z (list Z)) : gmap Z (list Z) :=
  let paddingSize := ClientHelloMinimumSize - tagsSize tags in
  if 0 <? paddingSize then <[TagPAD := replicate (Z.to_nat paddingSize) 0]> tags else tags.

Definition sendCHLO : St client unit :=
  update (λ h, set_clientHelloCounter (clientHelloCounter h + 1) h);;
  h ← gets;
  check (negb (MaxClientHellos <? clientHelloCounter h)) (qerr.Error qerr.CryptoTooManyRejects);;
  b ← run (writeMessage TagCHLO (addPadding (getTags h)));
  update (λ h, set_cWritten (cWritten h ++ [b]) h);;
  update (set_lastSentCHLO b).

Definition maybeUpgradeCrypto : St client unit :=
  h ← gets;
  if negb (serverVerified h) then mret tt
  else
    let leafCert := default [] (GetLeafCert h) in
    match cSecureAEAD h, serverConfigOf h with
    | None, Some cfg =>
        if (0 <? len (sharedSecret cfg)) && (0 <? len (nonc h)) && (0 <? len leafCert) && (0 <? len (diversificationNonce h)) && (0 <? len (lastSentCHLO h)) then
          secure ← run (derive false (sharedSecret cfg) (nonc h ++ sno h) (cConnID h) (lastSentCHLO h) (cRaw cfg) leafCert (diversificationNonce h) PerspectiveClient);
          update (set_cSecureAEAD (Some secure));;
          clientSignal EncryptionSecure
        else mret tt
    | _, _ => mret tt
    end.

(** *** The cache of the handshake

    The contents of the four files, if they exist. *)
Record cache := MkCache { cacheSNI : option (list Z); cacheSTK : option (list Z); cacheCERT : option (list Z); cacheSCFG : option (list Z) }.

Definition useHandshakeCache (c : cache) (d : draws) (h : client) : client :=
  match cacheSNI c with
  | None => h
  | Some sni =>
      if negb (bool_decide (hostname h = sni)) then h
      else match cacheSTK c with
      | None => h
      | Some token =>
          let h := set_stk token h in
          match cacheCERT c with
          | None => h
          | Some crt =>
              let h := set_certData crt h in
              match parseChain certs crt with
              | Ok ch =>
                  let h := set_chain ch h in
                  match cacheSCFG c with
                  | None => h
                  | Some raw =>
                      let h := set_scfgData raw h in
                      match parseServerConfig P (keyBytes d) raw with
                      | Ok cfg =>
                          let h := set_serverConfigOf (Some cfg) h in
                          match generateClientNonce d h with
                          | (h, Ok _) => set_serverVerified true h
                          | (h, _) => h
                          end
                      | _ => set_serverConfigOf None h
                      end
                  end
              | _ => h
              end
          end
      end
  end.

(** Existing files are left as they are. *)
Definition cacheHandshake (h : client) (c : cache) : cache :=
  let keep (o : option (list Z)) v := match o with Some _ => o | None => Some v end in
  MkCache (keep (cacheSNI c) (hostname h)) (keep (cacheSTK c) (stk h)) (keep (cacheCERT c) (certData h)) (keep (cacheSCFG c) (scfgData h)).

(** *** HandleCryptoStream *)

(** The beginning of the loop, up to the select statement. *)
Definition loopHead : St client unit :=
  maybeUpgradeCrypto;;
  h ← gets;
  if bool_decide (cSecureAEAD h = None) then sendCHLO else mret tt.

Definition clientStart (c : cache) (d : draws) : St client unit :=
  update (λ h, if cacheHandshakeParam h then useHandshakeCache c d h else h);;
  loopHead.

Inductive clientEvent := DivNonce (nonce : list Z) | Message (m : HandshakeMessage).

Definition handleEvent (d : draws) (ev : clientEvent) : St client unit :=
  match ev with
  | DivNonce divNonce =>
      h ← gets;
      check (negb (negb (len (diversificationNonce h) =? 0) && negb (bool_decide (diversificationNonce h = divNonce)))) errConflictingDiversificationNonces;;
      update (set_diversificationNonce divNonce)
  | Message m =>
      if Tag m =? TagREJ then handleREJMessage d (Data m)
      else if Tag m =? TagSHLO then handleSHLOMessage (Data m)
      else failWith (qerr.Error qerr.InvalidCryptoMessageType)
  end.

Definition clientIteration (d : draws) (ev : clientEvent) : St client unit := handleEvent d ev;; loopHead.

Definition clientOpen (src : list Z) (packetNumber : Z) (associatedData : list Z) (h : client) : client * opened :=
  match cForwardSecureAEAD h with
  | Some a =>
      match Open a src packetNumber associatedData with
      | Some data => (h, Opened data EncryptionForwardSecure)
      | None => (h, Refused)
      end
  | None =>
      let null := match Open (nullAEAD PerspectiveClient (cVersion h)) src packetNumber associatedData with
                  | Some res => Opened res EncryptionUnencrypted | None => Refused end in
      match cSecureAEAD h with
      | Some a =>
          match Open a src packetNumber associatedData with
          | Some data => (set_cReceivedSecurePacket true h, Opened data EncryptionSecure)
          | None => if cReceivedSecurePacket h then (h, Refused) else (h, null)
          end
      | None => (h, null)
      end
  end.

(** What the packer of the client sees; it does not ask for the diversification nonce. *)
Definition clientSetup (h : client) : CryptoSetup :=
  let null := nullAEAD PerspectiveClient (cVersion h) in
  MkCryptoSetup
    (match cForwardSecureAEAD h, cSecureAEAD h with
     | Some a, _ => (EncryptionForwardSecure, sealer a)
     | None, Some a => (EncryptionSecure, sealer a)
     | None, None => (EncryptionUnencrypted, sealer null)
     end)
    (sealerWithLevel null (cSecureAEAD h) (cForwardSecureAEAD h))
    (EncryptionUnencrypted, sealer null) [].

End setup.
End cryptoSetup.

(** ** A handshake that runs *)
Module CryptoSetupExamples.
Import protocol binary handshake crypto serverConfig connectionParameters cryptoSetup CryptoExamples.

(** Certificates whose signature is a hash of what is signed. *)
Definition toySign (chain : list (list Z)) (chlo raw : list Z) : outcome (list Z) :=
  match chain with c :: _ => Ok (le64 (checksum (c ++ chlo ++ raw))) | [] => Err (NewError "no certificate") end.
Definition toyCerts : Certificates :=
  MkCertificates (λ sni, Ok [[48; 3; 1; 2; 3]]) toySign (λ chain _ _, match chain with c :: _ => Ok c | [] => Ok [] end)
    (λ data, Ok [data]) (λ name chain, if bool_decide (name = verifiedName) then None else Some (NewError "wrong name"))
    (λ proof cert chlo raw, bool_decide (proof = le64 (checksum (cert ++ chlo ++ raw)))) [].

Definition toyMarshal (t : list Z * Z) : list Z := le64 t.2 ++ t.1.
Definition toyUnmarshal (d : list Z) : option (list Z * Z * list Z) :=
  match Uint64 d with Ok t => Some (drop 8 d, t, []) | _ => None end.
Definition toyText (ip : list Z) : string := "10.0.0.1".

Definition draw : draws :=
  MkDraws (replicate 16 9) (replicate 32 11) (replicate 32 12) (NewCurve25519KEX toy (replicate 32 13)) (replicate 32 14) (replicate 20 15) (100 * time.Second).

Definition c0 : client := NewCryptoSetupClient (bytesOf "example.org") 77 512 (client0 512 16777216 25165824 (30 * time.Second)) true false [].
Definition s0 : server :=
  NewCryptoSetup 77 (UDP [10; 0; 0; 1]) 512 (NewServerConfig (NewCurve25519KEX toy (replicate 32 7)) (replicate 16 1, replicate 8 2))
    (server0 512 1048576 1572864 (30 * time.Second)) protocol.SupportedVersions (defaultAcceptCookie toyText (101 * time.Second)) (replicate 16 5).

(** The client sends a hello, the server answers: the client and the server afterwards, and
    whether both returned without an error. *)
Definition lastOf (l : list (list Z)) : list Z := default [] (last l).
Definition serverTurn (c : client) (s : server) : server * bool :=
  match serverIteration toy 12 toyCerts toyMarshal toyUnmarshal toyText draw (lastOf (cWritten c)) s with
  | (s, Ok (_, [])) => (s, true) | (s, _) => (s, false) end.
Definition clientTurn (c : client) (s : server) : client * bool :=
  match ParseHandshakeMessage (lastOf (sWritten s)) with
  | Ok (m, []) => match clientIteration toy 12 toyCerts draw (Message m) c with (c, Ok _) => (c, true) | (c, _) => (c, false) end
  | _ => (c, false)
  end.

(** The client after a turn of the server with [draw], and the message it got. *)
Definition messageOf (s : server) : HandshakeMessage :=
  match ParseHandshakeMessage (lastOf (sWritten s)) with Ok (m, _) => m | _ => MkHandshakeMessage 0 ∅ end.
Definition noCache : cache := MkCache None None None None.

Definition c1 : client := (clientStart toy 12 toyCerts noCache draw c0).1.
Definition s1 : server := (serverTurn c1 s0).1.
Definition c2 : client := (clientTurn c1 s1).1.
Definition s2 : server := (serverTurn c2 s1).1.
Definition c3 : client := (clientTurn c2 s2).1.
Definition s3 : server := (serverTurn c3 s2).1.
Definition c4 : client := (clientIteration toy 12 toyCerts draw (DivNonce (sDiversificationNonce s3)) c3).1.
(** The server's hello in a secure packet. *)
Definition packet : list Z := Seal (snd (GetSealerForCryptoStream (serverSetup toy s3))) (lastOf (sWritten s3)) 3 [8].
Definition c5 : client := (clientOpen toy packet 3 [8] c4).1.
Definition c6 : client := (clientTurn c5 s3).1.

End CryptoSetupExamples.
