(* ===== verification/HandshakeSafety.v ===== *)
(** * HandshakeSafety: what the handshake guarantees against the network

    Theorems on the two ends of CryptoSetup.v, whatever packets and messages arrive: the
    encryption level does not go down while handshake and packets take turns, and a client has
    keys only after the server has proved who it is. Runs of the client show why the second
    theorem excludes the cache and empty proofs. *)
From S2P Require Import Prelude Protocol ByteOrder AckFrames Frames PublicHeader HandshakeMessages GoFloat FlowControl Stream StreamsMap ConnectionParameters StreamFramer PacketPacker Crypto Certificates ServerConfig CryptoSetup.

(** ** Computations that keep a relation, whether they return, fail or panic *)
Section keeps.
Context {S : Type} (R : S → S → Prop) `{HR : !PreOrder R}.

Definition St_keeps {A} (m : St S A) : Prop := ∀ s, R s (m s).1.
Lemma St_keeps_bind {A B} (m : St S A) (k : A → St S B) : St_keeps m → (∀ a, St_keeps (k a)) → St_keeps (m ≫= k).
Proof.
  intros Hm Hk s. unfold mbind, St_bind. pose proof (Hm s) as H. destruct (m s) as [s1 [a|e|]]; [|done..].
  by transitivity s1; [|apply Hk].
Qed.
Lemma St_keeps_update f : (∀ s, R s (f s)) → St_keeps (update f).
Proof. intros H s. apply H. Qed.
Lemma St_keeps_same {A} (m : St S A) : (∀ s, (m s).1 = s) → St_keeps m.
Proof. intros H s. by rewrite H. Qed.
Lemma St_keeps_gets : St_keeps gets.
Proof. by apply St_keeps_same. Qed.
Lemma St_keeps_run {A} (o : outcome A) : St_keeps (run o).
Proof. by apply St_keeps_same. Qed.
Lemma St_keeps_fail {A} e : St_keeps (failWith (A := A) e).
Proof. by apply St_keeps_same. Qed.
Lemma St_keeps_ret {A} (a : A) : St_keeps (mret a).
Proof. by apply St_keeps_same. Qed.
Lemma St_keeps_check b e : St_keeps (check b e).
Proof. apply St_keeps_same. by destruct b. Qed.
End keeps.

Create HintDb keeping.
#[export] Hint Resolve St_keeps_gets St_keeps_run St_keeps_fail St_keeps_ret St_keeps_check : keeping.

(** Goes through a computation; [tac] deals with its updates. *)
Ltac keeping tac := repeat lazymatch goal with
  | |- St_keeps _ (mbind _ _) => apply St_keeps_bind; [typeclasses eauto| |intros ?]
  | |- St_keeps _ (update _) => apply St_keeps_update; intros ?; tac
  | |- St_keeps _ (match ?x with _ => _ end) => destruct x
  | |- St_keeps _ _ => solve [eauto with keeping typeclass_instances]
  end.

(** ** Encryption levels never go down *)
Section levels.
Import protocol crypto serverConfig cryptoSetup.
Context (P : Primitives) (gcmOverhead : Z) (certs : Certificates).
Context (Marshal : list Z * Z → list Z) (Unmarshal : list Z → option (list Z * Z * list Z)) (ipString : list Z → string).

(** [l'] may be accepted after [l]. *)
Definition may_follow (l l' : EncryptionLevel) : Prop :=
  (l = EncryptionForwardSecure → l' = EncryptionForwardSecure) ∧ (l = EncryptionSecure → l' ≠ EncryptionUnencrypted).

(** *** The lives of the two ends

    Packets arrive, and between them the goroutine of the handshake handles what it has read,
    with success or not. The list holds what became of each packet. The first forward-secure
    packet of the server waits until its hello has been sent; the session opens no other
    packet meanwhile. *)
Definition waitingData (r : opened) : option (list Z) := match r with Waits data => Some data | _ => None end.

Inductive serverLife (s0 : server) : server → option (list Z) → list opened → Prop :=
  | server_begins : serverLife s0 s0 None []
  | server_packet src n ad s rs s' r : serverLife s0 s None rs → serverOpen P src n ad s = (s', r) → serverLife s0 s' (waitingData r) (rs ++ [r])
  | server_resumes data s rs s' l : serverLife s0 s (Some data) rs → finishOpen data s = (s', Opened data l) → serverLife s0 s' None (rs ++ [Opened data l])
  | server_handles d input s w rs : serverLife s0 s w rs →
      serverLife s0 (serverIteration P gcmOverhead certs Marshal Unmarshal ipString d input s).1 w rs.

Inductive clientLife (c0 : client) : client → list opened → Prop :=
  | client_begins : clientLife c0 c0 []
  | client_runs cache d c rs : clientLife c0 c rs → clientLife c0 (clientStart P gcmOverhead certs cache d c).1 rs
  | client_packet src n ad c rs c' r : clientLife c0 c rs → clientOpen P src n ad c = (c', r) → clientLife c0 c' (rs ++ [r])
  | client_event d ev c rs : clientLife c0 c rs → clientLife c0 (clientIteration P gcmOverhead certs d ev c).1 rs.

(** *** What the handlers keep *)
Definition serverKept (h h' : server) : Prop :=
  (is_Some (sForwardSecureAEAD h) → is_Some (sForwardSecureAEAD h')) ∧ (is_Some (sSecureAEAD h) → is_Some (sSecureAEAD h')) ∧
  receivedForwardSecurePacket h' = receivedForwardSecurePacket h ∧ sReceivedSecurePacket h' = sReceivedSecurePacket h.
Definition clientKept (h h' : client) : Prop :=
  (is_Some (cForwardSecureAEAD h) → is_Some (cForwardSecureAEAD h')) ∧ (is_Some (cSecureAEAD h) → is_Some (cSecureAEAD h')) ∧
  cReceivedSecurePacket h' = cReceivedSecurePacket h.
#[global] Instance serverKept_preorder : PreOrder serverKept.
Proof. split; [done|]. intros ??? (? & ? & ? & ?) (? & ? & ? & ?). split_and!; [tauto|tauto|congruence|congruence]. Qed.
#[global] Instance clientKept_preorder : PreOrder clientKept.
Proof. split; [done|]. intros ??? (? & ? & ?) (? & ? & ?). split_and!; [tauto|tauto|congruence]. Qed.

Ltac kept := split_and!; cbn; auto; try done.

Lemma serverIteration_kept d input : St_keeps serverKept (serverIteration P gcmOverhead certs Marshal Unmarshal ipString d input).
Proof.
  unfold serverIteration, handleMessage, handleCHLO, handleInchoateCHLO, writeReply, signal. keeping kept.
Qed.

Lemma generateClientNonce_kept d : St_keeps clientKept (generateClientNonce d).
Proof. unfold generateClientNonce. keeping kept. Qed.
Lemma loopHead_kept : St_keeps clientKept (loopHead P gcmOverhead certs).
Proof. unfold loopHead, maybeUpgradeCrypto, sendCHLO, clientSignal. keeping kept. Qed.
Lemma useHandshakeCache_kept cache d h : clientKept h (useHandshakeCache P certs cache d h).
Proof.
  unfold useHandshakeCache. repeat (case_match; try by kept).
  all: match goal with H : generateClientNonce ?d ?h' = _ |- _ => pose proof (generateClientNonce_kept d h') as Hk; rewrite H in Hk; exact Hk end.
Qed.
Lemma clientStart_kept cache d : St_keeps clientKept (clientStart P gcmOverhead certs cache d).
Proof.
  unfold clientStart. apply St_keeps_bind; [typeclasses eauto| |intros _; apply loopHead_kept]. apply St_keeps_update. intros h.
  destruct (cacheHandshakeParam h); [apply useHandshakeCache_kept|done].
Qed.
Lemma clientIteration_kept d ev : St_keeps clientKept (clientIteration P gcmOverhead certs d ev).
Proof.
  unfold clientIteration. apply St_keeps_bind; [typeclasses eauto| |intros _; apply loopHead_kept].
  unfold handleEvent, handleREJMessage, handleSHLOMessage, maybeSet, handleSCFG, handleCERT, verifyServer, clientSignal. pose proof generateClientNonce_kept. keeping kept.
Qed.

(** *** What has been accepted *)

(** Nothing below [l] is accepted any more. *)
Definition serverLow (h : server) (l : EncryptionLevel) : Prop :=
  (l = EncryptionForwardSecure → receivedForwardSecurePacket h = true ∧ is_Some (sForwardSecureAEAD h)) ∧
  (l = EncryptionSecure → sReceivedSecurePacket h = true ∧ is_Some (sSecureAEAD h)).
Definition clientLow (h : client) (l : EncryptionLevel) : Prop :=
  (l = EncryptionForwardSecure → is_Some (cForwardSecureAEAD h)) ∧
  (l = EncryptionSecure → cReceivedSecurePacket h = true ∧ is_Some (cSecureAEAD h)).

Lemma serverLow_kept h h' l : serverKept h h' → serverLow h l → serverLow h' l.
Proof. intros (? & ? & E1 & E2) []. split; rewrite ?E1, ?E2; naive_solver. Qed.
Lemma clientLow_kept h h' l : clientKept h h' → clientLow h l → clientLow h' l.
Proof. intros (? & ? & E) []. split; rewrite ?E; naive_solver. Qed.

Lemma serverOpen_low src n ad h h' r : serverOpen P src n ad h = (h', r) → (∀ l, serverLow h l → serverLow h' l) ∧
  (∀ data, r = Waits data → serverLow h' EncryptionForwardSecure) ∧ ∀ d l, r = Opened d l → serverLow h' l ∧ ∀ l', serverLow h l' → may_follow l' l.
Proof.
  unfold serverOpen, finishOpen, may_follow, serverLow. repeat case_match; intros [= <- <-]; cbn; split_and!; intros; simplify_eq; cbn; naive_solver.
Qed.
Lemma clientOpen_low src n ad h h' r : clientOpen P src n ad h = (h', r) → (∀ l, clientLow h l → clientLow h' l) ∧
  ∀ d l, r = Opened d l → clientLow h' l ∧ ∀ l', clientLow h l' → may_follow l' l.
Proof.
  unfold clientOpen, may_follow, clientLow. repeat case_match; intros [= <- <-]; cbn; split_and!; intros; simplify_eq; cbn; naive_solver.
Qed.

(** What was accepted is in order, and has left its mark on the end. *)
Record ordered (low : EncryptionLevel → Prop) (rs : list opened) : Prop := MkOrdered {
  or_low : ∀ d l, Opened d l ∈ rs → low l;
  or_follow : ∀ i j d d' l l', (i < j)%nat → rs !! i = Some (Opened d l) → rs !! j = Some (Opened d' l') → may_follow l l';
}.
Lemma ordered_mono (low low' : EncryptionLevel → Prop) rs : (∀ l, low l → low' l) → ordered low rs → ordered low' rs.
Proof. intros H []. split; eauto. Qed.
Lemma ordered_snoc (low low' : EncryptionLevel → Prop) rs r : ordered low rs → (∀ l, low l → low' l) →
  (∀ d l, r = Opened d l → low' l ∧ ∀ l', low l' → may_follow l' l) → ordered low' (rs ++ [r]).
Proof.
  intros [Hl Hf] Hm Hr. split.
  - intros d l [H|H]%elem_of_app; [eauto|]. apply list_elem_of_singleton in H. by edestruct Hr.
  - intros i j d d' l l' Hij Hi Hj. apply lookup_lt_Some in Hj as Hlt. rewrite length_app in Hlt. cbn in Hlt. rewrite lookup_app_l in Hi by lia.
    destruct (decide (j < length rs)%nat) as [Hj'|Hj']; [rewrite lookup_app_l in Hj by lia; eauto|].
    rewrite lookup_app_r in Hj by lia. replace (j - length rs)%nat with 0%nat in Hj by lia. injection Hj as ->.
    edestruct Hr as [_ H]; [done|]. apply H. eapply Hl, list_elem_of_lookup_2, Hi.
Qed.

Lemma serverLife_ordered s0 s w rs : serverLife s0 s w rs → ordered (serverLow s) rs ∧ (is_Some w → serverLow s EncryptionForwardSecure).
Proof.
  induction 1 as [|src n ad s rs s' r _ [IH _] E|data s rs s' l _ [IH Hw] E|d input s w rs _ [IH Hw]].
  - split; [|by intros [? ?]]. split; [intros ?? H; by apply not_elem_of_nil in H|done].
  - destruct (serverOpen_low _ _ _ _ _ _ E) as (H1 & H2 & H3). split; [by eapply ordered_snoc|]. destruct r; cbn; try (by intros [? ?]). eauto.
  - split; [|by intros [? ?]]. specialize (Hw ltac:(done)). unfold finishOpen in E. destruct (sentSHLO s); [|discriminate]. injection E as <- <-.
    eapply ordered_snoc; [exact IH|done|]. intros d l [= <- <-]. split; [exact Hw|]. intros l' _. by split; intros; subst.
  - pose proof (serverIteration_kept d input s) as Hk. split; [eapply ordered_mono; [|exact IH]|intros Hs; specialize (Hw Hs); revert Hw]; intros; by eapply serverLow_kept.
Qed.
Lemma clientLife_ordered c0 c rs : clientLife c0 c rs → ordered (clientLow c) rs.
Proof.
  induction 1 as [|cache d c rs _ IH|src n ad c rs c' r _ IH E|d ev c rs _ IH].
  - split; [intros ?? H; by apply not_elem_of_nil in H|done].
  - eapply ordered_mono; [|exact IH]. intros l. apply clientLow_kept, clientStart_kept.
  - destruct (clientOpen_low _ _ _ _ _ _ E) as [H1 H2]. by eapply ordered_snoc.
  - eapply ordered_mono; [|exact IH]. intros l. apply clientLow_kept, clientIteration_kept.
Qed.

(** C18: packets cannot be downgraded, in the whole life of an end. Packets arrive in any
    order, and between them the handshake goes on: the server handles what its crypto stream
    delivers, the client starts, with a cache or without, and handles messages and
    diversification nonces; a handler is one step, may fail, and may install keys. Once an
    end has accepted a forward-secure packet, it accepts only forward-secure ones, and once it
    has accepted a secure one, no unencrypted ones. This holds for the server and for the
    client, whatever state they begin in. *)
Theorem no_downgrade i j d d' l l' s0 s w (rs : list opened) c0 c (rc : list opened) : (i < j)%nat →
  (serverLife s0 s w rs → rs !! i = Some (Opened d l) → rs !! j = Some (Opened d' l') → may_follow l l') ∧
  (clientLife c0 c rc → rc !! i = Some (Opened d l) → rc !! j = Some (Opened d' l') → may_follow l l').
Proof.
  intros Hij. split; intros H; [destruct (serverLife_ordered _ _ _ _ H) as [[_ Hf] _]|destruct (clientLife_ordered _ _ _ H) as [_ Hf]]; by apply Hf.
Qed.
End levels.

(** ** Keys only for a server that has proved who it is *)

(** *** Computations that return *)
Lemma St_bind_ok {S A B} (m : St S A) (k : A → St S B) s s' b : (m ≫= k) s = (s', Ok b) → ∃ s1 a, m s = (s1, Ok a) ∧ k a s1 = (s', Ok b).
Proof. unfold mbind, St_bind. destruct (m s) as [s1 [a|e|]]; [eauto|congruence..]. Qed.
Lemma check_ok {S} (b : bool) e (s s' : S) u : check b e s = (s', Ok u) → b = true ∧ s' = s.
Proof. destruct b; cbv; [intuition congruence|discriminate]. Qed.
Lemma St_run_ok {S A} (o : outcome A) (s s' : S) a : run o s = (s', Ok a) → o = Ok a ∧ s' = s.
Proof. unfold run. intuition congruence. Qed.

Lemma update_ok {S} (f : S → S) (s s' : S) u : update f s = (s', Ok u) → s' = f s.
Proof. unfold update. congruence. Qed.
Lemma mret_ok {S A} (a b : A) (s s' : S) : mret (M := St S) a s = (s', Ok b) → s' = s ∧ b = a.
Proof. unfold mret, St_ret. intuition congruence. Qed.

Lemma clientSignal_ok l h h' u : cryptoSetup.clientSignal l h = (h', Ok u) → h' = cryptoSetup.set_cSignals (cryptoSetup.cSignals h ++ [l]) h.
Proof. unfold cryptoSetup.clientSignal, mbind, St_bind, gets. destruct (cryptoSetup.cClosed h); [discriminate|apply update_ok]. Qed.

(** Takes the computations that have returned apart. *)
Ltac returned1 H := lazymatch type of H with
  | (mbind _ _) _ = (_, Ok _) => let s := fresh "s" in let a := fresh "a" in let H1 := fresh "H" in let H2 := fresh "H" in
      destruct (St_bind_ok _ _ _ _ _ H) as (s & a & H1 & H2); clear H; cbn beta in H2
  | gets _ = _ => unfold gets in H; injection H as <- <-
  | update _ _ = _ => apply update_ok in H; subst
  | check _ _ _ = _ => apply check_ok in H as [H ->]
  | run _ _ = _ => apply St_run_ok in H as [H ->]
  | mret _ _ = _ => apply mret_ok in H as [? ?]; subst
  | failWith _ _ = _ => discriminate H
  | cryptoSetup.clientSignal _ _ = _ => apply clientSignal_ok in H; subst
  end.
Ltac returned := repeat match goal with H : _ = (_, Ok _) |- _ => returned1 H end.

Section verified.
Import protocol handshake crypto serverConfig connectionParameters cryptoSetup.
Context (P : Primitives) (gcmOverhead : Z) (certs : Certificates).

#[local] Arguments verifiedName : simpl never.
#[local] Arguments writeMessage _ _ : simpl never.
#[local] Arguments DeriveQuicCryptoAESKeys _ _ _ _ _ _ _ _ _ _ _ : simpl never.

Lemma parseValues_raw random raw m c : parseValues P random raw m = Ok c → cRaw c = raw.
Proof.
  unfold parseValues, mbind, outcome_bind. intros H. repeat (case_match; try discriminate H). by injection H as <-.
Qed.
Lemma parseServerConfig_raw random raw c : parseServerConfig P random raw = Ok c → cRaw c = raw.
Proof.
  unfold parseServerConfig, mbind, outcome_bind. intros H. repeat (case_match; try discriminate H). eapply parseValues_raw, H.
Qed.

(** A configuration that the key of a verified certificate has signed together with a hello. *)
Definition signed (sent : list (list Z)) (cfg : serverConfigClient) (leafCert : list Z) : Prop :=
  (∃ random, parseServerConfig P random (cRaw cfg) = Ok cfg) ∧
  ∃ rest pr chlo, verifyChain certs verifiedName (leafCert :: rest) = None ∧
    verifyServerProof certs pr leafCert chlo (cRaw cfg) = true ∧ chlo ∈ sent.

(** An AEAD whose keys come from a secret shared with the owner of such a configuration, with
    [secret cfg] the secrets that the client has in common with that owner. *)
Definition keyed (sent : list (list Z)) (forwardSecure : bool) (secret : serverConfigClient → list Z → Prop) (connID : Z) (a : AEAD) : Prop :=
  ∃ cfg leafCert s nonce chlo div, signed sent cfg leafCert ∧ secret cfg s ∧ chlo ∈ sent ∧
    DeriveQuicCryptoAESKeys P gcmOverhead forwardSecure s nonce connID chlo (cRaw cfg) leafCert div PerspectiveClient = Ok a.
Definition staticSecret (cfg : serverConfigClient) (s : list Z) : Prop := s = sharedSecret cfg.
Definition ephermalSecret (pubs : list Z) (cfg : serverConfigClient) (s : list Z) : Prop := CalculateSharedKey P (cKex cfg) pubs = Ok s.

(** What has happened to a client: it has handled an event, or a packet arrived. *)
Inductive clientStep := Handled (ev : clientEvent) | Arrived (src : list Z) (n : Z) (ad : list Z).

(** One of the packets was opened with the secure AEAD [a]. *)
Definition provedSecure (seen : list clientStep) (a : AEAD) : Prop :=
  ∃ src n ad data, Arrived src n ad ∈ seen ∧ Open a src n ad = Some data.

(** Forward-secure keys: they come from the public value of a server hello that was handled
    after a packet of the owner of the configuration, opened with the secure AEAD, arrived. *)
Definition forwardKeyed (seen : list clientStep) (sent : list (list Z)) (connID : Z) (secure a : AEAD) : Prop :=
  ∃ before m after pubs, seen = before ++ Handled (Message m) :: after ∧ provedSecure before secure ∧
    Tag m = TagSHLO ∧ Data m !! TagPUBS = Some pubs ∧ keyed sent true (ephermalSecret pubs) connID a.

Lemma signed_mono sent sent' cfg c : (∀ x, x ∈ sent → x ∈ sent') → signed sent cfg c → signed sent' cfg c.
Proof. intros H (? & ? & ? & ? & ? & ? & ?). split; naive_solver. Qed.
Lemma keyed_mono sent sent' fs secret id a : (∀ x, x ∈ sent → x ∈ sent') → keyed sent fs secret id a → keyed sent' fs secret id a.
Proof. intros H (cfg & c & s & n & chlo & div & Hs & ? & ? & ?). exists cfg, c, s, n, chlo, div. split_and!; eauto using signed_mono. Qed.

Lemma provedSecure_more seen x a : provedSecure seen a → provedSecure (seen ++ [x]) a.
Proof. intros (src & n & ad & data & H & E). exists src, n, ad, data. split; [apply elem_of_app; by left|done]. Qed.
Lemma forwardKeyed_more seen x sent id sec a : forwardKeyed seen sent id sec a → forwardKeyed (seen ++ [x]) sent id sec a.
Proof.
  intros (before & m & after & pubs & -> & H). exists before, m, (after ++ [x]), pubs. split; [|done]. by rewrite <- (assoc_L (++)).
Qed.
Lemma forwardKeyed_sent seen sent sent' id sec a : (∀ x, x ∈ sent → x ∈ sent') → forwardKeyed seen sent id sec a → forwardKeyed seen sent' id sec a.
Proof. intros H (before & m & after & pubs & ? & ? & ? & ? & ?). exists before, m, after, pubs. split_and!; eauto using keyed_mono. Qed.

(** *** The invariant *)

(** What the client knows about the server now. *)
Definition trusted (h : client) : Prop :=
  ∃ cfg leafCert rest, serverConfigOf h = Some cfg ∧ chain h = leafCert :: rest ∧ proof h ≠ [] ∧
    verifyServerProof certs (proof h) leafCert (chloForSignature h) (cRaw cfg) = true.

Record known (h : client) : Prop := MkKnown {
  known_chain : chain h = [] ∨ verifyChain certs verifiedName (chain h) = None;
  known_config : ∀ cfg, serverConfigOf h = Some cfg → ∃ random, parseServerConfig P random (cRaw cfg) = Ok cfg;
  known_proof : proof h ≠ [] → chloForSignature h ∈ cWritten h;
}.
Record keysOk (seen : list clientStep) (h : client) : Prop := MkKeysOk {
  keys_secure : ∀ a, cSecureAEAD h = Some a → keyed (cWritten h) false staticSecret (cConnID h) a;
  keys_forward : ∀ a, cForwardSecureAEAD h = Some a → ∃ sec, cSecureAEAD h = Some sec ∧ forwardKeyed seen (cWritten h) (cConnID h) sec a;
  keys_verified : is_Some (cSecureAEAD h) → serverVerified h = true;
  keys_received : cReceivedSecurePacket h = true → ∃ sec, cSecureAEAD h = Some sec ∧ provedSecure seen sec;
  keys_hellos : len (cWritten h) ≤ Z.min MaxClientHellos (clientHelloCounter h);
}.
Record clientInv (seen : list clientStep) (h : client) : Prop := MkClientInv {
  inv_known : known h;
  inv_trusted : serverVerified h = true → trusted h;
  inv_keys : keysOk seen h;
}.
(** A hello has been sent. *)
Definition started (h : client) : Prop := lastSentCHLO h ∈ cWritten h.

(** The server that is trusted has signed its configuration. *)
Lemma trusted_signed h : known h → trusted h → ∃ cfg c, serverConfigOf h = Some cfg ∧ GetLeafCert h = Some c ∧ signed (cWritten h) cfg c.
Proof.
  intros [Hc Hcfg Hp] (cfg & c & rest & E1 & E2 & E3 & E4). exists cfg, c. split_and!; [done|by unfold GetLeafCert; rewrite E2|].
  split; [by apply Hcfg|]. exists rest, (proof h), (chloForSignature h). rewrite E2 in Hc. destruct Hc; [done|]. auto.
Qed.

(** *** Its preservation *)
Lemma keysOk_more seen x h : keysOk seen h → keysOk (seen ++ [x]) h.
Proof.
  intros [A1 A2 A3 A4 A5]. split; [done| |done| |done].
  - intros a Ha. destruct (A2 a Ha) as (sec & ? & ?). eauto using forwardKeyed_more.
  - intros Hr. destruct (A4 Hr) as (sec & ? & ?). eauto using provedSecure_more.
Qed.
Lemma clientInv_more seen x h : clientInv seen h → clientInv (seen ++ [x]) h.
Proof. intros []. split; [done..|by apply keysOk_more]. Qed.

Section steps.
Context (seen : list clientStep).
Notation clientInv := (clientInv seen).
Notation keysOk := (keysOk seen).

Lemma sendCHLO_inv h h' : clientInv h → sendCHLO certs h = (h', Ok tt) → clientInv h' ∧ started h'.
Proof.
  intros [[K1 K2 K3] T [A1 A2 A3 A4 A5]] H. unfold sendCHLO in H. returned. cbn in *.
  assert (∀ (x b : list Z), x ∈ cWritten h → x ∈ cWritten h ++ [b]) as Hin by (intros; apply elem_of_app; by left).
  split; [|red; cbn; apply elem_of_app; right; apply list_elem_of_singleton; reflexivity]. split; [split| |split]; cbn; eauto using keyed_mono.
  { intros a' Ha. destruct (A2 a' Ha) as (sec & ? & ?). eauto using forwardKeyed_sent. }
  rewrite len_app. change (len [_]) with 1. unfold MaxClientHellos in *. lia.
Qed.

Lemma maybeUpgradeCrypto_inv h h' : clientInv h → started h ∨ serverVerified h = false → maybeUpgradeCrypto P gcmOverhead h = (h', Ok tt) →
  clientInv h' ∧ lastSentCHLO h' = lastSentCHLO h ∧ cWritten h' = cWritten h ∧ serverVerified h' = serverVerified h.
Proof.
  intros Inv Hst H. pose proof Inv as [K T [A1 A2 A3 A4 A5]]. unfold maybeUpgradeCrypto in H. returned.
  destruct (serverVerified h) eqn:Ev; cbn [negb] in *; returned; [|done].
  destruct Hst as [Hst|]; [|done]. destruct (trusted_signed h K (T eq_refl)) as (cfg & c & Ecfg & Ec & Hsig). rewrite Ecfg, Ec in *. cbn [default] in *.
  repeat case_match; returned; try done.
  split; [|done]. split; [by destruct K; split|intros _; exact (T eq_refl)|]. split; cbn; try done.
  2: by intros a' Ha; destruct (A2 a' Ha) as (? & ? & _); congruence. 2: by intros Hr; destruct (A4 Hr) as (? & ? & _); congruence.
  intros a' [= <-]. exists cfg, c, (sharedSecret cfg), (nonc h ++ sno h), (lastSentCHLO h), (diversificationNonce h). split_and!; [done|reflexivity|exact Hst|exact H2].
Qed.

Lemma loopHead_inv h h' : clientInv h → started h ∨ serverVerified h = false → loopHead P gcmOverhead certs h = (h', Ok tt) → clientInv h' ∧ started h'.
Proof.
  intros Inv Hst H. unfold loopHead in H. destruct (St_bind_ok _ _ _ _ _ H) as (h1 & [] & H1 & H2). clear H.
  destruct (maybeUpgradeCrypto_inv h h1 Inv Hst H1) as (Inv' & E1 & E2 & E3).
  returned. case_bool_decide as Hs; [by eapply sendCHLO_inv; [exact Inv'|eassumption]|]. returned. split; [done|]. destruct Hst as [Hst|Hst]; [by red; rewrite E1, E2|].
  pose proof (keys_verified _ _ (inv_keys _ _ Inv') ltac:(by destruct (cSecureAEAD h1))) as Hv. congruence.
Qed.

(** *** The messages of the server *)

(** Between the steps of a reject: what is known may be new and not yet verified. *)
Record rejecting (h : client) : Prop := MkRejecting {
  rej_known : known h;
  rej_keys : keysOk h;
  rej_verifiable : serverVerified h = true → is_Some (serverConfigOf h) ∧ chain h ≠ [] ∧ proof h ≠ [];
  rej_started : started h;
}.
Lemma clientInv_rejecting h : clientInv h → started h → rejecting h.
Proof. intros [K T A] Hs. split; [done..| |done]. intros Hv. destruct (T Hv) as (? & ? & ? & -> & -> & ? & ?). eauto. Qed.

Lemma maybeSet_rejecting m t f h h' : (∀ v h, m !! t = Some v → rejecting h → rejecting (f v h)) → rejecting h →
  maybeSet m t f h = (h', Ok tt) → rejecting h'.
Proof. unfold maybeSet. intros Hf Hr H. destruct (m !! t) eqn:E; returned; eauto. Qed.

Ltac keep := match goal with H : rejecting ?h |- rejecting _ => destruct H as [[K1 K2 K3] [A1 A2 A3 A4 A5] V St]; split; [split|split|..]; cbn in *; try done end.

Lemma handleSCFG_rejecting d m h h' : rejecting h → handleSCFG P d m h = (h', Ok tt) → rejecting h'.
Proof.
  intros Hr H. unfold handleSCFG in H. destruct (m !! TagSCFG) as [raw|]; [|by returned].
  destruct (parseServerConfig P (keyBytes d) raw) as [cfg| |] eqn:Ep; returned; try done.
  assert (rejecting (set_scfgData raw (set_serverConfigOf (Some cfg) h))) as Hr'.
  { keep; [|naive_solver]. intros ? [= <-]. rewrite <- (parseServerConfig_raw _ _ _ Ep) in Ep. eauto. }
  clear Hr. destruct (len _ =? 0); [|by returned]. unfold generateClientNonce in *. returned. cbn in *. returned. by keep.
Qed.

Lemma handleCERT_rejecting m h h' : rejecting h → handleCERT certs m h = (h', Ok tt) → rejecting h'.
Proof.
  intros Hr H. unfold handleCERT in H. destruct (m !! TagCERT) as [crt|]; [|by returned].
  destruct (parseChain certs crt) as [c| |] eqn:Ep; returned; try done. match goal with H : bool_decide _ = true |- _ => apply bool_decide_eq_true in H; rename H into Hv end.
  unfold Verify in Hv. cbn in Hv. destruct c as [|c0 c]; [done|]. keep; [by right|naive_solver].
Qed.

Lemma verifyServer_inv h h' : rejecting h → verifyServer certs h = (h', Ok tt) → clientInv h' ∧ started h'.
Proof.
  intros [K A V St] H. unfold verifyServer in H. returned.
  assert (serverVerified h = false → clientInv h) as Hno by (intros E; split; [done| |done]; congruence).
  destruct (serverConfigOf h) as [cfg|] eqn:Ecfg; [|returned; split; [apply Hno|done]; destruct (serverVerified h); naive_solver].
  destruct (negb (len (proof h) =? 0) && bool_decide (is_Some (GetLeafCert h))) eqn:Eb; returned.
  - apply andb_prop in Eb as [E1 E2]. apply bool_decide_eq_true in E2. unfold VerifyServerProof in *. destruct (chain h) as [|c rest] eqn:Ec; [done|].
    split; [|done]. destruct K, A. split; [by split| |by split]. intros _. exists cfg, c, rest. cbn. split_and!; try done. intros E. by rewrite E in E1.
  - split; [|done]. apply Hno. destruct (serverVerified h); [|done]. destruct (V eq_refl) as (_ & V1 & V2). unfold GetLeafCert in Eb.
    destruct (chain h), (proof h); naive_solver.
Qed.

Lemma handleREJMessage_inv d m h h' : m !! TagPROF ≠ Some [] → clientInv h → started h → handleREJMessage P certs d m h = (h', Ok tt) → clientInv h' ∧ started h'.
Proof.
  intros Hm Inv Hst H. pose proof (clientInv_rejecting h Inv Hst) as Hr. clear Inv Hst. unfold handleREJMessage in H.
  do 5 (destruct (St_bind_ok _ _ _ _ _ H) as (? & [] & ? & H'); clear H; rename H' into H).
  eapply verifyServer_inv; [|exact H]. eapply handleCERT_rejecting; [|eassumption].
  eapply maybeSet_rejecting; [|eapply handleSCFG_rejecting; [|eassumption]; eapply maybeSet_rejecting; [|eapply maybeSet_rejecting; [|exact Hr|eassumption]|eassumption]|eassumption].
  all: intros v h0 Hv Hr0; keep. intros Hne. split_and!; naive_solver.
Qed.

End steps.

Lemma handleSHLOMessage_inv seen message h h' : Tag message = TagSHLO → clientInv seen h → started h → handleSHLOMessage P gcmOverhead (Data message) h = (h', Ok tt) →
  clientInv (seen ++ [Handled (Message message)]) h' ∧ started h'.
Proof.
  intros Htag Inv Hst H0. assert (∃ m, m !! TagPUBS = Data message !! TagPUBS ∧ handleSHLOMessage P gcmOverhead m h = (h', Ok tt)) as (m & Em & H) by eauto.
  clear H0. unfold handleSHLOMessage in H.
  destruct (St_bind_ok _ _ _ _ _ H) as (h1 & h2 & E & H1). clear H. unfold gets in E. injection E as <- <-.
  destruct (St_bind_ok _ _ _ _ _ H1) as (h1 & [] & E & H2). clear H1. apply check_ok in E as [Hrs ->].
  destruct (St_bind_ok _ _ _ _ _ H2) as (h1 & [] & E & H1). clear H2.
  assert (clientInv seen h1 ∧ started h1 ∧ cReceivedSecurePacket h1 = true) as (Inv1 & Hst1 & Hrs1).
  { unfold maybeSet in E. destruct (m !! TagSNO); returned; [|done]. destruct Inv as [[] ? []]. split; [by split; [split| |split]|done]. }
  clear Inv Hst Hrs E. pose proof (keys_received _ _ (inv_keys _ _ Inv1) Hrs1) as (sec & Hsec & Hps).
  pose proof (clientInv_more _ (Handled (Message message)) _ Inv1) as [K T [A1 A2 A3 A4 A5]].
  destruct (trusted_signed h1 K (T (A3 (mk_is_Some _ _ Hsec)))) as (cfg & c & Ecfg & Ec & Hsig).
  destruct (m !! TagPUBS) as [pubs|] eqn:Epubs; [|by returned]. destruct (m !! TagVER) as [verTag|]; [|by returned].
  returned. rewrite Ecfg in *. returned. rewrite Ec in *. cbn [default] in *.
  destruct (SetFromMap m (cParameters h1)) as [params err]. returned. destruct K. split; [|done].
  split; [by split|done|]. split; cbn; try done.
  intros a' [= <-]. exists sec. split; [exact Hsec|]. exists seen, message, [], pubs. split_and!; [done..|congruence|].
  do 6 eexists. split_and!; [exact Hsig|eassumption|exact Hst1|eassumption].
Qed.

Lemma clientOpen_inv seen src n ad h : clientInv seen h → started h → clientInv (seen ++ [Arrived src n ad]) (clientOpen P src n ad h).1 ∧ started (clientOpen P src n ad h).1.
Proof.
  intros Inv Hst. pose proof (clientInv_more _ (Arrived src n ad) _ Inv) as Inv'. unfold clientOpen.
  destruct (cForwardSecureAEAD h); [by destruct (Open _ _ _ _)|]. destruct (cSecureAEAD h) as [a|] eqn:Ea; [|done].
  destruct (Open a src n ad) as [data|] eqn:Eo; [|by destruct (cReceivedSecurePacket h)]. cbn. split; [|done].
  destruct Inv' as [[] ? []]. split; [by split|done|]. split; cbn; try done.
  intros _. exists a. split; [done|]. exists src, n, ad, data. split; [|done]. apply elem_of_app. right. by apply list_elem_of_singleton.
Qed.

(** *** Runs of a client

    The handshake goroutine and the session take turns: the goroutine handles an event, the
    session opens a packet. The client does not use a cache, and no reject of the server
    carries an empty proof. *)
Definition proved (ev : clientEvent) : Prop :=
  match ev with DivNonce _ => True | Message m => Data m !! TagPROF ≠ Some [] end.

Inductive clientReach : list clientStep → client → Prop :=
  | client_starts host connID version params truncation negotiated c d h :
      clientStart P gcmOverhead certs c d (NewCryptoSetupClient host connID version params truncation false negotiated) = (h, Ok tt) → clientReach [] h
  | client_handles seen h d ev h' : clientReach seen h → proved ev → clientIteration P gcmOverhead certs d ev h = (h', Ok tt) → clientReach (seen ++ [Handled ev]) h'
  | client_opens seen h src n ad : clientReach seen h → clientReach (seen ++ [Arrived src n ad]) (clientOpen P src n ad h).1.

Lemma handleEvent_inv seen d ev h h' : proved ev → clientInv seen h → started h → handleEvent P gcmOverhead certs d ev h = (h', Ok tt) →
  clientInv (seen ++ [Handled ev]) h' ∧ started h'.
Proof.
  intros Hev Inv Hst H. pose proof (clientInv_more _ (Handled ev) _ Inv) as Inv'. destruct ev as [nonce|m]; cbn in H.
  - returned. split; [|done]. destruct Inv' as [[] ? []]. by split; [split| |split].
  - destruct (Tag m =? TagREJ); [by eapply handleREJMessage_inv|]. destruct (Z.eqb_spec (Tag m) TagSHLO); [by eapply handleSHLOMessage_inv|]. by returned.
Qed.

Lemma clientReach_inv seen h : clientReach seen h → clientInv seen h ∧ started h.
Proof.
  induction 1 as [host connID version params truncation negotiated c d h H|seen h d ev h' _ [Inv Hst] Hev H|seen h src n ad _ [Inv Hst]].
  - unfold clientStart in H. destruct (St_bind_ok _ _ _ _ _ H) as (h1 & [] & E & H1). apply update_ok in E. cbn in E. subst h1.
    refine (loopHead_inv [] (NewCryptoSetupClient _ _ _ _ _ _ _) _ _ (or_intror eq_refl) H1). split; [split| |split]; cbn; try done. by left.
  - unfold clientIteration in H. destruct (St_bind_ok _ _ _ _ _ H) as (h1 & [] & E & H1).
    destruct (handleEvent_inv seen d ev h h1 Hev Inv Hst E) as [Inv1 Hst1]. exact (loopHead_inv _ _ _ Inv1 (or_introl Hst1) H1).
  - by apply clientOpen_inv.
Qed.

(** C8: a client that does not use the cache has keys only after the server has proved who it
    is. Whatever messages and packets arrive, as long as the handlers succeed and no reject
    carries an empty proof: the keys of the secure AEAD come from the secret that the client
    shares with the owner of a server configuration which the key of a certificate has signed
    together with a hello that this client sent, and the certificate chain has been verified,
    for the name that the code fixes. Forward-secure keys are
    derived only when secure ones exist, from the public value in a server hello that was
    handled after a packet which the secure keys open had arrived, and from the client's own
    key for such a configuration; that the hello itself came in such a packet is not checked
    by the code, and not claimed. The client sends three hellos at most. *)
Theorem keys_need_proof seen h : clientReach seen h →
  (∀ a, cSecureAEAD h = Some a → keyed (cWritten h) false staticSecret (cConnID h) a) ∧
  (∀ a, cForwardSecureAEAD h = Some a → ∃ sec, cSecureAEAD h = Some sec ∧ forwardKeyed seen (cWritten h) (cConnID h) sec a) ∧
  (is_Some (cSecureAEAD h) → trusted h) ∧
  len (cWritten h) ≤ MaxClientHellos.
Proof.
  intros H. destruct (clientReach_inv seen h H) as [[K T [A1 A2 A3 A4 A5]] _]. split_and!; [done|done|by intros Ha; apply T, A3|lia].
Qed.
End verified.

(** ** Runs *)
Module HandshakeSafetyExamples.
Import protocol handshake crypto serverConfig connectionParameters cryptoSetup CryptoExamples CryptoSetupExamples.

Lemma returns {S} (r : S * outcome unit) : r.2 = Ok tt → r = (r.1, Ok tt).
Proof. destruct r. by cbn; intros ->. Defined.

Lemma some_of {A} (o : option A) : bool_decide (is_Some o) = true → is_Some o.
Proof. apply bool_decide_eq_true. Defined.

Notation reach := (clientReach toy 12 toyCerts).

Lemma c1_reach : reach [] c1.
Proof. eapply client_starts. apply returns. vm_compute. reflexivity. Defined.

Lemma turn_reach seen c s : reach seen c → bool_decide (Data (messageOf s) !! TagPROF = Some []) = false → (clientTurn c s).2 = true →
  reach (seen ++ [Handled (Message (messageOf s))]) (clientTurn c s).1.
Proof.
  intros Hc Hp. unfold clientTurn, messageOf in *. destruct (ParseHandshakeMessage (lastOf (sWritten s))) as [[m [|? ?]]| |]; try discriminate.
  destruct (clientIteration toy 12 toyCerts draw (Message m) c) as [c' [[]|e|]] eqn:E; try discriminate. intros _.
  refine (client_handles _ _ _ _ _ draw (Message m) _ Hc _ E). cbn. by apply bool_decide_eq_false in Hp.
Defined.

(** What the client sees: two rejects, a diversification nonce, and the server's hello, which
    comes in a secure packet. *)
Definition seen4 : list clientStep := (([] ++ [Handled (Message (messageOf s1))]) ++ [Handled (Message (messageOf s2))]) ++ [Handled (DivNonce (sDiversificationNonce s3))].
Definition seen6 : list clientStep := (seen4 ++ [Arrived packet 3 [8]]) ++ [Handled (Message (messageOf s3))].

Lemma c4_reach : reach seen4 c4.
Proof.
  refine (client_handles _ _ _ _ c3 draw (DivNonce (sDiversificationNonce s3)) _ _ I (returns _ _)); [|vm_compute; reflexivity].
  apply turn_reach; [|vm_compute; reflexivity|vm_compute; reflexivity]. apply turn_reach; [|vm_compute; reflexivity|vm_compute; reflexivity]. exact c1_reach.
Defined.

Lemma keys_need_proof_witness : trusted toyCerts c6 ∧ len (cWritten c6) = MaxClientHellos ∧
  ∃ sec a, cSecureAEAD c6 = Some sec ∧ cForwardSecureAEAD c6 = Some a ∧ forwardKeyed toy 12 toyCerts seen6 (cWritten c6) (cConnID c6) sec a.
Proof.
  destruct (keys_need_proof toy 12 toyCerts seen6 c6) as (_ & Hf & Ht & _).
  - apply turn_reach; [|vm_compute; reflexivity|vm_compute; reflexivity]. apply client_opens. exact c4_reach.
  - assert (is_Some (cSecureAEAD c6)) as Hs by (apply some_of; vm_compute; reflexivity).
    assert (is_Some (cForwardSecureAEAD c6)) as [a Ha] by (apply some_of; vm_compute; reflexivity).
    split; [exact (Ht Hs)|]. split; [vm_compute; reflexivity|]. destruct (Hf a Ha) as (sec & H1 & H2). exact (ex_intro _ sec (ex_intro _ a (conj H1 (conj Ha H2)))).
Defined.

(** The life of the server from the first hello on: it opens a forward-secure packet; one with
    the null AEAD is refused from then on. *)
Definition sealedBy (a : Sealer) (data : list Z) (n : Z) : list Z := Seal a data n [8].
Definition opening (n : Z) (src : list Z) (s : server) : server * opened := serverOpen toy src n [8] s.
Definition p4 : list Z := sealedBy (snd (GetSealer (clientSetup toy c6))) [1; 2] 4.
Definition p5 : list Z := sealedBy (snd (GetSealer (clientSetup toy c0))) [1; 2] 5.
Definition p6 : list Z := sealedBy (snd (GetSealer (clientSetup toy c6))) [3] 6.
Definition s4 : server := (opening 4 p4 s3).1.
Definition s5 : server := (opening 5 p5 s4).1.
Definition s6 : server := (opening 6 p6 s5).1.

Notation toyServerLife := (serverLife toy 12 toyCerts toyMarshal toyUnmarshal toyText).
Notation toyClientLife := (clientLife toy 12 toyCerts).

Lemma serverTurn_life s0 c s w rs : toyServerLife s0 s w rs → toyServerLife s0 (serverTurn c s).1 w rs.
Proof.
  intros H. eapply server_handles in H. unfold serverTurn. revert H. instantiate (1 := lastOf (cWritten c)). instantiate (1 := draw).
  by destruct (serverIteration _ _ _ _ _ _ _ _ _) as [s' [[? []]| |]].
Defined.
Lemma serverLife_opens s0 s rs n src r : toyServerLife s0 s None rs → (opening n src s).2 = r → toyServerLife s0 (opening n src s).1 (waitingData r) (rs ++ [r]).
Proof. intros H <-. eapply server_packet; [exact H|]. unfold opening. apply surjective_pairing. Defined.

(** The life of the client: it opens the server's hello, refuses an unencrypted packet, and
    handles the hello between two packets. *)
Definition receiving (n : Z) (src : list Z) (c : client) : client * opened := clientOpen toy src n [8] c.
Definition q4 : list Z := sealedBy (snd (GetSealer (serverSetup toy s0))) [7] 4.
Definition q5 : list Z := sealedBy (snd (GetSealer (serverSetup toy s4))) [7] 5.
Definition r3 : client := (receiving 3 packet c4).1.
Definition r4 : client := (receiving 4 q4 r3).1.
Definition r5 : client := (clientIteration toy 12 toyCerts draw (Message (messageOf s3)) r4).1.
Definition r6 : client := (receiving 5 q5 r5).1.
Lemma clientLife_opens c0 c rs n src r : toyClientLife c0 c rs → (receiving n src c).2 = r → toyClientLife c0 (receiving n src c).1 (rs ++ [r]).
Proof. intros H <-. eapply client_packet; [exact H|]. unfold receiving. apply surjective_pairing. Defined.
Lemma clientLife_handles c0 c rs m : toyClientLife c0 c rs → toyClientLife c0 (clientIteration toy 12 toyCerts draw (Message m) c).1 rs.
Proof. apply client_event. Defined.

(** Opened, refused, opened. *)
Definition ends_up (d d' : list Z) (l l' : EncryptionLevel) : list opened := [Opened d l; Refused; Opened d' l'].

Lemma s3_life : toyServerLife s0 s3 None [].
Proof. apply (serverTurn_life s0 c3 s2), (serverTurn_life s0 c2 s1), (serverTurn_life s0 c1 s0), server_begins. Defined.
Lemma s6_life : toyServerLife s0 s6 None (ends_up [1; 2] [3] EncryptionForwardSecure EncryptionForwardSecure).
Proof.
  pose proof (serverLife_opens s0 s3 [] 4 p4 (Opened [1; 2] EncryptionForwardSecure) s3_life ltac:(vm_compute; reflexivity)) as H4.
  pose proof (serverLife_opens s0 s4 _ 5 p5 Refused H4 ltac:(vm_compute; reflexivity)) as H5.
  exact (serverLife_opens s0 s5 _ 6 p6 (Opened [3] EncryptionForwardSecure) H5 ltac:(vm_compute; reflexivity)).
Defined.
Lemma r6_life : toyClientLife c4 r6 (ends_up (lastOf (sWritten s3)) [7] EncryptionSecure EncryptionForwardSecure).
Proof.
  pose proof (clientLife_opens c4 c4 [] 3 packet (Opened (lastOf (sWritten s3)) EncryptionSecure) (client_begins _ _ _ c4) ltac:(vm_compute; reflexivity)) as H3.
  pose proof (clientLife_opens c4 r3 _ 4 q4 Refused H3 ltac:(vm_compute; reflexivity)) as H4.
  pose proof (clientLife_handles c4 r4 _ (messageOf s3) H4) as H5.
  exact (clientLife_opens c4 r5 _ 5 q5 (Opened [7] EncryptionForwardSecure) H5 ltac:(vm_compute; reflexivity)).
Defined.

Lemma no_downgrade_witness : may_follow EncryptionForwardSecure EncryptionForwardSecure ∧ may_follow EncryptionSecure EncryptionForwardSecure.
Proof.
  split.
  - exact (proj1 (no_downgrade toy 12 toyCerts toyMarshal toyUnmarshal toyText 0 2 [1; 2] [3] EncryptionForwardSecure EncryptionForwardSecure
      s0 s6 None _ c4 c4 [] ltac:(lia)) s6_life eq_refl eq_refl).
  - exact (proj2 (no_downgrade toy 12 toyCerts toyMarshal toyUnmarshal toyText 0 2 (lastOf (sWritten s3)) [7] EncryptionSecure EncryptionForwardSecure
      s0 s0 None [] c4 r6 _ ltac:(lia)) r6_life eq_refl eq_refl).
Defined.

(** *** Why the theorem excludes the cache and empty proofs

    A reject with the configuration of somebody else, and with [extra] entries. *)
Definition evilConfig : ServerConfig := NewServerConfig (NewCurve25519KEX toy (replicate 32 66)) (replicate 16 3, replicate 8 2).
Definition evilRaw : list Z := match Get evilConfig with Ok raw => raw | _ => [] end.
Definition evilREJ (extra : gmap Z (list Z)) : clientEvent := Message (MkHandshakeMessage TagREJ (<[TagSCFG := evilRaw]> extra)).
Definition after (evs : list clientEvent) (c : client) : client := foldl (λ c ev, (clientIteration toy 12 toyCerts draw ev c).1) c evs.
Definition fooled (c : client) : Prop :=
  (cRaw <$> serverConfigOf c) = Some evilRaw ∧ VerifyServerProof toyCerts (proof c) (chloForSignature c) evilRaw c = false ∧
  bool_decide (is_Some (cSecureAEAD c)) = true.

(** With the cache of an earlier connection the server counts as verified from the start, and
    a configuration that comes without any proof is taken. *)
Example cache_skips_proof :
  let c := NewCryptoSetupClient (bytesOf "example.org") 78 512 (client0 512 16777216 25165824 (30 * time.Second)) true true [] in
  fooled (after [evilREJ ∅; DivNonce (replicate 32 4)] (clientStart toy 12 toyCerts (cacheHandshake c6 noCache) draw c).1).
Proof. vm_compute. split; [reflexivity|]. split; reflexivity. Qed.

(** A server that asks for no token proves who it is in its first reject; then a reject with
    an empty proof replaces its configuration. *)
Example empty_proof_skips_proof :
  let s := NewCryptoSetup 77 (UDP [10; 0; 0; 1]) 512 (scfg s0) (sParameters s0) protocol.SupportedVersions (λ _ _, true) (stkKey s0) in
  let c := (clientTurn c1 (serverTurn c1 s).1).1 in
  serverVerified c = true ∧ trusted toyCerts c ∧ fooled (after [evilREJ {[ TagPROF := [] ]}; DivNonce (replicate 32 4)] c).
Proof.
  split; [vm_compute; reflexivity|]. split; [|vm_compute; split; [reflexivity|]; split; reflexivity].
  eexists _, _, _. split; [vm_compute; reflexivity|]. split; [vm_compute; reflexivity|]. split; [vm_compute; discriminate|vm_compute; reflexivity].
Qed.

(** Once a secure packet has arrived, the public value of any server hello is taken, also of
    one that was read from an unencrypted packet before. *)
Example any_hello_is_taken :
  let evil := PublicKey (NewCurve25519KEX toy (replicate 32 66)) in
  (clientIteration toy 12 toyCerts draw (Message (MkHandshakeMessage TagSHLO (<[TagPUBS := evil]> (Data (messageOf s3))))) c5).2 = Ok tt.
Proof. vm_compute. reflexivity. Qed.

(** A second hello of the server makes the client send on a channel that it has closed. *)
Example second_server_hello_panics :
  (clientIteration toy 12 toyCerts draw (Message (messageOf s3)) c5).2 = Ok tt ∧
  (clientIteration toy 12 toyCerts draw (Message (MkHandshakeMessage TagSHLO (filter (λ kv, kv.1 ≠ TagSFCW ∧ kv.1 ≠ TagCFCW) (Data (messageOf s3))))) c6).2 = Panic.
Proof. split; vm_compute; reflexivity. Qed.

End HandshakeSafetyExamples.
