(* ===== verification/Handshake.v ===== *)
(** * Handshake: the last flights of a handshake make client and server agree

    A client that has the configuration of the server, its certificate and a token sends its
    complete hello; the server answers with its own. Theorems on the two ends of
    CryptoSetup.v: the hello is long enough and is accepted, both ends derive keys that open
    each other's packets, and their connection parameters agree. Before that, a client with a
    token but without a certificate sends an inchoate hello, and the reject that answers it
    gives the client all that the last flights need. *)
From S2P Require Import Prelude Protocol ByteOrder AckFrames Frames PublicHeader HandshakeMessages GoFloat FlowControl Stream StreamsMap ConnectionParameters StreamFramer PacketPacker Crypto Certificates ServerConfig CryptoSetup HandshakeSafety.

(** ** Running computations *)
Lemma St_bind_step {S A B} (m : St S A) (k : A → St S B) s s1 a : m s = (s1, Ok a) → (m ≫= k) s = k a s1.
Proof. unfold mbind, St_bind. by intros ->. Qed.
Lemma update_step {S} (f : S → S) s : update f s = (f s, Ok tt).
Proof. done. Qed.
Lemma check_step {S} e (s : S) : check true e s = (s, Ok tt).
Proof. done. Qed.
Lemma run_step {S A} (o : outcome A) (s : S) a : o = Ok a → run o s = (s, Ok a).
Proof. by intros ->. Qed.

Lemma nonempty_len {A} (l : list A) : l ≠ [] → 0 <? len l = true.
Proof. intros H. apply Z.ltb_lt. destruct l; [done|]. rewrite len_cons. pose proof (len_nonneg l). lia. Qed.

Ltac step H := rewrite (St_bind_step _ _ _ _ _ H); cbv beta.
Ltac step_run H := rewrite (St_bind_step _ _ _ _ _ (run_step _ _ _ H)); cbv beta.
Ltac step_check H := rewrite H; rewrite (St_bind_step _ _ _ _ _ (check_step _ _)); cbv beta.
Ltac step_update := rewrite (St_bind_step _ _ _ _ _ (update_step _ _)); cbv beta.

(** ** The size of a hello *)
Section size.
Import protocol handshake cryptoSetup.

Definition entriesSize (kvs : list (Z * list Z)) : Z := foldr (λ kv n, n + (8 + len kv.2)) 0 kvs.

Lemma entriesSize_perm kvs kvs' : kvs ≡ₚ kvs' → entriesSize kvs = entriesSize kvs'.
Proof. unfold entriesSize. induction 1; cbn; lia. Qed.
Lemma tagsSize_entries m : tagsSize m = entriesSize (map_to_list m).
Proof. unfold tagsSize, entriesSize. rewrite map_fold_foldr. induction (map_to_list m) as [|[k v] l IH]; cbn; [done|]. by rewrite IH. Qed.

Lemma entriesSize_len kvs : entriesSize kvs = 8 * len kvs + len (valuesOf kvs).
Proof.
  unfold valuesOf, entriesSize. induction kvs as [|[t v] kvs IH]; [done|]. cbn. rewrite len_app, len_cons. rewrite IH. lia.
Qed.

Lemma image_len h : len (image h) = 8 + tagsSize (Data h).
Proof.
  rewrite tagsSize_entries, <- (entriesSize_perm _ _ (entriesOf_perm h)), entriesSize_len. unfold image. rewrite !len_app.
  unfold len at 1 2 3 4. rewrite !enc_length, indexOf_length. unfold len. lia.
Qed.

Lemma tagsSize_insert t v m : m !! t = None → tagsSize (<[t := v]> m) = tagsSize m + (8 + len v).
Proof. intros H. by rewrite !tagsSize_entries, (entriesSize_perm _ _ (map_to_list_insert _ _ _ H)). Qed.

Lemma padded_size tags : tags !! TagPAD = None → ClientHelloMinimumSize <= tagsSize (addPadding tags).
Proof.
  intros Hp. unfold addPadding. destruct (Z.ltb_spec 0 (ClientHelloMinimumSize - tagsSize tags)) as [Hlt|Hle]; [|lia].
  rewrite tagsSize_insert by done. unfold len. rewrite length_replicate. lia.
Qed.
(** The list of versions of a server hello. *)
Lemma verTags_bytes versions : Forall is_byte (verTags versions) ∧ len (verTags versions) = 4 * len versions.
Proof.
  induction versions as [|v versions [IH1 IH2]]; [done|]. change (verTags (v :: versions)) with (crypto.le32 (VersionNumberToTag v) ++ verTags versions).
  rewrite len_cons, le32_enc, len_app, IH2. split; [|unfold len at 1; rewrite enc_length; lia].
  apply Forall_app. split; [apply enc_bytes|done].
Qed.
End size.

(** ** The list of versions in the server's hello

    The client has not negotiated the version, or it has seen this list and knows all of it. *)
Section versions.
Import protocol binary handshake cryptoSetup.

Definition versions_known (negotiated versions : list Z) : Prop :=
  negotiated = [] ∨ negotiated = versions ∧ Forall (λ v, v ∈ protocol.SupportedVersions) versions.

Lemma supported_range v : v ∈ protocol.SupportedVersions → IsSupportedVersion protocol.SupportedVersions v = true ∧ 0 <= v < 1000.
Proof.
  intros H. split; [by apply IsSupportedVersion_spec|]. assert (Forall (λ v, 0 <= v < 1000) protocol.SupportedVersions) as Hs by (repeat constructor; vm_compute; congruence).
  by apply (proj1 (Forall_forall _ _) Hs).
Qed.

Lemma versionsLoop_same versions : Forall (λ v, v ∈ protocol.SupportedVersions) versions →
  versionsLoop versions (verTags versions) = true.
Proof.
  induction 1 as [|v versions [Hv Hr]%supported_range Hvs IH]; [done|]. change (verTags (v :: versions)) with (crypto.le32 (VersionNumberToTag v) ++ verTags versions).
  cbn [versionsLoop]. rewrite le32_enc, ReadUint32_enc; [|apply u32_range|apply verTags_bytes]. cbv beta iota zeta.
  rewrite (VersionTag_inverse _ Hr), Hv. cbn [negb]. by rewrite Z.eqb_refl.
Qed.
Lemma versions_validated c versions : versions_known (negotiatedVersions c) versions → validateVersionList c (verTags versions) = true.
Proof.
  unfold validateVersionList. intros [->|[-> Hv]]; [done|]. destruct (len versions =? 0); [done|]. rewrite (proj2 (verTags_bytes versions)).
  rewrite Z.mul_comm, Z.mod_mul, Z.div_mul, !Z.eqb_refl by done. cbn [negb orb]. by apply versionsLoop_same.
Qed.
End versions.

(** ** The complete hello of a client *)
Section hello.
Import protocol binary handshake crypto serverConfig connectionParameters cryptoSetup.
Context (P : Primitives) (gcmOverhead : Z) {HP : PrimitivesOk P gcmOverhead} (certs : Certificates).

Definition value_ok (v : list Z) : Prop := len v <= CryptoParameterMaxLength ∧ Forall is_byte v.
Definition values_ok (m : gmap Z (list Z)) : Prop := map_Forall (λ t v, is_u32 t ∧ len v <= CryptoParameterMaxLength ∧ Forall is_byte v) m.

(** A client that has all it needs for a complete hello. *)
Record prepared (c : client) (cfg : serverConfigClient) (leafCert : list Z) : Prop := {
  pr_config : serverConfigOf c = Some cfg;
  pr_leaf : GetLeafCert c = Some leafCert;
  pr_host : value_ok (hostname c) ∧ hostname c ≠ [];
  pr_stk : value_ok (stk c);
  pr_sno : sno c = [];
  pr_ccs : value_ok (getCommonCertificateHashes certs);
  pr_nonce : ∃ t r, nonc c = t ++ cObit cfg ++ r ∧ length t = 4%nat ∧ length (cObit cfg) = 8%nat ∧ length r = 20%nat;
  pr_nonce_bytes : Forall is_byte (nonc c);
  pr_id : length (cID cfg) = 16%nat ∧ Forall is_byte (cID cfg);
  pr_kex : ∃ random, cKex cfg = NewCurve25519KEX P random;
}.

Lemma insertIf_ne b t v m t' : t ≠ t' → insertIf b t v m !! t' = m !! t'.
Proof. intros H. destruct b; [by apply lookup_insert_ne|done]. Qed.
Lemma insertIf_tagOr t v m : m !! t = None → tagOr (insertIf (0 <? len v) t v m) t = v.
Proof.
  intros H. unfold tagOr. destruct v; [change (default [] (m !! t) = []); by rewrite H|]. rewrite (proj2 (Z.ltb_lt _ _)) by (rewrite len_cons; pose proof (len_nonneg v); lia). cbn. by rewrite lookup_insert_eq.
Qed.
Lemma insertIf_values b t v m : (b = true → is_u32 t ∧ value_ok v) → values_ok m → values_ok (insertIf b t v m).
Proof. intros Hv Hm. destruct b; [|done]. destruct (Hv eq_refl) as [? ?]. apply map_Forall_insert_2; [by split|done]. Qed.
Lemma insert_size_le t v (m : gmap Z (list Z)) n : (size m <= n)%nat → (size (<[t := v]> m) <= S n)%nat.
Proof. rewrite map_size_insert. case_match; cbn; lia. Qed.
Lemma insertIf_size b t v m n : (size m <= n)%nat → (size (insertIf b t v m) <= S n)%nat.
Proof. destruct b; [apply insert_size_le|cbn; lia]. Qed.
Lemma insertIf_subseteq b t v m m' : m !! t = None → m ⊆ m' → m ⊆ insertIf b t v m'.
Proof. destruct b; [by apply insert_subseteq_r|done]. Qed.

(** Looks a tag up in a map that is built by inserting other tags. *)
Ltac other_tags := repeat first [rewrite lookup_insert_ne by (by vm_compute)|rewrite insertIf_ne by (by vm_compute)].

Lemma addPadding_values tags : values_ok tags → values_ok (addPadding tags).
Proof.
  intros H. unfold addPadding. case_bool; [|done]. apply map_Forall_insert_2; [|done]. split; [by apply Z_u32|]. unfold len. rewrite length_replicate.
  assert (0 <= tagsSize tags) by (rewrite tagsSize_entries, entriesSize_len; pose proof (len_nonneg (map_to_list tags)); pose proof (len_nonneg (valuesOf (map_to_list tags))); lia).
  unfold ClientHelloMinimumSize, CryptoParameterMaxLength in *. split; [lia|]. apply Forall_replicate. by split.
Qed.
Lemma addPadding_ne tags t : t ≠ TagPAD → addPadding tags !! t = tags !! t.
Proof. intros H. unfold addPadding. case_bool; [|done]. by rewrite lookup_insert_ne. Qed.
Lemma addPadding_size tags n : (size tags <= n)%nat → (size (addPadding tags) <= S n)%nat.
Proof. intros H. unfold addPadding. case_bool; [by apply insert_size_le|lia]. Qed.

Lemma le32_value v : value_ok (crypto.le32 v).
Proof. rewrite le32_enc. split; [unfold len; rewrite enc_length; by vm_compute|apply enc_bytes]. Qed.
Lemma GetHelloMap_values h : values_ok (GetHelloMap h).
Proof.
  unfold GetHelloMap. repeat (apply map_Forall_insert_2; [split; [by apply Z_u32|apply le32_value]|]). apply map_Forall_empty.
Qed.
Lemma GetHelloMap_size h : size (GetHelloMap h) = 5%nat.
Proof. unfold GetHelloMap. rewrite !map_size_insert. vm_compute. done. Qed.

Section client.
Context (c : client) (cfg : serverConfigClient) (leafCert : list Z) (Hc : prepared c cfg leafCert).

(** What the hello is made of. *)
Definition baseTags : gmap Z (list Z) := insertIf (0 <? len (getCommonCertificateHashes certs)) TagCCS (getCommonCertificateHashes certs)
  (<[TagPDMD := bytesOf "X509"]> (<[TagSNI := hostname c]> (GetHelloMap (cParameters c)))).
Definition tokenTags : gmap Z (list Z) := insertIf (0 <? len (stk c)) TagSTK (stk c)
  (insertIf (requestTruncation c) TagTCID [0; 0; 0; 0] (<[TagVER := crypto.le32 (VersionNumberToTag (cVersion c))]> baseTags)).
Lemma getTags_prepared : getTags certs c =
  <[TagPUBS := PublicKey (cKex cfg)]> (<[TagAEAD := AESG]> (<[TagKEXS := C255]> (<[TagXLCT := le64 (HashCert leafCert)]> (<[TagNONC := nonc c]> (<[TagSCID := cID cfg]> tokenTags))))).
Proof. destruct Hc. unfold getTags. rewrite pr_config0, pr_leaf0, pr_sno0. reflexivity. Qed.

Definition chloTags : gmap Z (list Z) := addPadding (getTags certs c).

Ltac entries := unfold values_ok in *; lazymatch goal with
  | |- map_Forall _ (<[_ := _]> _) => apply map_Forall_insert_2; [split; [by apply Z_u32|]|entries]
  | |- map_Forall _ (insertIf _ _ _ _) => apply insertIf_values; [intros _; split; [by apply Z_u32|]|entries]
  | |- map_Forall _ (GetHelloMap _) => apply GetHelloMap_values
  | |- map_Forall _ tokenTags => unfold tokenTags, baseTags; entries
  end.

Lemma chlo_message_ok : message_ok (MkHandshakeMessage TagCHLO chloTags).
Proof.
  destruct Hc. split; [by apply Z_u32|]. cbn [Data]. unfold chloTags. rewrite getTags_prepared. split.
  - assert (size (addPadding (<[TagPUBS := PublicKey (cKex cfg)]> (<[TagAEAD := AESG]> (<[TagKEXS := C255]> (<[TagXLCT := le64 (HashCert leafCert)]> (<[TagNONC := nonc c]> (<[TagSCID := cID cfg]> tokenTags))))))) <= 18)%nat.
    { apply addPadding_size. do 6 apply insert_size_le. do 2 apply insertIf_size. apply insert_size_le, insertIf_size. do 2 apply insert_size_le. by rewrite GetHelloMap_size. }
    unfold CryptoMaxParams. lia.
  - apply addPadding_values.
    assert (∀ v, Forall is_byte v → (length v <= 100)%nat → value_ok v) as Hv by (intros v Hb Hl; unfold value_ok, CryptoParameterMaxLength, len; split; [lia|done]).
    destruct pr_nonce0 as (t & r & En & Ht & Ho & Hr). destruct pr_id0 as [Hi1 Hi2]. destruct pr_kex0 as [random Hk].
    entries.
    all: try (by apply Hv; [by apply are_bytes|cbn; lia]); try done.
    + apply Hv; rewrite Hk; cbn; [apply scalarBaseMult_bytes|rewrite scalarBaseMult_length; lia].
    + apply Hv; rewrite le64_enc; [apply enc_bytes|rewrite enc_length; lia].
    + apply Hv; [done|]. rewrite En, !length_app. lia.
    + apply Hv; [done|lia].
    + apply le32_value.
    + apply pr_host0.
Qed.

Lemma chlo_lookup t : t ≠ TagPAD → chloTags !! t = getTags certs c !! t.
Proof. apply addPadding_ne. Qed.

(** What the server reads from the hello. *)
Record complete (m : gmap Z (list Z)) : Prop := {
  co_fhl2 : m !! TagFHL2 = None;
  co_nstp : m !! TagNSTP = None;
  co_sni : tagOr m TagSNI = hostname c;
  co_ver : m !! TagVER = Some (crypto.le32 (VersionNumberToTag (cVersion c)));
  co_pubs : m !! TagPUBS = Some (PublicKey (cKex cfg));
  co_scid : m !! TagSCID = Some (cID cfg);
  co_xlct : m !! TagXLCT = Some (le64 (HashCert leafCert));
  co_stk : tagOr m TagSTK = stk c;
  co_nonc : tagOr m TagNONC = nonc c;
  co_aead : tagOr m TagAEAD = AESG;
  co_kexs : tagOr m TagKEXS = C255;
  co_hello : hello_of (cParameters c) m;
}.

Ltac included := lazymatch goal with
  | |- _ ⊆ <[_ := _]> _ => apply insert_subseteq_r; [by vm_compute|included]
  | |- _ ⊆ insertIf _ _ _ _ => apply insertIf_subseteq; [by vm_compute|included]
  | |- _ => reflexivity
  end.

Lemma chlo_complete : complete chloTags.
Proof.
  split; unfold tagOr; try (rewrite chlo_lookup by (by vm_compute); rewrite getTags_prepared; unfold tokenTags, baseTags; other_tags; first [by rewrite lookup_insert_eq|idtac]).
  - vm_compute. done.
  - vm_compute. done.
  - apply insertIf_tagOr. other_tags. vm_compute. done.
  - split.
    + unfold chloTags, addPadding. rewrite getTags_prepared. unfold tokenTags, baseTags.
      case_bool; included.
    + intros v. rewrite chlo_lookup by (by vm_compute). rewrite getTags_prepared. unfold tokenTags. other_tags.
      assert (<[TagVER := crypto.le32 (VersionNumberToTag (cVersion c))]> baseTags !! TagTCID = None) as Hn by (unfold baseTags; other_tags; by vm_compute).
      destruct (requestTruncation c); cbn [insertIf]; [rewrite lookup_insert_eq|rewrite Hn; discriminate].
      intros [= <-]. exists 0, []. split_and!; [by vm_compute|by vm_compute|constructor].
Qed.

Definition chlo : list Z := image (MkHandshakeMessage TagCHLO chloTags).
Lemma padded_hello : getTags certs c !! TagPAD = None → ClientHelloMinimumSize < len chlo.
Proof. intros Hp. unfold chlo. rewrite image_len. cbn [Data]. pose proof (padded_size (getTags certs c) Hp) as H. unfold chloTags. lia. Qed.
Lemma chlo_size : ClientHelloMinimumSize < len chlo.
Proof. apply padded_hello. rewrite getTags_prepared. unfold tokenTags, baseTags. other_tags. by vm_compute. Qed.

(** *** The server accepts it *)
Context (Marshal : list Z * Z → list Z) (Unmarshal : list Z → option (list Z * Z * list Z)) (ipString : list Z → string).

(** A server for which the client is prepared; [d] is drawn for its answer. The client has
    either not negotiated the version, or has seen the list that the server sends now. *)
Record serving (s : server) (d : draws) : Prop := {
  sv_config : config_ok P (scfg s);
  sv_parsed : ∃ random raw, Get (scfg s) = Ok raw ∧ parseServerConfig P random raw = Ok cfg;
  sv_leaf : GetLeafCertFor certs (hostname c) = Ok leafCert;
  sv_token : acceptSTK P Unmarshal ipString (stk c) s = Ok true;
  sv_version : sVersion s = cVersion c ∧ 0 <= cVersion c < 1000;
  sv_connID : sConnID s = cConnID c;
  sv_open : sClosed s = false;
  sv_versions : len (supportedVersions s) <= 1000;
  sv_negotiated : versions_known (negotiatedVersions c) (supportedVersions s);
  sv_parameters : manager_ok (sParameters s) ∧ flowControlNegotiated (sParameters s) = false;
  sv_peer : manager_ok (cParameters c);
  sv_ephermal : ∃ r, ephermal d = NewCurve25519KEX P r;
  sv_nonce : length (newServerNonce d) = 32%nat ∧ Forall is_byte (newServerNonce d);
}.

Definition shloTags (d : draws) (versions : list Z) (params : connectionParametersManager) : gmap Z (list Z) :=
  <[TagVER := verTags versions]> (<[TagSNO := newServerNonce d]> (<[TagPUBS := PublicKey (ephermal d)]> (GetHelloMap params))).

Lemma shlo_message_ok s d params : serving s d → message_ok (MkHandshakeMessage TagSHLO (shloTags d (supportedVersions s) params)).
Proof.
  intros []. split; [by apply Z_u32|]. cbn [Data]. unfold shloTags. destruct sv_ephermal0 as [r Hr], sv_nonce0 as [Hn1 Hn2]. split.
  - assert (size (<[TagVER := verTags (supportedVersions s)]> (<[TagSNO := newServerNonce d]> (<[TagPUBS := PublicKey (ephermal d)]> (GetHelloMap params)))) <= 8)%nat; [|unfold CryptoMaxParams; lia].
    do 3 apply insert_size_le. by rewrite GetHelloMap_size.
  - destruct (verTags_bytes (supportedVersions s)) as [Hv1 Hv2]. entries; unfold CryptoParameterMaxLength.
    + split; [lia|done].
    + unfold len. split; [lia|done].
    + rewrite Hr. cbn. unfold len. rewrite scalarBaseMult_length. split; [lia|apply scalarBaseMult_bytes].
Qed.

(** What the client needs to know about the configuration. *)
Lemma serving_config s d : serving s d → Get (scfg s) = Ok (cRaw cfg) ∧ cID cfg = ID (scfg s) ∧ cObit cfg = obit (scfg s) ∧
  CalculateSharedKey P (kex (scfg s)) (PublicKey (cKex cfg)) = Ok (sharedSecret cfg).
Proof.
  intros []. destruct sv_parsed0 as (random & raw & E1 & E2).
  destruct (config_parsed P gcmOverhead (scfg s) random 0 sv_config0 ltac:(by vm_compute)) as (raw' & cfg' & E3 & E4 & H1 & H2 & H3 & _ & _ & H4).
  rewrite E1 in E3. injection E3 as <-. rewrite E2 in E4. injection E4 as <-. rewrite H1. exact (conj E1 (conj H2 (conj H3 H4))).
Qed.

Lemma not_inchoate s d : serving s d → isInchoateCHLO P Unmarshal ipString chloTags leafCert s = Ok false.
Proof.
  intros Hs. destruct (serving_config s d Hs) as (_ & Hid & _). destruct Hs, chlo_complete. unfold isInchoateCHLO.
  rewrite bool_decide_eq_false_2 by congruence. rewrite bool_decide_eq_true_2 by congruence. cbn [negb]. rewrite co_xlct0.
  assert (len (le64 (HashCert leafCert)) =? 8 = true) as -> by (rewrite le64_enc; unfold len; by rewrite enc_length). cbn [negb].
  rewrite le64_enc, Uint64_enc by apply fnv64a_range. cbn [mbind outcome_bind]. rewrite Z.eqb_refl. cbn [negb]. rewrite co_stk0, sv_token0. done.
Qed.

Lemma client_nonce_valid s d : serving s d → validateClientNonce (nonc c) s = Ok tt.
Proof.
  intros Hs. destruct (serving_config s d Hs) as (_ & _ & Hob & _). destruct Hc. destruct pr_nonce0 as (t & r & En & Ht & Ho & Hr). unfold validateClientNonce.
  rewrite En. assert (len (t ++ cObit cfg ++ r) =? 32 = true) as -> by (unfold len; rewrite !length_app, Ht, Ho, Hr; done). cbn [negb].
  assert (slice 4 12 (t ++ cObit cfg ++ r) = Ok (cObit cfg)) as ->.
  { unfold slice. rewrite decide_True by (rewrite !length_app; lia). rewrite drop_app_length' by done. by rewrite take_app_length' by done. }
  cbn [mbind outcome_bind]. by rewrite bool_decide_eq_true_2.
Qed.

Notation derive := (DeriveQuicCryptoAESKeys P gcmOverhead).

(** The server after its answer. *)
Definition answered (s : server) (d : draws) (sa sf : AEAD) (params : connectionParametersManager) : server :=
  set_sentSHLO true (set_sSignals (sSignals s ++ [EncryptionSecure; EncryptionForwardSecure])
    (set_sWritten (sWritten s ++ [image (MkHandshakeMessage TagSHLO (shloTags d (supportedVersions s) params))])
      (set_sParameters params (set_sForwardSecureAEAD (Some sf) (set_sSecureAEAD (Some sa) (set_sDiversificationNonce (newDiversificationNonce d) s)))))).

Definition server_keys (d : draws) (sa sf : AEAD) : Prop :=
  derive false (sharedSecret cfg) (nonc c) (cConnID c) chlo (cRaw cfg) leafCert (newDiversificationNonce d) PerspectiveServer = Ok sa ∧
  ∃ es, CalculateSharedKey P (ephermal d) (PublicKey (cKex cfg)) = Ok es ∧
    derive true es (nonc c ++ newServerNonce d) (cConnID c) chlo (cRaw cfg) leafCert [] PerspectiveServer = Ok sf.

Lemma server_keys_exist s d : serving s d → ∃ sa sf, server_keys d sa sf.
Proof.
  intros []. destruct Hc. destruct pr_kex0 as [rc Ec], sv_ephermal0 as [r Er]. unfold server_keys. rewrite Ec, Er.
  destruct (shared_keys_agree P gcmOverhead r rc) as [_ Hok]. cbv zeta in Hok. destruct (CalculateSharedKey P (NewCurve25519KEX P r) (PublicKey (NewCurve25519KEX P rc))) as [es| |]; try discriminate Hok.
  destruct (keys_match P gcmOverhead false (sharedSecret cfg) (nonc c) (cConnID c) chlo (cRaw cfg) leafCert (newDiversificationNonce d)) as (_ & sa & _ & Ea & _).
  destruct (keys_match P gcmOverhead true es (nonc c ++ newServerNonce d) (cConnID c) chlo (cRaw cfg) leafCert []) as (_ & sf & _ & Ef & _).
  exists sa, sf. split; [exact Ea|]. exists es. split; [reflexivity|exact Ef].
Qed.

Lemma signal_step l (s : server) : sClosed s = false → signal l s = (set_sSignals (sSignals s ++ [l]) s, Ok tt).
Proof. intros H. unfold signal, mbind, St_bind, gets. by rewrite H. Qed.

Lemma handleCHLO_prepared s d sa sf : serving s d → server_keys d sa sf → ∃ trunc, let params := received (cParameters c) trunc (sParameters s) in
  handleCHLO P gcmOverhead certs d (hostname c) chlo chloTags s =
    (set_sParameters params (set_sForwardSecureAEAD (Some sf) (set_sSignals (sSignals s ++ [EncryptionSecure]) (set_sSecureAEAD (Some sa) (set_sDiversificationNonce (newDiversificationNonce d) s)))),
     Ok (image (MkHandshakeMessage TagSHLO (shloTags d (supportedVersions s) params)))).
Proof.
  intros Hs (Ka & es & Ke & Kf). destruct (serving_config s d Hs) as (Hraw & _ & _ & Hsec). pose proof (client_nonce_valid s d Hs) as Hn.
  pose proof (λ p, shlo_message_ok s d p Hs) as Hm. destruct Hs, chlo_complete. destruct sv_parameters0 as [Hp1 Hp2].
  destruct (SetFromMap_hello (cParameters c) chloTags (sParameters s) sv_peer0 co_hello0 Hp2) as [trunc Et]. exists trunc. intros params.
  unfold handleCHLO. rewrite (St_bind_step _ _ _ _ _ (eq_refl : gets s = (s, Ok s))). cbv beta.
  assert (tagOr chloTags TagPUBS = PublicKey (cKex cfg)) as Epubs by (unfold tagOr; by rewrite co_pubs0). rewrite Epubs, co_nonc0, co_aead0, co_kexs0.
  step_run Hsec. step_run sv_leaf0. step_update. step_run Hn.
  step_check (bool_decide_eq_true_2 (AESG = AESG) eq_refl). step_check (bool_decide_eq_true_2 (C255 = C255) eq_refl).
  step_run Hraw. rewrite sv_connID0. step_run Ka. step_update. 
  step (signal_step EncryptionSecure (set_sSecureAEAD (Some sa) (set_sDiversificationNonce (newDiversificationNonce d) s)) sv_open0).
  step_run Ke. step_run Kf. step_update. rewrite Et. step_update.
  unfold writeMessage. unfold run. f_equal. exact (Write_format _ [] (Hm params)).
Qed.

Lemma server_answers s d sa sf : serving s d → server_keys d sa sf → ∃ trunc,
  serverIteration P gcmOverhead certs Marshal Unmarshal ipString d chlo s = (answered s d sa sf (received (cParameters c) trunc (sParameters s)), Ok (true, [])).
Proof.
  intros Hs Hk. destruct (handleCHLO_prepared s d sa sf Hs Hk) as [trunc Eh]. cbv zeta in Eh. exists trunc.
  pose proof (not_inchoate s d Hs) as Hi. destruct Hs, chlo_complete. unfold serverIteration.
  pose proof (ParseHandshakeMessage_image _ [] chlo_message_ok (Forall_nil_2 _)) as Ep. rewrite app_nil_r in Ep. fold chlo in Ep. rewrite Ep.
  step_check (Z.eqb_refl TagCHLO : (Tag (MkHandshakeMessage TagCHLO chloTags) =? TagCHLO) = true).
  rewrite Nat.sub_0_r, firstn_all. cbn [Data].
  assert (handleMessage P gcmOverhead certs Marshal Unmarshal ipString d chlo chloTags s = (answered s d sa sf (received (cParameters c) trunc (sParameters s)), Ok true)) as E; [|rewrite (St_bind_step _ _ _ _ _ E); reflexivity].
  unfold handleMessage. rewrite (bool_decide_eq_true_2 (chloTags !! TagFHL2 = None)), (bool_decide_eq_true_2 (chloTags !! TagNSTP = None)) by done.
  rewrite !(St_bind_step _ _ _ _ _ (check_step _ _)), co_sni0. destruct Hc as [_ _ [_ Hhost] _ _ _ _ _ _ _].
  step_check (f_equal negb (bool_decide_eq_false_2 (hostname c = []) Hhost) : negb (bool_decide (hostname c = [])) = true). rewrite co_ver0.
  assert (len (crypto.le32 (VersionNumberToTag (cVersion c))) =? 4 = true) as E4 by (rewrite le32_enc; unfold len; by rewrite enc_length). step_check E4.
  assert (Uint32 (crypto.le32 (VersionNumberToTag (cVersion c))) = Ok (VersionNumberToTag (cVersion c))) as Ev by (rewrite le32_enc; apply Uint32_enc4, u32_range).
  step_run Ev. rewrite (St_bind_step _ _ _ _ _ (eq_refl : gets s = (s, Ok s))). cbv beta. destruct sv_version0 as [Hv1 Hv2].
  rewrite (VersionTag_inverse _ Hv2), Hv1, Z.eqb_refl. cbn [negb andb]. rewrite (St_bind_step _ _ _ _ _ (check_step _ _)). cbv beta.
  step_run sv_leaf0. step_run Hi. cbn [negb]. step Eh. unfold writeReply. step_update.
  match goal with |- (_ ≫= _) ?s1 = _ => step (signal_step EncryptionForwardSecure s1 sv_open0) end. step_update.
  unfold answered. change [EncryptionSecure; EncryptionForwardSecure] with ([EncryptionSecure] ++ [EncryptionForwardSecure]). rewrite (assoc_L (++)). reflexivity.
Qed.

(** *** The client after it *)

Definition asked : client := set_lastSentCHLO chlo (set_cWritten (cWritten c ++ [chlo]) (set_clientHelloCounter (clientHelloCounter c + 1) c)).

Lemma hello_sent : message_ok (MkHandshakeMessage TagCHLO chloTags) → clientHelloCounter c < MaxClientHellos → sendCHLO certs c = (asked, Ok tt).
Proof.
  intros Hm Hn. unfold sendCHLO. step_update. rewrite (St_bind_step _ _ _ _ _ (eq_refl : gets (set_clientHelloCounter (clientHelloCounter c + 1) c) = (_, Ok _))). cbv beta.
  assert (MaxClientHellos <? clientHelloCounter (set_clientHelloCounter (clientHelloCounter c + 1) c) = false) as -> by (clear -Hn; apply Z.ltb_ge; cbn; lia).
  cbn [negb]. rewrite (St_bind_step _ _ _ _ _ (check_step _ _)). cbv beta.
  step_run (Write_format _ [] Hm : writeMessage TagCHLO (addPadding (getTags certs (set_clientHelloCounter (clientHelloCounter c + 1) c))) = Ok chlo).
  step_update. reflexivity.
Qed.

(** The client before its complete hello. *)
Record waiting : Prop := {
  wa_hellos : clientHelloCounter c < MaxClientHellos;
  wa_verified : serverVerified c = true;
  wa_secure : cSecureAEAD c = None;
  wa_forward : cForwardSecureAEAD c = None;
  wa_nonce : diversificationNonce c = [];
  wa_secret : sharedSecret cfg ≠ [];
  wa_leaf : leafCert ≠ [];
  wa_open : cClosed c = false;
  wa_parameters : flowControlNegotiated (cParameters c) = false;
}.

Lemma client_asks : waiting → sendCHLO certs c = (asked, Ok tt).
Proof. intros []. by apply hello_sent; [apply chlo_message_ok|]. Qed.

Definition upgraded (div : list Z) (ca : AEAD) : client :=
  set_cSignals (cSignals c ++ [EncryptionSecure]) (set_cSecureAEAD (Some ca) (set_diversificationNonce div asked)).

Lemma clientSignal_step l (h : client) : cClosed h = false → clientSignal l h = (set_cSignals (cSignals h ++ [l]) h, Ok tt).
Proof. intros H. unfold clientSignal, mbind, St_bind, gets. by rewrite H. Qed.

Lemma client_upgrades d div ca : waiting → div ≠ [] →
  derive false (sharedSecret cfg) (nonc c) (cConnID c) chlo (cRaw cfg) leafCert div PerspectiveClient = Ok ca →
  clientIteration P gcmOverhead certs d (DivNonce div) asked = (upgraded div ca, Ok tt).
Proof.
  intros [] Hdiv Hd. destruct Hc. unfold clientIteration.
  assert (handleEvent P gcmOverhead certs d (DivNonce div) asked = (set_diversificationNonce div asked, Ok tt)) as E.
  { unfold handleEvent. rewrite (St_bind_step _ _ _ _ _ (eq_refl : gets asked = (_, Ok _))). cbv beta.
    change (diversificationNonce asked) with (diversificationNonce c). rewrite wa_nonce0. rewrite (St_bind_step _ _ _ _ _ (check_step _ _)). reflexivity. }
  step E. unfold loopHead.
  assert (maybeUpgradeCrypto P gcmOverhead (set_diversificationNonce div asked) = (upgraded div ca, Ok tt)) as E'; [|step E'; reflexivity].
  unfold maybeUpgradeCrypto. rewrite (St_bind_step _ _ _ _ _ (eq_refl : gets _ = (_, Ok _))). cbv beta zeta.
  change (serverVerified (set_diversificationNonce div asked)) with (serverVerified c). rewrite wa_verified0. cbn [negb].
  change (cSecureAEAD (set_diversificationNonce div asked)) with (cSecureAEAD c). change (serverConfigOf (set_diversificationNonce div asked)) with (serverConfigOf c).
  change (GetLeafCert (set_diversificationNonce div asked)) with (GetLeafCert c). change (nonc (set_diversificationNonce div asked)) with (nonc c).
  change (sno (set_diversificationNonce div asked)) with (sno c). change (diversificationNonce (set_diversificationNonce div asked)) with div.
  change (lastSentCHLO (set_diversificationNonce div asked)) with chlo. change (cConnID (set_diversificationNonce div asked)) with (cConnID c).
  rewrite wa_secure0, pr_config0, pr_leaf0, pr_sno0, app_nil_r. cbn [from_option id].
  assert (nonc c ≠ []) as Hnn by (destruct pr_nonce0 as (t & r & -> & Ht & _); destruct t; discriminate).
  assert (chlo ≠ []) as Hch by (intros E0; pose proof chlo_size as Hz; rewrite E0 in Hz; vm_compute in Hz; discriminate).
  rewrite !nonempty_len by done. cbn [andb]. step_run Hd. step_update. by rewrite clientSignal_step.
Qed.

Definition secured (div : list Z) (ca : AEAD) : client := set_cReceivedSecurePacket true (upgraded div ca).
Definition completed (d : draws) (ca cf : AEAD) (params : connectionParametersManager) : client :=
  set_cClosed true (set_cSignals (cSignals c ++ [EncryptionSecure; EncryptionForwardSecure]) (set_cParameters params
    (set_cForwardSecureAEAD (Some cf) (set_sno (newServerNonce d) (secured (newDiversificationNonce d) ca))))).

Lemma shlo_carries d versions params : hello_of params (shloTags d versions params).
Proof.
  unfold shloTags. split; [included|]. intros v. other_tags. assert (GetHelloMap params !! TagTCID = None) as -> by (by vm_compute). discriminate.
Qed.

Lemma client_completes d d' versions params es ca cf : waiting → versions_known (negotiatedVersions c) versions → manager_ok params → (∃ r, ephermal d = NewCurve25519KEX P r) →
  CalculateSharedKey P (ephermal d) (PublicKey (cKex cfg)) = Ok es →
  derive true es (nonc c ++ newServerNonce d) (cConnID c) chlo (cRaw cfg) leafCert [] PerspectiveClient = Ok cf →
  ∃ trunc, clientIteration P gcmOverhead certs d' (Message (MkHandshakeMessage TagSHLO (shloTags d versions params))) (secured (newDiversificationNonce d) ca) =
    (completed d ca cf (received params trunc (cParameters c)), Ok tt).
Proof.
  intros [] Hvs Hp [r Hr] Hes Hd. destruct Hc. destruct pr_kex0 as [rc Ek].
  destruct (SetFromMap_hello params (shloTags d versions params) (cParameters c) Hp (shlo_carries d versions params) wa_parameters0) as [trunc Et]. exists trunc.
  unfold clientIteration. set (h := secured (newDiversificationNonce d) ca).
  assert (handleSHLOMessage P gcmOverhead (shloTags d versions params) h = (completed d ca cf (received params trunc (cParameters c)), Ok tt)) as E.
  - unfold handleSHLOMessage. rewrite (St_bind_step _ _ _ _ _ (eq_refl : gets h = (_, Ok _))). cbv beta.
    change (cReceivedSecurePacket h) with true. rewrite (St_bind_step _ _ _ _ _ (check_step _ _)). cbv beta.
    assert (maybeSet (shloTags d versions params) TagSNO set_sno h = (set_sno (newServerNonce d) h, Ok tt)) as Es.
    { unfold maybeSet. assert (shloTags d versions params !! TagSNO = Some (newServerNonce d)) as ->; [|done]. unfold shloTags. other_tags. apply lookup_insert_eq. }
    step Es. assert (shloTags d versions params !! TagPUBS = Some (PublicKey (ephermal d))) as -> by (unfold shloTags; other_tags; apply lookup_insert_eq).
    assert (shloTags d versions params !! TagVER = Some (verTags versions)) as -> by (unfold shloTags; apply lookup_insert_eq).
    assert (validateVersionList h (verTags versions) = true) as Hv by (by apply versions_validated).
    step_check Hv. rewrite (St_bind_step _ _ _ _ _ (eq_refl : gets _ = (_, Ok _))). cbv beta zeta.
    change (serverConfigOf (set_sno (newServerNonce d) h)) with (serverConfigOf c). rewrite pr_config0.
    assert (CalculateSharedKey P (cKex cfg) (PublicKey (ephermal d)) = Ok es) as Hes' by (rewrite Ek, Hr in *; rewrite <- Hes; apply (shared_keys_agree P gcmOverhead)).
    step_run Hes'. change (GetLeafCert (set_sno (newServerNonce d) h)) with (GetLeafCert c). rewrite pr_leaf0. cbn [from_option id].
    step_run Hd. step_update. change (cParameters (set_sno (newServerNonce d) h)) with (cParameters c). rewrite Et. step_update.
    rewrite (bool_decide_eq_true_2 (@None error = None) eq_refl), (St_bind_step _ _ _ _ _ (check_step _ _)). cbv beta.
    match goal with |- (_ ≫= _) ?s1 = _ => step (clientSignal_step EncryptionForwardSecure s1 wa_open0) end.
    unfold completed, update. change [EncryptionSecure; EncryptionForwardSecure] with ([EncryptionSecure] ++ [EncryptionForwardSecure]). rewrite (assoc_L (++)). reflexivity.
  - change (handleEvent P gcmOverhead certs d' (Message (MkHandshakeMessage TagSHLO (shloTags d versions params)))) with (handleSHLOMessage P gcmOverhead (shloTags d versions params)).
    step E. set (h' := completed d ca cf (received params trunc (cParameters c))).
    assert (maybeUpgradeCrypto P gcmOverhead h' = (h', Ok tt)) as E'; [|unfold loopHead; step E'; reflexivity].
    unfold maybeUpgradeCrypto. rewrite (St_bind_step _ _ _ _ _ (eq_refl : gets _ = (_, Ok _))). cbv beta zeta.
    change (serverVerified h') with (serverVerified c). rewrite wa_verified0. reflexivity.
Qed.
End client.

(** ** The hello of a client without a certificate *)

Record inchoate (c : client) : Prop := {
  in_host : value_ok (hostname c) ∧ hostname c ≠ [];
  in_leaf : GetLeafCert c = None;
  in_stk : value_ok (stk c);
  in_sno : sno c = [];
  in_ccs : value_ok (getCommonCertificateHashes certs);
  in_id : ∀ cfg, serverConfigOf c = Some cfg → value_ok (cID cfg);
}.

Definition configTags (c : client) (m : gmap Z (list Z)) : gmap Z (list Z) :=
  match serverConfigOf c with Some cfg => <[TagSCID := cID cfg]> m | None => m end.
Lemma getTags_inchoate c : inchoate c → getTags certs c = configTags c (tokenTags c).
Proof. intros []. unfold getTags, configTags. rewrite in_leaf0, in_sno0. by destruct (serverConfigOf c). Qed.
Lemma configTags_ne c m t : t ≠ TagSCID → configTags c m !! t = m !! t.
Proof. intros H. unfold configTags. destruct (serverConfigOf c); [by apply lookup_insert_ne|done]. Qed.

Lemma inchoate_message_ok c : inchoate c → message_ok (MkHandshakeMessage TagCHLO (chloTags c)).
Proof.
  intros Hi. split; [by apply Z_u32|]. cbn [Data]. unfold chloTags. rewrite (getTags_inchoate c Hi). destruct Hi. split.
  - assert (size (addPadding (configTags c (tokenTags c))) <= 13)%nat; [|unfold CryptoMaxParams; lia]. apply addPadding_size.
    assert (size (tokenTags c) <= 11)%nat as Ht; [|unfold configTags; destruct (serverConfigOf c); [by apply insert_size_le|lia]].
    do 2 apply insertIf_size. apply insert_size_le, insertIf_size. do 2 apply insert_size_le. by rewrite GetHelloMap_size.
  - apply addPadding_values. assert (values_ok (tokenTags c)) as Ht.
    { apply insertIf_values; [intros _; split; [by apply Z_u32|exact in_stk0]|]. apply insertIf_values; [intros _; split; [by apply Z_u32|split; [by vm_compute|by apply are_bytes]]|].
      apply map_Forall_insert_2; [split; [by apply Z_u32|apply le32_value]|]. apply insertIf_values; [intros _; split; [by apply Z_u32|exact in_ccs0]|].
      apply map_Forall_insert_2; [split; [by apply Z_u32|split; [by vm_compute|by apply are_bytes]]|].
      apply map_Forall_insert_2; [split; [by apply Z_u32|apply in_host0]|]. apply GetHelloMap_values. }
    unfold configTags. destruct (serverConfigOf c) as [cfg|]; [|exact Ht]. apply map_Forall_insert_2; [split; [by apply Z_u32|by apply in_id0]|exact Ht].
Qed.

(** What the server reads from it. *)
Record incomplete (c : client) (m : gmap Z (list Z)) : Prop := {
  ic_fhl2 : m !! TagFHL2 = None;
  ic_nstp : m !! TagNSTP = None;
  ic_sni : tagOr m TagSNI = hostname c;
  ic_ver : m !! TagVER = Some (crypto.le32 (VersionNumberToTag (cVersion c)));
  ic_pubs : m !! TagPUBS = None;
  ic_stk : tagOr m TagSTK = stk c;
  ic_ccs : tagOr m TagCCS = getCommonCertificateHashes certs;
  ic_ccrt : tagOr m TagCCRT = [];
}.

Lemma inchoate_incomplete c : inchoate c → incomplete c (chloTags c).
Proof.
  intros Hi. split; unfold tagOr; rewrite (chlo_lookup c) by (by vm_compute); rewrite (getTags_inchoate c Hi), configTags_ne by (by vm_compute);
    unfold tokenTags, baseTags; other_tags; first [by rewrite lookup_insert_eq|idtac].
  - vm_compute. done.
  - vm_compute. done.
  - vm_compute. done.
  - apply insertIf_tagOr. other_tags. vm_compute. done.
  - apply insertIf_tagOr. other_tags. vm_compute. done.
  - vm_compute. done.
Qed.

Lemma inchoate_padded c : inchoate c → ClientHelloMinimumSize < len (chlo c).
Proof.
  intros Hi. apply padded_hello. rewrite (getTags_inchoate c Hi), configTags_ne by (by vm_compute). unfold tokenTags, baseTags. other_tags. by vm_compute.
Qed.

(** ** Both ends *)
#[local] Opaque image chlo chloTags shloTags received nullAEADFNV64a nullAEADFNV128a NewNullAEAD.

(** Each end opens what the other one seals, with forward-secure keys. *)
Definition agree (c : client) (s : server) : Prop :=
  (GetSealer (clientSetup P c)).1 = EncryptionForwardSecure ∧ (GetSealer (serverSetup P s)).1 = EncryptionForwardSecure ∧
  ∀ data n ad, Forall is_byte data →
    (serverOpen P (Seal (GetSealer (clientSetup P c)).2 data n ad) n ad s).2 = Opened data EncryptionForwardSecure ∧
    (clientOpen P (Seal (GetSealer (serverSetup P s)).2 data n ad) n ad c).2 = Opened data EncryptionForwardSecure.

Lemma asked_last c : lastSentCHLO (asked c) = chlo c.
Proof. reflexivity. Qed.
Lemma answered_written s d sa sf params : sWritten (answered s d sa sf params) = sWritten s ++ [image (MkHandshakeMessage TagSHLO (shloTags d (supportedVersions s) params))].
Proof. reflexivity. Qed.
Lemma answered_nonce s d sa sf params : sDiversificationNonce (answered s d sa sf params) = newDiversificationNonce d.
Proof. reflexivity. Qed.
Lemma answered_sealer s d sa sf params : GetSealer (serverSetup P (answered s d sa sf params)) = (EncryptionForwardSecure, sealer sf).
Proof. reflexivity. Qed.
Lemma answered_crypto_sealer s d sa sf params : GetSealerForCryptoStream (serverSetup P (answered s d sa sf params)) = (EncryptionSecure, sealer sa).
Proof. reflexivity. Qed.
Lemma completed_sealer c d ca cf params : GetSealer (clientSetup P (completed c d ca cf params)) = (EncryptionForwardSecure, sealer cf).
Proof. reflexivity. Qed.
Lemma completed_written c d ca cf params : cWritten (completed c d ca cf params) = cWritten c ++ [chlo c].
Proof. reflexivity. Qed.

Lemma answered_parameters s d sa sf params : sParameters (answered s d sa sf params) = params.
Proof. reflexivity. Qed.
Lemma completed_parameters c d ca cf params : cParameters (completed c d ca cf params) = params.
Proof. reflexivity. Qed.

Lemma clientOpen_forward (h : client) a src n ad data : cForwardSecureAEAD h = Some a → Open a src n ad = Some data →
  (clientOpen P src n ad h).2 = Opened data EncryptionForwardSecure.
Proof. intros E1 E2. unfold clientOpen. by rewrite E1, E2. Qed.
Lemma serverOpen_forward (h : server) a src n ad data : sForwardSecureAEAD h = Some a → sentSHLO h = true → Open a src n ad = Some data →
  (serverOpen P src n ad h).2 = Opened data EncryptionForwardSecure.
Proof.
  intros E1 Es E2. unfold serverOpen, finishOpen. rewrite E1, E2. change (sentSHLO (set_receivedForwardSecurePacket true h)) with (sentSHLO h).
  rewrite Es. by destruct (receivedForwardSecurePacket h).
Qed.

Lemma ends_agree c s d sa sf ca cf p q : opens cf sf → opens sf cf → agree (completed c d ca cf q) (answered s d sa sf p).
Proof.
  intros O3 O4. unfold agree. rewrite completed_sealer, answered_sealer. split; [reflexivity|]. split; [reflexivity|]. intros data n ad Hb. split.
  - apply (serverOpen_forward _ sf); [reflexivity|reflexivity|]. apply (O3 data n ad Hb).
  - apply (clientOpen_forward _ cf); [reflexivity|]. apply (O4 data n ad Hb).
Qed.

Lemma clientOpen_secure (h : client) a src n ad data : cForwardSecureAEAD h = None → cSecureAEAD h = Some a → Open a src n ad = Some data →
  clientOpen P src n ad h = (set_cReceivedSecurePacket true h, Opened data EncryptionSecure).
Proof. intros E1 E2 E3. unfold clientOpen. by rewrite E1, E2, E3. Qed.

Lemma hello_opens c s d sa sf ca p shlo n ad : cForwardSecureAEAD c = None → opens sa ca → Forall is_byte shlo →
  clientOpen P (Seal (GetSealerForCryptoStream (serverSetup P (answered s d sa sf p))).2 shlo n ad) n ad (upgraded c (newDiversificationNonce d) ca) =
  (secured c (newDiversificationNonce d) ca, Opened shlo EncryptionSecure).
Proof.
  intros Hf O Hb. rewrite answered_crypto_sealer. apply (clientOpen_secure _ ca); [done|reflexivity|]. apply (O shlo n ad Hb).
Qed.

(** The flights one by one, with the state that each end is in. *)
Record flights Marshal Unmarshal ipString (c : client) (s : server) (d d1 d2 : draws) (sa sf ca cf : AEAD) (params params' : connectionParametersManager) : Prop := {
  fl_asks : sendCHLO certs c = (asked c, Ok tt);
  fl_size : ClientHelloMinimumSize < len (chlo c);
  fl_answers : serverIteration P gcmOverhead certs Marshal Unmarshal ipString d (chlo c) s = (answered s d sa sf params, Ok (true, []));
  fl_upgrades : clientIteration P gcmOverhead certs d1 (DivNonce (newDiversificationNonce d)) (asked c) = (upgraded c (newDiversificationNonce d) ca, Ok tt);
  fl_message : message_ok (MkHandshakeMessage TagSHLO (shloTags d (supportedVersions s) params));
  fl_completes : clientIteration P gcmOverhead certs d2 (Message (MkHandshakeMessage TagSHLO (shloTags d (supportedVersions s) params))) (secured c (newDiversificationNonce d) ca) =
    (completed c d ca cf params', Ok tt);
  fl_secure : opens sa ca;
  fl_forward : opens cf sf ∧ opens sf cf;
}.

Lemma handshake_flights Marshal Unmarshal ipString c cfg leafCert s d d1 d2 :
  prepared c cfg leafCert → waiting c cfg leafCert → serving c cfg leafCert Unmarshal ipString s d → newDiversificationNonce d ≠ [] →
  ∃ sa sf ca cf ts tc, let params := received (cParameters c) ts (sParameters s) in
    flights Marshal Unmarshal ipString c s d d1 d2 sa sf ca cf params (received params tc (cParameters c)).
Proof.
  intros Hc Hw Hs Hdiv. destruct (server_keys_exist c cfg leafCert Hc Unmarshal ipString s d Hs) as (sa & sf & Hk).
  destruct (server_answers c cfg leafCert Hc Marshal Unmarshal ipString s d sa sf Hs Hk) as [ts Es].
  pose proof Hk as (Ka & es & Ke & Kf).
  destruct (keys_match P gcmOverhead false (sharedSecret cfg) (nonc c) (cConnID c) (chlo c) (cRaw cfg) leafCert (newDiversificationNonce d)) as (ca & sa' & Da & Da' & _ & O2 & _).
  rewrite Ka in Da'. injection Da' as <-.
  destruct (keys_match P gcmOverhead true es (nonc c ++ newServerNonce d) (cConnID c) (chlo c) (cRaw cfg) leafCert []) as (cf & sf' & Df & Df' & O3 & O4 & _).
  rewrite Kf in Df'. injection Df' as <-.
  assert (manager_ok (received (cParameters c) ts (sParameters s))) as Hp by (destruct Hs; apply received_ok; [done|apply sv_parameters0]).
  destruct (client_completes c cfg leafCert Hc d d2 (supportedVersions s) _ es ca cf Hw (sv_negotiated _ _ _ _ _ _ _ Hs) Hp (sv_ephermal _ _ _ _ _ _ _ Hs) Ke Df) as [tc Ec].
  exists sa, sf, ca, cf, ts, tc. cbv zeta. split; [by eapply client_asks|by eapply chlo_size|exact Es|by eapply client_upgrades|by eapply shlo_message_ok|exact Ec|done|done].
Qed.

(** C7: the last flights of a handshake succeed. Take a client that has the configuration, a
    certificate and a token of the server, and a server that still has them, with the same
    version and connection identifier. The client has not been through a version negotiation,
    or it has been told the very list of versions that the server sends now and knows all of
    them; with any other list, also of a genuine server, the code refuses. The hello of the
    client is longer than the minimum and is accepted; with the diversification nonce of the
    answer the client derives its secure keys and opens the server's hello, which is sealed
    with the secure keys of the server; and it accepts that hello. Then each end opens every
    forward-secure packet of the other one, the connection parameters of the two ends are the
    negotiated ones, and the client has sent no further hello. *)
Theorem handshake_agrees Marshal Unmarshal ipString c cfg leafCert s d d1 d2 n ad :
  prepared c cfg leafCert → waiting c cfg leafCert → serving c cfg leafCert Unmarshal ipString s d → newDiversificationNonce d ≠ [] →
  ∃ c1 s1 c2 shlo message c3 c4,
    sendCHLO certs c = (c1, Ok tt) ∧ ClientHelloMinimumSize < len (lastSentCHLO c1) ∧
    serverIteration P gcmOverhead certs Marshal Unmarshal ipString d (lastSentCHLO c1) s = (s1, Ok (true, [])) ∧
    clientIteration P gcmOverhead certs d1 (DivNonce (sDiversificationNonce s1)) c1 = (c2, Ok tt) ∧
    sWritten s1 = sWritten s ++ [shlo] ∧
    clientOpen P (Seal (GetSealerForCryptoStream (serverSetup P s1)).2 shlo n ad) n ad c2 = (c3, Opened shlo EncryptionSecure) ∧
    ParseHandshakeMessage shlo = Ok (message, []) ∧
    clientIteration P gcmOverhead certs d2 (Message message) c3 = (c4, Ok tt) ∧
    agree c4 s1 ∧ handshaken (cParameters c) (sParameters s) (cParameters c4) (sParameters s1) ∧
    cWritten c4 = cWritten c ++ [lastSentCHLO c1].
Proof.
  intros Hc Hw Hs Hdiv. destruct (handshake_flights Marshal Unmarshal ipString c cfg leafCert s d d1 d2 Hc Hw Hs Hdiv) as (sa & sf & ca & cf & ts & tc & []).
  set (params := received (cParameters c) ts (sParameters s)) in *. set (shlo := MkHandshakeMessage TagSHLO (shloTags d (supportedVersions s) params)) in *.
  exists (asked c), (answered s d sa sf params), (upgraded c (newDiversificationNonce d) ca), (image shlo), shlo,
    (secured c (newDiversificationNonce d) ca), (completed c d ca cf (received params tc (cParameters c))).
  rewrite asked_last, answered_nonce, answered_written, completed_written. do 5 (split; [done|]).
  split; [apply hello_opens; [by apply (wa_forward _ _ _ Hw)|done|by apply image_bytes]|].
  split; [rewrite <- (app_nil_r (image _)); by apply ParseHandshakeMessage_image|]. split; [done|].
  split; [by apply ends_agree; apply fl_forward0|]. split; [|reflexivity].
  split; [exists ts; apply answered_parameters|exists tc]. rewrite answered_parameters. apply completed_parameters.
Qed.
End hello.

(** ** The reject before it *)
Section reject.
Import protocol binary handshake crypto serverConfig connectionParameters cryptoSetup.
Context (P : Primitives) (gcmOverhead : Z) {HP : PrimitivesOk P gcmOverhead} (certs : Certificates).
Context (Marshal : list Z * Z → list Z) (Unmarshal : list Z → option (list Z * Z * list Z)) (ipString : list Z → string).

(** What the server takes from its certificates for a client, and that the client accepts it:
    the chain, the proof over the hello and the configuration, and the compressed chain. *)
Record genuine (sni chlo raw ccs ccrt : list Z) (certChain : list (list Z)) (leafCert pf comp : list Z) : Prop := {
  ge_chain : getCertForSNI certs sni = Ok certChain;
  ge_leaf : head certChain = Some leafCert ∧ leafCert ≠ [];
  ge_proof : signServerProof certs certChain chlo raw = Ok pf ∧ pf ≠ [] ∧ value_ok pf;
  ge_comp : getCompressedCert certs certChain ccs ccrt = Ok comp ∧ value_ok comp;
  ge_parse : parseChain certs comp = Ok certChain;
  ge_verify : verifyChain certs verifiedName certChain = None;
  ge_valid : verifyServerProof certs pf leafCert chlo raw = true;
}.

Definition rejTags (raw token pf comp : list Z) : gmap Z (list Z) :=
  <[TagCERT := comp]> (<[TagPROF := pf]> {[ TagSCFG := raw; TagSTK := token; TagSVID := bytesOf "quic-go" ]}).
Definition rejection (raw token pf comp : list Z) : list Z := image (MkHandshakeMessage TagREJ (rejTags raw token pf comp)).

Lemma rej_message_ok raw token pf comp : value_ok raw → value_ok token → value_ok pf → value_ok comp → message_ok (MkHandshakeMessage TagREJ (rejTags raw token pf comp)).
Proof.
  intros. split; [by apply Z_u32|]. cbn [Data]. unfold rejTags. split.
  - assert (size (rejTags raw token pf comp) <= 5)%nat as Hs; [|unfold rejTags, CryptoMaxParams in *; lia].
    do 4 apply insert_size_le. rewrite map_size_singleton. lia.
  - repeat (apply map_Forall_insert_2; [split; [by apply Z_u32|done]|]). apply map_Forall_singleton. split; [by apply Z_u32|]. split; [by vm_compute|by apply are_bytes].
Qed.

(** A client that has a token, but no certificate yet, before its hello. *)
Record asking (c : client) (ob : list Z) : Prop := {
  as_hellos : clientHelloCounter c + 1 < MaxClientHellos;
  as_keys : cSecureAEAD c = None ∧ cForwardSecureAEAD c = None ∧ diversificationNonce c = [];
  as_open : cClosed c = false;
  as_parameters : flowControlNegotiated (cParameters c) = false ∧ manager_ok (cParameters c);
  as_inchoate : inchoate certs c;
  as_nonce : nonc c = [] ∨ ∃ t r, nonc c = t ++ ob ++ r ∧ length t = 4%nat ∧ length r = 20%nat;
  as_nonce_bytes : Forall is_byte (nonc c);
}.

(** A server that has a configuration for it, accepts its token, and draws [d] for its last
    answer. Its versions are those of a version negotiation, if there was one. *)
Record offering (s : server) (c : client) (d : draws) : Prop := {
  of_config : config_ok P (scfg s);
  of_token : acceptSTK P Unmarshal ipString (stk c) s = Ok true;
  of_version : sVersion s = cVersion c ∧ 0 <= cVersion c < 1000;
  of_connID : sConnID s = cConnID c;
  of_open : sClosed s = false;
  of_versions : len (supportedVersions s) <= 1000;
  of_negotiated : versions_known (negotiatedVersions c) (supportedVersions s);
  of_parameters : manager_ok (sParameters s) ∧ flowControlNegotiated (sParameters s) = false;
  of_ephermal : ∃ r, ephermal d = NewCurve25519KEX P r;
  of_nonce : length (newServerNonce d) = 32%nat ∧ Forall is_byte (newServerNonce d);
}.

Lemma server_rejects s c d d' raw certChain leafCert pf comp : let hello := chlo certs c in
  offering s c d' → inchoate certs c → genuine (hostname c) hello raw (getCommonCertificateHashes certs) [] certChain leafCert pf comp →
  Get (scfg s) = Ok raw →
  let token := NewToken P Marshal (stkKey s) (tokenNonce d) (now d) (sRemoteAddr s) in
  value_ok raw → value_ok token →
  serverIteration P gcmOverhead certs Marshal Unmarshal ipString d hello s = (set_sWritten (sWritten s ++ [rejection raw token pf comp]) s, Ok (false, [])).
Proof.
  intros hello [] Hic [] Hraw token Vraw Vtok. pose proof (inchoate_padded certs c Hic) as Hlen. pose proof (inchoate_message_ok certs c Hic) as Hok.
  pose proof (proj2 (in_host _ _ Hic)) as Hhost. destruct (inchoate_incomplete certs c Hic). set (m := chloTags certs c) in *.
  pose proof (ParseHandshakeMessage_image _ [] Hok (Forall_nil_2 _)) as Hparse. rewrite app_nil_r in Hparse. fold (chlo certs c) in Hlen. fold hello in Hlen. change (image _) with hello in Hparse. destruct ge_leaf0 as [Hleaf _], ge_proof0 as (Hpf & _ & Vpf), ge_comp0 as [Hcomp Vcomp].
  unfold serverIteration. rewrite Hparse. step_check (Z.eqb_refl TagCHLO : (Tag (MkHandshakeMessage TagCHLO m) =? TagCHLO) = true). rewrite Nat.sub_0_r, firstn_all. cbn [Data].
  assert (handleMessage P gcmOverhead certs Marshal Unmarshal ipString d hello m s = (set_sWritten (sWritten s ++ [rejection raw token pf comp]) s, Ok false)) as E; [|rewrite (St_bind_step _ _ _ _ _ E); reflexivity].
  unfold handleMessage. rewrite (bool_decide_eq_true_2 (m !! TagFHL2 = None)), (bool_decide_eq_true_2 (m !! TagNSTP = None)) by done.
  rewrite !(St_bind_step _ _ _ _ _ (check_step _ _)), ic_sni0.
  step_check (f_equal negb (bool_decide_eq_false_2 (hostname c = []) Hhost) : negb (bool_decide (hostname c = [])) = true). rewrite ic_ver0.
  assert (len (crypto.le32 (VersionNumberToTag (cVersion c))) =? 4 = true) as E4 by (rewrite le32_enc; unfold len; by rewrite enc_length). step_check E4.
  assert (Uint32 (crypto.le32 (VersionNumberToTag (cVersion c))) = Ok (VersionNumberToTag (cVersion c))) as Ev by (rewrite le32_enc; apply Uint32_enc4, u32_range).
  step_run Ev. rewrite (St_bind_step _ _ _ _ _ (eq_refl : gets s = (s, Ok s))). cbv beta. destruct of_version0 as [Hv1 Hv2].
  rewrite (VersionTag_inverse _ Hv2), Hv1, Z.eqb_refl. cbn [negb andb]. rewrite (St_bind_step _ _ _ _ _ (check_step _ _)). cbv beta.
  assert (GetLeafCertFor certs (hostname c) = Ok leafCert) as El by (unfold GetLeafCertFor; rewrite ge_chain0; destruct certChain; [discriminate Hleaf|injection Hleaf as ->; reflexivity]).
  step_run El. assert (isInchoateCHLO P Unmarshal ipString m leafCert s = Ok true) as Ei by (unfold isInchoateCHLO; rewrite bool_decide_eq_true_2 by exact ic_pubs0; reflexivity).
  step_run Ei. cbn [negb].
  assert (handleInchoateCHLO P certs Marshal Unmarshal ipString d (hostname c) hello m s = (s, Ok (rejection raw token pf comp))) as Er; [|step Er; reflexivity].
  unfold handleInchoateCHLO. rewrite (proj2 (Z.ltb_ge _ _) (Z.lt_le_incl _ _ Hlen)). cbn [negb]. rewrite (St_bind_step _ _ _ _ _ (check_step _ _)). cbv beta.
  rewrite (St_bind_step _ _ _ _ _ (eq_refl : gets s = (s, Ok s))). cbv beta zeta. step_run Hraw. rewrite ic_stk0. step_run of_token0.
  step_run ge_chain0. step_run Hpf. rewrite ic_ccs0, ic_ccrt0. step_run Hcomp. unfold run, writeMessage. f_equal.
  exact (Write_format _ [] (rej_message_ok raw token pf comp Vraw Vtok Vpf Vcomp)).
Qed.

(** The client after the reject. *)
Definition noncOf (d : draws) (c : client) (cfg : serverConfigClient) : list Z :=
  if len (nonc c) =? 0 then be32 (u32 (now d / time.Second)) ++ cObit cfg ++ nonceBytes d else nonc c.
Definition convinced (d : draws) (c : client) (cfg : serverConfigClient) (raw token pf comp : list Z) (certChain : list (list Z)) : client :=
  set_serverVerified true (set_certData comp (set_chain certChain (set_chloForSignature (lastSentCHLO c) (set_proof pf
    (set_nonc (noncOf d c cfg) (set_scfgData raw (set_serverConfigOf (Some cfg) (set_stk token c)))))))).

Lemma client_convinced d c cfg sni ccs ccrt raw token certChain leafCert pf comp :
  genuine sni (lastSentCHLO c) raw ccs ccrt certChain leafCert pf comp → parseServerConfig P (keyBytes d) raw = Ok cfg → IsExpired cfg (now d) = false →
  len (cObit cfg) = 8 → cRaw cfg = raw →
  handleREJMessage P certs d (rejTags raw token pf comp) c = (convinced d c cfg raw token pf comp certChain, Ok tt).
Proof.
  intros [] Hp Hx Ho Hraw. destruct ge_leaf0 as [Hleaf _], ge_proof0 as (_ & Hpf & _). destruct certChain as [|c0 rest]; [discriminate Hleaf|]. injection Hleaf as ->.
  unfold handleREJMessage, maybeSet.
  assert (rejTags raw token pf comp !! TagSTK = Some token) as -> by reflexivity. assert (rejTags raw token pf comp !! TagSNO = None) as -> by reflexivity.
  assert (rejTags raw token pf comp !! TagPROF = Some pf) as -> by reflexivity. step_update. rewrite (St_bind_step _ _ _ _ _ (eq_refl : mret (M := St client) tt (set_stk token c) = (_, Ok tt))). cbv beta.
  assert (handleSCFG P d (rejTags raw token pf comp) (set_stk token c) = (set_nonc (noncOf d c cfg) (set_scfgData raw (set_serverConfigOf (Some cfg) (set_stk token c))), Ok tt)) as E.
  { unfold handleSCFG. assert (rejTags raw token pf comp !! TagSCFG = Some raw) as -> by reflexivity. rewrite Hp. step_update. rewrite Hx. cbn [negb]. rewrite (St_bind_step _ _ _ _ _ (check_step _ _)). cbv beta. step_update.
    rewrite (St_bind_step _ _ _ _ _ (eq_refl : gets _ = (_, Ok _))). cbv beta. change (nonc (set_scfgData raw (set_serverConfigOf (Some cfg) (set_stk token c)))) with (nonc c). unfold noncOf.
    destruct (len (nonc c) =? 0) eqn:En; [|by destruct c].
    unfold generateClientNonce. rewrite (St_bind_step _ _ _ _ _ (eq_refl : gets _ = (_, Ok _))). cbv beta. change (nonc (set_scfgData raw (set_serverConfigOf (Some cfg) (set_stk token c)))) with (nonc c).
    rewrite En, (St_bind_step _ _ _ _ _ (check_step _ _)). cbv beta. change (serverConfigOf (set_scfgData raw (set_serverConfigOf (Some cfg) (set_stk token c)))) with (Some cfg). cbv iota.
    rewrite (proj2 (Z.eqb_eq _ _) Ho), (St_bind_step _ _ _ _ _ (check_step _ _)). reflexivity. }
  step E. step_update. set (h := set_chloForSignature _ _).
  assert (handleCERT certs (rejTags raw token pf comp) h = (set_certData comp (set_chain (leafCert :: rest) h), Ok tt)) as Ec.
  { unfold handleCERT. assert (rejTags raw token pf comp !! TagCERT = Some comp) as -> by reflexivity. rewrite ge_parse0. step_update. step_update.
    rewrite (St_bind_step _ _ _ _ _ (eq_refl : gets _ = (_, Ok _))). cbv beta. assert (Verify certs verifiedName (set_certData comp (set_chain (leafCert :: rest) h)) = None) as -> by exact ge_verify0.
    by rewrite bool_decide_eq_true_2. }
  step Ec. unfold verifyServer. rewrite (St_bind_step _ _ _ _ _ (eq_refl : gets _ = (_, Ok _))). cbv beta.
  change (serverConfigOf (set_certData comp (set_chain (leafCert :: rest) h))) with (Some cfg). cbv iota.
  change (proof (set_certData comp (set_chain (leafCert :: rest) h))) with pf. change (GetLeafCert (set_certData comp (set_chain (leafCert :: rest) h))) with (Some leafCert).
  assert (len pf =? 0 = false) as -> by (pose proof (nonempty_len pf Hpf); lia). rewrite bool_decide_eq_true_2 by eauto. cbn [negb andb].
  change (VerifyServerProof certs pf (chloForSignature (set_certData comp (set_chain (leafCert :: rest) h))) (cRaw cfg) (set_certData comp (set_chain (leafCert :: rest) h)))
    with (verifyServerProof certs pf leafCert (lastSentCHLO c) (cRaw cfg)). rewrite Hraw, ge_valid0, (St_bind_step _ _ _ _ _ (check_step _ _)). reflexivity.
Qed.

Lemma config_value s raw : config_ok P (scfg s) → Get (scfg s) = Ok raw → value_ok raw.
Proof.
  intros Hok Hg. pose proof (config_message_ok P gcmOverhead (scfg s) Hok) as Hm. unfold Get in Hg. rewrite (Write_format _ _ Hm) in Hg. injection Hg as <-. cbn [app].
  split; [|by apply image_bytes]. rewrite image_len. destruct Hok as (H1 & _ & H3 & _ & r & Hk). cbn [Data].
  unfold configData. rewrite !tagsSize_insert by reflexivity. change (tagsSize {[TagEXPY := replicate 8 255]}) with 16. rewrite len_app. unfold len. rewrite H1, H3, Hk. cbn [PublicKey public NewCurve25519KEX]. rewrite scalarBaseMult_length. vm_compute. discriminate.
Qed.

Lemma be32_length v : length (be32 v) = 4%nat ∧ Forall is_byte (be32 v).
Proof. unfold be32. rewrite WriteUint32_enc. split; [by rewrite enc_length|apply enc_bytes]. Qed.

Lemma convinced_nonce d c cfg ob : asking c ob → cObit cfg = ob → length ob = 8%nat → Forall is_byte ob → length (nonceBytes d) = 20%nat → Forall is_byte (nonceBytes d) →
  (∃ t r, noncOf d c cfg = t ++ cObit cfg ++ r ∧ length t = 4%nat ∧ length (cObit cfg) = 8%nat ∧ length r = 20%nat) ∧ Forall is_byte (noncOf d c cfg).
Proof.
  intros [] Eo Lo Bo Ln Bn. unfold noncOf. rewrite Eo. destruct (len (nonc c) =? 0) eqn:E.
  - destruct (be32_length (u32 (now d / time.Second))) as [L4 B4]. split; [|by rewrite !Forall_app]. exists (be32 (u32 (now d / time.Second))), (nonceBytes d). split_and!; try done.
  - destruct as_nonce0 as [E0|(t & r & En & Ht & Hr)]; [by rewrite E0 in E|]. split; [|done]. exists t, r. split_and!; done.
Qed.

(** *** The new token *)

(** The cookie in a token of the server, when it comes back. *)
Definition cookieOf (s : server) (sent : Z) : Cookie :=
  MkCookie (decodeRemoteAddr ipString (encodeRemoteAddr (sRemoteAddr s))) (sent / time.Second * time.Second).

(** What is documented of encoding/asn1: a token, which is a string of bytes and an int64,
    survives its encoding. *)
Definition asn1_ok : Prop := ∀ data t, 0 <= t < 2 ^ 63 → Unmarshal (Marshal (data, t)) = Some (data, t, []).

(** What is drawn for a token, and that it is short. *)
Definition token_ok (s : server) (d : draws) : Prop :=
  length (tokenNonce d) = stkNonceSize ∧ Forall is_byte (tokenNonce d) ∧ 0 <= now d < 2 ^ 63 ∧
  let data := Marshal (encodeRemoteAddr (sRemoteAddr s), now d / time.Second) in Forall is_byte data ∧ len data <= 1000.

Lemma token_value s d : token_ok s d → value_ok (NewToken P Marshal (stkKey s) (tokenNonce d) (now d) (sRemoteAddr s)).
Proof.
  intros (Hn & Hb & _ & Hd & Hl). unfold NewToken, stkNewToken. destruct gcm_overhead. split; [|apply Forall_app; split; [done|by apply (gcm_seal_bytes (gcmOverhead := gcmOverhead))]].
  rewrite len_app, (gcm_seal_len (gcmOverhead := gcmOverhead)). unfold len at 1. rewrite Hn. unfold stkNonceSize, CryptoParameterMaxLength in *. lia.
Qed.
Lemma token_returns s d : asn1_ok → token_ok s d →
  acceptSTK P Unmarshal ipString (NewToken P Marshal (stkKey s) (tokenNonce d) (now d) (sRemoteAddr s)) s =
  Ok (acceptSTKCallback s (sRemoteAddr s) (Some (cookieOf s (now d)))).
Proof.
  intros Ha (Hn & _ & Ht & _). unfold acceptSTK, DecodeToken, NewToken. rewrite (stk_roundtrip P gcmOverhead) by done.
  match goal with |- context [len ?t =? 0] => assert (len t =? 0 = false) as -> end.
  { unfold stkNewToken. rewrite len_app. unfold len at 1. rewrite Hn. apply Z.eqb_neq. match goal with |- context [len ?x] => pose proof (len_nonneg x) end. unfold stkNonceSize. lia. }
  cbn [mbind outcome_bind]. rewrite Ha; [done|]. unfold time.Second. split; [apply Z.div_pos; lia|]. apply Z.div_lt_upper_bound; lia.
Qed.

(** C6: a reject makes the client ready for the complete hello. Take a client that has a token
    but no certificate, and that may still send two hellos; and a server that accepts the
    token, has the same version and a version list that the client has either not negotiated
    or has seen and knows. The client sends its hello, which the server can read; the server
    answers with its configuration, a new token, its proof and its certificates. If signing
    and compressing succeed, and the client verifies what comes out of them, the client
    accepts the answer and takes the server for verified. The new token comes back as a cookie
    with the client's address and the time; if the callback of the server accepts it, client
    and server meet all that the last flights of the handshake need. Host names, tokens,
    proofs and certificates are taken to fit into handshake messages. *)
Theorem reject_prepares c s d1 d2 d3 raw certChain leafCert pf comp :
  asking c (obit (scfg s)) → offering s c d3 → Get (scfg s) = Ok raw →
  genuine (hostname c) (chlo certs c) raw (getCommonCertificateHashes certs) [] certChain leafCert pf comp →
  asn1_ok → token_ok s d1 → acceptSTKCallback s (sRemoteAddr s) (Some (cookieOf s (now d1))) = true →
  now d2 <= maxExpiry * time.Second → length (nonceBytes d2) = 20%nat → Forall is_byte (nonceBytes d2) →
  ∃ c1 s' rej message c' cfg,
    sendCHLO certs c = (c1, Ok tt) ∧ cWritten c1 = cWritten c ++ [chlo certs c] ∧
    serverIteration P gcmOverhead certs Marshal Unmarshal ipString d1 (chlo certs c) s = (s', Ok (false, [])) ∧ sWritten s' = sWritten s ++ [rej] ∧
    ParseHandshakeMessage rej = Ok (message, []) ∧ Tag message = TagREJ ∧
    handleREJMessage P certs d2 (Data message) c1 = (c', Ok tt) ∧
    prepared P certs c' cfg leafCert ∧ waiting c' cfg leafCert ∧ serving P certs c' cfg leafCert Unmarshal ipString s' d3.
Proof.
  intros Ha Ho Hraw Hg Hasn Hto Hcb Hnow Ln Bn. pose proof (config_value s raw (of_config _ _ _ Ho) Hraw) as Vraw.
  pose proof (token_value s d1 Hto) as Vtok. pose proof (token_returns s d1 Hasn Hto) as Htok. rewrite Hcb in Htok.
  set (token := NewToken P Marshal (stkKey s) (tokenNonce d1) (now d1) (sRemoteAddr s)) in *. pose proof (as_inchoate _ _ Ha) as Hi.
  pose proof (server_rejects s c d1 d3 raw certChain leafCert pf comp Ho Hi Hg Hraw Vraw Vtok) as Es. cbv zeta in Es. fold token in Es.
  pose proof (hello_sent certs c (inchoate_message_ok certs c Hi) ltac:(pose proof (as_hellos _ _ Ha); lia)) as Eask.
  destruct (config_parsed P gcmOverhead (scfg s) (keyBytes d2) (now d2) (of_config _ _ _ Ho) Hnow) as (raw' & cfg & E1 & E2 & E3 & E4 & E5 & E6 & E7 & E8).
  rewrite Hraw in E1. injection E1 as <-. pose proof (of_config _ _ _ Ho) as (I1 & I2 & I3 & I4 & _).
  assert (len (cObit cfg) = 8) as L8 by (rewrite E5; unfold len; by rewrite I3).
  pose proof (client_convinced d2 (asked certs c) cfg _ _ _ raw token certChain leafCert pf comp Hg E2 E6 L8 E3) as Ec.
  destruct (convinced_nonce d2 c cfg (obit (scfg s)) Ha E5 I3 I4 Ln Bn) as [Hn1 Hn2].
  exists (asked certs c), (set_sWritten (sWritten s ++ [rejection raw token pf comp]) s), (rejection raw token pf comp), (MkHandshakeMessage TagREJ (rejTags raw token pf comp)), (convinced d2 (asked certs c) cfg raw token pf comp certChain), cfg.
  split; [exact Eask|]. split; [reflexivity|]. split; [exact Es|]. split; [reflexivity|].
  destruct Hg, Ha, Ho, Hi. destruct ge_leaf0 as [Hleaf Hne], ge_proof0 as (_ & _ & Vpf), ge_comp0 as [_ Vcomp].
  split; [unfold rejection; rewrite <- (app_nil_r (image _)); by apply ParseHandshakeMessage_image, Forall_nil_2; apply rej_message_ok|]. split; [reflexivity|]. split; [exact Ec|].
  destruct as_keys0 as (K1 & K2 & K3), as_parameters0 as [P1 P2]. split; [|split].
  - split; [reflexivity|exact Hleaf|exact in_host0|exact Vtok|exact in_sno0|exact in_ccs0|exact Hn1|exact Hn2|rewrite E4; exact (conj I1 I2)|exists (keyBytes d2); exact E7].
  - split; [exact as_hellos0|reflexivity|exact K1|exact K2|exact K3| |exact Hne|exact as_open0|exact P1].
    intros E. rewrite E in E8. unfold CalculateSharedKey in E8. destruct (negb _); [discriminate|]. injection E8 as E8.
    apply (f_equal length) in E8. rewrite scalarMult_length in E8. discriminate.
  - split; [exact of_config0| | |exact Htok|exact of_version0|exact of_connID0|exact of_open0|exact of_versions0|exact of_negotiated0|exact of_parameters0|exact P2|exact of_ephermal0|exact of_nonce0];
    [|unfold GetLeafCertFor; change (hostname (convinced d2 (asked certs c) cfg raw token pf comp certChain)) with (hostname c); rewrite ge_chain0; destruct certChain; [discriminate Hleaf|injection Hleaf as ->; reflexivity]].
    exists (keyBytes d2), raw. split; [exact Hraw|exact E2].
Qed.
End reject.

(** ** A handshake that meets the hypotheses *)
Module HandshakeExamples.
Import protocol binary handshake crypto serverConfig connectionParameters cryptoSetup CryptoExamples CryptoSetupExamples.

(** The client after the second reject, before its third hello. *)
Definition ready : client := (handleREJMessage toy toyCerts draw (Data (messageOf s2)) c2).1.
Definition readyConfig : serverConfigClient :=
  from_option id (MkServerConfigClient [] [] [] 0 (NewCurve25519KEX toy []) []) (serverConfigOf ready).
Definition certificate : list Z := [48; 3; 1; 2; 3].

Lemma value_computes v : (len v <=? CryptoParameterMaxLength) && forallb (λ b, (0 <=? b) && (b <? 256)) v = true → value_ok v.
Proof. intros [H1 H2]%andb_prop. split; [lia|by apply are_bytes]. Qed.

Lemma ready_prepared : prepared toy toyCerts ready readyConfig certificate.
Proof.
  split.
  - vm_compute. reflexivity.
  - vm_compute. reflexivity.
  - split; [apply value_computes; vm_compute; reflexivity|vm_compute; discriminate].
  - apply value_computes. vm_compute. reflexivity.
  - vm_compute. reflexivity.
  - apply value_computes. vm_compute. reflexivity.
  - exists (take 4 (nonc ready)), (drop 12 (nonc ready)). split_and!; vm_compute; reflexivity.
  - apply are_bytes. vm_compute. reflexivity.
  - split; [vm_compute; reflexivity|apply are_bytes; vm_compute; reflexivity].
  - exists (keyBytes draw). vm_compute. reflexivity.
Qed.

Lemma ready_waiting : waiting ready readyConfig certificate.
Proof. split; vm_compute; try reflexivity; discriminate. Qed.

Lemma s2_serving : serving toy toyCerts ready readyConfig certificate toyUnmarshal toyText s2 draw.
Proof.
  split.
  - split_and!; [vm_compute; reflexivity|apply are_bytes; vm_compute; reflexivity|vm_compute; reflexivity|apply are_bytes; vm_compute; reflexivity|].
    exists (replicate 32 7). vm_compute. reflexivity.
  - exists (keyBytes draw), (cRaw readyConfig). split; vm_compute; reflexivity.
  - vm_compute. reflexivity.
  - vm_compute. reflexivity.
  - split; [vm_compute; reflexivity|]. split; vm_compute; [discriminate|reflexivity].
  - vm_compute. reflexivity.
  - vm_compute. reflexivity.
  - vm_compute. discriminate.
  - left. vm_compute. reflexivity.
  - split; [|vm_compute; reflexivity]. assert (sParameters s2 = server0 512 1048576 1572864 (30 * time.Second)) as -> by (vm_compute; reflexivity).
    apply new_manager_ok. split; vm_compute; [discriminate|reflexivity].
  - assert (cParameters ready = client0 512 16777216 25165824 (30 * time.Second)) as -> by (vm_compute; reflexivity).
    apply new_manager_ok. split; vm_compute; [discriminate|reflexivity].
  - exists (replicate 32 13). vm_compute. reflexivity.
  - split; [vm_compute; reflexivity|apply are_bytes; vm_compute; reflexivity].
Qed.

Lemma handshake_agrees_witness : ∃ c s, agree toy c s ∧ handshaken (cParameters ready) (sParameters s2) (cParameters c) (sParameters s).
Proof.
  destruct (handshake_agrees toy 12 toyCerts toyMarshal toyUnmarshal toyText ready readyConfig certificate s2 draw draw draw 3 [8]
    ready_prepared ready_waiting s2_serving) as (c1 & s1 & c2 & shlo & message & c3 & c4 & _ & _ & _ & _ & _ & _ & _ & _ & Ha & Hp & _).
  - discriminate.
  - exact (ex_intro _ c4 (ex_intro _ s1 (conj Ha Hp))).
Defined.

(** The client after the first reject, before its second hello. *)
Definition told : client := (handleREJMessage toy toyCerts draw (Data (messageOf s1)) c1).1.
Definition configuration : list Z := match Get (scfg s1) with Ok raw => raw | _ => [] end.
Definition signature : list Z := le64 (checksum (certificate ++ lastSentCHLO c2 ++ configuration)).

Lemma params_ok (h : connectionParametersManager) pers v ms mc : h = NewConnectionParamatersManager pers v ms mc (30 * time.Second) → manager_ok h.
Proof. intros ->. apply new_manager_ok. split; vm_compute; [discriminate|reflexivity]. Qed.

Lemma told_inchoate : inchoate toyCerts told.
Proof.
  split.
  - split; [apply value_computes; vm_compute; reflexivity|vm_compute; discriminate].
  - vm_compute. reflexivity.
  - apply value_computes. vm_compute. reflexivity.
  - vm_compute. reflexivity.
  - apply value_computes. vm_compute. reflexivity.
  - assert (Forall (λ cfg, value_ok (cID cfg)) (option_list (serverConfigOf told))) as H.
    { rewrite <- (Forall_fmap cID value_ok). assert (cID <$> option_list (serverConfigOf told) = [replicate 16 1]) as -> by (vm_compute; reflexivity).
      repeat constructor; vm_compute; discriminate || reflexivity. }
    intros cfg E. rewrite E in H. by apply Forall_cons in H as [H _].
Qed.

Lemma told_hello : chlo toyCerts told = lastSentCHLO c2.
Proof.
  pose proof (hello_sent toyCerts told (inchoate_message_ok toyCerts told told_inchoate) ltac:(vm_compute; reflexivity)) as E.
  apply (f_equal (λ r, lastSentCHLO r.1)) in E. cbn [fst] in E. rewrite asked_last in E. rewrite <- E. vm_compute. reflexivity.
Qed.

Lemma told_asking : asking toyCerts told (obit (scfg s1)).
Proof.
  split.
  - vm_compute. reflexivity.
  - split_and!; vm_compute; reflexivity.
  - vm_compute. reflexivity.
  - split; [vm_compute; reflexivity|]. apply (params_ok _ PerspectiveClient 512 16777216 25165824). vm_compute. reflexivity.
  - exact told_inchoate.
  - right. exists (take 4 (nonc told)), (drop 12 (nonc told)). split_and!; vm_compute; reflexivity.
  - apply are_bytes. vm_compute. reflexivity.
Qed.

Lemma s1_offering : offering toy toyUnmarshal toyText s1 told draw.
Proof.
  split.
  - split_and!; [vm_compute; reflexivity|apply are_bytes; vm_compute; reflexivity|vm_compute; reflexivity|apply are_bytes; vm_compute; reflexivity|].
    exists (replicate 32 7). vm_compute. reflexivity.
  - vm_compute. reflexivity.
  - split; [vm_compute; reflexivity|]. split; vm_compute; [discriminate|reflexivity].
  - vm_compute. reflexivity.
  - vm_compute. reflexivity.
  - vm_compute. discriminate.
  - left. vm_compute. reflexivity.
  - split; [|vm_compute; reflexivity]. apply (params_ok _ PerspectiveServer 512 1048576 1572864). vm_compute. reflexivity.
  - exists (replicate 32 13). vm_compute. reflexivity.
  - split; [vm_compute; reflexivity|apply are_bytes; vm_compute; reflexivity].
Qed.

Lemma toy_genuine : genuine toyCerts (hostname told) (chlo toyCerts told) configuration (getCommonCertificateHashes toyCerts) [] [certificate] certificate signature certificate.
Proof.
  rewrite told_hello. split.
  - vm_compute. reflexivity.
  - split; [reflexivity|discriminate].
  - split; [vm_compute; reflexivity|]. split; [vm_compute; discriminate|apply value_computes; vm_compute; reflexivity].
  - split; [vm_compute; reflexivity|apply value_computes; vm_compute; reflexivity].
  - vm_compute. reflexivity.
  - vm_compute. reflexivity.
  - vm_compute. reflexivity.
Qed.

Lemma toy_asn1 : asn1_ok toyMarshal toyUnmarshal.
Proof.
  intros data t Ht. unfold toyUnmarshal, toyMarshal. cbn [fst snd]. rewrite Uint64_app by (unfold is_u64; lia).
  by rewrite drop_app_length' by (by rewrite le64_enc, enc_length).
Qed.

Lemma reject_prepares_witness : ∃ s' c' cfg, prepared toy toyCerts c' cfg certificate ∧ waiting c' cfg certificate ∧
  serving toy toyCerts c' cfg certificate toyUnmarshal toyText s' draw.
Proof.
  destruct (reject_prepares toy 12 toyCerts toyMarshal toyUnmarshal toyText told s1 draw draw draw configuration [certificate] certificate signature certificate
    told_asking s1_offering) as (c1' & s' & rej & message & c' & cfg & _ & _ & _ & _ & _ & _ & _ & H1 & H2 & H3).
  - vm_compute. reflexivity.
  - exact toy_genuine.
  - exact toy_asn1.
  - split; [vm_compute; reflexivity|]. split; [apply are_bytes; vm_compute; reflexivity|]. split; [split; vm_compute; [discriminate|reflexivity]|].
    split; [apply are_bytes; vm_compute; reflexivity|vm_compute; discriminate].
  - vm_compute. reflexivity.
  - vm_compute. discriminate.
  - vm_compute. reflexivity.
  - apply are_bytes. vm_compute. reflexivity.
  - exact (ex_intro _ s' (ex_intro _ c' (ex_intro _ cfg (conj H1 (conj H2 H3))))).
Defined.
End HandshakeExamples.
