(* ===== verification/Session.v ===== *)
(** * The state of a session and of its paths

    The structs of session.go, path.go and scheduler.go, and the operations that the
    scheduler and the handlers of the session share: packing and sending on a path, PATHS
    frames, window updates and the answer to acknowledgements of duplicated packets. The
    operations run in a state monad: they return a value, return an error, panic, or wait
    for ever for a channel. A path is referred to by its identifier. *)

From S2P Require Import Prelude Protocol ByteOrder AckFrames Frames PublicHeader ReceivedPackets GoFloat SentPackets FlowControl FrameSorter.
From S2P Require Import Stream StreamsMap StreamFramer PacketPacker.

(** ** Effects *)

(** [Blocks] is a goroutine that waits for ever, [Runs] a loop that has used up its fuel. *)
Inductive result (S A : Type) :=
  | Done (s : S) (a : A)
  | Fails (s : S) (e : error)
  | Panics (s : S)
  | Blocks (s : S)
  | Runs (s : S).
Arguments Done {_ _} _ _.
Arguments Fails {_ _} _ _.
Arguments Panics {_ _} _.
Arguments Blocks {_ _} _.
Arguments Runs {_ _} _.

Definition final {S A} (r : result S A) : S :=
  match r with Done s _ | Fails s _ | Panics s | Blocks s | Runs s => s end.

(** What the program takes from outside: the clock, the random bytes, the results of writes
    to the sockets, the clock readings of a window update ([time.Since] and [time.Now] for
    each stream), and the order of the traversals of maps. The argument is the number of
    readings before. *)
Record env := MkEnv {
  clock : nat → Z;
  windowClock : nat → Z → Z * Z;
  random : nat → option (Z * Z);
  writeResult : nat → option error;
  shuffle : nat → list Z → list Z;
}.

(** [UpdateSessionRTT] of the estimator. *)
Class SessionRTT (R : Type) := UpdateSessionRTT : R → Z → R.

(** ** The state *)
Module session.
Import protocol.
Import streamsMap (streamsMap).
Import flowControlManager (flowControlManager).
Import streamFramer (streamFramer).
Import packetNumberGenerator (packetNumberGenerator).
Import packetPacker (packetPacker, packedPacket).
Import receivedPacketHandler (receivedPacketHandler).

Section state.
Context {R C : Type} `{!RTTStats R, !SendAlgorithm R C, !SessionRTT R}.
Notation sentPacketHandler := (@sentPacketHandler.sentPacketHandler R C).

(** The field rttStats is the one of the sent packet handler, which is the same object. The
    goroutine [run] of a path ends when it receives from closeChan, and then sets open to
    false. The buffer of the channel sentPacket is full when [sentPacketFull] is set; while
    the goroutine runs, it empties it. *)
Record path := MkSessionPath {
  pathID : Z;
  localAddr : net.UDPAddr;
  remoteAddr : net.UDPAddr;
  sent : sentPacketHandler;
  received : receivedPacketHandler;
  open : bool;
  closeChan : bool;
  potentiallyFailed : bool;
  sentPacketFull : bool;
  generator : packetNumberGenerator;
  lastRcvdPacketNumber : Z;
  largestRcvdPacketNumber : Z;
  leastUnacked : Z;
  lastNetworkActivityTime : Z;
}.

Definition rttStats (p : path) : R := sentPacketHandler.rttStats (sent p).

Definition SetCurrentRemoteAddr (v : net.UDPAddr) (p : path) : path :=
  MkSessionPath
    (pathID p) (localAddr p) v (sent p) (received p) (open p) (closeChan p) (potentiallyFailed p) (sentPacketFull p)
    (generator p) (lastRcvdPacketNumber p) (largestRcvdPacketNumber p) (leastUnacked p) (lastNetworkActivityTime p).
Definition set_sent (v : sentPacketHandler) (p : path) : path :=
  MkSessionPath
    (pathID p) (localAddr p) (remoteAddr p) v (received p) (open p) (closeChan p) (potentiallyFailed p)
    (sentPacketFull p) (generator p) (lastRcvdPacketNumber p) (largestRcvdPacketNumber p) (leastUnacked p)
    (lastNetworkActivityTime p).
Definition set_received (v : receivedPacketHandler) (p : path) : path :=
  MkSessionPath
    (pathID p) (localAddr p) (remoteAddr p) (sent p) v (open p) (closeChan p) (potentiallyFailed p) (sentPacketFull p)
    (generator p) (lastRcvdPacketNumber p) (largestRcvdPacketNumber p) (leastUnacked p) (lastNetworkActivityTime p).
Definition set_open (v : bool) (p : path) : path :=
  MkSessionPath
    (pathID p) (localAddr p) (remoteAddr p) (sent p) (received p) v (closeChan p) (potentiallyFailed p)
    (sentPacketFull p) (generator p) (lastRcvdPacketNumber p) (largestRcvdPacketNumber p) (leastUnacked p)
    (lastNetworkActivityTime p).
Definition set_closeChan (v : bool) (p : path) : path :=
  MkSessionPath
    (pathID p) (localAddr p) (remoteAddr p) (sent p) (received p) (open p) v (potentiallyFailed p) (sentPacketFull p)
    (generator p) (lastRcvdPacketNumber p) (largestRcvdPacketNumber p) (leastUnacked p) (lastNetworkActivityTime p).
Definition set_potentiallyFailed (v : bool) (p : path) : path :=
  MkSessionPath
    (pathID p) (localAddr p) (remoteAddr p) (sent p) (received p) (open p) (closeChan p) v (sentPacketFull p)
    (generator p) (lastRcvdPacketNumber p) (largestRcvdPacketNumber p) (leastUnacked p) (lastNetworkActivityTime p).
Definition set_sentPacketFull (v : bool) (p : path) : path :=
  MkSessionPath
    (pathID p) (localAddr p) (remoteAddr p) (sent p) (received p) (open p) (closeChan p) (potentiallyFailed p) v
    (generator p) (lastRcvdPacketNumber p) (largestRcvdPacketNumber p) (leastUnacked p) (lastNetworkActivityTime p).
Definition set_generator (v : packetNumberGenerator) (p : path) : path :=
  MkSessionPath
    (pathID p) (localAddr p) (remoteAddr p) (sent p) (received p) (open p) (closeChan p) (potentiallyFailed p)
    (sentPacketFull p) v (lastRcvdPacketNumber p) (largestRcvdPacketNumber p) (leastUnacked p)
    (lastNetworkActivityTime p).
Definition set_lastRcvdPacketNumber (v : Z) (p : path) : path :=
  MkSessionPath
    (pathID p) (localAddr p) (remoteAddr p) (sent p) (received p) (open p) (closeChan p) (potentiallyFailed p)
    (sentPacketFull p) (generator p) v (largestRcvdPacketNumber p) (leastUnacked p) (lastNetworkActivityTime p).
Definition set_largestRcvdPacketNumber (v : Z) (p : path) : path :=
  MkSessionPath
    (pathID p) (localAddr p) (remoteAddr p) (sent p) (received p) (open p) (closeChan p) (potentiallyFailed p)
    (sentPacketFull p) (generator p) (lastRcvdPacketNumber p) v (leastUnacked p) (lastNetworkActivityTime p).
Definition SetLeastUnacked (v : Z) (p : path) : path :=
  MkSessionPath
    (pathID p) (localAddr p) (remoteAddr p) (sent p) (received p) (open p) (closeChan p) (potentiallyFailed p)
    (sentPacketFull p) (generator p) (lastRcvdPacketNumber p) (largestRcvdPacketNumber p) v
    (lastNetworkActivityTime p).
Definition set_lastNetworkActivityTime (v : Z) (p : path) : path :=
  MkSessionPath
    (pathID p) (localAddr p) (remoteAddr p) (sent p) (received p) (open p) (closeChan p) (potentiallyFailed p)
    (sentPacketFull p) (generator p) (lastRcvdPacketNumber p) (largestRcvdPacketNumber p) (leastUnacked p) v.

(** *** scheduler.go: the scheduler without what its log needs *)
Record scheduler := MkScheduler {
  quotas : gmap Z Z;
  dupPackets : gmap (Z * Z) (Z * Z);
  duplicatedPackets : Z;
  droppedDuplicatedPackets : Z;
  duplicatedStreamBytes : Z;
}.

Definition set_quotas (v : gmap Z Z) (c : scheduler) : scheduler :=
  MkScheduler v (dupPackets c) (duplicatedPackets c) (droppedDuplicatedPackets c) (duplicatedStreamBytes c).
Definition set_dupPackets (v : gmap (Z * Z) (Z * Z)) (c : scheduler) : scheduler :=
  MkScheduler (quotas c) v (duplicatedPackets c) (droppedDuplicatedPackets c) (duplicatedStreamBytes c).
Definition set_duplicatedPackets (v : Z) (c : scheduler) : scheduler :=
  MkScheduler (quotas c) (dupPackets c) v (droppedDuplicatedPackets c) (duplicatedStreamBytes c).
Definition set_droppedDuplicatedPackets (v : Z) (c : scheduler) : scheduler :=
  MkScheduler (quotas c) (dupPackets c) (duplicatedPackets c) v (duplicatedStreamBytes c).
Definition set_duplicatedStreamBytes (v : Z) (c : scheduler) : scheduler :=
  MkScheduler (quotas c) (dupPackets c) (duplicatedPackets c) (droppedDuplicatedPackets c) v.

(** [setup] *)
Definition newScheduler : scheduler := MkScheduler ∅ ∅ 0 0 0.

(** *** session.go

    [closing] is the error in closeChan; the first one wins (closeOnce). [output] holds the
    packets written to the sockets with the path of each, [tick] counts the readings of the
    environment. The pointer rttStats is the estimator of the initial path. *)
Record closeError := MkCloseError { err : option error; remote : bool }.

(** A packet with the address it came from and the local address of the socket. *)
Record receivedPacket := MkReceivedPacket {
  fromAddr : net.UDPAddr;
  toAddr : net.UDPAddr;
  publicHeader : PublicHeader.PublicHeader;
  data : list Z;
  rcvTime : Z;
}.

(** path_manager.go *)
Record pathManager := MkPathManager {
  createsPaths : bool;
  launched : bool;
  nxtPathID : Z;
  remoteAddrs4 : list net.UDPAddr;
  remoteAddrs6 : list net.UDPAddr;
}.

Record session := MkSession {
  perspective : Perspective;
  version : Z;
  paths : gmap Z path;
  closedPaths : gset Z;
  streams : streamsMap;
  remoteRTTs : gmap Z Z;
  lastPathsFrameSent : Z;
  framer : streamFramer;
  flow : flowControlManager;
  packer : packetPacker;
  peerBlocked : bool;
  handshakeComplete : bool;
  sessionCreationTime : Z;
  sessionActivityTime : Z;
  keepAlivePingSent : bool;
  undecryptablePackets : list receivedPacket;
  tooManyUndecryptableTime : Z;
  receivedPackets : list receivedPacket;
  manager : pathManager;
  sched : scheduler;
  allSntPackets : Z;
  closing : option closeError;
  output : list (Z * packedPacket);
  tick : nat;
}.

Definition set_paths (v : gmap Z path) (s : session) : session :=
  MkSession
    (perspective s) (version s) v (closedPaths s) (streams s) (remoteRTTs s) (lastPathsFrameSent s) (framer s)
    (flow s) (packer s) (peerBlocked s) (handshakeComplete s) (sessionCreationTime s) (sessionActivityTime s)
    (keepAlivePingSent s) (undecryptablePackets s) (tooManyUndecryptableTime s) (receivedPackets s) (manager s)
    (sched s) (allSntPackets s) (closing s) (output s) (tick s).
Definition set_closedPaths (v : gset Z) (s : session) : session :=
  MkSession
    (perspective s) (version s) (paths s) v (streams s) (remoteRTTs s) (lastPathsFrameSent s) (framer s) (flow s)
    (packer s) (peerBlocked s) (handshakeComplete s) (sessionCreationTime s) (sessionActivityTime s)
    (keepAlivePingSent s) (undecryptablePackets s) (tooManyUndecryptableTime s) (receivedPackets s) (manager s)
    (sched s) (allSntPackets s) (closing s) (output s) (tick s).
Definition set_streams (v : streamsMap) (s : session) : session :=
  MkSession
    (perspective s) (version s) (paths s) (closedPaths s) v (remoteRTTs s) (lastPathsFrameSent s) (framer s) (flow s)
    (packer s) (peerBlocked s) (handshakeComplete s) (sessionCreationTime s) (sessionActivityTime s)
    (keepAlivePingSent s) (undecryptablePackets s) (tooManyUndecryptableTime s) (receivedPackets s) (manager s)
    (sched s) (allSntPackets s) (closing s) (output s) (tick s).
Definition set_remoteRTTs (v : gmap Z Z) (s : session) : session :=
  MkSession
    (perspective s) (version s) (paths s) (closedPaths s) (streams s) v (lastPathsFrameSent s) (framer s) (flow s)
    (packer s) (peerBlocked s) (handshakeComplete s) (sessionCreationTime s) (sessionActivityTime s)
    (keepAlivePingSent s) (undecryptablePackets s) (tooManyUndecryptableTime s) (receivedPackets s) (manager s)
    (sched s) (allSntPackets s) (closing s) (output s) (tick s).
Definition set_lastPathsFrameSent (v : Z) (s : session) : session :=
  MkSession
    (perspective s) (version s) (paths s) (closedPaths s) (streams s) (remoteRTTs s) v (framer s) (flow s) (packer s)
    (peerBlocked s) (handshakeComplete s) (sessionCreationTime s) (sessionActivityTime s) (keepAlivePingSent s)
    (undecryptablePackets s) (tooManyUndecryptableTime s) (receivedPackets s) (manager s) (sched s) (allSntPackets s)
    (closing s) (output s) (tick s).
Definition set_framer (v : streamFramer) (s : session) : session :=
  MkSession
    (perspective s) (version s) (paths s) (closedPaths s) (streams s) (remoteRTTs s) (lastPathsFrameSent s) v (flow s)
    (packer s) (peerBlocked s) (handshakeComplete s) (sessionCreationTime s) (sessionActivityTime s)
    (keepAlivePingSent s) (undecryptablePackets s) (tooManyUndecryptableTime s) (receivedPackets s) (manager s)
    (sched s) (allSntPackets s) (closing s) (output s) (tick s).
Definition set_flow (v : flowControlManager) (s : session) : session :=
  MkSession
    (perspective s) (version s) (paths s) (closedPaths s) (streams s) (remoteRTTs s) (lastPathsFrameSent s) (framer s)
    v (packer s) (peerBlocked s) (handshakeComplete s) (sessionCreationTime s) (sessionActivityTime s)
    (keepAlivePingSent s) (undecryptablePackets s) (tooManyUndecryptableTime s) (receivedPackets s) (manager s)
    (sched s) (allSntPackets s) (closing s) (output s) (tick s).
Definition set_packer (v : packetPacker) (s : session) : session :=
  MkSession
    (perspective s) (version s) (paths s) (closedPaths s) (streams s) (remoteRTTs s) (lastPathsFrameSent s) (framer s)
    (flow s) v (peerBlocked s) (handshakeComplete s) (sessionCreationTime s) (sessionActivityTime s)
    (keepAlivePingSent s) (undecryptablePackets s) (tooManyUndecryptableTime s) (receivedPackets s) (manager s)
    (sched s) (allSntPackets s) (closing s) (output s) (tick s).
Definition set_peerBlocked (v : bool) (s : session) : session :=
  MkSession
    (perspective s) (version s) (paths s) (closedPaths s) (streams s) (remoteRTTs s) (lastPathsFrameSent s) (framer s)
    (flow s) (packer s) v (handshakeComplete s) (sessionCreationTime s) (sessionActivityTime s) (keepAlivePingSent s)
    (undecryptablePackets s) (tooManyUndecryptableTime s) (receivedPackets s) (manager s) (sched s) (allSntPackets s)
    (closing s) (output s) (tick s).
Definition set_handshakeComplete (v : bool) (s : session) : session :=
  MkSession
    (perspective s) (version s) (paths s) (closedPaths s) (streams s) (remoteRTTs s) (lastPathsFrameSent s) (framer s)
    (flow s) (packer s) (peerBlocked s) v (sessionCreationTime s) (sessionActivityTime s) (keepAlivePingSent s)
    (undecryptablePackets s) (tooManyUndecryptableTime s) (receivedPackets s) (manager s) (sched s) (allSntPackets s)
    (closing s) (output s) (tick s).
Definition set_sessionCreationTime (v : Z) (s : session) : session :=
  MkSession
    (perspective s) (version s) (paths s) (closedPaths s) (streams s) (remoteRTTs s) (lastPathsFrameSent s) (framer s)
    (flow s) (packer s) (peerBlocked s) (handshakeComplete s) v (sessionActivityTime s) (keepAlivePingSent s)
    (undecryptablePackets s) (tooManyUndecryptableTime s) (receivedPackets s) (manager s) (sched s) (allSntPackets s)
    (closing s) (output s) (tick s).
Definition set_sessionActivityTime (v : Z) (s : session) : session :=
  MkSession
    (perspective s) (version s) (paths s) (closedPaths s) (streams s) (remoteRTTs s) (lastPathsFrameSent s) (framer s)
    (flow s) (packer s) (peerBlocked s) (handshakeComplete s) (sessionCreationTime s) v (keepAlivePingSent s)
    (undecryptablePackets s) (tooManyUndecryptableTime s) (receivedPackets s) (manager s) (sched s) (allSntPackets s)
    (closing s) (output s) (tick s).
Definition set_keepAlivePingSent (v : bool) (s : session) : session :=
  MkSession
    (perspective s) (version s) (paths s) (closedPaths s) (streams s) (remoteRTTs s) (lastPathsFrameSent s) (framer s)
    (flow s) (packer s) (peerBlocked s) (handshakeComplete s) (sessionCreationTime s) (sessionActivityTime s) v
    (undecryptablePackets s) (tooManyUndecryptableTime s) (receivedPackets s) (manager s) (sched s) (allSntPackets s)
    (closing s) (output s) (tick s).
Definition set_undecryptablePackets (v : list receivedPacket) (s : session) : session :=
  MkSession
    (perspective s) (version s) (paths s) (closedPaths s) (streams s) (remoteRTTs s) (lastPathsFrameSent s) (framer s)
    (flow s) (packer s) (peerBlocked s) (handshakeComplete s) (sessionCreationTime s) (sessionActivityTime s)
    (keepAlivePingSent s) v (tooManyUndecryptableTime s) (receivedPackets s) (manager s) (sched s) (allSntPackets s)
    (closing s) (output s) (tick s).
Definition set_tooManyUndecryptableTime (v : Z) (s : session) : session :=
  MkSession
    (perspective s) (version s) (paths s) (closedPaths s) (streams s) (remoteRTTs s) (lastPathsFrameSent s) (framer s)
    (flow s) (packer s) (peerBlocked s) (handshakeComplete s) (sessionCreationTime s) (sessionActivityTime s)
    (keepAlivePingSent s) (undecryptablePackets s) v (receivedPackets s) (manager s) (sched s) (allSntPackets s)
    (closing s) (output s) (tick s).
Definition set_receivedPackets (v : list receivedPacket) (s : session) : session :=
  MkSession
    (perspective s) (version s) (paths s) (closedPaths s) (streams s) (remoteRTTs s) (lastPathsFrameSent s) (framer s)
    (flow s) (packer s) (peerBlocked s) (handshakeComplete s) (sessionCreationTime s) (sessionActivityTime s)
    (keepAlivePingSent s) (undecryptablePackets s) (tooManyUndecryptableTime s) v (manager s) (sched s)
    (allSntPackets s) (closing s) (output s) (tick s).
Definition set_manager (v : pathManager) (s : session) : session :=
  MkSession
    (perspective s) (version s) (paths s) (closedPaths s) (streams s) (remoteRTTs s) (lastPathsFrameSent s) (framer s)
    (flow s) (packer s) (peerBlocked s) (handshakeComplete s) (sessionCreationTime s) (sessionActivityTime s)
    (keepAlivePingSent s) (undecryptablePackets s) (tooManyUndecryptableTime s) (receivedPackets s) v (sched s)
    (allSntPackets s) (closing s) (output s) (tick s).
Definition set_sched (v : scheduler) (s : session) : session :=
  MkSession
    (perspective s) (version s) (paths s) (closedPaths s) (streams s) (remoteRTTs s) (lastPathsFrameSent s) (framer s)
    (flow s) (packer s) (peerBlocked s) (handshakeComplete s) (sessionCreationTime s) (sessionActivityTime s)
    (keepAlivePingSent s) (undecryptablePackets s) (tooManyUndecryptableTime s) (receivedPackets s) (manager s) v
    (allSntPackets s) (closing s) (output s) (tick s).
Definition set_allSntPackets (v : Z) (s : session) : session :=
  MkSession
    (perspective s) (version s) (paths s) (closedPaths s) (streams s) (remoteRTTs s) (lastPathsFrameSent s) (framer s)
    (flow s) (packer s) (peerBlocked s) (handshakeComplete s) (sessionCreationTime s) (sessionActivityTime s)
    (keepAlivePingSent s) (undecryptablePackets s) (tooManyUndecryptableTime s) (receivedPackets s) (manager s)
    (sched s) v (closing s) (output s) (tick s).
Definition set_closing (v : option closeError) (s : session) : session :=
  MkSession
    (perspective s) (version s) (paths s) (closedPaths s) (streams s) (remoteRTTs s) (lastPathsFrameSent s) (framer s)
    (flow s) (packer s) (peerBlocked s) (handshakeComplete s) (sessionCreationTime s) (sessionActivityTime s)
    (keepAlivePingSent s) (undecryptablePackets s) (tooManyUndecryptableTime s) (receivedPackets s) (manager s)
    (sched s) (allSntPackets s) v (output s) (tick s).
Definition set_output (v : list (Z * packedPacket)) (s : session) : session :=
  MkSession
    (perspective s) (version s) (paths s) (closedPaths s) (streams s) (remoteRTTs s) (lastPathsFrameSent s) (framer s)
    (flow s) (packer s) (peerBlocked s) (handshakeComplete s) (sessionCreationTime s) (sessionActivityTime s)
    (keepAlivePingSent s) (undecryptablePackets s) (tooManyUndecryptableTime s) (receivedPackets s) (manager s)
    (sched s) (allSntPackets s) (closing s) v (tick s).
Definition set_tick (v : nat) (s : session) : session :=
  MkSession
    (perspective s) (version s) (paths s) (closedPaths s) (streams s) (remoteRTTs s) (lastPathsFrameSent s) (framer s)
    (flow s) (packer s) (peerBlocked s) (handshakeComplete s) (sessionCreationTime s) (sessionActivityTime s)
    (keepAlivePingSent s) (undecryptablePackets s) (tooManyUndecryptableTime s) (receivedPackets s) (manager s)
    (sched s) (allSntPackets s) (closing s) (output s) v.
Definition ticked (s : session) : session := set_tick (S (tick s)) s.

End state.

(** ** The monad *)
Section monad.
Context {R C : Type}.
Notation session := (@session R C).

Definition M (A : Type) : Type := session → result session A.

#[global] Instance M_ret : MRet M := λ A a s, Done s a.
#[global] Instance M_bind : MBind M := λ A B k m s,
  match m s with
  | Done s a => k a s
  | Fails s e => Fails s e
  | Panics s => Panics s
  | Blocks s => Blocks s
  | Runs s => Runs s
  end.

Definition get : M session := λ s, Done s s.
Definition modify (f : session → session) : M unit := λ s, Done (f s) tt.
Definition raise {A} (e : error) : M A := λ s, Fails s e.
Definition crash {A} : M A := λ s, Panics s.
Definition block {A} : M A := λ s, Blocks s.
Definition runs {A} : M A := λ s, Runs s.

(** A call whose error the caller looks at. *)
Definition try {A} (m : M A) : M (A + error) := λ s,
  match m s with
  | Done s a => Done s (inl a)
  | Fails s e => Done s (inr e)
  | Panics s => Panics s
  | Blocks s => Blocks s
  | Runs s => Runs s
  end.

(** [if err != nil { return err }] *)
Definition raise_if (e : option error) : M unit := match e with Some e => raise e | None => mret tt end.

Fixpoint forM {A} (l : list A) (body : A → M unit) : M unit :=
  match l with
  | [] => mret tt
  | x :: l => body x ≫= λ _, forM l body
  end.

(** The pointer to a path; a nil pointer that is used panics. *)
Definition getPath (id : Z) : M path := λ s,
  match paths s !! id with Some p => Done s p | None => Panics s end.
Definition putPath (id : Z) (p : path) : M unit := modify (λ s, set_paths (<[id := p]> (paths s)) s).
Definition updatePath (id : Z) (f : path → path) : M unit := getPath id ≫= λ p, putPath id (f p).
Definition updateSched (f : scheduler → scheduler) : M unit := modify (λ s, set_sched (f (sched s)) s).

End monad.

(** ** Operations that the scheduler and the handlers share *)
Section operations.
Context {R C : Type} `{!RTTStats R, !SendAlgorithm R C, !SessionRTT R}.
Context (e : env) (cp : ConnectionParameters) (lim : StreamLimits) (cryptoSetup : CryptoSetup) (truncate : bool).
Notation session := (@session R C).
Notation path := (@path R C).
Notation M := (@M R C).

Definition reading {A} (f : nat → A) : M A := λ s, Done (ticked s) (f (tick s)).
Definition now : M Z := reading (clock e).

(** A traversal of a map, in an order that the environment chooses. *)
Definition range {A} (f : session → gmap Z A) : M (list Z) :=
  get ≫= λ s, reading (λ t, shuffle e t (map_to_list (f s)).*1).

(** *** path.go *)

Definition SendingAllowed (p : path) : bool := open p && sentPacketHandler.SendingAllowed (sent p).

Definition GetStopWaitingFrame (force : bool) (id : Z) : M (option StopWaitingFrame.StopWaitingFrame) :=
  p ← getPath id;
  let '(h, f) := sentPacketHandler.GetStopWaitingFrame (sent p) force in
  putPath id (set_sent h p);; mret f.

Definition with_PathID (id : Z) (f : AckFrame.AckFrame) : AckFrame.AckFrame :=
  AckFrame.MkAckFrame id (AckFrame.LargestAcked f) (AckFrame.LowestAcked f) (AckFrame.AckRanges f)
    (AckFrame.PacketReceivedTime f) (AckFrame.DelayTime f).

Definition GetAckFrame (id : Z) : M (option AckFrame.AckFrame) :=
  t ← now; p ← getPath id;
  let '(h, r) := receivedPacketHandler.GetAckFrame (received p) t in
  match r with
  | Ok ack => putPath id (set_received h p);; mret (with_PathID (pathID p) <$> ack)
  | _ => crash
  end.

(** *** Sending *)

(** [pth.sentPacket <- struct{}{}] *)
Definition signalSent (id : Z) : M unit :=
  p ← getPath id;
  if open p then mret tt
  else if sentPacketFull p then block
  else putPath id (set_sentPacketFull true p).

Definition logPacket (id : Z) (packet : packedPacket) : M unit :=
  modify (λ s, set_allSntPackets (u64 (allSntPackets s + 1)) s).

(** [pth.conn.Write(packet.raw)] *)
Definition write (id : Z) (packet : packedPacket) : M unit :=
  modify (λ s, set_output (output s ++ [(id, packet)]) s);;
  r ← reading (writeResult e); raise_if r.

Definition ackhandlerPacket (packet : packedPacket) : Packet :=
  MkPacket (packetPacker.number packet) (packetPacker.frames packet) (u64 (len (packetPacker.raw packet)))
    (packetPacker.encryptionLevel packet) time.zero.

Definition sendPackedPacket (packet : option packedPacket) (id : Z) : M unit :=
  match packet with
  | None => crash
  | Some packet =>
      t ← now; p ← getPath id;
      let '(h, r) := sentPacketHandler.SentPacket (sent p) t (ackhandlerPacket packet) in
      putPath id (set_sent h p);;
      raise_if r;;
      signalSent id;;
      logPacket id packet;;
      write id packet
  end.

(** What the packer uses of the session and of a path. *)
Definition world_of (s : session) (p : path) : packetPacker.world :=
  packetPacker.MkWorld (packer s) (framer s) (streams s) (flow s)
    (packetPacker.MkPath (pathID p) (generator p) (leastUnacked p) (handshakeComplete s)).
Definition of_world (w : packetPacker.world) (s : session) : session :=
  set_packer (packetPacker.packer w) (set_framer (packetPacker.framer w)
    (set_streams (packetPacker.streams w) (set_flow (packetPacker.flow w) s))).
Definition of_packerPath (q : packetPacker.packerPath) (p : path) : path :=
  set_generator (packetPacker.generator q) (SetLeastUnacked (packetPacker.leastUnacked q) p).

(** A call of a method of the packer for a path. *)
Definition pack {A} (id : Z) (f : Z → option (Z * Z) → packetPacker.world → outcome (packetPacker.world * (A + error))) : M A :=
  t ← now; r ← reading (random e); p ← getPath id; s ← get;
  match f t r (world_of s p) with
  | Ok (w, a) =>
      modify (of_world w);; putPath id (of_packerPath (packetPacker.pth w) p);;
      match a with inl a => mret a | inr err => raise err end
  | _ => crash
  end.

(** A control frame that is not for the maps of a path, queued without looking at the path. *)
Definition queueFrame (f : Frame) : M unit :=
  modify (λ s, set_packer (packetPacker.set_controlFrames (packetPacker.controlFrames (packer s) ++ [f]) (packer s)) s).
Definition QueueControlFrame (f : Frame) (id : Z) : M unit :=
  p ← getPath id; modify (λ s, of_world (packetPacker.QueueControlFrame f (world_of s p)) s).

(** A nil frame of these types clears the entry of the path. *)
Definition queueStopWaiting (f : option StopWaitingFrame.StopWaitingFrame) (id : Z) : M unit :=
  match f with
  | Some f => QueueControlFrame (FStopWaiting f) id
  | None => p ← getPath id; modify (λ s, of_world (packetPacker.dropStopWaiting (world_of s p)) s)
  end.
Definition queueAck (f : option AckFrame.AckFrame) (id : Z) : M unit :=
  match f with
  | Some f => QueueControlFrame (FAck f) id
  | None => p ← getPath id; modify (λ s, of_world (packetPacker.dropAckFrame (world_of s p)) s)
  end.

Definition PackPacket (id : Z) : M (option packedPacket) := pack id (packetPacker.PackPacket cp lim cryptoSetup truncate).
Definition PackAckPacket (id : Z) : M (option packedPacket) := pack id (packetPacker.PackAckPacket cryptoSetup truncate).
Definition PackHandshakeRetransmission (packet : Packet) (id : Z) : M (option packedPacket) :=
  pack id (packetPacker.PackHandshakeRetransmission cryptoSetup truncate packet).

Definition errPingNil : error := NewError "Session BUG: expected ping packet not to be nil".

Definition sendPing (id : Z) : M unit :=
  p ← getPath id;
  packet ← pack id (packetPacker.PackPing cp lim cryptoSetup truncate PingFrame.MkPingFrame
                      (sentPacketHandler.GetLeastUnacked (sent p)));
  match packet with None => raise errPingNil | Some _ => sendPackedPacket packet id end.

(** *** PATHS frames, window updates, closing *)

Definition schedulePathsFrame : M unit :=
  t ← now;
  modify (set_lastPathsFrameSent t);;
  ids ← range paths;
  modify (λ s, set_framer (streamFramer.AddPathsFrameForTransmission
    (omap (λ id, (λ p, (id, potentiallyFailed p, SmoothedRTT (rttStats p))) <$> paths s !! id) ids) (framer s)) s).

Definition sessionRTT (s : session) : Z := from_option (λ p, SmoothedRTT (rttStats p)) 0 (paths s !! InitialPathID).

Definition getWindowUpdateFrames (force : bool) : M (list WindowUpdateFrame.WindowUpdateFrame) :=
  ids ← range (λ s, flowControlManager.streamFlowController (flow s));
  c ← reading (windowClock e); s ← get;
  let clocks id := MkClock (c id).1 (c id).2 (sessionRTT s) (remoteRTTs s) in
  let '(f, updates) := flowControlManager.GetWindowUpdates clocks force ids (flow s) in
  modify (set_flow f);;
  mret ((λ u, WindowUpdateFrame.MkWindowUpdateFrame (flowControlManager.StreamID u) (flowControlManager.Offset u)) <$> updates).

Definition close_with (c : closeError) : M unit :=
  modify (λ s, match closing s with None => set_closing (Some c) s | Some _ => s end).
Definition closeLocal (err : option error) : M unit := close_with (MkCloseError err false).
Definition closeRemote (err : error) : M unit := close_with (MkCloseError (Some err) true).

(** *** scheduler.go: a packet that was acknowledged may have been sent on another path too *)
Definition crossAckHandling (pathID packetNumber : Z) : M unit :=
  let dupKey := (pathID, packetNumber) in
  s ← get;
  match dupPackets (sched s) !! dupKey with
  | None => mret tt
  | Some dupEntry =>
      p ← getPath dupEntry.1;
      let '(h, removed) := sentPacketHandler.RemovePacketByNumber (sent p) dupEntry.2 in
      putPath dupEntry.1 (set_sent h p);;
      (if (removed : bool) then updateSched (λ c, set_droppedDuplicatedPackets (u64 (droppedDuplicatedPackets c + 1)) c) else mret tt);;
      updateSched (λ c, set_dupPackets (delete dupEntry (dupPackets c)) c)
  end;;
  updateSched (λ c, set_dupPackets (delete dupKey (dupPackets c)) c).

End operations.
End session.
