(* ===== verification/Scheduler.v ===== *)
(** * The scheduler

    [scheduler.go]: which path a packet is sent on, what is sent again, and the loop that
    sends until there is nothing more to send or no path to send it on. The quota of a path
    counts the packets that were sent on it. *)

From S2P Require Import Prelude Protocol ByteOrder AckFrames Frames PublicHeader ReceivedPackets GoFloat SentPackets FlowControl FrameSorter.
From S2P Require Import Stream StreamsMap StreamFramer PacketPacker Session.

Module scheduler.
Import protocol session.
Import packetPacker (packedPacket).
Import WindowUpdateFrame (WindowUpdateFrame).

(** The global variable SchedulerAlgorithm. *)
Definition lowRTT : string := "lowRTT".
Definition RR : string := "RR".
Definition oppRedundant : string := "oppRedundant".

(** ** Selection of a path *)
Section selection.
Context {R C : Type} `{!RTTStats R, !SendAlgorithm R C}.
Notation path := (@path R C).

(** Each selection starts with this: with one path only, the initial path is used. *)
Definition onlyPath (paths : gmap Z path) (hasRetransmission : bool) : outcome (option Z) :=
  match paths !! InitialPathID with
  | None => if hasRetransmission then Ok None else Panic
  | Some p => if negb hasRetransmission && negb (SendingAllowed p) then Ok None else Ok (Some InitialPathID)
  end.

(** The three guards at the beginning of the loops over the paths. *)
Definition skipped (hasRetransmission : bool) (id : Z) (p : path) : bool :=
  (negb hasRetransmission && negb (SendingAllowed p)) || potentiallyFailed p || (id =? InitialPathID).

Definition maxUint : Z := 18446744073709551615.

Fixpoint roundRobinLoop (hasRetransmission : bool) (order : list (Z * path)) (quotas : gmap Z Z)
    (selected : option Z) (lowerQuota : Z) : gmap Z Z * option Z :=
  match order with
  | [] => (quotas, selected)
  | (id, p) :: order =>
      if skipped hasRetransmission id p then roundRobinLoop hasRetransmission order quotas selected lowerQuota
      else
        let '(quotas, currentQuota) :=
          match quotas !! id with Some q => (quotas, q) | None => (<[id := 0]> quotas, 0) end in
        if currentQuota <? lowerQuota then roundRobinLoop hasRetransmission order quotas (Some id) currentQuota
        else roundRobinLoop hasRetransmission order quotas selected lowerQuota
  end.

Definition selectPathRoundRobin (paths : gmap Z path) (order : list (Z * path)) (quotas : gmap Z Z)
    (hasRetransmission : bool) : outcome (gmap Z Z * option Z) :=
  if Z.of_nat (size paths) <=? 1 then r ← onlyPath paths hasRetransmission; Ok (quotas, r)
  else Ok (roundRobinLoop hasRetransmission order quotas None maxUint).

(** A path other than the one of the retransmission on which fewer packets were sent; a
    quota that is missing is 0. *)
Definition quotaOf (quotas : gmap Z Z) (id : Z) : Z := default 0 (quotas !! id).

Fixpoint lessUsed (fromPth : Z) (order : list (Z * path)) (quotas : gmap Z Z) : option Z :=
  match order with
  | [] => None
  | (id, _) :: order =>
      if (id =? InitialPathID) || (id =? fromPth) then lessUsed fromPth order quotas
      else if quotaOf quotas id <? quotaOf quotas fromPth then Some id
      else lessUsed fromPth order quotas
  end.

Fixpoint lowLatencyLoop (hasRetransmission : bool) (order : list (Z * path)) (quotas : gmap Z Z)
    (selected : option Z) (lowerRTT : Z) : gmap Z Z * option Z :=
  match order with
  | [] => (quotas, selected)
  | (id, p) :: order =>
      if skipped hasRetransmission id p then lowLatencyLoop hasRetransmission order quotas selected lowerRTT
      else
        let currentRTT := SmoothedRTT (rttStats p) in
        if negb (lowerRTT =? 0) && (currentRTT =? 0) then lowLatencyLoop hasRetransmission order quotas selected lowerRTT
        else
          let '(quotas, more) :=
            if currentRTT =? 0 then
              let '(quotas, currentQuota) :=
                match quotas !! id with Some q => (quotas, q) | None => (<[id := 0]> quotas, 0) end in
              let lowerQuota := quotaOf quotas (default 255 selected) in
              (quotas, bool_decide (is_Some selected) && (lowerQuota <? currentQuota))
            else (quotas, false) in
          if more then lowLatencyLoop hasRetransmission order quotas selected lowerRTT
          else if negb (currentRTT =? 0) && negb (lowerRTT =? 0) && bool_decide (is_Some selected) && (lowerRTT <=? currentRTT)
          then lowLatencyLoop hasRetransmission order quotas selected lowerRTT
          else lowLatencyLoop hasRetransmission order quotas (Some id) currentRTT
  end.

(** [order1] and [order2] are the orders of the two loops; fromPth is the path of the
    retransmission, if there is one. *)
Definition selectPathLowLatency (paths : gmap Z path) (order1 order2 : list (Z * path)) (quotas : gmap Z Z)
    (hasRetransmission hasStreamRetransmission : bool) (fromPth : option Z) : outcome (gmap Z Z * option Z) :=
  if Z.of_nat (size paths) <=? 1 then r ← onlyPath paths hasRetransmission; Ok (quotas, r)
  else
    less ← (if hasRetransmission && hasStreamRetransmission then
              match fromPth ≫= (paths !!.) with
              | None => Panic
              | Some p => if SmoothedRTT (rttStats p) =? 0 then Ok (lessUsed (pathID p) order1 quotas) else Ok None
              end
            else Ok None : outcome (option Z));
    match less with
    | Some id => Ok (quotas, Some id)
    | None => Ok (lowLatencyLoop hasRetransmission order2 quotas None 0)
    end.

Fixpoint freeLoop (hasRetransmission : bool) (order : list (Z * path)) : option Z :=
  match order with
  | [] => None
  | (id, p) :: order => if skipped hasRetransmission id p then freeLoop hasRetransmission order else Some id
  end.

Definition selectFreePath (paths : gmap Z path) (order : list (Z * path)) (hasRetransmission : bool) : outcome (option Z) :=
  if Z.of_nat (size paths) <=? 1 then onlyPath paths hasRetransmission else Ok (freeLoop hasRetransmission order).

Fixpoint redundantLoop (hasRetransmission : bool) (order : list (Z * path)) : list Z :=
  match order with
  | [] => []
  | (id, p) :: order =>
      if skipped hasRetransmission id p then redundantLoop hasRetransmission order
      else id :: redundantLoop hasRetransmission order
  end.

(** The paths; a nil pointer in the result is the identifier of the missing initial path. *)
Definition selectRedundantPaths (paths : gmap Z path) (order : list (Z * path)) (hasRetransmission : bool) : outcome (list Z) :=
  if Z.of_nat (size paths) <=? 1 then
    match paths !! InitialPathID with
    | None => if hasRetransmission then Ok [InitialPathID] else Panic
    | Some p => if negb hasRetransmission && negb (SendingAllowed p) then Ok [] else Ok [InitialPathID]
    end
  else Ok (redundantLoop hasRetransmission order).

End selection.

(** ** Sending *)
Section sending.
Context {R C : Type} `{!RTTStats R, !SendAlgorithm R C, !SessionRTT R}.
Context (e : env) (cp : ConnectionParameters) (lim : StreamLimits) (cryptoSetup : CryptoSetup) (truncate : bool).
Context (SchedulerAlgorithm : string).
Notation session := (@session R C).
Notation path := (@path R C).
Notation M := (@M R C).

(** A traversal of the map of paths. *)
Definition rangePaths : M (list (Z * path)) :=
  ids ← range e paths; s ← get; mret (omap (λ id, pair id <$> paths s !! id) ids).

Definition lift {A} (o : outcome A) : M A := match o with Ok a => mret a | Err err => raise err | Panic => crash end.

Definition selectPath (hasRetransmission hasStreamRetransmission : bool) (fromPth : option Z) : M (option Z) :=
  order1 ← rangePaths; order2 ← rangePaths; s ← get;
  let qs := quotas (sched s) in
  if bool_decide (SchedulerAlgorithm = RR) then
    '(qs, r) ← lift (selectPathRoundRobin (paths s) order1 qs hasRetransmission);
    updateSched (set_quotas qs);; mret r
  else if bool_decide (SchedulerAlgorithm = oppRedundant) then
    lift (selectFreePath (paths s) order1 hasRetransmission)
  else
    '(qs, r) ← lift (selectPathLowLatency (paths s) order1 order2 qs hasRetransmission hasStreamRetransmission fromPth);
    updateSched (set_quotas qs);; mret r.

(** *** Retransmissions *)

(** The first path, in the order of the traversal, with a packet to send again. *)
Fixpoint dequeueFirst (ids : list Z) : M (option (Packet * Z)) :=
  match ids with
  | [] => mret None
  | id :: ids =>
      p ← getPath id;
      let '(h, packet) := sentPacketHandler.DequeuePacketForRetransmission (sent p) in
      putPath id (set_sent h p);;
      match packet with Some packet => mret (Some (packet, id)) | None => dequeueFirst ids end
  end.

Definition resendFrame (id : Z) (frame : Frame) : M unit :=
  match frame with
  | FStream f => modify (λ s, set_framer (streamFramer.AddFrameForRetransmission f (framer s)) s)
  | FWindowUpdate f =>
      s ← get;
      match flowControlManager.GetReceiveWindow (WindowUpdateFrame.StreamID f) (flow s) with
      | inl currentOffset =>
          if currentOffset <=? WindowUpdateFrame.ByteOffset f then QueueControlFrame frame id else mret tt
      | inr _ => mret tt
      end
  | FPaths _ => schedulePathsFrame e
  | _ => QueueControlFrame frame id
  end.

(** Every iteration takes a packet from a queue. *)
Fixpoint retransmissionLoop (fuel : nat) (hasRetransmission : bool) (pth : option Z) : M (bool * option Packet * option Z) :=
  match fuel with
  | O => runs
  | S fuel =>
      ids ← range e paths;
      r ← dequeueFirst ids;
      match r with
      | None => mret (hasRetransmission, None, pth)
      | Some (packet, id) =>
          if bool_decide (EncLevel packet ≠ EncryptionForwardSecure) then
            s ← get;
            if handshakeComplete s then retransmissionLoop fuel true (Some id)
            else mret (true, Some packet, Some id)
          else
            forM (Packet.GetFramesForRetransmission (Frames packet)) (resendFrame id);;
            retransmissionLoop fuel true (Some id)
      end
  end.

Definition queuedPackets (s : session) : nat :=
  map_fold (λ _ p n, (length (sentPacketHandler.retransmissionQueue (sent p)) + n)%nat) 0%nat (paths s).

Definition getRetransmission : M (bool * option Packet * option Z) :=
  s ← get; retransmissionLoop (S (queuedPackets s)) false None.

(** *** Packets *)

Definition performPacketSending (windowUpdateFrames : list WindowUpdateFrame) (id : Z) : M (option Packet) :=
  p ← getPath id;
  (if sentPacketHandler.ShouldSendRetransmittablePacket (sent p) then QueueControlFrame (FPing PingFrame.MkPingFrame) id else mret tt);;
  packet ← PackPacket e cp lim cryptoSetup truncate id;
  match packet with
  | None => mret None
  | Some pkt =>
      sendPackedPacket e packet id;;
      forM windowUpdateFrames (λ f, QueueControlFrame (FWindowUpdate f) id);;
      p ← getPath id;
      updateSched (λ c, set_quotas (<[pathID p := u64 (quotaOf (quotas c) (pathID p) + 1)]> (quotas c)) c);;
      mret (Some (ackhandlerPacket pkt))
  end.

(** One iteration of the loop of ackRemainingPaths. *)
Definition ackPath (windowUpdateFrames : list WindowUpdateFrame) (id : Z) : M unit :=
  ackTmp ← GetAckFrame e id;
  forM windowUpdateFrames (λ f, QueueControlFrame (FWindowUpdate f) id);;
  if bool_decide (is_Some ackTmp) || (0 <? len windowUpdateFrames) then
    p ← getPath id;
    if (pathID p =? InitialPathID) && bool_decide (ackTmp = None) then mret tt
    else
      swf ← GetStopWaitingFrame false id;
      (match swf with Some f => QueueControlFrame (FStopWaiting f) id | None => mret tt end);;
      queueAck ackTmp id;;
      packet ← (match ackTmp with
                | Some _ => PackAckPacket e cryptoSetup truncate id
                | None => PackPacket e cp lim cryptoSetup truncate id
                end);
      sendPackedPacket e packet id
  else mret tt.

Definition ackRemainingPaths (totalWindowUpdateFrames : list WindowUpdateFrame) : M unit :=
  s ← get;
  windowUpdateFrames ← (if len totalWindowUpdateFrames =? 0 then getWindowUpdateFrames e (peerBlocked s) else mret totalWindowUpdateFrames);
  ids ← range e paths;
  forM ids (ackPath windowUpdateFrames);;
  modify (set_peerBlocked false).

(** The frames that are queued before a packet is packed. *)
Definition queueFrames (hasStreamRetransmission : bool) (id : Z) : M unit :=
  ack ← GetAckFrame e id;
  (match ack with Some f => QueueControlFrame (FAck f) id | None => mret tt end);;
  (if bool_decide (is_Some ack) || hasStreamRetransmission then
     swf ← GetStopWaitingFrame hasStreamRetransmission id;
     match swf with Some f => QueueControlFrame (FStopWaiting f) id | None => mret tt end
   else mret tt).

(** The three loops that empty the queues of the framer. *)
Fixpoint queueClosePaths (fuel : nat) (id : Z) : M unit :=
  match fuel with
  | O => runs
  | S fuel =>
      s ← get;
      let '(q, cpf) := streamFramer.PopClosePathFrame (framer s) in
      modify (set_framer q);;
      match cpf with None => mret tt | Some f => QueueControlFrame (FClosePath f) id;; queueClosePaths fuel id end
  end.
Fixpoint queueAddAddresses (fuel : nat) (id : Z) : M unit :=
  match fuel with
  | O => runs
  | S fuel =>
      s ← get;
      let '(q, aaf) := streamFramer.PopAddAddressFrame (framer s) in
      modify (set_framer q);;
      match aaf with None => mret tt | Some f => QueueControlFrame (FAddAddress f) id;; queueAddAddresses fuel id end
  end.
Fixpoint queuePaths (fuel : nat) (id : Z) : M unit :=
  match fuel with
  | O => runs
  | S fuel =>
      s ← get;
      let '(q, pf) := streamFramer.PopPathsFrame (framer s) in
      modify (set_framer q);;
      match pf with None => mret tt | Some f => QueueControlFrame (FPaths f) id;; queuePaths fuel id end
  end.
Definition queueFramerFrames (id : Z) : M unit :=
  s ← get;
  queueClosePaths (S (length (streamFramer.closePathFrameQueue (framer s)))) id;;
  queueAddAddresses (S (length (streamFramer.addAddressFrameQueue (framer s)))) id;;
  queuePaths 2 id.

(** A packet that was sent on a path with an unknown RTT is queued to be sent again when a
    path that has sent less may send. *)
Fixpoint duplicateLoop (pth : Z) (pkt : Packet) (currentQuota : Z) (order : list (Z * path)) : M unit :=
  match order with
  | [] => mret tt
  | (id, tmpPth) :: order =>
      if (id =? InitialPathID) || (id =? pth) then duplicateLoop pth pkt currentQuota order
      else
        s ← get;
        if (quotaOf (quotas (sched s)) id <? currentQuota) && sentPacketHandler.SendingAllowed (sent tmpPth)
        then updatePath pth (λ p, set_sent (sentPacketHandler.DuplicatePacket (sent p) pkt) p)
        else duplicateLoop pth pkt currentQuota order
  end.
Definition maybeDuplicate (id : Z) (pkt : Packet) : M unit :=
  p ← getPath id;
  if (SmoothedRTT (rttStats p) =? 0) && negb (bool_decide (SchedulerAlgorithm = oppRedundant)) then
    s ← get; order ← rangePaths;
    duplicateLoop (pathID p) pkt (quotaOf (quotas (sched s)) (pathID p)) order
  else mret tt.

(** One iteration of the loop of the redundant scheduler: the frames are sent on another
    path too. *)
Definition sendRedundant (pth : Z) (pkt : Packet) (redundantFrames : list Frame) (redPth : Z) : M unit :=
  if (redPth =? InitialPathID) || (redPth =? pth) then mret tt
  else
    let '(encLevel, sealer) := GetSealer cryptoSetup in
    r ← try (pack e redPth (λ t r w,
      let ph := packetPacker.getPublicHeader cryptoSetup truncate encLevel w in
      packetPacker.packed ph redundantFrames encLevel t
        (packetPacker.writeAndSealPacket ph redundantFrames sealer t r w)));
    match r with
    | inl (Some dupPkt) =>
        updateSched (λ c, set_duplicatedPackets (u64 (duplicatedPackets c + 1)) c);;
        updateSched (λ c, set_dupPackets (<[(pth, PacketNumber pkt) := (redPth, packetPacker.number dupPkt)]> (dupPackets c)) c);;
        (if Packet.IsDupDropable (Frames pkt)
         then updateSched (λ c, set_dupPackets (<[(redPth, packetPacker.number dupPkt) := (pth, PacketNumber pkt)]> (dupPackets c)) c)
         else mret tt);;
        r ← try (sendPackedPacket e (Some dupPkt) redPth);
        match r with
        | inl _ => updateSched (λ c, set_duplicatedStreamBytes
                     (u64 (duplicatedStreamBytes c + Packet.GetStreamFrameLength (Frames pkt) 0)) c)
        | inr _ => mret tt
        end
    | _ => mret tt
    end.

(** Whether the loop goes on. *)
Definition maybeRedundant (id : Z) (pths : list Z) (pkt : Packet) : M bool :=
  if bool_decide (SchedulerAlgorithm = oppRedundant) then
    match Packet.GetCopyFrames (Frames pkt) with
    | None => mret false
    | Some redundantFrames => forM pths (sendRedundant id pkt redundantFrames);; mret true
    end
  else mret true.

Definition pingFailed (fromPth : option Z) : M unit :=
  match fromPth with
  | None => mret tt
  | Some id => p ← getPath id; if potentiallyFailed p then sendPing e cp lim cryptoSetup truncate id else mret tt
  end.

(** The loop of sendPacket. *)
Fixpoint sendLoop (fuel : nat) (windowUpdateFrames : list WindowUpdateFrame) : M unit :=
  match fuel with
  | O => runs
  | S fuel =>
      '(hasRetransmission, retransmitHandshakePacket, fromPth) ← getRetransmission;
      s ← get;
      let hasStreamRetransmission := streamFramer.HasFramesForRetransmission (framer s) in
      pth ← selectPath hasRetransmission hasStreamRetransmission fromPth;
      order ← rangePaths; s ← get;
      pths ← lift (selectRedundantPaths (paths s) order hasRetransmission);
      match pth with
      | None => wufs ← getWindowUpdateFrames e false; ackRemainingPaths wufs
      | Some id =>
          match hasRetransmission, retransmitHandshakePacket with
          | true, Some handshakePacket =>
              swf ← GetStopWaitingFrame true id;
              queueStopWaiting swf id;;
              packet ← PackHandshakeRetransmission e cryptoSetup truncate handshakePacket id;
              sendPackedPacket e packet id;;
              sendLoop fuel windowUpdateFrames
          | _, _ =>
              queueFrames hasStreamRetransmission id;;
              queueFramerFrames id;;
              pkt ← performPacketSending windowUpdateFrames id;
              match pkt with
              | None => ackRemainingPaths []
              | Some pkt =>
                  maybeDuplicate id pkt;;
                  goes_on ← maybeRedundant id pths pkt;
                  if (goes_on : bool) then pingFailed fromPth;; sendLoop fuel []
                  else ackRemainingPaths []
              end
          end
      end
  end.

(** [fuel] bounds the number of packets. *)
Definition sendPacket (fuel : nat) : M unit :=
  ids ← range e paths;
  forM ids (λ id, updatePath id (λ p, SetLeastUnacked (sentPacketHandler.GetLeastUnacked (sent p)) p));;
  windowUpdateFrames ← getWindowUpdateFrames e false;
  forM windowUpdateFrames (λ f, queueFrame (FWindowUpdate f));;
  sendLoop fuel windowUpdateFrames.

End sending.
End scheduler.

(** ** Which path is selected *)
Section selected.
Import protocol session scheduler.
Context {R C : Type} `{!RTTStats R, !SendAlgorithm R C, !SessionRTT R}.
Notation path := (@path R C).
Implicit Types (order : list (Z * path)) (x : Z * path).

Definition eligible (has : bool) (order : list (Z * path)) : list (Z * path) :=
  List.filter (λ x, negb (skipped has x.1 x.2)) order.
#[local] Arguments eligible : simpl never.

Lemma elem_of_eligible has order x : x ∈ eligible has order ↔ skipped has x.1 x.2 = false ∧ x ∈ order.
Proof. unfold eligible. rewrite !list_elem_of_In, filter_In, negb_true_iff. tauto. Qed.

(** A quota that is entered as 0 when it is missing is not changed. *)
Definition entered (quotas : gmap Z Z) (id : Z) : gmap Z Z * Z :=
  match quotas !! id with Some q => (quotas, q) | None => (<[id := 0]> quotas, 0) end.

Lemma entered_spec quotas id : (entered quotas id).2 = quotaOf quotas id ∧ ∀ i, quotaOf (entered quotas id).1 i = quotaOf quotas i.
Proof.
  unfold entered, quotaOf. destruct (quotas !! id) eqn:E; simpl; [by rewrite ?E|]. split; [done|].
  intros i. destruct (decide (i = id)) as [->|]; [by rewrite lookup_insert_eq, E|by rewrite lookup_insert_ne].
Qed.


(** The order of preference of the low latency scheduler: the lower RTT, any known RTT
    before an unknown one, and among paths with unknown RTTs the lower quota. *)
Definition rtt (x : Z * path) : Z := SmoothedRTT (rttStats x.2).
Definition preferred (quotas : gmap Z Z) (x y : Z * path) : Prop :=
  if rtt x =? 0 then rtt y = 0 ∧ quotaOf quotas x.1 <= quotaOf quotas y.1
  else rtt y = 0 ∨ rtt x <= rtt y.

Lemma preferred_refl qs x : preferred qs x x.
Proof. unfold preferred. case_bool; [|right]; lia. Qed.
Lemma preferred_trans qs x y z : preferred qs x y → preferred qs y z → preferred qs x z.
Proof. unfold preferred. repeat case_bool; intros; lia. Qed.
Lemma preferred_ext qs qs' x y : (∀ i, quotaOf qs i = quotaOf qs' i) → preferred qs x y → preferred qs' x y.
Proof. intros E. unfold preferred. by rewrite !E. Qed.

(** The choice of the low latency scheduler, once a path has been selected. *)
Lemma lowLatencyLoop_from has order quotas x :
  let r := lowLatencyLoop has order quotas (Some x.1) (rtt x) in
  (∀ i, quotaOf r.1 i = quotaOf quotas i) ∧
  ∃ y, (y = x ∨ y ∈ eligible has order) ∧ r.2 = Some y.1 ∧
       ∀ z, z = x ∨ z ∈ eligible has order → preferred quotas y z.
Proof.
  revert quotas x. induction order as [|[id p] order IH]; intros quotas x; simpl.
  { split; [done|]. exists x. split_and!; [by left|done|]. intros z [->|Hz]; [apply preferred_refl|by apply elem_of_nil in Hz]. }
  destruct (skipped has id p) eqn:Es.
  { replace (eligible has ((id, p) :: order)) with (eligible has order); [apply IH|].
    unfold eligible; simpl. by rewrite Es. }
  assert (∀ y, y ∈ eligible has ((id, p) :: order) ↔ y = (id, p) ∨ y ∈ eligible has order) as Hin.
  { intros y. unfold eligible. simpl. rewrite Es. simpl. apply elem_of_cons. }
  change (SmoothedRTT (rttStats p)) with (rtt (id, p)).
  change (match quotas !! id with Some q => (quotas, q) | None => (<[id:=0]> quotas, 0) end) with (entered quotas id).
  pose proof (entered_spec quotas id) as [Eq1 Eq2].
  assert (∀ qs, (∀ i, quotaOf qs i = quotaOf quotas i) → preferred quotas x (id, p) →
    let r := lowLatencyLoop has order qs (Some x.1) (rtt x) in
    (∀ i, quotaOf r.1 i = quotaOf quotas i) ∧
    ∃ y, (y = x ∨ y ∈ eligible has ((id, p) :: order)) ∧ r.2 = Some y.1 ∧
      ∀ z, z = x ∨ z ∈ eligible has ((id, p) :: order) → preferred quotas y z) as Hkeep.
  { intros qs Hqs Hp. destruct (IH qs x) as (E & y & Hy & Er & Hall). split; [intros i; by rewrite E|]. exists y.
    setoid_rewrite Hin. split_and!; [tauto|done|]. intros z [->|[->|Hz]]; (eapply preferred_ext; [exact Hqs|]).
    - apply Hall. by left.
    - eapply preferred_trans; [apply Hall; by left|]. eapply preferred_ext; [|exact Hp]. done.
    - apply Hall. by right. }
  assert (∀ qs, (∀ i, quotaOf qs i = quotaOf quotas i) → preferred quotas (id, p) x →
    let r := lowLatencyLoop has order qs (Some id) (rtt (id, p)) in
    (∀ i, quotaOf r.1 i = quotaOf quotas i) ∧
    ∃ y, (y = x ∨ y ∈ eligible has ((id, p) :: order)) ∧ r.2 = Some y.1 ∧
      ∀ z, z = x ∨ z ∈ eligible has ((id, p) :: order) → preferred quotas y z) as Htake.
  { intros qs Hqs Hp. destruct (IH qs (id, p)) as (E & y & Hy & Er & Hall). split; [intros i; by rewrite E|]. exists y.
    setoid_rewrite Hin. split_and!; [tauto|done|]. intros z [->|[->|Hz]]; (eapply preferred_ext; [exact Hqs|]).
    - eapply preferred_trans; [apply Hall; by left|]. eapply preferred_ext; [|exact Hp]. done.
    - apply Hall. by left.
    - apply Hall. by right. }
  cbv zeta in Hkeep, Htake.
  destruct (Z.eqb_spec (rtt x) 0) as [Hx|Hx]; destruct (Z.eqb_spec (rtt (id, p)) 0) as [Hp|Hp]; cbn [negb andb].
  - destruct (entered quotas id) as [qs q] eqn:En. cbn [fst snd] in Eq1, Eq2. subst q. cbn [default]. rewrite Eq2.
    destruct (Z.ltb_spec (quotaOf quotas x.1) (quotaOf quotas id)).
    + apply Hkeep; [done|]. unfold preferred. rewrite Hx. simpl. lia.
    + apply Htake; [done|]. unfold preferred. rewrite Hp. simpl. lia.
  - apply Htake; [done|]. unfold preferred. apply Z.eqb_neq in Hp as ->. by left.
  - apply Hkeep; [done|]. unfold preferred. apply Z.eqb_neq in Hx as ->. by left.
  - destruct (Z.leb_spec (rtt x) (rtt (id, p))).
    + apply Hkeep; [done|]. unfold preferred. apply Z.eqb_neq in Hx as ->. by right.
    + apply Htake; [done|]. unfold preferred. apply Z.eqb_neq in Hp as ->. right. lia.
Qed.

Lemma lowLatencyLoop_spec has order quotas :
  let r := lowLatencyLoop has order quotas None 0 in
  (∀ i, quotaOf r.1 i = quotaOf quotas i) ∧
  ((r.2 = None ∧ eligible has order = []) ∨
   ∃ y, y ∈ eligible has order ∧ r.2 = Some y.1 ∧ ∀ z, z ∈ eligible has order → preferred quotas y z).
Proof.
  revert quotas. induction order as [|[id p] order IH]; intros quotas; simpl; [split; [done|by left]|].
  destruct (skipped has id p) eqn:Es.
  { replace (eligible has ((id, p) :: order)) with (eligible has order); [apply IH|].
    unfold eligible; simpl. by rewrite Es. }
  assert (∀ y, y ∈ eligible has ((id, p) :: order) ↔ y = (id, p) ∨ y ∈ eligible has order) as Hin.
  { intros y. unfold eligible. simpl. rewrite Es. simpl. apply elem_of_cons. }
  change (SmoothedRTT (rttStats p)) with (rtt (id, p)).
  change (match quotas !! id with Some q => (quotas, q) | None => (<[id:=0]> quotas, 0) end) with (entered quotas id).
  pose proof (entered_spec quotas id) as [Eq1 Eq2].
  assert (∀ qs, (∀ i, quotaOf qs i = quotaOf quotas i) →
    let r := lowLatencyLoop has order qs (Some id) (rtt (id, p)) in
    (∀ i, quotaOf r.1 i = quotaOf quotas i) ∧
    ((r.2 = None ∧ eligible has ((id, p) :: order) = []) ∨
     ∃ y, y ∈ eligible has ((id, p) :: order) ∧ r.2 = Some y.1 ∧
       ∀ z, z ∈ eligible has ((id, p) :: order) → preferred quotas y z)) as Htake.
  { intros qs Hqs. destruct (lowLatencyLoop_from has order qs (id, p)) as (E & y & Hy & Er & Hall).
    split; [intros i; by rewrite E|]. right. exists y. setoid_rewrite Hin. split_and!; [done|done|].
    intros z Hz. eapply preferred_ext; [exact Hqs|]. by apply Hall. }
  cbv zeta in Htake.
  destruct (rtt (id, p) =? 0) eqn:Ep; cbn [andb]; [|by apply Htake].
  destruct (entered quotas id) as [qs q] eqn:En. cbn [fst snd] in Eq1, Eq2. by apply Htake.
Qed.


Lemma redundantLoop_eligible has order : redundantLoop has order = (eligible has order).*1.
Proof.
  induction order as [|[id p] order IH]; simpl; [done|]. unfold eligible in *. simpl.
  destruct (skipped has id p) eqn:Es; simpl; [done|]. by rewrite IH.
Qed.

End selected.

(** ** The selection in a session *)
Section selecting.
Import protocol session scheduler.
Context {R C : Type} `{!RTTStats R, !SendAlgorithm R C, !SessionRTT R}.
Notation path := (@path R C).
Notation session := (@session R C).
Implicit Types (order : list (Z * path)) (x : Z * path) (s : session).

(** A traversal of a map visits every key once. *)
Definition traverses (e : env) : Prop := ∀ t l, shuffle e t l ≡ₚ l.



(** A path may be used: without a retransmission it is open and the congestion controller
    allows sending; when there are several paths, it is not the initial one and has not failed. *)
Definition usable (has : bool) (m : gmap Z path) (id : Z) (p : path) : Prop :=
  m !! id = Some p ∧ (has = false → open p = true ∧ sentPacketHandler.SendingAllowed (sent p) = true) ∧
  ((1 < size m)%nat → potentiallyFailed p = false ∧ id ≠ InitialPathID).

Lemma eligible_usable has m order x : order ≡ₚ map_to_list m → (1 < size m)%nat →
  x ∈ eligible has order ↔ usable has m x.1 x.2.
Proof.
  intros Ho Hs. rewrite elem_of_eligible, Ho. destruct x as [id p]. rewrite elem_of_map_to_list. unfold usable, skipped, SendingAllowed.
  cbn [fst snd]. rewrite !orb_false_iff, Z.eqb_neq. destruct has; cbn [negb andb]; rewrite ?negb_false_iff, ?andb_true_iff; naive_solver.
Qed.










(** The low latency scheduler takes the best path. With several paths and no packet to
    send again it selects a usable path such that no usable path with a known RTT has a
    lower one; a path whose RTT is unknown is only selected when no usable path has a known
    RTT, and then on no other usable path fewer packets were sent. The quotas stay the same. *)
Theorem low_latency_optimal m order1 order2 qs hs from : order2 ≡ₚ map_to_list m → (1 < size m)%nat →
  ∃ qs' r, selectPathLowLatency m order1 order2 qs false hs from = Ok (qs', r) ∧
    (∀ i, quotaOf qs' i = quotaOf qs i) ∧
    match r with
    | None => ∀ id p, ¬ usable false m id p
    | Some id => ∃ p, usable false m id p ∧ ∀ id' p', usable false m id' p' →
        (SmoothedRTT (rttStats p) ≠ 0 ∧ (SmoothedRTT (rttStats p') ≠ 0 → SmoothedRTT (rttStats p) <= SmoothedRTT (rttStats p'))) ∨
        (SmoothedRTT (rttStats p) = 0 ∧ SmoothedRTT (rttStats p') = 0 ∧ quotaOf qs id <= quotaOf qs id')
    end.
Proof.
  intros Ho Hs. unfold selectPathLowLatency. rewrite (proj2 (Z.leb_gt _ _)) by lia. cbn [andb].
  pose proof (lowLatencyLoop_spec false order2 qs) as [Hq Hr].
  destruct (lowLatencyLoop false order2 qs None 0) as [qs' r]. exists qs', r. split; [done|]. split; [done|]. cbn in Hr.
  destruct Hr as [[-> Hr]|(x & Hx & -> & Hall)]; cbn.
  - intros id p Hu. apply (eligible_usable false m order2 (id, p)) in Hu; [|done..]. rewrite Hr in Hu. by apply elem_of_nil in Hu.
  - exists x.2. split; [by apply (eligible_usable false m order2 x)|]. intros id' p' Hu.
    apply (eligible_usable false m order2 (id', p')) in Hu; [|done..]. specialize (Hall _ Hu).
    unfold preferred, rtt in Hall. cbn in Hall. case_bool; [by right|left]. split; [done|]. intros. by destruct Hall.
Qed.

End selecting.

(** ** What is sent again *)
Section retransmissions.
Import protocol session scheduler.
Context {R C : Type} `{!RTTStats R, !SendAlgorithm R C, !SessionRTT R}.
Notation path := (@path R C).
Notation session := (@session R C).
Notation queue p := (sentPacketHandler.retransmissionQueue (sent p)).
Implicit Types (s : session) (p : path) (m : gmap Z path).

(** All packets that wait to be sent again. *)
Definition queued m : list Packet := map_to_list m ≫= λ x, queue x.2.

Lemma queues_insert m id p p' : m !! id = Some p → ∃ rest, queued m ≡ₚ queue p ++ rest ∧ queued (<[id := p']> m) ≡ₚ queue p' ++ rest.
Proof.
  intros E. exists (queued (delete id m)). unfold queued.
  split; [rewrite <- (insert_delete_id m id p E) at 1|rewrite <- (insert_delete_eq m id p')]; by rewrite map_to_list_insert by apply lookup_delete_eq.
Qed.

Lemma queuedPackets_length s : queuedPackets s = length (queued (paths s)).
Proof.
  unfold queuedPackets, queued. rewrite map_fold_foldr. induction (map_to_list (paths s)) as [|x l IH]; [done|].
  destruct x. cbn in *. rewrite length_app. by rewrite IH.
Qed.

Lemma queue_none m : (∀ id p, m !! id = Some p → queue p = []) → queued m = [].
Proof.
  intros H. unfold queued. assert (∀ x, x ∈ map_to_list m → queue x.2 = []) as Hl.
  { intros [id p] Hx. apply (H id p). by apply elem_of_map_to_list. }
  induction (map_to_list m) as [|x l IH]; [done|]. cbn. rewrite (Hl x) by left. apply IH. intros y Hy. apply Hl. by right.
Qed.

(** Taking the first packet out of the queues. *)
Lemma dequeueFirst_spec ids s : (∀ id, id ∈ ids → is_Some (paths s !! id)) →
  (∃ s', dequeueFirst ids s = Done s' None ∧ s' = s ∧ ∀ id p, id ∈ ids → paths s !! id = Some p → queue p = []) ∨
  ∃ id p p' packet l, dequeueFirst ids s = Done (set_paths (<[id := p']> (paths s)) s) (Some (packet, id)) ∧
    paths s !! id = Some p ∧ queue p = packet :: l ∧ queue p' = l ∧ id ∈ ids.
Proof.
  intros Hin. induction ids as [|id ids IH]; [left; exists s; split_and!; [done|done|]; intros id p H; by apply elem_of_nil in H|].
  destruct (Hin id) as [p Ep]; [by left|]. cbn [dequeueFirst]. unfold mbind, M_bind, getPath. rewrite !Ep.
  unfold sentPacketHandler.DequeuePacketForRetransmission. destruct (queue p) as [|packet l] eqn:Eq; cbn.
  - replace (set_paths (<[id := set_sent (sent p) p]> (paths s)) s) with s.
    2: { assert (set_sent (sent p) p = p) as -> by by destruct p. rewrite insert_id by done. by destruct s. }
    destruct IH as [(s' & E & -> & Hall)|(id' & p1 & p1' & packet & l & E & Hp & Hq & Hq' & Hi)].
    + intros i Hi. apply Hin. by right.
    + left. exists s. split_and!; [done|done|]. intros i q [->|Hi]%elem_of_cons Hq; [congruence|by eapply Hall].
    + right. exists id', p1, p1', packet, l. split_and!; try done. by right.
  - right. eexists id, p, _, packet, l. split_and!; [reflexivity|done|done|done|by left].
Qed.

(** The stream frames of the packets to be sent again, of those that are sent again as
    frames. *)
Definition streamFrames (fs : list Frame) : list StreamFrame.StreamFrame :=
  omap (λ f, match f with FStream f => Some f | _ => None end) fs.
Definition asFrames (l : list Packet) : list Frame :=
  l ≫= λ q, if bool_decide (EncLevel q = EncryptionForwardSecure) then Packet.GetFramesForRetransmission (Frames q) else [].

(** The control frames that are sent again: a window update only while it is the latest. *)
Definition stillNeeded (f : flowControlManager.flowControlManager) (fr : Frame) : bool :=
  match fr with
  | FStream _ | FPaths _ | FAck _ | FStopWaiting _ => false
  | FWindowUpdate w => match flowControlManager.GetReceiveWindow (WindowUpdateFrame.StreamID w) f with
                       | inl current => current <=? WindowUpdateFrame.ByteOffset w
                       | inr _ => false
                       end
  | _ => true
  end.

Record resent s (fs : list Frame) s' : Prop := {
  rs_paths : paths s' = paths s;
  rs_flow : flow s' = flow s;
  rs_handshake : handshakeComplete s' = handshakeComplete s;
  rs_streams : streamFramer.retransmissionQueue (framer s') = streamFramer.retransmissionQueue (framer s) ++ streamFrames fs;
  rs_control : packetPacker.controlFrames (packer s') =
    packetPacker.controlFrames (packer s) ++ List.filter (stillNeeded (flow s)) fs;
}.

Lemma streamFrames_app fs fs' : streamFrames (fs ++ fs') = streamFrames fs ++ streamFrames fs'.
Proof. apply omap_app. Qed.

Lemma resent_trans s1 s2 s3 fs fs' : resent s1 fs s2 → resent s2 fs' s3 → resent s1 (fs ++ fs') s3.
Proof.
  intros [P1 F1 H1 S1 C1] [P2 F2 H2 S2 C2]. split; try congruence.
  - by rewrite S2, S1, streamFrames_app, app_assoc.
  - by rewrite C2, C1, F1, List.filter_app, app_assoc.
Qed.

Lemma resent_nil s : resent s [] s.
Proof. split; try done; cbn; by rewrite app_nil_r. Qed.

(** One frame; frames that are never sent again do not occur. *)
Lemma resendFrame_spec e id f s : is_Some (paths s !! id) → IsFrameRetransmittable f = true →
  ∃ s', resendFrame e id f s = Done s' tt ∧ resent s [f] s'.
Proof.
  intros [p Ep] Hf.
  assert (∃ s', QueueControlFrame f id s = Done s' tt ∧
    (stillNeeded (flow s) f = true → streamFrames [f] = [] → resent s [f] s')) as (s1 & E1 & H1).
  { unfold QueueControlFrame, mbind, M_bind. unfold getPath. rewrite Ep. eexists. split; [reflexivity|]. intros Hn Hs. split; try done.
    - by destruct f.
    - rewrite Hs, app_nil_r. by destruct f.
    - cbn [List.filter]. rewrite Hn. by destruct f. }
  destruct f; cbn in Hf; try done; try (exists s1; split; [exact E1|by apply H1]).
  - eexists. split; [reflexivity|]. by split; cbn; rewrite ?app_nil_r.
  - unfold resendFrame, mbind, M_bind. cbn [get]. cbn [stillNeeded] in H1.
    destruct (flowControlManager.GetReceiveWindow _ _) eqn:Eg; [case_match|].
    + exists s1. split; [exact E1|by apply H1].
    + exists s. split; [reflexivity|]. split; try done; cbn; rewrite ?Eg, ?app_nil_r; try done. rewrite H. by rewrite app_nil_r.
    + exists s. split; [reflexivity|]. split; try done; cbn; by rewrite ?Eg, ?app_nil_r.
  - eexists. split; [reflexivity|]. by split; cbn; rewrite ?app_nil_r.
Qed.

Lemma GetFrames_retransmittable fs : Forall (λ f, IsFrameRetransmittable f = true) (Packet.GetFramesForRetransmission fs).
Proof. induction fs as [|f fs IH]; [constructor|]. destruct f; cbn; auto. Qed.

Lemma forM_resend e id fs s : is_Some (paths s !! id) → Forall (λ f, IsFrameRetransmittable f = true) fs →
  ∃ s', forM fs (resendFrame e id) s = Done s' tt ∧ resent s fs s'.
Proof.
  intros Hp Hf. revert s Hp. induction Hf as [|f fs Hf _ IH]; intros s Hp; [exists s; split; [done|apply resent_nil]|].
  destruct (resendFrame_spec e id f s Hp Hf) as (s1 & E1 & H1).
  destruct (IH s1) as (s2 & E2 & H2); [by rewrite (rs_paths _ _ _ H1)|]. exists s2.
  split; [cbn [forM]; unfold mbind, M_bind; by rewrite E1|]. by apply (resent_trans s s1 s2 [f]).
Qed.

(** The result of getRetransmission, with the packets [taken] out of the queues. *)
Record taken_out s (taken : list Packet) s' (hs : option Packet) : Prop := {
  to_queued : queued (paths s) ≡ₚ taken ++ queued (paths s');
  to_paths id : is_Some (paths s' !! id) ↔ is_Some (paths s !! id);
  to_resent : resent s (asFrames taken) (set_paths (paths s) s');
  to_all : hs = None → queued (paths s') = [];
  to_handshake packet : hs = Some packet → packet ∈ taken ∧ EncLevel packet ≠ EncryptionForwardSecure ∧ handshakeComplete s = false;
}.

Lemma taken_more s s1 s2 packet id p p' l taken s' hs :
  paths s !! id = Some p → queue p = packet :: l → queue p' = l → paths s1 = <[id := p']> (paths s) →
  (framer s1, packer s1, flow s1, handshakeComplete s1) = (framer s, packer s, flow s, handshakeComplete s) →
  resent s1 (asFrames [packet]) s2 → taken_out s2 taken s' hs → taken_out s (packet :: taken) s' hs.
Proof.
  intros Ep Eq Eq' Es [= E1 E2 E3 E4] [P1 F1 H1 S1 C1] [T1 T2 T3 T4 T5]. rewrite Es in P1. rewrite ?E1, ?E2, ?E3, ?E4 in *.
  destruct (queues_insert (paths s) id p p' Ep) as (rest & Q1 & Q2). rewrite Eq in Q1. rewrite Eq' in Q2. split.
  - rewrite Q1. cbn. f_equiv. rewrite <- Q2, <- P1. done.
  - intros i. rewrite T2, P1, lookup_insert_is_Some'. split; [intros [<-|?]|]; eauto.
  - change (asFrames (packet :: taken)) with (asFrames ([packet] ++ taken)). unfold asFrames. rewrite bind_app.
    apply (resent_trans s (set_paths (paths s) s2)); [by split|]. destruct T3 as [P3 F3 H3 S3 C3]. by split.
  - done.
  - intros q Hq. destruct (T5 q Hq) as (?&?&?). split_and!; [by right|done|congruence].
Qed.

Lemma retransmissionLoop_spec e fuel has pth s : traverses e → (length (queued (paths s)) < fuel)%nat →
  ∃ s' has' hs from taken, retransmissionLoop e fuel has pth s = Done s' (has', hs, from) ∧ taken_out s taken s' hs ∧
    (taken = [] → has' = has ∧ from = pth) ∧ (taken ≠ [] → has' = true ∧ ∃ id, from = Some id ∧ is_Some (paths s !! id)).
Proof.
  intros He. revert has pth s. induction fuel as [|fuel IH]; intros has pth s Hf; [lia|]. cbn [retransmissionLoop].
  unfold mbind at 1, M_bind at 1. unfold range, mbind at 1, M_bind at 1, get, reading.
  set (ids := shuffle e (tick s) (map_to_list (paths s)).*1).
  assert (∀ id, id ∈ ids ↔ is_Some (paths s !! id)) as Hids.
  { intros id. unfold ids. rewrite (He (tick s) (map_to_list (paths s)).*1), list_elem_of_fmap. split.
    - intros ([i p] & -> & Hp). apply elem_of_map_to_list in Hp. eauto.
    - intros [p Hp]. exists (id, p). split; [done|]. by apply elem_of_map_to_list. }
  unfold mbind at 1, M_bind at 1.
  destruct (dequeueFirst_spec ids (ticked s)) as [(s1 & -> & -> & Hall)|(id & p & p' & packet & l & -> & Ep & Eq & Eq' & Hi)].
  { intros id. apply Hids. }
  { exists (ticked s), has, None, pth, []. split; [done|]. split; [|split; [done|done]]. split; try done.
    - by split; cbn; rewrite ?app_nil_r.
    - intros _. apply queue_none. intros id p Hp. apply (Hall id p); [apply Hids; eauto|done]. }
  cbn [paths ticked set_tick] in *. set (s1 := set_paths (<[id := p']> (paths s)) (ticked s)).
  assert (length (queued (paths s1)) < fuel)%nat as Hl.
  { destruct (queues_insert (paths s) id p p' Ep) as (rest & Q1 & Q2). rewrite Eq in Q1. rewrite Eq' in Q2. cbn.
    rewrite Q2. rewrite Q1 in Hf. cbn in Hf. lia. }
  assert (∀ s2 s' has' hs from taken, resent s1 (asFrames [packet]) s2 →
    retransmissionLoop e fuel true (Some id) s2 = Done s' (has', hs, from) → taken_out s2 taken s' hs →
    (taken = [] → has' = true ∧ from = Some id) → (taken ≠ [] → has' = true ∧ ∃ id, from = Some id ∧ is_Some (paths s2 !! id)) →
    ∃ s3 has3 hs3 from3 taken3, Done s' (has', hs, from) = Done s3 (has3, hs3, from3) ∧ taken_out s taken3 s3 hs3 ∧
    (taken3 = [] → has3 = has ∧ from3 = pth) ∧ (taken3 ≠ [] → has3 = true ∧ ∃ id, from3 = Some id ∧ is_Some (paths s !! id))) as Hmore.
  { intros s2 s' has' hs from taken Hr E Ht H1 H2. exists s', has', hs, from, (packet :: taken). split; [done|].
    split; [|split; [done|]].
    { apply (taken_more s s1 s2 packet id p p' l); try done. }
    intros _. destruct taken as [|q taken]; [destruct H1 as [-> ->]; [done|]; split; [done|]; eauto|].
    destruct H2 as [-> (i & -> & Hi')]; [done|]. split; [done|]. exists i. split; [done|].
    rewrite (rs_paths _ _ _ Hr) in Hi'. cbn in Hi'. rewrite lookup_insert_is_Some' in Hi'. destruct Hi' as [<-|?]; eauto. }
  case_bool_decide as El.
  - assert (asFrames [packet] = []) as Ea by (unfold asFrames; cbn; by rewrite bool_decide_eq_false_2).
    unfold mbind at 1, M_bind at 1. change (handshakeComplete s1) with (handshakeComplete s). destruct (handshakeComplete s) eqn:Eh.
    + destruct (IH true (Some id) s1 Hl) as (s' & has' & hs & from & taken & E & Ht & H1 & H2). rewrite E.
      eapply (Hmore s1); try done. rewrite Ea. apply resent_nil.
    + exists s1, true, (Some packet), (Some id), [packet]. split; [done|]. split; [|split; [done|]].
      * destruct (queues_insert (paths s) id p p' Ep) as (rest & Q1 & Q2). rewrite Eq in Q1. rewrite Eq' in Q2. split.
        -- rewrite Q1. cbn. f_equiv. by rewrite Q2.
        -- intros i. cbn. rewrite lookup_insert_is_Some'. split; [intros [<-|?]|]; eauto.
        -- rewrite Ea. by split; cbn; rewrite ?app_nil_r.
        -- done.
        -- intros q [= <-]. split_and!; [by left|done|done].
      * intros _. split; [done|]. eauto.
  - destruct (forM_resend e id (Packet.GetFramesForRetransmission (Frames packet)) s1) as (s2 & E2 & H2).
    { cbn. rewrite lookup_insert_eq. eauto. }
    { apply GetFrames_retransmittable. }
    unfold mbind at 1, M_bind at 1. rewrite E2.
    destruct (IH true (Some id) s2) as (s' & has' & hs & from & taken & E & Ht & H3 & H4); [by rewrite (rs_paths _ _ _ H2)|].
    rewrite E. eapply (Hmore s2); try done. unfold asFrames. cbn. rewrite app_nil_r, bool_decide_eq_true_2 by (by destruct (EncLevel packet)).
    done.
Qed.

(** C9: nothing that was lost is forgotten by the scheduler. getRetransmission returns, in
    every state and for every order of the paths. It takes packets out of the queues of the
    paths; the stream frames of those with forward-secure encryption are queued in the
    stream framer, in order, and so are their other frames in the packer, except window
    updates that are no longer the latest, and PATHS frames, which are made anew. Unless it returns a handshake packet to be sent
    again, which it does only during the handshake, all queues are empty then. *)
Theorem retransmissions_conserved e s : traverses e →
  ∃ s' has hs from taken, getRetransmission e s = Done s' (has, hs, from) ∧
    queued (paths s) ≡ₚ taken ++ queued (paths s') ∧
    streamFramer.retransmissionQueue (framer s') = streamFramer.retransmissionQueue (framer s) ++ streamFrames (asFrames taken) ∧
    packetPacker.controlFrames (packer s') =
      packetPacker.controlFrames (packer s) ++ List.filter (stillNeeded (flow s)) (asFrames taken) ∧
    (hs = None → queued (paths s') = []) ∧
    (∀ packet, hs = Some packet → packet ∈ taken ∧ EncLevel packet ≠ EncryptionForwardSecure ∧ handshakeComplete s = false) ∧
    (has = true ↔ taken ≠ []) ∧ (has = true → ∃ id, from = Some id ∧ is_Some (paths s' !! id)).
Proof.
  intros He. unfold getRetransmission, mbind, M_bind. cbn [get].
  destruct (retransmissionLoop_spec e (S (queuedPackets s)) false None s He) as (s' & has & hs & from & taken & E & [T1 T2 T3 T4 T5] & H1 & H2).
  { rewrite queuedPackets_length. lia. }
  exists s', has, hs, from, taken. split; [exact E|]. destruct T3 as [_ _ _ S3 C3]. split_and!; try done.
  - destruct taken as [|q taken]; [destruct H1 as [-> _]; done|]. destruct H2 as [-> _]; done.
  - intros ->. destruct taken as [|q taken]; [destruct H1; done|]. destruct H2 as [_ (id & -> & Hid)]; [done|].
    exists id. split; [done|]. by apply T2.
Qed.

End retransmissions.
