(* ===== verification/SessionRun.v ===== *)
(** * The session: paths, received packets and the run loop

    [path_manager.go], the handlers of [path.go] and [session.go], and one iteration of the
    run loop of a session. What arrives on the channels that the loop selects from is an
    [event]; the goroutines of the paths and of the path manager are events of their own. *)

From S2P Require Import Prelude Protocol ByteOrder AckFrames Frames PublicHeader ReceivedPackets GoFloat SentPackets FlowControl FrameSorter.
From S2P Require Import Stream StreamsMap StreamFramer PacketPacker Session Scheduler.

Module sessionRun.
Import protocol session.
Import packetPacker (packedPacket).

Definition MaxUndecryptablePackets : Z := 10.
Definition MaxSessionUnprocessedPackets : Z := 2500.
Definition SkipPacketAveragePeriodLength : Z := 500.
Definition PublicResetTimeout : Z := 500 * time.Millisecond.
Definition minPathTimer : Z := 10 * time.Millisecond.
Definition maxPathTimer : Z := 1 * time.Second.
Definition Minute : Z := 60 * time.Second.

Definition errExistingPath : error := NewError "trying to create already existing path".
Definition errOddPathID : error := NewError "server tries to create odd pathID".
Definition errEvenPathID : error := NewError "client tries to create even pathID".
Definition errGoaway : error := NewError "unimplemented: handling GOAWAY frames".
Definition errUnknownPath : error := NewError "Unknown path ID to close".

(** The fields of [Config], and the idle timeout of the connection parameters. *)
Record Config := MkConfig {
  KeepAlive : bool;
  HandshakeTimeout : Z;
  IdleConnectionStateLifetime : Z;
}.

(** What [String()] shows of an address. *)
Definition addrString (a : net.UDPAddr) : list Z * string * Z :=
  (default (net.IP a) (net.To4 (net.IP a)), net.Zone a, net.Port a).

Definition getIPVersion (ip : list Z) : Z := match net.To4 ip with Some _ => 4 | None => 6 end.

(** pconn_manager.go *)
Definition isLinkLocal (ip : list Z) : outcome bool :=
  match net.To4 ip with
  | None => Ok false
  | Some ip4 =>
      match ip4, ip with
      | a :: b :: _, _ :: b' :: _ =>
          Ok ((a =? 10) || ((a =? 172) && (b' =? 16)) || ((a =? 169) && (b =? 254)) || ((a =? 192) && (b =? 168)))
      | _, _ => Panic
      end
  end.

Definition set_PacketNumber (n : Z) (h : PublicHeader.PublicHeader) : PublicHeader.PublicHeader :=
  PublicHeader.MkPublicHeader (PublicHeader.Raw h) (PublicHeader.ConnectionID h) (PublicHeader.PathID h)
    (PublicHeader.VersionFlag h) (PublicHeader.ResetFlag h) (PublicHeader.TruncateConnectionID h)
    (PublicHeader.MultipathFlag h) (PublicHeader.PacketNumberLen h) n (PublicHeader.VersionNumber h)
    (PublicHeader.SupportedVersions h) (PublicHeader.DiversificationNonce h).

Section run.
Context {R C : Type} `{!RTTStats R, !SendAlgorithm R C, !SessionRTT R}.
Context (e : env) (cp : ConnectionParameters) (lim : StreamLimits) (cryptoSetup : CryptoSetup) (truncate : bool).
Context (SchedulerAlgorithm : string) (config : Config).
(** The AEAD that opens packets; the estimator and the controller of a new path. *)
Context (Open : list Z → Z → list Z → option (list Z * EncryptionLevel)) (newRTT : R) (newCong : Z → C).
Notation session := (@session R C).
Notation path := (@path R C).
Notation M := (@M R C).

(** ** path.go *)

Definition setup (id : Z) (local remote : net.UDPAddr) : M path :=
  t ← now e; s ← get;
  mret (MkSessionPath id local remote (sentPacketHandler.NewSentPacketHandler newRTT (newCong id) id)
    (receivedPacketHandler.NewReceivedPacketHandler (version s)) true false false false
    (packetNumberGenerator.newPacketNumberGenerator SkipPacketAveragePeriodLength) 0 0 0 t).

(** setup of the session and of its path manager: the initial path, and the crypto stream. *)
Definition newSession (pers : Perspective) (vers connectionID : Z) (createPaths : bool) (local remote : net.UDPAddr) (t : Z) : session :=
  let flow := flowControlManager.NewFlowControlManager cp in
  let m := streamsMap.newStreamsMap pers in
  let '(m, flow) :=
    match pers with
    | PerspectiveServer => let '(m, flow, _) := streamsMap.GetOrOpenStream cp lim 1 m flow in ((streamsMap.AcceptStream m).1, flow)
    | PerspectiveClient => let '(m, flow, _) := streamsMap.OpenStream cp lim m flow in (m, flow)
    end in
  let p := MkSessionPath InitialPathID local remote (sentPacketHandler.NewSentPacketHandler newRTT (newCong InitialPathID) InitialPathID)
             (receivedPacketHandler.NewReceivedPacketHandler vers) true false false false
             (packetNumberGenerator.newPacketNumberGenerator SkipPacketAveragePeriodLength) 0 0 0 t in
  let is4 := bool_decide (is_Some (net.To4 (net.IP remote))) in
  MkSession pers vers {[InitialPathID := p]} ∅ m ∅ time.zero streamFramer.newStreamFramer flow
    (packetPacker.newPacketPacker connectionID pers vers) false false t t false [] time.zero []
    (MkPathManager createPaths false (match pers with PerspectiveClient => 1 | PerspectiveServer => 2 end)
       (if is4 then [remote] else []) (if is4 then [] else [remote]))
    newScheduler 0 None [] 0.

(** The end of the goroutine of a path: it has received from closeChan. *)
Definition pathRunEnds (id : Z) : M unit :=
  p ← getPath id; if closeChan p then putPath id (set_open false (set_closeChan false p)) else mret tt.

Definition GetClosePathFrame (id : Z) : M ClosePathFrame.ClosePathFrame :=
  p ← getPath id;
  match receivedPacketHandler.GetClosePathFrame (received p) with
  | Ok f => mret (ClosePathFrame.MkClosePathFrame (pathID p) (ClosePathFrame.LargestAcked f)
                    (ClosePathFrame.LowestAcked f) (ClosePathFrame.AckRanges f))
  | _ => crash
  end.

(** The crypto setup exists once the session is set up. *)
Definition pathIdleTimeout (s : session) (p : path) : Z :=
  if open p && (negb (pathID p =? 0) || handshakeComplete s) then IdleConnectionStateLifetime config
  else HandshakeTimeout config.

(** The deadline that maybeResetTimer sets; the clock is read twice. *)
Definition pathDeadline (s : session) (p : path) (now1 now2 : Z) : Z :=
  let deadline := time.Add (lastNetworkActivityTime p) (pathIdleTimeout s p) in
  let ackAlarm := receivedPacketHandler.GetAlarmTimeout (received p) in
  let deadline := if negb (time.IsZero ackAlarm) then ackAlarm else deadline in
  let lossTime := sentPacketHandler.GetAlarmTimeout (sent p) in
  let deadline := if negb (time.IsZero lossTime) then utils.MinTime deadline lossTime else deadline in
  utils.MinTime (utils.MaxTime deadline (time.Add now1 minPathTimer)) (time.Add now2 maxPathTimer).

(** The RTO callback. *)
Definition onRTO (id : Z) (lastSentTime : Z) : M bool :=
  p ← getPath id;
  if time.Before (lastNetworkActivityTime p) lastSentTime then
    putPath id (set_potentiallyFailed true p);; schedulePathsFrame e;; mret true
  else mret false.

(** Whether OnAlarm calls the callback. *)
Definition rtoFires (h : @sentPacketHandler.sentPacketHandler R C) : bool :=
  sentPacketHandler.hasOutstandingRetransmittablePacket h && time.IsZero (sentPacketHandler.lossTime h) &&
  (sentPacketHandler.maxTailLossProbes <=? sentPacketHandler.tlpCount h).

Definition OnAlarm (id : Z) : M unit :=
  p ← getPath id;
  failed ← (if rtoFires (sent p) then onRTO id (sentPacketHandler.lastSentTime (sent p)) else mret false);
  t ← now e;
  updatePath id (λ p, set_sent (sentPacketHandler.OnAlarm (sent p) t (Some (λ _, failed))) p).

(** ** path_manager.go; [localAddrs] are the addresses of the sockets. *)

Definition updateManager (f : pathManager → pathManager) : M unit := modify (λ s, set_manager (f (manager s)) s).

Definition createPath (locAddr remAddr : net.UDPAddr) : M unit :=
  s ← get;
  if existsb (λ p : path, bool_decide (addrString locAddr = addrString (localAddr p)) &&
                   bool_decide (addrString remAddr = addrString (remoteAddr p))) (map_to_list (paths s)).*2
  then mret tt
  else
    let id := nxtPathID (manager s) in
    p ← setup id locAddr remAddr;
    putPath id p;;
    updateManager (λ m, MkPathManager (createsPaths m) (launched m) (u8 (nxtPathID m + 2)) (remoteAddrs4 m) (remoteAddrs6 m));;
    sendPing e cp lim cryptoSetup truncate id.

Definition createPaths (localAddrs : list net.UDPAddr) : M unit :=
  forM localAddrs (λ locAddr,
    s ← get;
    if getIPVersion (net.IP locAddr) =? 4 then forM (remoteAddrs4 (manager s)) (createPath locAddr)
    else forM (remoteAddrs6 (manager s)) (createPath locAddr));;
  schedulePathsFrame e.

Definition createPathFromRemote (p : receivedPacket) : M unit :=
  let id := PublicHeader.PathID (publicHeader p) in
  s ← get;
  if bool_decide (is_Some (paths s !! id)) then raise errExistingPath
  else if bool_decide (perspective s = PerspectiveClient) && negb (Z.rem id 2 =? 0) then raise errOddPathID
  else if bool_decide (perspective s = PerspectiveServer) && (Z.rem id 2 =? 0) then raise errEvenPathID
  else pth ← setup id (toAddr p) (fromAddr p); putPath id pth.

Definition handleAddAddressFrame (localAddrs : list net.UDPAddr) (f : AddAddressFrame.AddAddressFrame) : M unit :=
  let addr := AddAddressFrame.Addr f in
  (if AddAddressFrame.IPVersion f =? 4 then
     updateManager (λ m, MkPathManager (createsPaths m) (launched m) (nxtPathID m) (remoteAddrs4 m ++ [addr]) (remoteAddrs6 m))
   else if AddAddressFrame.IPVersion f =? 6 then
     updateManager (λ m, MkPathManager (createsPaths m) (launched m) (nxtPathID m) (remoteAddrs4 m) (remoteAddrs6 m ++ [addr]))
   else raise AddAddressFrame.ErrUnknownIPVersion);;
  s ← get;
  if createsPaths (manager s) then createPaths localAddrs else mret tt.

(** The method of the path manager; the goroutine of an open path receives what is sent. *)
Definition managerClosePath (id : Z) : M unit :=
  s ← get;
  match paths s !! id with
  | Some p => if open p then putPath id (set_closeChan true p) else mret tt
  | None => mret tt
  end.

(** ** session.go: frames *)

Definition handleAckFrame (frame : AckFrame.AckFrame) : M unit :=
  let id := AckFrame.PathID frame in
  pth ← getPath id; t1 ← now e; t2 ← now e;
  match sentPacketHandler.ReceivedAck (sent pth) frame (lastRcvdPacketNumber pth) (lastNetworkActivityTime pth) t1 t2 with
  | Ok (h, err, calls) =>
      putPath id (set_sent h pth);;
      forM calls (λ c, crossAckHandling c.1 c.2);;
      raise_if err;;
      pth ← getPath id; s ← get;
      let rtt := SmoothedRTT (rttStats pth) in
      if sessionRTT s <? rtt then
        updatePath InitialPathID (λ p, set_sent (sentPacketHandler.set_rttStats (UpdateSessionRTT (rttStats p) rtt) (sent p)) p)
      else mret tt
  | _ => crash
  end.

Definition closePath (id : Z) (sendClosePathFrame : bool) : M unit :=
  s ← get;
  if bool_decide (is_Some (paths s !! id)) then
    if bool_decide (id ∈ closedPaths s) then mret tt
    else
      managerClosePath id;;
      modify (λ s, set_closedPaths ({[id]} ∪ closedPaths s) s);;
      if negb sendClosePathFrame then mret tt
      else
        updatePath id (λ p, set_sent (sentPacketHandler.SetInflightAsLost (sent p)) p);;
        f ← GetClosePathFrame id;
        modify (λ s, set_framer (streamFramer.AddClosePathFrameForTransmission f (framer s)) s)
  else raise errUnknownPath.

Definition handleClosePathFrame (frame : ClosePathFrame.ClosePathFrame) : M unit :=
  let id := ClosePathFrame.PathID frame in
  closePath id false;;
  pth ← getPath id;
  match sentPacketHandler.ReceivedClosePath (sent pth) frame (lastRcvdPacketNumber pth) with
  | Ok (h, err, calls) =>
      putPath id (set_sent h pth);; forM calls (λ c, crossAckHandling c.1 c.2);; raise_if err
  | _ => crash
  end.

(** The loop over the entries of a PATHS frame. *)
Fixpoint handlePaths (i : nat) (n : nat) (frame : PathsFrame.PathsFrame) : M unit :=
  match n with
  | O => mret tt
  | S n =>
      match PathsFrame.PathIDs frame !! i, PathsFrame.RemoteRTTs frame !! i with
      | Some id, Some rtt =>
          modify (λ s, set_remoteRTTs (<[id := rtt]> (remoteRTTs s)) s);;
          (if 30 * Minute <=? rtt then updatePath id (set_potentiallyFailed true) else mret tt);;
          handlePaths (S i) n frame
      | _, _ => crash
      end
  end.

(** An operation on the streams and the flow control manager, with the RST_STREAM frames
    that the stream queues in turn. *)
Definition queueResetStreamFrame (c : stream.callback) : M unit :=
  match c with
  | stream.OnReset id offset => QueueControlFrame (FRstStream (RstStreamFrame.MkRstStreamFrame id 0 offset)) InitialPathID
  | stream.OnData => mret tt
  end.

Definition handleRstStream (f : RstStreamFrame.RstStreamFrame) : M unit :=
  s ← get;
  let '(m, fl, cbs, err) := session_streams.handleRstStreamFrame cp lim (RstStreamFrame.StreamID f) (RstStreamFrame.ByteOffset f)
                              (NewError "RST_STREAM received") (streams s) (flow s) in
  modify (λ s, set_flow fl (set_streams m s));; forM cbs queueResetStreamFrame;; raise_if err.

Definition handleStream (f : StreamFrame.StreamFrame) : M unit :=
  s ← get;
  match session_streams.handleStreamFrame cp lim f (streams s) (flow s) with
  | Ok (m, fl, err) => modify (λ s, set_flow fl (set_streams m s));; raise_if err
  | _ => crash
  end.

Definition handleWindowUpdate (f : WindowUpdateFrame.WindowUpdateFrame) : M unit :=
  s ← get;
  let '(m, fl, err) := session_streams.handleWindowUpdateFrame cp lim (WindowUpdateFrame.StreamID f)
                         (WindowUpdateFrame.ByteOffset f) (streams s) (flow s) in
  modify (λ s, set_flow fl (set_streams m s));; raise_if err.

(** The cases of handleFrames; [id] is the path of the packet. *)
Definition handleFrame (localAddrs : list net.UDPAddr) (id : Z) (frame : Frame) : M unit :=
  match frame with
  | FStream f => handleStream f
  | FAck f => handleAckFrame f
  | FConnectionClose f => closeRemote (QuicError (ConnectionCloseFrame.ErrorCode f))
  | FGoaway _ => raise errGoaway
  | FStopWaiting f =>
      updatePath id (λ p, set_received (receivedPacketHandler.SetLowerLimit (received p) (u64 (StopWaitingFrame.LeastUnacked f - 1))) p)
  | FRstStream f => handleRstStream f
  | FWindowUpdate f => handleWindowUpdate f
  | FBlocked _ => modify (set_peerBlocked true)
  | FPing _ => mret tt
  | FAddAddress f => r ← try (handleAddAddressFrame localAddrs f); schedulePathsFrame e;; match r with inl _ => mret tt | inr err => raise err end
  | FClosePath f => r ← try (handleClosePathFrame f); mret tt
  | FPaths f => handlePaths 0 (Z.to_nat (PathsFrame.NumPaths f)) f
  end.

(** The errors that handleFrames ignores. *)
Definition ignored (err : error) : bool :=
  bool_decide (err = sentPacketHandler.ErrDuplicateOrOutOfOrderAck) ||
  bool_decide (err = session_streams.errRstStreamOnInvalidStream) ||
  bool_decide (err = session_streams.errWindowUpdateOnClosedStream).

Definition handleFrames (localAddrs : list net.UDPAddr) (fs : list Frame) (id : Z) : M unit :=
  forM fs (λ f, r ← try (handleFrame localAddrs id f);
    match r with inl _ => mret tt | inr err => if ignored err then mret tt else raise err end).

(** ** Packets *)

(** The packet is returned with the number that was inferred, which the header keeps. *)
Definition pathHandlePacket (localAddrs : list net.UDPAddr) (id : Z) (pkt : receivedPacket) : M (receivedPacket * option error) :=
  p ← getPath id;
  if negb (open p) then mret (pkt, None)
  else
    (if negb (time.IsZero (rcvTime pkt)) then updatePath id (set_lastNetworkActivityTime (rcvTime pkt)) else mret tt);;
    updatePath id (set_potentiallyFailed false);;
    let hdr := publicHeader pkt in
    let pn := InferPacketNumber (PublicHeader.PacketNumberLen hdr) (largestRcvdPacketNumber p) (PublicHeader.PacketNumber hdr) in
    let hdr := set_PacketNumber pn hdr in
    let pkt := MkReceivedPacket (fromAddr pkt) (toAddr pkt) hdr (data pkt) (rcvTime pkt) in
    s ← get;
    match packetUnpacker.Unpack Open (version s) (PublicHeader.Raw hdr) pn (PublicHeader.PacketNumberLen hdr) (data pkt) with
    | Some (Ok (_, frames)) =>
        (if bool_decide (perspective s = PerspectiveServer) then updatePath id (SetCurrentRemoteAddr (fromAddr pkt)) else mret tt);;
        updatePath id (set_lastRcvdPacketNumber pn);;
        updatePath id (λ p, set_largestRcvdPacketNumber (utils.MaxPacketNumber (largestRcvdPacketNumber p) pn) p);;
        t ← now e; p ← getPath id;
        let '(h, err) := receivedPacketHandler.ReceivedPacket (received p) t pn (HasRetransmittableFrames frames)
                           (Packet.GetStreamFrameLength frames 0) in
        putPath id (set_received h p);;
        match err with
        | Some err => mret (pkt, Some err)
        | None => r ← try (handleFrames localAddrs frames id); mret (pkt, match r with inl _ => None | inr err => Some err end)
        end
    | Some (Err err) =>
        (if bool_decide (err = qerr.Error qerr.DecryptionFailure) then mret tt
         else if bool_decide (perspective s = PerspectiveServer) then updatePath id (SetCurrentRemoteAddr (fromAddr pkt)) else mret tt);;
        mret (pkt, Some err)
    | _ => crash
    end.

Definition handlePacketImpl (localAddrs : list net.UDPAddr) (pkt : receivedPacket) : M (receivedPacket * option error) :=
  t ← now e;
  let pkt := if time.IsZero (rcvTime pkt)
             then MkReceivedPacket (fromAddr pkt) (toAddr pkt) (publicHeader pkt) (data pkt) t else pkt in
  modify (λ s, set_keepAlivePingSent false (set_sessionActivityTime (rcvTime pkt) s));;
  let id := PublicHeader.PathID (publicHeader pkt) in
  s ← get;
  r ← (if bool_decide (is_Some (paths s !! id)) then mret (inl tt) else try (createPathFromRemote pkt));
  match r with
  | inr err => mret (pkt, Some err)
  | inl _ => pathHandlePacket localAddrs id pkt
  end.

(** The channel of the packets drops what does not fit. *)
Definition handlePacket (p : receivedPacket) : M unit :=
  modify (λ s, if len (receivedPackets s) <? MaxSessionUnprocessedPackets
               then set_receivedPackets (receivedPackets s ++ [p]) s else s).

Definition tryQueueingUndecryptablePacket (p : receivedPacket) : M unit :=
  s ← get;
  if handshakeComplete s then mret tt
  else if MaxUndecryptablePackets <? len (undecryptablePackets s) + 1 then
    if time.IsZero (tooManyUndecryptableTime s) then t ← now e; modify (set_tooManyUndecryptableTime t) else mret tt
  else modify (λ s, set_undecryptablePackets (undecryptablePackets s ++ [p]) s).

Definition tryDecryptingQueuedPackets : M unit :=
  s ← get; forM (undecryptablePackets s) handlePacket;; modify (set_undecryptablePackets []).

(** ** The run loop *)

(** The deadline that maybeResetTimer of the session sets. *)
Definition sessionDeadline (s : session) : Z :=
  let idle := IdleConnectionStateLifetime config in
  let deadline := if KeepAlive config && handshakeComplete s && negb (keepAlivePingSent s)
                  then time.Add (sessionActivityTime s) (Z.quot idle 2) else time.Add (sessionActivityTime s) idle in
  let deadline := if negb (handshakeComplete s)
                  then utils.MinTime deadline (time.Add (sessionCreationTime s) (HandshakeTimeout config)) else deadline in
  if negb (time.IsZero (tooManyUndecryptableTime s))
  then utils.MinTime deadline (time.Add (tooManyUndecryptableTime s) PublicResetTimeout) else deadline.

(** What the loop receives: the timer of the session or a request to send, the timer of a
    path, a packet, a change of the encryption, and the end of the handshake. *)
Inductive event :=
  | EvWake
  | EvPathTimer (id : Z)
  | EvPacket
  | EvAeadChanged
  | EvHandshakeComplete.

(** The select statement; whether the rest of the iteration is left out. *)
Definition select (localAddrs : list net.UDPAddr) (ev : event) : M bool :=
  match ev with
  | EvWake | EvPathTimer _ => mret true
  | EvPacket =>
      s ← get;
      match receivedPackets s with
      | [] => mret false
      | p :: rest =>
          modify (set_receivedPackets rest);;
          '(p, err) ← handlePacketImpl localAddrs p;
          match err with
          | None => mret true
          | Some err =>
              (if bool_decide (err = qerr.Error qerr.DecryptionFailure) then tryQueueingUndecryptablePacket p
               else closeLocal (Some err));;
              mret false
          end
      end
  | EvAeadChanged => tryDecryptingQueuedPackets;; mret true
  | EvHandshakeComplete => modify (set_handshakeComplete true);; mret true
  end.

(** The alarm of the path whose timer has fired. *)
Definition pathAlarm (t : Z) (ev : event) : M unit :=
  match ev with
  | EvPathTimer id =>
      p ← getPath id;
      let timeout := sentPacketHandler.GetAlarmTimeout (sent p) in
      if negb (time.IsZero timeout) && time.Before timeout t then OnAlarm id else mret tt
  | _ => mret tt
  end.

(** The PING frames of the keep-alive. *)
Definition maybePing : M unit :=
  t ← now e; s ← get;
  if KeepAlive config && handshakeComplete s && (Z.quot (IdleConnectionStateLifetime config) 2 <=? time.Sub t (sessionActivityTime s)) then
    ids ← range e paths;
    forM ids (λ id, QueueControlFrame (FPing PingFrame.MkPingFrame) id);;
    modify (set_keepAlivePingSent true)
  else mret tt.

(** The checks that close the session. *)
Definition checkTimeouts (t : Z) : M unit :=
  s ← get;
  (if negb (time.IsZero (tooManyUndecryptableTime s)) && time.Before (time.Add (tooManyUndecryptableTime s) PublicResetTimeout) t &&
      negb (len (undecryptablePackets s) =? 0)
   then closeLocal (Some (qerr.Error qerr.DecryptionFailure)) else mret tt);;
  (if negb (handshakeComplete s) && (HandshakeTimeout config <=? time.Sub t (sessionCreationTime s))
   then closeLocal (Some (qerr.Error qerr.HandshakeTimeout)) else mret tt);;
  if handshakeComplete s && (IdleConnectionStateLifetime config <=? time.Sub t (sessionActivityTime s))
  then closeLocal (Some (qerr.Error qerr.NetworkIdleTimeout)) else mret tt.

(** One iteration; [fuel] bounds the packets that sendPacket sends. *)
Definition iteration (localAddrs : list net.UDPAddr) (fuel : nat) (ev : event) : M unit :=
  goes_on ← select localAddrs ev;
  if negb goes_on then mret tt
  else
    t ← now e;
    pathAlarm t ev;;
    modify (λ s, if negb (launched (manager s)) && handshakeComplete s
                 then set_manager (MkPathManager (createsPaths (manager s)) true (nxtPathID (manager s))
                                     (remoteAddrs4 (manager s)) (remoteAddrs6 (manager s))) s else s);;
    maybePing;;
    r ← try (scheduler.sendPacket e cp lim cryptoSetup truncate SchedulerAlgorithm fuel);
    (match r with inl _ => mret tt | inr err => closeLocal (Some err) end);;
    checkTimeouts t;;
    s ← get;
    (if handshakeComplete s && (VersionMP <=? version s) &&
        (200 * time.Millisecond <=? time.Sub t (lastPathsFrameSent s)) && (2 <? len (streamsMap.openStreams (streams s)))
     then schedulePathsFrame e else mret tt);;
    modify (λ s, let '(m, f) := session_streams.garbageCollectStreams (streams s) (flow s) in set_flow f (set_streams m s)).

End run.
End sessionRun.

(** ** What a packet can do to a session *)
Section packets.
Import protocol session sessionRun.
Context {R C : Type} `{!RTTStats R, !SendAlgorithm R C, !SessionRTT R}.
Context (e : env) (cp : ConnectionParameters) (lim : StreamLimits) (cryptoSetup : CryptoSetup) (truncate : bool).
Context (SchedulerAlgorithm : string) (config : Config).
Context (Open : list Z → Z → list Z → option (list Z * EncryptionLevel)) (newRTT : R) (newCong : Z → C).
Notation session := (@session R C).
Implicit Types (s : session).

(** A path identifier that the peer may not use for a new path. *)
Definition wrongParity (pers : Perspective) (id : Z) : Prop :=
  match pers with PerspectiveClient => Z.rem id 2 ≠ 0 | PerspectiveServer => Z.rem id 2 = 0 end.

Lemma wrong_parity_rejected s (pkt : receivedPacket) :
  paths s !! PublicHeader.PathID (publicHeader pkt) = None → wrongParity (perspective s) (PublicHeader.PathID (publicHeader pkt)) →
  createPathFromRemote e newRTT newCong pkt s = Fails s (match perspective s with PerspectiveClient => errOddPathID | PerspectiveServer => errEvenPathID end).
Proof.
  intros Hn Hw. unfold createPathFromRemote, mbind, M_bind. cbn [get].
  rewrite bool_decide_eq_false_2 by (by apply eq_None_not_Some). unfold wrongParity in Hw.
  destruct (perspective s); cbn; [by rewrite Hw|]. by rewrite (proj2 (Z.eqb_neq _ _)).
Qed.

Lemma forged_select s pkt rest addrs : receivedPackets s = pkt :: rest → closing s = None →
  paths s !! PublicHeader.PathID (publicHeader pkt) = None →
  wrongParity (perspective s) (PublicHeader.PathID (publicHeader pkt)) →
  ∃ s' err, select e cp lim cryptoSetup truncate Open newRTT newCong addrs EvPacket s = Done s' false ∧
    closing s' = Some (MkCloseError (Some err) false).
Proof.
  intros Hr Hc Hn Hw. cbn [select]. unfold mbind at 1, M_bind at 1. cbn [get]. rewrite Hr.
  unfold mbind at 1, M_bind at 1. cbn [modify]. unfold mbind at 1, M_bind at 1. unfold handlePacketImpl.
  unfold mbind at 1, M_bind at 1. unfold now, reading.
  set (pkt1 := if time.IsZero (rcvTime pkt) then _ else _).
  assert (publicHeader pkt1 = publicHeader pkt) as Eh by (unfold pkt1; by case_match).
  unfold mbind at 1, M_bind at 1. cbn [modify]. unfold mbind at 1, M_bind at 1. cbn [get]. rewrite Eh.
  set (s1 := set_keepAlivePingSent false _).
  assert (paths s1 = paths s ∧ perspective s1 = perspective s ∧ closing s1 = closing s) as (E1 & E2 & E3) by done. clearbody s1 pkt1.
  rewrite bool_decide_eq_false_2 by (rewrite E1; by apply eq_None_not_Some).
  unfold mbind at 1, M_bind at 1, try. rewrite wrong_parity_rejected by (rewrite ?E1, ?E2, Eh; done). cbn.
  rewrite bool_decide_eq_false_2 by (by destruct (perspective s1)).
  unfold mbind, M_bind, closeLocal, close_with, modify. rewrite E3, Hc. cbn. eauto.
Qed.

(** C39: a forged packet closes a session. A packet whose path identifier is not in use and
    has the parity of the paths of the receiver makes the session close with a local error,
    whatever its payload is, and whatever the AEAD can open: the path is looked up before
    the packet is decrypted, so that no key is needed for it. *)
Theorem forged_packet_closes s pkt rest addrs fuel : receivedPackets s = pkt :: rest → closing s = None →
  paths s !! PublicHeader.PathID (publicHeader pkt) = None →
  wrongParity (perspective s) (PublicHeader.PathID (publicHeader pkt)) →
  ∃ s' err, iteration e cp lim cryptoSetup truncate SchedulerAlgorithm config Open newRTT newCong addrs fuel EvPacket s = Done s' tt ∧
    closing s' = Some (MkCloseError (Some err) false).
Proof.
  intros Hr Hc Hn Hw. destruct (forged_select s pkt rest addrs Hr Hc Hn Hw) as (s' & err & E & Hs). exists s', err.
  split; [|done]. unfold iteration, mbind at 1, M_bind at 1. by rewrite E.
Qed.

(** A peer can crash the program. Frames that refer to a path that does not exist are
    not checked: an ACK frame for an unknown path, and a PATHS frame that reports an
    unknown path as failed, dereference a nil pointer, which panics. *)
Theorem unknown_path_panics addrs id s ack fs pf i is_ r rs n :
  paths s !! AckFrame.PathID ack = None →
  paths s !! i = None → PathsFrame.PathIDs pf = i :: is_ → PathsFrame.RemoteRTTs pf = r :: rs →
  Z.to_nat (PathsFrame.NumPaths pf) = S n → 30 * Minute <= r →
  let handle := handleFrames e cp lim cryptoSetup truncate newRTT newCong addrs in
  handle (FAck ack :: fs) id s = Panics s ∧
  handle (FPaths pf :: fs) id s = Panics (set_remoteRTTs (<[i := r]> (remoteRTTs s)) s).
Proof.
  intros Ha Hi Ep Er En Hr. cbv zeta. split.
  - unfold handleFrames. cbn [forM]. unfold mbind at 1, M_bind at 1. unfold mbind at 1, M_bind at 1, try. cbn [handleFrame].
    unfold handleAckFrame, mbind, M_bind, getPath. by rewrite Ha.
  - unfold handleFrames. cbn [forM]. unfold mbind at 1, M_bind at 1. unfold mbind at 1, M_bind at 1, try. cbn [handleFrame].
    rewrite En. cbn [handlePaths]. rewrite Ep, Er. cbn [lookup list_lookup]. unfold mbind, M_bind. cbn [modify].
    rewrite (proj2 (Z.leb_le _ _) Hr). unfold updatePath, mbind, M_bind, getPath. cbn. by rewrite Hi.
Qed.

End packets.
