(* ===== verification/SessionSafety.v ===== *)
(** * Packet numbers and duplicated packets in a session

    Invariants of everything that a session does: the packet numbers of a path grow, and a
    packet that is taken back because a copy of it has arrived on another path carried
    nothing that the copy did not. *)

From S2P Require Import Prelude Protocol ByteOrder AckFrames Frames PublicHeader ReceivedPackets GoFloat SentPackets FlowControl FrameSorter.
From S2P Require Import Stream StreamsMap StreamFramer PacketPacker Session Scheduler SessionRun.

(** ** The packets that a handler keeps *)
Section tracked.
Import sentPacketHandler.
Context {R C : Type} `{!RTTStats R, !SendAlgorithm R C}.
Notation handler := (@sentPacketHandler R C).
Implicit Types (h : handler) (T : Packet → Prop).

(** All packets in flight and all packets to be sent again satisfy [T], and the last packet
    number is [n]. *)
Definition tracks T (n : Z) h : Prop :=
  lastSentPacketNumber h = n ∧ Forall T (packetHistory h) ∧ Forall T (retransmissionQueue h).

Lemma removeElement_Forall T p l : Forall T l → Forall T (removeElement p l).
Proof. induction 1; simpl; [done|]. case_match; [done|by constructor]. Qed.

Lemma ackAll_tracks T n h l : tracks T n h → tracks T n (ackAll h l).
Proof.
  unfold ackAll. revert h. induction l as [|p l IH]; intros h H; simpl; [done|]. apply IH.
  destruct H as (?&?&?). split_and!; [done|by apply removeElement_Forall|done].
Qed.

Lemma queuePacket_tracks T n h p : T p → tracks T n h → tracks T n (queuePacketForRetransmission h p).
Proof.
  intros Hp (?&?&?). split_and!; [done|by apply removeElement_Forall|]. apply Forall_app. split; [done|by constructor].
Qed.

Lemma loseAll_tracks T n h l : Forall T l → tracks T n h → tracks T n (loseAll h l).
Proof.
  intros Hl. unfold loseAll. revert h. induction Hl as [|p l Hp Hl IH]; intros h H; simpl; [done|]. apply IH.
  destruct (queuePacket_tracks T n h p Hp H) as (?&?&?). by split_and!.
Qed.

Lemma lostLoop_tracks T n now d l h : Forall T l → tracks T n h →
  tracks T n (lostLoop h now d l).1 ∧ Forall T (lostLoop h now d l).2.
Proof.
  intros Hl. revert h. induction Hl as [|p l Hp Hl IH]; intros h H; simpl; [done|].
  destruct (LargestAcked h <? PacketNumber p); [done|].
  destruct (d <? time.Sub now (SendTime p)).
  - specialize (IH (set_losses (u64 (losses h + 1)) h) H).
    destruct (lostLoop (set_losses (u64 (losses h + 1)) h) now d l) as [h' l']. destruct IH. split; [done|by constructor].
  - destruct (time.IsZero (lossTime h)); apply IH; apply H.
Qed.

Lemma inflightLoop_tracks T n l h : Forall T l → tracks T n h →
  tracks T n (inflightLoop h l).1 ∧ Forall T (inflightLoop h l).2.
Proof.
  intros Hl. revert h. induction Hl as [|p l Hp Hl IH]; intros h H; simpl; [done|].
  destruct (LargestAcked h <? PacketNumber p); [done|].
  specialize (IH (set_losses (u64 (losses h + 1)) h) H).
  destruct (inflightLoop (set_losses (u64 (losses h + 1)) h) l) as [h' l']. destruct IH. split; [done|by constructor].
Qed.

Lemma detectLost_tracks T n h now : tracks T n h → tracks T n (detectLostPackets h now).
Proof.
  intros H. unfold detectLostPackets.
  assert (tracks T n (set_lossTime time.zero h)) as H1 by apply H.
  destruct (lostLoop_tracks T n now (delayUntilLost (set_lossTime time.zero h)) (packetHistory h) _ (proj1 (proj2 H)) H1) as [H2 H3].
  cbn [packetHistory set_lossTime] in *.
  destruct (lostLoop (set_lossTime time.zero h) now (delayUntilLost (set_lossTime time.zero h)) (packetHistory h)). by apply loseAll_tracks.
Qed.

Lemma SetInflightAsLost_tracks T n h : tracks T n h → tracks T n (SetInflightAsLost h).
Proof.
  intros H. unfold SetInflightAsLost.
  destruct (inflightLoop_tracks T n (packetHistory h) h (proj1 (proj2 H)) H) as [H1 H2].
  destruct (inflightLoop h (packetHistory h)). by apply loseAll_tracks.
Qed.

Lemma updateAlarm_tracks T n h : tracks T n h → tracks T n (updateLossDetectionAlarm h).
Proof. intros H. unfold updateLossDetectionAlarm. repeat case_match; apply H. Qed.

Lemma ReceivedAck_tracks T n h f wp rcv n1 n2 h' err calls :
  ReceivedAck h f wp rcv n1 n2 = Ok (h', err, calls) → tracks T n h → tracks T n h'.
Proof.
  unfold ReceivedAck. intros E H. repeat (case_match; simplify_eq/=; try done).
  all: repeat match goal with H : maybeUpdateRTT _ _ _ _ _ = _ |- _ => unfold maybeUpdateRTT in H; case_match; simplify_eq/= end.
  all: try (unfold garbageCollectSkippedPackets; simpl).
  all: try (apply (updateAlarm_tracks T n), detectLost_tracks, ackAll_tracks); apply H.
Qed.

Lemma ReceivedClosePath_tracks T n h f wp h' err calls :
  ReceivedClosePath h f wp = Ok (h', err, calls) → tracks T n h → tracks T n h'.
Proof.
  unfold ReceivedClosePath. intros E H. repeat (case_match; simplify_eq/=; try done).
  apply (SetInflightAsLost_tracks T n), ackAll_tracks, H.
Qed.

Lemma queueRTO_tracks T n h p : T p → tracks T n h → tracks T n (queueRTO h p).
Proof. intros Hp H. destruct (queuePacket_tracks T n h p Hp H) as (?&?&?). by split_and!. Qed.

Lemma retransmitLoop_tracks T n fuel h : tracks T n h → tracks T n (retransmitLoop fuel h).
Proof.
  revert h. induction fuel as [|fuel IH]; intros h H; simpl; [done|]. destruct (packetHistory h) as [|p l] eqn:E; [done|].
  apply IH, queueRTO_tracks, H. pose proof (proj1 (proj2 H)) as Hl. rewrite E in Hl. by inversion Hl.
Qed.

Lemma retransmitOldest_tracks T n h : tracks T n h → tracks T n (retransmitOldestPacket h).
Proof.
  intros H. unfold retransmitOldestPacket. destruct (packetHistory h) as [|p l] eqn:E; [done|]. apply queueRTO_tracks, H.
  pose proof (proj1 (proj2 H)) as Hl. rewrite E in Hl. by inversion Hl.
Qed.

Lemma OnAlarm_tracks T n h now f : tracks T n h → tracks T n (OnAlarm h now f).
Proof.
  intros H. unfold OnAlarm. destruct (negb (hasOutstandingRetransmittablePacket h)); [apply H|]. apply updateAlarm_tracks.
  destruct (negb (time.IsZero (lossTime h))); [by apply detectLost_tracks|].
  destruct (tlpCount h <? maxTailLossProbes).
  - unfold retransmitTLP. destruct (last (packetHistory h)) as [p|] eqn:E; [|apply H].
    apply (queuePacket_tracks T n h p); [|done]. apply last_Some_elem_of in E.
    exact (proj1 (Forall_forall T (packetHistory h)) (proj1 (proj2 H)) p E).
  - match goal with |- context [if ?b then _ else _] => destruct b end.
    + apply (retransmitLoop_tracks T n), H.
    + unfold retransmitOldestTwoPackets. apply (retransmitOldest_tracks T n), retransmitOldest_tracks, H.
Qed.

Lemma Dequeue_tracks T n h : tracks T n h →
  tracks T n (DequeuePacketForRetransmission h).1 ∧
  match (DequeuePacketForRetransmission h).2 with Some p => T p | None => True end.
Proof.
  intros (?&?&Hq). unfold DequeuePacketForRetransmission. destruct (retransmissionQueue h) as [|p l] eqn:E; simpl.
  - rewrite <- E in Hq. by split_and!.
  - inversion Hq; subst. by split_and!.
Qed.

Lemma RemovePacketByNumber_tracks T n h num : tracks T n h → tracks T n (RemovePacketByNumber h num).1.
Proof.
  intros (Hn&Hh&Hq). unfold RemovePacketByNumber.
  assert (Forall T (removeByNumber num (packetHistory h)).1) as H1.
  { clear -Hh. induction Hh as [|p l Hp Hl IH]; simpl; [done|]. case_match; [done|].
    destruct (removeByNumber num l). by constructor. }
  destruct (removeByNumber num (packetHistory h)) as [hist n']. cbn [fst] in H1.
  cbn [retransmissionQueue set_bytesInFlight set_packetHistory].
  destruct (0 <? n'); [by split_and!|]. destruct (removeQueued num (retransmissionQueue h)) as [q|] eqn:E; [|by split_and!].
  split_and!; [done|done|]. cbn. clear -Hq E. revert q E. induction Hq as [|p l Hp Hl IH]; intros q E; simpl in E; [done|].
  case_match; [by simplify_eq|]. destruct (removeQueued num l) as [l'|]; [|done]. simplify_eq. constructor; [done|by apply IH].
Qed.

(** Only packets with the number are removed. *)
Lemma RemovePacketByNumber_others h num p : PacketNumber p ≠ num →
  p ∈ packetHistory h ++ retransmissionQueue h →
  p ∈ packetHistory (RemovePacketByNumber h num).1 ++ retransmissionQueue (RemovePacketByNumber h num).1.
Proof.
  intros Hne. rewrite !elem_of_app. unfold RemovePacketByNumber.
  assert (p ∈ packetHistory h → p ∈ (removeByNumber num (packetHistory h)).1) as H1.
  { induction (packetHistory h) as [|q l IH]; simpl; [done|]. intros [->|Hp]%elem_of_cons.
    - rewrite (proj2 (Z.eqb_neq _ _)) by done. destruct (removeByNumber num l). by left.
    - case_match; [done|]. destruct (removeByNumber num l). right. by apply IH. }
  destruct (removeByNumber num (packetHistory h)) as [hist n']. cbn [fst] in H1.
  cbn [retransmissionQueue set_bytesInFlight set_packetHistory].
  destruct (0 <? n'); [cbn; tauto|]. destruct (removeQueued num (retransmissionQueue h)) as [q|] eqn:E; [|cbn; tauto].
  cbn. intros [Hp|Hp]; [by left; apply H1|right]. clear -Hne E Hp. revert q E.
  induction (retransmissionQueue h) as [|x l IH]; intros q E; simpl in E; [done|]. apply elem_of_cons in Hp as [->|Hp].
  - rewrite (proj2 (Z.eqb_neq _ _)) in E by done. destruct (removeQueued num l); [|done]. simplify_eq. by left.
  - case_match; [by simplify_eq|]. destruct (removeQueued num l) as [l'|]; [|done]. simplify_eq. right. by apply IH.
Qed.

Lemma SentPacket_tracks T n h now packet :
  (∀ t, T (MkPacket (PacketNumber packet) (stripNonRetransmittableFrames (Frames packet)) (Length packet) (EncLevel packet) t)) →
  tracks T n h →
  match SentPacket h now packet with
  | (h', None) => tracks T (PacketNumber packet) h' ∧ n < PacketNumber packet
  | (h', Some _) => h' = h
  end.
Proof.
  intros HT (Hn&Hh&Hq). unfold SentPacket. destruct (PacketNumber packet <=? lastSentPacketNumber h) eqn:E1; [done|].
  apply Z.leb_gt in E1.
  match goal with |- context [?a <? ?b] => destruct (a <? b); [done|] end. split; [|lia]. apply updateAlarm_tracks.
  destruct (negb (len (stripNonRetransmittableFrames (Frames packet)) =? 0)); split_and!; try done.
  apply Forall_app. split; [done|]. constructor; [apply HT|constructor].
Qed.

End tracked.

(** ** The numbers of packed packets *)
Section packed.
Import protocol packetPacker.
Context (cp : ConnectionParameters) (lim : StreamLimits) (cryptoSetup : CryptoSetup) (truncate : bool).
Notation result A := (outcome (world * (A + error))).

(** A packet has the next number of the path, which is used up; without a packet the
    number may be used up or not. *)
Definition takes_number (rand : option (Z * Z)) (w w' : world) (a : option packedPacket + error) : Prop :=
  pathID (pth w') = pathID (pth w) ∧
  ((generator (pth w') = generator (pth w) ∧ ∀ pkt, a ≠ inl (Some pkt)) ∨
   (generator (pth w') = (packetNumberGenerator.Pop rand (generator (pth w))).1 ∧
    ∀ pkt, a = inl (Some pkt) → number pkt = packetNumberGenerator.next (generator (pth w)))).

Lemma takes_number_pth rand w1 w w' a : pth w1 = pth w → takes_number rand w w' a → takes_number rand w1 w' a.
Proof. intros E. unfold takes_number. by rewrite E. Qed.

Lemma takes_nothing rand w w' : pth w' = pth w → (∀ e, takes_number rand w w' (inr e)) ∧ takes_number rand w w' (inl None).
Proof. intros E. unfold takes_number. rewrite E. split; [intros e|]; (split; [done|]); left; by split. Qed.

Lemma packed_takes ph frames level sealer now rand w w' a :
  PublicHeader.PacketNumber ph = packetNumberGenerator.next (generator (pth w)) →
  packed ph frames level now (writeAndSealPacket ph frames sealer now rand w) = Ok (w', a) → takes_number rand w w' a.
Proof.
  intros Hp. unfold packed, writeAndSealPacket.
  destruct (PublicHeader.Write ph (version (packer w)) (perspective (packer w))); cbn; [|intros; simplify_eq; by apply takes_nothing|done].
  destruct (writeFrames (version (packer w)) now frames); cbn; [|intros; simplify_eq; by apply takes_nothing|done].
  case_match; cbn; [intros; simplify_eq; by apply takes_nothing|].
  destruct (packetNumberGenerator.Pop rand (generator (pth w))) as [g n] eqn:Eg. case_match; cbn; intros; simplify_eq; cbn;
    (split; [done|]); right; cbn; rewrite Eg; split; try done. intros pkt Hpkt. by simplify_eq.
Qed.

Lemma header_number level w : PublicHeader.PacketNumber (getPublicHeader cryptoSetup truncate level w) = packetNumberGenerator.next (generator (pth w)).
Proof. done. Qed.

Lemma numberStopWaiting_pth ph w : pth (numberStopWaiting ph w) = pth w.
Proof. unfold numberStopWaiting. by case_match. Qed.

Lemma PackAckPacket_takes now rand w w' a : PackAckPacket cryptoSetup truncate now rand w = Ok (w', a) → takes_number rand w w' a.
Proof.
  unfold PackAckPacket. case_match; [|intros; simplify_eq; by apply takes_nothing]. destruct (GetSealer cryptoSetup) as [l sl]. intros E.
  apply packed_takes in E; [|cbn; by rewrite numberStopWaiting_pth]. eapply takes_number_pth; [|exact E]. cbn. by rewrite numberStopWaiting_pth.
Qed.

Lemma PackHandshake_takes packet now rand w w' a :
  PackHandshakeRetransmission cryptoSetup truncate packet now rand w = Ok (w', a) → takes_number rand w w' a.
Proof.
  unfold PackHandshakeRetransmission. case_match; [intros; simplify_eq; by apply takes_nothing|].
  case_match; [|intros; simplify_eq; by apply takes_nothing]. case_match; [|intros; simplify_eq; by apply takes_nothing]. intros E.
  apply packed_takes in E; [|cbn; by rewrite numberStopWaiting_pth]. eapply takes_number_pth; [|exact E]. cbn. by rewrite numberStopWaiting_pth.
Qed.

Lemma composeNextPacket_pth maxSize can w w' r : composeNextPacket cp maxSize can w = Ok (w', r) → pth w' = pth w.
Proof.
  unfold composeNextPacket. destruct (fixedFrames w) as [[fs n]| |]; [|intros; by simplify_eq|done].
  intros ([[[rest fs'] n'] e] & _ & E)%outcome_bind_inv. destruct e; [by simplify_eq|]. case_match; [by simplify_eq|].
  case_match; [by simplify_eq|]. apply outcome_bind_inv in E as ([[[q m] f] fs''] & _ & E). case_match. by simplify_eq.
Qed.

Lemma finishPacket_takes ph level sealer now rand fs w w' a :
  PublicHeader.PacketNumber ph = packetNumberGenerator.next (generator (pth w)) →
  finishPacket ph level sealer now rand fs w = Ok (w', a) → takes_number rand w w' a.
Proof.
  intros Hp. unfold finishPacket. case_match; [intros; simplify_eq; by apply takes_nothing|].
  case_match; [intros; simplify_eq; by apply takes_nothing|]. intros E%packed_takes; [|done]. by eapply takes_number_pth; [|exact E].
Qed.

Lemma packCryptoPacket_takes now rand w w' a : packCryptoPacket cp lim cryptoSetup truncate now rand w = Ok (w', a) → takes_number rand w w' a.
Proof.
  unfold packCryptoPacket. destruct (GetSealerForCryptoStream cryptoSetup) as [l sl].
  case_match; [|intros; simplify_eq; by apply takes_nothing|done]. intros ([[m f] fr] & _ & E)%outcome_bind_inv.
  case_match; [|done]. apply packed_takes in E; [|done]. by eapply takes_number_pth; [|exact E].
Qed.

Lemma PackPacket_takes now rand w w' a : PackPacket cp lim cryptoSetup truncate now rand w = Ok (w', a) → takes_number rand w w' a.
Proof.
  unfold PackPacket. intros ([[m f] has] & _ & E)%outcome_bind_inv. set (w1 := MkWorld (packer w) (framer w) m f (pth w)) in E.
  assert (pth w1 = pth w) as E1 by done. clearbody w1.
  destruct has; [apply packCryptoPacket_takes in E; by eapply takes_number_pth|].
  destruct (GetSealer cryptoSetup) as [l sl].
  case_match; [|simplify_eq; by apply takes_nothing|done].
  destruct (popPing (numberStopWaiting (getPublicHeader cryptoSetup truncate l w1) w1)) as [[w2 p]|] eqn:Ep.
  - unfold popPing in Ep. repeat (case_match; simplify_eq). apply finishPacket_takes in E; [|cbn; by rewrite numberStopWaiting_pth].
    eapply takes_number_pth; [|exact E]. cbn. by rewrite numberStopWaiting_pth.
  - apply outcome_bind_inv in E as ([w2 r] & E2 & E). apply composeNextPacket_pth in E2. rewrite numberStopWaiting_pth, E1 in E2.
    destruct r; [|simplify_eq; by apply takes_nothing]. apply finishPacket_takes in E; [|by rewrite E2, header_number, E1].
    by eapply takes_number_pth; [|exact E].
Qed.

Lemma PackPing_takes pf lu now rand w w' a : PackPing cp lim cryptoSetup truncate pf lu now rand w = Ok (w', a) → takes_number rand w w' a.
Proof. unfold PackPing. intros E%PackPacket_takes. exact E. Qed.

(** A number that is used up makes room for a larger one. *)
Lemma Pop_next rand g : 0 <= packetNumberGenerator.next g < 2 ^ 63 →
  packetNumberGenerator.next g < packetNumberGenerator.next (packetNumberGenerator.Pop rand g).1 <= packetNumberGenerator.next g + 2.
Proof.
  intros Hn. unfold packetNumberGenerator.Pop. rewrite u64_id by zlia. case_match; cbn; [|lia].
  unfold packetNumberGenerator.generateNewSkip. destruct (packetNumberGenerator.getRandomNumber rand); cbn; rewrite u64_id by zlia; lia.
Qed.

End packed.

(** ** The invariant *)
Section safety.
Import protocol session.
Import packetPacker (packedPacket, number, frames).
Context {R C : Type} `{!RTTStats R, !SendAlgorithm R C, !SessionRTT R}.
Notation session := (@session R C).
Notation path := (@path R C).
Notation M := (@M R C).
Notation lastSent p := (sentPacketHandler.lastSentPacketNumber (sent p)).
Notation nextNumber p := (packetNumberGenerator.next (generator p)).
Notation strip := stripNonRetransmittableFrames.
Implicit Types (s : session) (p : path) (id : Z) (pkt : packedPacket) (out : list (Z * packedPacket)).

(** A packet that a handler keeps was written on its path. *)
Definition known out id (q : Packet) : Prop :=
  ∃ pkt, (id, pkt) ∈ out ∧ number pkt = PacketNumber q ∧ strip (Frames q) = strip (frames pkt).

Definition increasing out : Prop := ∀ i j id a b,
  (i < j)%nat → out !! i = Some (id, a) → out !! j = Some (id, b) → number a < number b.

(** The packet [k] contains what would be sent again of the packet [v]. *)
Definition covers out (k v : Z * Z) : Prop := ∀ a b, (k.1, a) ∈ out → number a = k.2 → (v.1, b) ∈ out → number b = v.2 →
  ∀ f : Frame, f ∈ strip (frames b) → f ∈ frames a.

Definition used s (k : Z * Z) : Prop := ∃ p, paths s !! k.1 = Some p ∧ k.2 < nextNumber p.

(** The paths that this side creates have odd identifiers on a client. *)
Definition ownParity s : Z := match perspective s with PerspectiveClient => 1 | PerspectiveServer => 0 end.

Record good_path s id p : Prop := {
  gp_id : pathID p = id;
  gp_last : 0 <= lastSent p < nextNumber p;
  gp_next : nextNumber p <= 1 + 2 * Z.of_nat (tick s);
  gp_tracks : tracks (known (output s) id) (lastSent p) (sent p);
}.

Record good s : Prop := {
  good_paths : map_Forall (good_path s) (paths s);
  good_output id pkt : (id, pkt) ∈ output s → ∃ p, paths s !! id = Some p ∧ number pkt <= lastSent p;
  good_increasing : increasing (output s);
  good_dup k v : dupPackets (sched s) !! k = Some v → covers (output s) k v ∧ used s k ∧ used s v;
  good_next : 0 <= nxtPathID (manager s) <= 2 * Z.of_nat (size (paths s)) ∧ Z.rem (nxtPathID (manager s)) 2 = ownParity s;
  good_own id : is_Some (paths s !! id) → Z.rem id 2 = ownParity s → id < nxtPathID (manager s);
}.

(** The bounds of the model: 2^60 readings of the environment, and the path identifiers,
    which are bytes. *)
Definition late s : Prop := 2 ^ 60 <= Z.of_nat (tick s) ∨ (127 <= size (paths s))%nat.
Definition inv s : Prop := late s ∨ good s.
Definition weak s : Prop := late s ∨ increasing (output s).

Lemma inv_weak s : inv s → weak s.
Proof. intros [?|H]; [by left|right; apply H]. Qed.

(** *** A program logic *)

Definition extends s s' : Prop := (late s → late s') ∧ ∀ x, x ∈ output s → x ∈ output s'.

Lemma extends_refl s : extends s s.
Proof. by split. Qed.
Lemma extends_trans s1 s2 s3 : extends s1 s2 → extends s2 s3 → extends s1 s3.
Proof. intros [? H1] [? H2]. split; [tauto|]. intros x Hx. by apply H2, H1. Qed.

(** A panic or a wait leaves the packets that were written as they are. *)
Definition triple {A} (P : session → Prop) (m : M A) (Q : A → session → Prop) : Prop := ∀ s, inv s → P s →
  match m s with
  | Done s' a => inv s' ∧ extends s s' ∧ Q a s'
  | Fails s' _ => inv s' ∧ extends s s'
  | r => weak (final r)
  end.
Definition keeps {A} (m : M A) : Prop := triple (λ _, True) m (λ _ _, True).

Lemma triple_bind {A B} P Q Q' (m : M A) (k : A → M B) :
  triple P m Q → (∀ a, triple (Q a) (k a) Q') → triple P (m ≫= k) Q'.
Proof.
  intros Hm Hk s Hi HP. specialize (Hm s Hi HP). unfold mbind, M_bind. destruct (m s) as [s1 a|s1 err|s1|s1|s1]; try done.
  destruct Hm as (Hi1 & He & HQ). specialize (Hk a s1 Hi1 HQ). destruct (k a s1); try done.
  - destruct Hk as (?&?&?). split_and!; [done|by eapply extends_trans|done].
  - destruct Hk as (?&?). split; [done|by eapply extends_trans].
Qed.

Lemma triple_conseq {A} P P' Q Q' (m : M A) :
  (∀ s, P' s → P s) → (∀ a s, Q a s → Q' a s) → triple P m Q → triple P' m Q'.
Proof.
  intros HP HQ H s Hi HP'. specialize (H s Hi (HP s HP')). destruct (m s); try done. destruct H as (?&?&?). split_and!; try done. by apply HQ.
Qed.

Lemma triple_ret {A} P (a : A) : triple P (mret a) (λ b s, b = a ∧ P s).
Proof. intros s Hi HP. cbn. split_and!; [done|apply extends_refl|done|done]. Qed.

Lemma triple_weaken {A} P (m : M A) : keeps m → triple P m (λ _ _, True).
Proof. intros H s Hi _. by apply H. Qed.

Lemma keeps_bind {A B} (m : M A) (k : A → M B) : keeps m → (∀ a, keeps (k a)) → keeps (m ≫= k).
Proof. intros Hm Hk. eapply triple_bind; [exact Hm|]. intros a. apply Hk. Qed.

Lemma keeps_ret {A} (a : A) : keeps (mret a).
Proof. intros s Hi _. by split_and!; [|apply extends_refl|]. Qed.
Lemma keeps_get : keeps get.
Proof. intros s Hi _. by split_and!; [|apply extends_refl|]. Qed.
Lemma keeps_raise {A} err : keeps (raise (A := A) err).
Proof. intros s Hi _. by split; [|apply extends_refl]. Qed.
Lemma keeps_crash {A} : keeps (crash (A := A)).
Proof. intros s Hi _. by apply inv_weak. Qed.
Lemma keeps_block {A} : keeps (block (A := A)).
Proof. intros s Hi _. by apply inv_weak. Qed.
Lemma keeps_runs {A} : keeps (runs (A := A)).
Proof. intros s Hi _. by apply inv_weak. Qed.
Lemma keeps_raise_if err : keeps (raise_if err).
Proof. destruct err; [apply keeps_raise|apply keeps_ret]. Qed.

Lemma triple_try {A} P Q (m : M A) : triple P m Q → triple P (try m) (λ r s, match r with inl a => Q a s | inr _ => True end).
Proof. intros H s Hi HP. specialize (H s Hi HP). unfold try. destruct (m s); try done. destruct H. by split_and!. Qed.
Lemma keeps_try {A} (m : M A) : keeps m → keeps (try m).
Proof. intros H. eapply triple_conseq; [| |apply triple_try, H]; done. Qed.

Lemma keeps_forM {A} (l : list A) body : (∀ x, x ∈ l → keeps (body x)) → keeps (forM l body).
Proof.
  induction l as [|x l IH]; intros H; simpl; [apply keeps_ret|]. apply keeps_bind; [apply H; by left|]. intros _.
  apply IH. intros y Hy. apply H. by right.
Qed.

(** What the invariant depends on. *)
Definition core s := (perspective s, paths s, output s, dupPackets (sched s), nxtPathID (manager s), tick s).

Lemma good_core s s' : core s = core s' → good s → good s'.
Proof.
  unfold core. intros Ec [H1 H2 H3 H4 H5 H6]. injection Ec as Ep E1 E2 E3 E4 E5. split.
  - rewrite <- E1. intros id p Hp. destruct (H1 id p Hp). by split; rewrite <- ?E2, <- ?E5.
  - rewrite <- E1, <- E2. done.
  - by rewrite <- E2.
  - intros k v. rewrite <- E3. intros Hk. destruct (H4 k v Hk) as (?&?&?). unfold used. rewrite <- E1, <- E2. done.
  - unfold ownParity. rewrite <- E1, <- E4, <- Ep. done.
  - unfold ownParity. rewrite <- E1, <- E4, <- Ep. done.
Qed.

Lemma core_extends s s' : core s = core s' → inv s → inv s' ∧ extends s s'.
Proof.
  intros Ec Hi. assert (late s → late s') as Hl by (unfold late; injection Ec as Ep E1 E2 E3 E4 E5; by rewrite E1, E5).
  split.
  - destruct Hi as [?|H]; [left; auto|right]. by eapply good_core.
  - split; [done|]. injection Ec as Ep E1 E2 E3 E4 E5. by rewrite E2.
Qed.

Lemma triple_modify P f : (∀ s, core (f s) = core s) → (∀ s, P s → P (f s)) → triple P (modify f) (λ _ s, P s).
Proof. intros Hc HP s Hi Hs. cbn. destruct (core_extends s (f s)) as [??]; [by rewrite Hc|done|]. by split_and!; [..|apply HP]. Qed.
Lemma keeps_modify f : (∀ s, core (f s) = core s) → keeps (modify f).
Proof. intros Hc. eapply triple_conseq; [| |apply (triple_modify (λ _, True))]; done. Qed.

Lemma ticked_good s : good s → good (ticked s).
Proof.
  intros [H1 H2 H3 H4 H5 H6]. split; try done. intros id p Hp. destruct (H1 id p Hp). split; try done. cbn in *. lia.
Qed.
Lemma triple_reading {A} P (f : nat → A) : (∀ s, P s → P (ticked s)) → triple P (reading f) (λ _ s, P s).
Proof.
  intros HP s Hi Hs. cbn. split_and!; [|split; [unfold late; cbn; intros []; [left; lia|by right]|done]|by apply HP].
  destruct Hi as [Hl|H]; [left; unfold late in *; cbn; destruct Hl; [left; lia|by right]|right; by apply ticked_good].
Qed.
Lemma keeps_reading {A} (f : nat → A) : keeps (reading f).
Proof. eapply triple_conseq; [| |apply (triple_reading (λ _, True))]; done. Qed.

(** *** Paths *)

(** A change of a path that neither uses numbers nor invents packets. *)
Definition evolves p p' : Prop :=
  pathID p' = pathID p ∧ generator p' = generator p ∧ ∀ T n, tracks T n (sent p) → tracks T n (sent p').

Lemma evolves_received p p' : pathID p' = pathID p → generator p' = generator p → sent p' = sent p → evolves p p'.
Proof. intros ?? E. unfold evolves. by rewrite E. Qed.

Lemma evolves_sent p h : (∀ T n, tracks T n (sent p) → tracks T n h) → evolves p (set_sent h p).
Proof. done. Qed.

Lemma evolves_last s id p p' : good_path s id p → evolves p p' → lastSent p' = lastSent p.
Proof. intros [_ _ _ Ht] (_ & _ & H). by destruct (H _ _ Ht). Qed.

Lemma late_put s id p p' : paths s !! id = Some p → late s ↔ late (set_paths (<[id := p']> (paths s)) s).
Proof. intros E. unfold late. cbn. by rewrite map_size_insert_Some by eauto. Qed.

Lemma used_put s id p p' k : paths s !! id = Some p → nextNumber p <= nextNumber p' →
  used s k → used (set_paths (<[id := p']> (paths s)) s) k.
Proof.
  intros E Hn (q & Eq & Hk). destruct (decide (k.1 = id)) as [E1|Hne].
  - exists p'. unfold used. cbn. rewrite E1, lookup_insert_eq. split; [done|]. rewrite E1, E in Eq. simplify_eq. lia.
  - exists q. cbn. by rewrite lookup_insert_ne.
Qed.

(** The paths after a change of one of them. *)
Lemma good_put s id p p' : good s → paths s !! id = Some p → good_path s id p' → nextNumber p <= nextNumber p' →
  lastSent p' = lastSent p → good (set_paths (<[id := p']> (paths s)) s).
Proof.
  intros [H1 H2 H3 H4 H5 H6] E Hp' Hn Hl. split.
  - apply map_Forall_insert_2; [by destruct Hp'|]. intros i q Hq. by destruct (H1 i q Hq).
  - intros i pkt Hi. destruct (H2 i pkt Hi) as (q & Eq & Hq). cbn. destruct (decide (i = id)) as [->|Hne].
    + exists p'. rewrite lookup_insert_eq. split; [done|]. rewrite E in Eq. simplify_eq. lia.
    + exists q. by rewrite lookup_insert_ne.
  - done.
  - intros k v Hk. destruct (H4 k v Hk) as (?&?&?). split_and!; [done|by eapply used_put..].
  - cbn. by rewrite map_size_insert_Some by eauto.
  - cbn. intros i Hi. apply H6. destruct (decide (i = id)) as [->|Hne]; [by eauto|by rewrite lookup_insert_ne in Hi].
Qed.

Definition holds id p s : Prop := paths s !! id = Some p.

Lemma triple_put id p p' : evolves p p' → triple (holds id p) (putPath id p') (λ _, holds id p').
Proof.
  intros He s Hi Hp. cbn. split_and!; [| |by apply lookup_insert_eq].
  - destruct Hi as [Hl|H]; [left; by apply (late_put s id p p' Hp)|right].
    pose proof (good_paths s H id p Hp) as Hg. destruct He as (E1 & E2 & E3). destruct (E3 _ _ (gp_tracks s id p Hg)) as (El & Hh & Hq).
    destruct Hg as [? ? ? ?]. eapply good_put; try done; [|by rewrite E2].
    split; rewrite ?E1, ?E2, ?El; done.
  - split; [apply (late_put s id p p' Hp)|done].
Qed.

Lemma triple_getPath id P : triple P (getPath id) (λ p s, holds id p s ∧ P s).
Proof.
  intros s Hi HP. unfold getPath, holds. destruct (paths s !! id) eqn:E; [|by apply inv_weak].
  split_and!; [done|apply extends_refl|done|done].
Qed.
Lemma keeps_getPath id : keeps (getPath id).
Proof. eapply triple_conseq; [| |apply (triple_getPath id (λ _, True))]; done. Qed.

(** The common form of a change: the path is read, then written. *)
Lemma keeps_with {A} id (k : path → M A) : (∀ p, triple (holds id p) (k p) (λ _ _, True)) → keeps (getPath id ≫= k).
Proof.
  intros H. eapply triple_bind; [apply (triple_getPath id (λ _, True))|]. intros p. eapply triple_conseq; [| |apply H]; [by intros s []|done].
Qed.
Lemma keeps_updatePath id f : (∀ p, evolves p (f p)) → keeps (updatePath id f).
Proof. intros H. apply keeps_with. intros p. eapply triple_conseq; [| |apply triple_put, H]; done. Qed.
Lemma triple_put_then {A} id p p' (k : M A) : evolves p p' → keeps k → triple (holds id p) (putPath id p';; k) (λ _ _, True).
Proof. intros He Hk. eapply triple_bind; [by apply triple_put|]. intros u. by apply triple_weaken. Qed.

(** *** Packing *)

(** A packet may be sent: its number was taken and is larger than all that were sent. *)
Definition fresh id pkt s : Prop := late s ∨
  (∃ p, paths s !! id = Some p ∧ lastSent p < number pkt < nextNumber p) ∧
  ∀ k v, dupPackets (sched s) !! k = Some v → covers (output s ++ [(id, pkt)]) k v.

(** A packet whose number occurs in no duplicate. *)
Lemma covers_snoc out k v id pkt : covers out k v → (id, number pkt) ≠ k → (id, number pkt) ≠ v → covers (out ++ [(id, pkt)]) k v.
Proof.
  intros H Hk Hv a b Ha Ea Hb Eb. apply elem_of_app in Ha as [Ha|Ha%list_elem_of_singleton]; [|simplify_eq; by destruct k; simplify_eq/=].
  apply elem_of_app in Hb as [Hb|Hb%list_elem_of_singleton]; [by apply H|simplify_eq; by destruct v; simplify_eq/=].
Qed.

Notation packs f := (∀ t r w w' a, f t r w = Ok (w', a) → takes_number r w w' a).

Lemma triple_pack e id f : packs f →
  triple (λ _, True) (pack e id f) (λ a s, match a with
    | Some pkt => (late s ∨ ∃ p, paths s !! id = Some p ∧ lastSent p < number pkt < nextNumber p ∧
                   ∀ k v, dupPackets (sched s) !! k = Some v → (id, number pkt) ≠ k ∧ (id, number pkt) ≠ v)
    | None => True end).
Proof.
  intros Hf s Hi _. unfold pack, mbind, M_bind, now, reading, getPath. cbn.
  destruct (paths s !! id) as [p|] eqn:Ep; [|cbn; destruct Hi as [Hl|H]; [left; unfold late in *; cbn; lia|right; apply H]].
  cbn. set (s2 := ticked (ticked s)).
  assert (inv s2) as Hi2.
  { destruct Hi as [Hl|H]; [left; unfold late in *; cbn; lia|right; by apply ticked_good, ticked_good]. }
  match goal with |- context [f ?t ?r ?w] => destruct (f t r w) as [[w' a]| |] eqn:Ef; [|by apply inv_weak..] end.
  apply Hf in Ef as (Epid & Hgen). cbn in Epid, Hgen.
  set (p' := of_packerPath (packetPacker.pth w') p). cbn.
  set (s3 := set_paths (<[id:=p']> (paths s)) (of_world w' s2)).
  assert (late s2 → late s3) as Hl23 by (unfold late; cbn; rewrite map_size_insert_Some by eauto; done).
  assert (extends s s3) as Hext.
  { split; [intros Hl; apply Hl23; unfold late in *; cbn; lia|done]. }
  assert (good s2 → ¬ late s2 → inv s3 ∧ match a with inl (Some pkt) => late s3 ∨ ∃ p, paths s3 !! id = Some p ∧ lastSent p < number pkt < nextNumber p ∧
      ∀ k v, dupPackets (sched s3) !! k = Some v → (id, number pkt) ≠ k ∧ (id, number pkt) ≠ v | _ => True end) as Hgood.
  { intros Hg Hnl. pose proof (good_paths s2 Hg id p Ep) as Hgp. pose proof (gp_next _ _ _ Hgp) as Hnx. pose proof (gp_last _ _ _ Hgp) as Hls.
    cbn in Hnx. unfold late in Hnl. cbn in Hnl.
    assert (nextNumber p <= nextNumber p' <= nextNumber p + 2 ∧ nextNumber p + 0 <= 2 * Z.of_nat (tick s) + 1) as [Hn' Hold].
    { pose proof (good_paths s2 Hg id p Ep) as []. cbn in *. destruct Hi as [Hl|Hgs]; [unfold late in Hl; lia|].
      pose proof (gp_next _ _ _ (good_paths s Hgs id p Ep)).
      split; [|lia]. destruct Hgen as [[-> _]|[-> _]]; [lia|].
      match goal with |- context [packetNumberGenerator.Pop ?r ?g] => pose proof (Pop_next r g) end. lia. }
    split.
    - right. apply (good_core (set_paths (<[id:=p']> (paths s2)) s2)); [done|]. eapply (good_put s2 id p p'); try done; [|lia].
      destruct Hgp as [? ? ? ?]. split; try done; cbn in *; lia.
    - destruct a as [[pkt|]|]; try done. right. exists p'. split; [apply lookup_insert_eq|].
      destruct Hgen as [[_ Hno]|[Eg Hpk]]; [by destruct (Hno pkt)|]. specialize (Hpk pkt eq_refl).
      match type of Eg with context [packetNumberGenerator.Pop ?r ?g] => pose proof (Pop_next r g) end.
      assert (nextNumber p < nextNumber p') by (cbn; rewrite Eg; lia). cbn in Hpk.
      split; [cbn; rewrite Hpk; cbn in *; lia|].
      intros k v Hkv. destruct (good_dup s2 Hg k v Hkv) as (_ & (q1 & E1 & N1) & (q2 & E2 & N2)).
      split; intros <-; cbn in *; rewrite Hpk in *; simplify_eq; lia. }
  destruct Hi2 as [Hl|Hg].
  { assert (inv s3) by (left; auto). destruct a as [a|err]; cbn; (split_and!; try done). destruct a; [left; auto|done]. }
  destruct (decide (2 ^ 60 <= Z.of_nat (tick s2))) as [Hl1|]; [|destruct (decide (127 <= size (paths s2))%nat) as [Hl2|]].
  1,2: assert (late s3) by (apply Hl23; unfold late; auto); assert (inv s3) by (by left);
    destruct a as [a|err]; cbn; (split_and!; try done); destruct a; [by left|done].
  destruct Hgood as [Hi3 Hfr]; [done|unfold late; tauto|]. destruct a as [a|err]; cbn; split_and!; try done.
Qed.

(** *** Sending *)

Lemma strip_strip fs : strip (strip fs) = strip fs.
Proof. induction fs as [|f fs IH]; [done|]. simpl. destruct (IsFrameRetransmittable f) eqn:E; simpl; rewrite ?E, ?IH; done. Qed.

Lemma known_snoc out x id q : known out id q → known (out ++ [x]) id q.
Proof. intros (pkt & ? & ? & ?). exists pkt. split_and!; [apply elem_of_app; by left|done..]. Qed.

Lemma tracks_impl T T' n (h : @sentPacketHandler.sentPacketHandler R C) : (∀ q, T q → T' q) → tracks T n h → tracks T' n h.
Proof. intros HT (?&?&?). split_and!; [done|by eapply Forall_impl..]. Qed.

Lemma increasing_snoc out id pkt : increasing out → (∀ a, (id, a) ∈ out → number a < number pkt) → increasing (out ++ [(id, pkt)]).
Proof.
  intros Hi Hn i j id' a b Hij Ha Hb. apply lookup_app_Some in Hb as [Hb|[Hl Hb]].
  - apply (Hi i j id'); [done| |done]. rewrite lookup_app_l in Ha; [done|]. apply lookup_lt_Some in Hb. lia.
  - apply list_lookup_singleton_Some in Hb as [Hj Hb]. simplify_eq. rewrite lookup_app_l in Ha by lia.
    apply Hn. by eapply list_elem_of_lookup_2.
Qed.

(** A packet is entered in its handler and written. *)
Lemma good_send s id p p' pkt : good s → paths s !! id = Some p → lastSent p < number pkt < nextNumber p →
  (∀ k v, dupPackets (sched s) !! k = Some v → covers (output s ++ [(id, pkt)]) k v) →
  pathID p' = pathID p → generator p' = generator p → tracks (known (output s ++ [(id, pkt)]) id) (number pkt) (sent p') →
  good (set_output (output s ++ [(id, pkt)]) (set_paths (<[id := p']> (paths s)) s)).
Proof.
  intros [H1 H2 H3 H4 H5 H6] E Hn Hd Ei Eg Ht. pose proof (H1 id p E) as [? ? ? ?]. pose proof (proj1 Ht) as El. split.
  - apply map_Forall_insert_2.
    + split; cbn; rewrite ?Ei, ?Eg, ?El; try done; lia.
    + intros i q Hq. destruct (H1 i q Hq). split; try done. eapply tracks_impl; [|done]. intros x. apply known_snoc.
  - intros i a [Ha|Ha%list_elem_of_singleton]%elem_of_app; cbn.
    + destruct (H2 i a Ha) as (q & Eq & Hq). destruct (decide (i = id)) as [->|Hne].
      * exists p'. rewrite lookup_insert_eq. split; [done|]. rewrite E in Eq. simplify_eq. lia.
      * exists q. by rewrite lookup_insert_ne.
    + simplify_eq. exists p'. rewrite lookup_insert_eq. split; [done|]. lia.
  - apply increasing_snoc; [done|]. intros a Ha. destruct (H2 id a Ha) as (q & Eq & Hq). simplify_eq. lia.
  - intros k v Hk. destruct (H4 k v Hk) as (_&?&?). split_and!; [by apply Hd|..];
      (eapply (used_put s id p p'); [done|by rewrite Eg|done]).
  - cbn. by rewrite map_size_insert_Some by eauto.
  - cbn. intros i Hi. apply H6. destruct (decide (i = id)) as [->|Hne]; [by eauto|by rewrite lookup_insert_ne in Hi].
Qed.

(** The writing of a packet that the handler has recorded. *)
Lemma send_written e id pkt s p h : inv s → fresh id pkt s → paths s !! id = Some p → open p || negb (sentPacketFull p) = true →
  late s ∨ tracks (known (output s ++ [(id, pkt)]) id) (number pkt) h →
  match (signalSent id;; logPacket id pkt;; write e id pkt) (set_paths (<[id := set_sent h p]> (paths s)) s) with
  | Done s' _ => inv s' ∧ extends s s' ∧ (late s' ∨ (id, pkt) ∈ output s')
  | Fails s' _ => inv s' ∧ extends s s'
  | r => False
  end.
Proof.
  intros Hi Hf Ep Ho Ht.
  assert (∃ p', (signalSent id (set_paths (<[id := set_sent h p]> (paths s)) s)) = Done (set_paths (<[id := p']> (paths s)) s) tt ∧
    pathID p' = pathID p ∧ generator p' = generator p ∧ sent p' = h) as (p' & E' & E1 & E2 & E3).
  { unfold signalSent, mbind, M_bind, getPath. cbn. rewrite lookup_insert_eq. cbn. destruct (open p); [by eexists|].
    destruct (sentPacketFull p); [done|]. eexists. split; [unfold putPath, modify; unfold set_paths; cbn; by rewrite insert_insert_eq|done]. }
  set (s' := ticked (set_allSntPackets (u64 (allSntPackets s + 1))
               (set_output (output s ++ [(id, pkt)]) (set_paths (<[id := p']> (paths s)) s)))).
  assert (inv s' ∧ extends s s' ∧ (id, pkt) ∈ output s') as (H1 & H2 & H3).
  { assert (late s → late s') as Hl by (unfold late; cbn; rewrite map_size_insert_Some by eauto; intros []; [left; lia|by right]).
    split_and!; [|split; [done|]|]; [|cbn; intros x Hx; apply elem_of_app; by left|apply elem_of_app; right; by apply list_elem_of_singleton].
    destruct Hi as [|Hg]; [left; auto|]. destruct Hf as [|[(q & Eq & Hq) Hd]]; [left; auto|]. destruct Ht as [|Ht]; [left; auto|].
    right. assert (q = p) as -> by congruence.
    apply ticked_good. eapply good_core; [|apply (good_send s id p p' pkt); try done; by rewrite E3]. done. }
  unfold mbind, M_bind. rewrite E'. cbn. unfold write, mbind, M_bind. cbn. destruct (writeResult e (tick s)); cbn; [split; [exact H1|exact H2]|]. split_and!; [exact H1|exact H2|right; exact H3].
Qed.

Lemma triple_send e id pkt : triple (fresh id pkt) (sendPackedPacket e (Some pkt) id) (λ _ s, late s ∨ (id, pkt) ∈ output s).
Proof.
  intros s Hi Hf. unfold sendPackedPacket, mbind at 1, M_bind at 1. cbn.
  assert (inv (ticked s)) as Hi1.
  { destruct Hi as [Hl|H]; [left; unfold late in *; cbn; lia|right; by apply ticked_good]. }
  assert (fresh id pkt (ticked s)) as Hf1 by (destruct Hf as [Hl|?]; [left; unfold late in *; cbn; lia|by right]).
  assert (extends s (ticked s)) as He1 by (split; [unfold late; cbn; lia|done]).
  unfold mbind at 1, M_bind at 1, getPath. destruct (paths (ticked s) !! id) as [p|] eqn:Ep; [|by apply inv_weak].
  pose proof (SentPacket_tracks (known (output s ++ [(id, pkt)]) id) (lastSent p) (sent p) (clock e (tick s)) (ackhandlerPacket pkt)) as Hs.
  destruct (sentPacketHandler.SentPacket (sent p) (clock e (tick s)) (ackhandlerPacket pkt)) as [h err].
  unfold mbind at 1, M_bind at 1. cbn [putPath modify].
  destruct err as [err|].
  - cbn. destruct Hi1 as [Hl|Hg].
    { split; [left; by apply (late_put (ticked s) id p)|]. eapply extends_trans; [exact He1|]. split; [apply (late_put (ticked s) id p _ Ep)|done]. }
    assert (h = sent p) as ->.
    { apply Hs; [intros t; exists pkt; cbn; split_and!; [apply elem_of_app; right; by apply list_elem_of_singleton|done|by rewrite strip_strip]|].
      eapply tracks_impl; [|apply (gp_tracks _ _ _ (good_paths _ Hg id p Ep))]. intros q. apply known_snoc. }
    destruct (triple_put id p (set_sent (sent p) p) (evolves_received _ _ eq_refl eq_refl eq_refl) (ticked s) (or_intror Hg) Ep) as (Ha & Hb & _).
    split; [exact Ha|]. by eapply extends_trans.
  - unfold mbind at 1, M_bind at 1. cbn [raise_if mret M_ret].
    assert (late (ticked s) ∨ tracks (known (output s ++ [(id, pkt)]) id) (number pkt) h) as Ht.
    { destruct Hi1 as [Hl|Hg]; [by left|right].
      apply Hs; [intros t; exists pkt; cbn; split_and!; [apply elem_of_app; right; by apply list_elem_of_singleton|done|by rewrite strip_strip]|].
      eapply tracks_impl; [|apply (gp_tracks _ _ _ (good_paths _ Hg id p Ep))]. intros q. apply known_snoc. }
    destruct (open p || negb (sentPacketFull p)) eqn:Eo.
    + pose proof (send_written e id pkt (ticked s) p h Hi1 Hf1 Ep Eo Ht) as Hw.
      match goal with |- context [match ?x with Done _ _ => _ | _ => _ end] => destruct x end; try done.
      { destruct Hw as (?&?&?). split_and!; [done|by eapply extends_trans|done]. }
      { destruct Hw as (?&?). split; [done|by eapply extends_trans]. }
    + apply orb_false_iff in Eo as [Eo1 Eo2]. unfold signalSent, mbind, M_bind, getPath. cbn. rewrite lookup_insert_eq. cbn. rewrite Eo1.
      destruct (sentPacketFull p); [|done]. cbn. destruct Hi1 as [Hl|Hg]; [left; by apply (late_put (ticked s) id p)|right; apply Hg].
Qed.

Lemma triple_inv {A} P Q (m : M A) : triple P m Q → triple P m (λ a s, Q a s ∧ inv s).
Proof. intros H s Hi HP. specialize (H s Hi HP). destruct (m s); try done. by destruct H as (?&?&?). Qed.

Lemma pack_fresh e id f : packs f → triple (λ _, True) (pack e id f) (λ a s, match a with Some pkt => fresh id pkt s | None => True end).
Proof.
  intros Hf. eapply (triple_conseq (λ _, True)); [done| |apply triple_inv, (triple_pack e id f Hf)]. intros [pkt|] s [H Hi]; [|done].
  destruct H as [|(p & Ep & Hn & Hd)]; [by left|]. destruct Hi as [|Hg]; [by left|]. right. split; [eauto|].
  intros k v Hkv. destruct (Hd k v Hkv). destruct (good_dup s Hg k v Hkv) as [? _]. by apply covers_snoc.
Qed.

Lemma keeps_pack e id f : packs f → keeps (pack e id f).
Proof. intros Hf. eapply triple_conseq; [| |apply (triple_pack e id f Hf)]; done. Qed.

Lemma keeps_send e id packet : triple (λ s, match packet with Some pkt => fresh id pkt s | None => True end) (sendPackedPacket e packet id) (λ _ _, True).
Proof. destruct packet; [eapply triple_conseq; [| |apply triple_send]; done|]. apply (triple_weaken _ crash), keeps_crash. Qed.

Lemma keeps_pack_send e id f : packs f → keeps (pack e id f ≫= λ packet, sendPackedPacket e packet id).
Proof. intros Hf. eapply triple_bind; [by apply pack_fresh|]. intros packet. apply keeps_send. Qed.

(** *** The operations that the scheduler and the handlers share *)

Ltac keep :=
  repeat match goal with
  | |- keeps (_ ≫= _) => apply keeps_bind; [|intros ?]
  | |- keeps (forM _ _) => apply keeps_forM; intros ? _
  | |- keeps (try _) => apply keeps_try
  | |- keeps (mret _) => apply keeps_ret
  | |- keeps get => apply keeps_get
  | |- keeps (raise _) => apply keeps_raise
  | |- keeps (raise_if _) => apply keeps_raise_if
  | |- keeps crash => apply keeps_crash
  | |- keeps runs => apply keeps_runs
  | |- keeps (reading _) => apply keeps_reading
  | |- keeps (now _) => apply keeps_reading
  | |- keeps (getPath _) => apply keeps_getPath
  | |- keeps (modify _) => apply keeps_modify; intros ?; reflexivity
  | |- keeps (updateSched _) => apply keeps_modify; intros ?; reflexivity
  | |- keeps (match ?x with _ => _ end) => destruct x
  | |- keeps _ => solve [auto with keeps]
  end.

Lemma keeps_range {A} e (f : session → gmap Z A) : keeps (range e f).
Proof. unfold range. keep. Qed.
Hint Resolve keeps_range : keeps.

Lemma keeps_GetStopWaitingFrame force id : keeps (GetStopWaitingFrame force id).
Proof.
  apply keeps_with. intros p. unfold sentPacketHandler.GetStopWaitingFrame. destruct (stopWaitingManager.GetStopWaitingFrame _ _) as [m f].
  apply triple_put_then; [by apply evolves_sent|apply keeps_ret].
Qed.
Lemma keeps_GetAckFrame e id : keeps (GetAckFrame e id).
Proof.
  apply keeps_bind; [apply keeps_reading|]. intros t. apply keeps_with. intros p. case_match. case_match; [|apply triple_weaken, keeps_crash..].
  apply triple_put_then; [by apply evolves_received|apply keeps_ret].
Qed.
Lemma keeps_queueFrame f : keeps (queueFrame f).
Proof. unfold queueFrame. keep. Qed.
Lemma keeps_QueueControlFrame f id : keeps (QueueControlFrame f id).
Proof. unfold QueueControlFrame. keep. Qed.
Lemma keeps_schedulePathsFrame e : keeps (schedulePathsFrame e).
Proof. unfold schedulePathsFrame. keep. Qed.
Lemma keeps_getWindowUpdateFrames e force : keeps (getWindowUpdateFrames e force).
Proof. unfold getWindowUpdateFrames. keep. Qed.
Hint Resolve keeps_GetStopWaitingFrame keeps_GetAckFrame keeps_queueFrame keeps_QueueControlFrame keeps_schedulePathsFrame
  keeps_getWindowUpdateFrames : keeps.
Lemma keeps_queueStopWaiting f id : keeps (queueStopWaiting f id).
Proof. unfold queueStopWaiting. keep. Qed.
Lemma keeps_queueAck f id : keeps (queueAck f id).
Proof. unfold queueAck. keep. Qed.
Lemma keeps_close_with c : keeps (close_with c).
Proof. apply keeps_modify. intros s. by destruct (closing s). Qed.
Lemma keeps_sendPing e cp lim cs truncate id : keeps (sendPing e cp lim cs truncate id).
Proof.
  apply keeps_bind; [apply keeps_getPath|]. intros p. eapply triple_bind; [apply pack_fresh|].
  { intros t r w w' a. apply PackPing_takes. }
  intros [pkt|]; [apply (keeps_send e id (Some pkt))|apply triple_weaken, keeps_raise].
Qed.
Hint Resolve keeps_queueStopWaiting keeps_queueAck keeps_close_with keeps_sendPing : keeps.

(** Fewer duplicates are as good. *)
Lemma good_fewer s d : (∀ k v, d !! k = Some v → dupPackets (sched s) !! k = Some v) →
  good s → good (set_sched (set_dupPackets d (sched s)) s).
Proof. intros Hd [H1 H2 H3 H4 H5 H6]. split; try done; [intros id p Hp; by destruct (H1 id p Hp)|]. intros k v Hk. by apply H4, Hd. Qed.

Lemma keeps_delete k : keeps (updateSched (λ c, set_dupPackets (delete k (dupPackets c)) c)).
Proof.
  intros s Hi _. cbn. split_and!; [|by split|done]. destruct Hi as [|Hg]; [by left|right]. apply good_fewer; [|done].
  intros k' v. rewrite lookup_delete_Some. tauto.
Qed.
Hint Resolve keeps_delete : keeps.

Lemma keeps_crossAckHandling id n : keeps (crossAckHandling id n).
Proof.
  unfold crossAckHandling. apply keeps_bind; [apply keeps_get|]. intros s. apply keeps_bind; [|intros _; apply keeps_delete].
  destruct (dupPackets (sched s) !! (id, n)) as [v|]; [|apply keeps_ret]. apply keeps_with. intros p.
  pose proof (λ T k, RemovePacketByNumber_tracks T k (sent p) v.2) as Ht.
  destruct (sentPacketHandler.RemovePacketByNumber (sent p) v.2) as [h removed].
  apply triple_put_then; [by apply evolves_sent|].
  apply keeps_bind; [keep|]. intros _. apply keeps_delete.
Qed.
Hint Resolve keeps_crossAckHandling : keeps.

(** *** The scheduler *)
Section scheduling.
Import scheduler.
Context (e : env) (cp : ConnectionParameters) (lim : StreamLimits) (cryptoSetup : CryptoSetup) (truncate : bool).
Context (SchedulerAlgorithm : string).

Lemma triple_frame {A} (F : session → Prop) P Q (m : M A) :
  (∀ s s', extends s s' → F s → F s') → triple P m Q → triple (λ s, P s ∧ F s) m (λ a s, Q a s ∧ F s).
Proof.
  intros HF H s Hi [HP Hf]. specialize (H s Hi HP). destruct (m s); try done. destruct H as (?&He&?). split_and!; try done. by apply (HF s).
Qed.
Lemma keeps_frame {A} (F : session → Prop) (m : M A) : (∀ s s', extends s s' → F s → F s') → keeps m → triple F m (λ _, F).
Proof. intros HF H. eapply triple_conseq; [| |apply (triple_frame F _ _ m HF H)]; [done|]. by intros a s []. Qed.

(** A packet that was written on a path, as the handler knows it. *)
Definition wrote id (q : Packet) s : Prop := late s ∨ ∃ pkt, (id, pkt) ∈ output s ∧ q = ackhandlerPacket pkt.
Lemma wrote_extends id q s s' : extends s s' → wrote id q s → wrote id q s'.
Proof. intros [Hl Ho] [?|(pkt & Hp & ->)]; [left; auto|right; eauto]. Qed.

Lemma keeps_rangePaths : keeps (rangePaths e).
Proof. unfold rangePaths. keep. Qed.
Lemma keeps_lift {A} (o : outcome A) : keeps (lift o).
Proof. unfold lift. keep. Qed.
Hint Resolve keeps_rangePaths keeps_lift : keeps.
Lemma keeps_selectPath has hs from : keeps (selectPath e SchedulerAlgorithm has hs from).
Proof. unfold selectPath. keep. Qed.

Lemma keeps_dequeueFirst ids : keeps (dequeueFirst ids).
Proof.
  induction ids as [|id ids IH]; simpl; [apply keeps_ret|]. apply keeps_with. intros p.
  pose proof (λ T n H, proj1 (Dequeue_tracks T n (sent p) H)) as Ht.
  destruct (sentPacketHandler.DequeuePacketForRetransmission (sent p)) as [h q].
  apply triple_put_then; [by apply evolves_sent|]. destruct q; [apply keeps_ret|done].
Qed.
Lemma keeps_resendFrame id f : keeps (resendFrame e id f).
Proof. unfold resendFrame. keep. Qed.
Hint Resolve keeps_selectPath keeps_dequeueFirst keeps_resendFrame : keeps.
Lemma keeps_retransmissionLoop fuel has pth : keeps (retransmissionLoop e fuel has pth).
Proof. revert has pth. induction fuel as [|fuel IH]; intros has pth; simpl; keep. Qed.
Hint Resolve keeps_retransmissionLoop : keeps.
Lemma keeps_getRetransmission : keeps (getRetransmission e).
Proof. unfold getRetransmission. keep. Qed.
Hint Resolve keeps_getRetransmission : keeps.

Lemma triple_performPacketSending wufs id :
  triple (λ _, True) (performPacketSending e cp lim cryptoSetup truncate wufs id)
    (λ r s, match r with Some q => wrote id q s | None => True end).
Proof.
  unfold performPacketSending. eapply triple_bind; [apply keeps_getPath|]. intros p. eapply triple_bind; [apply triple_weaken; keep|]. intros u.
  eapply triple_bind; [apply pack_fresh; intros t r w w' a; apply PackPacket_takes|].
  intros [pkt|]; [|eapply triple_conseq; [| |apply (triple_ret (λ _, True))]; [done|by intros a s [-> _]]].
  eapply (triple_bind _ (λ _, wrote id (ackhandlerPacket pkt))).
  { eapply triple_conseq; [| |apply triple_send]; [done|]. intros a s [?|?]; [by left|right; eauto]. }
  intros u2. eapply (triple_bind _ (λ _, wrote id (ackhandlerPacket pkt))); [apply keeps_frame; [intros s s'; apply wrote_extends|keep]|].
  intros u3. eapply (triple_bind _ (λ _, wrote id (ackhandlerPacket pkt))); [apply keeps_frame; [intros s s'; apply wrote_extends|keep]|].
  intros q. eapply (triple_bind _ (λ _, wrote id (ackhandlerPacket pkt))); [apply keeps_frame; [intros s s'; apply wrote_extends|keep]|].
  intros u4. eapply triple_conseq; [| |apply triple_ret]; [done|]. intros a s [-> H]. exact H.
Qed.

Lemma keeps_ackPath wufs id : keeps (ackPath e cp lim cryptoSetup truncate wufs id).
Proof.
  unfold ackPath. apply keeps_bind; [keep|]. intros ack. apply keeps_bind; [keep|]. intros _. case_match; [|apply keeps_ret].
  apply keeps_bind; [keep|]. intros p. case_match; [apply keeps_ret|]. apply keeps_bind; [keep|]. intros swf.
  apply keeps_bind; [keep|]. intros _. apply keeps_bind; [keep|]. intros _.
  destruct ack; apply keeps_pack_send; intros t r w w' r'; [apply PackAckPacket_takes|apply PackPacket_takes].
Qed.
Hint Resolve keeps_ackPath : keeps.
Lemma keeps_ackRemainingPaths wufs : keeps (ackRemainingPaths e cp lim cryptoSetup truncate wufs).
Proof. unfold ackRemainingPaths. keep. Qed.
Lemma keeps_queueFrames hs id : keeps (queueFrames e hs id).
Proof. unfold queueFrames. keep. Qed.
Lemma keeps_queueClosePaths fuel id : keeps (queueClosePaths fuel id).
Proof. induction fuel as [|fuel IH]; simpl; keep. Qed.
Lemma keeps_queueAddAddresses fuel id : keeps (queueAddAddresses fuel id).
Proof. induction fuel as [|fuel IH]; simpl; keep. Qed.
Lemma keeps_queuePaths fuel id : keeps (queuePaths fuel id).
Proof. induction fuel as [|fuel IH]; cbn [queuePaths]; keep. Qed.
Hint Resolve keeps_ackRemainingPaths keeps_queueFrames keeps_queueClosePaths keeps_queueAddAddresses keeps_queuePaths : keeps.
Lemma keeps_queueFramerFrames id : keeps (queueFramerFrames id).
Proof. unfold queueFramerFrames. keep. Qed.
Hint Resolve keeps_queueFramerFrames : keeps.

(** A duplicate of a packet that was written on the path. *)
Lemma duplicate_put id q : triple (wrote id q) (updatePath id (λ p, set_sent (sentPacketHandler.DuplicatePacket (sent p) q) p)) (λ _ _, True).
Proof.
  intros s Hi Hw. unfold updatePath, mbind, M_bind, getPath. destruct (paths s !! id) as [p|] eqn:Ep; [|by apply inv_weak]. cbn.
  set (p' := set_sent (sentPacketHandler.DuplicatePacket (sent p) q) p).
  split_and!; [|split; [by apply (late_put s id p p')|done]|done].
  destruct Hi as [Hl|Hg]; [left; by apply (late_put s id p p')|]. destruct Hw as [Hl|(pkt & Hp & ->)]; [left; by apply (late_put s id p p')|].
  right. pose proof (good_paths s Hg id p Ep) as [? ? ? (?&?&Hq)]. eapply (good_put s id p p'); try done.
  split; try done. split_and!; [done|done|]. apply Forall_app. split; [done|]. constructor; [|constructor]. by exists pkt.
Qed.

Lemma triple_duplicateLoop pth q quota order : triple (wrote pth q) (duplicateLoop pth q quota order) (λ _ _, True).
Proof.
  induction order as [|[id p] order IH]; simpl; [apply triple_weaken, keeps_ret|]. case_match; [done|].
  eapply triple_bind; [apply keeps_frame; [intros s s'; apply wrote_extends|apply keeps_get]|]. intros s. case_match; [apply duplicate_put|done].
Qed.

Lemma triple_maybeDuplicate id q : triple (wrote id q) (maybeDuplicate e SchedulerAlgorithm id q) (λ _ _, True).
Proof.
  unfold maybeDuplicate. eapply triple_bind; [apply triple_inv, (triple_getPath id (wrote id q))|]. intros p. cbn beta.
  case_match; [|apply triple_weaken, keeps_ret].
  eapply (triple_conseq (wrote (pathID p) q)); [|done|].
  { intros s [[Hh Hw] [Hl|Hg]]; [by left|]. by rewrite (gp_id _ _ _ (good_paths s Hg id p Hh)). }
  eapply triple_bind; [apply keeps_frame; [intros s s'; apply wrote_extends|apply keeps_get]|]. intros s.
  eapply triple_bind; [apply keeps_frame; [intros s1 s2; apply wrote_extends|apply keeps_rangePaths]|]. intros order.
  apply triple_duplicateLoop.
Qed.

(** **** Redundant packets *)

Lemma elem_strip (f : Frame) fs : f ∈ strip fs → f ∈ fs.
Proof.
  induction fs as [|g fs IH]; [done|]. cbn [stripNonRetransmittableFrames].
  destruct (IsFrameRetransmittable g); rewrite ?elem_of_cons; [intros [->|H]; auto|auto].
Qed.

Lemma elem_copyFrames (f : Frame) fs : f ∈ Packet.copyFrames fs ↔ f ∈ fs ∧ Packet.listed f = true.
Proof.
  induction fs as [|g fs IH]; [split; [intros H; by apply elem_of_nil in H|intros [H _]; by apply elem_of_nil in H]|].
  cbn [Packet.copyFrames]. destruct (Packet.listed g) eqn:E; rewrite ?elem_of_cons, IH.
  - split; [intros [->|[??]]; auto|intros [[->|?] ?]; auto].
  - split; [intros [??]; auto|intros [[->|?] ?]; [congruence|auto]].
Qed.

Lemma IsDupDropable_listed (f : Frame) fs : Packet.IsDupDropable fs = true → f ∈ fs → Packet.listed f = true.
Proof.
  induction fs as [|g fs IH]; [intros _ H; by apply elem_of_nil in H|]. cbn [Packet.IsDupDropable].
  destruct (Packet.listed g) eqn:E; [|done]. rewrite elem_of_cons. intros H [->|?]; auto.
Qed.

Lemma written_listed v t (f : Frame) : Packet.listed f = true → packetPacker.written v t f = f.
Proof. by destruct f. Qed.

(** A packet of a path is determined by its number. *)
Lemma number_unique out id a b : increasing out → (id, a) ∈ out → (id, b) ∈ out → number a = number b → a = b.
Proof.
  intros Hi [i Ha]%list_elem_of_lookup [j Hb]%list_elem_of_lookup E.
  destruct (Nat.lt_total i j) as [H|[->|H]]; [pose proof (Hi i j id a b H Ha Hb); lia|congruence|pose proof (Hi j i id b a H Hb Ha); lia].
Qed.

Lemma covers_app out out' k v : covers (out ++ out') k v → covers out k v.
Proof. intros H a b Ha Ea Hb Eb. apply (H a b); [apply elem_of_app; by left|done|apply elem_of_app; by left|done]. Qed.

(** New duplicates that hold also with the packet that is about to be sent. *)
Lemma link_good s d id pkt : good s → (∃ p, paths s !! id = Some p ∧ lastSent p < number pkt < nextNumber p) →
  (∀ k v, d !! k = Some v → covers (output s ++ [(id, pkt)]) k v ∧ used s k ∧ used s v) →
  good (set_sched (set_dupPackets d (sched s)) s) ∧ fresh id pkt (set_sched (set_dupPackets d (sched s)) s).
Proof.
  intros [H1 H2 H3 H4 H5 H6] Hp Hd. split.
  - split; try done; [intros i p Hp'; by destruct (H1 i p Hp')|]. intros k v Hk. destruct (Hd k v Hk) as (?&?&?).
    split_and!; [by eapply covers_app|done|done].
  - right. split; [done|]. intros k v Hk. by apply Hd.
Qed.

Definition copied (pkt dup : packedPacket) : Prop := ∃ v t, frames dup = packetPacker.written v t <$> Packet.copyFrames (frames pkt).

Section link.
Context (s : session) (pth red : Z) (pkt dup : packedPacket) (p : path).
Hypothesis (Hg : good s) (Hw : (pth, pkt) ∈ output s) (Hne : red ≠ pth) (Hc : copied pkt dup).
Hypothesis (Ep : paths s !! red = Some p) (Hn : lastSent p < number dup < nextNumber p).
Notation out := (output s ++ [(red, dup)]).

Lemma link_original a : (pth, a) ∈ out → number a = number pkt → a = pkt.
Proof.
  intros [Ha|Ha%list_elem_of_singleton]%elem_of_app E; [|by simplify_eq]. eapply number_unique; [apply Hg|done..].
Qed.
Lemma link_copy b : (red, b) ∈ out → number b = number dup → b = dup.
Proof.
  intros [Hb|Hb%list_elem_of_singleton]%elem_of_app E; [|by simplify_eq].
  destruct (good_output s Hg red b Hb) as (q & Eq & Hq). rewrite Ep in Eq. simplify_eq. lia.
Qed.
Lemma copied_listed (f : Frame) : f ∈ frames dup ↔ f ∈ frames pkt ∧ Packet.listed f = true.
Proof.
  destruct Hc as (v & t & ->). rewrite list_elem_of_fmap. split.
  - intros (g & -> & [Hg' Hl]%elem_copyFrames). by rewrite written_listed.
  - intros [Hf Hl]. exists f. rewrite written_listed by done. split; [done|]. by apply elem_copyFrames.
Qed.
Lemma link_covers : covers out (pth, number pkt) (red, number dup).
Proof.
  intros a b Ha Ea Hb Eb f Hf. cbn in *. apply link_original in Ha as ->; [|done]. apply link_copy in Hb as ->; [|done].
  by apply elem_strip, copied_listed in Hf as [? _].
Qed.
Lemma link_covers_back : Packet.IsDupDropable (frames pkt) = true → covers out (red, number dup) (pth, number pkt).
Proof.
  intros Hd a b Ha Ea Hb Eb f Hf. cbn in *. apply link_copy in Ha as ->; [|done]. apply link_original in Hb as ->; [|done].
  apply elem_strip in Hf. apply copied_listed. split; [done|]. by eapply IsDupDropable_listed.
Qed.
Lemma link_used : used s (pth, number pkt) ∧ used s (red, number dup).
Proof.
  split; [|exists p; cbn; split; [done|lia]]. destruct (good_output s Hg pth pkt Hw) as (q & Eq & Hq). exists q. cbn. split; [done|].
  pose proof (gp_last _ _ _ (good_paths s Hg pth q Eq)). lia.
Qed.

End link.

(** The entry in both directions, and what is sent then. *)
Lemma triple_link pth red (q : Packet) dup :
  red ≠ pth →
  triple (λ s, (late s ∨ ∃ pkt, (pth, pkt) ∈ output s ∧ q = ackhandlerPacket pkt ∧ copied pkt dup) ∧
               (late s ∨ ∃ p, paths s !! red = Some p ∧ lastSent p < number dup < nextNumber p ∧
                  ∀ k v, dupPackets (sched s) !! k = Some v → (red, number dup) ≠ k ∧ (red, number dup) ≠ v))
    (updateSched (λ c, set_dupPackets (<[(pth, PacketNumber q) := (red, number dup)]> (dupPackets c)) c);;
     if Packet.IsDupDropable (Frames q)
     then updateSched (λ c, set_dupPackets (<[(red, number dup) := (pth, PacketNumber q)]> (dupPackets c)) c) else mret tt)
    (λ _, fresh red dup).
Proof.
  intros Hne s Hi [Hw Hf].
  set (d1 := <[(pth, PacketNumber q) := (red, number dup)]> (dupPackets (sched s))).
  set (d := if Packet.IsDupDropable (Frames q) then <[(red, number dup) := (pth, PacketNumber q)]> d1 else d1).
  set (s' := set_sched (set_dupPackets d (sched s)) s).
  assert (inv s' ∧ fresh red dup s') as [Hi' Hf'].
  { destruct Hi as [|Hg]; [split; by left|]. destruct Hw as [|(pkt & Hp & -> & Hc)]; [split; by left|].
    destruct Hf as [|(p & Ep & Hn & Hnew)]; [split; by left|].
    destruct (link_good s d red dup Hg) as [? ?]; [eauto| |split; [by right|done]].
    destruct (link_used s pth red pkt dup p Hg Hp Ep Hn) as [Hu1 Hu2].
    assert (∀ k v, d1 !! k = Some v → covers (output s ++ [(red, dup)]) k v ∧ used s k ∧ used s v) as H1.
    { intros k v Hkv. unfold d1 in Hkv. apply lookup_insert_Some in Hkv as [[<- <-]|[_ Hkv]]; cbn.
      - split_and!; [|done|done]. by eapply link_covers.
      - destruct (good_dup s Hg k v Hkv) as (?&?&?). destruct (Hnew k v Hkv). split_and!; [by apply covers_snoc|done|done]. }
    intros k v Hkv. unfold d in Hkv. cbn in Hkv. destruct (Packet.IsDupDropable (frames pkt)) eqn:Ed; [|by apply H1].
    apply lookup_insert_Some in Hkv as [[<- <-]|[_ Hkv]]; [|by apply H1]. split_and!; [|done|done]. by eapply link_covers_back. }
  unfold mbind, M_bind, updateSched, modify. unfold d in s'.
  destruct (Packet.IsDupDropable (Frames q)); (split_and!; [exact Hi'|by split|exact Hf']).
Qed.

Lemma pack_result {A} id (f : Z → option (Z * Z) → packetPacker.world → outcome (packetPacker.world * (A + error))) (F : A → Prop) s s' a :
  (∀ t r w w' a, f t r w = Ok (w', inl a) → F a) → pack (R := R) (C := C) e id f s = Done s' a → F a.
Proof.
  intros HF. unfold pack, mbind, M_bind, now, reading, getPath. cbn. destruct (paths s !! id); [|done]. cbn.
  match goal with |- context [f ?t ?r ?w] => destruct (f t r w) as [[w' [x|x]]| |] eqn:E end; cbn; try done.
  intros [= _ <-]. by eapply HF.
Qed.

Lemma triple_pure {A} P Q (F : A → Prop) (m : M A) : (∀ s s' a, m s = Done s' a → F a) → triple P m Q → triple P m (λ a s, Q a s ∧ F a).
Proof. intros HF H s Hi HP. specialize (H s Hi HP). destruct (m s) eqn:E; try done. destruct H as (?&?&?). split_and!; try done. by eapply HF. Qed.

Lemma triple_bind2 {A B} P Q Q' (m1 : M unit) (m2 : M A) (k : A → M B) :
  triple P (m1;; m2) Q → (∀ a, triple (Q a) (k a) Q') → triple P (m1;; m2 ≫= k) Q'.
Proof.
  intros H Hk s Hi HP. pose proof (triple_bind P Q Q' (m1;; m2) k H Hk s Hi HP) as Hs.
  unfold mbind, M_bind in *. by destruct (m1 s).
Qed.

Lemma keeps_sendRedundant pth q fs red : Packet.GetCopyFrames (Frames q) = Some fs →
  triple (wrote pth q) (sendRedundant e cryptoSetup truncate pth q fs red) (λ _ _, True).
Proof.
  intros Hfs. unfold sendRedundant. destruct ((red =? InitialPathID) || (red =? pth)) eqn:Er; [apply triple_weaken, keeps_ret|].
  apply orb_false_iff in Er as [_ Hne%Z.eqb_neq]. destruct (GetSealer cryptoSetup) as [level sealer].
  assert (fs = Packet.copyFrames (Frames q)) as Efs by (unfold Packet.GetCopyFrames in Hfs; destruct (Packet.copyFrames (Frames q)); congruence).
  eapply triple_bind.
  { apply triple_try. eapply triple_conseq; [| |apply (triple_frame (wrote pth q)); [intros s s'; apply wrote_extends|]].
    - intros s Hs. split; [exact I|exact Hs].
    - intros a s H. exact H.
    - eapply (triple_pure _ _ (λ a, match a with Some dup => ∃ v t, frames dup = packetPacker.written v t <$> fs | None => True end)).
      + intros s s' a. apply (pack_result _ _ (λ a, match a with Some dup => ∃ v t, frames dup = packetPacker.written v t <$> fs | None => True end)).
        intros t r w w' [dup|]; [|done]. unfold packetPacker.packed.
        intros ([w1 a1] & _ & E)%outcome_bind_inv. destruct a1; simplify_eq. eauto.
      + apply triple_pack. intros t r w w' a. apply packed_takes. done. }
  intros [[dup|]|err]; [|apply triple_weaken, keeps_ret..]. cbn beta iota.
  eapply (triple_conseq (λ s, (late s ∨ ∃ pkt, (pth, pkt) ∈ output s ∧ q = ackhandlerPacket pkt ∧ copied pkt dup) ∧
               (late s ∨ ∃ p, paths s !! red = Some p ∧ lastSent p < number dup < nextNumber p ∧
                  ∀ k v, dupPackets (sched s) !! k = Some v → (red, number dup) ≠ k ∧ (red, number dup) ≠ v))).
  { intros s [[Hf (v & t & Ef)] Hw]. split; [|exact Hf]. destruct Hw as [|(pkt & Hp & ->)]; [by left|right]. exists pkt.
    split_and!; [done|done|]. exists v, t. by rewrite Ef, Efs. }
  { intros a s H. exact H. }
  eapply triple_bind; [apply triple_modify; [done|]|].
  { intros s. cbn. tauto. }
  intros u. eapply triple_bind2; [by apply triple_link|]. intros u2. eapply triple_bind; [apply triple_try, triple_send|].
  intros [|]; apply triple_weaken; keep.
Qed.

Lemma triple_forM {A} (F : session → Prop) (l : list A) body :
  (∀ s s', extends s s' → F s → F s') → (∀ x, triple F (body x) (λ _ _, True)) → triple F (forM l body) (λ _, F).
Proof.
  intros HF Hb. induction l as [|x l IH]; simpl; [eapply triple_conseq; [| |apply triple_ret]; [done|by intros a s []]|].
  eapply (triple_bind _ (λ _, F)); [|intros _; exact IH]. eapply triple_conseq; [| |apply (triple_frame F), (Hb x); exact HF].
  - intros s Hs. by split.
  - by intros a s [].
Qed.

Lemma triple_maybeRedundant id pths q : triple (wrote id q) (maybeRedundant e cryptoSetup truncate SchedulerAlgorithm id pths q) (λ _ _, True).
Proof.
  unfold maybeRedundant. case_match; [|apply triple_weaken, keeps_ret].
  destruct (Packet.GetCopyFrames (Frames q)) as [fs|] eqn:E; [|apply triple_weaken, keeps_ret].
  eapply triple_bind; [apply (triple_forM (wrote id q)); [intros s s'; apply wrote_extends|intros red; by apply keeps_sendRedundant]|].
  intros u. apply triple_weaken, keeps_ret.
Qed.

Lemma keeps_pingFailed from : keeps (pingFailed e cp lim cryptoSetup truncate from).
Proof. unfold pingFailed. keep. Qed.
Hint Resolve keeps_pingFailed : keeps.

Lemma keeps_sendLoop fuel wufs : keeps (sendLoop e cp lim cryptoSetup truncate SchedulerAlgorithm fuel wufs).
Proof.
  revert wufs. induction fuel as [|fuel IH]; intros wufs; cbn [sendLoop]; [apply keeps_runs|].
  apply keeps_bind; [keep|]. intros [[has hs] from]. apply keeps_bind; [keep|]. intros s. apply keeps_bind; [keep|]. intros pth.
  apply keeps_bind; [keep|]. intros order. apply keeps_bind; [keep|]. intros s'. apply keeps_bind; [keep|]. intros pths.
  destruct pth as [id|]; [|keep].
  assert (keeps (queueFrames e (streamFramer.HasFramesForRetransmission (framer s)) id;; queueFramerFrames id;;
    pkt ← performPacketSending e cp lim cryptoSetup truncate wufs id;
    match pkt with
    | None => ackRemainingPaths e cp lim cryptoSetup truncate []
    | Some pkt => maybeDuplicate e SchedulerAlgorithm id pkt;;
        goes_on ← maybeRedundant e cryptoSetup truncate SchedulerAlgorithm id pths pkt;
        if (goes_on : bool) then pingFailed e cp lim cryptoSetup truncate from;; sendLoop e cp lim cryptoSetup truncate SchedulerAlgorithm fuel []
        else ackRemainingPaths e cp lim cryptoSetup truncate []
    end)) as Hdata.
  { apply keeps_bind; [keep|]. intros _. apply keeps_bind; [keep|]. intros _. eapply triple_bind; [apply triple_performPacketSending|].
    intros [q|]; [|apply triple_weaken; keep]. eapply (triple_bind _ (λ _, wrote id q)).
    { eapply triple_conseq; [| |apply (triple_frame (wrote id q)), triple_maybeDuplicate; intros s1 s2; apply wrote_extends].
      - intros s1 Hs. split; exact Hs.
      - by intros a s1 []. }
    intros u. eapply triple_bind; [apply triple_maybeRedundant|]. intros goes_on. apply triple_weaken. keep. }
  destruct has; [|done]. destruct hs as [hp|]; [|done].
  apply keeps_bind; [keep|]. intros swf. apply keeps_bind; [keep|]. intros _.
  eapply triple_bind; [apply pack_fresh; intros t r w w' a; apply PackHandshake_takes|]. intros packet.
  eapply triple_bind; [apply keeps_send|]. intros u. apply triple_weaken, IH.
Qed.

Lemma keeps_sendPacket fuel : keeps (sendPacket e cp lim cryptoSetup truncate SchedulerAlgorithm fuel).
Proof.
  unfold sendPacket. apply keeps_bind; [keep|]. intros ids. apply keeps_bind.
  { apply keeps_forM. intros id _. apply keeps_updatePath. intros p. by apply evolves_received. }
  intros _. apply keeps_bind; [keep|]. intros wufs. apply keeps_bind; [keep|]. intros _. apply keeps_sendLoop.
Qed.

End scheduling.
(** *** The session *)
Section running.
Import sessionRun.
Context (e : env) (cp : ConnectionParameters) (lim : StreamLimits) (cryptoSetup : CryptoSetup) (truncate : bool).
Context (SchedulerAlgorithm : string) (config : Config).
Context (Open : list Z → Z → list Z → option (list Z * EncryptionLevel)) (newRTT : R) (newCong : Z → C).

Lemma triple_get P : triple P get (λ x s, x = s ∧ P s).
Proof. intros s Hi HP. cbn. by split_and!; [|apply extends_refl|..]. Qed.

(** A path with an identifier that is not in use. *)
Lemma good_insert s id p nxt : good s → paths s !! id = None → pathID p = id → 0 <= lastSent p < nextNumber p →
  nextNumber p <= 1 + 2 * Z.of_nat (tick s) → tracks (λ _, False) (lastSent p) (sent p) →
  0 <= nxt <= 2 * Z.of_nat (size (paths s)) + 2 → Z.rem nxt 2 = ownParity s → nxtPathID (manager s) <= nxt → (Z.rem id 2 = ownParity s → id < nxt) →
  good (set_manager (MkPathManager (createsPaths (manager s)) (launched (manager s)) nxt (remoteAddrs4 (manager s)) (remoteAddrs6 (manager s)))
          (set_paths (<[id := p]> (paths s)) s)).
Proof.
  intros [H1 H2 H3 H4 H5 H6] E Ei El En Ht Hn Hr Hm Ho. split.
  - apply map_Forall_insert_2; [split; try done; by eapply tracks_impl; [|exact Ht]|]. intros i q Hq. by destruct (H1 i q Hq).
  - intros i a Ha. destruct (H2 i a Ha) as (q & Eq & Hq). exists q. cbn. rewrite lookup_insert_ne by congruence. done.
  - done.
  - intros k v Hk. destruct (H4 k v Hk) as (?&(q1&E1&N1)&(q2&E2&N2)).
    split_and!; [done|exists q1|exists q2]; cbn; rewrite lookup_insert_ne by congruence; done.
  - cbn. rewrite map_size_insert_None by done. split; [lia|done].
  - cbn. intros i Hi Hri. destruct (decide (i = id)) as [->|Hne]; [by apply Ho|]. rewrite lookup_insert_ne in Hi by done.
    specialize (H6 i Hi Hri). lia.
Qed.

Lemma size_insert_le (m : gmap Z path) id p : (size m <= size (<[id := p]> m))%nat.
Proof. destruct (m !! id) eqn:E; [rewrite map_size_insert_Some by eauto|rewrite map_size_insert_None by done]; lia. Qed.

Definition newPath s id local remote : path :=
  MkSessionPath id local remote (sentPacketHandler.NewSentPacketHandler newRTT (newCong id) id)
    (receivedPacketHandler.NewReceivedPacketHandler (version s)) true false false false
    (packetNumberGenerator.newPacketNumberGenerator SkipPacketAveragePeriodLength) 0 0 0 (clock e (tick s)).

Lemma keeps_createPath local remote : keeps (createPath e cp lim cryptoSetup truncate newRTT newCong local remote).
Proof.
  unfold createPath. intros s Hi _. unfold mbind at 1, M_bind at 1. cbn [get]. cbv beta iota.
  match goal with |- context [if existsb ?f ?l then _ else _] => destruct (existsb f l); [by split_and!; [|apply extends_refl|]|] end.
  set (id := nxtPathID (manager s)). set (p := newPath s id local remote).
  set (s1 := set_manager (MkPathManager (createsPaths (manager s)) (launched (manager s)) (u8 (nxtPathID (manager s) + 2))
               (remoteAddrs4 (manager s)) (remoteAddrs6 (manager s))) (set_paths (<[id := p]> (paths (ticked s))) (ticked s))).
  assert (late s → late s1) as Hl.
  { unfold late. cbn. pose proof (size_insert_le (paths s) id p). lia. }
  assert (inv s1) as Hi1.
  { destruct Hi as [|Hg]; [left; auto|]. destruct (decide (127 <= size (paths s1))%nat); [left; by right|]. right.
    pose proof (good_next s Hg) as [[Hn0 Hn1] Hr]. fold id in Hn0, Hn1, Hr.
    assert (paths s !! id = None) as En.
    { destruct (paths s !! id) eqn:E; [|done]. pose proof (good_own s Hg id ltac:(eauto) Hr). unfold id in *. lia. }
    cbn in n. rewrite map_size_insert_None in n by done.
    assert (u8 (id + 2) = id + 2) as Eu by zlia.
    apply (good_insert (ticked s)); cbn; try done; fold id; rewrite ?Eu; try lia; [by apply ticked_good|].
    change (Z.rem (id + 2) 2 = ownParity s). rewrite <- Hr. clear -Hn0. lia. }
  assert (extends s s1) as He1 by by split.
  pose proof (keeps_sendPing e cp lim cryptoSetup truncate id s1 Hi1 I) as Hp.
  match goal with |- match ?x with Done _ _ => _ | _ => _ end => change x with (sendPing e cp lim cryptoSetup truncate id s1) end.
  destruct (sendPing e cp lim cryptoSetup truncate id s1); try done; destruct Hp as [? Hp]; [destruct Hp|].
  - split_and!; [done|by eapply extends_trans|done].
  - split; [done|by eapply extends_trans].
Qed.

Lemma keeps_createPathFromRemote (pkt : receivedPacket) : keeps (createPathFromRemote e newRTT newCong pkt).
Proof.
  unfold createPathFromRemote. intros s Hi _. unfold mbind at 1, M_bind at 1. cbn [get]. cbv beta iota.
  set (id := PublicHeader.PathID (publicHeader pkt)).
  case_bool_decide as Hs; [by split; [|apply extends_refl]|].
  destruct (bool_decide (perspective s = PerspectiveClient) && negb (Z.rem id 2 =? 0)) eqn:E1; [by split; [|apply extends_refl]|].
  destruct (bool_decide (perspective s = PerspectiveServer) && (Z.rem id 2 =? 0)) eqn:E2; [by split; [|apply extends_refl]|].
  set (p := newPath s id (toAddr pkt) (fromAddr pkt)). set (s1 := set_paths (<[id := p]> (paths (ticked s))) (ticked s)).
  assert (late s → late s1) as Hl by (unfold late; cbn; pose proof (size_insert_le (paths s) id p); lia).
  change (inv s1 ∧ extends s s1 ∧ True). split_and!; [|by split|done].
  destruct Hi as [|Hg]; [left; auto|right]. assert (paths s !! id = None) as En by by apply eq_None_not_Some.
  pose proof (good_next s Hg) as [[Hn0 Hn1] Hr].
  eapply good_core; [|apply (good_insert (ticked s) id p (nxtPathID (manager s)))]; cbn; try done; try lia; [by apply ticked_good|].
  unfold ownParity. cbn. apply andb_false_iff in E1, E2.
  destruct (perspective s); cbn in *; [destruct E2 as [|E2%Z.eqb_neq]; [done|lia]|].
  destruct E1 as [|E1%negb_false_iff]; [done|]. apply Z.eqb_eq in E1. lia.
Qed.
Hint Resolve keeps_createPath keeps_createPathFromRemote : keeps.

Notation createPaths := (createPaths e cp lim cryptoSetup truncate newRTT newCong).
Notation handleFrames := (handleFrames e cp lim cryptoSetup truncate newRTT newCong).

Lemma keeps_updateManager f : (∀ m, nxtPathID (f m) = nxtPathID m) → keeps (updateManager f).
Proof. intros H. apply keeps_modify. intros s. unfold core. cbn. by rewrite H. Qed.

Lemma keeps_createPaths addrs : keeps (createPaths addrs).
Proof. unfold sessionRun.createPaths. keep. Qed.
Hint Resolve keeps_createPaths : keeps.

Lemma keeps_handleAddAddressFrame addrs f : keeps (handleAddAddressFrame e cp lim cryptoSetup truncate newRTT newCong addrs f).
Proof.
  unfold handleAddAddressFrame. apply keeps_bind; [|intros _; keep].
  case_match; [by apply keeps_updateManager|]. case_match; [by apply keeps_updateManager|apply keeps_raise].
Qed.

Lemma keeps_managerClosePath id : keeps (managerClosePath id).
Proof.
  unfold managerClosePath. eapply triple_bind; [apply (triple_get (λ _, True))|]. intros x.
  destruct (paths x !! id) as [p|] eqn:E; [|apply triple_weaken, keeps_ret]. case_match; [|apply triple_weaken, keeps_ret].
  eapply triple_conseq; [| |apply (triple_put id p); by apply evolves_received]; [|done]. by intros s [<- _].
Qed.

Lemma holds_ticked id p s : holds id p s → holds id p (ticked s).
Proof. done. Qed.

Lemma keeps_calls (calls : list (Z * Z)) : keeps (forM calls (λ c, crossAckHandling c.1 c.2) : M unit).
Proof. keep. Qed.

Lemma keeps_handleAckFrame f : keeps (handleAckFrame e f).
Proof.
  unfold handleAckFrame. apply keeps_with. intros p.
  eapply triple_bind; [apply triple_reading; intros s; apply holds_ticked|]. intros t1.
  eapply triple_bind; [apply triple_reading; intros s; apply holds_ticked|]. intros t2.
  destruct (sentPacketHandler.ReceivedAck _ _ _ _ _ _) as [[[h err] calls]| |] eqn:E; [|apply triple_weaken, keeps_crash..].
  apply triple_put_then; [apply evolves_sent; intros T n; by eapply ReceivedAck_tracks|].
  apply keeps_bind; [apply keeps_calls|]. intros _. apply keeps_bind; [keep|]. intros _. apply keeps_bind; [keep|]. intros q.
  apply keeps_bind; [keep|]. intros s. case_match; [|apply keeps_ret]. by apply keeps_updatePath.
Qed.

Lemma keeps_closePath id b : keeps (closePath id b).
Proof.
  unfold closePath. apply keeps_bind; [keep|]. intros s. case_match; [|apply keeps_raise]. case_match; [apply keeps_ret|].
  apply keeps_bind; [apply keeps_managerClosePath|]. intros _. apply keeps_bind; [keep|]. intros _. case_match; [apply keeps_ret|].
  apply keeps_bind; [apply keeps_updatePath; intros p; apply evolves_sent; intros T n; apply SetInflightAsLost_tracks|]. intros _.
  unfold GetClosePathFrame. keep.
Qed.

Lemma keeps_handleClosePathFrame f : keeps (handleClosePathFrame f).
Proof.
  unfold handleClosePathFrame. apply keeps_bind; [apply keeps_closePath|]. intros _. apply keeps_with. intros p.
  destruct (sentPacketHandler.ReceivedClosePath _ _ _) as [[[h err] calls]| |] eqn:E; [|apply triple_weaken, keeps_crash..].
  apply triple_put_then; [apply evolves_sent; intros T n; by eapply ReceivedClosePath_tracks|].
  apply keeps_bind; [apply keeps_calls|]. intros _. keep.
Qed.

Lemma keeps_handlePaths i n f : keeps (handlePaths i n f).
Proof.
  revert i. induction n as [|n IH]; intros i; simpl; [apply keeps_ret|]. destruct (_ !! i); [|apply keeps_crash]. destruct (_ !! i); [|apply keeps_crash].
  apply keeps_bind; [keep|]. intros _. apply keeps_bind; [|intros _; apply IH]. case_match; [|apply keeps_ret].
  apply keeps_updatePath. intros p. by apply evolves_received.
Qed.

Lemma keeps_handleRstStream f : keeps (handleRstStream cp lim f).
Proof. unfold handleRstStream, queueResetStreamFrame. keep. Qed.
Lemma keeps_handleStream f : keeps (handleStream cp lim f).
Proof. unfold handleStream. keep. Qed.
Lemma keeps_handleWindowUpdate f : keeps (handleWindowUpdate cp lim f).
Proof. unfold handleWindowUpdate. keep. Qed.
Hint Resolve keeps_handleAddAddressFrame keeps_handleAckFrame keeps_handleClosePathFrame keeps_handlePaths keeps_handleRstStream
  keeps_handleStream keeps_handleWindowUpdate : keeps.

Lemma keeps_handleFrames addrs fs id : keeps (handleFrames addrs fs id).
Proof.
  unfold sessionRun.handleFrames. apply keeps_forM. intros f _. apply keeps_bind; [|intros r; keep]. apply keeps_try.
  unfold handleFrame. destruct f; try solve [keep]; [apply keeps_close_with|]. apply keeps_updatePath. intros p. by apply evolves_received.
Qed.

Notation pathHandlePacket := (pathHandlePacket e cp lim cryptoSetup truncate Open newRTT newCong).
Notation handlePacketImpl := (handlePacketImpl e cp lim cryptoSetup truncate Open newRTT newCong).

Lemma keeps_set id (f : path → path) : (∀ p, pathID (f p) = pathID p ∧ generator (f p) = generator p ∧ sent (f p) = sent p) → keeps (updatePath id f).
Proof. intros H. apply keeps_updatePath. intros p. by apply evolves_received; apply H. Qed.

Lemma keeps_pathHandlePacket addrs id (pkt : receivedPacket) : keeps (pathHandlePacket addrs id pkt).
Proof.
  unfold sessionRun.pathHandlePacket. apply keeps_bind; [keep|]. intros p. case_match; [apply keeps_ret|].
  apply keeps_bind; [case_match; [by apply keeps_set|apply keeps_ret]|]. intros _. apply keeps_bind; [by apply keeps_set|]. intros _.
  apply keeps_bind; [keep|]. intros s. destruct (packetUnpacker.Unpack _ _ _ _ _ _) as [[[level fs]|err|]|]; [| |apply keeps_crash..].
  - apply keeps_bind; [case_match; [by apply keeps_set|apply keeps_ret]|]. intros _. apply keeps_bind; [by apply keeps_set|]. intros _.
    apply keeps_bind; [by apply keeps_set|]. intros _. apply keeps_bind; [keep|]. intros t. apply keeps_with. intros q.
    destruct (receivedPacketHandler.ReceivedPacket _ _ _ _ _) as [h err]. apply triple_put_then; [by apply evolves_received|].
    destruct err; [apply keeps_ret|]. apply keeps_bind; [apply keeps_try, keeps_handleFrames|]. intros r. keep.
  - apply keeps_bind; [|intros _; keep]. case_match; [apply keeps_ret|]. case_match; [by apply keeps_set|apply keeps_ret].
Qed.
Hint Resolve keeps_pathHandlePacket : keeps.

Lemma keeps_handlePacketImpl addrs (pkt : receivedPacket) : keeps (handlePacketImpl addrs pkt).
Proof. unfold sessionRun.handlePacketImpl. keep. Qed.
Lemma keeps_handlePacket (pkt : receivedPacket) : keeps (handlePacket pkt : M unit).
Proof. apply keeps_modify. intros s. by case_match. Qed.
Hint Resolve keeps_handlePacketImpl keeps_handlePacket : keeps.

Lemma keeps_OnAlarm id : keeps (OnAlarm e id).
Proof.
  unfold OnAlarm. apply keeps_bind; [keep|]. intros p. apply keeps_bind.
  { case_match; [|apply keeps_ret]. unfold onRTO. apply keeps_with. intros q. case_match; [|apply triple_weaken, keeps_ret].
    apply triple_put_then; [by apply evolves_received|]. keep. }
  intros failed. apply keeps_bind; [keep|]. intros t. apply keeps_updatePath. intros q. apply evolves_sent. intros T n. apply OnAlarm_tracks.
Qed.
Hint Resolve keeps_OnAlarm : keeps.

Lemma keeps_select addrs ev : keeps (select e cp lim cryptoSetup truncate Open newRTT newCong addrs ev).
Proof.
  unfold select, tryDecryptingQueuedPackets, tryQueueingUndecryptablePacket, closeLocal. destruct ev; keep.
Qed.

Lemma keeps_checkTimeouts t : keeps (checkTimeouts config t).
Proof. unfold checkTimeouts, closeLocal. keep. Qed.
Lemma keeps_maybePing : keeps (maybePing e config).
Proof. unfold maybePing. keep. Qed.

Lemma keeps_iteration addrs fuel ev :
  keeps (iteration e cp lim cryptoSetup truncate SchedulerAlgorithm config Open newRTT newCong addrs fuel ev).
Proof.
  unfold iteration. apply keeps_bind; [apply keeps_select|]. intros goes_on. case_match; [apply keeps_ret|].
  apply keeps_bind; [keep|]. intros t. apply keeps_bind; [unfold pathAlarm; keep|]. intros _.
  apply keeps_bind; [apply keeps_modify; intros s; by case_match|]. intros _. apply keeps_bind; [apply keeps_maybePing|]. intros _.
  apply keeps_bind; [apply keeps_try, keeps_sendPacket|]. intros r. apply keeps_bind; [unfold closeLocal; keep|]. intros _.
  apply keeps_bind; [apply keeps_checkTimeouts|]. intros _. apply keeps_bind; [keep|]. intros s. apply keeps_bind; [keep|]. intros _.
  apply keeps_modify. intros s'. by destruct (session_streams.garbageCollectStreams _ _).
Qed.

Lemma keeps_pathRunEnds id : keeps (pathRunEnds id).
Proof.
  unfold pathRunEnds. apply keeps_with. intros p. case_match; [|apply triple_weaken, keeps_ret].
  eapply triple_conseq; [| |apply (triple_put id p); by apply evolves_received]; done.
Qed.

(** ** What holds in every run *)

Definition returns {A} (m : M A) s s' : Prop := (∃ a, m s = Done s' a) ∨ ∃ err, m s = Fails s' err.

(** The states of a session: the iterations of its loop, what its other goroutines do (the
    path manager, the end of the goroutine of a path, packets that arrive), the closing of a
    path, and what the application does to the streams. *)
Inductive reachable : session → Prop :=
  | reach_new pers vers cid create local remote t : reachable (newSession cp lim newRTT newCong pers vers cid create local remote t)
  | reach_iteration addrs fuel ev s s' : reachable s →
      returns (iteration e cp lim cryptoSetup truncate SchedulerAlgorithm config Open newRTT newCong addrs fuel ev) s s' → reachable s'
  | reach_createPaths addrs s s' : reachable s → returns (createPaths addrs) s s' → reachable s'
  | reach_pathRunEnds id s s' : reachable s → returns (pathRunEnds id) s s' → reachable s'
  | reach_handlePacket (pkt : receivedPacket) s s' : reachable s → returns (handlePacket pkt) s s' → reachable s'
  | reach_closePath id b s s' : reachable s → returns (closePath id b) s s' → reachable s'
  | reach_streams m f s : reachable s → reachable (set_flow f (set_streams m s)).

Lemma new_good pers vers cid create local remote t : good (newSession cp lim newRTT newCong pers vers cid create local remote t).
Proof.
  unfold newSession. set (x := match pers with PerspectiveServer => _ | _ => _ end). destruct x as [m flow]. split; cbn [paths output sched manager newScheduler dupPackets nxtPathID].
  - apply map_Forall_singleton. by split; cbn; try lia; split_and!.
  - intros id pkt H. by apply elem_of_nil in H.
  - intros i j id a b _ H. done.
  - intros k v H. by rewrite lookup_empty in H.
  - rewrite map_size_singleton. unfold ownParity. cbn. by destruct pers.
  - intros id [p Hp]. apply lookup_singleton_Some in Hp as [<- _]. unfold ownParity. cbn. by destruct pers.
Qed.

Lemma returns_inv {A} (m : M A) s s' : keeps m → inv s → returns m s s' → inv s'.
Proof. intros Hk Hi H. specialize (Hk s Hi I). destruct H as [[a E]|[err E]]; rewrite E in Hk; apply Hk. Qed.

Lemma session_reachable_inv s : reachable s → inv s.
Proof.
  induction 1 as [|addrs fuel ev s s' _ IH H|addrs s s' _ IH H|id s s' _ IH H|pkt s s' _ IH H|id b s s' _ IH H|m f s _ IH].
  - right. apply new_good.
  - eapply returns_inv; [apply keeps_iteration|done..].
  - eapply returns_inv; [apply keeps_createPaths|done..].
  - eapply returns_inv; [apply keeps_pathRunEnds|done..].
  - eapply returns_inv; [apply keeps_handlePacket|done..].
  - eapply returns_inv; [apply keeps_closePath|done..].
  - by apply (core_extends s).
Qed.

(** C5: packet numbers are never used twice. In every run of a session, whatever arrives,
    whatever the scheduling algorithm, and also when the last iteration fails, panics or
    waits for ever: the packets that were written on a path have strictly increasing
    numbers (for runs of fewer than 2^60 readings of the environment and fewer than 127
    paths, whose identifiers are bytes). *)
Theorem packet_numbers_increase s addrs fuel ev :
  reachable s →
  let s' := final (iteration e cp lim cryptoSetup truncate SchedulerAlgorithm config Open newRTT newCong addrs fuel ev s) in
  Z.of_nat (tick s') < 2 ^ 60 → (size (paths s') < 127)%nat →
  ∀ i j id a b, (i < j)%nat → output s' !! i = Some (id, a) → output s' !! j = Some (id, b) → number a < number b.
Proof.
  intros Hr s' Ht Hs. assert (weak s') as [Hl|H]; [|unfold late in Hl; lia|exact H].
  pose proof (keeps_iteration addrs fuel ev s (session_reachable_inv s Hr) I) as Hk. unfold s'.
  destruct (iteration e cp lim cryptoSetup truncate SchedulerAlgorithm config Open newRTT newCong addrs fuel ev s); cbn; try done;
    apply inv_weak; apply Hk.
Qed.

(** The packets of a path that are in flight or will be sent again. *)
Definition kept s id (q : Packet) : Prop := ∃ p, paths s !! id = Some p ∧
  q ∈ sentPacketHandler.packetHistory (sent p) ++ sentPacketHandler.retransmissionQueue (sent p).

(** C21: redundant packets are taken back safely. In every state that a session reaches, when
    a packet that was written is acknowledged and crossAckHandling is called for it, the
    call returns, the duplicate is forgotten, and a packet that is no longer kept for
    retransmission on some path contained only frames that the acknowledged packet carried. *)
Theorem duplicates_dropped_safely s id pkt :
  reachable s → Z.of_nat (tick s) < 2 ^ 60 → (size (paths s) < 127)%nat → (id, pkt) ∈ output s →
  ∃ s', crossAckHandling id (number pkt) s = Done s' tt ∧ dupPackets (sched s') !! (id, number pkt) = None ∧
    ∀ i q, kept s i q → kept s' i q ∨ ∀ f : Frame, f ∈ strip (Frames q) → f ∈ frames pkt.
Proof.
  intros Hr Ht Hs Hp. destruct (session_reachable_inv s Hr) as [Hl|Hg]; [unfold late in Hl; lia|].
  unfold crossAckHandling, mbind, M_bind. cbn. destruct (dupPackets (sched s) !! (id, number pkt)) as [[i' n']|] eqn:Ed.
  2: { cbn. eexists. split; [done|]. cbn. split; [apply lookup_delete_eq|]. intros i q Hq. by left. }
  destruct (good_dup s Hg _ _ Ed) as (Hc & _ & p' & Ep & _). unfold getPath. cbn in Ep |- *. rewrite Ep.
  pose proof (λ q, RemovePacketByNumber_others (sent p') n' q) as Ho.
  destruct (sentPacketHandler.RemovePacketByNumber (sent p') n') as [h removed]. cbn in Ho.
  set (p1 := set_sent h p').
  assert (∀ i q, kept s i q → (∃ p, (<[i' := p1]> (paths s)) !! i = Some p ∧
    q ∈ sentPacketHandler.packetHistory (sent p) ++ sentPacketHandler.retransmissionQueue (sent p)) ∨
    ∀ f : Frame, f ∈ strip (Frames q) → f ∈ frames pkt) as Hkept.
  { intros i q (p & Eq & Hq). destruct (decide (i = i')) as [->|Hne]; [|left; exists p; by rewrite lookup_insert_ne].
    rewrite Ep in Eq. simplify_eq. destruct (decide (PacketNumber q = n')) as [<-|Hn].
    - right. intros f Hf. pose proof (gp_tracks _ _ _ (good_paths s Hg i' p Ep)) as (_ & Hh & Hqq).
      assert (known (output s) i' q) as (b & Hb & Eb & Es).
      { apply elem_of_app in Hq as [Hq|Hq]; [by apply (proj1 (Forall_forall _ _) Hh)|by apply (proj1 (Forall_forall _ _) Hqq)]. }
      apply (Hc pkt b); try done. by rewrite <- Es.
    - left. exists p1. rewrite lookup_insert_eq. split; [done|]. by apply Ho. }
  destruct removed; cbn; (eexists; split; [reflexivity|]; cbn; split; [apply lookup_delete_eq|exact Hkept]).
Qed.

End running.
End safety.
