(* ===== verification/SessionExamples.v ===== *)
(** * SessionExamples: sessions that run

    A client with two paths, whose sessions use the congestion control of cubic_sender.go
    and the RTT statistics of rtt_stats.go, is run step by step. The first part shows that
    the theorems on the scheduler and on the session loop are about sessions that exist; the
    second part has what these runs show of the program: packets that are duplicated without
    end on a path that has failed, a session that waits for ever because a path was closed,
    and a goroutine that dereferences a nil packet. *)
From S2P Require Import Prelude Protocol ByteOrder AckFrames Frames PublicHeader ReceivedPackets GoFloat SentPackets RttStats Congestion FlowControl FrameSorter.
From S2P Require Import Stream StreamsMap StreamFramer PacketPacker Session Scheduler SessionRun SessionSafety.

Module SessionExamples.
Import protocol session sessionRun.
Import FlowExamples (cp).
Import StreamsMapExamples (lim).
Import PackerExamples (setup).

(** ** The sessions *)

#[local] Instance sessionRTT_stats : SessionRTT rtt_stats.RTTStats := rtt_stats.UpdateSessionRTT.

(** A clock that advances by a millisecond with every reading; no write fails, and maps are
    traversed in the order of the keys. *)
Definition clk (n : nat) : Z := 1000000 * (1 + Z.of_nat n).
#[local] Instance cubic_clocked : SendAlgorithm rtt_stats.RTTStats clocked := cubic_SendAlgorithm clk.
Definition world_env : env := MkEnv clk (λ n _, (clk n, clk n)) (λ _, None) (λ _, None) (λ _ l, l).

Definition local0 : net.UDPAddr := net.MkUDPAddr [10;0;0;1] 999 "".
Definition local1 : net.UDPAddr := net.MkUDPAddr [10;0;0;1] 1000 "".
Definition local2 : net.UDPAddr := net.MkUDPAddr [10;0;1;1] 1001 "".
Definition remote : net.UDPAddr := net.MkUDPAddr [10;0;2;1] 443 "".
Definition cong (id : Z) : clocked := (0%nat, cubic_sender.NewCubicSender false 32 2500).
Definition config : Config := MkConfig false (10 * time.Second) (30 * time.Second).
Notation S := (@session rtt_stats.RTTStats clocked).

Definition fresh : S :=
  newSession cp lim rtt_stats.zeroRTTStats cong PerspectiveClient 512 77 true local0 remote 1.

(** An iteration of the session loop; nothing that arrives can be decrypted. *)
Definition step (alg : string) (fuel : nat) (ev : event) : S → result S unit :=
  iteration world_env cp lim setup false alg config (λ _ _ _, None) rtt_stats.zeroRTTStats cong [] fuel ev.
Definition addPaths : S → result S unit :=
  createPaths world_env cp lim setup false rtt_stats.zeroRTTStats cong [local1; local2].
Definition send (alg : string) (fuel : nat) : S → result S unit :=
  scheduler.sendPacket world_env cp lim setup false alg fuel.

(** The application opens the first two data streams and writes on the second one. *)
Definition with_data (bs : list Z) (s : S) : S :=
  let '(m, f, _) := streamsMap.OpenStream cp lim (streams s) (flow s) in
  let '(m, f, _) := streamsMap.OpenStream cp lim m f in
  set_flow f (set_streams (session_streams.setStream (stream.Write bs 100 (stream.newStream 5)).1.1 m) s).

(** It writes again. *)
Definition more (bs : list Z) (s : S) : S :=
  match streamsMap.streams (streams s) !! 5 with
  | Some st => set_streams (session_streams.setStream (stream.Write bs 100 st).1.1 (streams s)) s
  | None => s
  end.

(** After the handshake the path manager has created paths 1 and 3, and the application has
    written four bytes. *)
Definition connected (alg : string) : S := final (step alg 10 EvHandshakeComplete fresh).
Definition multipath (alg : string) : S := final (addPaths (connected alg)).
Definition sending (alg : string) : S := with_data [1;2;3;4] (multipath alg).
Definition sent_twice : S := final (step "oppRedundant" 10 EvWake (sending "oppRedundant")).

Definition kind {A B} (r : result A B) : string :=
  match r with Done _ _ => "done" | Fails _ _ => "fails" | Panics _ => "panics" | Blocks _ => "blocks" | Runs _ => "runs" end.
Definition written (s : S) : list (Z * Z) := (λ x : Z * packetPacker.packedPacket, (x.1, packetPacker.number x.2)) <$> output s.

(** ** What can happen *)

Notation reaches alg := (reachable world_env cp lim setup false alg config (λ _ _ _, None) rtt_stats.zeroRTTStats cong).

Definition came_back {A} (r : result S A) : bool := match r with Done _ _ | Fails _ _ => true | _ => false end.

Lemma returns_final {A} (m : S → result S A) (s : S) : came_back (m s) = true → returns m s (final (m s)).
Proof. unfold returns. destruct (m s); try done; [left|right]; eauto. Qed.

Lemma with_data_reachable alg bs s : reaches alg s → reaches alg (with_data bs s).
Proof.
  intros H. unfold with_data. destruct (streamsMap.OpenStream cp lim (streams s) (flow s)) as [[m f] x].
  destruct (streamsMap.OpenStream cp lim m f) as [[m' f'] x']. by apply reach_streams.
Qed.

Lemma multipath_reachable alg : came_back (step alg 10 EvHandshakeComplete fresh) = true →
  came_back (addPaths (connected alg)) = true → reaches alg (multipath alg).
Proof.
  intros H1 H2. apply (reach_createPaths _ _ _ _ _ _ _ _ _ _ [local1; local2] (connected alg)).
  - apply (reach_iteration _ _ _ _ _ _ _ _ _ _ [] 10 EvHandshakeComplete fresh); [apply reach_new|exact (returns_final _ _ H1)].
  - exact (returns_final _ _ H2).
Qed.

Lemma sending_reachable : reaches "oppRedundant" (sending "oppRedundant").
Proof. apply with_data_reachable, multipath_reachable; vm_compute; reflexivity. Qed.

Lemma sent_twice_reachable : reaches "oppRedundant" sent_twice.
Proof.
  apply (reach_iteration _ _ _ _ _ _ _ _ _ _ [] 10 EvWake (sending "oppRedundant")); [exact sending_reachable|].
  refine (returns_final _ _ _). vm_compute. reflexivity.
Qed.

(** The packet that was written as the [n]-th one. *)
Definition packetAt (n : nat) : packetPacker.packedPacket :=
  match output sent_twice !! n with Some (_, pkt) => pkt | None => packetPacker.MkPacked 0 [] [] EncryptionUnspecified end.
Lemma packet_numbers_increase_witness : packetPacker.number (packetAt 0) < packetPacker.number (packetAt 3).
Proof.
  refine (packet_numbers_increase world_env cp lim setup false "oppRedundant" config (λ _ _ _, None) rtt_stats.zeroRTTStats cong
    (sending "oppRedundant") [] 10 EvWake sending_reachable _ _ 0 3 1 (packetAt 0) (packetAt 3) _ _ _).
  - vm_compute. reflexivity.
  - apply Nat.ltb_lt. vm_compute. reflexivity.
  - lia.
  - vm_compute. reflexivity.
  - vm_compute. reflexivity.
Defined.

Lemma duplicates_dropped_safely_witness :
  ∃ s' : S, crossAckHandling 3 (packetPacker.number (packetAt 2)) sent_twice = Done s' tt ∧
    dupPackets (sched s') !! (3, packetPacker.number (packetAt 2)) = None ∧
    ∀ i q, kept sent_twice i q → kept s' i q ∨ ∀ f : Frame, f ∈ stripNonRetransmittableFrames (Frames q) → f ∈ packetPacker.frames (packetAt 2).
Proof.
  refine (duplicates_dropped_safely world_env cp lim setup false "oppRedundant" config (λ _ _ _, None) rtt_stats.zeroRTTStats cong
    sent_twice 3 (packetAt 2) sent_twice_reachable _ _ _).
  - vm_compute. reflexivity.
  - apply Nat.ltb_lt. vm_compute. reflexivity.
  - refine (list_elem_of_lookup_2 _ 2 _ _). vm_compute. reflexivity.
Defined.

(** A PING that was sent on path 1 is lost. *)
Definition lossy : S := final (OnAlarm world_env 1 (sending "RR")).

Lemma world_traverses : traverses world_env.
Proof. by intros t l. Qed.


Lemma low_latency_optimal_witness : ∃ qs r,
  let m := paths (sending "RR") in
  scheduler.selectPathLowLatency m (map_to_list m) (map_to_list m) ∅ false false None = Ok (qs, r) ∧
  ∀ i, scheduler.quotaOf qs i = scheduler.quotaOf ∅ i.
Proof.
  destruct (low_latency_optimal (paths (sending "RR")) (map_to_list (paths (sending "RR"))) (map_to_list (paths (sending "RR"))) ∅ false None)
    as (qs & r & E & Hq & Hr).
  - exact (Permutation_refl _).
  - apply Nat.ltb_lt. vm_compute. reflexivity.
  - exact (ex_intro _ qs (ex_intro _ r (conj E Hq))).
Defined.

Lemma retransmissions_conserved_witness : ∃ s' has hs from taken,
  scheduler.getRetransmission world_env lossy = Done s' (has, hs, from) ∧ queued (paths lossy) ≡ₚ taken ++ queued (paths s').
Proof.
  destruct (retransmissions_conserved world_env lossy world_traverses) as (s' & has & hs & from & taken & E & Hq & _).
  exact (ex_intro _ s' (ex_intro _ has (ex_intro _ hs (ex_intro _ from (ex_intro _ taken (conj E Hq)))))).
Defined.

(** A header with an odd path identifier that is not in use, sent to a client. *)
Definition forged : receivedPacket :=
  MkReceivedPacket remote local1 (PublicHeader.MkPublicHeader [] 77 7 false false false true 1 1 0 [] []) [0] 5.
Definition attacked : S := final (handlePacket forged (sending "RR")).

Lemma forged_packet_closes_witness : ∃ s' err, step "RR" 10 EvPacket attacked = Done s' tt ∧
  closing s' = Some (MkCloseError (Some err) false).
Proof.
  refine (forged_packet_closes world_env cp lim setup false "RR" config (λ _ _ _, None) rtt_stats.zeroRTTStats cong
    attacked forged [] [] 10 _ _ _ _).
  - vm_compute. reflexivity.
  - vm_compute. reflexivity.
  - vm_compute. reflexivity.
  - vm_compute. discriminate.
Defined.

Definition ack9 : AckFrame.AckFrame := AckFrame.MkAckFrame 9 1 1 [] 0 0.
Definition paths9 : PathsFrame.PathsFrame := PathsFrame.MkPathsFrame 255 1 [9] [30 * Minute].

Lemma unknown_path_panics_witness (handle := handleFrames world_env cp lim setup false rtt_stats.zeroRTTStats cong []) :
  handle [FAck ack9] 1 (sending "RR") = Panics (sending "RR") ∧ kind (handle [FPaths paths9] 1 (sending "RR")) = "panics".
Proof.
  destruct (unknown_path_panics world_env cp lim setup false rtt_stats.zeroRTTStats cong [] 1 (sending "RR") ack9 [] paths9 9 [] (30 * Minute) [] 0)
    as [H1 H2].
  - vm_compute. reflexivity.
  - vm_compute. reflexivity.
  - reflexivity.
  - reflexivity.
  - reflexivity.
  - vm_compute. discriminate.
  - split; [exact H1|]. unfold handle. rewrite H2. reflexivity.
Defined.

(** ** Where the program leaves its intention *)

Definition fail (ids : list Z) (s : S) : S := final (forM ids (λ id, updatePath id (set_potentiallyFailed true)) s).

(** A path that has failed makes the scheduler send without end. Four bytes are to be sent
    and one of two paths is marked as failed. A packet that was sent on the other path is
    duplicated for the failed path, the duplicate is taken for a packet to be sent again,
    sent on the path that works, and duplicated again: after 40 rounds, 40 packets have been
    written on path 1, and sendPacket still has not returned. *)
Theorem duplicate_storm : let r := send "RR" 40 (fail [3] (sending "RR")) in
  kind r = "runs" ∧ written (final r) = [(1, 1); (3, 1)] ++ ((λ n : nat, (1, Z.of_nat n)) <$> seq 2 40).
Proof. vm_compute. split; reflexivity. Qed.

(** Path 3 is closed, and its goroutine has ended. *)
Definition closed3 : S := final (pathRunEnds 3 (final (closePath 3 false (sending "RR")))).
Definition wrote_on_closed (alg : string) : S := final (send alg 10 closed3).

(** A closed path blocks the session. Packets are still duplicated on a path that was closed
    (the second packet of path 3 is written after its goroutine has ended), and the signal
    that a packet was sent is written to a channel from which nobody reads any more: with
    the next data the goroutine of the session waits for ever, with either of the two
    scheduling algorithms. *)
Theorem closed_path_blocks :
  open <$> paths closed3 !! 3 = Some false ∧
  written (wrote_on_closed "RR") = [(1, 1); (3, 1); (1, 2); (3, 2)] ∧
  kind (send "RR" 10 (more [5;6] (wrote_on_closed "RR"))) = "blocks" ∧
  kind (send "lowRTT" 10 (more [5;6] (wrote_on_closed "lowRTT"))) = "blocks".
Proof. vm_compute. split_and!; reflexivity. Qed.

(** Packet 1 of path 1 is acknowledged, so that a STOP_WAITING frame is due on it; no path
    can send, and the peer has sent a BLOCKED frame. *)
Definition blocked : S :=
  let ack := AckFrame.MkAckFrame 1 1 1 [] 0 0 in
  set_peerBlocked true (fail [1;3] (final (handleAckFrame world_env ack (final (updatePath 1 (set_lastRcvdPacketNumber 1) (multipath "lowRTT")))))).
Definition keepAlive : Config := MkConfig true (10 * time.Second) (10 * time.Millisecond).

(** A PING to keep the connection alive can crash the program. When a STOP_WAITING frame is
    due on a path, a packet with a PING alone is taken for one that has nothing but that
    STOP_WAITING frame and is not made; ackRemainingPaths sends the nil packet. *)
Theorem keep_alive_panics :
  kind (iteration world_env cp lim setup false "lowRTT" keepAlive (λ _ _ _, None) rtt_stats.zeroRTTStats cong [] 10 EvWake blocked) = "panics".
Proof. vm_compute. reflexivity. Qed.

(** 172.16.0.0/12 is not recognized in the form that net.IPv4 makes: the second byte is
    taken from the 16-byte form. *)
Theorem private_address_missed :
  isLinkLocal (net.IPv4 172 16 0 1) = Ok false ∧ isLinkLocal [172;16;0;1] = Ok true.
Proof. split; reflexivity. Qed.

End SessionExamples.
