(* ===== verification/SessionClose.v ===== *)
(** * SessionClose: the end of a session

    [session.go]: what happens when the run loop of a session has received from closeChan.
    The streams are cancelled, the goroutines of the paths are told to end and waited for,
    and the peer is told, with a CONNECTION_CLOSE frame or a public reset, unless it closed
    the connection itself or the message of the error does not fit into a packet. *)
From S2P Require Import Prelude Protocol ByteOrder AckFrames Frames PublicHeader HandshakeMessages ReceivedPackets GoFloat SentPackets RttStats Congestion FlowControl FrameSorter.
From S2P Require Import Stream StreamsMap StreamFramer PacketPacker Crypto Session Scheduler SessionRun SessionSafety SessionExamples.

Module sessionClose.
Import protocol session sessionRun.
Import packetPacker (packedPacket).

(** qerr/quic_error.go *)
Definition ToQuicError (err : error) : error :=
  match err with QuicError _ => err | _ => qerr.Error qerr.InternalError end.
Definition codeOf (err : error) : Z := match err with QuicError c => c | _ => 0 end.

(** The errors of the model keep only the code of a QuicError. Which value it is: one of the
    two variables of crypto_setup_server.go that handleCloseError compares its error with, or
    another one with its message, which is empty for a bare error code. *)
Inductive quicValue := ErrHOLExperiment | ErrNSTPExperiment | OtherError (ErrorMessage : list Z).

Definition experiment (v : quicValue) (err : error) : bool :=
  match v with OtherError _ => false | _ => bool_decide (err = qerr.Error qerr.InvalidCryptoMessageParameter) end.

(** The ErrorMessage of what ToQuicError makes of the error. *)
Definition messageOf (v : quicValue) (err : error) : list Z :=
  match err with
  | QuicError _ => match v with
                   | ErrHOLExperiment => crypto.bytesOf "HOL experiment. Unsupported"
                   | ErrNSTPExperiment => crypto.bytesOf "NSTP experiment. Unsupported"
                   | OtherError m => m
                   end
  | NewError msg => crypto.bytesOf msg
  | EOF => crypto.bytesOf "EOF"
  | UnexpectedEOF => crypto.bytesOf "unexpected EOF"
  end.

Definition errCloseSessionForNewVersion : error := NewError "closing session in order to recreate it with a new version".

Section close.
Context {R C : Type} `{!RTTStats R, !SendAlgorithm R C, !SessionRTT R}.
Context (e : env) (cryptoSetup : CryptoSetup) (truncate : bool).
Notation session := (@session R C).
Notation M := (@M R C).

(** path_manager.go *)
Definition managerClosePaths : M unit := ids ← range e paths; forM ids managerClosePath.

(** [<-pth.runClosed]: the goroutine of the path ends when it has received from closeChan. *)
Definition awaitClosed (id : Z) : M unit :=
  pathRunEnds id;; p ← getPath id; if open p then block else mret tt.

Definition closePaths : M unit :=
  managerClosePaths;;
  ids ← range e paths; forM ids awaitClosed.

(** [reason] is the message of the error. *)
Definition sendConnectionClose (errorCode : Z) (reason : list Z) : M unit :=
  updatePath InitialPathID (λ p, SetLeastUnacked (sentPacketHandler.GetLeastUnacked (sent p)) p);;
  packet ← pack e InitialPathID (packetPacker.PackConnectionClose cryptoSetup truncate
             (ConnectionCloseFrame.MkConnectionCloseFrame errorCode reason));
  match packet with
  | None => crash
  | Some packet => logPacket InitialPathID packet;; write e InitialPathID packet
  end.

(** The packet that is written. *)
Definition sendPublicReset (rejectedPacketNumber : Z) : M (list Z) :=
  p ← getPath InitialPathID; s ← get;
  match publicReset.WritePublicReset (packetPacker.connectionID (packer s)) rejectedPacketNumber 0 with
  | Ok bs => r ← reading (writeResult e); raise_if r;; mret bs
  | _ => crash
  end.

Definition closeStreams (quicErr : error) : M unit :=
  s ← get;
  match streamsMap.CloseWithError (Some quicErr) (streams s) with
  | Ok m => modify (set_streams m)
  | _ => crash
  end.

(** [v] is the value of a QUIC error; without an error it is a bare PeerGoingAway. The public
    reset that was written, if any. *)
Definition handleCloseError (v : quicValue) (closeErr : closeError) : M (option (list Z)) :=
  let '(err, v) := match session.err closeErr with
                   | Some err => (err, v)
                   | None => (qerr.Error qerr.PeerGoingAway, OtherError [])
                   end in
  let quicErr := ToQuicError err in
  closeStreams quicErr;;
  if bool_decide (err = errCloseSessionForNewVersion) then mret None
  else
    closePaths;;
    if remote closeErr then mret None
    else if bool_decide (quicErr = qerr.Error qerr.DecryptionFailure) || experiment v err then
      p ← getPath InitialPathID;
      bs ← sendPublicReset (lastRcvdPacketNumber p); mret (Some bs)
    else sendConnectionClose (codeOf quicErr) (messageOf v err);; mret None.

(** The first select of the loop sends to every path, the second lets the path manager do it. *)
Definition sendClose (id : Z) : M unit := updatePath id (set_closeChan true).
Definition leaveLoop (early : bool) : M unit :=
  if early then ids ← range e paths; forM ids sendClose else managerClosePaths.

(** What run does after its loop, with the error that it returns. *)
Definition finishRun (early : bool) (v : quicValue) : M (option error) :=
  s ← get;
  match closing s with
  | None => block
  | Some closeErr =>
      leaveLoop early;;
      try (handleCloseError v closeErr);;
      mret (session.err closeErr)
  end.

End close.
End sessionClose.

Section close_theory.
Import protocol session sessionRun sessionClose.
Import packetPacker (packedPacket).
Context {R C : Type} `{!RTTStats R, !SendAlgorithm R C, !SessionRTT R}.
Context (e : env) (cryptoSetup : CryptoSetup) (truncate : bool).
Notation session := (@session R C).
Notation path := (@path R C).
Notation M := (@M R C).
Implicit Types (s : session) (p : path).

(** ** Loops over all paths *)

(** A body that changes its own path, if that satisfies [P]. *)
Definition changes (P : path → Prop) (f : path → path) (body : Z → M unit) : Prop :=
  ∀ s id p, paths s !! id = Some p → P p → body id s = Done (set_paths (<[id := f p]> (paths s)) s) tt.

Lemma set_paths_twice ps ps' s : set_paths ps (set_paths ps' s) = set_paths ps s.
Proof. done. Qed.
Lemma set_paths_same ps s : ps = paths s → set_paths ps s = s.
Proof. intros ->. by destruct s. Qed.

Lemma forM_changes P f body ids s : changes P f body → NoDup ids → (∀ id, id ∈ ids → ∃ p, paths s !! id = Some p ∧ P p) →
  forM ids body s = Done (set_paths (map_imap (λ id p, Some (if decide (id ∈ ids) then f p else p)) (paths s)) s) tt.
Proof.
  intros Hb. revert s. induction ids as [|id ids IH]; intros s Hn Hids.
  - cbn. unfold mret, M_ret. rewrite set_paths_same; [done|]. apply map_eq. intros i.
    rewrite map_lookup_imap. by destruct (paths s !! i).
  - apply NoDup_cons in Hn as [Hid Hn]. destruct (Hids id) as (p & Hp & HP); [set_solver|].
    cbn [forM]. unfold mbind, M_bind. rewrite (Hb s id p Hp HP). rewrite IH; [|done|].
    + rewrite set_paths_twice. do 2 f_equal. cbn [paths set_paths]. apply map_eq. intros i. rewrite !map_lookup_imap.
      destruct (decide (id = i)) as [<-|Hne].
      { rewrite lookup_insert_eq, Hp. cbn. rewrite decide_False by done. by rewrite decide_True by set_solver. }
      rewrite lookup_insert_ne by done.
      destruct (paths s !! i); [|done]. cbn. f_equal. destruct (decide (i ∈ ids)); [by rewrite decide_True by set_solver|by rewrite decide_False by set_solver].
    + intros i Hi. cbn [paths set_paths]. rewrite lookup_insert_ne by (intros ->; done). apply Hids. set_solver.
Qed.

Lemma range_changes P f body s : traverses e → changes P f body → map_Forall (λ _ p, P p) (paths s) →
  (ids ← range e paths; forM ids body) s = Done (set_paths (f <$> paths s) (ticked s)) tt.
Proof.
  unfold traverses. intros He Hb HP. unfold range, reading, get, mbind, M_bind. set (ids := shuffle e (tick s) (map_to_list (paths s)).*1).
  assert (∀ id, id ∈ ids ↔ is_Some (paths s !! id)) as Hin.
  { intros id. unfold ids. rewrite He. rewrite list_elem_of_fmap. split.
    - intros ([i p] & -> & Hi%elem_of_map_to_list). eauto.
    - intros [p Hp]. exists (id, p). by rewrite elem_of_map_to_list. }
  rewrite (forM_changes P f); [|done| |].
  - cbn. do 2 f_equal. apply map_eq. intros i. rewrite map_lookup_imap, lookup_fmap. destruct (paths s !! i) as [p|] eqn:E; [|done].
    cbn. rewrite decide_True by (apply Hin; eauto). done.
  - unfold ids. rewrite He. apply NoDup_fst_map_to_list.
  - intros id [p Hp]%Hin. exists p. split; [done|]. by eapply HP.
Qed.

(** ** The paths end *)
Definition signalled (p : path) : path := if open p then set_closeChan true p else p.
Definition ended (p : path) : path := if closeChan p then set_open false (set_closeChan false p) else p.

Lemma managerClosePath_changes : changes (λ _, True) signalled managerClosePath.
Proof.
  intros s id p Hp _. unfold managerClosePath, get, mbind, M_bind. rewrite Hp. unfold signalled, putPath, modify, mret, M_ret.
  destruct (open p); [done|]. by rewrite set_paths_same by by rewrite insert_id.
Qed.

Lemma awaitClosed_changes : changes (λ p, open p = true → closeChan p = true) ended awaitClosed.
Proof.
  intros s id p Hp HP. unfold awaitClosed, pathRunEnds, getPath, mbind, M_bind. rewrite Hp. unfold ended.
  destruct (closeChan p) eqn:E.
  - unfold putPath, modify. cbn [paths set_paths]. by rewrite lookup_insert_eq.
  - cbn [mret M_ret]. rewrite Hp. destruct (open p); [by specialize (HP eq_refl)|]. unfold mret, M_ret.
    by rewrite set_paths_same by by rewrite insert_id.
Qed.

(** closePaths returns, and no path is open then. *)
Lemma closePaths_spec s : traverses e →
  closePaths e s = Done (set_paths (ended <$> (signalled <$> paths s)) (set_tick (2 + tick s) s)) tt ∧
  map_Forall (λ _ p, open p = false) (ended <$> (signalled <$> paths s)).
Proof.
  intros He. split.
  - unfold closePaths, managerClosePaths. unfold mbind at 1, M_bind at 1.
    rewrite (range_changes (λ _, True) signalled) by (done || apply managerClosePath_changes).
    rewrite (range_changes (λ p, open p = true → closeChan p = true) ended); [done|done|apply awaitClosed_changes|].
    intros id p. cbn. rewrite lookup_fmap. intros (q & _ & ->)%fmap_Some. unfold signalled. destruct (open q) eqn:E; [done|congruence].
  - intros id p. rewrite lookup_fmap. intros (q & H & ->)%fmap_Some. rewrite lookup_fmap in H. apply fmap_Some in H as (p0 & _ & ->).
    unfold ended, signalled. destruct (open p0) eqn:Eo; [done|]. destruct (closeChan p0); [done|exact Eo].
Qed.

(** ** The streams end *)
Lemma cancelLoop_spec q ids m : NoDup ids → (∀ id, id ∈ ids → is_Some (streamsMap.streams m !! id)) →
  streamsMap.cancelLoop q ids m = Ok (streamsMap.set_streams (map_imap (λ id st, Some (if decide (id ∈ ids) then stream.Cancel q st else st)) (streamsMap.streams m)) m).
Proof.
  revert m. induction ids as [|id ids IH]; intros m Hn Hids.
  - cbn. f_equal. destruct m. unfold streamsMap.set_streams. cbn. f_equal. apply map_eq. intros i. rewrite map_lookup_imap. by destruct (_ !! i).
  - apply NoDup_cons in Hn as [Hid Hn]. destruct (Hids id) as [st Hst]; [set_solver|]. cbn [streamsMap.cancelLoop]. rewrite Hst, IH; [|done|].
    + f_equal. unfold streamsMap.set_streams. cbn. f_equal. apply map_eq. intros i. rewrite !map_lookup_imap.
      destruct (decide (id = i)) as [<-|Hne].
      { rewrite lookup_insert_eq, Hst. cbn. rewrite decide_False by done. by rewrite decide_True by set_solver. }
      rewrite lookup_insert_ne by done. destruct (_ !! i); [|done]. cbn. f_equal.
      destruct (decide (i ∈ ids)); [by rewrite decide_True by set_solver|by rewrite decide_False by set_solver].
    + intros i Hi. cbn. rewrite lookup_insert_ne by (intros ->; done). apply Hids. set_solver.
Qed.

Definition cancelled (q : error) (m : streamsMap.streamsMap) : streamsMap.streamsMap :=
  streamsMap.set_streams (stream.Cancel (Some q) <$> streamsMap.streams m) (streamsMap.set_closeErr (Some q) m).

Lemma closeStreams_spec q s : sm_inv (streams s) → closeStreams q s = Done (set_streams (cancelled q (streams s)) s) tt.
Proof.
  intros [Hn Hd]. unfold closeStreams, get, mbind, M_bind, streamsMap.CloseWithError.
  rewrite cancelLoop_spec; [|done|intros id Hid; by apply Hd]. unfold modify. do 3 f_equal. unfold cancelled. f_equal. cbn.
  apply map_eq. intros i. rewrite map_lookup_imap, lookup_fmap. destruct (streamsMap.streams (streams s) !! i) eqn:E; [|done].
  cbn. rewrite decide_True; [done|]. apply Hd. eauto.
Qed.

(** ** The last packet *)
Notation closeFrame code reason := (FConnectionClose (ConnectionCloseFrame.MkConnectionCloseFrame code reason)).

(** The room that the packet needs, with the header that the packer makes. *)
Definition closeSize (ph : PublicHeader.PublicHeader) (reason : list Z) (sealer : Sealer) : Z := header_len ph + (7 + len reason) + Overhead sealer.

Lemma pack_close now rand w code reason sealer level : GetSealer cryptoSetup = (level, sealer) → seals sealer →
  header_ok cryptoSetup truncate w → is_u32 code → Forall is_byte reason →
  let ph := packetPacker.getPublicHeader cryptoSetup truncate level w in
  let r := packetPacker.PackConnectionClose cryptoSetup truncate (ConnectionCloseFrame.MkConnectionCloseFrame code reason) now rand w in
  if closeSize ph reason sealer <=? MaxPacketSize
  then ∃ pkt, r = Ok (numbered rand w, inl (Some pkt)) ∧ arrives ph sealer level now (packetPacker.packer w) pkt ∧
    packetPacker.frames pkt = [closeFrame code reason]
  else ∃ err, r = Ok (w, inr err).
Proof.
  intros Hsl Hs Hh Hc Hr ph r. subst r. unfold packetPacker.PackConnectionClose. rewrite Hsl. fold ph.
  destruct (header_valid cryptoSetup truncate level w Hh) as [Hv Hhl]. fold ph in Hv, Hhl. unfold closeSize. pose proof (len_nonneg reason) as Hln. pose proof Hs as [Ho _].
  destruct (Z.leb_spec (header_len ph + (7 + len reason) + Overhead sealer) MaxPacketSize) as [Hle|Hgt].
  - assert (wireLens (packetPacker.version (packetPacker.packer w)) [closeFrame code reason] = 7 + len reason) as Hw.
    { cbn. unfold wireLen. cbn. unfold MaxPacketSize in Hle. rewrite u64_id by (unfold is_u64; lia). lia. }
    destruct (seal_spec ph [closeFrame code reason] sealer level now rand w) as (pkt & E & Ha & Hf); try done.
    + cbn. split; [|done]. split; [done|]. split; [done|]. unfold MaxPacketSize in *. lia.
    + rewrite Hw. lia.
    + lia.
    + rewrite Hw. lia.
    + exists pkt. split; [exact E|]. split; [exact Ha|exact Hf].
  - unfold packetPacker.packed, packetPacker.writeAndSealPacket. destruct (header_reads ph _ _ Hv) as [(hd & -> & Hhd & _) _].
    cbn [writeFrames frame.Write]. unfold ConnectionCloseFrame.Write. cbn [ConnectionCloseFrame.ErrorCode ConnectionCloseFrame.ReasonPhrase].
    destruct (Z.ltb_spec 65535 (len reason)) as [Hbig|Hsmall]; [unfold wseq; rewrite WriteUint32_enc; by eexists|].
    unfold wseq. rewrite WriteUint32_enc, WriteUint16_enc. cbn [mbind outcome_bind WriteByte WriteBytes].
    match goal with |- context [len hd + len ?x + _] => assert (len x = 7 + len reason) as -> end.
    { rewrite !len_app. unfold len at 2 3. rewrite !enc_length. cbn. unfold len. cbn. lia. }
    rewrite Hhd, u64_id by (unfold is_u64; lia). rewrite (proj2 (Z.ltb_lt _ _)) by lia. by eexists.
Qed.

(** A computation that returns or fails, in a state of which [Q] holds. *)
Definition comes_back {A} (r : result session A) (Q : session → Prop) : Prop :=
  match r with Done s' _ | Fails s' _ => Q s' | _ => False end.

Lemma comes_back_mono {A} (r : result session A) (Q Q' : session → Prop) : comes_back r Q → (∀ s, Q s → Q' s) → comes_back r Q'.
Proof. intros H HQ. destruct r; cbn in *; auto. Qed.

Definition all_closed s : Prop := map_Forall (λ _ p, open p = false) (paths s).

Lemma bind_done {A B} (m : M A) (k : A → M B) s s1 a : m s = Done s1 a → (m ≫= k) s = k a s1.
Proof. unfold mbind, M_bind. by intros ->. Qed.

(** What the operations below change of a session. *)
Definition visible s := (paths s, streams s, output s, packer s).
Lemma visible_ticked s : visible (ticked s) = visible s.
Proof. done. Qed.
Lemma visible_sent n s : visible (set_allSntPackets n s) = visible s.
Proof. done. Qed.
Lemma visible_paths ps s : visible (set_paths ps s) = (ps, streams s, output s, packer s).
Proof. done. Qed.
Lemma visible_output o s : visible (set_output o s) = (paths s, streams s, o, packer s).
Proof. done. Qed.
Lemma visible_world w s : visible (of_world w s) = (paths s, packetPacker.streams w, output s, packetPacker.packer w).
Proof. done. Qed.
Lemma world_visible s s' p : visible s = visible s' → framer s = framer s' → flow s = flow s' → handshakeComplete s = handshakeComplete s' → world_of s p = world_of s' p.
Proof. unfold visible, world_of. intros [= _ -> _ ->] -> -> ->. done. Qed.

(** A call of the packer that returns a packet. *)
Definition packed_state (id : Z) (w : packetPacker.world) p s : session :=
  set_paths (<[id := of_packerPath (packetPacker.pth w) p]> (paths s)) (of_world w (ticked (ticked s))).
Lemma pack_step {A} id f s p w (a : A + error) : paths s !! id = Some p →
  f (clock e (tick s)) (random e (Datatypes.S (tick s))) (world_of s p) = Ok (w, a) →
  pack e id f s = match a with inl a => Done (packed_state id w p s) a | inr err => Fails (packed_state id w p s) err end.
Proof.
  intros Hp Hf. unfold pack. rewrite (bind_done _ _ _ _ _ (eq_refl : now e s = Done (ticked s) (clock e (tick s)))).
  rewrite (bind_done _ _ _ _ _ (eq_refl : reading (random e) (ticked s) = Done (ticked (ticked s)) (random e (Datatypes.S (tick s))))).
  rewrite (bind_done _ _ _ (ticked (ticked s)) p) by (unfold getPath; change (paths (ticked (ticked s))) with (paths s); by rewrite Hp).
  rewrite (bind_done _ _ _ _ _ (eq_refl : get (ticked (ticked s)) = Done _ _)).
  change (world_of (ticked (ticked s)) p) with (world_of s p). rewrite Hf.
  rewrite (bind_done _ _ _ _ _ (eq_refl : modify (of_world w) (ticked (ticked s)) = Done _ _)).
  rewrite (bind_done _ _ _ (packed_state id w p s) tt); [by destruct a|]. unfold putPath, modify, packed_state. do 2 f_equal.
Qed.
Lemma visible_packed id w p s : visible (packed_state id w p s) =
  (<[id := of_packerPath (packetPacker.pth w) p]> (paths s), packetPacker.streams w, output s, packetPacker.packer w).
Proof. done. Qed.

Lemma write_back id pkt s : comes_back (write e id pkt s) (λ s', visible s' = (paths s, streams s, output s ++ [(id, pkt)], packer s)).
Proof.
  unfold write. rewrite (bind_done _ _ _ _ _ (eq_refl : modify (λ s, set_output (output s ++ [(id, pkt)]) s) s = Done _ _)).
  rewrite (bind_done _ _ _ _ _ (eq_refl : reading (writeResult e) (set_output (output s ++ [(id, pkt)]) s) = Done _ _)).
  unfold raise_if. by destruct (writeResult e _).
Qed.

(** The header of the last packet. *)
Definition lastPath p : path := SetLeastUnacked (sentPacketHandler.GetLeastUnacked (sent p)) p.
Definition closeHeader (level : EncryptionLevel) s p : PublicHeader.PublicHeader :=
  packetPacker.getPublicHeader cryptoSetup truncate level (world_of s (lastPath p)).

Lemma sendConnectionClose_spec s p code reason sealer level : GetSealer cryptoSetup = (level, sealer) → seals sealer →
  paths s !! InitialPathID = Some p → header_ok cryptoSetup truncate (world_of s p) → is_u32 code → Forall is_byte reason →
  all_closed s →
  let ph := closeHeader level s p in let fits := closeSize ph reason sealer <=? MaxPacketSize in
  let r := sendConnectionClose e cryptoSetup truncate code reason s in
  comes_back r (λ s', all_closed s' ∧ streams s' = streams s ∧
    if fits then ∃ pkt t, output s' = output s ++ [(InitialPathID, pkt)] ∧ packetPacker.frames pkt = [closeFrame code reason] ∧
      arrives ph sealer level t (packer s) pkt
    else output s' = output s) ∧
  ∀ s', r = Done s' tt → fits = true.
Proof.
  intros Hsl Hs Hp Hh Hc Hr Hcl ph fits r. subst r. unfold sendConnectionClose. set (p' := SetLeastUnacked (sentPacketHandler.GetLeastUnacked (sent p)) p).
  set (s1 := set_paths (<[InitialPathID := p']> (paths s)) s).
  rewrite (bind_done _ _ s s1 tt) by (unfold updatePath, getPath, mbind, M_bind; by rewrite Hp).
  assert (visible s1 = (<[InitialPathID := p']> (paths s), streams s, output s, packer s)) as V1 by apply visible_paths.
  assert (header_ok cryptoSetup truncate (world_of s1 p')) as Hh' by (destruct Hh; by split).
  assert (packetPacker.getPublicHeader cryptoSetup truncate level (world_of s1 p') = ph) as Eph by reflexivity. clearbody s1 ph.
  injection V1 as P1 S1 O1 K1. assert (paths s1 !! InitialPathID = Some p') as Hp' by (rewrite P1; apply lookup_insert_eq).
  assert (open p' = open p) as Hq by reflexivity.
  pose proof (pack_close (clock e (tick s1)) (random e (Datatypes.S (tick s1))) (world_of s1 p') code reason sealer level Hsl Hs Hh' Hc Hr) as Hpack.
  cbv zeta in Hpack. rewrite Eph in Hpack. fold fits in Hpack. destruct fits.
  2: { destruct Hpack as [err E]. unfold mbind, M_bind. rewrite (pack_step _ _ _ _ _ _ Hp' E). cbn [comes_back]. split; [|done].
    pose proof (visible_packed InitialPathID (world_of s1 p') p' s1) as V2. set (s2 := packed_state _ _ _ _) in *. clearbody s2. injection V2 as P2 S2 O2 _.
    split; [|split; [cbn in S2; congruence|congruence]]. unfold all_closed. rewrite P2, P1, insert_insert_eq. apply map_Forall_insert_2; [|done]. exact (Hcl InitialPathID p Hp). }
  destruct Hpack as (pkt & E & Ha & Hf).
  rewrite (bind_done _ _ _ _ _ (pack_step _ _ _ _ _ _ Hp' E)). set (s2 := packed_state _ _ _ _).
  assert (visible s2 = (<[InitialPathID := of_packerPath (packetPacker.pth (numbered (random e (Datatypes.S (tick s1))) (world_of s1 p'))) p']> (paths s1),
    streams s1, output s1, packer s1)) as V2 by apply visible_packed.
  clearbody s2. set (q := of_packerPath _ p') in V2. assert (open q = open p) as Hq' by reflexivity. clearbody q. injection V2 as P2 S2 O2 K2.
  unfold logPacket. rewrite (bind_done _ _ _ _ _ (eq_refl : modify (λ s, set_allSntPackets (u64 (allSntPackets s + 1)) s) s2 = Done _ _)).
  set (s3 := set_allSntPackets _ s2). assert (visible s3 = visible s2) as V3 by apply visible_sent. clearbody s3. injection V3 as P3 S3 O3 K3.
  pose proof (write_back InitialPathID pkt s3) as H.
  assert (∀ s', visible s' = (paths s3, streams s3, output s3 ++ [(InitialPathID, pkt)], packer s3) → all_closed s' ∧ streams s' = streams s ∧
    ∃ pkt t, output s' = output s ++ [(InitialPathID, pkt)] ∧ packetPacker.frames pkt = [closeFrame code reason] ∧ arrives ph sealer level t (packer s) pkt) as Hfin.
  { intros s' [= P4 S4 O4 K4]. split; [|split; [congruence|]].
    - unfold all_closed. rewrite P4, P3, P2, P1, insert_insert_eq. apply map_Forall_insert_2; [|done]. rewrite Hq'. by apply (Hcl InitialPathID).
    - eexists pkt, _. split; [congruence|]. split; [done|]. rewrite <- K1. exact Ha. }
  split; [|done]. destruct (write _ _ _ _); cbn in *; auto.
Qed.

(** The session with cancelled streams, and with its paths closed. *)
Definition streamsClosed (q : error) s : session := set_streams (cancelled q (streams s)) s.
Definition pathsClosed s : session := set_paths (ended <$> (signalled <$> paths s)) (set_tick (2 + tick s) s).

(** The error and its value, as handleCloseError takes them. *)
Definition errorOf (c : closeError) : error := default (qerr.Error qerr.PeerGoingAway) (session.err c).
Definition valueOf (v : quicValue) (c : closeError) : quicValue := match session.err c with Some _ => v | None => OtherError [] end.

Lemma handleCloseError_cases v c s : traverses e → sm_inv (streams s) →
  let err := errorOf c in let v' := valueOf v c in let q := ToQuicError err in let s1 := pathsClosed (streamsClosed q s) in
  handleCloseError e cryptoSetup truncate v c s =
    if bool_decide (err = errCloseSessionForNewVersion) then Done (streamsClosed q s) None
    else if remote c then Done s1 None
    else if bool_decide (q = qerr.Error qerr.DecryptionFailure) || experiment v' err
    then (p ← getPath InitialPathID; bs ← sendPublicReset e (lastRcvdPacketNumber p); mret (Some bs)) s1
    else (sendConnectionClose e cryptoSetup truncate (codeOf q) (messageOf v' err);; mret None) s1.
Proof.
  intros He Hm err v' q s1. unfold handleCloseError.
  assert (match session.err c with Some err => (err, v) | None => (qerr.Error qerr.PeerGoingAway, OtherError []) end = (err, v')) as ->
    by (unfold err, v', errorOf, valueOf; by destruct (session.err c)).
  fold q. rewrite (bind_done _ _ _ _ _ (closeStreams_spec q s Hm)).
  destruct (bool_decide (err = _)); [done|]. rewrite (bind_done _ _ _ _ _ (proj1 (closePaths_spec (streamsClosed q s) He))).
  fold (pathsClosed (streamsClosed q s)). fold s1. by destruct (remote c); [|destruct (_ || experiment v' err)].
Qed.

Lemma visible_closed q s : visible (pathsClosed (streamsClosed q s)) = (ended <$> (signalled <$> paths s), cancelled q (streams s), output s, packer s).
Proof. done. Qed.

Lemma sendPublicReset_spec s n p : paths s !! InitialPathID = Some p →
  comes_back (sendPublicReset e n s) (λ s', visible s' = visible s) ∧
  ∀ s' bs, sendPublicReset e n s = Done s' bs → publicReset.WritePublicReset (packetPacker.connectionID (packer s)) n 0 = Ok bs.
Proof.
  intros Hp. unfold sendPublicReset. rewrite (bind_done _ _ s s p) by (unfold getPath; by rewrite Hp).
  rewrite (bind_done _ _ _ _ _ (eq_refl : get s = Done s s)).
  destruct (publicReset.WritePublicReset _ _ _) as [bs| |] eqn:Eb;
    [|by unfold publicReset.WritePublicReset, wseq in Eb; rewrite !WriteUint64_enc, !WriteUint32_enc in Eb..].
  rewrite (bind_done _ _ _ _ _ (eq_refl : reading (writeResult e) s = Done _ _)). unfold raise_if.
  destruct (writeResult e _).
  - split; [apply visible_ticked|]. done.
  - split; [apply visible_ticked|]. by intros s' bs' [= _ <-].
Qed.

Lemma session_closes_spec v c s p sealer level : traverses e → sm_inv (streams s) →
  paths s !! InitialPathID = Some p → GetSealer cryptoSetup = (level, sealer) → seals sealer → header_ok cryptoSetup truncate (world_of s p) →
  let err := errorOf c in let q := ToQuicError err in let reason := messageOf (valueOf v c) err in
  is_u32 (codeOf q) → Forall is_byte reason →
  let silent := bool_decide (err = errCloseSessionForNewVersion) || remote c in
  let reset := bool_decide (q = qerr.Error qerr.DecryptionFailure) || experiment (valueOf v c) err in
  let ph := closeHeader level s p in let fits := closeSize ph reason sealer <=? MaxPacketSize in
  let r := handleCloseError e cryptoSetup truncate v c s in
  comes_back r (λ s', streams s' = cancelled q (streams s) ∧
    (err ≠ errCloseSessionForNewVersion → all_closed s') ∧
    if silent || reset || negb fits then output s' = output s
    else ∃ pkt t, output s' = output s ++ [(InitialPathID, pkt)] ∧ arrives ph sealer level t (packer s) pkt ∧
      packetPacker.frames pkt = [closeFrame (codeOf q) reason]) ∧
  ∀ s' o, r = Done s' o →
    if negb silent && reset
    then ∃ bs, o = Some bs ∧ publicReset.WritePublicReset (packetPacker.connectionID (packer s)) (lastRcvdPacketNumber p) 0 = Ok bs
    else o = None ∧ silent || fits = true.
Proof.
  intros He Hm Hp Hsl Hs Hh err q reason Hc Hr silent reset ph fits r. subst r. rewrite (handleCloseError_cases v c s He Hm).
  fold err. fold q. fold reset. fold reason. subst silent. destruct (bool_decide (err = _)) eqn:En.
  { apply bool_decide_eq_true in En. split; [done|]. by intros s' o [= _ <-]. }
  pose proof (visible_closed q s) as V.
  assert (closeHeader level (pathsClosed (streamsClosed q s)) (ended (signalled p)) = ph) as Eph by (unfold ph, ended, signalled; by destruct (open p), (closeChan p)).
  set (s1 := pathsClosed (streamsClosed q s)) in *.
  assert (all_closed s1) as Hcl by exact (proj2 (closePaths_spec (streamsClosed q s) He)).
  assert (header_ok cryptoSetup truncate (world_of s1 (ended (signalled p)))) as Hh1
    by (unfold ended, signalled; destruct Hh, (open p), (closeChan p); by split).
  clearbody s1. injection V as P1 S1 O1 K1. destruct (remote c) eqn:Er.
  { split; [done|]. by intros s' o [= _ <-]. }
  assert (paths s1 !! InitialPathID = Some (ended (signalled p))) as Hp1 by (by rewrite P1, !lookup_fmap, Hp). cbn [orb negb andb]. destruct reset.
  - assert (lastRcvdPacketNumber (ended (signalled p)) = lastRcvdPacketNumber p) as Hlast by (unfold ended, signalled; by destruct (open p), (closeChan p)).
    rewrite (bind_done _ _ s1 s1 (ended (signalled p))) by (unfold getPath; by rewrite Hp1). rewrite Hlast.
    destruct (sendPublicReset_spec s1 (lastRcvdPacketNumber p) _ Hp1) as [H1 H2]. rewrite K1 in H2. unfold mbind, M_bind.
    destruct (sendPublicReset e _ s1) as [s2 bs|s2 err2| | |]; cbn in H1; try done; injection H1 as P2 S2 O2 _.
    + split; [split; [congruence|]; split; [intros _; unfold all_closed; by rewrite P2|congruence]|]. intros s' o [= _ <-]. exists bs. eauto.
    + split; [split; [congruence|]; split; [intros _; unfold all_closed; by rewrite P2|congruence]|]. done.
  - destruct (sendConnectionClose_spec s1 _ (codeOf q) reason sealer level Hsl Hs Hp1 Hh1 Hc Hr Hcl) as [H Hd]. cbv zeta in H, Hd.
    rewrite Eph in H, Hd. fold fits in H, Hd. rewrite S1, O1, K1 in H. unfold mbind, M_bind.
    destruct (sendConnectionClose _ _ _ _ _ s1) as [s' []|s' err2| | |]; cbn in H; try done; destruct H as (H1 & H2 & H3).
    all: split; [split; [done|]; split; [done|]; destruct fits; cbn [negb]; [|done]; destruct H3 as (pkt & t & ? & ? & ?); by exists pkt, t|].
    + intros ? ? [= _ <-]. split; [done|]. by apply (Hd s').
    + done.
Qed.

(** C20: a session ends in order. When the run loop has got an error, however it was left and in
    whatever order paths are visited: the function that follows returns, so nobody waits for
    ever for a path; every stream has been cancelled with the error, which is an internal
    error if it is not one of QUIC; and unless the session is replaced for another version,
    no path is open. If the peer has closed the connection itself, it gets nothing; after a
    decryption failure, or a hello with a tag of one of the two experiments, a public reset
    for the last packet received. Otherwise it gets one packet, which it can read, with the
    code of the error and its message in a CONNECTION_CLOSE frame: the message of a QUIC
    error, the text of another one, nothing without an error. A message that leaves no room
    for the header and the seal in a packet makes packing fail, and then nothing is sent. The
    identifiers and numbers of the initial path are taken to be valid in a header, and the
    seal to add the number of bytes that it says, 64 at most. Sending means that the packet is
    written to the connection, where it may get lost. *)
Theorem session_closes v c s p sealer level : traverses e → sm_inv (streams s) →
  paths s !! InitialPathID = Some p → GetSealer cryptoSetup = (level, sealer) → seals sealer → header_ok cryptoSetup truncate (world_of s p) →
  let err := errorOf c in let q := ToQuicError err in let reason := messageOf (valueOf v c) err in
  is_u32 (codeOf q) → Forall is_byte reason →
  let silent := bool_decide (err = errCloseSessionForNewVersion) || remote c in
  let reset := bool_decide (q = qerr.Error qerr.DecryptionFailure) || experiment (valueOf v c) err in
  let ph := closeHeader level s p in let fits := closeSize ph reason sealer <=? MaxPacketSize in
  let r := handleCloseError e cryptoSetup truncate v c s in
  comes_back r (λ s', streams s' = cancelled q (streams s) ∧
    (err ≠ errCloseSessionForNewVersion → all_closed s') ∧
    if silent || reset || negb fits then output s' = output s
    else ∃ pkt t, output s' = output s ++ [(InitialPathID, pkt)] ∧ arrives ph sealer level t (packer s) pkt ∧
      packetPacker.frames pkt = [closeFrame (codeOf q) reason]) ∧
  ∀ s' o, r = Done s' o →
    if negb silent && reset
    then ∃ bs, o = Some bs ∧ publicReset.WritePublicReset (packetPacker.connectionID (packer s)) (lastRcvdPacketNumber p) 0 = Ok bs
    else o = None ∧ silent || fits = true.
Proof. apply session_closes_spec. Qed.

(** ** The end of the run loop *)
Definition told (early : bool) (p : path) : path := if early then set_closeChan true p else signalled p.

Lemma leaveLoop_spec early s : traverses e → leaveLoop e early s = Done (set_paths (told early <$> paths s) (ticked s)) tt.
Proof.
  intros He. unfold leaveLoop. destruct early.
  - apply (range_changes (λ _, True)); [done| |done]. intros s0 id p Hp _. unfold sendClose, updatePath, getPath, mbind, M_bind. by rewrite Hp.
  - apply (range_changes (λ _, True)); [done|apply managerClosePath_changes|done].
Qed.

(** The function run returns the error of the session, with all streams cancelled and, unless
    the session is replaced, all paths closed. *)
Theorem run_returns early v c s p sealer level : traverses e → sm_inv (streams s) → closing s = Some c →
  paths s !! InitialPathID = Some p → GetSealer cryptoSetup = (level, sealer) → seals sealer →
  header_ok cryptoSetup truncate (world_of s p) →
  let err := errorOf c in is_u32 (codeOf (ToQuicError err)) → Forall is_byte (messageOf (valueOf v c) err) →
  ∃ s', finishRun e cryptoSetup truncate early v s = Done s' (session.err c) ∧
    streams s' = cancelled (ToQuicError err) (streams s) ∧ (err ≠ errCloseSessionForNewVersion → all_closed s').
Proof.
  intros He Hm Hcs Hp Hsl Hs Hh err Hc Hr. unfold finishRun. rewrite (bind_done _ _ _ _ _ (eq_refl : get s = Done s s)), Hcs.
  rewrite (bind_done _ _ _ _ _ (leaveLoop_spec early s He)). set (s1 := set_paths _ _).
  assert (visible s1 = (told early <$> paths s, streams s, output s, packer s)) as V by reflexivity.
  assert (header_ok cryptoSetup truncate (world_of s1 (told early p))) as Hh1 by (unfold told, signalled; destruct Hh, early, (open p); by split).
  clearbody s1. injection V as P1 S1 O1 K1.
  assert (paths s1 !! InitialPathID = Some (told early p)) as Hp1 by (by rewrite P1, lookup_fmap, Hp).
  assert (sm_inv (streams s1)) as Hm1 by by rewrite S1.
  pose proof (proj1 (session_closes_spec v c s1 _ sealer level He Hm1 Hp1 Hsl Hs Hh1 Hc Hr)) as H. rewrite S1 in H. unfold try, mbind, M_bind.
  destruct (handleCloseError _ _ _ _ _ s1); cbn in H; try done; destruct H as (H1 & H2 & _); eauto.
Qed.

End close_theory.

(** ** Examples *)
Module SessionCloseExamples.
Import protocol session sessionRun sessionClose SessionExamples.
Import FlowExamples (cp).
Import StreamsMapExamples (lim).
Import PackerExamples (setup, sealer_seals).

(** The client with three paths; an error that is not one of QUIC closes it. *)
Definition closing_session : S := set_closing (Some (MkCloseError (Some (NewError "failure")) false)) (multipath "lowLatency").

Lemma closing_streams : sm_inv (streams closing_session).
Proof.
  assert (streams closing_session = (streamsMap.OpenStream cp lim (streamsMap.newStreamsMap PerspectiveClient) (flowControlManager.NewFlowControlManager cp)).1.1) as ->
    by (vm_compute; reflexivity).
  eapply (steps_sound cp lim); [apply new_inv|]. apply rtc_once. constructor. vm_compute. reflexivity.
Qed.

Definition opened (s : S) : list (Z * bool) := (λ x, (x.1, open x.2)) <$> map_to_list (paths s).

(** All paths are open before, and closed afterwards; one CONNECTION_CLOSE frame is sent. *)
Lemma session_closes_witness :
  opened closing_session = [(3, true); (1, true); (0, true)] ∧
  let r := handleCloseError world_env setup false (OtherError []) (MkCloseError (Some (NewError "failure")) false) closing_session in
  comes_back r all_closed ∧ opened (final r) = [(3, false); (1, false); (0, false)] ∧
  (λ x, packetPacker.frames x.2) <$> drop (length (output closing_session)) (output (final r)) =
    [[FConnectionClose (ConnectionCloseFrame.MkConnectionCloseFrame 1 (crypto.bytesOf "failure"))]].
Proof.
  split; [vm_compute; reflexivity|]. destruct (paths closing_session !! InitialPathID) as [p|] eqn:Ep; [|by vm_compute in Ep].
  assert (header_ok setup false (world_of closing_session p)) as Hh.
  { assert ((λ p, (pathID p, packetNumberGenerator.Peek (generator p))) <$> paths closing_session !! InitialPathID = Some (0, 1)) as E by (vm_compute; reflexivity).
    rewrite Ep in E. injection E as E1 E2. clear Ep.
    split; cbn [world_of packetPacker.packer packetPacker.pth packetPacker.pathID packetPacker.generator]; rewrite ?E1, ?E2.
    - vm_compute. repeat split; congruence.
    - vm_compute. split; congruence.
    - discriminate.
    - left. reflexivity.
    - vm_compute. split; congruence.
    - lia. }
  destruct (session_closes world_env setup false (OtherError []) (MkCloseError (Some (NewError "failure")) false) closing_session p
    PackerExamples.sealer EncryptionForwardSecure world_traverses closing_streams Ep eq_refl sealer_seals Hh) as [H _].
  - vm_compute. split; congruence.
  - vm_compute. repeat (constructor; [split; congruence|]). constructor.
  - split; [|split; vm_compute; reflexivity].
    refine (comes_back_mono _ _ _ H _). intros s' (_ & Hcl & _). apply Hcl. discriminate.
Defined.

(** A message that is too long for a packet: the peer is not told anything. *)
Example long_message_not_sent :
  let r := handleCloseError world_env setup false (OtherError (replicate 1330 97)) (MkCloseError (Some (qerr.Error qerr.InternalError)) false) closing_session in
  opened (final r) = [(3, false); (1, false); (0, false)] ∧ length (output (final r)) = length (output closing_session).
Proof. split; vm_compute; reflexivity. Qed.

End SessionCloseExamples.
