(* ===== verification/Endpoints.v ===== *)
(** * Endpoints: the listener of the server and the client

    [server.go] and [client.go]: what is done with a datagram before a session sees it. The
    server finds the session of the connection ID, makes a new one, negotiates the version,
    or answers with a public reset; the client checks the connection ID, takes public resets
    and version negotiation packets, and changes to another version at most once. Sessions
    are behind an interface, as in the code ([packetHandler]); the session of Session.v
    implements it. The sessions of the server live in a store: the map of the server, the
    goroutines and the queue of Accept share them. What newSession makes is a parameter, with
    the draws it uses as an argument; so are the results of writes to the socket and random
    connection IDs. *)
From S2P Require Import Prelude Protocol ByteOrder AckFrames Frames PublicHeader HandshakeMessages ReceivedPackets GoFloat SentPackets FlowControl FrameSorter.
From S2P Require Import Stream StreamsMap ConnectionParameters StreamFramer PacketPacker Crypto Certificates ServerConfig CryptoSetup HandshakeSafety Handshake Session Scheduler SessionRun.

(** ** What both ends share *)
Module endpoint.
Import protocol session.

Definition DefaultHandshakeTimeout : Z := 10 * time.Second.
Definition DefaultIdleTimeout : Z := 30 * time.Second.
Definition DefaultMaxReceiveStreamFlowControlWindowServer : Z := 1 * Z.shiftl 1 20.
Definition DefaultMaxReceiveConnectionFlowControlWindowServer : Z := 3 * Z.shiftl 1 20 / 2.
Definition DefaultMaxReceiveStreamFlowControlWindowClient : Z := 16 * Z.shiftl 1 20.
Definition DefaultMaxReceiveConnectionFlowControlWindowClient : Z := 24 * Z.shiftl 1 20.

(** interface.go: the type Config. *)
Record Config := MkConfig {
  Versions : list Z;
  RequestConnectionIDTruncation : bool;
  HandshakeTimeout : Z;
  IdleTimeout : Z;
  AcceptCookie : option (serverConfig.Addr → option serverConfig.Cookie → bool);
  MaxReceiveStreamFlowControlWindow : Z;
  MaxReceiveConnectionFlowControlWindow : Z;
  KeepAlive : bool;
  CacheHandshake : bool;
  CreatePaths : bool;
}.

(** The value of the configuration, or the default when it is zero. *)
Definition orDefault (v d : Z) : Z := if v =? 0 then d else v.
Definition versionsOr (versions : list Z) : list Z := if len versions =? 0 then SupportedVersions else versions.

Definition populateServerConfig (defaultAcceptCookie : serverConfig.Addr → option serverConfig.Cookie → bool)
    (config : option Config) : Config :=
  let config := default (MkConfig [] false 0 0 None 0 0 false false true) config in
  MkConfig (versionsOr (Versions config)) false
    (orDefault (HandshakeTimeout config) DefaultHandshakeTimeout) (orDefault (IdleTimeout config) DefaultIdleTimeout)
    (Some (default defaultAcceptCookie (AcceptCookie config)))
    (orDefault (MaxReceiveStreamFlowControlWindow config) DefaultMaxReceiveStreamFlowControlWindowServer)
    (orDefault (MaxReceiveConnectionFlowControlWindow config) DefaultMaxReceiveConnectionFlowControlWindowServer)
    (KeepAlive config) false (CreatePaths config).

Definition populateClientConfig (config : option Config) : Config :=
  let config := default (MkConfig [] false 0 0 None 0 0 false false false) config in
  MkConfig (versionsOr (Versions config)) (RequestConnectionIDTruncation config)
    (orDefault (HandshakeTimeout config) DefaultHandshakeTimeout) (orDefault (IdleTimeout config) DefaultIdleTimeout) None
    (orDefault (MaxReceiveStreamFlowControlWindow config) DefaultMaxReceiveStreamFlowControlWindowClient)
    (orDefault (MaxReceiveConnectionFlowControlWindow config) DefaultMaxReceiveConnectionFlowControlWindowClient)
    (KeepAlive config) (CacheHandshake config) (CreatePaths config).

(** pconn_manager.go: a datagram, with the address of the socket that received it. *)
Record receivedRawPacket := MkRawPacket {
  rcvPconn : net.UDPAddr;
  rawFrom : net.UDPAddr;
  rawData : list Z;
  rawTime : Z;
}.

(** server.go: the interface packetHandler, as far as the endpoints use it. *)
Class packetHandler (S : Type) := {
  GetVersion : S → Z;
  RemoteAddr : S → outcome net.UDPAddr;
  handlePacket : receivedPacket → S → S;
  closeRemote : error → S → S;
  Close : option error → S → S;
}.

(** A session never changes its version, nor the versions of the negotiation before it. *)
Class packetHandlerOk (S : Type) `{!packetHandler S} (negotiated : S → list Z) : Prop := {
  same_handlePacket p s : GetVersion (handlePacket p s) = GetVersion s ∧ negotiated (handlePacket p s) = negotiated s;
  same_closeRemote e s : GetVersion (closeRemote e s) = GetVersion s ∧ negotiated (closeRemote e s) = negotiated s;
  same_Close e s : GetVersion (Close e s) = GetVersion s ∧ negotiated (Close e s) = negotiated s;
}.

Definition with_raw (raw : list Z) (h : PublicHeader.PublicHeader) : PublicHeader.PublicHeader :=
  PublicHeader.MkPublicHeader raw (PublicHeader.ConnectionID h) (PublicHeader.PathID h)
    (PublicHeader.VersionFlag h) (PublicHeader.ResetFlag h) (PublicHeader.TruncateConnectionID h)
    (PublicHeader.MultipathFlag h) (PublicHeader.PacketNumberLen h) (PublicHeader.PacketNumber h) (PublicHeader.VersionNumber h)
    (PublicHeader.SupportedVersions h) (PublicHeader.DiversificationNonce h).

(** The bytes of a packet that a reader which still has [rest] has passed. *)
Definition consumed (packet rest : list Z) : list Z := take (length packet - length rest) packet.

End endpoint.

(** *** The session implements the interface

    With the client of the handshake that it drives, which knows the negotiated versions. *)
Section implementation.
Import endpoint session.
Context {R C : Type} `{!RTTStats R, !SendAlgorithm R C, !SessionRTT R}.
Notation session := (@session R C).

#[export] Instance session_packetHandler : packetHandler (session * cryptoSetup.client) := {
  GetVersion s := version s.1;
  RemoteAddr s := match paths s.1 !! 0 with Some p => Ok (remoteAddr p) | None => Panic end;
  handlePacket p s := (final (sessionRun.handlePacket p s.1), s.2);
  closeRemote e s := (final (session.closeRemote e s.1), s.2);
  Close e s := (final (session.closeLocal e s.1), s.2);
}.

#[export] Instance session_packetHandlerOk :
  packetHandlerOk (session * cryptoSetup.client) (λ s, cryptoSetup.negotiatedVersions s.2).
Proof.
  split; intros x [s c]; (split; [|done]); cbn.
  - by destruct (_ <? _).
  - by destruct (closing s).
  - by destruct (closing s).
Qed.
End implementation.

(** ** server.go *)
Module server.
Import protocol session publicReset PublicHeader endpoint.

Definition sessionQueueSize : Z := 5.
Definition errSmallPacket : error := NewError "dropping small packet with unknown version".
Definition errServerBug : error := NewError "Server BUG: negotiated version not supported".
Definition errInvalidHeader : error := qerr.Error qerr.InvalidPacketHeader.

Section server.
Context {S D : Type} `{!packetHandler S}.
Context (newSession : D → Z → Z → net.UDPAddr → net.UDPAddr → outcome S).

(** Sessions are pointers into [store]. A goroutine in [running] waits for the end of
    [session.run] and then removes the connection; one in [handshaking] waits for the
    handshake and then puts its session into [sessionQueue], from which Accept takes it
    ([accepted]). [timers] are the connection IDs that the timers of removeConnection will
    delete, [written] what was written to the sockets. *)
Record server := MkServer {
  config : Config;
  store : gmap nat S;
  sessions : gmap Z (option nat);
  running : list (nat * Z);
  handshaking : list nat;
  sessionQueue : list nat;
  accepted : list nat;
  timers : list Z;
  written : list (net.UDPAddr * list Z);
}.

Definition newServer (config : Config) : server := MkServer config ∅ ∅ [] [] [] [] [] [].

Definition set_store v s := MkServer (config s) v (sessions s) (running s) (handshaking s) (sessionQueue s) (accepted s) (timers s) (written s).
Definition set_sessions v s := MkServer (config s) (store s) v (running s) (handshaking s) (sessionQueue s) (accepted s) (timers s) (written s).
Definition set_running v s := MkServer (config s) (store s) (sessions s) v (handshaking s) (sessionQueue s) (accepted s) (timers s) (written s).
Definition set_handshaking v s := MkServer (config s) (store s) (sessions s) (running s) v (sessionQueue s) (accepted s) (timers s) (written s).
Definition set_sessionQueue v s := MkServer (config s) (store s) (sessions s) (running s) (handshaking s) v (accepted s) (timers s) (written s).
Definition set_accepted v s := MkServer (config s) (store s) (sessions s) (running s) (handshaking s) (sessionQueue s) v (timers s) (written s).
Definition set_timers v s := MkServer (config s) (store s) (sessions s) (running s) (handshaking s) (sessionQueue s) (accepted s) v (written s).
Definition set_written v s := MkServer (config s) (store s) (sessions s) (running s) (handshaking s) (sessionQueue s) (accepted s) (timers s) v.

(** pconn.WriteTo, which may fail. *)
Definition writeTo (result : option error) (to : net.UDPAddr) (data : outcome (list Z)) : St server unit :=
  bs ← run data;
  match result with
  | None => update (λ s, set_written (written s ++ [(to, bs)]) s)
  | Some e => failWith e
  end.

(** A method of the session behind a pointer. *)
Definition deref {A} (f : S → A) (h : nat) : St server A :=
  s ← gets; match store s !! h with Some x => mret (f x) | None => run Panic end.
Definition onSession (f : S → S) (h : nat) : St server unit :=
  x ← deref f h; update (λ s, set_store (<[h := x]> (store s)) s).

(** The new connection of handlePacket: the session and its two goroutines. *)
Definition serve (d : D) (p : receivedRawPacket) (connID : Z) (hdr : PublicHeader) : St server nat :=
  s ← gets;
  let version := VersionNumber hdr in
  check (IsSupportedVersion (Versions (config s)) version) errServerBug;;
  x ← run (newSession d version (ConnectionID hdr) (rcvPconn p) (rawFrom p));
  let h := fresh (dom (store s)) in
  update (λ s, set_store (<[h := x]> (store s)) s);;
  update (λ s, set_sessions (<[connID := Some h]> (sessions s)) s);;
  update (λ s, set_running (running s ++ [(h, ConnectionID hdr)]) s);;
  update (λ s, set_handshaking (handshaking s ++ [h]) s);;
  mret h.

(** What follows the parsing of the header: [session] is the session of the connection. *)
Definition handleHeader (d : D) (result : option error) (p : receivedRawPacket) (connID : Z) (session : option nat)
    (hdr : PublicHeader) (rest : list Z) : St server unit :=
  s ← gets;
  let packet := rawData p in
  let ok := bool_decide (is_Some session) in
  let unsupported := VersionFlag hdr && negb (IsSupportedVersion (Versions (config s)) (VersionNumber hdr)) in
  if ResetFlag hdr then
    if ok then match ParsePublicReset rest with Panic => run Panic | _ => mret tt end else mret tt
  else if ok && unsupported then mret tt
  else if unsupported then
    check (negb (len packet <? cryptoSetup.ClientHelloMinimumSize + len (Raw hdr))) errSmallPacket;;
    writeTo result (rawFrom p) (ComposeVersionNegotiation (ConnectionID hdr) (Versions (config s)))
  else
    h ← match session with Some h => mret h | None => serve d p connID hdr end;
    onSession (handlePacket (MkReceivedPacket (rawFrom p) (rcvPconn p) hdr rest (rawTime p))) h.

Definition handlePacket (d : D) (result : option error) (p : receivedRawPacket) : St server unit :=
  let packet := rawData p in
  let '(peeked, r) := PeekConnectionID PerspectiveClient packet in
  match peeked with
  | Panic => run Panic
  | Err _ => failWith errInvalidHeader
  | Ok connID =>
      s ← gets;
      match sessions s !! connID with
      | Some None => mret tt
      | entry =>
          let session := mjoin entry in
          version ← match session with Some h => deref GetVersion h | None => mret VersionUnknown end;
          match ParsePublicHeader PerspectiveClient version r with
          | Panic => run Panic
          | Err e => if decide (e = ErrPacketWithUnknownVersion)
                     then writeTo result (rawFrom p) (WritePublicReset connID 0 0)
                     else failWith errInvalidHeader
          | Ok (hdr, rest) => handleHeader d result p connID session (with_raw (consumed packet rest) hdr) rest
          end
      end
  end.

Definition removeConnection (id : Z) (s : server) : server :=
  set_timers (timers s ++ [id]) (set_sessions (<[id := None]> (sessions s)) s).

(** The sessions that are not nil are closed; the order does not matter. *)
Definition Close (s : server) : server :=
  set_store (foldr (λ entry store, match entry.2 with Some h => alter (endpoint.Close None) h store | None => store end)
               (store s) (map_to_list (sessions s))) s.

(** What happens to a server. A packet arrives; the run loop of a session does something, or
    ends; a timer fires; a handshake completes (the queue has room) or fails; Accept takes a
    session; the server is closed. *)
Inductive step : server → server → Prop :=
  | step_packet s d result p s' o : handlePacket d result p s = (s', o) → step s s'
  | step_session s h x x' : store s !! h = Some x → GetVersion x' = GetVersion x →
      step s (set_store (<[h := x']> (store s)) s)
  | step_ended s pre h id post : running s = pre ++ (h, id) :: post →
      step s (removeConnection id (set_running (pre ++ post) s))
  | step_timer s pre id post : timers s = pre ++ id :: post →
      step s (set_timers (pre ++ post) (set_sessions (delete id (sessions s)) s))
  | step_handshake s pre h post : handshaking s = pre ++ h :: post → len (sessionQueue s) < sessionQueueSize →
      step s (set_sessionQueue (sessionQueue s ++ [h]) (set_handshaking (pre ++ post) s))
  | step_handshake_failed s pre h post : handshaking s = pre ++ h :: post →
      step s (set_handshaking (pre ++ post) s)
  | step_accept s h queue : sessionQueue s = h :: queue →
      step s (set_accepted (accepted s ++ [h]) (set_sessionQueue queue s))
  | step_close s : step s (Close s).

Inductive reachable (config : Config) : server → Prop :=
  | reachable_new : reachable config (newServer config)
  | reachable_step s s' : reachable config s → step s s' → reachable config s'.

End server.
End server.

(** ** client.go *)
Module client.
Import protocol session publicReset PublicHeader endpoint.

Definition errCloseSessionForNewVersion : error := NewError "closing session in order to recreate it with a new version".

Section client.
Context {S D : Type} `{!packetHandler S}.
Context (newClientSession : D → Z → Z → list Z → net.UDPAddr → outcome S).

(** [versionNegotiationChan] says whether the channel has been closed; [oldSessions] are
    sessions that were replaced. [session] is nil when no session could be made. *)
Record client := MkClient {
  config : Config;
  connectionID : Z;
  version : Z;
  versionNegotiationChan : bool;
  versionNegotiated : bool;
  receivedVersionNegotiationPacket : bool;
  session : option S;
  oldSessions : list S;
}.

Definition set_connectionID v c := MkClient (config c) v (version c) (versionNegotiationChan c) (versionNegotiated c) (receivedVersionNegotiationPacket c) (session c) (oldSessions c).
Definition set_version v c := MkClient (config c) (connectionID c) v (versionNegotiationChan c) (versionNegotiated c) (receivedVersionNegotiationPacket c) (session c) (oldSessions c).
Definition set_versionNegotiationChan v c := MkClient (config c) (connectionID c) (version c) v (versionNegotiated c) (receivedVersionNegotiationPacket c) (session c) (oldSessions c).
Definition set_versionNegotiated v c := MkClient (config c) (connectionID c) (version c) (versionNegotiationChan c) v (receivedVersionNegotiationPacket c) (session c) (oldSessions c).
Definition set_receivedVersionNegotiationPacket v c := MkClient (config c) (connectionID c) (version c) (versionNegotiationChan c) (versionNegotiated c) v (session c) (oldSessions c).
Definition set_session v c := MkClient (config c) (connectionID c) (version c) (versionNegotiationChan c) (versionNegotiated c) (receivedVersionNegotiationPacket c) v (oldSessions c).
Definition set_oldSessions v c := MkClient (config c) (connectionID c) (version c) (versionNegotiationChan c) (versionNegotiated c) (receivedVersionNegotiationPacket c) (session c) v.

(** A method of the session; there is none when it is nil. *)
Definition ask {A} (f : S → outcome A) : St client A :=
  c ← gets; match session c with Some x => run (f x) | None => run Panic end.
Definition onSession (f : S → S) : St client unit :=
  x ← ask (λ x, Ok (f x)); update (set_session (Some x)).

Definition createNewSession (d : D) (negotiatedVersions : list Z) (to : net.UDPAddr) : St client unit :=
  c ← gets;
  match newClientSession d (version c) (connectionID c) negotiatedVersions to with
  | Ok x => update (set_session (Some x))
  | Err e => update (set_session None);; failWith e
  | Panic => run Panic
  end.

(** The part of DialNonFWSecure and establishSecureConnection that makes the client. *)
Definition newClient (d : D) (config : Config) (connID : Z) (to : net.UDPAddr) : outcome client :=
  match Versions config with
  | [] => Panic
  | v :: _ =>
      match createNewSession d [] to (MkClient config connID v false false false None []) with
      | (c, Ok _) => Ok c
      | (_, Err e) => Err e
      | (_, Panic) => Panic
      end
  end.

(** A deferred call runs after [m], whatever that returns. *)
Definition defer {A} (f : client → client) (m : St client A) : St client A := λ c, let '(c, o) := m c in (f c, o).

Definition handlePacketWithVersionFlag (d : D) (newID : outcome Z) (hdr : PublicHeader) (from : net.UDPAddr) : St client unit :=
  c ← gets;
  if existsb (λ v, v =? version c) (SupportedVersions hdr) then mret tt else
  update (set_receivedVersionNegotiationPacket true);;
  let newVersion := ChooseSupportedVersion (Versions (config c)) (SupportedVersions hdr) in
  check (negb (newVersion =? VersionUnsupported)) (qerr.Error qerr.InvalidVersion);;
  update (set_version newVersion);;
  match newID with
  | Panic => run Panic
  | Err e => update (set_connectionID 0);; failWith e
  | Ok id =>
      update (set_connectionID id);;
      match session c with
      | None => run Panic
      | Some oldSession =>
          defer (λ c, set_oldSessions (oldSessions c ++ [Close (Some errCloseSessionForNewVersion) oldSession]) c)
            (createNewSession d (SupportedVersions hdr) from)
      end
  end.

(** Closing a channel that is closed panics. *)
Definition closeVersionNegotiationChan : St client unit :=
  c ← gets; if versionNegotiationChan c then run Panic else update (set_versionNegotiationChan true).

Definition closeOnError (m : St client unit) : St client unit := λ c,
  match m c with (c, Err e) => onSession (Close (Some e)) c | r => r end.

Definition handleReset (hdr : PublicHeader) (from : net.UDPAddr) (rest : list Z) : St client unit :=
  cr ← ask RemoteAddr;
  c ← gets;
  if negb (bool_decide (sessionRun.addrString cr = sessionRun.addrString from)) || negb (ConnectionID hdr =? connectionID c)
  then mret tt
  else match ParsePublicReset rest with
       | Panic => run Panic
       | Err _ => mret tt
       | Ok _ => onSession (closeRemote (qerr.Error qerr.PublicReset))
       end.

Definition handlePacket (d : D) (newID : outcome Z) (p : receivedRawPacket) : St client unit :=
  c ← gets;
  let packet := rawData p in
  match ParsePublicHeader PerspectiveServer (version c) packet with
  | Panic => run Panic
  | Err _ => mret tt
  | Ok (hdr, rest) =>
      if TruncateConnectionID hdr && negb (RequestConnectionIDTruncation (config c)) then mret tt
      else if negb (TruncateConnectionID hdr) && negb (ConnectionID hdr =? connectionID c) then mret tt
      else
        let hdr := with_raw (consumed packet rest) hdr in
        if ResetFlag hdr then handleReset hdr (rawFrom p) rest
        else if (receivedVersionNegotiationPacket c || versionNegotiated c) && VersionFlag hdr then mret tt
        else
          (if negb (VersionFlag hdr) && negb (versionNegotiated c)
           then update (set_versionNegotiated true);; closeVersionNegotiationChan else mret tt);;
          if VersionFlag hdr then closeOnError (handlePacketWithVersionFlag d newID hdr (rawFrom p))
          else onSession (endpoint.handlePacket (MkReceivedPacket (rawFrom p) (rcvPconn p) hdr rest (rawTime p)))
  end.

(** The session of the client goes on by itself. *)
Inductive step (negotiated : S → list Z) : client → client → Prop :=
  | step_packet c d newID p c' o : handlePacket d newID p c = (c', o) → step negotiated c c'
  | step_session c x x' : session c = Some x → GetVersion x' = GetVersion x → negotiated x' = negotiated x →
      step negotiated c (set_session (Some x') c).

End client.
End client.

(** ** Datagrams at the server *)
Section headers.
Import protocol PublicHeader.

(** Peeking and parsing read the same connection ID, and peeking leaves the reader alone. *)
Lemma peeked_parsed packet connID r : PeekConnectionID PerspectiveClient packet = (Ok connID, r) →
  r = packet ∧ ∀ version hdr rest, ParsePublicHeader PerspectiveClient version r = Ok (hdr, rest) → ConnectionID hdr = connID.
Proof.
  unfold PeekConnectionID. destruct (ReadByte packet) as [[b r1]| |] eqn:Eb; [|done|done].
  change (isClient PerspectiveClient) with true. rewrite andb_true_r.
  destruct (Z.land b 8 =? 0) eqn:E8; [done|]. cbn [negb].
  destruct (ReadUint64 LittleEndian r1) as [[c r2]| |] eqn:E64; [|done|done]. intros [= -> <-]. split; [done|]. intros version hdr rest.
  unfold ParsePublicHeader. erewrite parser_bind_ok by exact Eb. cbv zeta.
  destruct (_ && _); [done|]. rewrite E8. cbn [andb negb isServer bool_decide].
  change (isServer PerspectiveClient) with false. rewrite !andb_false_r. cbn [andb].
  intros H. apply parser_bind_inv in H as (cid & r3 & Hc & H).
  apply parser_bind_inv in Hc as (cid' & r4 & Hc & Hc'). assert (cid' = connID) as -> by congruence.
  assert (cid = connID) as -> by (destruct (connID =? 0); [done|]; by injection Hc').
  apply parser_bind_inv in H as (n & r5 & _ & H). apply parser_bind_inv in H as (v & r6 & _ & H).
  apply parser_bind_inv in H as (pid & r7 & _ & H). apply parser_bind_inv in H as (pn & r8 & _ & H).
  by injection H as <- _.
Qed.
End headers.

(** ** Who may see the error of an unknown version *)
Section unknown.
Import protocol PublicHeader.
Definition known {A} (p : Parser A) : Prop := ∀ r, p r ≠ Err ErrPacketWithUnknownVersion.

Lemma known_bind {A B} (p : Parser A) (k : A → Parser B) : known p → (∀ a, known (k a)) → known (p ≫= k).
Proof. intros Hp Hk r. unfold mbind, parser_bind. specialize (Hp r). destruct (p r) as [[a r']|e|]; [apply Hk|congruence|done]. Qed.
Lemma known_ret {A} (a : A) : known (mret a).
Proof. done. Qed.
Lemma known_throw {A} e : e ≠ ErrPacketWithUnknownVersion → known (@throw A e).
Proof. by intros He r [=]. Qed.
Lemma known_ReadByte : known ReadByte.
Proof. by intros []. Qed.
Lemma known_ReadUintN v n : known (ReadUintN (GetByteOrder v) n).
Proof.
  unfold GetByteOrder. destruct (v <? _); cbn.
  - unfold littleEndian.ReadUintN. generalize 0 at 2. generalize 0. induction (Z.to_nat n) as [|k IH]; intros i acc; [done|].
    apply known_bind; [apply known_ReadByte|]. intros b. apply IH.
  - unfold bigEndian.ReadUintN. generalize 0 at 2. generalize 0. induction (Z.to_nat n) as [|k IH]; intros i acc; [done|].
    apply known_bind; [apply known_ReadByte|]. intros b. apply IH.
Qed.
Lemma known_ReadFull n : known (ReadFull n).
Proof. intros r. unfold ReadFull. destruct (decide _); [done|]. by destruct r. Qed.

Ltac known_step :=
  first [ apply known_ret | apply known_ReadByte | apply known_ReadUintN | apply known_ReadFull | by apply known_throw
        | apply known_bind; [|intros ?] | case_match ].

(** Only a packet without a version, to a receiver that knows none, gives this error. *)
Lemma parse_known pers version r : version ≠ VersionUnknown → ParsePublicHeader pers version r ≠ Err ErrPacketWithUnknownVersion.
Proof.
  intros Hv. revert r. change (known (ParsePublicHeader pers version)). unfold ParsePublicHeader.
  apply Z.eqb_neq in Hv. rewrite Hv. cbn [andb]. known_step; [known_step|]. cbv zeta.
  unfold ReadUint64, ReadUint32, LittleEndian, littleEndian.ReadUint64, littleEndian.ReadUint32.
  repeat known_step; intros r; try done; by destruct (readVersions (Datatypes.S (length r)) r).
Qed.

(** A packet that can be read without knowing the version brings it, or is a reset. *)
Lemma parse_flags r hdr rest : ParsePublicHeader PerspectiveClient VersionUnknown r = Ok (hdr, rest) →
  VersionFlag hdr || ResetFlag hdr = true.
Proof.
  unfold ParsePublicHeader. rewrite Z.eqb_refl. cbn [andb].
  change (isServer PerspectiveClient) with false.
  intros (b & r1 & _ & H)%parser_bind_inv. cbv zeta in H. rewrite !andb_false_r in H. destruct (negb (_ || _)) eqn:E; [done|]. apply negb_false_iff in E.
  destruct (_ && _); [done|]. apply parser_bind_inv in H as (cid & r2 & _ & H). apply parser_bind_inv in H as (n & r3 & _ & H).
  apply parser_bind_inv in H as (v & r4 & _ & H). apply parser_bind_inv in H as (pid & r5 & _ & H).
  apply parser_bind_inv in H as (pn & r6 & _ & H). by injection H as <- _.
Qed.
End unknown.

Section server_theory.
Import protocol session publicReset PublicHeader endpoint server.
Context {S D : Type} `{!packetHandler S}.
Context (newSession : D → Z → Z → net.UDPAddr → net.UDPAddr → outcome S).
Notation server := (@server.server S).
Implicit Types (s : server).

(** What is written for the packet [p] of a connection that has no session. *)
Definition reply_to (s : server) (p : receivedRawPacket) (connID : Z) (bs : list Z) : Prop :=
  WritePublicReset connID 0 0 = Ok bs ∨
  (cryptoSetup.ClientHelloMinimumSize <= len (rawData p) ∧ ComposeVersionNegotiation connID (Versions (config s)) = Ok bs).

(** The server with the new session [x] at the pointer [h]. *)
Definition with_session (connID : Z) (h : nat) (x : S) (s : server) : server :=
  set_handshaking (handshaking s ++ [h]) (set_running (running s ++ [(h, connID)])
    (set_sessions (<[connID := Some h]> (sessions s)) (set_store (<[h := x]> (store s)) s))).

(** What handlePacket can do. *)
Inductive effect (p : receivedRawPacket) (s : server) : server → Prop :=
  | dropped : effect p s s
  | replied connID bs : (PeekConnectionID PerspectiveClient (rawData p)).1 = Ok connID →
      sessions s !! connID = None → reply_to s p connID bs →
      effect p s (set_written (written s ++ [(rawFrom p, bs)]) s)
  | delivered connID h x pkt : (PeekConnectionID PerspectiveClient (rawData p)).1 = Ok connID →
      sessions s !! connID = Some (Some h) → store s !! h = Some x →
      ConnectionID (publicHeader pkt) = connID →
      effect p s (set_store (<[h := endpoint.handlePacket pkt x]> (store s)) s)
  | served connID d version h x pkt : (PeekConnectionID PerspectiveClient (rawData p)).1 = Ok connID →
      sessions s !! connID = None → version ∈ Versions (config s) → h = fresh (dom (store s)) →
      newSession d version connID (rcvPconn p) (rawFrom p) = Ok x →
      VersionFlag (publicHeader pkt) = true → VersionNumber (publicHeader pkt) = version →
      ConnectionID (publicHeader pkt) = connID →
      effect p s (with_session connID h (endpoint.handlePacket pkt x) s).

Lemma writeTo_effect result to data s s' o : writeTo result to data s = (s', o) →
  s' = s ∨ ∃ bs, data = Ok bs ∧ s' = set_written (written s ++ [(to, bs)]) s.
Proof.
  unfold writeTo, mbind, St_bind, run. destruct data as [bs| |]; [|intros [= <- _]; by left..].
  destruct result; intros [= <- _]; [by left|]. right. eauto.
Qed.

Lemma header_effect d result p connID session hdr rest s s' o :
  (PeekConnectionID PerspectiveClient (rawData p)).1 = Ok connID → ConnectionID hdr = connID →
  match session with Some h => sessions s !! connID = Some (Some h) | None => sessions s !! connID = None ∧ (VersionFlag hdr || ResetFlag hdr) = true end →
  handleHeader newSession d result p connID session hdr rest s = (s', o) → effect p s s'.
Proof.
  intros Hp Hc Hs. unfold handleHeader, mbind at 1, St_bind at 1, gets at 1. cbv zeta.
  set (unsup := VersionFlag hdr && _). destruct (ResetFlag hdr) eqn:Er.
  { intros H. assert (s' = s) as ->; [|constructor]. destruct (bool_decide _); [|by injection H].
    destruct (ParsePublicReset rest); by injection H. }
  rewrite orb_false_r in Hs. destruct (bool_decide (is_Some session) && unsup) eqn:E1; [intros [= <- _]; constructor|].
  destruct unsup eqn:Eu.
  { rewrite andb_true_r in E1. apply bool_decide_eq_false in E1. destruct session as [h|]; [by destruct E1|]. destruct Hs as [Hs _].
    unfold mbind, St_bind, check, failWith. destruct (negb (_ <? _)) eqn:El; cbn; [|intros [= <- _]; constructor].
    intros [->|(bs & Hbs & ->)]%writeTo_effect; [constructor|]. eapply (replied _ _ connID); [done|done|].
    right. subst connID. split; [|done]. pose proof (len_nonneg (Raw hdr)). lia. }
  assert (∀ h x, store s !! h = Some x → sessions s !! connID = Some (Some h) → ∀ pkt, ConnectionID (publicHeader pkt) = connID →
    (onSession (endpoint.handlePacket pkt) h s).1 = s' → effect p s s') as Hd.
  { intros h x Hx Hh pkt Hk. unfold onSession, deref, mbind, St_bind, gets. rewrite Hx. intros <-. by econstructor. }
  destruct session as [h|].
  - unfold mbind at 1, St_bind at 1. cbn [mret St_ret]. intros H.
    destruct (store s !! h) as [x|] eqn:Hx.
    + eapply (Hd h x Hx Hs (MkReceivedPacket _ _ hdr _ _)); [done|]. by erewrite H.
    + unfold onSession, deref, mbind, St_bind, gets in H. rewrite Hx in H. cbn in H. injection H as <- _. constructor.
  - destruct Hs as [Hs Hv]. unfold serve, mbind, St_bind, gets, check, run, update, mret, St_ret, failWith. 
    destruct (IsSupportedVersion _ _) eqn:Ev; [|cbn; intros [= <- _]; constructor].
    destruct (newSession _ _ _ _ _) as [x| |] eqn:En; [|cbn; intros [= <- _]; constructor..].
    unfold onSession, deref, mbind, St_bind, gets, update. cbn [store set_handshaking set_running set_sessions set_store].
    rewrite lookup_insert_eq. cbn [mret St_ret]. intros [= <- _]. rewrite insert_insert_eq. rewrite Hc in *.
    set (pkt := MkReceivedPacket (rawFrom p) (rcvPconn p) hdr rest (rawTime p)).
    by apply (served p s connID d (VersionNumber hdr) (fresh (dom (store s))) x pkt); [..|apply IsSupportedVersion_spec| | | | |].
Qed.

Lemma handlePacket_effect d result p s s' o : map_Forall (λ _ x, GetVersion x ≠ VersionUnknown) (store s) →
  handlePacket newSession d result p s = (s', o) → effect p s s'.
Proof.
  intros Hst.
  unfold handlePacket. destruct (PeekConnectionID _ _) as [[connID| |] r] eqn:Ep; [|intros [= <- _]; constructor..].
  assert ((PeekConnectionID PerspectiveClient (rawData p)).1 = Ok connID) as Hp by by rewrite Ep.
  unfold mbind at 1, St_bind at 1, gets.
  destruct (sessions s !! connID) as [[h|]|] eqn:Es; [| intros [= <- _]; constructor |].
  - cbn [mjoin option_join]. unfold mbind, St_bind. unfold deref, mbind, St_bind, gets.
    destruct (store s !! h) as [x|] eqn:Ex; [|cbn; intros [= <- _]; constructor]. cbn [mret St_ret].
    destruct (ParsePublicHeader _ _ _) as [[hdr rest]|e|] eqn:Eh; [| |intros [= <- _]; constructor].
    + apply header_effect; [done| |done]. exact (proj2 (peeked_parsed _ _ _ Ep) _ _ _ Eh).
    + apply Hst in Ex. rewrite decide_False by (intros ->; by apply (parse_known _ _ _ Ex) in Eh). intros [= <- _]. constructor.
  - cbn [mjoin option_join]. unfold mbind, St_bind. cbn [mret St_ret].
    destruct (ParsePublicHeader _ _ _) as [[hdr rest]|e|] eqn:Eh; [| |intros [= <- _]; constructor].
    + apply header_effect; [done| |].  exact (proj2 (peeked_parsed _ _ _ Ep) _ _ _ Eh). split; [done|]. by apply (parse_flags r hdr rest).
    + destruct (decide _); [|intros [= <- _]; constructor]. 
      intros [->|(bs & Hbs & ->)]%writeTo_effect; [constructor|]. econstructor; [done|done|by left].
Qed.
(** *** Invariant *)
Context (negotiated : S → list Z) `{!packetHandlerOk S negotiated}.
Context (newSession_ok : ∀ d version id local remote x, newSession d version id local remote = Ok x → GetVersion x = version).

(** Every session speaks a version of the configuration. The map has a session exactly for
    the connections whose run loop runs, each at its own pointer, and nil exactly for those
    that wait for their timer, of which there is one each. A session is on its way to Accept
    at most once. *)
Record server_ok (c : Config) (s : server) : Prop := {
  so_config : config s = c;
  so_versions : map_Forall (λ _ x, GetVersion x ∈ Versions c) (store s);
  so_running : NoDup (running s).*1 ∧ NoDup (running s).*2;
  so_entries h id : (h, id) ∈ running s ↔ sessions s !! id = Some (Some h);
  so_store : Forall (λ r, is_Some (store s !! r.1)) (running s);
  so_timers : NoDup (timers s) ∧ ∀ id, id ∈ timers s ↔ sessions s !! id = Some None;
  so_accept : NoDup (handshaking s ++ sessionQueue s ++ accepted s);
  so_accepted : Forall (λ h, is_Some (store s !! h)) (handshaking s ++ sessionQueue s ++ accepted s);
  so_queue : len (sessionQueue s) <= sessionQueueSize;
}.

Lemma new_server_ok c : server_ok c (newServer c).
Proof.
  split; cbn; try done; try constructor; try apply NoDup_nil_2; try apply map_Forall_empty;
    try (intros Hin; by apply not_elem_of_nil in Hin); try (by rewrite lookup_empty).
  intros id. rewrite lookup_empty. set_solver.
Qed.

(** A change of the store that keeps the pointers and the versions. *)
Lemma set_store_ok c s st : server_ok c s → (∀ h, is_Some (store s !! h) → is_Some (st !! h)) →
  map_Forall (λ _ x, GetVersion x ∈ Versions c) st → server_ok c (set_store st s).
Proof.
  intros [] Hst Hv. split; cbn; try done.
  - eapply Forall_impl; [exact so_store0|]. cbn. auto.
  - eapply Forall_impl; [exact so_accepted0|]. cbn. auto.
Qed.

Lemma replace_ok c s h x x' : server_ok c s → store s !! h = Some x → GetVersion x' = GetVersion x →
  server_ok c (set_store (<[h := x']> (store s)) s).
Proof.
  intros Hs Hx Hv. apply set_store_ok; [done| |].
  - intros h' Hh'. destruct (decide (h = h')) as [->|]; [rewrite lookup_insert_eq; eauto|by rewrite lookup_insert_ne].
  - apply map_Forall_insert_2; [|apply Hs]. rewrite Hv. by apply (so_versions _ _ Hs h).
Qed.

Lemma is_Some_insert_2 {A} (m : gmap nat A) h h' x : is_Some (m !! h') → is_Some (<[h := x]> m !! h').
Proof. intros ?. destruct (decide (h = h')) as [->|]; [rewrite lookup_insert_eq; eauto|by rewrite lookup_insert_ne]. Qed.

(** A pointer that is not used yet. *)
Lemma fresh_pointer c s h : server_ok c s → store s !! h = None →
  h ∉ (running s).*1 ∧ h ∉ handshaking s ++ sessionQueue s ++ accepted s.
Proof.
  intros Hs Hh. split.
  - intros ([h' id] & -> & Hin)%list_elem_of_fmap. pose proof (so_store _ _ Hs) as H. rewrite Forall_forall in H.
    specialize (H _ Hin). cbn in *. rewrite Hh in H. by destruct H.
  - intros Hin. pose proof (so_accepted _ _ Hs) as H. rewrite Forall_forall in H. specialize (H _ Hin). rewrite Hh in H. by destruct H.
Qed.

Lemma with_session_ok c s connID h x : server_ok c s → sessions s !! connID = None → store s !! h = None →
  GetVersion x ∈ Versions c → server_ok c (with_session connID h x s).
Proof.
  intros Hs Hc Hh Hv. destruct (fresh_pointer c s h Hs Hh) as [Hr Ha].
  assert (connID ∉ (running s).*2) as Hid.
  { intros ([h' id] & -> & Hin)%list_elem_of_fmap. apply (so_entries _ _ Hs) in Hin. cbn in *. congruence. }
  destruct Hs. unfold with_session. split; cbn [config store sessions running handshaking sessionQueue accepted timers set_handshaking set_running set_sessions set_store]; try done.
  - by apply map_Forall_insert_2.
  - rewrite !fmap_app. destruct so_running0. split; (apply NoDup_app; split; [done|]; split; [|apply NoDup_singleton]); set_solver.
  - intros h1 id1. rewrite elem_of_app, list_elem_of_singleton, so_entries0, lookup_insert.
    case_decide; subst; naive_solver.
  - apply Forall_app. split; [|repeat constructor; cbn; rewrite lookup_insert_eq; eauto].
    eapply Forall_impl; [exact so_store0|]. intros. by apply is_Some_insert_2.
  - destruct so_timers0 as [? Ht]. split; [done|]. intros id. rewrite Ht, lookup_insert. case_decide; subst; naive_solver.
  - rewrite <- (assoc_L (++)). rewrite (Permutation_app_comm [h]), (assoc_L (++)).
    apply NoDup_app. split; [done|]. split; [set_solver|apply NoDup_singleton].
  - rewrite <- (assoc_L (++)). rewrite (Permutation_app_comm [h]), (assoc_L (++)). apply Forall_app. split.
    + eapply Forall_impl; [exact so_accepted0|]. intros. by apply is_Some_insert_2.
    + repeat constructor. rewrite lookup_insert_eq. eauto.
Qed.

Lemma set_written_ok c s w : server_ok c s → server_ok c (set_written w s).
Proof. by intros []. Qed.

Lemma effect_ok c p s s' : server_ok c s → effect p s s' → server_ok c s'.
Proof.
  intros Hs [|connID bs ? ? ?|connID h x pkt ? ? Hx ?|connID d v h x pkt ? ? Hv -> Hn ? ? ?].
  - done.
  - by apply set_written_ok.
  - eapply replace_ok; [done|done|]. apply same_handlePacket.
  - apply with_session_ok; [done|done| |].
    + apply not_elem_of_dom, is_fresh.
    + rewrite (proj1 (same_handlePacket _ _)), (newSession_ok _ _ _ _ _ _ Hn), <- (so_config _ _ Hs). done.
Qed.

Lemma ended_ok c s pre h id post : server_ok c s → running s = pre ++ (h, id) :: post →
  server_ok c (removeConnection id (set_running (pre ++ post) s)).
Proof.
  intros Hs Hr. pose proof (so_running _ _ Hs) as [_ Hid]. rewrite Hr, fmap_app in Hid. cbn in Hid.
  rewrite NoDup_app, NoDup_cons in Hid. destruct Hid as (Hid1 & Hid2 & Hid3 & Hid4).
  assert (sessions s !! id = Some (Some h)) as Hl by (apply (so_entries _ _ Hs); rewrite Hr; set_solver).
  destruct Hs. rewrite Hr in *. unfold removeConnection. split; cbn [config store sessions running handshaking sessionQueue accepted timers set_timers set_running set_sessions]; try done.
  - rewrite !fmap_app in *. destruct so_running0 as [R1 R2]. cbn in *. split.
    + rewrite <- Permutation_middle, NoDup_cons in R1. apply R1.
    + rewrite <- Permutation_middle, NoDup_cons in R2. apply R2.
  - intros h' id'. rewrite lookup_insert. case_decide as Hd; subst.
    + split; [|done]. intros [Hin|Hin]%elem_of_app; exfalso.
      * apply (Hid2 id'); [|set_solver]. apply list_elem_of_fmap. by exists (h', id').
      * apply Hid3. apply list_elem_of_fmap. by exists (h', id').
    + rewrite <- so_entries0, !elem_of_app, elem_of_cons. naive_solver.
  - rewrite Forall_app, Forall_cons in so_store0. apply Forall_app. tauto.
  - destruct so_timers0 as [T1 T2]. split.
    + apply NoDup_app. split; [done|]. split; [|apply NoDup_singleton]. intros i Hi ->%list_elem_of_singleton. apply T2 in Hi. congruence.
    + intros i. rewrite elem_of_app, list_elem_of_singleton, T2, lookup_insert. case_decide; subst; naive_solver.
Qed.

Lemma timer_ok c s pre id post : server_ok c s → timers s = pre ++ id :: post →
  server_ok c (set_timers (pre ++ post) (set_sessions (delete id (sessions s)) s)).
Proof.
  intros Hs Ht. destruct Hs. rewrite Ht in *. destruct so_timers0 as [T1 T2].
  assert (sessions s !! id = Some None) as Hl by (apply T2; set_solver).
  split; cbn [config store sessions running handshaking sessionQueue accepted timers set_timers set_sessions]; try done.
  - intros h' id'. rewrite lookup_delete, so_entries0. case_decide; subst; naive_solver.
  - rewrite <- Permutation_middle, NoDup_cons in T1. destruct T1 as [T1 T3]. split; [done|]. intros i.
    rewrite lookup_delete. case_decide as Hd; [subst; set_solver|]. rewrite <- T2. set_solver.
Qed.

(** Sessions move from a list to the next. *)
Lemma queues_ok c s hs queue acc gone : server_ok c s →
  handshaking s ++ sessionQueue s ++ accepted s ≡ₚ (hs ++ queue ++ acc) ++ gone →
  len queue <= sessionQueueSize → server_ok c (set_accepted acc (set_sessionQueue queue (set_handshaking hs s))).
Proof.
  intros [] Hp Hq. split; cbn [config store sessions running handshaking sessionQueue accepted timers set_accepted set_sessionQueue set_handshaking]; try done.
  - rewrite Hp, NoDup_app in so_accept0. apply so_accept0.
  - rewrite Hp, Forall_app in so_accepted0. apply so_accepted0.
Qed.

Lemma Close_ok c s : server_ok c s → server_ok c (Close s).
Proof.
  intros Hs. unfold Close. generalize (map_to_list (sessions s)). intros l.
  set (st := foldr _ _ l).
  assert ((∀ h, is_Some (store s !! h) → is_Some (st !! h)) ∧ map_Forall (λ _ x, GetVersion x ∈ Versions c) st) as [H1 H2]; [|by apply set_store_ok].
  subst st. induction l as [|[id [h|]] l [IH1 IH2]]; cbn [foldr snd]; [split; [auto|apply Hs]| |done]. split.
  - intros h' Hh'. rewrite lookup_alter. case_decide; subst; [rewrite fmap_is_Some|]; auto.
  - intros h' x. rewrite lookup_alter. case_decide; subst; [|apply IH2].
    intros (y & Hy & ->)%fmap_Some. rewrite (proj1 (same_Close _ _)). by eapply IH2.
Qed.

Lemma step_ok c s s' : VersionUnknown ∉ Versions c → server_ok c s → step newSession s s' → server_ok c s'.
Proof.
  intros Hu Hs Hstep. destruct Hstep as [s d r p s' o Hh|s h x x' Hx Hv|s pre h id post Hr|s pre id post Ht|s pre h post Hh Hq|s pre h post Hh|s h q Hq|s].
  - eapply effect_ok; [done|]. eapply handlePacket_effect; [|done]. eapply map_Forall_impl; [apply Hs|]. intros ? y Hy Ey. cbn in *. congruence.
  - by eapply replace_ok.
  - by eapply ended_ok.
  - by apply timer_ok.
  - apply (queues_ok c s (pre ++ post) (sessionQueue s ++ [h]) (accepted s) []) in Hs.
    + by destruct s.
    + rewrite Hh. solve_Permutation.
    + rewrite len_app. change (len [h]) with 1. lia.
  - apply (queues_ok c s (pre ++ post) (sessionQueue s) (accepted s) [h]) in Hs.
    + by destruct s.
    + rewrite Hh. solve_Permutation.
    + apply Hs.
  - apply (queues_ok c s (handshaking s) q (accepted s ++ [h]) []) in Hs.
    + by destruct s.
    + rewrite Hq. solve_Permutation.
    + pose proof (so_queue _ _ Hs) as Hl. rewrite Hq in Hl. unfold len in *. cbn [length] in Hl. lia.
  - by apply Close_ok.
Qed.

Lemma reachable_ok c s : VersionUnknown ∉ Versions c → reachable newSession c s → server_ok c s.
Proof. intros Hu. induction 1; [apply new_server_ok|by eapply step_ok]. Qed.

(** *** Replies *)
Lemma public_reset_length connID a b : ∃ bs, WritePublicReset connID a b = Ok bs ∧ len bs = 49.
Proof.
  unfold WritePublicReset, wseq. rewrite !WriteUint64_enc, !WriteUint32_enc. cbn [mbind outcome_bind WriteByte].
  eexists. split; [done|]. rewrite !len_app, !enc_len. done.
Qed.

Lemma negotiation_length connID versions : ∃ bs, ComposeVersionNegotiation connID versions = Ok bs ∧ len bs = 9 + 4 * len versions.
Proof.
  assert (∃ vs, foldr (λ v w, WriteUint32 LittleEndian (VersionNumberToTag v) ;;; w) (Ok []) versions = Ok vs ∧ len vs = 4 * len versions) as (vs & Hvs & Hl).
  { induction versions as [|v versions (vs & Hvs & Hl)]; [by exists []|]. cbn [foldr]. rewrite Hvs, WriteUint32_enc.
    eexists. split; [done|]. rewrite len_app, enc_len, Hl. unfold len. cbn [length]. lia. }
  unfold ComposeVersionNegotiation. rewrite Hvs. unfold Write.
  cbn [VersionFlag ResetFlag TruncateConnectionID MultipathFlag DiversificationNonce ConnectionID].
  change (publicFlagByte _ _) with 9. change (0 <? len (@nil Z)) with false. cbn [andb negb].
  change (isClient PerspectiveServer) with false. cbv iota. change (hasPacketNumber false true PerspectiveServer) with false. cbn [negb].
  rewrite WriteUint64_enc. cbn [wseq WriteByte mbind outcome_bind]. eexists. split; [done|].
  rewrite !len_app, enc_len, Hl. change (len [u8 9]) with 1. change (len (@nil Z)) with 0. lia.
Qed.

Lemma writeTo_safe result to data s : data ≠ Panic → (writeTo result to data s).2 ≠ Panic.
Proof. intros H. unfold writeTo, mbind, St_bind, run. destruct data; [|done|done]. by destruct result. Qed.

Lemma ParsePublicReset_safe r : Forall is_byte r → ParsePublicReset r ≠ Panic.
Proof. intros Hr. by apply (public_reset_roundtrip 1 0 0 0 r). Qed.

Lemma handleHeader_safe d result p connID session hdr rest s : Forall is_byte rest →
  match session with Some h => is_Some (store s !! h) | None => True end →
  (∀ version id local remote, newSession d version id local remote ≠ Panic) →
  (handleHeader newSession d result p connID session hdr rest s).2 ≠ Panic.
Proof.
  intros Hr Hses Hn. unfold handleHeader, mbind at 1, St_bind at 1, gets. cbv zeta.
  destruct (ResetFlag hdr).
  { destruct (bool_decide _); [|done]. pose proof (ParsePublicReset_safe rest Hr). by destruct (ParsePublicReset rest). }
  set (unsup := VersionFlag hdr && _). destruct (_ && unsup); [done|]. destruct unsup.
  { unfold mbind, St_bind, check, failWith. destruct (negb (_ <? _)); cbn [mret St_ret]; [|done]. apply writeTo_safe.
    by destruct (negotiation_length (ConnectionID hdr) (Versions (config s))) as (bs & -> & _). }
  destruct session as [h|].
  - destruct Hses as [x Hx]. unfold onSession, deref, mbind, St_bind, gets. cbn. by rewrite Hx.
  - unfold serve, mbind, St_bind, gets, check, run, update, mret, St_ret, failWith.
    destruct (IsSupportedVersion _ _); cbn; [|done].
    specialize (Hn (VersionNumber hdr) (ConnectionID hdr) (rcvPconn p) (rawFrom p)).
    destruct (newSession _ _ _ _ _); [|done|done]. unfold onSession, deref, mbind, St_bind, gets. cbn. by rewrite lookup_insert_eq.
Qed.

(** No datagram makes the server panic. *)
Lemma handlePacket_safe c d result p s : server_ok c s → Forall is_byte (rawData p) →
  (∀ version id local remote, newSession d version id local remote ≠ Panic) →
  (handlePacket newSession d result p s).2 ≠ Panic.
Proof.
  intros Hs Hb Hn. unfold handlePacket.
  destruct (PeekConnectionID _ _) as [[connID| |] r] eqn:Ep; [|done|].
  2: { exfalso. eapply (proj2 (ParsePublicHeader_safe PerspectiveClient 0)); [exact Hb|]. by rewrite Ep. }
  assert (r = rawData p) as -> by apply (peeked_parsed _ _ _ Ep).
  unfold mbind at 1, St_bind at 1, gets.
  assert (∀ version hdr rest, ParsePublicHeader PerspectiveClient version (rawData p) = Ok (hdr, rest) → Forall is_byte rest) as Hrest.
  { intros v hdr rest E. pose proof (proj1 (ParsePublicHeader_safe PerspectiveClient v) _ Hb) as H. rewrite E in H.
    destruct H as [_ [pre Hpre]]. rewrite Hpre in Hb. by apply Forall_app in Hb as [_ ?]. }
  destruct (sessions s !! connID) as [[h|]|] eqn:Es; [|done|].
  - assert (is_Some (store s !! h)) as Hi.
    { apply (so_entries _ _ Hs) in Es. pose proof (so_store _ _ Hs) as H. rewrite Forall_forall in H. by apply (H _ Es). }
    cbn [mjoin option_join]. destruct Hi as [x Hx]. unfold mbind, St_bind. unfold deref, mbind, St_bind, gets. rewrite Hx. cbn [mret St_ret].
    pose proof (proj1 (ParsePublicHeader_safe PerspectiveClient (GetVersion x)) _ Hb) as H.
    destruct (ParsePublicHeader _ _ _) as [[hdr rest]|e|] eqn:E; [|destruct (decide _); [|done]|done].
    + apply handleHeader_safe; [by eapply Hrest|eauto|done].
    + apply writeTo_safe. by destruct (public_reset_length connID 0 0) as (bs & -> & _).
  - cbn [mjoin option_join]. unfold mbind, St_bind. cbn [mret St_ret].
    pose proof (proj1 (ParsePublicHeader_safe PerspectiveClient VersionUnknown) _ Hb) as H.
    destruct (ParsePublicHeader _ _ _) as [[hdr rest]|e|] eqn:E; [|destruct (decide _); [|done]|done].
    + apply handleHeader_safe; [by eapply Hrest|done|done].
    + apply writeTo_safe. by destruct (public_reset_length connID 0 0) as (bs & -> & _).
Qed.

(** C25: the table of sessions of the server. Whatever datagrams arrive, however sessions, their
    handshakes, timers and Accept interleave: every session speaks a version of the
    configuration; the table has a session exactly for the connections whose run loop has not
    returned, each at its own pointer, and nil exactly for the connections that wait for
    their timer, of which there is one each, so a timer never deletes a session that lives;
    no session is handed out by Accept twice; and no datagram makes the server panic unless
    making a session does. *)
Theorem server_invariant c s d result p : VersionUnknown ∉ Versions c → reachable newSession c s → Forall is_byte (rawData p) →
  (∀ version id local remote, newSession d version id local remote ≠ Panic) →
  server_ok c s ∧ (handlePacket newSession d result p s).2 ≠ Panic.
Proof. intros Hu Hr Hp Hn. pose proof (reachable_ok c s Hu Hr) as Hs. split; [done|by eapply handlePacket_safe]. Qed.

(** C26: connections are separate. A datagram changes no session but the one of its own
    connection ID, and the entry of no other connection; nothing that arrives for a
    connection that was closed has any effect. The server writes at most one reply, to the
    sender, only for a connection it has no session for, and then it does nothing else. As
    long as there are at most 253 versions, a reply has no more bytes than the datagram,
    except for a public reset, which has 49. *)
Theorem packets_isolated c s d result p s' o connID : VersionUnknown ∉ Versions c → reachable newSession c s →
  len (Versions c) <= 253 → handlePacket newSession d result p s = (s', o) →
  (PeekConnectionID PerspectiveClient (rawData p)).1 = Ok connID →
  (∀ h x, store s !! h = Some x → sessions s !! connID ≠ Some (Some h) → store s' !! h = Some x) ∧
  (∀ id, id ≠ connID → sessions s' !! id = sessions s !! id) ∧
  (sessions s !! connID = Some None → s' = s) ∧
  (written s' = written s ∨ ∃ bs, s' = set_written (written s ++ [(rawFrom p, bs)]) s ∧
     sessions s !! connID = None ∧ (len bs <= len (rawData p) ∨ WritePublicReset connID 0 0 = Ok bs ∧ len bs = 49)).
Proof.
  intros Hu Hr Hl H Hp. pose proof (reachable_ok c s Hu Hr) as Hs.
  apply handlePacket_effect in H; [|eapply map_Forall_impl; [apply Hs|]; intros ? y Hy Ey; cbn in *; congruence].
  destruct H as [|id bs Hid Hn Hb|id h x pkt Hid Hh Hx _|id d' v h x pkt Hid Hn Hv -> Hx _ _ _]; [by eauto|..];
    assert (id = connID) as -> by congruence.
  - split; [done|]. split; [done|]. split; [congruence|]. right. exists bs. split; [done|]. split; [done|].
    destruct Hb as [Hb|[Hlen Hb]].
    + right. split; [done|]. destruct (public_reset_length connID 0 0) as (bs' & Hb' & E). congruence.
    + left. rewrite (so_config _ _ Hs) in Hb. destruct (negotiation_length connID (Versions c)) as (bs' & Hb' & E). assert (bs' = bs) as -> by congruence.
      unfold cryptoSetup.ClientHelloMinimumSize in Hlen. lia.
  - split; [|split; [done|split; [congruence|by left]]]. intros h' x' Hx' Hne. cbn. rewrite lookup_insert_ne; [done|congruence].
  - split; [|split; [|split; [congruence|by left]]].
    + intros h' x' Hx' _. cbn. rewrite lookup_insert_ne; [done|]. intros <-. apply elem_of_dom_2 in Hx'. by apply is_fresh in Hx'.
    + intros id Hne. cbn. by rewrite lookup_insert_ne.
Qed.

End server_theory.

(** ** Datagrams at the client *)
Section client_theory.
Import protocol session publicReset PublicHeader endpoint client.
Context {S D : Type} `{!packetHandler S}.
Context (newClientSession : D → Z → Z → list Z → net.UDPAddr → outcome S).
Context (negotiated : S → list Z) `{!packetHandlerOk S negotiated}.
Context (newClientSession_ok : ∀ d version id vs remote x, newClientSession d version id vs remote = Ok x →
  GetVersion x = version ∧ negotiated x = vs).
Notation client := (@client.client S).
Implicit Types (c : client).

Inductive reachable (cfg : Config) (id : Z) : client → Prop :=
  | reachable_new d to c : newClient newClientSession d cfg id to = Ok c → reachable cfg id c
  | reachable_step c c' : reachable cfg id c → step newClientSession negotiated c c' → reachable cfg id c'.

(** The session speaks the version that was offered first, or the best one of a version
    negotiation packet that does not have that version. *)
Definition session_ok (versions : list Z) (offered : Z) (x : S) : Prop :=
  (negotiated x = [] ∧ GetVersion x = offered) ∨
  (offered ∉ negotiated x ∧ GetVersion x ≠ VersionUnsupported ∧ GetVersion x = ChooseSupportedVersion versions (negotiated x)).

Record client_ok (cfg : Config) (c : client) : Prop := {
  co_config : config c = cfg;
  co_chan : versionNegotiationChan c = versionNegotiated c;
  co_before : receivedVersionNegotiationPacket c = false → head (Versions cfg) = Some (version c) ∧
    ∀ x, session c = Some x → negotiated x = [];
  co_session offered x : head (Versions cfg) = Some offered → session c = Some x → session_ok (Versions cfg) offered x;
}.

Lemma ChooseSupportedVersion_in ours theirs : ChooseSupportedVersion ours theirs ≠ VersionUnsupported →
  ChooseSupportedVersion ours theirs ∈ theirs.
Proof. intros H. destruct (ChooseSupportedVersion_spec ours theirs) as [(pre & v & post & _ & Hv & _ & ->)|[_ E]]; [done|congruence]. Qed.

(** The session changes its state, but neither its version nor what it knows of the
    negotiation. *)
Lemma same_session_ok cfg c x x' : client_ok cfg c → session c = Some x → GetVersion x' = GetVersion x → negotiated x' = negotiated x →
  client_ok cfg (set_session (Some x') c).
Proof.
  intros [] Hx Hv Hn. split; cbn; [done|done| |].
  - intros Hr. destruct (co_before0 Hr) as [Hh Hs]. split; [done|]. intros y [= <-]. rewrite Hn. auto.
  - intros offered y Ho [= <-]. unfold session_ok. rewrite Hv, Hn. by apply co_session0.
Qed.

Lemma onSession_ok cfg f c : (∀ x, GetVersion (f x) = GetVersion x ∧ negotiated (f x) = negotiated x) →
  client_ok cfg c → client_ok cfg (onSession f c).1.
Proof.
  intros Hf Hc. unfold onSession, ask, mbind, St_bind, gets, run. destruct (session c) as [x|] eqn:Ex; [|done].
  cbn. destruct (Hf x). by eapply same_session_ok.
Qed.

Lemma newClient_ok d cfg id to c : newClient newClientSession d cfg id to = Ok c → client_ok cfg c.
Proof.
  unfold newClient. destruct (Versions cfg) as [|v vs] eqn:Ev; [done|].
  unfold createNewSession, mbind, St_bind, gets, update, failWith, run. cbn.
  destruct (newClientSession _ _ _ _ _) as [x| |] eqn:Ex; [|done|done]. intros [= <-].
  apply newClientSession_ok in Ex as [E1 E2]. split; cbn; rewrite ?Ev; try done.
  - intros _. split; [done|]. by intros y [= <-].
  - intros o y [= <-] [= <-]. by left.
Qed.

Lemma switch_ok cfg d newID hdr from c : client_ok cfg c → receivedVersionNegotiationPacket c = false →
  client_ok cfg (handlePacketWithVersionFlag newClientSession d newID hdr from c).1.
Proof.
  intros Hc Hr. unfold handlePacketWithVersionFlag, mbind, St_bind, gets, update, check, failWith, run.
  destruct (existsb _ _) eqn:Ee; [done|]. cbn [fst].
  assert (client_ok cfg (set_receivedVersionNegotiationPacket true c)) as Hc1 by (destruct Hc; by split).
  destruct (negb (_ =? _)) eqn:En; [|done]. cbn [mret St_ret fst]. apply negb_true_iff, Z.eqb_neq in En.
  set (v := ChooseSupportedVersion _ _) in *. destruct newID as [id|e|]; [|by destruct Hc; split..].
  destruct (session c) as [old|] eqn:Eo; [|by destruct Hc; split].
  unfold defer, createNewSession, mbind, St_bind, gets, update, failWith, run. cbn [version connectionID set_connectionID set_version set_receivedVersionNegotiationPacket].
  destruct (newClientSession _ _ _ _ _) as [x| |] eqn:Ex; cbn; [|by destruct Hc; split..].
  apply newClientSession_ok in Ex as [E1 E2]. destruct (co_before _ _ Hc Hr) as [Hh _]. destruct Hc. split; cbn; try done.
  intros o y Ho [= <-]. right. rewrite E1, E2. assert (o = version c) as -> by congruence. split_and!.
  - intros Hin. apply list_elem_of_In in Hin. rewrite <- not_true_iff_false in Ee. apply Ee, existsb_exists. exists (version c). split; [done|apply Z.eqb_refl].
  - done.
  - unfold v. by rewrite co_config0.
Qed.

(** What handlePacket can do: nothing, one call of the session, the first of these after it
    has noted that the version was accepted, or a change of the version. A panic that is not
    one of these calls comes from a nil session. *)
Definition keeps (f : S → S) : Prop := ∀ x, GetVersion (f x) = GetVersion x ∧ negotiated (f x) = negotiated x.
Definition accept : St client unit := update (set_versionNegotiated true);; closeVersionNegotiationChan.

Inductive client_effect (d : D) (newID : outcome Z) (p : receivedRawPacket) (c : client) : client * outcome unit → Prop :=
  | ignored o : (Forall is_byte (rawData p) → o = Panic → session c = None ∨ ∃ x, session c = Some x ∧ RemoteAddr x = Panic) →
      client_effect d newID p c (c, o)
  | called f : keeps f → client_effect d newID p c (onSession f c)
  | accepted f : keeps f → versionNegotiated c = false → client_effect d newID p c ((accept;; onSession f) c)
  | switched hdr from : receivedVersionNegotiationPacket c || versionNegotiated c = false →
      client_effect d newID p c (closeOnError (handlePacketWithVersionFlag newClientSession d newID hdr from) c).

Lemma reset_effect d newID p hdr from rest c : (Forall is_byte (rawData p) → Forall is_byte rest) →
  client_effect d newID p c (handleReset hdr from rest c).
Proof.
  intros Hb. unfold handleReset, mbind, St_bind, ask, gets, run. unfold mbind, St_bind.
  destruct (session c) as [x|] eqn:Ex; [|constructor; by left].
  destruct (RemoteAddr x) eqn:Er; [|constructor; done|constructor; intros _ _; right; eauto].
  destruct (negb _ || _); [by constructor|]. destruct (ParsePublicReset rest) eqn:E; [|by constructor|].
  - constructor. intros y. apply same_closeRemote.
  - constructor. intros H%Hb. by apply ParsePublicReset_safe in H.
Qed.

Lemma client_handlePacket_effect d newID p c : client_effect d newID p c (handlePacket newClientSession d newID p c).
Proof.
  unfold handlePacket. unfold mbind at 1, St_bind at 1, gets at 1. cbv zeta.
  pose proof (proj1 (ParsePublicHeader_safe PerspectiveServer (version c)) (rawData p)) as Hs.
  destruct (ParsePublicHeader _ _ _) as [[hdr rest]| |]; [|by constructor|constructor; intros Hb; by apply Hs in Hb].
  destruct (TruncateConnectionID hdr && _); [by constructor|]. destruct (_ && negb (_ =? _)); [by constructor|].
  set (h := with_raw _ hdr). destruct (ResetFlag h).
  { apply reset_effect. intros Hb. destruct (Hs Hb) as [_ [pre Hpre]]. rewrite Hpre in Hb. by apply Forall_app in Hb as [_ ?]. }
  destruct ((_ || _) && VersionFlag h) eqn:Ei; [by constructor|]. destruct (VersionFlag h).
  - rewrite andb_true_r in Ei. cbn [negb andb]. by apply switched.
  - cbn [negb andb]. destruct (versionNegotiated c) eqn:En; cbn [negb].
    + constructor. intros x. apply same_handlePacket.
    + apply accepted; [|done]. intros x. apply same_handlePacket.
Qed.

Lemma accept_ok cfg c : client_ok cfg c → versionNegotiated c = false →
  accept c = (set_versionNegotiationChan true (set_versionNegotiated true c), Ok tt) ∧ client_ok cfg (accept c).1.
Proof.
  intros Hc Hn. unfold accept, closeVersionNegotiationChan, mbind, St_bind, gets, update, run. cbn.
  rewrite (co_chan _ _ Hc), Hn. split; [done|]. by destruct Hc.
Qed.

Lemma packet_ok cfg d newID p c : client_ok cfg c → client_ok cfg (handlePacket newClientSession d newID p c).1.
Proof.
  intros Hc. destruct (client_handlePacket_effect d newID p c) as [o _|f Hf|f Hf Hn|hdr from Hr].
  - done.
  - by apply onSession_ok.
  - destruct (accept_ok cfg c Hc Hn) as [E H1]. rewrite E in H1. rewrite (St_bind_step _ _ _ _ _ E). by apply onSession_ok.
  - apply orb_false_iff in Hr as [Hr _]. pose proof (switch_ok cfg d newID hdr from c Hc Hr) as Hs.
    unfold closeOnError. destruct (handlePacketWithVersionFlag _ _ _ _ _ c) as [c' [|e|]]; [done| |done].
    apply onSession_ok; [apply same_Close|done].
Qed.

Lemma client_reachable_ok cfg id c : reachable cfg id c → client_ok cfg c.
Proof.
  induction 1 as [d to c Hn|c c' _ IH Hs]; [by eapply newClient_ok|].
  destruct Hs as [c d newID p c' o Hh|c x x' Hx Hv Hn].
  - pose proof (packet_ok cfg d newID p c IH) as H. by rewrite Hh in H.
  - by eapply same_session_ok.
Qed.

(** Once a version negotiation packet was taken, the version and the connection ID stay. *)
Definition identity (c : client) : Z * Z := (version c, connectionID c).
Lemma onSession_same f c : identity (onSession f c).1 = identity c.
Proof. unfold onSession, ask, mbind, St_bind, gets, run. by destruct (session c). Qed.

Lemma switched_once d newID p c : receivedVersionNegotiationPacket c || versionNegotiated c = true →
  identity (handlePacket newClientSession d newID p c).1 = identity c.
Proof.
  intros Hr. destruct (client_handlePacket_effect d newID p c) as [o _|f Hf|f Hf Hn|hdr from Hr'].
  - done.
  - apply onSession_same.
  - unfold accept, closeVersionNegotiationChan, mbind, St_bind, gets, update, run. cbn.
    destruct (versionNegotiationChan c); [done|]. by rewrite onSession_same.
  - congruence.
Qed.

(** When sessions can always be made, the client has one and does not panic. *)
Lemma onSession_some f c : is_Some (session c) → is_Some (session (onSession f c).1) ∧ (onSession f c).2 ≠ Panic.
Proof. intros [x Hx]. unfold onSession, ask, mbind, St_bind, gets, run. rewrite Hx. cbn. eauto. Qed.

Section made.
Context (made : ∀ d version id vs to, ∃ x, newClientSession d version id vs to = Ok x).

Lemma switch_some d newID hdr from c : is_Some (session c) →
  let r := closeOnError (handlePacketWithVersionFlag newClientSession d newID hdr from) c in is_Some (session r.1) ∧ (newID ≠ Panic → r.2 ≠ Panic).
Proof.
  intros Hc. cbv zeta. unfold closeOnError, handlePacketWithVersionFlag, mbind, St_bind, gets, update, check, failWith, run.
  assert (∀ f c, is_Some (session c) → is_Some (session (onSession f c).1) ∧ (newID ≠ Panic → (onSession f c).2 ≠ Panic)) as Hs
    by (intros f c1 H1; destruct (onSession_some f c1 H1); auto).
  destruct (existsb _ _); [done|]. destruct (negb (_ =? _)); cbn [mret St_ret]; [|by apply Hs].
  destruct newID as [i|e|]; [|by apply Hs|done]. destruct Hc as [x Hx]. rewrite Hx.
  unfold defer, createNewSession, mbind, St_bind, gets, update, failWith, run.
  cbn [version connectionID set_connectionID set_version set_receivedVersionNegotiationPacket].
  destruct (made d (ChooseSupportedVersion (Versions (config c)) (SupportedVersions hdr)) i (SupportedVersions hdr) from) as [y ->]. cbn. eauto.
Qed.

Lemma packet_some cfg d newID p c : client_ok cfg c → is_Some (session c) →
  let r := handlePacket newClientSession d newID p c in
  is_Some (session r.1) ∧ ((∀ x, session c = Some x → RemoteAddr x ≠ Panic) → newID ≠ Panic → Forall is_byte (rawData p) → r.2 ≠ Panic).
Proof.
  intros Hc Hs. cbv zeta. destruct (client_handlePacket_effect d newID p c) as [o Ho|f Hf|f Hf Hv|hdr from Hr].
  - split; [done|]. intros addr _ Hb E. destruct (Ho Hb E) as [E'|(x & Ex & E')]; [rewrite E' in Hs; by destruct Hs|by apply (addr x Ex) in E'].
  - destruct (onSession_some f c Hs). auto.
  - destruct (accept_ok cfg c Hc Hv) as [E _]. rewrite (St_bind_step _ _ _ _ _ E).
    destruct (onSession_some f (set_versionNegotiationChan true (set_versionNegotiated true c)) Hs). auto.
  - destruct (switch_some d newID hdr from c Hs). auto.
Qed.

Lemma reachable_some cfg id c : reachable cfg id c → is_Some (session c).
Proof.
  induction 1 as [d to c Hn|c c' Hr IH Hs].
  - unfold newClient in Hn. destruct (Versions cfg) as [|v vs]; [done|].
    unfold createNewSession, mbind, St_bind, gets, update, failWith, run in Hn. cbn in Hn.
    destruct (newClientSession _ _ _ _ _); [|done|done]. injection Hn as <-. cbn. eauto.
  - destruct Hs as [c d newID p c' o Hh|c x x' Hx Hv Hn]; [|cbn; eauto].
    pose proof (packet_some cfg d newID p c (client_reachable_ok _ _ _ Hr) IH) as [H _]. by rewrite Hh in H.
Qed.

(** The client negotiates once. Whatever datagrams arrive: after the first packet of the
    server or a version negotiation packet that it followed, the client keeps its version and
    its connection ID; the channel that Dial waits for is closed exactly when the version has
    been accepted, and never twice; the session speaks the version that was offered first, or
    the most preferred one of a negotiation packet without that version; and if sessions can
    always be made, there is one and no datagram makes the client panic. *)
Theorem client_negotiates_once cfg id c d newID p : reachable cfg id c → (∀ x, session c = Some x → RemoteAddr x ≠ Panic) → Forall is_byte (rawData p) → newID ≠ Panic →
  let '(c', o) := handlePacket newClientSession d newID p c in
  o ≠ Panic ∧ client_ok cfg c' ∧ is_Some (session c') ∧
  (receivedVersionNegotiationPacket c || versionNegotiated c = true → version c' = version c ∧ connectionID c' = connectionID c).
Proof.
  intros Hr Ha Hb Hn. pose proof (client_reachable_ok cfg id c Hr) as Hc.
  pose proof (packet_ok cfg d newID p c Hc) as H1. pose proof (switched_once d newID p c) as H2.
  destruct (packet_some cfg d newID p c Hc (reachable_some cfg id c Hr)) as [H3 H4].
  destruct (handlePacket _ _ _ _ _) as [c' o]. split; [by apply H4|]. split; [done|]. split; [done|].
  intros H. specialize (H2 H). by injection H2.
Qed.
End made.

(** *** Downgrades *)
Lemma Choose_ext ours a b : (∀ v, v ∈ ours → v ∈ a ↔ v ∈ b) → ChooseSupportedVersion ours a = ChooseSupportedVersion ours b.
Proof.
  induction ours as [|v ours IH]; intros H; [done|]. cbn. rewrite IH by set_solver.
  assert (existsb (λ w, v =? w) a = existsb (λ w, v =? w) b) as ->; [|done]. apply eq_true_iff_eq.
  assert (∀ l, existsb (λ w, v =? w) l = true ↔ v ∈ l) as E.
  { intros l. rewrite existsb_exists, list_elem_of_In. split; [intros (w & Hw & ->%Z.eqb_eq); done|]. intros Hv. exists v. by rewrite Z.eqb_refl. }
  rewrite !E. apply H. set_solver.
Qed.

(** What the client compares with the list of the negotiation. *)
Definition shown (v : Z) : Z := if negb (IsSupportedVersion protocol.SupportedVersions v) then VersionUnsupported else v.

Lemma versionsLoop_shown neg vs : Forall (λ v, 0 <= v < 1000) vs → length neg = length vs →
  cryptoSetup.versionsLoop neg (cryptoSetup.verTags vs) = true → neg = shown <$> vs.
Proof.
  intros Hvs. revert neg. induction Hvs as [|v vs Hv Hvs IH]; intros [|n neg] Hl; try done.
  change (cryptoSetup.verTags (v :: vs)) with (crypto.le32 (VersionNumberToTag v) ++ cryptoSetup.verTags vs).
  cbn [cryptoSetup.versionsLoop]. rewrite le32_enc, ReadUint32_enc; [|apply VersionNumberToTag_u32|apply verTags_bytes].
  rewrite VersionTag_inverse by done. fold (shown v). destruct (Z.eqb_spec (shown v) n); [|done]. cbn [negb]. intros H.
  rewrite fmap_cons. f_equal; [done|]. apply IH; [by injection Hl|done].
Qed.

Lemma validated_versions h vs : Forall (λ v, 0 <= v < 1000) vs →
  cryptoSetup.validateVersionList h (cryptoSetup.verTags vs) = true →
  cryptoSetup.negotiatedVersions h = [] ∨ cryptoSetup.negotiatedVersions h = shown <$> vs.
Proof.
  intros Hvs. unfold cryptoSetup.validateVersionList. rewrite (proj2 (verTags_bytes vs)).
  destruct (Z.eqb_spec (len (cryptoSetup.negotiatedVersions h)) 0); [intros _; left; apply length_zero_iff_nil; unfold len in *; lia|].
  destruct (_ || _) eqn:E; [done|]. apply orb_false_iff in E as [_ E]. apply negb_false_iff, Z.eqb_eq in E.
  rewrite Z.mul_comm, Z.div_mul in E by done. intros H. right. apply versionsLoop_shown; [done|unfold len in *; lia|done].
Qed.

Lemma shown_mem v (vs : list Z) : v ∈ protocol.SupportedVersions → v ∈ shown <$> vs ↔ v ∈ vs.
Proof.
  intros Hv. assert (v ≠ VersionUnsupported) as Hne by (intros ->; by apply IsSupportedVersion_spec in Hv).
  rewrite list_elem_of_fmap. unfold shown. split.
  - intros (w & E & Hw). destruct (negb _); [done|by subst].
  - intros Hin. exists v. apply IsSupportedVersion_spec in Hv. by rewrite Hv.
Qed.

Lemma shlo_versions P ov m vs h h' : m !! handshake.TagVER = Some (cryptoSetup.verTags vs) →
  cryptoSetup.handleSHLOMessage P ov m h = (h', Ok tt) → cryptoSetup.validateVersionList h (cryptoSetup.verTags vs) = true.
Proof.
  intros Hm H. unfold cryptoSetup.handleSHLOMessage in H. rewrite Hm in H. returned.
  destruct (m !! handshake.TagPUBS); returned. done.
Qed.

(** C17: a downgrade is detected. If the handshake completes, with the list of versions of the
    server in its hello, then the session speaks the version that the client offered first,
    or the server does not speak that one and the session speaks the most preferred version
    of the client that the server speaks, whatever version negotiation packets, forged ones
    too, the client was given before. *)
Theorem downgrade_detected cfg id c x offered P ov m vs h h' :
  Forall (λ v, v ∈ protocol.SupportedVersions) (Versions cfg) → head (Versions cfg) = Some offered →
  reachable cfg id c → session c = Some x → cryptoSetup.negotiatedVersions h = negotiated x →
  Forall (λ v, 0 <= v < 1000) vs → m !! handshake.TagVER = Some (cryptoSetup.verTags vs) →
  cryptoSetup.handleSHLOMessage P ov m h = (h', Ok tt) →
  GetVersion x = offered ∨
  (offered ∉ vs ∧ GetVersion x ∈ vs ∧ GetVersion x = ChooseSupportedVersion (Versions cfg) vs).
Proof.
  intros Hc Ho Hr Hx Hn Hvs Hm H. rewrite Forall_forall in Hc.
  destruct (validated_versions h vs Hvs (shlo_versions _ _ _ _ _ _ Hm H)) as [E|E]; rewrite Hn in E;
    destruct (co_session _ _ (client_reachable_ok _ _ _ Hr) _ _ Ho Hx) as [[_ ?]|(H1 & H2 & H3)]; try by left.
  - exfalso. apply H2. rewrite H3, E. clear. by induction (Versions cfg).
  - rewrite E in H1, H3. right.
    assert (offered ∈ Versions cfg) as Hin by (destruct (Versions cfg); [done|]; injection Ho as <-; set_solver).
    rewrite (Choose_ext _ _ vs) in H3 by (intros v Hv; by apply shown_mem, Hc).
    split; [|split; [|done]].
    + intros Hv. by apply H1, shown_mem; [apply Hc|].
    + rewrite H3. apply ChooseSupportedVersion_in. by rewrite <- H3.
Qed.

End client_theory.

(** ** A client and a server *)
Section agreement.
Import protocol session publicReset PublicHeader endpoint.
Context {S1 S2 D1 D2 : Type} `{!packetHandler S1, !packetHandler S2}.
Context (newSession : D1 → Z → Z → net.UDPAddr → net.UDPAddr → outcome S1).
Context (newClientSession : D2 → Z → Z → list Z → net.UDPAddr → outcome S2).
Context (negotiated1 : S1 → list Z) (negotiated2 : S2 → list Z) `{!packetHandlerOk S1 negotiated1, !packetHandlerOk S2 negotiated2}.
Context (newSession_ok : ∀ d version id local remote, ∃ x, newSession d version id local remote = Ok x ∧ GetVersion x = version).
Context (newClientSession_ok : ∀ d version id vs remote, ∃ x, newClientSession d version id vs remote = Ok x ∧
  GetVersion x = version ∧ negotiated2 x = vs).
Implicit Types (s : @server.server S1) (c : @client.client S2).

(** The version of a packet that has one is used, whatever the receiver expects. *)
Lemma parse_versioned pers version version' r hdr rest : ParsePublicHeader pers version r = Ok (hdr, rest) → VersionFlag hdr = true →
  ParsePublicHeader pers version' r = Ok (hdr, rest).
Proof.
  destruct r as [|b r]; [done|]. unfold ParsePublicHeader. rewrite !(parser_bind_ok ReadByte _ (b :: r) b r) by done. cbv zeta.
  destruct (0 <? Z.land b 1) eqn:E1.
  - cbn [orb negb]. rewrite !andb_false_r. destruct (0 <? Z.land b 2); cbn [negb andb hasPacketNumber]; done.
  - intros H Hv. exfalso. rewrite !andb_false_r in H. cbn [andb] in H. destruct (_ && negb _); [done|]. destruct (_ && isClient _); [done|].
    apply parser_bind_inv in H as (cid & r1 & _ & H). apply parser_bind_inv in H as (n & r2 & _ & H).
    apply parser_bind_inv in H as (v & r3 & _ & H). apply parser_bind_inv in H as (pid & r4 & _ & H).
    apply parser_bind_inv in H as (pn & r5 & _ & H). by injection H as <- _.
Qed.

(** A packet of a client that does not know yet whether the server accepts its version. *)
Definition client_packet c (p : receivedRawPacket) : Prop := ∃ h bs payload,
  valid_header h (client.version c) PerspectiveClient ∧ VersionFlag h = true ∧ ConnectionID h = client.connectionID c ∧
  Write h (client.version c) PerspectiveClient = Ok bs ∧ rawData p = bs ++ payload ∧ Forall is_byte payload ∧
  cryptoSetup.ClientHelloMinimumSize <= len payload.

(** The server has a session for the connection, with this version. *)
Definition serves s (id version : Z) : Prop := ∃ h x,
  server.sessions s !! id = Some (Some h) ∧ server.store s !! h = Some x ∧ GetVersion x = version.

Lemma client_packet_read c p : client_packet c p → ∃ hdr payload,
  PeekConnectionID PerspectiveClient (rawData p) = (Ok (client.connectionID c), rawData p) ∧
  ParsePublicHeader PerspectiveClient VersionUnknown (rawData p) = Ok (hdr, payload) ∧
  VersionFlag hdr = true ∧ ResetFlag hdr = false ∧ VersionNumber hdr = client.version c ∧ ConnectionID hdr = client.connectionID c ∧
  is_u64 (client.connectionID c) ∧ client.connectionID c ≠ 0 ∧
  len (consumed (rawData p) payload) + cryptoSetup.ClientHelloMinimumSize <= len (rawData p).
Proof.
  intros (h & bs & payload & Hv & Hf & Hid & Hw & Hp & Hb & Hl).
  destruct (header_reads h (client.version c) PerspectiveClient Hv) as [(bs' & Hw' & _ & Hbb & Hparse) _].
  assert (bs' = bs) as -> by congruence. specialize (Hparse payload). rewrite <- Hp in Hparse.
  pose proof (PeekConnectionID_spec h (client.version c) PerspectiveClient bs payload Hv Hw Hb) as Hpeek. rewrite <- Hp in Hpeek.
  destruct Hv as (Hc1 & Hc2 & Hc3 & Hrf & _ & Hvn & _). destruct (Hvn Hf) as [Hvn' _].
  assert (TruncateConnectionID h = false) as Ht by (destruct (TruncateConnectionID h); [by specialize (Hc3 eq_refl)|done]).
  exists (header_image h), payload. unfold header_image in *. rewrite Ht, Hf in *. cbn [ConnectionID VersionFlag ResetFlag VersionNumber] in *.
  rewrite Hid in *. split; [done|]. split; [eapply parse_versioned; [by apply Hparse|done]|]. split_and!; try done; [by apply Hc2|].
  unfold consumed. rewrite Hp, length_app, Nat.add_sub, take_app_length, len_app. unfold len in *. lia.
Qed.

Lemma server_accepts d result p s c : client_packet c p → server.sessions s !! client.connectionID c = None →
  client.version c ∈ Versions (server.config s) →
  serves (server.handlePacket newSession d result p s).1 (client.connectionID c) (client.version c).
Proof.
  intros Hp Hs Hv. destruct (client_packet_read c p Hp) as (hdr & payload & Hpeek & Hparse & Hf & Hr & Hn & Hid & _ & _ & Hl).
  apply IsSupportedVersion_spec in Hv.
  unfold server.handlePacket. rewrite Hpeek. unfold mbind at 1, St_bind at 1, gets. rewrite Hs. cbn [mjoin option_join].
  unfold mbind at 1, St_bind at 1. cbn [mret St_ret]. rewrite Hparse.
  unfold server.handleHeader, mbind at 1, St_bind at 1, gets at 1. cbv zeta.
  cbn [with_raw ResetFlag VersionFlag VersionNumber ConnectionID]. rewrite Hr, Hf, Hn, Hid, Hv. cbn [negb andb]. rewrite andb_false_r.
  unfold server.serve, mbind, St_bind, gets, check, run, update, mret, St_ret. cbn [with_raw VersionNumber ConnectionID]. rewrite Hn, Hv, Hid.
  destruct (newSession_ok d (client.version c) (client.connectionID c) (rcvPconn p) (rawFrom p)) as (x & -> & Hx).
  unfold server.onSession, server.deref, mbind, St_bind, gets, update. cbn [server.store server.set_handshaking server.set_running server.set_sessions server.set_store].
  rewrite lookup_insert_eq. eexists _, _. cbn. rewrite !lookup_insert_eq. split; [done|]. split; [done|].
  by rewrite (proj1 (same_handlePacket _ _)).
Qed.

Lemma server_negotiates d p s c : client_packet c p → server.sessions s !! client.connectionID c = None →
  client.version c ∉ Versions (server.config s) →
  ∃ bs, ComposeVersionNegotiation (client.connectionID c) (Versions (server.config s)) = Ok bs ∧
    server.handlePacket newSession d None p s = (server.set_written (server.written s ++ [(rawFrom p, bs)]) s, Ok tt).
Proof.
  intros Hp Hs Hv. destruct (client_packet_read c p Hp) as (hdr & payload & Hpeek & Hparse & Hf & Hr & Hn & Hid & _ & _ & Hl).
  assert (IsSupportedVersion (Versions (server.config s)) (client.version c) = false) as Hv'
    by (apply not_true_iff_false; by rewrite IsSupportedVersion_spec).
  destruct (negotiation_length (client.connectionID c) (Versions (server.config s))) as (bs & Hbs & _). exists bs. split; [done|].
  unfold server.handlePacket. rewrite Hpeek. unfold mbind at 1, St_bind at 1, gets. rewrite Hs. cbn [mjoin option_join].
  unfold mbind at 1, St_bind at 1. cbn [mret St_ret]. rewrite Hparse.
  unfold server.handleHeader, mbind at 1, St_bind at 1, gets at 1. cbv zeta.
  cbn [with_raw ResetFlag VersionFlag VersionNumber ConnectionID Raw]. rewrite Hr, Hf, Hn, Hid, Hv'. cbn [negb andb bool_decide].
  rewrite bool_decide_false by by intros []. cbn [andb].
  unfold mbind, St_bind, check. destruct (Z.ltb_spec (len (rawData p)) (cryptoSetup.ClientHelloMinimumSize + len (consumed (rawData p) payload))); [lia|].
  cbn [negb mret St_ret]. unfold server.writeTo, mbind, St_bind, run. by rewrite Hbs.
Qed.

Lemma client_switches d id q c cfg vs bs v : client_ok negotiated2 cfg c → is_Some (client.session c) →
  client.receivedVersionNegotiationPacket c = false → client.versionNegotiated c = false →
  is_u64 (client.connectionID c) → client.connectionID c ≠ 0 → Forall (λ v, 0 <= v < 1000) vs → client.version c ∉ vs →
  ComposeVersionNegotiation (client.connectionID c) vs = Ok bs → rawData q = bs →
  v = ChooseSupportedVersion (Versions cfg) vs → v ≠ VersionUnsupported →
  ∃ c' x, client.handlePacket newClientSession d (Ok id) q c = (c', Ok tt) ∧
    client.version c' = v ∧ client.connectionID c' = id ∧ client.session c' = Some x ∧ GetVersion x = v.
Proof.
  intros Hc [old Hold] Hr Hn Hu H0 Hvs Hv Hw Hq -> Hne.
  destruct (version_negotiation_roundtrip (client.connectionID c) vs (client.version c) Hu H0 Hvs) as (bs' & Hw' & Hparse).
  assert (bs' = bs) as -> by congruence. unfold client.handlePacket, mbind at 1, St_bind at 1, gets at 1. cbv zeta.
  rewrite Hq, Hparse. cbn [with_raw TruncateConnectionID ConnectionID ResetFlag VersionFlag andb negb]. rewrite Z.eqb_refl, Hr, Hn. cbn [negb andb orb].
  unfold mbind at 1, St_bind at 1. cbn [mret St_ret]. unfold client.closeOnError, client.handlePacketWithVersionFlag, mbind, St_bind, gets, update, check, run.
  cbn [with_raw PublicHeader.SupportedVersions].
  destruct (existsb _ _) eqn:Ee.
  { apply existsb_exists in Ee as (w & Hw1 & ->%Z.eqb_eq). by apply list_elem_of_In in Hw1. }
  rewrite (co_config _ _ _ Hc). apply Z.eqb_neq in Hne. rewrite Hne. cbn [negb mret St_ret]. rewrite Hold.
  unfold client.defer, client.createNewSession, mbind, St_bind, gets, update.
  cbn [client.version client.connectionID client.set_connectionID client.set_version client.set_receivedVersionNegotiationPacket].
  destruct (newClientSession_ok d (ChooseSupportedVersion (Versions cfg) vs) id vs (rawFrom q)) as (x & -> & Hx & _).
  eexists _, x. split; [reflexivity|done].
Qed.

(** C23: a client and a server that have a version in common find it. A client that has not
    heard from the server sends a packet, with a payload of at least 1024 bytes, which its
    padded hello has; the server has no session for its connection. If the server speaks the version, it has a session with it then. If not, it sends a version
    negotiation packet, and the client that receives it changes to the version that it likes
    best among those of the server, with a new connection ID; the server makes a session with
    that version when the next packet of the client arrives. In both cases this is the
    client's most preferred common version. *)
Theorem versions_agree c cfg id0 s p d : reachable newClientSession negotiated2 cfg id0 c →
  client.receivedVersionNegotiationPacket c = false → client.versionNegotiated c = false → client_packet c p →
  server.sessions s !! client.connectionID c = None → Forall (λ v, 0 <= v < 1000) (Versions (server.config s)) →
  let v := ChooseSupportedVersion (Versions cfg) (Versions (server.config s)) in v ≠ VersionUnsupported →
  let s1 := (server.handlePacket newSession d None p s).1 in
  (client.version c = v ∧ serves s1 (client.connectionID c) v) ∨
  (∃ reply, s1 = server.set_written (server.written s ++ [(rawFrom p, reply)]) s ∧
     ∀ d' id q, rawData q = reply → let c1 := (client.handlePacket newClientSession d' (Ok id) q c).1 in
       client.version c1 = v ∧ client.connectionID c1 = id ∧ (∃ x, client.session c1 = Some x ∧ GetVersion x = v) ∧
       ∀ d'' p', client_packet c1 p' → server.sessions s1 !! id = None → serves (server.handlePacket newSession d'' None p' s1).1 id v).
Proof.
  intros Hr Hrv Hvn Hp Hs Hvs v Hv s1.
  assert (∀ d v i vs a x, newClientSession d v i vs a = Ok x → GetVersion x = v ∧ negotiated2 x = vs) as Hok.
  { intros d1 v1 i1 vs1 a1 x1 E. destruct (newClientSession_ok d1 v1 i1 vs1 a1) as (x & E' & ? & ?). by assert (x1 = x) as -> by congruence. }
  assert (client_ok negotiated2 cfg c) as Hc by by eapply client_reachable_ok.
  destruct (co_before _ _ _ Hc Hrv) as [Hh _].
  destruct (decide (client.version c ∈ Versions (server.config s))) as [Hin|Hin].
  - left. assert (client.version c = v) as E.
    { unfold v. destruct (Versions cfg) as [|w ws]; [done|]. injection Hh as ->. cbn.
      destruct (existsb _ _) eqn:Ee; [done|]. rewrite <- not_true_iff_false in Ee. destruct Ee. apply existsb_exists.
      exists (client.version c). split; [by apply list_elem_of_In|apply Z.eqb_refl]. }
    split; [done|]. rewrite <- E. by apply server_accepts.
  - right. destruct (server_negotiates d p s c Hp Hs Hin) as (bs & Hbs & Hs1). exists bs. unfold s1. rewrite Hs1. split; [done|].
    intros d' id q Hq. destruct (client_packet_read c p Hp) as (_ & _ & _ & _ & _ & _ & _ & _ & Hu & H0 & _).
    assert (is_Some (client.session c)) as Hsome.
    { eapply (reachable_some newClientSession negotiated2 Hok); [|exact Hr]. intros d1 v1 i1 vs1 a1. destruct (newClientSession_ok d1 v1 i1 vs1 a1) as (x & ? & _). eauto. }
    destruct (client_switches d' id q c cfg _ bs v Hc Hsome Hrv Hvn Hu H0 Hvs Hin Hbs Hq eq_refl Hv) as (c1 & x & E & E1 & E2 & Ex & E3).
    cbv zeta. rewrite E. cbn [fst]. split; [done|]. split; [done|]. split; [eauto|]. intros d'' p' Hp' Hs'. rewrite <- E1, <- E2. apply server_accepts; [done|by rewrite E2|].
    rewrite E1. by apply ChooseSupportedVersion_in.
Qed.

End agreement.

(** ** Defaults

    The default flow control windows are large enough for what both ends start with. *)
Lemma default_windows accept : let s := endpoint.populateServerConfig accept None in let c := endpoint.populateClientConfig None in
  Forall (λ cfg, connectionParameters.ReceiveStreamFlowControlWindow <= endpoint.MaxReceiveStreamFlowControlWindow cfg < 2 ^ 32 ∧
    connectionParameters.ReceiveConnectionFlowControlWindow <= endpoint.MaxReceiveConnectionFlowControlWindow cfg < 2 ^ 32 ∧
    0 <= endpoint.IdleTimeout cfg < 2 ^ 32 * time.Second ∧ endpoint.Versions cfg = protocol.SupportedVersions) [s; c].
Proof. repeat constructor; vm_compute; congruence. Qed.

(** ** Examples *)
Module EndpointExamples.
Import protocol session PublicHeader endpoint.

(** A session that only keeps what it is given. *)
Record toySession := MkToy { tVersion : Z; tNegotiated : list Z; tPackets : list receivedPacket; tErrors : list (option error) }.
#[local] Instance toy_packetHandler : packetHandler toySession := {
  GetVersion := tVersion;
  RemoteAddr _ := Ok (net.MkUDPAddr [10; 0; 0; 2] 443 "");
  handlePacket p x := MkToy (tVersion x) (tNegotiated x) (tPackets x ++ [p]) (tErrors x);
  closeRemote e x := MkToy (tVersion x) (tNegotiated x) (tPackets x) (tErrors x ++ [Some e]);
  Close e x := MkToy (tVersion x) (tNegotiated x) (tPackets x) (tErrors x ++ [e]);
}.
#[local] Instance toy_packetHandlerOk : packetHandlerOk toySession tNegotiated.
Proof. by split. Qed.

Definition serverAddr : net.UDPAddr := net.MkUDPAddr [10; 0; 0; 2] 443 "".
Definition clientAddr : net.UDPAddr := net.MkUDPAddr [10; 0; 0; 1] 4433 "".
Definition newSrv (d : unit) (version id : Z) (local remote : net.UDPAddr) : outcome toySession := Ok (MkToy version [] [] []).
Definition newCli (d : unit) (version id : Z) (vs : list Z) (remote : net.UDPAddr) : outcome toySession := Ok (MkToy version vs [] []).

(** The client prefers version 39, which the server does not speak. *)
Definition config (versions : list Z) : Config := MkConfig versions false 0 0 None 0 0 false false false.
Definition srvConfig : Config := populateServerConfig (λ _ _, true) (Some (config [512; 37])).
Definition cliConfig : Config := populateClientConfig (Some (config [39; 512])).
Definition srv : server.server := server.newServer (S := toySession) srvConfig.
Definition cli : client.client :=
  match client.newClient newCli tt cliConfig 77 serverAddr with Ok c => c | _ => client.MkClient cliConfig 0 0 false false false None [] end.

(** The first packet of a client. *)
Definition firstHeader (c : client.client (S := toySession)) : PublicHeader :=
  MkPublicHeader [] (client.connectionID c) 0 true false false false 1 1 (client.version c) [] [].
Definition firstPacket (c : client.client (S := toySession)) : receivedRawPacket :=
  MkRawPacket serverAddr clientAddr
    (match Write (firstHeader c) (client.version c) PerspectiveClient with Ok bs => bs | _ => [] end ++ replicate 1100 0) 0.

Definition srv1 : server.server := (server.handlePacket newSrv tt None (firstPacket cli) srv).1.
Definition reply : receivedRawPacket := MkRawPacket clientAddr serverAddr (match server.written srv1 with [(_, bs)] => bs | _ => [] end) 0.
Definition cli1 : client.client := (client.handlePacket newCli tt (Ok 78) reply cli).1.
Definition srv2 : server.server := (server.handlePacket newSrv tt None (firstPacket cli1) srv1).1.

Lemma cli_reachable : reachable newCli tNegotiated cliConfig 77 cli.
Proof. apply (reachable_new newCli tNegotiated cliConfig 77 tt serverAddr). reflexivity. Qed.
Lemma cli1_reachable : reachable newCli tNegotiated cliConfig 77 cli1.
Proof.
  eapply reachable_step; [apply cli_reachable|].
  apply (client.step_packet newCli tNegotiated cli tt (Ok 78) reply cli1 (client.handlePacket newCli tt (Ok 78) reply cli).2). apply surjective_pairing.
Qed.
Lemma srv2_reachable : server.reachable newSrv srvConfig srv2.
Proof.
  eapply server.reachable_step; [eapply server.reachable_step; [apply server.reachable_new|]|].
  - apply (server.step_packet newSrv srv tt None (firstPacket cli) srv1 (server.handlePacket newSrv tt None (firstPacket cli) srv).2). apply surjective_pairing.
  - apply (server.step_packet newSrv srv1 tt None (firstPacket cli1) srv2 (server.handlePacket newSrv tt None (firstPacket cli1) srv1).2). apply surjective_pairing.
Qed.

(** The client changed to version 512, and the server has one session, with that version. *)
Example negotiated_512 : client.version cli1 = 512 ∧ server.sessions srv2 = {[78 := Some 0%nat]} ∧
  (tVersion <$> server.store srv2) = {[0%nat := 512]}.
Proof. vm_compute. split_and!; reflexivity. Qed.

Lemma versions_agree_witness :
  client.version cli1 = 512 ∧ serves (server.handlePacket newSrv tt None (firstPacket cli1) srv1).1 78 512.
Proof.
  assert (∀ c bs, Write (firstHeader c) (client.version c) PerspectiveClient = Ok bs → is_u64 (client.connectionID c) → client.connectionID c ≠ 0 →
    0 <= client.version c < 1000 → client_packet c (firstPacket c)) as Hp.
  { intros c bs Hw H1 H2 H3. exists (firstHeader c), bs, (replicate 1100 0). unfold firstPacket. cbn [rawData]. rewrite Hw. split.
    - unfold valid_header. cbn. split_and!; try done; try (by left); unfold is_u64, is_u8; lia.
    - split_and!; try done. apply Forall_replicate. done. }
  assert (client_packet cli (firstPacket cli)) as H1.
  { eapply (Hp cli); [vm_compute; reflexivity|vm_compute; split; congruence|vm_compute; congruence|vm_compute; split; congruence]. }
  assert (client_packet cli1 (firstPacket cli1)) as H2.
  { eapply (Hp cli1); [vm_compute; reflexivity|vm_compute; split; congruence|vm_compute; congruence|vm_compute; split; congruence]. }
  pose proof (versions_agree newSrv newCli tNegotiated tNegotiated (λ d v id l r, ex_intro _ (MkToy v [] [] []) (conj eq_refl eq_refl))
    (λ d v id vs r, ex_intro _ (MkToy v vs [] []) (conj eq_refl (conj eq_refl eq_refl)))
    cli cliConfig 77 srv (firstPacket cli) tt cli_reachable eq_refl eq_refl H1 eq_refl) as H.
  assert (ChooseSupportedVersion (Versions cliConfig) (Versions (server.config srv)) = 512) as E by reflexivity. rewrite E in H.
  destruct H as [[H _]|(bs & Hs & H)]; [repeat constructor; vm_compute; congruence|vm_compute; congruence|by vm_compute in H|].
  assert (rawData reply = bs) as Hbs.
  { apply (f_equal server.written) in Hs. unfold reply. cbn [rawData]. fold srv1 in Hs. rewrite Hs. reflexivity. }
  destruct (H tt 78 reply Hbs) as (Hv & _ & _ & H'). split; [exact Hv|]. apply (H' tt (firstPacket cli1) H2). vm_compute. reflexivity.
Defined.


Lemma server_invariant_witness : server_ok srvConfig srv2 ∧ (server.handlePacket newSrv tt None reply srv2).2 ≠ Panic.
Proof.
  apply (server_invariant newSrv tNegotiated (λ d v id l r x E, ltac:(injection E as <-; reflexivity)) srvConfig srv2 tt None reply).
  - vm_compute. intros H. repeat (apply elem_of_cons in H as [H|H]; [discriminate H|]). by apply not_elem_of_nil in H.
  - apply srv2_reachable.
  - vm_compute. repeat constructor; congruence.
  - discriminate.
Defined.

(** A packet of somebody else for the connection 78: nothing but the session 0 may change. *)
Definition stray : receivedRawPacket := MkRawPacket serverAddr clientAddr [8; 79; 0; 0; 0; 0; 0; 0; 0; 1; 7] 0.
Lemma packets_isolated_witness :
  let s' := (server.handlePacket newSrv tt None stray srv2).1 in
  server.store s' !! 0%nat = server.store srv2 !! 0%nat ∧ server.written s' ≠ server.written srv2.
Proof.
  split; [|vm_compute; congruence].
  destruct (packets_isolated newSrv tNegotiated (λ d v id l r x E, ltac:(injection E as <-; reflexivity)) srvConfig srv2 tt None stray
    (server.handlePacket newSrv tt None stray srv2).1 (server.handlePacket newSrv tt None stray srv2).2 79) as [H _].
  - vm_compute. intros H. repeat (apply elem_of_cons in H as [H|H]; [discriminate H|]). by apply not_elem_of_nil in H.
  - apply srv2_reachable.
  - vm_compute. congruence.
  - apply surjective_pairing.
  - vm_compute. reflexivity.
  - destruct (server.store srv2 !! 0%nat) as [x|] eqn:E; [|by vm_compute in E]. apply (H 0%nat x E). vm_compute. congruence.
Defined.

Lemma client_negotiates_once_witness :
  (client.handlePacket newCli tt (Ok 79) reply cli1).2 ≠ Panic ∧ client.version (client.handlePacket newCli tt (Ok 79) reply cli1).1 = 512.
Proof.
  assert (∀ (d : unit) version id vs to, ∃ x, newCli d version id vs to = Ok x) as Hmade by (intros; eexists; reflexivity).
  pose proof (client_negotiates_once newCli tNegotiated (λ d v id vs r x E, ltac:(injection E as <-; split; reflexivity)) Hmade
    cliConfig 77 cli1 tt (Ok 79) reply cli1_reachable (λ x _, ltac:(discriminate))) as H.
  destruct (client.handlePacket newCli tt (Ok 79) reply cli1) as [c' o] eqn:E.
  destruct H as (Ho & _ & _ & Hv); [vm_compute; repeat constructor; congruence|discriminate|]. split; [exact Ho|].
  destruct Hv as [Hv _]; [vm_compute; reflexivity|]. cbn [fst]. rewrite Hv. vm_compute. reflexivity.
Defined.

(** The handshake of the client that changed its version, up to the hello of a server that
    speaks the versions 512 and 37. *)
Import CryptoSetupExamples CryptoExamples.
Definition h0 : cryptoSetup.client :=
  cryptoSetup.NewCryptoSetupClient (cryptoSetup.hostname c0) 78 512 (cryptoSetup.cParameters c0) true false [512; 37].
Definition k0 : cryptoSetup.server :=
  cryptoSetup.NewCryptoSetup 78 (serverConfig.UDP [10; 0; 0; 1]) 512 (cryptoSetup.scfg s0) (cryptoSetup.sParameters s0) [512; 37]
    (serverConfig.defaultAcceptCookie toyText (101 * time.Second)) (replicate 16 5).
Definition h1 : cryptoSetup.client := (cryptoSetup.clientStart toy 12 toyCerts noCache draw h0).1.
Definition k1 : cryptoSetup.server := (serverTurn h1 k0).1.
Definition h2 : cryptoSetup.client := (clientTurn h1 k1).1.
Definition k2 : cryptoSetup.server := (serverTurn h2 k1).1.
Definition h3 : cryptoSetup.client := (clientTurn h2 k2).1.
Definition k3 : cryptoSetup.server := (serverTurn h3 k2).1.
Definition h4 : cryptoSetup.client := (cryptoSetup.clientIteration toy 12 toyCerts draw (cryptoSetup.DivNonce (cryptoSetup.sDiversificationNonce k3)) h3).1.
Definition shloPacket : list Z := Seal (snd (GetSealerForCryptoStream (cryptoSetup.serverSetup toy k3))) (lastOf (cryptoSetup.sWritten k3)) 3 [8].
Definition h5 : cryptoSetup.client := (cryptoSetup.clientOpen toy shloPacket 3 [8] h4).1.
Definition shlo : gmap Z (list Z) := handshake.Data (messageOf k3).

Lemma with_result {A B} (r : A * B) b : r.2 = b → r = (r.1, b).
Proof. by destruct r; cbn; intros ->. Qed.

Lemma downgrade_detected_witness : 39 ∉ ([512; 37] : list Z) ∧ client.version cli1 = ChooseSupportedVersion (Versions cliConfig) [512; 37].
Proof.
  destruct (client.session cli1) as [x|] eqn:Ex; [|by vm_compute in Ex].
  destruct (downgrade_detected newCli tNegotiated (λ d v id vs r y E, ltac:(injection E as <-; split; reflexivity)) cliConfig 77 cli1 x 39
    toy 12 shlo [512; 37] h5 (cryptoSetup.handleSHLOMessage toy 12 shlo h5).1) as [H|(H1 & H2 & H3)].
  - repeat constructor; apply IsSupportedVersion_spec; reflexivity.
  - reflexivity.
  - apply cli1_reachable.
  - exact Ex.
  - vm_compute in Ex. injection Ex as <-. vm_compute. reflexivity.
  - repeat (apply List.Forall_cons; [lia|]). apply List.Forall_nil.
  - vm_compute. reflexivity.
  - apply with_result. vm_compute. reflexivity.
  - vm_compute in Ex. injection Ex as <-. discriminate H.
  - split; [exact H1|]. rewrite <- H3. vm_compute in Ex. injection Ex as <-. vm_compute. reflexivity.
Defined.

(** *** What modelling showed

    When the session for the new version cannot be made, the client has none, and closing it
    panics. *)
Definition failsOnce (d : bool) (version id : Z) (vs : list Z) (remote : net.UDPAddr) : outcome toySession :=
  if d then Err (NewError "no session") else Ok (MkToy version vs [] []).
Example no_session_panics : (client.handlePacket failsOnce true (Ok 78) reply cli).2 = Panic.
Proof. vm_compute. reflexivity. Qed.

(** A server with a version that the client does not know is taken for an attacker: the
    negotiation packet keeps the number, the check of the hello does not. *)
Example unknown_version_refused :
  let h := cryptoSetup.NewCryptoSetupClient [] 78 512 (cryptoSetup.cParameters c0) true false [512; 43] in
  cryptoSetup.validateVersionList h (cryptoSetup.verTags [512; 43]) = false.
Proof. vm_compute. reflexivity. Qed.

(** Nine bytes are answered with forty-nine. *)
Example reset_amplifies : let p := MkRawPacket serverAddr clientAddr [8; 1; 0; 0; 0; 0; 0; 0; 0] 0 in
  (len ∘ snd) <$> server.written (server.handlePacket newSrv tt None p srv).1 = [49].
Proof. vm_compute. reflexivity. Qed.

End EndpointExamples.
